(* ===== verification/_CoqProject ===== *)
-Q . S2P
Prelude.v
Bytecode.v
Types.v
Wots.v
Mss.v
Script.v
Instr.v
Templates.v
Mmr.v
Smt.v
Transaction.v
Difficulty.v
State.v
Chain.v
Supply.v
Mempool.v
Miner.v
Filter.v
Wire.v
Channel.v
ChannelWire.v
Dex.v
Wallet.v
WalletSelect.v
WalletSpend.v
WalletSafe.v
WalletReveal.v
SendPlan.v
Mix.v
MixSafe.v
MixDone.v
Pool.v
PoolSafe.v
PoolPay.v
Swap.v
SwapWatch.v
SwapSafe.v
SwapStuck.v
SwapSweep.v
SwapPlan.v
Defrag.v
DefragSafe.v
Ledger.v
Sends.v
SendsBook.v
SendsSafe.v
SendsRun.v
SendsLimits.v
