(* ===== verification/Prelude.v ===== *)
(** * A verification development of the mirstat node

    mirstat is a proof-of-work blockchain node in Rust.  Coins are commitments
    [H(address, value, salt)] held in a sparse Merkle accumulator; a spend is
    first committed to, under a small proof of work, and later revealed; spending
    conditions are programs of a stack machine, signed with hash-based one-time
    keys; blocks carry a chain of sequential hashes and retarget with ASERT.
    This library models the consensus core of the node, its mempool and block
    production, the light client's filters, and the layer-two and wallet code
    built on them, and proves what makes each part correct.

    ** Files, and the code they model

    The order is that of the dependencies.  Source paths are below [src/src/].

    - [Prelude]: bytes, byte arrays, [u64] arithmetic, the result type [res]
      (value, error, or abort of the thread), the state monad [ST], [slice],
      the hint database [safe] and the tactics [ok_step] and [safe_step].
    - [Bytecode], [Script], [Instr], [Templates] ([core/script.rs]): opcodes and the
      assembler; the validator and the machine ([execute_script]); a reference
      semantics on decoded instructions that the machine refines; and, by a
      weakest-precondition calculus on it, the exact witnesses of each template.
    - [Types] ([core/types.rs]): predicates, inputs, outputs, transactions, blocks,
      their hashes, denominations and the reward schedule.
    - [Wots] ([core/wots.rs], [core/wots_simd.rs]) and [Mss] ([core/mss.rs]): the
      one-time and many-time signatures.
    - [Mmr] and [Smt] ([core/mmr.rs]): the Merkle Mountain Range and the sparse
      Merkle accumulator, the latter behind the interface [SetAccumulator], which
      the transaction and state code is generic in and [Smt] implements.
    - [Transaction] ([core/transaction.rs]): commit proof of work, signature checks,
      application to the state with and without them, validation.
    - [Difficulty] ([core/state.rs], [core/extension.rs]): targets, work, timestamps
      and sequential work.
    - [State] ([core/state.rs]): genesis and block application.
    - [Chain] ([core/state.rs], [sync.rs]): reachable states, replay, the invariants
      of every reachable state.  [Supply]: the money supply over a chain.
    - [Mempool] ([mempool.rs]): admission, replacement, eviction, pruning, draining.
    - [Miner] ([node.rs], [mining.rs]): the coinbase and both block templates.
    - [Filter] ([core/filter.rs]): compact block filters and the client's matching.
    - [Wire]: fixed-width fields with laws (class [FieldLaws]) and readers with laws
      (class [Reads]), which the next two decoders are built from.
    - [Channel] and [ChannelWire] ([core/channel.rs]): payment channels, their
      covenant, states, reveals and messages.
    - [Dex] ([core/dex.rs]): order announcements, their fragments and pool, and the
      inputs that spend an order.
    - [Wallet], [WalletSelect], [WalletSpend] ([wallet/mod.rs], [wallet/hd.rs]): the
      wallet's data, seeds, keys and coins; coin selection; building outputs,
      commits, reveals, private sends and the wallet's side of a mix.  [WalletSafe]:
      the operations as steps, and the invariants of every reachable wallet.
      [WalletReveal]: a commit of the wallet leads to a valid reveal.
    - [SendPlan] ([crates/walletd/src/sendplan.rs]): the fee loop.
    - [Defrag] ([wallet/defrag.rs]): the planner of defragmentation batches.
      [DefragSafe]: what a batch promises, and the limits of the planner.
    - [Mix] ([wallet/coinjoin.rs], [mix.rs], [node.rs]): mix sessions, the manager
      that holds them, and what a node does on calls and messages about them.
      [MixSafe]: the sessions as a state machine, with its invariants.  [MixDone]: a
      session that is left alone completes; the limits of the design.
    - [Pool] ([pool.rs]): the mining pool: the Merkle tree of the shares, the miner's
      audit of a template, the payout of a block, and the credit and debit of shares.
      [PoolSafe]: the audit and the books.  [PoolPay]: who is paid how much.
    - [Swap] ([crates/walletd/src/swap.rs]): amounts, fees, deadlines and checks of a
      swap with another chain.  [SwapWatch] ([service.rs], [swapbook.rs] and [base.rs]
      of the same crate): the orders and swaps a daemon keeps, and each tick of its
      watcher, on both chains.  [SwapSafe]: the watcher's invariants.  [SwapStuck]:
      what it does not recover from.  [SwapSweep]: collecting a unit with its secret.
      [SwapPlan]: the terms on which a swap starts.
    - [Ledger] and [Sends] ([ledger.rs] and [service.rs] of [crates/walletd],
      [scan_addresses] of [node.rs]): the record of past sends; the daemon's actor with
      its tasks, from the start of a send to its confirmation, and scans, sweeps,
      locking and restarts, as a transition system ([daemon_step]).  [SendsBook]: the
      address book of a wallet and the operations that keep it.  [SendsSafe]: the
      daemon's operations keep it.  [SendsRun]: the runs, and a run worked out.
      [SendsLimits]: what the daemon does not recover from.

    ** How the model is built

    A Rust function is a definition of the same name (with a prefix where two types
    have a method of that name).  [Result] and [Option] errors are values; an
    index out of range, an [unwrap] of [None] or a division by zero is [Panic],
    which the build's [panic = "abort"] makes the end of the process.  Integers are
    [Z] with their wrap-around or saturation written out; release builds do not
    check overflow.  [&mut self] is state passing.  Loops are [Fixpoint]s on a list
    or on fuel; where there is fuel, the bound is the one of the code (the 256
    levels of the tree, the 2^64 nonces, the remaining bits of a filter, the
    instructions left in a script, the largest fee of a plan) and a theorem states
    that it suffices.  The wallet runs in a world ([World]) with its file and with a
    counter of the questions asked of the environment (class [WalletEnv]); a write
    replaces the file or fails and leaves it, which is more than [fs::write] says.

    Code that is not in the repository is a parameter: BLAKE3 (class [Blake3]),
    [bincode] sizes ([witnesses_size], [tx_size]), the iteration order of hash
    maps, SIMD kernels, the clock, storage, randomness, the floating-point
    congestion curve and fee share of the pool, and the hexadecimal codec.  The swap
    watcher is given the answers of both chains, of its node and of its disk for a
    tick as one record ([Env]); the daemon asks its node like its wallet asks the
    environment (class [NodeEnv]).  Nothing is assumed of BLAKE3;
    where a theorem needs that two hashes differ it says so of explicit inputs
    ([collision_free], [no_collision]).

    ** What the theorems show

    - Consensus: the issuance schedule is the money supply; an applied block has
      exactly its effect, authorised by its witnesses; a commitment lives its term and
      the expiration index lists it; a spend removes and creates what it says; application is atomic but for one error; validation and the
      unchecked application agree with the checked one; applying a block or running
      a script never aborts and always ends; every reachable state is linked, and
      its state root commits to its coins (past the activation of V2 if that block left
      the commitment accumulator consistent, [clean_activation]); replay reaches the
      live state.
    - Cryptographic structures: the accumulators refine a set and a list, with
      complete proofs and sound verification up to a hash collision; the signature
      schemes verify what they sign, and a forgery yields a preimage.
    - Scripts: the byte machine refines the instruction semantics; resources are
      bounded; the HTLC, covenant and order templates are met by exactly the
      intended witnesses.
    - Node: the mempool's indices agree with its contents after every operation and
      admission follows its rules; a mined template is accepted; filters match
      exactly the items of a block.
    - Layer two: channels conserve their capacity and settle when their outputs fit in
      a transaction; channel messages and
      order announcements decode exactly and survive fragmentation.
    - Wallet: no one-time seed is handed out twice, whatever fails in between; the
      input made of a coin names it, for the imports of [wallet_op]; selection covers its target and keeps the coins of an
      address together; outputs and plans balance, with change under fresh keys, and the fee loop ends; a send that
      passes the co-spend gate becomes a valid transaction; a defragmentation batch
      moves all the sweepable coins of its addresses and pays its exact fee.
    - Daemon: over any daily run of sends, sweeps, scans, crashes and restarts, a one-time
      key signs one commitment, and its use is on disk before the signature is sent.
      The addresses that a step makes are assumed new to the wallet ([fresh_step]),
      which the derivation of keys from a counter gives up to collisions; consolidation,
      keys brought in by hand and abandoned addresses are outside the theorem, for the reasons in
      [SendsLimits].
    - Mixes: whatever peers send, a signature pays the signer's own outputs; proposals
      are canonical; an undisturbed session ends in a uniform reveal, valid when no input
      carries a state commitment.
    - Mining pool: an honest answer passes the audit, and no score passes but the one
      committed to; payouts add up to the block, less the fee, each coin to a miner with
      a share.
    - Swaps: the watcher writes its book before it commits, reveals or locks, and
      publishes a secret only for an escrow that pays its price, or to collect a fill
      that covers its bid; a collecting transaction can always be built, pays its fee,
      and is valid when the script of the unit asks no more; the deadlines leave the margin asked for.

    ** What is not modelled

    Input and output: networking ([network/]), the asynchronous event loop of
    [node.rs] beyond block production and mixes, storage, RPC and the command line, the
    desktop and WASM front ends.  Of [node.rs] this leaves out the reception of blocks from
    peers, the download of headers, the choice between forks above [choose_best_state]
    and reorganisations, which are woven into storage and messages; the findings of the
    manifest name what reading them showed.  The SIMD and GPU nonce searches, whose results
    [verify_extension] checks.  The floating-point finality estimate, which nothing
    in consensus reads.  The script text assembler and the [serde] encodings.
    Of the wallet, the encryption of its file, the mnemonic and labels.  Of the pool,
    the HTTP server, its statistics and accounts on disk.  Of the wallet daemon, the
    driver of the payment channels with its messages between peers and invoices, the
    creation of a wallet from a phrase, and what presents the wallet and the node to a
    user; of the swaps, the encoding of the other chain's calls and events, and the
    order file. *)

From Stdlib Require Export ZArith Lia Strings.Byte Sorting.Sorted.
From Stdlib Require Import Eqdep_dec.
From stdpp Require Export base countable list sets sorting gmap.

#[local] Open Scope Z_scope.

(** * Bytes *)

Abbreviation bytes := (list byte).

(** A [u8] read as an integer. *)
Definition bval (b : byte) : Z := Z.of_N (Byte.to_N b).

(** An integer truncated to a [u8] (the [as u8] cast). *)
Definition b8 (z : Z) : byte :=
  match Byte.of_N (Z.to_N (z mod 256)) with Some b => b | None => x00 end.

Lemma bval_range b : 0 <= bval b < 256.
Proof. destruct b; vm_compute; split; congruence. Qed.

Lemma b8_bval b : b8 (bval b) = b.
Proof. destruct b; reflexivity. Qed.

Lemma bval_b8 z : bval (b8 z) = z mod 256.
Proof.
  unfold b8, bval. pose proof (Z.mod_pos_bound z 256 ltac:(lia)) as Hz.
  destruct (Byte.of_N _) as [b|] eqn:E.
  - apply Byte.to_of_N in E. rewrite E. lia.
  - apply Byte.of_N_None_iff in E. lia.
Qed.

Lemma bval_inj a b : bval a = bval b -> a = b.
Proof. intros E. rewrite <- (b8_bval a), <- (b8_bval b), E. reflexivity. Qed.

Lemma b8_mod z : b8 (z mod 256) = b8 z.
Proof. unfold b8. rewrite Z.mod_mod by lia. reflexivity. Qed.

#[export] Instance byte_eq_dec : EqDecision byte := Byte.byte_eq_dec.

#[export] Program Instance byte_countable : Countable byte :=
  inj_countable' Byte.to_N (fun n => b8 (Z.of_N n)) _.
Next Obligation. intros b. apply b8_bval. Qed.

(** * Little- and big-endian integers *)

(** [z.to_le_bytes()] for an [8*n]-bit integer. *)
Fixpoint le_bytes (n : nat) (z : Z) : bytes :=
  match n with
  | O => []
  | S n => b8 z :: le_bytes n (z / 256)
  end.

(** [uN::from_le_bytes]. *)
Fixpoint le_val (l : bytes) : Z :=
  match l with
  | [] => 0
  | b :: l => bval b + 256 * le_val l
  end.

Definition be_bytes (n : nat) (z : Z) : bytes := reverse (le_bytes n z).
Definition be_val (l : bytes) : Z := le_val (reverse l).

Lemma length_le_bytes n z : length (le_bytes n z) = n.
Proof. revert z; induction n; intros z; simpl; f_equal; auto. Qed.

Lemma length_be_bytes n z : length (be_bytes n z) = n.
Proof. unfold be_bytes. rewrite length_reverse. apply length_le_bytes. Qed.

Lemma le_val_range l : 0 <= le_val l < 2 ^ (8 * Z.of_nat (length l)).
Proof.
  induction l as [|b l IH]; simpl le_val; [simpl; lia|].
  pose proof (bval_range b). rewrite length_cons, Nat2Z.inj_succ.
  replace (8 * Z.succ (Z.of_nat (length l))) with (8 + 8 * Z.of_nat (length l)) by lia.
  rewrite Z.pow_add_r by lia. change (2 ^ 8) with 256. lia.
Qed.

Lemma be_val_range l : 0 <= be_val l < 2 ^ (8 * Z.of_nat (length l)).
Proof. unfold be_val. rewrite <- (length_reverse l). apply le_val_range. Qed.

Lemma le_val_le_bytes n z : le_val (le_bytes n z) = z mod 2 ^ (8 * Z.of_nat n).
Proof.
  revert z; induction n as [|n IH]; intros z; cbn [le_bytes le_val].
  - rewrite Z.mod_1_r. reflexivity.
  - rewrite IH, bval_b8, Nat2Z.inj_succ.
    replace (8 * Z.succ (Z.of_nat n)) with (8 + 8 * Z.of_nat n) by lia.
    rewrite Z.pow_add_r by lia. change (2 ^ 8) with 256.
    rewrite Z.rem_mul_r; lia.
Qed.

Lemma le_bytes_le_val l : le_bytes (length l) (le_val l) = l.
Proof.
  induction l as [|b l IH]; simpl; [reflexivity|]. pose proof (bval_range b).
  f_equal.
  - apply bval_inj. rewrite bval_b8. Z.div_mod_to_equations; lia.
  - replace ((bval b + 256 * le_val l) / 256) with (le_val l)
      by (Z.div_mod_to_equations; lia). apply IH.
Qed.

Lemma le_bytes_le_val' n l : length l = n -> le_bytes n (le_val l) = l.
Proof. intros <-. apply le_bytes_le_val. Qed.

Lemma le_val_small n z :
  0 <= z < 2 ^ (8 * Z.of_nat n) -> le_val (le_bytes n z) = z.
Proof. intros. rewrite le_val_le_bytes. apply Z.mod_small; assumption. Qed.

Lemma le_bytes_inj n a b :
  0 <= a < 2 ^ (8 * Z.of_nat n) -> 0 <= b < 2 ^ (8 * Z.of_nat n) ->
  le_bytes n a = le_bytes n b -> a = b.
Proof. intros Ha Hb E. rewrite <- (le_val_small n a), <- (le_val_small n b), E; auto. Qed.

Lemma be_val_be_bytes n z : be_val (be_bytes n z) = z mod 2 ^ (8 * Z.of_nat n).
Proof. unfold be_val, be_bytes. rewrite reverse_involutive. apply le_val_le_bytes. Qed.

Lemma be_val_small n z :
  0 <= z < 2 ^ (8 * Z.of_nat n) -> be_val (be_bytes n z) = z.
Proof. intros. rewrite be_val_be_bytes. apply Z.mod_small; assumption. Qed.

Lemma be_bytes_be_val l : be_bytes (length l) (be_val l) = l.
Proof.
  unfold be_bytes, be_val. rewrite <- (length_reverse l), le_bytes_le_val.
  apply reverse_involutive.
Qed.

Lemma be_val_inj l k : length l = length k -> be_val l = be_val k -> l = k.
Proof. intros Hl E. rewrite <- (be_bytes_be_val l), <- (be_bytes_be_val k), Hl, E. auto. Qed.

Lemma le_val_app l k :
  le_val (l ++ k) = le_val l + 2 ^ (8 * Z.of_nat (length l)) * le_val k.
Proof.
  induction l as [|b l IH]; simpl le_val.
  - simpl. lia.
  - rewrite IH, length_cons, Nat2Z.inj_succ.
    replace (8 * Z.succ (Z.of_nat (length l))) with (8 + 8 * Z.of_nat (length l)) by lia.
    rewrite Z.pow_add_r by lia. change (2 ^ 8) with 256. lia.
Qed.

Lemma be_val_app l k :
  be_val (l ++ k) = be_val l * 2 ^ (8 * Z.of_nat (length k)) + be_val k.
Proof. unfold be_val. rewrite reverse_app, le_val_app, length_reverse. lia. Qed.

Lemma be_val_cons b l :
  be_val (b :: l) = bval b * 2 ^ (8 * Z.of_nat (length l)) + be_val l.
Proof.
  change (b :: l) with ([b] ++ l). rewrite be_val_app. f_equal.
  change (be_val [b]) with (bval b + 256 * 0). lia.
Qed.

(** * Fixed-size byte arrays, [[u8; n]] *)

Record arr (n : nat) : Type := mk_arr {
  arr_list :> bytes;
  arr_ok : Nat.eqb (length arr_list) n = true
}.
Arguments mk_arr {n}.
Arguments arr_list {n}.
Arguments arr_ok {n}.

(** Truncate or zero-pad to [n] bytes. *)
Definition fit (n : nat) (l : bytes) : bytes := take n (l ++ replicate n x00).

Lemma fit_ok n l : Nat.eqb (length (fit n l)) n = true.
Proof.
  apply Nat.eqb_eq. unfold fit. rewrite length_take, length_app, length_replicate. lia.
Qed.

Definition arr_of (n : nat) (l : bytes) : arr n := mk_arr (fit n l) (fit_ok n l).

(** [[0u8; n]]. *)
Definition zero_arr (n : nat) : arr n := arr_of n [].

(** [<[u8; n]>::try_from(slice).ok()]. *)
Definition try_arr (n : nat) (l : bytes) : option (arr n) :=
  if Nat.eqb (length l) n then Some (arr_of n l) else None.

Lemma arr_length {n} (a : arr n) : length a = n.
Proof. apply Nat.eqb_eq, arr_ok. Qed.

Lemma arr_eq {n} (a b : arr n) : arr_list a = arr_list b -> a = b.
Proof.
  destruct a as [l Hl], b as [k Hk]; simpl. intros ->. f_equal.
  apply UIP_dec, bool_dec.
Qed.

Lemma fit_id n l : length l = n -> fit n l = l.
Proof. intros <-. unfold fit. apply take_app_length. Qed.

Lemma arr_of_id n l : length l = n -> arr_list (arr_of n l) = l.
Proof. apply fit_id. Qed.

Lemma arr_of_list {n} (a : arr n) : arr_of n a = a.
Proof. apply arr_eq, arr_of_id, arr_length. Qed.

Lemma try_arr_list {n} (a : arr n) : try_arr n a = Some a.
Proof. unfold try_arr. rewrite arr_length, Nat.eqb_refl, arr_of_list. reflexivity. Qed.

Lemma try_arr_Some n l a : try_arr n l = Some a -> arr_list a = l.
Proof.
  unfold try_arr. destruct (Nat.eqb_spec (length l) n) as [E|]; [|discriminate].
  intros [= <-]. apply arr_of_id, E.
Qed.

#[export] Instance arr_eq_dec n : EqDecision (arr n).
Proof.
  intros a b. destruct (decide (arr_list a = arr_list b)) as [E|NE].
  - left. apply arr_eq, E.
  - right. intros ->. apply NE. reflexivity.
Defined.

#[export] Program Instance arr_countable n : Countable (arr n) :=
  inj_countable' (@arr_list n) (arr_of n) _.
Next Obligation. intros n a. apply arr_of_list. Qed.

(** ** Lexicographic order, [Ord for [u8; n]] *)

Fixpoint bytes_ltb (l k : bytes) : bool :=
  match l, k with
  | _, [] => false
  | [], _ :: _ => true
  | a :: l, b :: k => (bval a <? bval b) || ((bval a =? bval b) && bytes_ltb l k)
  end.

Lemma bytes_ltb_be_val l k :
  length l = length k -> bytes_ltb l k = (be_val l <? be_val k).
Proof.
  revert k; induction l as [|a l IH]; intros [|b k]; try discriminate; [reflexivity|].
  intros [= Hl]. cbn [bytes_ltb]. rewrite !be_val_cons, (IH _ Hl), Hl.
  pose proof (be_val_range l) as R1. pose proof (be_val_range k) as R2.
  rewrite Hl in R1. set (M := 2 ^ _) in *.
  apply eq_bool_prop_intro. rewrite orb_True, andb_True.
  rewrite !Is_true_true, !Z.ltb_lt, Z.eqb_eq. nia.
Qed.

Definition arr_le {n} (a b : arr n) : Prop := bytes_ltb b a = false.

#[export] Instance arr_le_dec n : RelDecision (@arr_le n).
Proof. intros a b. unfold arr_le. apply _. Defined.

Lemma arr_le_be_val {n} (a b : arr n) : arr_le a b <-> be_val a <= be_val b.
Proof.
  unfold arr_le. rewrite bytes_ltb_be_val by (rewrite !arr_length; reflexivity).
  apply Z.ltb_ge.
Qed.

Lemma arr_be_val_inj {n} (a b : arr n) : be_val a = be_val b -> a = b.
Proof. intros E. apply arr_eq, be_val_inj; [rewrite !arr_length|]; auto. Qed.

Lemma arr_le_antisym {n} (a b : arr n) : arr_le a b -> arr_le b a -> a = b.
Proof. rewrite !arr_le_be_val. intros. apply arr_be_val_inj. lia. Qed.

Lemma arr_be_val_range {n} (a : arr n) : 0 <= be_val a < 2 ^ (8 * Z.of_nat n).
Proof. pose proof (be_val_range a) as R. rewrite arr_length in R. exact R. Qed.

#[export] Instance arr_le_total n : Total (@arr_le n).
Proof. intros a b. rewrite !arr_le_be_val. lia. Qed.

#[export] Instance arr_le_trans n : Transitive (@arr_le n).
Proof. intros a b c. rewrite !arr_le_be_val. lia. Qed.

(** An ordered set ([BTreeSet], [im::OrdSet]) of arrays is a [gset]; iterating it
    yields its elements in ascending lexicographic order. *)
Definition ord_list {n} (s : gset (arr n)) : list (arr n) := merge_sort arr_le (elements s).

Lemma ord_list_perm {n} (s : gset (arr n)) : ord_list s ≡ₚ elements s.
Proof. apply merge_sort_Permutation. Qed.

Lemma elem_of_ord_list {n} (s : gset (arr n)) x : x ∈ ord_list s <-> x ∈ s.
Proof. rewrite ord_list_perm. apply elem_of_elements. Qed.

Lemma ord_list_sorted {n} (s : gset (arr n)) : StronglySorted arr_le (ord_list s).
Proof. apply StronglySorted_merge_sort; apply _. Qed.

Lemma ord_list_NoDup {n} (s : gset (arr n)) : NoDup (ord_list s).
Proof. rewrite ord_list_perm. apply NoDup_elements. Qed.

Lemma ord_list_empty {n} : ord_list (∅ : gset (arr n)) = [].
Proof. unfold ord_list. rewrite elements_empty. reflexivity. Qed.

(** * Machine integers

    A [u64]/[u128]/[usize] is a [Z]; the operations below take the bit width.
    Plain [+], [-], [*] of the release profile wrap ([wrap]). *)

Definition umax (w : Z) : Z := 2 ^ w - 1.
Definition in_u (w z : Z) : Prop := 0 <= z < 2 ^ w.
Definition wrap (w z : Z) : Z := z mod 2 ^ w.

Lemma wrap_id w z : 0 <= z < 2 ^ w -> wrap w z = z.
Proof. apply Z.mod_small. Qed.

Definition checked_add (w a b : Z) : option Z :=
  if a + b <=? umax w then Some (a + b) else None.
Definition checked_sub (a b : Z) : option Z := if b <=? a then Some (a - b) else None.
Definition checked_mul (w a b : Z) : option Z :=
  if a * b <=? umax w then Some (a * b) else None.
Definition sat_add (w a b : Z) : Z := Z.min (a + b) (umax w).
Definition sat_mul (w a b : Z) : Z := Z.min (a * b) (umax w).
Definition sat_sub (a b : Z) : Z := Z.max 0 (a - b).

(** [iter.try_fold(0u64, |acc, v| acc.checked_add(v))]. *)
Fixpoint checked_sum (w acc : Z) (l : list Z) : option Z :=
  match l with
  | [] => Some acc
  | v :: l => match checked_add w acc v with Some a => checked_sum w a l | None => None end
  end.

Definition sumZ (l : list Z) : Z := foldr Z.add 0 l.

(** [u64::is_power_of_two]. *)
Definition is_pow2 (v : Z) : bool := (0 <? v) && (Z.land v (v - 1) =? 0).

Lemma checked_add_Some w a b c :
  checked_add w a b = Some c <-> c = a + b /\ a + b <= umax w.
Proof. unfold checked_add. case_match eqn:E; [|split; [done|lia]]. split; [intros [= <-]|intros [-> ?]]; auto; lia. Qed.

Lemma checked_sum_Some w acc l s :
  Forall (Z.le 0) l -> acc <= umax w ->
  (checked_sum w acc l = Some s <-> s = acc + sumZ l /\ acc + sumZ l <= umax w).
Proof.
  intros Hl. revert acc s. induction Hl as [|v l Hv Hl IH]; intros acc s Hacc; simpl.
  - split; [intros [= <-]; lia|]. intros [-> ?]. f_equal. lia.
  - assert (0 <= sumZ l) by (clear IH; induction Hl; simpl; lia).
    unfold checked_add. destruct (Z.leb_spec (acc + v) (umax w)).
    + rewrite IH by lia. fold (sumZ l). split; intros [??]; split; lia.
    + fold (sumZ l). split; [discriminate|intros [??]; lia].
Qed.

Lemma sumZ_nonneg l : Forall (Z.le 0) l -> 0 <= sumZ l.
Proof. induction 1; simpl; lia. Qed.

Lemma sumZ_app l k : sumZ (l ++ k) = sumZ l + sumZ k.
Proof. induction l; simpl; [reflexivity|]. rewrite IHl. lia. Qed.

Lemma sumZ_perm l k : l ≡ₚ k -> sumZ l = sumZ k.
Proof. induction 1; simpl; lia. Qed.

Lemma is_pow2_pow k : 0 <= k -> is_pow2 (2 ^ k) = true.
Proof.
  intros Hk. unfold is_pow2. pose proof (Z.pow_pos_nonneg 2 k ltac:(lia) Hk).
  rewrite (proj2 (Z.ltb_lt _ _)) by lia. apply Z.eqb_eq.
  replace (2 ^ k - 1) with (Z.ones k) by (rewrite Z.ones_equiv; lia).
  rewrite Z.land_ones by lia. apply Z_mod_same_full.
Qed.

(** * Fallible computations

    [Err] is a returned error, [Panic] an aborted thread (an index out of
    bounds, an [unwrap] of [None]). *)

Inductive res (E A : Type) : Type :=
  | Ok (a : A)
  | Err (e : E)
  | Panic.
Arguments Ok {E A}.
Arguments Err {E A}.
Arguments Panic {E A}.

#[export] Instance res_ret E : MRet (res E) := fun A a => Ok a.
#[export] Instance res_bind E : MBind (res E) := fun A B f m =>
  match m with Ok a => f a | Err e => Err e | Panic => Panic end.

Definition ok_or {E A} (e : E) (o : option A) : res E A :=
  match o with Some a => Ok a | None => Err e end.
Definition unwrap {E A} (o : option A) : res E A :=
  match o with Some a => Ok a | None => Panic end.
Definition bail_if {E} (c : bool) (e : E) : res E () := if c then Err e else Ok ().
Definition is_ok {E A} (r : res E A) : bool := match r with Ok _ => true | _ => false end.

(** Run a fallible check on every element, stopping at the first failure. *)
Fixpoint check_all {E A} (f : A -> res E ()) (l : list A) : res E () :=
  match l with
  | [] => Ok ()
  | x :: l => _ ← f x; check_all f l
  end.

Lemma res_bind_Ok {E A B} (m : res E A) (f : A -> res E B) b :
  (m ≫= f) = Ok b <-> exists a, m = Ok a /\ f a = Ok b.
Proof.
  destruct m; simpl; split; try (intros (?&?&?); congruence); try discriminate. eauto.
Qed.

Lemma res_bind_ext {E A B} (m : res E A) (f g : A -> res E B) :
  (forall a, m = Ok a -> f a = g a) -> (m ≫= f) = (m ≫= g).
Proof. destruct m; simpl; auto. Qed.

Lemma bail_if_Ok {E} c (e : E) u : bail_if c e = Ok u <-> c = false.
Proof. destruct c, u; simpl; split; congruence. Qed.

Lemma ok_or_Ok {E A} (e : E) (o : option A) a : ok_or e o = Ok a <-> o = Some a.
Proof. destruct o; simpl; split; congruence. Qed.

Lemma check_all_Ok {E A} (f : A -> res E ()) l :
  check_all f l = Ok () <-> Forall (fun x => f x = Ok ()) l.
Proof.
  induction l as [|x l IH]; simpl; [split; auto|].
  rewrite Forall_cons, <- IH, res_bind_Ok. split.
  - intros ([] & ? & ?); auto.
  - intros [??]. exists (); auto.
Qed.

Lemma NoDup_map_inj {A B} (f : A -> B) l x y : NoDup (map f l) -> x ∈ l -> y ∈ l -> f x = f y -> x = y.
Proof.
  induction l as [|a l IH]; intros HN Hx Hy E; [inversion Hx|]. apply NoDup_cons in HN as [H1 H2].
  apply elem_of_cons in Hx as [->|Hx], Hy as [->|Hy]; [reflexivity| | |apply IH; assumption].
  - destruct H1. rewrite E. apply list_elem_of_fmap_2, Hy.
  - destruct H1. rewrite <- E. apply list_elem_of_fmap_2, Hx.
Qed.

(** ** Fallible computations on a mutable state

    A [&mut S] is threaded through; on an error the state reached so far is
    returned with it, since the caller can observe it. *)

Definition ST (S E A : Type) : Type := S -> res E A * S.

#[export] Instance st_ret S E : MRet (ST S E) := fun A a s => (Ok a, s).
#[export] Instance st_bind S E : MBind (ST S E) := fun A B f m s =>
  match m s with
  | (Ok a, s) => f a s
  | (Err e, s) => (Err e, s)
  | (Panic, s) => (Panic, s)
  end.

(** Read-only part: lift a computation that inspects the state. *)
Definition reads {S E A} (f : S -> res E A) : ST S E A := fun s => (f s, s).
Definition modify {S E} (f : S -> S) : ST S E () := fun s => (Ok (), f s).

Fixpoint st_each {S E A} (f : A -> ST S E ()) (l : list A) : ST S E () :=
  match l with
  | [] => mret ()
  | x :: l => _ ← f x; st_each f l
  end.

Lemma st_bind_Ok {S E A B} (m : ST S E A) (f : A -> ST S E B) s b s' :
  (m ≫= f) s = (Ok b, s') <-> exists a s1, m s = (Ok a, s1) /\ f a s1 = (Ok b, s').
Proof.
  unfold mbind, st_bind. destruct (m s) as [[a|e|] s1]; split; try discriminate.
  1: eauto.
  all: intros (x & y & E1 & E2); inversion E1; subst; assumption.
Qed.

Lemma st_bind_Err {S E A B} (m : ST S E A) (f : A -> ST S E B) s e s' :
  (m ≫= f) s = (Err e, s') <->
  m s = (Err e, s') \/ exists a s1, m s = (Ok a, s1) /\ f a s1 = (Err e, s').
Proof.
  unfold mbind, st_bind. destruct (m s) as [[a|e1|] s1]; split; try discriminate.
  all: try (intros [E1|(x & y & E1 & E2)]; inversion E1; subst;
    assumption || reflexivity).
  - intros E1. right. exists a, s1. auto.
  - intros [= -> ->]. left. reflexivity.
Qed.

(** [for _ in 0..n]. *)
Fixpoint times {S E} (n : nat) (m : ST S E ()) : ST S E () :=
  match n with O => mret () | Datatypes.S n => _ ← m; times n m end.

(** [if let Ok(x) = ...]: an error is dropped, its effects are not. *)
Definition attempt {S E A} (m : ST S E A) : ST S E (option A) := fun s =>
  match m s with
  | (Ok a, s) => (Ok (Some a), s)
  | (Err _, s) => (Ok None, s)
  | (Panic, s) => (Panic, s)
  end.

(** ** Invariants of stateful operations

    An operation keeps an invariant of the state when every outcome, errors included,
    leaves it; sequences and choices of operations that keep it do too. *)

Class Keeps {S E : Type} (I : S -> Prop) {A : Type} (m : ST S E A) : Prop := keeps s : I s -> I (m s).2.

Section Keeps.
Context {S E : Type} (I : S -> Prop).

#[export] Instance keeps_bind {A B} (m : ST S E A) (f : A -> ST S E B) :
  Keeps I m -> (forall a, Keeps I (f a)) -> Keeps I (m ≫= f).
Proof.
  intros Hm Hf s Hs. unfold mbind, st_bind. pose proof (Hm s Hs) as H1.
  destruct (m s) as [[a|e|] s1]; cbn [snd] in *; [apply Hf, H1|exact H1|exact H1].
Qed.

#[export] Instance keeps_reads {A} (f : S -> res E A) : Keeps I (reads f).
Proof. intros s Hs. exact Hs. Qed.
#[export] Instance keeps_ret {A} (a : A) : Keeps I (mret a : ST S E A).
Proof. intros s Hs. exact Hs. Qed.
#[export] Instance keeps_attempt {A} (m : ST S E A) : Keeps I m -> Keeps I (attempt m).
Proof. intros Hm s Hs. unfold attempt. pose proof (Hm s Hs). destruct (m s) as [[a|e|] s1]; assumption. Qed.

(** What a query returned holds of the state it saw. *)
Lemma keeps_reads_bind {A B} (f : S -> res E A) (k : A -> ST S E B) :
  (forall s a, I s -> f s = Ok a -> Keeps I (k a)) -> Keeps I (reads f ≫= k).
Proof.
  intros Hk s Hs. unfold mbind, st_bind, reads. destruct (f s) as [a|e|] eqn:Ef; cbn [snd]; [|exact Hs..].
  apply (Hk s a Hs Ef), Hs.
Qed.

#[export] Instance keeps_each {A} (f : A -> ST S E ()) l : (forall a, Keeps I (f a)) -> Keeps I (st_each f l).
Proof. intros Hf. induction l; cbn [st_each]; apply _. Qed.
#[export] Instance keeps_mapM {A B} (f : A -> ST S E B) l : (forall a, Keeps I (f a)) -> Keeps I (mapM f l).
Proof. intros Hf. induction l; cbn [mapM]; repeat (apply _ || (apply keeps_bind; [|intros ?])). Qed.
#[export] Instance keeps_times n (m : ST S E ()) : Keeps I m -> Keeps I (times n m).
Proof. intros Hm. induction n; cbn [times]; apply _. Qed.

End Keeps.

(** Case analysis on values inside an operation. *)
Ltac keeps_tac :=
  repeat first
    [ progress cbv zeta
    | apply _
    | apply keeps_bind; [|intros ?]
    | apply keeps_attempt
    | apply keeps_times | apply keeps_each; intros ? | apply keeps_mapM; intros ?
    | match goal with
      | |- Keeps _ (match ?x with _ => _ end) => destruct x
      | |- Keeps _ (let '(_, _) := ?x in _) => destruct x
      | |- Keeps _ (if ?b then _ else _) => destruct b
      end ].

(** [&data[a..b]]: slicing outside the bounds aborts. *)
Definition slice {E A} (l : list A) (a b : nat) : res E (list A) :=
  if (a <=? b)%nat && (b <=? length l)%nat then Ok (take (b - a) (drop a l)) else Panic.

Lemma slice_Ok {E A} (l : list A) a b :
  (a <= b <= length l)%nat -> slice (E := E) l a b = Ok (take (b - a) (drop a l)).
Proof. intros [H1 H2]. unfold slice. rewrite !(proj2 (Nat.leb_le _ _)) by lia. reflexivity. Qed.

Lemma length_slice {E A} (l : list A) a b x :
  slice (E := E) l a b = Ok x -> length x = (b - a)%nat /\ x = take (b - a) (drop a l).
Proof.
  unfold slice. case_match eqn:HE; [|discriminate]. intros [= <-]. split; [|reflexivity].
  apply andb_true_iff in HE as [H1 H2]. apply Nat.leb_le in H1, H2.
  rewrite length_take, length_drop. lia.
Qed.

Lemma slice_skip {E A} (p l : list A) a b :
  slice (E := E) (p ++ l) (length p + a) (length p + b) = slice l a b.
Proof.
  unfold slice. rewrite length_app, drop_app_add.
  replace (length p + a <=? length p + b)%nat with (a <=? b)%nat
    by (apply eq_bool_prop_intro; rewrite !Is_true_true, !Nat.leb_le; lia).
  replace (length p + b <=? length p + length l)%nat with (b <=? length l)%nat
    by (apply eq_bool_prop_intro; rewrite !Is_true_true, !Nat.leb_le; lia).
  replace (length p + b - (length p + a))%nat with (b - a)%nat by lia. reflexivity.
Qed.

(** ** Absence of panics *)

Lemma bind_safe {E A B} (m : res E A) (f : A -> res E B) :
  m <> Panic -> (forall a, m = Ok a -> f a <> Panic) -> (m ≫= f) <> Panic.
Proof. destruct m; simpl; auto; discriminate. Qed.

Lemma bail_if_safe {E} c (e : E) : bail_if c e <> Panic.
Proof. destruct c; discriminate. Qed.

Lemma ok_or_safe {E A} (e : E) (o : option A) : ok_or e o <> Panic.
Proof. destruct o; discriminate. Qed.

Lemma Ok_safe {E A} (a : A) : Ok (E := E) a <> Panic.
Proof. discriminate. Qed.

Lemma Err_safe {E A} (e : E) : Err (A := A) e <> Panic.
Proof. discriminate. Qed.

Lemma slice_safe {E A} (l : list A) a b : (a <= b <= length l)%nat -> slice (E := E) l a b <> Panic.
Proof. intros H. rewrite slice_Ok by exact H. discriminate. Qed.

Create HintDb safe.
#[export] Hint Resolve bail_if_safe ok_or_safe Ok_safe Err_safe : safe.

(** Step through a chain of binds, recording what each step returned. *)
Ltac safe_step :=
  match goal with
  | |- (_ ≫= _) <> Panic => apply bind_safe; [|intros ? ?]
  | |- _ <> Panic => solve [auto with safe]
  | H : bail_if _ _ = Ok _ |- _ => apply bail_if_Ok in H
  | H : ok_or _ _ = Ok _ |- _ => apply ok_or_Ok in H
  | H : Nat.ltb _ _ = false |- _ => apply Nat.ltb_ge in H
  | H : Nat.ltb _ _ = true |- _ => apply Nat.ltb_lt in H
  end.

(** Open a successful chain of binds. *)
Ltac ok_step :=
  match goal with
  | H : (_ ≫= _) = Ok _ |- _ => apply res_bind_Ok in H as (? & ? & ?)
  | H : bail_if _ _ = Ok _ |- _ => apply bail_if_Ok in H
  | H : ok_or _ _ = Ok _ |- _ => apply ok_or_Ok in H
  | H : Ok _ = Ok _ |- _ => injection H as H
  | H : (_, _) = (_, _) |- _ => apply pair_equal_spec in H as [? ?]
  | H : Err _ = Ok _ |- _ => discriminate H
  | H : Panic = Ok _ |- _ => discriminate H
  | p : (_ * _)%type |- _ => destruct p
  | u : () |- _ => destruct u
  end.

(** Writing [f i] at index [n + i], for every [i] of a list. *)
Lemma fold_insert_lookup {A} n (f : nat -> A) (ix : list nat) (acc : list A) :
  let r := foldl (fun l i => <[(n + i)%nat := f i]> l) acc ix in
  length r = length acc
  /\ (forall i, i ∈ ix -> (n + i < length acc)%nat -> r !! (n + i)%nat = Some (f i))
  /\ (forall j, (forall i, i ∈ ix -> (n + i)%nat <> j) -> r !! j = acc !! j).
Proof.
  revert acc. induction ix as [|k ix IH]; intros acc; simpl.
  - split; [reflexivity|]. split; [intros i Hi; inversion Hi|reflexivity].
  - destruct (IH (<[(n + k)%nat := f k]> acc)) as (H1 & H2 & H3).
    rewrite length_insert in H1, H2. split; [exact H1|]. split.
    + intros i Hi HB. destruct (decide (i ∈ ix)) as [Hm|Hm]; [apply H2; assumption|].
      apply elem_of_cons in Hi as [->|Hi]; [|contradiction].
      rewrite H3; [apply list_lookup_insert_eq, HB|].
      intros i' Hi' E. apply Hm. replace k with i' by lia. exact Hi'.
    + intros j Hj. rewrite H3 by (intros i Hi; apply Hj; apply elem_of_cons; auto).
      apply list_lookup_insert_ne. apply Hj, elem_of_cons; auto.
Qed.
