(* ===== verification/Bytecode.v ===== *)
(** Opcodes, consensus limits and the bytecode assembler of [src/core/script.rs]:
    the [push_data]/[push_int] helpers and every standard script template. *)
From S2P Require Import Prelude.

#[local] Open Scope Z_scope.

(** * Opcodes *)

Inductive Opcode : Type :=
  | OP_PUSH_DATA
  | OP_DROP | OP_DUP | OP_SWAP | OP_OVER | OP_ROT | OP_SLICE | OP_CONCAT | OP_PICK
  | OP_EQUAL | OP_VERIFY | OP_EQUALVERIFY | OP_ADD | OP_GREATER_OR_EQUAL
  | OP_SUB | OP_MUL | OP_DIV | OP_MOD | OP_SIZE
  | OP_HASH | OP_CHECKSIG | OP_CHECKSIGVERIFY | OP_CHECKTIMEVERIFY
  | OP_IF | OP_ELSE | OP_ENDIF
  | OP_SUM_TO_ADDR | OP_READ_INPUT_STATE | OP_READ_OUTPUT_STATE | OP_INPUT_VALUE
  | OP_OUTPUT_ADDRESS | OP_THIS_ADDRESS.

(** The byte of each opcode constant. *)
Definition op_byte (o : Opcode) : byte :=
  match o with
  | OP_PUSH_DATA => x01
  | OP_DROP => x10 | OP_DUP => x11 | OP_SWAP => x12
  | OP_OVER => x13 | OP_ROT => x14 | OP_SLICE => x15 | OP_CONCAT => x16 | OP_PICK => x17
  | OP_EQUAL => x20 | OP_VERIFY => x21 | OP_EQUALVERIFY => x22 | OP_ADD => x23
  | OP_GREATER_OR_EQUAL => x24
  | OP_SUB => x25 | OP_MUL => x26 | OP_DIV => x27 | OP_MOD => x28 | OP_SIZE => x29
  | OP_HASH => x30 | OP_CHECKSIG => x31 | OP_CHECKSIGVERIFY => x32
  | OP_CHECKTIMEVERIFY => x33
  | OP_IF => x40 | OP_ELSE => x41 | OP_ENDIF => x42
  | OP_SUM_TO_ADDR => x50 | OP_READ_INPUT_STATE => x51 | OP_READ_OUTPUT_STATE => x52
  | OP_INPUT_VALUE => x53 | OP_OUTPUT_ADDRESS => x54 | OP_THIS_ADDRESS => x55
  end.

Definition all_opcodes : list Opcode :=
  [OP_PUSH_DATA; OP_DROP; OP_DUP; OP_SWAP; OP_OVER; OP_ROT; OP_SLICE; OP_CONCAT; OP_PICK;
   OP_EQUAL; OP_VERIFY; OP_EQUALVERIFY; OP_ADD; OP_GREATER_OR_EQUAL; OP_SUB; OP_MUL; OP_DIV;
   OP_MOD; OP_SIZE; OP_HASH; OP_CHECKSIG; OP_CHECKSIGVERIFY; OP_CHECKTIMEVERIFY; OP_IF;
   OP_ELSE; OP_ENDIF; OP_SUM_TO_ADDR; OP_READ_INPUT_STATE; OP_READ_OUTPUT_STATE;
   OP_INPUT_VALUE; OP_OUTPUT_ADDRESS; OP_THIS_ADDRESS].

(** The opcode a byte denotes; [None] is the [_ =>] arm of every opcode match. *)
Definition decode_op (b : byte) : option Opcode :=
  List.find (fun o => Byte.eqb (op_byte o) b) all_opcodes.

(** * Consensus limits *)

Definition MAX_SCRIPT_SIZE : nat := 1024.
Definition MAX_STACK_DEPTH : nat := 64.
Definition MAX_ITEM_SIZE : nat := 1536.
Definition MAX_SIGOPS_PER_SCRIPT : nat := 3.

(** * Integer items *)

(** The [while len > 1 && bytes[len - 1] == 0] loop of [from_u64]. *)
Fixpoint trim_len (l : bytes) (len : nat) : nat :=
  match len with
  | S (S _ as n) => if bool_decide (l !! n = Some x00) then trim_len l n else len
  | _ => len
  end.

Definition from_u64 (v : Z) : bytes :=
  if v =? 0 then [x00]
  else let l := le_bytes 8 v in take (trim_len l 8) l.

(** * Assembly helpers *)

Definition push_data (bc data : bytes) : bytes :=
  bc ++ op_byte OP_PUSH_DATA :: le_bytes 2 (Z.of_nat (length data)) ++ data.

Definition push_int (bc : bytes) (value : Z) : bytes := push_data bc (from_u64 value).

(** [bc.push(OP)]. *)
Definition push_op (bc : bytes) (o : Opcode) : bytes := bc ++ [op_byte o].

(** * Standard scripts *)

Definition compile_p2pk (owner_pk : arr 32) : bytes :=
  let bc := push_data [] owner_pk in
  let bc := push_op bc OP_CHECKSIGVERIFY in
  push_int bc 1.

Definition compile_htlc (secret_hash receiver_pk : arr 32) (timeout_height : Z)
    (refund_pk : arr 32) : bytes :=
  let bc := push_op [] OP_IF in
  let bc := push_op bc OP_HASH in
  let bc := push_data bc secret_hash in
  let bc := push_op bc OP_EQUALVERIFY in
  let bc := push_data bc receiver_pk in
  let bc := push_op bc OP_CHECKSIGVERIFY in
  let bc := push_op bc OP_ELSE in
  let bc := push_op bc OP_DROP in
  let bc := push_int bc timeout_height in
  let bc := push_op bc OP_CHECKTIMEVERIFY in
  let bc := push_data bc refund_pk in
  let bc := push_op bc OP_CHECKSIGVERIFY in
  let bc := push_op bc OP_ENDIF in
  push_int bc 1.

Definition compile_covenant_htlc (secret_hash receiver_addr : arr 32) (min_payout : Z)
    (timeout_height : Z) (refund_pk : arr 32) : bytes :=
  let bc := push_op [] OP_IF in
  let bc := push_op bc OP_HASH in
  let bc := push_data bc secret_hash in
  let bc := push_op bc OP_EQUALVERIFY in
  let bc := push_data bc receiver_addr in
  let bc := push_op bc OP_SUM_TO_ADDR in
  let bc := push_int bc min_payout in
  let bc := push_op bc OP_GREATER_OR_EQUAL in
  let bc := push_op bc OP_VERIFY in
  let bc := push_op bc OP_ELSE in
  let bc := push_op bc OP_DROP in
  let bc := push_int bc timeout_height in
  let bc := push_op bc OP_CHECKTIMEVERIFY in
  let bc := push_data bc refund_pk in
  let bc := push_op bc OP_CHECKSIGVERIFY in
  let bc := push_op bc OP_ENDIF in
  push_int bc 1.

Definition compile_limit_order_covenant (secret_hash : arr 32) (max_claim : Z)
    (timeout_height : Z) (refund_pk : arr 32) : bytes :=
  let bc := push_op [] OP_IF in
  let bc := push_op bc OP_HASH in
  let bc := push_data bc secret_hash in
  let bc := push_op bc OP_EQUALVERIFY in
  let bc := push_op bc OP_THIS_ADDRESS in
  let bc := push_op bc OP_SUM_TO_ADDR in
  let bc := push_int bc max_claim in
  let bc := push_op bc OP_ADD in
  let bc := push_op bc OP_INPUT_VALUE in
  let bc := push_op bc OP_GREATER_OR_EQUAL in
  let bc := push_op bc OP_VERIFY in
  let bc := push_op bc OP_ELSE in
  let bc := push_op bc OP_DROP in
  let bc := push_int bc timeout_height in
  let bc := push_op bc OP_CHECKTIMEVERIFY in
  let bc := push_data bc refund_pk in
  let bc := push_op bc OP_CHECKSIGVERIFY in
  let bc := push_op bc OP_ENDIF in
  push_int bc 1.

Definition compile_multisig_2of2 (pk1 pk2 : arr 32) : bytes :=
  let bc := push_data [] pk2 in
  let bc := push_op bc OP_CHECKSIG in
  let bc := push_op bc OP_SWAP in
  let bc := push_data bc pk1 in
  let bc := push_op bc OP_CHECKSIG in
  let bc := push_op bc OP_ADD in
  let bc := push_int bc 2 in
  push_op bc OP_GREATER_OR_EQUAL.

Definition compile_multisig_2of3 (pk1 pk2 pk3 : arr 32) : bytes :=
  let bc := push_data [] pk3 in
  let bc := push_op bc OP_CHECKSIG in
  let bc := push_op bc OP_SWAP in
  let bc := push_data bc pk2 in
  let bc := push_op bc OP_CHECKSIG in
  let bc := push_op bc OP_ADD in
  let bc := push_op bc OP_SWAP in
  let bc := push_data bc pk1 in
  let bc := push_op bc OP_CHECKSIG in
  let bc := push_op bc OP_ADD in
  let bc := push_int bc 2 in
  push_op bc OP_GREATER_OR_EQUAL.

(** * Lemmas *)

Lemma decode_op_byte o : decode_op (op_byte o) = Some o.
Proof. destruct o; reflexivity. Qed.

Lemma decode_op_Some b o : decode_op b = Some o -> b = op_byte o.
Proof.
  unfold decode_op. intros E. apply List.find_some in E as [_ E].
  symmetry. apply Byte.byte_dec_bl, E.
Qed.

Lemma trim_len_SS l n :
  trim_len l (S (S n)) =
  if bool_decide (l !! S n = Some x00) then trim_len l (S n) else S (S n).
Proof. reflexivity. Qed.

Lemma trim_len_bounds l n : (Nat.min 1 n <= trim_len l n <= n)%nat.
Proof.
  induction n as [|[|n] IH]; [simpl; lia..|]. rewrite trim_len_SS. case_bool_decide; lia.
Qed.

Lemma le_val_take_trim l n :
  (n <= length l)%nat -> le_val (take (trim_len l n) l) = le_val (take n l).
Proof.
  induction n as [|[|n] IH]; intros Hn; [done..|]. rewrite trim_len_SS.
  case_bool_decide as E; [|done]. rewrite IH by lia.
  rewrite (take_S_r l (S n) x00) by done. rewrite le_val_app.
  change (le_val [x00]) with 0. lia.
Qed.

Lemma from_u64_val v : in_u 64 v -> le_val (from_u64 v) = v.
Proof.
  intros Hv. unfold from_u64. destruct (Z.eqb_spec v 0) as [->|]; [done|]. cbv zeta.
  rewrite le_val_take_trim by (rewrite length_le_bytes; lia).
  rewrite take_ge by (rewrite length_le_bytes; lia). apply le_val_small, Hv.
Qed.

Lemma from_u64_length v : (1 <= length (from_u64 v) <= 8)%nat.
Proof.
  unfold from_u64. destruct (v =? 0); [simpl; lia|]. cbv zeta.
  rewrite length_take, length_le_bytes.
  pose proof (trim_len_bounds (le_bytes 8 v) 8). lia.
Qed.
