(* ===== verification/Types.v ===== *)
(** Core data types of [src/core/types.rs]: predicates, witnesses, inputs,
    outputs, transactions, batches and headers, with the hashes that identify
    them, the denomination, fee, reward and address helpers, and the protocol
    constants.  BLAKE3 (the [blake3] crate) is the parameter [blake3]. *)
From Stdlib Require Import Strings.String.
From S2P Require Import Prelude Bytecode.

#[local] Open Scope Z_scope.

Abbreviation hash32 := (arr 32).

(** The BLAKE3 hash function; feeding a [Hasher] by several [update] calls
    hashes the concatenation of their arguments. *)
Class Blake3 : Type := blake3 : bytes -> hash32.

(** No two different byte strings of [Q] have the same hash. *)
Definition collision_free `{Blake3} (Q : bytes -> Prop) : Prop :=
  forall x y, Q x -> Q y -> blake3 x = blake3 y -> x = y.

(** Decidable form on a list, and a concrete hash on which it holds: both serve
    to exhibit inputs at which the theorems' hypotheses are met. *)
Definition cf_check `{Blake3} (Q : list bytes) : bool :=
  let hs := map (fun x => (blake3 x, x)) Q in
  forallb (fun p => forallb (fun q =>
    negb (bool_decide (p.1 = q.1)) || bool_decide (p.2 = q.2)) hs) hs.

Lemma cf_check_sound `{Blake3} (Q : list bytes) :
  cf_check Q = true -> collision_free (fun x => x ∈ Q).
Proof.
  unfold cf_check, collision_free. intros C x y Hx Hy E.
  rewrite forallb_forall in C.
  specialize (C (blake3 x, x) ltac:(apply in_map_iff; exists x; rewrite <- list_elem_of_In; auto)).
  cbv beta in C. rewrite forallb_forall in C.
  specialize (C (blake3 y, y) ltac:(apply in_map_iff; exists y; rewrite <- list_elem_of_In; auto)).
  cbv beta in C. cbn [fst snd] in C.
  rewrite bool_decide_true in C by exact E. simpl in C. eapply bool_decide_eq_true, C.
Qed.

Lemma collision_free_mono `{Blake3} (P Q : bytes -> Prop) :
  (forall x, P x -> Q x) -> collision_free Q -> collision_free P.
Proof. intros HPQ C x y Hx Hy. apply C; auto. Qed.

Definition toy_blake3 : Blake3 := fun x =>
  arr_of 32 (be_bytes 32
    (foldl (fun acc b => (acc * 257 + bval b + 1) mod (2 ^ 255 - 19)) 0 x)).

(** A cheap stand-in for the hash, which keeps the last 32 bytes in reverse. *)
Definition tail_blake3 : Blake3 := fun x => arr_of 32 (rev x).

(** A byte-string literal [b"..."]. *)
Definition bstr (s : string) : bytes := String.list_byte_of_string s.

(** * Protocol constants *)

Definition MAX_BURN_DATA_SIZE : nat := 80.
Definition NETWORK_MAGIC : bytes := bstr "mirstat_MAINNET_V1".
Definition COMMIT_REPLAY_FIX_ACTIVATION_HEIGHT : Z := 110000.
Definition V2_ACTIVATION_HEIGHT : Z := 100000.
Definition COMMIT_WEIGHT_ACTIVATION_HEIGHT : Z := 101000.
Definition V4_ACTIVATION_HEIGHT : Z := 163675.
Definition TIMEWARP_FIX_ACTIVATION_HEIGHT : Z := 250000.
Definition EXTENSION_ITERATIONS (fast_mining : bool) : nat :=
  Z.to_nat (if fast_mining then 100 else 1000000).
Definition MAX_BATCH_REVEALS : Z := 500.
Definition MAX_CONSOLIDATE_INPUTS : Z := 8192.
Definition MAX_BATCH_COMMITS : Z := 2000.
Definition TARGET_BLOCK_TIME : Z := 60.
Definition ASERT_HALF_LIFE : Z := 4 * 60 * 60.
Definition MEDIAN_TIME_PAST_WINDOW : nat := 11.
Definition COMMITMENT_TTL : Z := 1000.
Definition COMMIT_POW_WINDOW : Z := 1000.
Definition BLOCKS_PER_YEAR : Z := 365 * 24 * 3600 / TARGET_BLOCK_TIME.
Definition INITIAL_REWARD : Z := 1073741824.
Definition MAX_TX_INPUTS : Z := 256.
Definition MAX_TX_OUTPUTS : Z := 256.
Definition MAX_SIGNATURE_SIZE : Z := 1536.
Definition MAX_BATCH_INPUTS : Z := 1024.
Definition MAX_BATCH_OUTPUTS : Z := 10000.
Definition MAX_WITNESS_ITEM_SIZE : nat := Z.to_nat 131072.

Definition is_v2_at (height : Z) : bool := V2_ACTIVATION_HEIGHT <=? height.

(** Block reward: halves every [BLOCKS_PER_YEAR], minimum 1. *)
Definition block_reward (height : Z) : Z :=
  let halvings := height / BLOCKS_PER_YEAR in
  Z.shiftr INITIAL_REWARD (Z.min halvings 30).

(** * Data *)

Inductive Predicate : Type := Script (bytecode : bytes).

Inductive Witness : Type := ScriptInputs (items : list bytes).

Inductive OutputData : Type :=
  | Standard (address : hash32) (value : Z) (salt : hash32)
  | Confidential (address commitment salt : hash32)
  | DataBurn (payload : bytes) (value_burned : Z).

Record InputReveal : Type := mkInputReveal {
  in_predicate : Predicate;
  in_value : Z;
  in_salt : hash32;
  in_commitment : option hash32
}.

Record CoinbaseOutput : Type := mkCoinbaseOutput {
  cb_address : hash32;
  cb_value : Z;
  cb_salt : hash32
}.

Inductive Transaction : Type :=
  | Commit (commitment : hash32) (spam_nonce : Z)
  | Reveal (inputs : list InputReveal) (witnesses : list Witness)
      (outputs : list OutputData) (salt : hash32)
  | Consolidate (inputs : list InputReveal) (witness : Witness)
      (outputs : list OutputData) (salt : hash32).

Record Extension : Type := mkExtension { ext_nonce : Z; ext_final_hash : hash32 }.

Record Batch : Type := mkBatch {
  b_prev_mirstat : hash32;
  b_transactions : list Transaction;
  b_extension : Extension;
  b_coinbase : list CoinbaseOutput;
  b_timestamp : Z;
  b_target : hash32;
  b_state_root : hash32;
  b_prev_header_hash : hash32
}.

Record BatchHeader : Type := mkBatchHeader {
  h_height : Z;
  h_prev_mirstat : hash32;
  h_post_tx_mirstat : hash32;
  h_extension : Extension;
  h_timestamp : Z;
  h_target : hash32;
  h_state_root : hash32;
  h_prev_header_hash : hash32
}.

#[export] Instance Predicate_eq_dec : EqDecision Predicate.
Proof. solve_decision. Defined.
#[export] Instance Witness_eq_dec : EqDecision Witness.
Proof. solve_decision. Defined.
#[export] Instance OutputData_eq_dec : EqDecision OutputData.
Proof. solve_decision. Defined.
#[export] Instance InputReveal_eq_dec : EqDecision InputReveal.
Proof. solve_decision. Defined.
#[export] Instance Transaction_eq_dec : EqDecision Transaction.
Proof. solve_decision. Defined.

(** * Size limits applied when deserialising *)

Definition deserialize_witness (items : list bytes) : option Witness :=
  if existsb (fun item => Nat.ltb MAX_WITNESS_ITEM_SIZE (length item)) items
  then None else Some (ScriptInputs items).

(** The derived decoder yields [helper]; [None] is the custom error. *)
Definition deserialize_output (helper : OutputData) : option OutputData :=
  match helper with
  | DataBurn payload _ =>
      if Nat.ltb MAX_BURN_DATA_SIZE (length payload) then None else Some helper
  | _ => Some helper
  end.

(** * Plain accessors of outputs *)

Definition output_value (o : OutputData) : Z :=
  match o with
  | Standard _ value _ => value
  | Confidential _ _ _ => 0
  | DataBurn _ value_burned => value_burned
  end.

Definition output_address (o : OutputData) : hash32 :=
  match o with
  | Standard address _ _ => address
  | Confidential address _ _ => address
  | DataBurn _ _ => zero_arr 32
  end.

Definition output_salt (o : OutputData) : hash32 :=
  match o with
  | Standard _ _ salt => salt
  | Confidential _ _ salt => salt
  | DataBurn _ _ => zero_arr 32
  end.

Definition output_commitment (o : OutputData) : option hash32 :=
  match o with Confidential _ commitment _ => Some commitment | _ => None end.

Definition is_confidential (o : OutputData) : bool :=
  match o with Confidential _ _ _ => true | _ => false end.

Definition allows_zero_value (o : OutputData) : bool :=
  match o with Confidential _ _ _ | DataBurn _ _ => true | Standard _ _ _ => false end.

(** * Denominations and leading zeros *)

(** The [while value > 0] loop of [decompose_value]; a [u64] has at most 64 bits. *)
Fixpoint decompose_loop (fuel : nat) (value bit : Z) (parts : list Z) : list Z :=
  match fuel with
  | O => parts
  | S fuel =>
      if 0 <? value then
        let parts := if Z.land value 1 =? 1 then parts ++ [bit] else parts in
        let value := Z.shiftr value 1 in
        decompose_loop fuel value (if 0 <? value then Z.shiftl bit 1 else bit) parts
      else parts
  end.

Definition decompose_value (value : Z) : list Z := decompose_loop 64 value 1 [].

(** [u8::leading_zeros]. *)
Definition u8_leading_zeros (b : byte) : Z :=
  if bval b =? 0 then 8 else 7 - Z.log2 (bval b).

Fixpoint count_leading_zeros (h : bytes) : Z :=
  match h with
  | [] => 0
  | b :: h => if bval b =? 0 then 8 + count_leading_zeros h else u8_leading_zeros b
  end.

(** * Hashes *)

Section Hashing.
Context `{Blake3}.

Definition hash (data : bytes) : hash32 := blake3 data.

Definition hash_concat (a b : bytes) : hash32 := blake3 (a ++ b).

Definition predicate_address (p : Predicate) : hash32 :=
  match p with Script bytecode => hash bytecode end.

Definition p2pk (owner_pk : hash32) : Predicate := Script (compile_p2pk owner_pk).

(** [Predicate::owner_pk]: recognise a standard P2PK script. *)
Definition owner_pk (p : Predicate) : option hash32 :=
  match p with
  | Script bytecode =>
      if bool_decide (length bytecode = 40%nat) && bool_decide (bytecode !! 0%nat = Some x01)
         && bool_decide (bytecode !! 1%nat = Some (b8 32))
         && bool_decide (bytecode !! 2%nat = Some x00)
         && bool_decide (bytecode !! 35%nat = Some x32)
      then Some (arr_of 32 (take 32 (drop 3 bytecode)))
      else None
  end.

Definition compute_address (pk : hash32) : hash32 := predicate_address (p2pk pk).

Definition compute_coin_id (address : hash32) (value : Z) (salt : hash32) : hash32 :=
  blake3 (address ++ le_bytes 8 value ++ salt).

Definition compute_value_commitment (value : Z) (blinding : hash32) : hash32 :=
  blake3 (le_bytes 8 value ++ blinding).

(** The bytes of a sequence of 32-byte hashes. *)
Definition concat_hashes (l : list hash32) : bytes := mjoin (arr_list <$> l).

Definition commitment_preimage (input_coins new_coins : list hash32) (salt : hash32) : bytes :=
  NETWORK_MAGIC
  ++ le_bytes 4 (Z.of_nat (length input_coins)) ++ concat_hashes input_coins
  ++ le_bytes 4 (Z.of_nat (length new_coins)) ++ concat_hashes new_coins
  ++ salt.

Definition compute_commitment (input_coins new_coins : list hash32) (salt : hash32) : hash32 :=
  blake3 (commitment_preimage input_coins new_coins salt).

Definition confidential_preimage (address commitment salt : hash32) : bytes :=
  bstr "CONFIDENTIAL" ++ address ++ commitment ++ salt.

Definition output_coin_id (o : OutputData) : option hash32 :=
  match o with
  | Standard address value salt => Some (compute_coin_id address value salt)
  | Confidential address commitment salt =>
      Some (blake3 (confidential_preimage address commitment salt))
  | DataBurn _ _ => None
  end.

Definition hash_for_commitment (o : OutputData) : hash32 :=
  match o with
  | Standard address value salt => compute_coin_id address value salt
  | Confidential address commitment salt =>
      blake3 (confidential_preimage address commitment salt)
  | DataBurn payload value_burned =>
      blake3 (bstr "DATABURN" ++ le_bytes 8 value_burned ++ payload)
  end.

Definition input_coin_id (i : InputReveal) : hash32 :=
  match in_commitment i with
  | Some c => blake3 (confidential_preimage (predicate_address (in_predicate i)) c (in_salt i))
  | None => compute_coin_id (predicate_address (in_predicate i)) (in_value i) (in_salt i)
  end.

Definition coinbase_coin_id (cb : CoinbaseOutput) : hash32 :=
  compute_coin_id (cb_address cb) (cb_value cb) (cb_salt cb).

(** * Transactions *)

Definition input_coin_ids (tx : Transaction) : list hash32 :=
  match tx with
  | Commit _ _ => []
  | Reveal inputs _ _ _ | Consolidate inputs _ _ _ => map input_coin_id inputs
  end.

Definition output_coin_ids (tx : Transaction) : list hash32 :=
  match tx with
  | Commit _ _ => []
  | Reveal _ _ outputs _ | Consolidate _ _ outputs _ => omap output_coin_id outputs
  end.

Definition fee (tx : Transaction) : Z :=
  match tx with
  | Commit _ _ => 0
  | Reveal inputs _ outputs _ | Consolidate inputs _ outputs _ =>
      let in_sum := default (umax 64) (checked_sum 64 0 (map in_value inputs)) in
      let out_sum := default (umax 64) (checked_sum 64 0 (map output_value outputs)) in
      sat_sub in_sum out_sum
  end.

(** * Headers *)

(** The transaction hash folded into the mirstat by a Reveal or Consolidate. *)
Definition spend_hash (inputs : list InputReveal) (outputs : list OutputData)
    (salt : hash32) : hash32 :=
  blake3 (concat_hashes (map input_coin_id inputs)
          ++ concat_hashes (map hash_for_commitment outputs) ++ salt).

Definition replay_tx (mirstat : hash32) (tx : Transaction) : hash32 :=
  match tx with
  | Commit commitment _ => hash_concat mirstat commitment
  | Reveal inputs _ outputs salt | Consolidate inputs _ outputs salt =>
      hash_concat mirstat (spend_hash inputs outputs salt)
  end.

Definition batch_header (b : Batch) : BatchHeader :=
  let mirstat := foldl replay_tx (b_prev_mirstat b) (b_transactions b) in
  let mirstat := foldl (fun (m : hash32) cb => hash_concat m (coinbase_coin_id cb)) mirstat (b_coinbase b) in
  let mirstat :=
    if bool_decide (b_state_root b = zero_arr 32) then mirstat
    else hash_concat mirstat (b_state_root b) in
  {| h_height := 0;
     h_prev_header_hash := b_prev_header_hash b;
     h_prev_mirstat := b_prev_mirstat b;
     h_post_tx_mirstat := mirstat;
     h_extension := b_extension b;
     h_timestamp := b_timestamp b;
     h_target := b_target b;
     h_state_root := b_state_root b |}.

Definition compute_header_hash (h : BatchHeader) : hash32 :=
  blake3 (h_prev_header_hash h ++ h_post_tx_mirstat h ++ h_state_root h
          ++ le_bytes 8 (h_timestamp h) ++ h_target h).

End Hashing.

(** * Denominations *)

(** The powers of two of the set bits of [v], shifted by [k], lowest first. *)
Fixpoint set_bits (n : nat) (v k : Z) : list Z :=
  match n with
  | O => []
  | S n => (if Z.odd v then [2 ^ k] else []) ++ set_bits n (Z.div2 v) (k + 1)
  end.

Lemma set_bits_0 n k : set_bits n 0 k = [].
Proof. revert k; induction n; intros k; simpl; auto. Qed.

Lemma land_1_odd v : (Z.land v 1 =? 1) = Z.odd v.
Proof.
  change 1 with (Z.ones 1) at 1. rewrite Z.land_ones by lia. change (2 ^ 1) with 2.
  rewrite Zmod_odd. destruct (Z.odd v); reflexivity.
Qed.

Lemma decompose_loop_spec n v k parts :
  0 <= k -> 0 <= v < 2 ^ Z.of_nat n ->
  decompose_loop n v (2 ^ k) parts = parts ++ set_bits n v k.
Proof.
  revert v k parts; induction n as [|n IH]; intros v k parts Hk Hv; cbn [decompose_loop set_bits].
  - rewrite app_nil_r. reflexivity.
  - rewrite Nat2Z.inj_succ, Z.pow_succ_r in Hv by lia.
    destruct (Z.ltb_spec 0 v) as [Hp|Hp].
    + rewrite land_1_odd, <- Z.div2_spec.
      assert (0 <= Z.div2 v < 2 ^ Z.of_nat n) by (rewrite Z.div2_div; Z.div_mod_to_equations; lia).
      destruct (Z.ltb_spec 0 (Z.div2 v)) as [Hd|Hd].
      * rewrite Z.shiftl_mul_pow2, <- Z.pow_add_r by lia.
        rewrite IH by lia. destruct (Z.odd v); rewrite <- ?app_assoc; reflexivity.
      * replace (Z.div2 v) with 0 by lia. rewrite set_bits_0, app_nil_r.
        destruct n; simpl; destruct (Z.odd v); rewrite ?app_nil_r; reflexivity.
    + replace v with 0 by lia. simpl. rewrite set_bits_0, app_nil_r. reflexivity.
Qed.

Lemma set_bits_sum n v k :
  0 <= k -> 0 <= v < 2 ^ Z.of_nat n -> sumZ (set_bits n v k) = 2 ^ k * v.
Proof.
  revert v k; induction n as [|n IH]; intros v k Hk Hv; cbn [set_bits].
  - simpl in *. replace v with 0 by lia. simpl. lia.
  - rewrite Nat2Z.inj_succ, Z.pow_succ_r in Hv by lia.
    rewrite sumZ_app, IH by (rewrite ?Z.div2_div; Z.div_mod_to_equations; lia).
    rewrite Z.pow_add_r by lia. rewrite (Zdiv2_odd_eqn v) at 3.
    destruct (Z.odd v); simpl; lia.
Qed.

Lemma set_bits_ge n v k : 0 <= k -> Forall (fun d => exists j, k <= j < k + Z.of_nat n /\ d = 2 ^ j) (set_bits n v k).
Proof.
  revert v k; induction n as [|n IH]; intros v k Hk; cbn [set_bits]; [constructor|].
  apply Forall_app; split.
  - destruct (Z.odd v); repeat constructor. exists k. lia.
  - eapply Forall_impl; [apply IH; lia|]. intros d (j & Hj & ->). exists j. lia.
Qed.

Lemma set_bits_sorted n v k : 0 <= k -> StronglySorted Z.lt (set_bits n v k).
Proof.
  revert v k; induction n as [|n IH]; intros v k Hk; cbn [set_bits]; [constructor|].
  destruct (Z.odd v); simpl; [|apply IH; lia]. constructor; [apply IH; lia|].
  eapply Forall_impl; [apply set_bits_ge; lia|].
  intros d (j & Hj & ->). apply Z.pow_lt_mono_r; lia.
Qed.

Lemma decompose_value_bits v : in_u 64 v -> decompose_value v = set_bits 64 v 0.
Proof. intros Hv. unfold decompose_value. apply (decompose_loop_spec 64 v 0 []); [lia|exact Hv]. Qed.

Lemma decompose_value_sum v : in_u 64 v -> sumZ (decompose_value v) = v.
Proof.
  intros Hv. rewrite decompose_value_bits by exact Hv.
  rewrite set_bits_sum; [lia|lia|exact Hv].
Qed.

Lemma decompose_value_pow2 v : in_u 64 v -> Forall (fun d => is_pow2 d = true) (decompose_value v).
Proof.
  intros Hv. rewrite decompose_value_bits by exact Hv.
  eapply Forall_impl; [apply set_bits_ge; lia|].
  intros d (j & Hj & ->). apply is_pow2_pow. lia.
Qed.

Lemma decompose_value_range v : in_u 64 v -> Forall (in_u 64) (decompose_value v).
Proof.
  intros Hv. rewrite decompose_value_bits by exact Hv.
  eapply Forall_impl; [apply set_bits_ge; lia|].
  intros d (j & Hj & ->). split; [apply Z.pow_nonneg; lia|apply Z.pow_lt_mono_r; lia].
Qed.

Lemma length_set_bits n : forall v k, (length (set_bits n v k) <= n)%nat.
Proof.
  induction n as [|n IH]; intros v k; cbn [set_bits]; [cbn; lia|]. rewrite length_app. specialize (IH (Z.div2 v) (k + 1)).
  destruct (Z.odd v); cbn; lia.
Qed.

Lemma length_decompose v : in_u 64 v -> (length (decompose_value v) <= 64)%nat.
Proof. intros Hv. rewrite decompose_value_bits by exact Hv. apply length_set_bits. Qed.

Lemma below_sum l : Forall (fun c => 0 < c) l -> Forall (fun c => 0 < c <= sumZ l) l.
Proof.
  induction 1 as [|c l Hc HF IH]; [constructor|].
  assert (0 <= sumZ l) by (apply sumZ_nonneg; eapply Forall_impl; [exact HF|]; cbn; lia).
  constructor; [unfold sumZ in *; cbn [foldr]; lia|]. eapply Forall_impl; [exact IH|]. unfold sumZ. cbn [foldr]. lia.
Qed.

Lemma decompose_coins v : in_u 64 v -> Forall (fun c => 0 < c <= v) (decompose_value v).
Proof.
  intros Hv. pose proof (below_sum (decompose_value v)) as HB. rewrite (decompose_value_sum v Hv) in HB. apply HB.
  eapply Forall_impl; [apply decompose_value_pow2, Hv|]. intros c Hc. apply andb_true_iff in Hc as [Hc _]. apply Z.ltb_lt, Hc.
Qed.

(** [decompose_value] splits a [u64] into strictly increasing powers of two
    that add up to it. *)
Lemma decompose_value_correct v :
  in_u 64 v ->
  sumZ (decompose_value v) = v
  /\ Forall (fun d => is_pow2 d = true) (decompose_value v)
  /\ StronglySorted Z.lt (decompose_value v).
Proof.
  intros Hv. split; [apply decompose_value_sum, Hv|].
  split; [apply decompose_value_pow2, Hv|].
  rewrite decompose_value_bits by exact Hv. apply set_bits_sorted. lia.
Qed.

Lemma decompose_value_correct_witness :
  sumZ (decompose_value 1023) = 1023
  /\ Forall (fun d => is_pow2 d = true) (decompose_value 1023)
  /\ StronglySorted Z.lt (decompose_value 1023).
Proof. apply (decompose_value_correct 1023). split; [lia|vm_compute; reflexivity]. Defined.

(** * Leading zeros *)

Lemma count_leading_zeros_spec l :
  count_leading_zeros l =
  if be_val l =? 0 then 8 * Z.of_nat (length l)
  else 8 * Z.of_nat (length l) - 1 - Z.log2 (be_val l).
Proof.
  induction l as [|b l IH]; [reflexivity|]. cbn [count_leading_zeros].
  rewrite be_val_cons, length_cons, Nat2Z.inj_succ.
  pose proof (bval_range b) as Hb. pose proof (be_val_range l) as Hl.
  destruct (Z.eqb_spec (bval b) 0) as [E|E].
  - rewrite IH, E. rewrite Z.mul_0_l, Z.add_0_l. destruct (be_val l =? 0); lia.
  - destruct (Z.eqb_spec (bval b * 2 ^ (8 * Z.of_nat (length l)) + be_val l) 0); [nia|].
    unfold u8_leading_zeros. destruct (Z.eqb_spec (bval b) 0); [lia|].
    assert (Z.log2 (bval b * 2 ^ (8 * Z.of_nat (length l)) + be_val l)
            = Z.log2 (bval b) + 8 * Z.of_nat (length l)) as ->; [|lia].
    apply Z.log2_unique.
    + pose proof (Z.log2_nonneg (bval b)). lia.
    + pose proof (Z.log2_spec (bval b) ltac:(lia)) as [L1 L2].
      pose proof (Z.log2_nonneg (bval b)).
      rewrite <- Z.add_succ_l, !Z.pow_add_r by lia.
      set (M := 2 ^ (8 * Z.of_nat (length l))) in *. nia.
Qed.

Lemma count_leading_zeros_ge l k :
  0 <= k <= 8 * Z.of_nat (length l) ->
  (k <= count_leading_zeros l <-> be_val l < 2 ^ (8 * Z.of_nat (length l) - k)).
Proof.
  intros Hk. rewrite count_leading_zeros_spec. pose proof (be_val_range l) as Hl.
  destruct (Z.eqb_spec (be_val l) 0) as [->|E].
  - split; [intros _; apply Z.pow_pos_nonneg; lia|lia].
  - split; intros Hx.
    + apply Z.log2_lt_pow2; lia.
    + apply Z.log2_lt_pow2 in Hx; lia.
Qed.

(** * Commitments bind *)

Lemma concat_hashes_cons h l : concat_hashes (h :: l) = arr_list h ++ concat_hashes l.
Proof. reflexivity. Qed.

Lemma length_concat_hashes l : length (concat_hashes l) = (32 * length l)%nat.
Proof.
  induction l as [|h l IH]; [reflexivity|].
  rewrite concat_hashes_cons, length_app, IH, arr_length. simpl. lia.
Qed.

Lemma concat_hashes_inj l k s t :
  length l = length k -> concat_hashes l ++ s = concat_hashes k ++ t -> l = k /\ s = t.
Proof.
  revert k; induction l as [|h l IH]; intros [|h' k]; try discriminate; [auto|].
  intros [= Hl]. rewrite !concat_hashes_cons, <- !app_assoc. intros E.
  apply app_inj_1 in E as [E1 E2]; [|rewrite !arr_length; reflexivity].
  apply arr_eq in E1. apply IH in E2 as [-> ->]; auto. subst; auto.
Qed.

Lemma commitment_preimage_inj ins outs salt ins' outs' salt' :
  Z.of_nat (length ins) < 2 ^ 32 -> Z.of_nat (length ins') < 2 ^ 32 ->
  Z.of_nat (length outs) < 2 ^ 32 -> Z.of_nat (length outs') < 2 ^ 32 ->
  commitment_preimage ins outs salt = commitment_preimage ins' outs' salt' ->
  ins = ins' /\ outs = outs' /\ salt = salt'.
Proof.
  intros H1 H2 H3 H4 E. unfold commitment_preimage in E. apply app_inv_head in E.
  apply app_inj_1 in E as [E1 E2]; [|rewrite !length_le_bytes; reflexivity].
  apply le_bytes_inj in E1; [|split; [lia|assumption]..].
  apply concat_hashes_inj in E2 as [-> E2]; [|lia].
  apply app_inj_1 in E2 as [E3 E4]; [|rewrite !length_le_bytes; reflexivity].
  apply le_bytes_inj in E3; [|split; [lia|assumption]..].
  apply concat_hashes_inj in E4 as [-> E4]; [|lia]. apply arr_eq in E4. auto.
Qed.

(** Two transactions with the same commitment spend the same coins, create
    the same outputs and use the same salt, unless their two preimages collide
    under BLAKE3: the length prefixes leave no boundary ambiguity. *)
Lemma compute_commitment_binding `{Blake3} ins outs salt ins' outs' salt' :
  Z.of_nat (length ins) < 2 ^ 32 -> Z.of_nat (length ins') < 2 ^ 32 ->
  Z.of_nat (length outs) < 2 ^ 32 -> Z.of_nat (length outs') < 2 ^ 32 ->
  collision_free (fun x => x ∈ [commitment_preimage ins outs salt;
                                commitment_preimage ins' outs' salt']) ->
  compute_commitment ins outs salt = compute_commitment ins' outs' salt' ->
  ins = ins' /\ outs = outs' /\ salt = salt'.
Proof.
  intros H1 H2 H3 H4 CF E. apply CF in E; [|set_solver..].
  apply commitment_preimage_inj in E; assumption.
Qed.

Lemma compute_commitment_binding_witness :
  let H := toy_blake3 in
  let a := arr_of 32 [x01] in let b := arr_of 32 [x02] in
  compute_commitment [a] [b] a = compute_commitment [a] [b] a
  /\ ([a] = [a] /\ [b] = [b] /\ a = a).
Proof.
  split; [reflexivity|].
  apply (@compute_commitment_binding toy_blake3); try reflexivity.
  apply cf_check_sound. vm_compute. reflexivity.
Defined.

(** * Monetary schedule *)

Lemma block_reward_shift h :
  0 <= h -> block_reward h = 2 ^ (30 - Z.min (h / BLOCKS_PER_YEAR) 30).
Proof.
  intros Hh. unfold block_reward. cbv zeta.
  assert (0 <= h / BLOCKS_PER_YEAR) by (apply Z.div_pos; [exact Hh|reflexivity]).
  set (k := Z.min _ 30). assert (0 <= k <= 30) by lia.
  rewrite Z.shiftr_div_pow2 by lia. change INITIAL_REWARD with (2 ^ 30).
  replace 30 with ((30 - k) + k) at 1 by lia. rewrite Z.pow_add_r by lia.
  apply Z.div_mul. pose proof (Z.pow_pos_nonneg 2 k). lia.
Qed.

(** The block reward starts at 2^30, never increases, halves each year until
    the thirtieth, and never falls below one unit (there is no height at which
    issuance stops). *)
Lemma block_reward_schedule h h' :
  0 <= h <= h' ->
  block_reward h' <= block_reward h
  /\ 1 <= block_reward h' <= INITIAL_REWARD
  /\ (h / BLOCKS_PER_YEAR < 30 ->
      2 * block_reward (h + BLOCKS_PER_YEAR) = block_reward h).
Proof.
  intros Hh. assert (0 < BLOCKS_PER_YEAR) by reflexivity.
  assert (h / BLOCKS_PER_YEAR <= h' / BLOCKS_PER_YEAR) by (apply Z.div_le_mono; lia).
  assert (0 <= h / BLOCKS_PER_YEAR) by (apply Z.div_pos; lia).
  rewrite !block_reward_shift by lia. split; [apply Z.pow_le_mono_r; lia|]. split.
  - change INITIAL_REWARD with (2 ^ 30). split.
    + apply (Z.pow_le_mono_r 2 0); lia.
    + apply Z.pow_le_mono_r; lia.
  - intros Hy. replace (h + BLOCKS_PER_YEAR) with (h + 1 * BLOCKS_PER_YEAR) by lia.
    rewrite Z.div_add by lia. rewrite <- Z.pow_succ_r by lia. f_equal. lia.
Qed.

Lemma block_reward_schedule_witness :
  block_reward 1000000 <= block_reward 10
  /\ 1 <= block_reward 1000000 <= INITIAL_REWARD
  /\ (10 / BLOCKS_PER_YEAR < 30 ->
      2 * block_reward (10 + BLOCKS_PER_YEAR) = block_reward 10).
Proof. apply (block_reward_schedule 10 1000000). lia. Defined.
