(* ===== verification/Wots.v ===== *)
(** Winternitz one-time signatures, [src/core/wots.rs], with the batching
    routine of [src/core/wots_simd.rs]: digits and checksum, key generation,
    signing, verification, the signature codec, and the partial secret key that
    observed key reuse leaks. *)
From S2P Require Import Prelude Types.

#[local] Open Scope Z_scope.

Definition W : Z := 16.
Definition MSG_CHAINS : nat := 16.
Definition CHECKSUM_CHAINS : nat := 2.
Definition CHAINS : nat := MSG_CHAINS + CHECKSUM_CHAINS.
Definition MAX_DIGIT : Z := Z.shiftl 1 W - 1.
Definition SIG_SIZE : nat := CHAINS * 32.

#[global] Arguments Z.to_nat : simpl never.
#[global] Arguments MAX_DIGIT : simpl never.

(** * Digits *)

(** 16 big-endian 16-bit digits. *)
Definition message_digits (msg : hash32) : list Z :=
  map (fun i => be_val (take 2 (drop (2 * i) msg))) (seq 0 MSG_CHAINS).

Definition checksum_digits (msg_digits : list Z) : list Z :=
  let sum := sumZ (map (fun d => MAX_DIGIT - d) msg_digits) in
  [Z.land (Z.shiftr sum 16) 65535; Z.land sum 65535].

Definition all_digits (msg : hash32) : list Z :=
  let md := message_digits msg in
  let cd := checksum_digits md in
  md ++ cd.

(** * The signature codec: 18 hashes, 576 bytes *)

Definition sig_to_bytes (sig : list hash32) : bytes := concat_hashes sig.

(** [chunks_exact(32)] of a slice of [32 * n] bytes. *)
Fixpoint chunks32 (n : nat) (l : bytes) : list hash32 :=
  match n with
  | O => []
  | S n => arr_of 32 (take 32 l) :: chunks32 n (drop 32 l)
  end.

Definition sig_from_bytes (l : bytes) : option (list hash32) :=
  if Nat.eqb (length l) SIG_SIZE then Some (chunks32 CHAINS l) else None.

(** [(revealed_depth, intermediate_hash)] for each of the 18 chains. *)
Abbreviation PartialSecretKey := (list (Z * hash32)).

Section Wots.
Context `{Blake3}.

(** [scalar_wots_chain]: [iters] sequential hashes. *)
Fixpoint scalar_wots_chain (val : hash32) (iters : nat) : hash32 :=
  match iters with
  | O => val
  | S iters => scalar_wots_chain (hash val) iters
  end.

(** * Batched chains

    [lanes] is the SIMD width detected at run time and [kernel] the vector
    routine for that width; [order] is the index permutation produced by the
    unstable sort on iteration counts. *)

Fixpoint batch_loop (fuel : nat) (lanes : nat)
    (kernel : list hash32 -> list nat -> list hash32)
    (inputs : list hash32) (iters : list nat) : list hash32 :=
  match fuel, inputs, iters with
  | S fuel, x :: xs, n :: ns =>
      if (lanes <=? length inputs)%nat && (1 <? lanes)%nat then
        kernel (take lanes inputs) (take lanes iters)
        ++ batch_loop fuel lanes kernel (drop lanes inputs) (drop lanes iters)
      else scalar_wots_chain x n :: batch_loop fuel lanes kernel xs ns
  | _, _, _ => []
  end.

(** [for (sorted_pos, &original_idx) in order: results[original_idx] = ...]. *)
Definition unshuffle (n : nat) (order : list nat) (sorted : list hash32) : list hash32 :=
  foldl (fun results p => <[fst p := snd p]> results) (replicate n (zero_arr 32))
    (zip order sorted).

Definition process_wots_batch_with (order : list nat) (lanes : nat)
    (kernel : list hash32 -> list nat -> list hash32)
    (inputs : list hash32) (iters : list nat) : list hash32 :=
  let n := length inputs in
  let sorted_inputs := map (fun i => nth i inputs (zero_arr 32)) order in
  let sorted_iters := map (fun i => nth i iters 0%nat) order in
  unshuffle n order (batch_loop n lanes kernel sorted_inputs sorted_iters).

(** The value every backend computes (see [process_wots_batch_equiv]). *)
Definition process_wots_batch (inputs : list hash32) (iters : list nat) : list hash32 :=
  process_wots_batch_with (seq 0 (length inputs)) 1 (fun _ _ => []) inputs iters.

(** * Keys and signatures *)

Definition chain_sk (seed : hash32) (i : nat) : hash32 :=
  blake3 (seed ++ le_bytes 4 (Z.of_nat i)).

Definition compress (endpoints : list hash32) : hash32 := blake3 (concat_hashes endpoints).

Definition keygen_seq (seed : hash32) : hash32 :=
  let inputs := map (chain_sk seed) (seq 0 CHAINS) in
  let targets := replicate CHAINS (Z.to_nat MAX_DIGIT) in
  compress (process_wots_batch inputs targets).

Definition keygen (seed : hash32) : hash32 := keygen_seq seed.

Definition sign (seed message : hash32) : list hash32 :=
  let digits := all_digits message in
  let inputs := map (chain_sk seed) (seq 0 CHAINS) in
  process_wots_batch inputs (map Z.to_nat digits).

Definition verify (sig : list hash32) (message coin_id : hash32) : bool :=
  let digits := all_digits message in
  let targets := map (fun d => Z.to_nat (MAX_DIGIT - d)) digits in
  bool_decide (compress (process_wots_batch sig targets) = coin_id).

(** * Key reuse: the partial secret key *)

Definition psk_from_signature (sig : list hash32) (message : hash32) : PartialSecretKey :=
  zip (all_digits message) sig.

Definition psk_merge_signature (psk : PartialSecretKey) (sig : list hash32)
    (message : hash32) : PartialSecretKey :=
  zip_with (fun c n => if fst n <? fst c then n else c) psk (zip (all_digits message) sig).

Definition psk_can_sign (psk : PartialSecretKey) (message : hash32) : bool :=
  forallb (fun p => negb (fst p <? fst (snd p))) (zip (all_digits message) psk).

(** [assert!(target_depth >= stored_depth)] panics. *)
Definition psk_sign {E} (psk : PartialSecretKey) (message : hash32) : res E (list hash32) :=
  if psk_can_sign psk message then
    Ok (zip_with (fun d c => scalar_wots_chain (snd c) (Z.to_nat (d - fst c)))
          (all_digits message) psk)
  else Panic.

End Wots.

(** * Lemmas: digits *)

Lemma MAX_DIGIT_val : MAX_DIGIT = 65535.
Proof. reflexivity. Qed.

Lemma length_message_digits m : length (message_digits m) = MSG_CHAINS.
Proof. unfold message_digits. rewrite length_map, length_seq. reflexivity. Qed.

Lemma length_all_digits m : length (all_digits m) = CHAINS.
Proof. unfold all_digits. rewrite length_app, length_message_digits. reflexivity. Qed.

Lemma message_digits_range m : Forall (fun d => 0 <= d <= MAX_DIGIT) (message_digits m).
Proof.
  apply Forall_map, Forall_forall. intros i Hi. apply elem_of_seq in Hi.
  pose proof (be_val_range (take 2 (drop (2 * i) m))) as R.
  rewrite length_take, length_drop, arr_length in R.
  unfold MSG_CHAINS in Hi. rewrite Nat.min_l in R by lia.
  change (2 ^ _) with 65536 in R. rewrite MAX_DIGIT_val. lia.
Qed.

Lemma message_digits_inj m m' : message_digits m = message_digits m' -> m = m'.
Proof.
  intros E. apply arr_eq, list_eq_same_length with 32%nat; rewrite ?arr_length; try reflexivity.
  intros k x y Hk Hx Hy.
  assert (HS : take 2 (drop (2 * (k / 2)) m) = take 2 (drop (2 * (k / 2)) m')).
  { apply be_val_inj; [rewrite !length_take, !length_drop, !arr_length; reflexivity|].
    assert (Hi : (k / 2 < MSG_CHAINS)%nat) by (apply Nat.Div0.div_lt_upper_bound; simpl; lia).
    apply (f_equal (fun l => l !! (k / 2)%nat)) in E. unfold message_digits in E.
    rewrite !list_lookup_fmap, !lookup_seq_lt in E by exact Hi. injection E as E. exact E. }
  pose proof (Nat.div_mod_eq k 2) as Hd. pose proof (Nat.mod_upper_bound k 2 ltac:(lia)).
  apply (f_equal (fun l => l !! (k mod 2)%nat)) in HS.
  rewrite !lookup_take_lt, !lookup_drop in HS by lia. rewrite <- Hd in HS. congruence.
Qed.

Definition checksum_value (md : list Z) : Z := sumZ (map (fun d => MAX_DIGIT - d) md).

Lemma checksum_value_range md :
  length md = MSG_CHAINS -> Forall (fun d => 0 <= d <= MAX_DIGIT) md ->
  0 <= checksum_value md < 2 ^ 20.
Proof.
  assert (forall l, Forall (fun d => 0 <= d <= MAX_DIGIT) l ->
    0 <= checksum_value l <= MAX_DIGIT * Z.of_nat (length l)) as A.
  { induction 1 as [|d l Hd Hl IH]; unfold checksum_value in *; simpl length; simpl; [lia|].
    fold (sumZ (map (fun d => MAX_DIGIT - d) l)). lia. }
  intros Hl Hd. specialize (A md Hd). rewrite Hl, MAX_DIGIT_val in A.
  change (Z.of_nat MSG_CHAINS) with 16 in A. lia.
Qed.

Lemma checksum_digits_val md :
  length md = MSG_CHAINS -> Forall (fun d => 0 <= d <= MAX_DIGIT) md ->
  exists hi lo, checksum_digits md = [hi; lo]
    /\ checksum_value md = hi * 65536 + lo
    /\ 0 <= hi <= 15 /\ 0 <= lo <= MAX_DIGIT.
Proof.
  intros Hl Hd. pose proof (checksum_value_range md Hl Hd) as R.
  unfold checksum_digits. fold (checksum_value md). set (c := checksum_value md) in *.
  exists (c / 65536), (c mod 65536).
  change 65535 with (Z.ones 16). rewrite !Z.land_ones, Z.shiftr_div_pow2 by lia.
  change (2 ^ 16) with 65536. change (2 ^ 20) with 1048576 in R. rewrite MAX_DIGIT_val.
  rewrite (Z.mod_small (c / 65536)) by (Z.div_mod_to_equations; lia).
  split; [reflexivity|]. Z.div_mod_to_equations; lia.
Qed.

(** Digit [i] of [b] is at least digit [i] of [a], for every chain. *)
Abbreviation dominates a b := (Forall2 Z.le a b).

Lemma dominates_checksum a b :
  dominates a b -> checksum_value b <= checksum_value a /\
  (checksum_value b = checksum_value a -> a = b).
Proof.
  unfold checksum_value. induction 1 as [|x y a b Hxy Hab [IH1 IH2]]; simpl; [split; [lia|reflexivity]|].
  split; [lia|]. intros E. assert (x = y) as -> by lia. rewrite IH2 by lia. reflexivity.
Qed.

Lemma all_digits_antichain m m' : dominates (all_digits m) (all_digits m') -> m = m'.
Proof.
  intros D. unfold all_digits in D.
  apply Forall2_app_inv in D as [Dm Dc]; [|rewrite !length_message_digits; reflexivity].
  destruct (checksum_digits_val _ (length_message_digits m) (message_digits_range m))
    as (h & l & E1 & V1 & R1 & R2).
  destruct (checksum_digits_val _ (length_message_digits m') (message_digits_range m'))
    as (h' & l' & E2 & V2 & R3 & R4).
  rewrite E1, E2 in Dc. apply Forall2_cons_1 in Dc as [D1 D2].
  apply Forall2_cons_1 in D2 as [D3 _].
  apply dominates_checksum in Dm as [C1 C2]. apply message_digits_inj, C2. nia.
Qed.

Lemma all_digits_range m : Forall (fun d => 0 <= d <= MAX_DIGIT) (all_digits m).
Proof.
  unfold all_digits. apply Forall_app; split; [apply message_digits_range|].
  destruct (checksum_digits_val _ (length_message_digits m) (message_digits_range m))
    as (h & l & -> & _ & R1 & R2). rewrite MAX_DIGIT_val in *.
  repeat constructor; lia.
Qed.

(** * Lemmas: the signature codec *)

Lemma chunks32_concat l s n :
  length l = n -> chunks32 n (concat_hashes l ++ s) = l.
Proof.
  revert n; induction l as [|h l IH]; intros n <-; [reflexivity|].
  cbn [length chunks32]. rewrite concat_hashes_cons, <- app_assoc.
  rewrite take_app_length', drop_app_length' by (symmetry; apply arr_length).
  rewrite arr_of_list, IH; reflexivity.
Qed.

Lemma concat_chunks32 n l : length l = (32 * n)%nat -> concat_hashes (chunks32 n l) = l.
Proof.
  revert l; induction n as [|n IH]; intros l Hl; cbn [chunks32].
  - destruct l; [reflexivity|simpl in Hl; lia].
  - rewrite concat_hashes_cons, IH by (rewrite length_drop; lia).
    rewrite arr_of_id by (rewrite length_take; lia). apply take_drop.
Qed.

Lemma length_chunks32 n l : length (chunks32 n l) = n.
Proof. revert l; induction n; intros l; simpl; auto. Qed.

Lemma sig_to_from_bytes sig :
  length sig = CHAINS -> sig_from_bytes (sig_to_bytes sig) = Some sig.
Proof.
  intros Hl. unfold sig_from_bytes, sig_to_bytes. rewrite length_concat_hashes, Hl.
  change (Nat.eqb _ SIG_SIZE) with true. cbv iota.
  rewrite <- (app_nil_r (concat_hashes sig)), chunks32_concat by exact Hl. reflexivity.
Qed.

Lemma sig_from_to_bytes l sig :
  sig_from_bytes l = Some sig -> sig_to_bytes sig = l /\ length sig = CHAINS.
Proof.
  unfold sig_from_bytes. destruct (Nat.eqb_spec (length l) SIG_SIZE) as [E|]; [|discriminate].
  intros Hs. apply (inj Some) in Hs as <-. split; [|apply length_chunks32].
  apply concat_chunks32. rewrite E. reflexivity.
Qed.

(** * Lemmas: chains *)

Section Chains.
Context `{Blake3}.

Lemma scalar_wots_chain_add v a b :
  scalar_wots_chain v (a + b) = scalar_wots_chain (scalar_wots_chain v a) b.
Proof. revert v; induction a as [|a IH]; intros v; simpl; auto. Qed.

Lemma scalar_wots_chain_Z v a b c :
  0 <= a -> 0 <= b -> a + b = c ->
  scalar_wots_chain (scalar_wots_chain v (Z.to_nat a)) (Z.to_nat b)
  = scalar_wots_chain v (Z.to_nat c).
Proof. intros Ha Hb <-. rewrite Z2Nat.inj_add by assumption. symmetry. apply scalar_wots_chain_add. Qed.

Lemma batch_loop_correct fuel lanes kernel xs ns :
  (forall xs ns, length xs = lanes -> length ns = lanes ->
     kernel xs ns = zip_with scalar_wots_chain xs ns) ->
  length xs = length ns -> (length xs <= fuel)%nat ->
  batch_loop fuel lanes kernel xs ns = zip_with scalar_wots_chain xs ns.
Proof.
  intros HK. revert xs ns; induction fuel as [|fuel IH]; intros [|x xs] [|n ns] HL HF;
    try discriminate; try reflexivity; [simpl in HF; lia|].
  cbn [batch_loop]. destruct (_ && _) eqn:E.
  - apply andb_true_iff in E as [E1 E2]. apply Nat.leb_le in E1. apply Nat.ltb_lt in E2.
    rewrite HK by (rewrite length_take; lia).
    rewrite IH; [|rewrite !length_drop; lia|rewrite length_drop; simpl in *; lia].
    rewrite <- zip_with_app by (rewrite !length_take; lia).
    rewrite !take_drop. reflexivity.
  - simpl. f_equal. apply IH; simpl in *; lia.
Qed.

(** Writing [f i] at every index [i] of [order] leaves [f] at those indices. *)
Lemma unshuffle_fold (order : list nat) (f : nat -> hash32) (acc : list hash32) i :
  NoDup order ->
  foldl (fun results p => <[fst p := snd p]> results) acc (zip order (map f order)) !! i
  = if decide (i ∈ order) then (if decide (i < length acc)%nat then Some (f i) else None)
    else acc !! i.
Proof.
  revert acc; induction order as [|j order IH]; intros acc ND; [reflexivity|].
  apply NoDup_cons in ND as [Hj ND]. cbn [map zip zip_with foldl fst snd].
  rewrite IH by exact ND. rewrite length_insert.
  destruct (decide (i ∈ order)) as [Hi|Hi].
  - rewrite (decide_True (P := i ∈ j :: order)) by (apply elem_of_cons; auto). reflexivity.
  - destruct (decide (i = j)) as [->|Hne].
    + rewrite (decide_True (P := j ∈ j :: order)) by (apply elem_of_cons; auto). case_decide as HB.
      * apply list_lookup_insert_eq, HB.
      * apply lookup_ge_None. rewrite length_insert. lia.
    + rewrite (decide_False (P := i ∈ j :: order)) by (rewrite elem_of_cons; tauto).
      apply list_lookup_insert_ne. congruence.
Qed.

Lemma process_wots_batch_with_correct order lanes kernel xs ns :
  order ≡ₚ seq 0 (length xs) ->
  (forall xs ns, length xs = lanes -> length ns = lanes ->
     kernel xs ns = zip_with scalar_wots_chain xs ns) ->
  length xs = length ns ->
  process_wots_batch_with order lanes kernel xs ns = zip_with scalar_wots_chain xs ns.
Proof.
  intros HP HK HL. unfold process_wots_batch_with, unshuffle.
  assert (Hlen : length order = length xs) by (rewrite HP; apply length_seq).
  rewrite batch_loop_correct; [|exact HK|rewrite !length_map; reflexivity|rewrite length_map; lia].
  set (f := fun i => scalar_wots_chain (nth i xs (zero_arr 32)) (nth i ns 0%nat)).
  replace (zip_with _ (map _ order) (map _ order)) with (map f order).
  2: { clear HP Hlen. induction order as [|i order IH]; simpl; [reflexivity|].
       rewrite IH. reflexivity. }
  apply list_eq. intros i. rewrite unshuffle_fold by (rewrite HP; apply NoDup_seq).
  rewrite length_replicate, lookup_zip_with.
  destruct (decide (i < length xs)%nat) as [Hi|Hi].
  - rewrite decide_True by (rewrite HP, elem_of_seq; lia).
    destruct (lookup_lt_is_Some_2 xs i Hi) as [x Hx].
    destruct (lookup_lt_is_Some_2 ns i ltac:(lia)) as [n Hn].
    rewrite Hx, Hn. simpl. unfold f. do 2 f_equal.
    + apply nth_lookup_Some, Hx.
    + apply nth_lookup_Some, Hn.
  - rewrite decide_False by (rewrite HP, elem_of_seq; lia).
    rewrite (lookup_ge_None_2 xs) by lia. simpl. apply lookup_ge_None_2.
    rewrite length_replicate. lia.
Qed.

Lemma process_wots_batch_eq xs ns :
  length xs = length ns -> process_wots_batch xs ns = zip_with scalar_wots_chain xs ns.
Proof.
  intros HL. unfold process_wots_batch.
  set (k := fun (_ : list hash32) (_ : list nat) => []).
  assert (HB : forall fuel xs ns, length xs = length ns -> (length xs <= fuel)%nat ->
     batch_loop fuel 1 k xs ns = batch_loop fuel 1 (zip_with scalar_wots_chain) xs ns).
  { clear. induction fuel as [|fuel IH]; intros [|x xs] [|n ns] HL HF; try reflexivity.
    cbn [batch_loop]. rewrite andb_false_r, IH by (simpl in *; lia). reflexivity. }
  rewrite <- (process_wots_batch_with_correct (seq 0 (length xs)) 1 (zip_with scalar_wots_chain));
    [|reflexivity|auto|exact HL].
  unfold process_wots_batch_with. rewrite HB; [reflexivity|..];
    rewrite ?length_map, ?length_seq; lia.
Qed.

End Chains.

(** * Correctness of the scheme *)

Section Scheme.
Context `{Blake3}.

(** Every entry of a partial secret key lies on the chain of [seed]. *)
Definition psk_of (seed : hash32) (psk : PartialSecretKey) : Prop :=
  Forall2 (fun i c => 0 <= fst c <= MAX_DIGIT
                      /\ snd c = scalar_wots_chain (chain_sk seed i) (Z.to_nat (fst c)))
    (seq 0 CHAINS) psk.

Lemma zip_with_replicate_r {A B C} (f : A -> B -> C) l n b :
  length l = n -> zip_with f l (replicate n b) = map (fun a => f a b) l.
Proof. intros <-. induction l; simpl; f_equal; auto. Qed.

Lemma verify_eq sig m pk :
  length sig = CHAINS ->
  verify sig m pk = bool_decide (compress
    (zip_with (fun v d => scalar_wots_chain v (Z.to_nat (MAX_DIGIT - d))) sig (all_digits m)) = pk).
Proof.
  intros HL. unfold verify. cbv zeta. rewrite process_wots_batch_eq
    by (rewrite length_map, length_all_digits; exact HL).
  rewrite zip_with_fmap_r. reflexivity.
Qed.

Lemma sign_eq seed m :
  sign seed m = zip_with (fun i d => scalar_wots_chain (chain_sk seed i) (Z.to_nat d))
                  (seq 0 CHAINS) (all_digits m).
Proof.
  unfold sign. cbv zeta. rewrite process_wots_batch_eq
    by (rewrite !length_map, length_all_digits; reflexivity).
  rewrite zip_with_fmap_l, zip_with_fmap_r. reflexivity.
Qed.

Lemma length_sign seed m : length (sign seed m) = CHAINS.
Proof.
  rewrite sign_eq, length_zip_with, length_seq, length_all_digits. apply Nat.min_id.
Qed.

Lemma keygen_eq seed :
  keygen seed = compress (map (fun i => scalar_wots_chain (chain_sk seed i) (Z.to_nat MAX_DIGIT))
                            (seq 0 CHAINS)).
Proof.
  unfold keygen, keygen_seq. cbv zeta. rewrite process_wots_batch_eq
    by (rewrite length_map, length_replicate; reflexivity).
  rewrite zip_with_replicate_r by reflexivity. rewrite map_map. reflexivity.
Qed.

Lemma sign_ends seed (ds : list Z) ix :
  length ix = length ds -> Forall (fun d => 0 <= d <= MAX_DIGIT) ds ->
  zip_with (fun v d => scalar_wots_chain v (Z.to_nat (MAX_DIGIT - d)))
    (zip_with (fun i d => scalar_wots_chain (chain_sk seed i) (Z.to_nat d)) ix ds) ds
  = map (fun i => scalar_wots_chain (chain_sk seed i) (Z.to_nat MAX_DIGIT)) ix.
Proof.
  intros HL HR. revert ix HL; induction HR as [|d ds Hd HR IH]; intros [|i ix] HL;
    try discriminate; [reflexivity|].
  cbn [zip_with map]. rewrite IH by (simpl in HL; lia).
  f_equal. apply scalar_wots_chain_Z; lia.
Qed.

Lemma verify_sign seed m : verify (sign seed m) m (keygen seed) = true.
Proof.
  rewrite verify_eq by apply length_sign. apply bool_decide_eq_true.
  rewrite sign_eq, keygen_eq, sign_ends; [reflexivity|..].
  - rewrite length_seq, length_all_digits. reflexivity.
  - apply all_digits_range.
Qed.

Lemma psk_can_sign_spec psk m :
  length psk = CHAINS -> psk_can_sign psk m = true <-> dominates (map fst psk) (all_digits m).
Proof.
  intros HL. unfold psk_can_sign.
  assert (length psk = length (all_digits m)) as HE by (rewrite length_all_digits; exact HL).
  revert HE. generalize (all_digits m). clear HL.
  induction psk as [|c psk IH]; intros [|d ds] HE; try discriminate; simpl.
  - split; [constructor|reflexivity].
  - rewrite andb_true_iff, negb_true_iff, Z.ltb_ge, Forall2_cons, IH by (simpl in HE; lia).
    reflexivity.
Qed.

Lemma map_fst_zip_digits m (sig : list hash32) :
  length sig = CHAINS -> map fst (zip (all_digits m) sig) = all_digits m.
Proof.
  intros HL. change (map fst) with (fmap (M := list) (@fst Z hash32)).
  apply fst_zip. rewrite length_all_digits, HL. lia.
Qed.

Lemma psk_of_from_signature seed m : psk_of seed (psk_from_signature (sign seed m) m).
Proof.
  unfold psk_of, psk_from_signature. rewrite sign_eq.
  assert (HE : length (seq 0 CHAINS) = length (all_digits m))
    by (rewrite length_seq, length_all_digits; reflexivity).
  revert HE. generalize (seq 0 CHAINS). pose proof (all_digits_range m) as HR. revert HR.
  generalize (all_digits m). intros ds HR. induction HR as [|d ds Hd HR IH];
    intros [|i ix] HE; try discriminate; simpl; constructor; auto.
Qed.

Lemma psk_of_merge seed psk m :
  psk_of seed psk -> psk_of seed (psk_merge_signature psk (sign seed m) m).
Proof.
  unfold psk_of, psk_merge_signature. rewrite sign_eq.
  assert (HE : length (seq 0 CHAINS) = length (all_digits m))
    by (rewrite length_seq, length_all_digits; reflexivity).
  revert psk HE. generalize (seq 0 CHAINS). pose proof (all_digits_range m) as HR. revert HR.
  generalize (all_digits m). intros ds HR. induction HR as [|d ds Hd HR IH];
    intros [|i ix] psk HE HP; try discriminate; inversion HP; subst; simpl; constructor.
  - simpl. case_match; auto.
  - apply IH; auto.
Qed.

Lemma psk_of_length seed psk : psk_of seed psk -> length psk = CHAINS.
Proof. intros HP. apply Forall2_length in HP. rewrite length_seq in HP. auto. Qed.

Lemma psk_sign_honest {E} seed psk m :
  psk_of seed psk -> psk_can_sign psk m = true ->
  psk_sign (E := E) psk m = Ok (sign seed m).
Proof.
  intros HP HC. unfold psk_sign. rewrite HC. f_equal. rewrite sign_eq.
  apply psk_can_sign_spec in HC; [|eapply psk_of_length, HP].
  revert HP HC. unfold psk_of. generalize (seq 0 CHAINS), (all_digits m).
  intros ix ds HP. revert ds. induction HP as [|i c ix psk [Hc Ec] HP IH]; intros ds HD.
  - apply Forall2_nil_inv_l in HD as ->. reflexivity.
  - destruct ds as [|d ds]; [apply Forall2_cons_nil_inv in HD as []|].
    apply Forall2_cons_1 in HD as [Hd HD]. cbn [zip_with]. rewrite IH by exact HD.
    rewrite Ec, (scalar_wots_chain_Z _ _ _ d) by lia. reflexivity.
Qed.

Lemma map_fst_merge psk sig m :
  length psk = CHAINS -> length sig = CHAINS ->
  map fst (psk_merge_signature psk sig m) = zip_with Z.min (map fst psk) (all_digits m).
Proof.
  intros HP HS. unfold psk_merge_signature.
  assert (length psk = length (all_digits m)) as H1 by (rewrite length_all_digits; exact HP).
  assert (length sig = length (all_digits m)) as H2 by (rewrite length_all_digits; exact HS).
  revert psk sig H1 H2 HP HS. generalize (all_digits m), CHAINS.
  intros ds. induction ds as [|d ds IH]; intros n [|c psk] [|v sig] H1 H2 HP HS;
    try discriminate; [reflexivity|].
  simpl. destruct n; [discriminate|]. rewrite (IH n) by (simpl in *; lia). f_equal.
  destruct (Z.ltb_spec d (fst c)); simpl; lia.
Qed.

End Scheme.

(** * Properties *)

Section Properties.
Context `{Blake3}.

(** A signature made with a seed verifies, for every message, under the
    public key generated from that seed, and survives the byte codec. *)
Lemma wots_sign_verify seed m :
  verify (sign seed m) m (keygen seed) = true
  /\ sig_from_bytes (sig_to_bytes (sign seed m)) = Some (sign seed m).
Proof. split; [apply verify_sign|apply sig_to_from_bytes, length_sign]. Qed.

(** C17: the checksum makes a single signature useless for forging: the partial
    key leaked by one signature can sign no other message. *)
Theorem wots_one_time sig m m' :
  length sig = CHAINS ->
  psk_can_sign (psk_from_signature sig m) m' = true <-> m' = m.
Proof.
  intros HL. unfold psk_from_signature. rewrite psk_can_sign_spec
    by (rewrite length_zip_with, length_all_digits, HL; reflexivity).
  rewrite map_fst_zip_digits by exact HL. split.
  - intros HD. symmetry. apply all_digits_antichain, HD.
  - intros ->. reflexivity.
Qed.

(** The burn protocol is sound: the partial key recovered from two honest
    signatures of a reused key signs exactly the messages whose digits reach the
    shallower of the two revealed depths, and then produces the very signature
    the key's owner would. *)
Lemma wots_reuse_forges seed m1 m2 m :
  let psk := psk_merge_signature (psk_from_signature (sign seed m1) m1) (sign seed m2) m2 in
  (psk_can_sign psk m = true <->
   dominates (zip_with Z.min (all_digits m1) (all_digits m2)) (all_digits m))
  /\ (psk_can_sign psk m = true ->
      psk_sign (E := ()) psk m = Ok (sign seed m)
      /\ verify (sign seed m) m (keygen seed) = true).
Proof.
  intros psk. assert (HP : psk_of seed psk) by (apply psk_of_merge, psk_of_from_signature).
  assert (H1 : length (psk_from_signature (sign seed m1) m1) = CHAINS)
    by (eapply psk_of_length, psk_of_from_signature). split.
  - rewrite psk_can_sign_spec by (eapply psk_of_length, HP).
    unfold psk. rewrite map_fst_merge by (auto using length_sign).
    unfold psk_from_signature. rewrite map_fst_zip_digits by apply length_sign. reflexivity.
  - intros HC. split; [apply psk_sign_honest; assumption|apply verify_sign].
Qed.

(** Whatever index order the unstable sort picks, whatever the SIMD width,
    and for any vector kernel that hashes its lanes like the scalar chain, the
    batched routine returns every chain's scalar result at its original index. *)
Lemma process_wots_batch_equiv order lanes kernel inputs iters :
  order ≡ₚ seq 0 (length inputs) ->
  (forall xs ns, length xs = lanes -> length ns = lanes ->
     kernel xs ns = zip_with scalar_wots_chain xs ns) ->
  length inputs = length iters ->
  process_wots_batch_with order lanes kernel inputs iters
  = zip_with scalar_wots_chain inputs iters
  /\ process_wots_batch inputs iters = zip_with scalar_wots_chain inputs iters.
Proof.
  intros HP HK HL. split.
  - apply process_wots_batch_with_correct; assumption.
  - apply process_wots_batch_eq, HL.
Qed.

End Properties.

Lemma wots_one_time_witness :
  let H := toy_blake3 in
  let sig := replicate CHAINS (arr_of 32 [x07]) in
  let m := arr_of 32 [x01] in
  length sig = CHAINS
  /\ (psk_can_sign (psk_from_signature sig m) (arr_of 32 [x02]) = true <-> arr_of 32 [x02] = m).
Proof. split; [reflexivity|]. apply wots_one_time. reflexivity. Defined.

Lemma process_wots_batch_equiv_witness :
  let H := toy_blake3 in
  let xs := [arr_of 32 [x01]; arr_of 32 [x02]; arr_of 32 [x03]] in
  let ns := [3; 1; 2]%nat in
  process_wots_batch_with [1; 2; 0]%nat 2 (zip_with scalar_wots_chain) xs ns
  = zip_with scalar_wots_chain xs ns
  /\ process_wots_batch xs ns = zip_with scalar_wots_chain xs ns.
Proof.
  intros H xs ns. apply process_wots_batch_equiv.
  - apply (Permutation_app_comm [1; 2]%nat [0]%nat).
  - intros. reflexivity.
  - reflexivity.
Defined.
