(* ===== verification/Mss.v ===== *)
(** The many-time signature scheme of [src/core/mss.rs]: a binary Merkle tree of
    WOTS keys, its generation (with the native build's checkpoint file), the
    stateful signer, the verifier and the wire format. *)
From S2P Require Import Prelude Types Wots.

#[local] Open Scope Z_scope.

Definition DEFAULT_HEIGHT : nat := 10.
Definition MAX_HEIGHT : nat := 20.

Record MssKeypair : Type := mkMssKeypair {
  height : nat;
  master_seed : hash32;
  tree : list hash32;
  next_leaf : Z;
  master_pk : hash32
}.

Record MssSignature : Type := mkMssSignature {
  leaf_index : Z;
  wots_pk : hash32;
  wots_sig : list hash32;
  auth_path : list hash32
}.

Inductive MssError : Type :=
  | BadHeight | Exhausted
  | TooShort | BadWotsSig | TruncatedBeforeAuthLen | AuthPathTooLong
  | AuthPathLengthMismatch | AuthPathTruncated (node : nat).

(** Reading a tree node that the loops keep in range. *)
Definition tget (t : list hash32) (i : nat) : hash32 := default (zero_arr 32) (t !! i).

(** [1u64 << height]: the shift amount is taken modulo 64. *)
Definition num_leaves (h : nat) : Z := 2 ^ (Z.of_nat h mod 64).

Section Mss.
Context `{Blake3}.

Definition derive_wots_seed (master_seed : hash32) (index : Z) : hash32 :=
  hash_concat master_seed (le_bytes 8 index).

(** The public key written at leaf [i]. *)
Definition leaf_pk (master_seed : hash32) (i : nat) : hash32 :=
  keygen_seq (derive_wots_seed master_seed (Z.of_nat i)).

(** One chunk of the (parallel) leaf loop: each index writes its own cell. *)
Definition fill_leaves (seed : hash32) (leaf_start a b : nat) (t : list hash32) : list hash32 :=
  foldl (fun t i => <[(leaf_start + i)%nat := leaf_pk seed i]> t) t (seq a (b - a)).

(** [for i in (1..leaf_start).rev()]. *)
Definition build_internal (leaf_start : nat) (t : list hash32) : list hash32 :=
  foldl (fun t i => <[i := hash_concat (tget t (2 * i)) (tget t (2 * i + 1))]> t)
    t (rev (seq 1 (leaf_start - 1))).

Definition CHUNK_SIZE : nat := 4096.

(** The leaves and the resume point read from [mss_h{height}.checkpoint]; [saved]
    is the decoded content of the file, if there is one. *)
Definition load_checkpoint (n : nat) (t : list hash32) (saved : option (list hash32))
    : list hash32 * nat :=
  match saved with
  | Some l =>
      if Nat.eqb (length l) n
      then (take n t ++ l, length (List.filter (fun x => negb (bool_decide (x = zero_arr 32))) l))
      else (t, 0%nat)
  | None => (t, 0%nat)
  end.

(** [(completed..n).step_by(4096)]. *)
Definition chunk_starts (completed n : nat) : list nat :=
  map (fun k => completed + k * CHUNK_SIZE)%nat
    (seq 0 ((n - completed + (CHUNK_SIZE - 1)) / CHUNK_SIZE)).

Definition mss_keygen (saved : option (list hash32)) (seed : hash32) (h : nat)
    : res MssError MssKeypair :=
  _ ← bail_if (Nat.eqb h 0 || Nat.ltb MAX_HEIGHT h) BadHeight;
  let n := Z.to_nat (num_leaves h) in
  let t := replicate (2 * n) (zero_arr 32) in
  let '(t, completed) := load_checkpoint n t saved in
  let t := foldl (fun t start =>
             fill_leaves seed n start (Nat.min (start + CHUNK_SIZE) n) t)
             t (chunk_starts completed n) in
  let t := build_internal n t in
  Ok {| height := h; master_seed := seed; master_pk := tget t 1; tree := t; next_leaf := 0 |}.

(** The sequential loop of the wasm build and of the web wallet. *)
Definition keygen_with_progress (seed : hash32) (h : nat) : res MssError MssKeypair :=
  _ ← bail_if (Nat.eqb h 0 || Nat.ltb MAX_HEIGHT h) BadHeight;
  let n := Z.to_nat (num_leaves h) in
  let t := fill_leaves seed n 0 n (replicate (2 * n) (zero_arr 32)) in
  let t := build_internal n t in
  Ok {| height := h; master_seed := seed; master_pk := tget t 1; tree := t; next_leaf := 0 |}.

(** * Signing *)

(** A plain subtraction, which wraps once the next leaf is past the last. *)
Definition remaining (k : MssKeypair) : Z := wrap 64 (num_leaves (height k) - next_leaf k).

Definition set_next_leaf (k : MssKeypair) (i : Z) : MssKeypair :=
  {| height := height k; master_seed := master_seed k; tree := tree k; next_leaf := i;
     master_pk := master_pk k |}.

Fixpoint auth_path_loop (n : nat) (t : list hash32) (node : nat) (path : list hash32)
    : res MssError (list hash32) :=
  match n with
  | O => Ok path
  | S n =>
      s ← unwrap (if Nat.eqb (node mod 2) 0 then t !! (node + 1)%nat else t !! (node - 1)%nat);
      auth_path_loop n t (node / 2) (path ++ [s])
  end.

Definition compute_auth_path (k : MssKeypair) (leaf_idx : Z) : res MssError (list hash32) :=
  auth_path_loop (height k) (tree k) (Z.to_nat (num_leaves (height k) + leaf_idx)) [].

Definition mss_sign (message : hash32) : ST MssKeypair MssError MssSignature := fun k =>
  if num_leaves (height k) <=? next_leaf k then (Err Exhausted, k)
  else
    let leaf_idx := next_leaf k in
    let k := set_next_leaf k (leaf_idx + 1) in
    let seed := derive_wots_seed (master_seed k) leaf_idx in
    let pk := keygen seed in
    let sig := sign seed message in
    ((p ← compute_auth_path k leaf_idx;
      Ok {| leaf_index := leaf_idx; wots_pk := pk; wots_sig := sig; auth_path := p |}), k).

(** * Verification *)

Fixpoint climb (current : hash32) (current_idx : Z) (path : list hash32) : hash32 :=
  match path with
  | [] => current
  | node_hash :: path =>
      let is_right := current_idx mod 2 =? 0 in
      climb (if is_right then hash_concat current node_hash else hash_concat node_hash current)
        (current_idx / 2) path
  end.

(** [1u64.checked_shl(len).unwrap_or(u64::MAX)]. *)
Definition capacity (len : nat) : Z :=
  if (Z.of_nat len mod 2 ^ 32) <? 64 then 2 ^ (Z.of_nat len mod 2 ^ 32) else umax 64.

Definition mss_verify (sig : MssSignature) (message master_pk : hash32) : bool :=
  if capacity (length (auth_path sig)) <=? leaf_index sig then false
  else if negb (verify (wots_sig sig) message (wots_pk sig)) then false
  else bool_decide (climb (wots_pk sig) (leaf_index sig) (auth_path sig) = master_pk).

End Mss.

(** * The wire format *)

Definition mss_to_bytes (s : MssSignature) : bytes :=
  le_bytes 8 (leaf_index s) ++ wots_pk s ++ sig_to_bytes (wots_sig s)
  ++ le_bytes 4 (Z.of_nat (length (auth_path s))) ++ concat_hashes (auth_path s).

Fixpoint read_auth_path (data : bytes) (ps : nat) (ix : list nat) : res MssError (list hash32) :=
  match ix with
  | [] => Ok []
  | i :: ix =>
      let o := (ps + i * 32)%nat in
      _ ← bail_if (Nat.ltb (length data) (o + 32)) (AuthPathTruncated i);
      node ← slice data o (o + 32);
      rest ← read_auth_path data ps ix;
      Ok (arr_of 32 node :: rest)
  end.

Definition MSS_MIN : nat := 8 + 32 + SIG_SIZE + 4.

Definition mss_from_bytes (data : bytes) : res MssError MssSignature :=
  _ ← bail_if (Nat.ltb (length data) MSS_MIN) TooShort;
  li ← slice data 0 8;
  pk ← slice data 8 40;
  ws ← slice data 40 (40 + SIG_SIZE);
  sig ← ok_or BadWotsSig (sig_from_bytes ws);
  let ao := (40 + SIG_SIZE)%nat in
  _ ← bail_if (Nat.ltb (length data) (ao + 4)) TruncatedBeforeAuthLen;
  al ← slice data ao (ao + 4);
  let auth_len := Z.to_nat (le_val al) in
  _ ← bail_if (Nat.ltb MAX_HEIGHT auth_len) AuthPathTooLong;
  let ps := (ao + 4)%nat in
  let remaining := (length data - ps)%nat in
  _ ← bail_if (Nat.ltb 0 auth_len && negb (Nat.eqb remaining (auth_len * 32)))
        AuthPathLengthMismatch;
  path ← read_auth_path data ps (seq 0 auth_len);
  Ok {| leaf_index := le_val li; wots_pk := arr_of 32 pk; wots_sig := sig; auth_path := path |}.

Definition mss_size (s : MssSignature) : nat := 8 + 32 + SIG_SIZE + 4 + length (auth_path s) * 32.

(** * Lemmas: the tree *)

#[global] Arguments SIG_SIZE : simpl never.
#[global] Arguments CHAINS : simpl never.
#[global] Arguments CHUNK_SIZE : simpl never.
#[global] Arguments leaf_pk : simpl never.
#[global] Arguments keygen_seq : simpl never.
#[global] Opaque keygen_seq.

Lemma num_leaves_nat h : (h <= MAX_HEIGHT)%nat -> num_leaves h = Z.of_nat (2 ^ h).
Proof.
  intros Hh. unfold num_leaves, MAX_HEIGHT in *. rewrite Z.mod_small by lia.
  rewrite Nat2Z.inj_pow. reflexivity.
Qed.

Section Trees.
Context `{Blake3}.

(** Internal nodes hash their children. *)
Definition tree_wf (n : nat) (t : list hash32) : Prop :=
  length t = (2 * n)%nat
  /\ forall i, (1 <= i < n)%nat -> tget t i = hash_concat (tget t (2 * i)) (tget t (2 * i + 1)).

(** A keypair whose tree is the Merkle tree of its own leaves. *)
Record kp_wf (k : MssKeypair) : Prop := mk_kp_wf {
  kp_height : (1 <= height k <= MAX_HEIGHT)%nat;
  kp_tree : tree_wf (2 ^ height k) (tree k);
  kp_leaves : forall i, (i < 2 ^ height k)%nat ->
    tget (tree k) (2 ^ height k + i) = leaf_pk (master_seed k) i;
  kp_root : master_pk k = tget (tree k) 1
}.

Lemma tget_insert_eq t i x : (i < length t)%nat -> tget (<[i := x]> t) i = x.
Proof. intros Hi. unfold tget. rewrite list_lookup_insert_eq by exact Hi. reflexivity. Qed.

Lemma tget_insert_ne t i j x : i <> j -> tget (<[i := x]> t) j = tget t j.
Proof. intros Hi. unfold tget. rewrite list_lookup_insert_ne by exact Hi. reflexivity. Qed.

Lemma tget_lookup t i : (i < length t)%nat -> t !! i = Some (tget t i).
Proof. intros Hi. unfold tget. apply lookup_lt_is_Some_2 in Hi as [x ->]. reflexivity. Qed.

Lemma build_internal_fold k t :
  let r := foldl (fun t i => <[i := hash_concat (tget t (2 * i)) (tget t (2 * i + 1))]> t)
             t (rev (seq 1 k)) in
  (2 * k + 1 < length t)%nat ->
  length r = length t
  /\ (forall i, (k < i)%nat -> tget r i = tget t i)
  /\ (forall i, (1 <= i <= k)%nat -> tget r i = hash_concat (tget r (2 * i)) (tget r (2 * i + 1))).
Proof.
  revert t. induction k as [|k IH]; intros t r HL.
  - subst r. simpl. split; [reflexivity|]. split; [reflexivity|lia].
  - subst r. rewrite seq_S, rev_unit. cbn [foldl].
    set (t' := <[(1 + k)%nat := _]> t).
    destruct (IH t') as (H1 & H2 & H3); [unfold t'; rewrite length_insert; lia|].
    set (r := foldl _ t' _) in *. unfold t' in H1. rewrite length_insert in H1.
    split; [exact H1|].
    assert (HU : forall i, (S k < i)%nat -> tget r i = tget t i).
    { intros i Hi. rewrite H2 by lia. apply tget_insert_ne. lia. }
    split; [exact HU|].
    intros i Hi. destruct (decide (i = S k)) as [->|].
    + rewrite (HU (2 * S k)%nat), (HU (2 * S k + 1)%nat), H2 by lia. apply tget_insert_eq. lia.
    + apply H3. lia.
Qed.

Lemma build_internal_wf n t :
  (1 <= n)%nat -> length t = (2 * n)%nat ->
  tree_wf n (build_internal n t)
  /\ forall i, (n <= i)%nat -> tget (build_internal n t) i = tget t i.
Proof.
  intros Hn HL. destruct (build_internal_fold (n - 1) t) as (H1 & H2 & H3); [lia|].
  split.
  - split; [unfold build_internal; rewrite H1; exact HL|]. intros i Hi. apply H3. lia.
  - intros i Hi. apply H2. lia.
Qed.

Lemma fill_leaves_spec seed n a b t :
  (a <= b)%nat -> (n + b <= length t)%nat ->
  let r := fill_leaves seed n a b t in
  length r = length t
  /\ (forall i, (a <= i < b)%nat -> tget r (n + i) = leaf_pk seed i)
  /\ (forall i, (i < a \/ b <= i)%nat -> tget r (n + i) = tget t (n + i)).
Proof.
  intros Hab HB r. subst r. unfold fill_leaves.
  destruct (fold_insert_lookup n (leaf_pk seed) (seq a (b - a)) t) as (H1 & H2 & H3).
  split; [exact H1|]. split.
  - intros i Hi. unfold tget. rewrite H2; [reflexivity|apply elem_of_seq; lia|lia].
  - intros i Hi. unfold tget. rewrite H3; [reflexivity|].
    intros j Hj. apply elem_of_seq in Hj. lia.
Qed.

(** ** Authentication paths *)

Lemma even_step node idx c j :
  Z.of_nat node = idx + c * 2 ^ Z.of_nat (S j) ->
  (Nat.eqb (node mod 2) 0 = (idx mod 2 =? 0))
  /\ Z.of_nat (node / 2) = idx / 2 + c * 2 ^ Z.of_nat j.
Proof.
  rewrite Nat2Z.inj_succ, Z.pow_succ_r by lia. set (M := 2 ^ Z.of_nat j). intros E.
  replace (c * (2 * M)) with (c * M * 2) in E by lia. split.
  - apply eq_bool_prop_intro. rewrite !Is_true_true, Nat.eqb_eq, Z.eqb_eq.
    rewrite <- (Nat2Z.inj_iff _ 0), Nat2Z.inj_mod, E.
    change (Z.of_nat 2) with 2. change (Z.of_nat 0) with 0.
    rewrite Z.mod_add by lia. reflexivity.
  - rewrite Nat2Z.inj_div, E. change (Z.of_nat 2) with 2. apply Z.div_add. lia.
Qed.

Lemma parent_eq n t node :
  tree_wf n t -> (2 <= node < 2 * n)%nat ->
  tget t (node / 2) =
  if Nat.eqb (node mod 2) 0 then hash_concat (tget t node) (tget t (node + 1))
  else hash_concat (tget t (node - 1)) (tget t node).
Proof.
  intros [HL HW] Hn. pose proof (Nat.div_mod_eq node 2) as HD.
  pose proof (Nat.mod_upper_bound node 2 ltac:(lia)).
  rewrite HW by lia. destruct (Nat.eqb_spec (node mod 2) 0) as [E|E]; repeat f_equal; lia.
Qed.

Lemma auth_path_climb n t j : forall node idx c acc,
  tree_wf n t -> (node < 2 * n)%nat -> 1 <= c ->
  Z.of_nat node = idx + c * 2 ^ Z.of_nat j -> 0 <= idx ->
  exists p, auth_path_loop j t node acc = Ok (acc ++ p) /\ length p = j
    /\ climb (tget t node) idx p = tget t (node / 2 ^ j).
Proof.
  induction j as [|j IH]; intros node idx c acc HT Hn Hc E Hi.
  - exists []. rewrite app_nil_r, Nat.div_1_r. auto.
  - destruct (even_step node idx c j E) as [HE HD].
    assert (Hp : (2 <= node)%nat).
    { rewrite Nat2Z.inj_succ, Z.pow_succ_r in E by lia.
      pose proof (Z.pow_pos_nonneg 2 (Z.of_nat j)). nia. }
    pose proof (Nat.div_mod_eq node 2) as HM. destruct HT as [HL HW].
    pose proof (Nat.mod_upper_bound node 2 ltac:(lia)).
    set (s := if Nat.eqb (node mod 2) 0 then tget t (node + 1) else tget t (node - 1)).
    destruct (IH (node / 2)%nat (idx / 2) c (acc ++ [s])) as (p & E1 & E2 & E3);
      [split; assumption|lia|lia|exact HD|apply Z.div_pos; lia|].
    exists (s :: p). cbn [auth_path_loop climb length].
    assert ((if Nat.eqb (node mod 2) 0 then t !! (node + 1)%nat else t !! (node - 1)%nat)
            = Some s) as ->.
    { subst s. destruct (Nat.eqb_spec (node mod 2) 0); apply tget_lookup; lia. }
    cbn [unwrap mbind res_bind]. rewrite E1, <- app_assoc.
    split; [reflexivity|]. split; [lia|].
    rewrite <- HE, Nat.pow_succ_r', <- Nat.Div0.div_div, <- E3.
    rewrite (parent_eq n t node) by (try split; assumption || lia).
    subst s. destruct (Nat.eqb (node mod 2) 0); reflexivity.
Qed.

End Trees.

(** * Lemmas: key generation *)

Section Keygen.
Context `{Blake3}.

(** The checkpoint of an interrupted run for the same seed: the first [c] leaves,
    then zeros. *)
Definition checkpoint_of (seed : hash32) (n : nat) (saved : option (list hash32)) : Prop :=
  match saved with
  | None => True
  | Some l => length l = n -> exists c, (c <= n)%nat
      /\ l = map (leaf_pk seed) (seq 0 c) ++ replicate (n - c) (zero_arr 32)
      /\ (forall i, (i < c)%nat -> leaf_pk seed i <> zero_arr 32)
  end.

Lemma filter_nonzero_checkpoint seed c m :
  (forall i, (i < c)%nat -> leaf_pk seed i <> zero_arr 32) ->
  length (List.filter (fun x => negb (bool_decide (x = zero_arr 32)))
            (map (leaf_pk seed) (seq 0 c) ++ replicate m (zero_arr 32))) = c.
Proof.
  intros HZ. rewrite List.filter_app, length_app.
  assert (List.filter (fun x => negb (bool_decide (x = zero_arr 32)))
            (replicate m (zero_arr 32)) = []) as ->.
  { induction m as [|m IH]; [reflexivity|]. cbn [replicate List.filter].
    rewrite bool_decide_true by reflexivity. exact IH. }
  rewrite Nat.add_0_r.
  rewrite (List.forallb_filter_id _ (map _ _)).
  - rewrite length_map, length_seq. reflexivity.
  - apply forallb_forall. intros x Hx. apply in_map_iff in Hx as (i & <- & Hi).
    apply in_seq in Hi. rewrite bool_decide_false; [reflexivity|]. apply HZ. lia.
Qed.

Lemma chunk_fold seed n c m : forall k t,
  length t = (2 * n)%nat -> (m = 0 \/ c + (k + m - 1) * CHUNK_SIZE <= n)%nat ->
  (forall i, (i < Nat.min n (c + k * CHUNK_SIZE))%nat -> tget t (n + i) = leaf_pk seed i) ->
  let r := foldl (fun t start => fill_leaves seed n start (Nat.min (start + CHUNK_SIZE) n) t) t
             (map (fun k => c + k * CHUNK_SIZE)%nat (seq k m)) in
  length r = (2 * n)%nat
  /\ forall i, (i < Nat.min n (c + (k + m) * CHUNK_SIZE))%nat -> tget r (n + i) = leaf_pk seed i.
Proof.
  assert (HCS : (0 < CHUNK_SIZE)%nat) by (unfold CHUNK_SIZE; lia).
  induction m as [|m IH]; intros k t HL HB HT; cbn [seq map foldl].
  - rewrite Nat.add_0_r. auto.
  - set (a := (c + k * CHUNK_SIZE)%nat).
    assert (Ha : (a <= n)%nat) by (unfold a; nia).
    destruct (fill_leaves_spec seed n a (Nat.min (a + CHUNK_SIZE) n) t) as (H1 & H2 & H3); [lia|lia|].
    replace (k + S m)%nat with (S k + m)%nat by lia. apply IH.
    + lia.
    + destruct m; [left; reflexivity|right]. destruct HB; [lia|].
      replace (S k + S m - 1)%nat with (k + S (S m) - 1)%nat by lia. assumption.
    + intros i Hi. destruct (decide (i < a)%nat).
      * rewrite H3 by lia. apply HT. unfold a in *. lia.
      * apply H2. unfold a in *. lia.
Qed.

Lemma chunk_starts_fill seed n c t :
  length t = (2 * n)%nat -> (c <= n)%nat ->
  (forall i, (i < c)%nat -> tget t (n + i) = leaf_pk seed i) ->
  let r := foldl (fun t start => fill_leaves seed n start (Nat.min (start + CHUNK_SIZE) n) t) t
             (chunk_starts c n) in
  length r = (2 * n)%nat
  /\ forall i, (i < n)%nat -> tget r (n + i) = leaf_pk seed i.
Proof.
  assert (HCS : (0 < CHUNK_SIZE)%nat) by (unfold CHUNK_SIZE; lia).
  intros HL Hc HT. unfold chunk_starts.
  set (m := ((n - c + (CHUNK_SIZE - 1)) / CHUNK_SIZE)%nat).
  pose proof (Nat.div_mod_eq (n - c + (CHUNK_SIZE - 1)) CHUNK_SIZE) as HD. fold m in HD.
  pose proof (Nat.mod_upper_bound (n - c + (CHUNK_SIZE - 1)) CHUNK_SIZE ltac:(lia)) as HU.
  revert HD HU. generalize ((n - c + (CHUNK_SIZE - 1)) mod CHUNK_SIZE)%nat. intros rr HD HU.
  destruct (chunk_fold seed n c m 0 t) as [H1 H2]; [exact HL| |intros i Hi; apply HT; lia|].
  - destruct m; [left; reflexivity|right]. simpl. rewrite Nat.sub_0_r. nia.
  - split; [exact H1|]. intros i Hi. apply H2. simpl. nia.
Qed.

Lemma load_checkpoint_ok seed n saved t c :
  checkpoint_of seed n saved ->
  load_checkpoint n (replicate (2 * n) (zero_arr 32)) saved = (t, c) ->
  length t = (2 * n)%nat /\ (c <= n)%nat
  /\ forall i, (i < c)%nat -> tget t (n + i) = leaf_pk seed i.
Proof.
  unfold load_checkpoint. destruct saved as [l|]; intros HC.
  2: { intros [= <- <-]. rewrite length_replicate. repeat split; lia. }
  destruct (Nat.eqb_spec (length l) n) as [E|E].
  2: { intros [= <- <-]. rewrite length_replicate. repeat split; lia. }
  destruct (HC E) as (k & Hk & -> & HZ). rewrite filter_nonzero_checkpoint by exact HZ.
  intros [= <- <-]. rewrite !length_app, length_take, length_replicate, length_map, length_seq,
    length_replicate. split; [lia|]. split; [lia|]. intros i Hi. unfold tget.
  rewrite lookup_app_r by (rewrite length_take, length_replicate; lia).
  rewrite length_take, length_replicate.
  replace (n + i - Nat.min n _)%nat with i by lia.
  rewrite lookup_app_l by (rewrite length_map, length_seq; lia).
  change (map ?f ?l) with (f <$> l). rewrite list_lookup_fmap, lookup_seq_lt by lia.
  rewrite Nat.add_0_l. exact eq_refl.
Qed.

Lemma finish_keygen_wf seed h t :
  (1 <= h <= MAX_HEIGHT)%nat -> length t = (2 * 2 ^ h)%nat ->
  (forall i, (i < 2 ^ h)%nat -> tget t (2 ^ h + i) = leaf_pk seed i) ->
  let t' := build_internal (2 ^ h) t in
  kp_wf {| height := h; master_seed := seed; master_pk := tget t' 1; tree := t'; next_leaf := 0 |}.
Proof.
  intros Hh HL HT t'. assert (1 <= 2 ^ h)%nat by (pose proof (Nat.pow_nonzero 2 h); lia).
  destruct (build_internal_wf (2 ^ h) t) as [H1 H2]; [lia|exact HL|].
  constructor; simpl; [exact Hh|exact H1| |reflexivity].
  intros i Hi. unfold t'. rewrite H2 by lia. apply HT, Hi.
Qed.

Lemma mss_keygen_wf saved seed h kp :
  checkpoint_of seed (2 ^ h) saved -> mss_keygen saved seed h = Ok kp ->
  kp_wf kp /\ next_leaf kp = 0 /\ height kp = h /\ master_seed kp = seed.
Proof.
  intros HC. unfold mss_keygen. rewrite res_bind_Ok. intros ([] & HB & HK).
  apply bail_if_Ok, orb_false_iff in HB as [B1 B2].
  apply Nat.eqb_neq in B1. apply Nat.ltb_ge in B2.
  rewrite num_leaves_nat, Nat2Z.id in HK by exact B2. cbv zeta in HK.
  destruct (load_checkpoint _ _ _) as [t c] eqn:EL.
  destruct (load_checkpoint_ok _ _ _ _ _ HC EL) as (L1 & L2 & L3).
  destruct (chunk_starts_fill seed (2 ^ h) c t L1 L2 L3) as [F1 F2].
  injection HK as <-. split; [|auto]. apply finish_keygen_wf; auto. lia.
Qed.

Lemma keygen_with_progress_wf seed h kp :
  keygen_with_progress seed h = Ok kp ->
  kp_wf kp /\ next_leaf kp = 0 /\ height kp = h /\ master_seed kp = seed.
Proof.
  unfold keygen_with_progress. rewrite res_bind_Ok. intros ([] & HB & HK).
  apply bail_if_Ok, orb_false_iff in HB as [B1 B2].
  apply Nat.eqb_neq in B1. apply Nat.ltb_ge in B2.
  rewrite num_leaves_nat, Nat2Z.id in HK by exact B2. cbv zeta in HK.
  injection HK as <-. split; [|auto].
  destruct (fill_leaves_spec seed (2 ^ h) 0 (2 ^ h) (replicate (2 * 2 ^ h) (zero_arr 32)))
    as (H1 & H2 & _); [lia|rewrite length_replicate; lia|].
  rewrite length_replicate in H1. apply finish_keygen_wf; auto; [lia|].
  intros i Hi. apply H2. lia.
Qed.

(** Chunks written from index [c] on leave the first [c] leaves alone. *)
Lemma chunk_fold_prefix seed n c (f : nat -> hash32) ks : forall t,
  length t = (2 * n)%nat -> (forall i, (i < c)%nat -> tget t (n + i) = f i) ->
  let r := foldl (fun t start => fill_leaves seed n start (Nat.min (start + CHUNK_SIZE) n) t) t
             (map (fun k => c + k * CHUNK_SIZE)%nat ks) in
  length r = (2 * n)%nat /\ forall i, (i < c)%nat -> tget r (n + i) = f i.
Proof.
  induction ks as [|k ks IH]; intros t HL HT; [auto|]. cbn [map foldl].
  set (a := (c + k * CHUNK_SIZE)%nat). set (b := Nat.min (a + CHUNK_SIZE) n).
  destruct (fold_insert_lookup n (leaf_pk seed) (seq a (b - a)) t) as (H1 & _ & H3).
  apply IH; [unfold fill_leaves; lia|]. intros i Hi. rewrite <- HT by exact Hi.
  unfold fill_leaves, tget. rewrite H3; [reflexivity|].
  intros j Hj. apply elem_of_seq in Hj. unfold a in Hj. lia.
Qed.

End Keygen.

(** * Lemmas: signing *)

Section Signing.
Context `{Blake3}.

Lemma kp_wf_set_next_leaf k i : kp_wf k -> kp_wf (set_next_leaf k i).
Proof. intros [? ? ? ?]. constructor; assumption. Qed.

Lemma mss_sign_fresh k m :
  kp_wf k -> 0 <= next_leaf k < num_leaves (height k) ->
  exists sig, mss_sign m k = (Ok sig, set_next_leaf k (next_leaf k + 1))
    /\ leaf_index sig = next_leaf k
    /\ length (auth_path sig) = height k /\ length (wots_sig sig) = CHAINS
    /\ mss_verify sig m (master_pk k) = true.
Proof.
  intros [Hh HT HLf HR] HN. pose proof (num_leaves_nat (height k) ltac:(lia)) as EN.
  unfold mss_sign. rewrite (proj2 (Z.leb_gt _ _)) by lia.
  unfold compute_auth_path, set_next_leaf; simpl height; simpl tree; simpl master_seed.
  set (node := Z.to_nat (num_leaves (height k) + next_leaf k)).
  assert (Enode : Z.of_nat node = next_leaf k + 1 * 2 ^ Z.of_nat (height k)).
  { unfold node. rewrite Z2Nat.id, EN, Nat2Z.inj_pow by lia. change (Z.of_nat 2) with 2. lia. }
  assert (Hnode : (node = 2 ^ height k + Z.to_nat (next_leaf k))%nat) by (unfold node; lia).
  destruct (auth_path_climb (2 ^ height k) (tree k) (height k) node (next_leaf k) 1 [])
    as (p & -> & Hp & Hc); [exact HT|lia|lia|exact Enode|lia|].
  eexists. split; [reflexivity|]. simpl leaf_index; simpl auth_path; simpl wots_sig.
  split; [reflexivity|]. split; [exact Hp|]. split; [apply length_sign|].
  unfold mss_verify; simpl leaf_index; simpl auth_path; simpl wots_sig; simpl wots_pk.
  rewrite verify_sign, Hp. unfold capacity.
  rewrite Z.mod_small by (unfold MAX_HEIGHT in Hh; lia).
  rewrite (proj2 (Z.ltb_lt _ 64)) by (unfold MAX_HEIGHT in Hh; lia).
  rewrite (proj2 (Z.leb_gt _ _)) by lia. simpl. apply bool_decide_eq_true.
  rewrite HR. replace (keygen _) with (tget (tree k) node).
  - rewrite Hc. f_equal. rewrite Hnode.
    replace (2 ^ height k + Z.to_nat (next_leaf k))%nat
      with (Z.to_nat (next_leaf k) + 1 * 2 ^ height k)%nat by lia.
    rewrite Nat.div_add by (apply Nat.pow_nonzero; lia).
    rewrite Nat.div_small by lia. reflexivity.
  - rewrite Hnode, HLf by lia. unfold leaf_pk, keygen. rewrite Z2Nat.id by lia. reflexivity.
Qed.

Lemma mss_sign_exhausted k m :
  num_leaves (height k) <= next_leaf k -> mss_sign m k = (Err Exhausted, k).
Proof. intros HN. unfold mss_sign. rewrite (proj2 (Z.leb_le _ _)) by lia. reflexivity. Qed.

(** Signing several messages with one keypair. *)
Fixpoint sign_all (ms : list hash32) : ST MssKeypair MssError (list MssSignature) :=
  match ms with
  | [] => mret []
  | m :: ms => s ← mss_sign m; rest ← sign_all ms; mret (s :: rest)
  end.

Lemma sign_all_spec ms : forall k,
  kp_wf k -> 0 <= next_leaf k -> next_leaf k + Z.of_nat (length ms) <= num_leaves (height k) ->
  exists sigs, sign_all ms k = (Ok sigs, set_next_leaf k (next_leaf k + Z.of_nat (length ms)))
    /\ map leaf_index sigs = map (fun i => next_leaf k + Z.of_nat i) (seq 0 (length ms))
    /\ Forall2 (fun s m => mss_verify s m (master_pk k) = true) sigs ms.
Proof.
  induction ms as [|m ms IH]; intros k HW H0 HN.
  - exists []. rewrite Z.add_0_r. destruct k; simpl. auto.
  - rewrite length_cons, Nat2Z.inj_succ in *.
    destruct (mss_sign_fresh k m HW ltac:(lia)) as (s & Es & Ei & _ & _ & Ev).
    destruct (IH (set_next_leaf k (next_leaf k + 1))) as (sigs & E1 & E2 & E3);
      [apply kp_wf_set_next_leaf, HW|simpl; lia|simpl; lia|].
    exists (s :: sigs). split; [|split].
    + cbn [sign_all]. apply st_bind_Ok. do 2 eexists. split; [exact Es|].
      apply st_bind_Ok. do 2 eexists. split; [exact E1|].
      unfold mret, st_ret. destruct k; simpl. do 2 f_equal. lia.
    + cbn [map seq]. rewrite E2, Ei. simpl next_leaf. f_equal; [lia|].
      rewrite <- seq_shift, map_map. apply map_ext. intros i. lia.
    + constructor; assumption.
Qed.

(** ** Authenticated leaves *)

Fixpoint climb_queries (current : hash32) (idx : Z) (path : list hash32) : list bytes :=
  match path with
  | [] => []
  | s :: path =>
      let q := if idx mod 2 =? 0 then arr_list current ++ s else arr_list s ++ current in
      q :: climb_queries (blake3 q) (idx / 2) path
  end.

Definition tree_queries (n : nat) (t : list hash32) : list bytes :=
  map (fun i => arr_list (tget t (2 * i)) ++ tget t (2 * i + 1)) (seq 1 (n - 1)).

Lemma app_arr_inj {n} (a b a' b' : arr n) :
  arr_list a ++ arr_list b = arr_list a' ++ arr_list b' -> a = a' /\ b = b'.
Proof.
  intros E. apply app_inj_1 in E as [E1 E2]; [|rewrite !arr_length; reflexivity].
  split; apply arr_eq; assumption.
Qed.

Lemma climb_sound n t path : forall current node idx c (Q : bytes -> Prop),
  tree_wf n t -> (node < 2 * n)%nat -> 1 <= c -> 0 <= idx ->
  Z.of_nat node = idx + c * 2 ^ Z.of_nat (length path) ->
  collision_free Q -> (forall x, x ∈ tree_queries n t -> Q x) ->
  (forall x, x ∈ climb_queries current idx path -> Q x) ->
  climb current idx path = tget t (node / 2 ^ length path) -> current = tget t node.
Proof.
  induction path as [|s path IH]; intros current node idx c Q HT Hn Hc Hi E CF HQ1 HQ2 HC.
  - cbn [climb length] in HC. rewrite Nat.pow_0_r, Nat.div_1_r in HC. exact HC.
  - cbn [length] in *. destruct (even_step node idx c _ E) as [HE HD].
    assert (Hp : (2 <= node)%nat).
    { rewrite Nat2Z.inj_succ, Z.pow_succ_r in E by lia.
      pose proof (Z.pow_pos_nonneg 2 (Z.of_nat (length path))). nia. }
    cbn [climb climb_queries] in *. rewrite Nat.pow_succ_r', <- Nat.Div0.div_div in HC.
    pose proof (Nat.div_mod_eq node 2) as HM. pose proof (Nat.mod_upper_bound node 2 ltac:(lia)).
    set (q := if idx mod 2 =? 0 then arr_list current ++ s else arr_list s ++ current) in *.
    replace (if idx mod 2 =? 0 then hash_concat current s else hash_concat s current)
      with (blake3 q) in HC by (subst q; destruct (idx mod 2 =? 0); reflexivity).
    apply (IH _ _ _ c Q) in HC; try assumption; [|lia|apply Z.div_pos; lia|
      intros x Hx; apply HQ2, elem_of_cons; auto].
    rewrite (proj2 HT) in HC by lia. apply CF in HC.
    + subst q. rewrite <- HE in HC. destruct (Nat.eqb_spec (node mod 2) 0) as [E0|E0];
        apply app_arr_inj in HC as [HC1 HC2]; [rewrite HC1|rewrite HC2]; f_equal; lia.
    + apply HQ2, elem_of_cons; auto.
    + apply HQ1. unfold tree_queries. apply list_elem_of_In, in_map_iff.
      exists (node / 2)%nat. split; [reflexivity|]. apply in_seq. lia.
Qed.

End Signing.

(** * Lemmas: the wire format *)

Lemma slice_mid {E A} (p m q : list A) :
  slice (E := E) (p ++ m ++ q) (length p) (length p + length m) = Ok m.
Proof.
  rewrite slice_Ok by (rewrite !length_app; lia).
  rewrite drop_app_length. replace (length p + length m - length p)%nat with (length m) by lia.
  rewrite take_app_length. reflexivity.
Qed.

Lemma read_auth_path_concat P hs2 : forall hs1,
  read_auth_path (P ++ concat_hashes hs1 ++ concat_hashes hs2) (length P)
    (seq (length hs1) (length hs2)) = Ok hs2.
Proof.
  induction hs2 as [|h hs2 IH]; intros hs1; [reflexivity|].
  cbn [length seq read_auth_path].
  set (data := P ++ concat_hashes hs1 ++ concat_hashes (h :: hs2)).
  assert (HD : data = (P ++ concat_hashes hs1) ++ h ++ concat_hashes hs2)
    by (unfold data; rewrite concat_hashes_cons, <- app_assoc; reflexivity).
  assert (HO : (length P + length hs1 * 32 = length (P ++ concat_hashes hs1))%nat)
    by (rewrite length_app, length_concat_hashes; lia).
  rewrite HO. assert (HH : length h = 32%nat) by apply arr_length.
  rewrite (proj2 (Nat.ltb_ge _ _)).
  2: { rewrite HD, !length_app, HH. lia. }
  cbn [bail_if mbind res_bind].
  pose proof (slice_mid (E := MssError) (P ++ concat_hashes hs1) h (concat_hashes hs2)) as S.
  rewrite HH, <- HD in S. rewrite S. cbn [mbind res_bind]. clear S.
  replace data with (P ++ concat_hashes (hs1 ++ [h]) ++ concat_hashes hs2).
  2: { rewrite HD. unfold concat_hashes. rewrite fmap_app, join_app. simpl.
       rewrite app_nil_r, <- !app_assoc. reflexivity. }
  specialize (IH (hs1 ++ [h])). rewrite length_app in IH. simpl length in IH.
  rewrite Nat.add_1_r in IH. rewrite IH, arr_of_list. reflexivity.
Qed.

Lemma read_auth_path_no_panic data ps ix : read_auth_path data ps ix <> Panic.
Proof.
  induction ix as [|i ix IH]; cbn [read_auth_path]; repeat safe_step; auto.
  apply slice_safe. lia.
Qed.

Lemma read_auth_path_Ok data ps k : forall j path,
  read_auth_path data ps (seq j k) = Ok path ->
  length path = k /\ concat_hashes path = take (k * 32) (drop (ps + j * 32) data).
Proof.
  induction k as [|k IH]; intros j path; cbn [seq read_auth_path].
  - intros [= <-]. split; reflexivity.
  - rewrite res_bind_Ok. intros ([] & _ & HR). apply res_bind_Ok in HR as (node & HS & HR).
    apply length_slice in HS as [HL HS].
    apply res_bind_Ok in HR as (rest & HR & [= <-]). apply IH in HR as [E1 E2].
    split; [simpl; lia|]. rewrite concat_hashes_cons, arr_of_id by lia.
    rewrite E2, HS. replace (ps + S j * 32)%nat with ((ps + j * 32) + 32)%nat by lia.
    replace (ps + j * 32 + 32 - (ps + j * 32))%nat with 32%nat by lia.
    replace (drop (ps + j * 32 + 32) data) with (drop 32 (drop (ps + j * 32) data))
      by apply drop_drop.
    rewrite take_take_drop. reflexivity.
Qed.

Lemma MSS_MIN_eq : MSS_MIN = (40 + SIG_SIZE + 4)%nat.
Proof. reflexivity. Qed.

Record sig_wf (s : MssSignature) : Prop := mk_sig_wf {
  swf_leaf : in_u 64 (leaf_index s);
  swf_wots : length (wots_sig s) = CHAINS;
  swf_path : (length (auth_path s) <= MAX_HEIGHT)%nat
}.

Lemma length_sig_to_bytes sig : length sig = CHAINS -> length (sig_to_bytes sig) = SIG_SIZE.
Proof. intros E. unfold sig_to_bytes. rewrite length_concat_hashes, E. reflexivity. Qed.

Lemma mss_from_to_bytes s : sig_wf s -> mss_from_bytes (mss_to_bytes s) = Ok s.
Proof.
  intros [HL HW HP]. unfold mss_from_bytes.
  set (A := le_bytes 8 (leaf_index s)). set (B := arr_list (wots_pk s)).
  set (C := sig_to_bytes (wots_sig s)). set (D := le_bytes 4 (Z.of_nat (length (auth_path s)))).
  set (F := concat_hashes (auth_path s)).
  change (mss_to_bytes s) with (A ++ B ++ C ++ D ++ F). set (data := A ++ B ++ C ++ D ++ F).
  assert (LA : length A = 8%nat) by apply length_le_bytes.
  assert (LB : length B = 32%nat) by apply arr_length.
  assert (LC : length C = SIG_SIZE) by (apply length_sig_to_bytes, HW).
  assert (LD : length D = 4%nat) by apply length_le_bytes.
  assert (LF : length F = (32 * length (auth_path s))%nat) by apply length_concat_hashes.
  assert (LT : length data = (40 + SIG_SIZE + 4 + length F)%nat)
    by (unfold data; rewrite !length_app; lia).
  rewrite LT, MSS_MIN_eq, (proj2 (Nat.ltb_ge _ _)) by lia. cbn [bail_if mbind res_bind].
  replace (slice data 0 8) with (Ok (E := MssError) A).
  2: { pose proof (slice_mid (E := MssError) [] A (B ++ C ++ D ++ F)) as S. rewrite LA in S.
       symmetry. exact S. }
  replace (slice data 8 40) with (Ok (E := MssError) B).
  2: { pose proof (slice_mid (E := MssError) A B (C ++ D ++ F)) as S.
       rewrite LA, LB in S. symmetry. exact S. }
  replace (slice data 40 (40 + SIG_SIZE)) with (Ok (E := MssError) C).
  2: { pose proof (slice_mid (E := MssError) (A ++ B) C (D ++ F)) as S.
       rewrite length_app, LA, LB, LC, <- app_assoc in S. symmetry. exact S. }
  cbn [mbind res_bind]. unfold C at 1. rewrite sig_to_from_bytes by exact HW.
  cbn [ok_or mbind res_bind].
  replace (slice data (40 + SIG_SIZE) (40 + SIG_SIZE + 4)) with (Ok (E := MssError) D).
  2: { pose proof (slice_mid (E := MssError) (A ++ B ++ C) D F) as S.
       rewrite !length_app, LA, LB, LC, LD, <- !app_assoc in S. symmetry. exact S. }
  cbn [mbind res_bind]. unfold D. unfold MAX_HEIGHT in HP. rewrite le_val_small by lia.
  rewrite Nat2Z.id, (proj2 (Nat.ltb_ge MAX_HEIGHT _)) by exact HP. cbn [bail_if mbind res_bind].
  replace (40 + SIG_SIZE + 4 + length F - (40 + SIG_SIZE + 4))%nat
    with (length (auth_path s) * 32)%nat by lia.
  rewrite Nat.eqb_refl, andb_false_r. cbn [bail_if mbind res_bind].
  pose proof (read_auth_path_concat (A ++ B ++ C ++ D) (auth_path s) []) as HR.
  rewrite !length_app, LA, LB, LC, LD, <- !app_assoc in HR. unfold concat_hashes at 1 in HR.
  simpl length in HR. cbn [fmap list_fmap mjoin list_join app] in HR.
  replace (40 + SIG_SIZE + 4)%nat with (8 + (32 + (SIG_SIZE + 4)))%nat by lia.
  unfold data. fold F in HR. rewrite HR. cbn [mbind res_bind].
  unfold A, B. rewrite le_val_small, arr_of_list by exact HL. destruct s; reflexivity.
Qed.

Lemma mss_from_bytes_total data : mss_from_bytes data <> Panic.
Proof.
  unfold mss_from_bytes. cbv zeta. rewrite MSS_MIN_eq.
  repeat safe_step; try (apply slice_safe; lia). apply read_auth_path_no_panic.
Qed.

(** What the parser accepts is the encoding of the result, followed by trailing
    bytes only when the authentication path is empty. *)
Lemma mss_from_bytes_Ok data s :
  mss_from_bytes data = Ok s ->
  sig_wf s /\ exists tail, data = mss_to_bytes s ++ tail
    /\ (auth_path s <> [] -> tail = []).
Proof.
  unfold mss_from_bytes. rewrite res_bind_Ok. intros ([] & B1 & R).
  apply bail_if_Ok, Nat.ltb_ge in B1. rewrite MSS_MIN_eq in B1.
  rewrite !slice_Ok in R by lia. cbn [mbind res_bind] in R.
  apply res_bind_Ok in R as (ws & HS & R). apply ok_or_Ok, sig_from_to_bytes in HS as [HS HW].
  apply res_bind_Ok in R as ([] & B2 & R). apply bail_if_Ok in B2.
  apply res_bind_Ok in R as ([] & B3 & R). apply bail_if_Ok, Nat.ltb_ge in B3.
  apply res_bind_Ok in R as ([] & B4 & R). apply bail_if_Ok in B4.
  apply res_bind_Ok in R as (path & HP & R). injection R as <-.
  apply read_auth_path_Ok in HP as [L1 L2]. rewrite Nat.mul_0_l, Nat.add_0_r in L2.
  change (8 - 0)%nat with 8%nat in *. change (drop 0 data) with data in *.
  change (40 - 8)%nat with 32%nat in *.
  replace (40 + SIG_SIZE - 40)%nat with SIG_SIZE in * by lia.
  replace (40 + SIG_SIZE + 4 - (40 + SIG_SIZE))%nat with 4%nat in * by lia.
  set (al := take 4 (drop (40 + SIG_SIZE) data)) in *.
  assert (LA : length al = 4%nat) by (unfold al; rewrite length_take, length_drop; lia).
  split; [constructor; simpl|].
  - pose proof (le_val_range (take 8 data)) as R. rewrite length_take in R.
    rewrite Nat.min_l in R by lia. exact R.
  - exact HW.
  - rewrite L1. exact B3.
  - exists (drop (length path * 32) (drop (40 + SIG_SIZE + 4) data)).
    unfold mss_to_bytes. simpl leaf_index; simpl wots_pk; simpl wots_sig; simpl auth_path.
    rewrite L2, HS, L1. split.
    + rewrite Z2Nat.id by apply le_val_range.
      rewrite !le_bytes_le_val' by (rewrite ?length_take; lia).
      rewrite arr_of_id by (rewrite length_take, length_drop; lia).
      unfold al. rewrite <- !app_assoc, take_drop.
      rewrite <- (drop_drop data 4 (40 + SIG_SIZE)), take_drop.
      rewrite <- (drop_drop data SIG_SIZE 40), take_drop.
      change (drop 40 data) with (drop (8 + 32) data).
      rewrite <- (drop_drop data 32 8), !take_drop. reflexivity.
    + intros NE. destruct (Nat.ltb_spec 0 (Z.to_nat (le_val al))) as [H0|H0].
      * apply negb_false_iff, Nat.eqb_eq in B4. apply drop_ge. rewrite length_drop. lia.
      * exfalso. apply NE. apply length_zero_iff_nil. lia.
Qed.

(** * Properties *)

Section Properties.
Context `{Blake3}.

(** C18: a keypair generated from nothing, or resumed from a checkpoint of its own
    seed, signs as many messages as it has leaves: every signature verifies under
    the master key, the leaf indices are 0, 1, 2, ... without repetition, and once
    all the leaves are used the signer refuses and changes nothing.  A checkpoint
    that another seed left is excluded by [checkpoint_of]: the code resumes from it
    too, because the file is named after the height alone, and
    [mss_foreign_checkpoint] shows what follows. *)
Theorem mss_many_time saved seed h ms :
  (1 <= h <= MAX_HEIGHT)%nat -> checkpoint_of seed (2 ^ h) saved ->
  (length ms <= 2 ^ h)%nat ->
  exists kp sigs kp', mss_keygen saved seed h = Ok kp
    /\ sign_all ms kp = (Ok sigs, kp')
    /\ map leaf_index sigs = map Z.of_nat (seq 0 (length ms))
    /\ Forall2 (fun s m => mss_verify s m (master_pk kp) = true) sigs ms
    /\ (length ms = (2 ^ h)%nat -> forall m, mss_sign m kp' = (Err Exhausted, kp')).
Proof.
  intros Hh HC HL. destruct (mss_keygen saved seed h) as [kp|e|] eqn:EK.
  2, 3: unfold mss_keygen in EK; rewrite (proj2 (Nat.eqb_neq h 0)),
    (proj2 (Nat.ltb_ge MAX_HEIGHT h)) in EK by lia; simpl in EK;
    destruct (load_checkpoint _ _ _) in EK; discriminate.
  destruct (mss_keygen_wf _ _ _ _ HC EK) as (HW & H0 & E1 & _).
  pose proof (num_leaves_nat h ltac:(lia)) as EN.
  destruct (sign_all_spec ms kp HW) as (sigs & S1 & S2 & S3); [lia|rewrite H0, E1, EN; lia|].
  exists kp, sigs. eexists. split; [reflexivity|]. split; [exact S1|].
  rewrite H0 in S2. split; [exact S2|]. split; [exact S3|].
  intros E m. apply mss_sign_exhausted. simpl. rewrite E1, EN, H0, E. lia.
Qed.

(** The master key authenticates its leaves: a signature that verifies under
    a keypair's master key with a path of the tree's height carries the very WOTS
    key of the leaf it names, unless two hashed nodes collide. *)
Lemma mss_verify_binds_leaf k sig m :
  kp_wf k -> 0 <= leaf_index sig -> length (auth_path sig) = height k ->
  collision_free (fun x => x ∈ tree_queries (2 ^ height k) (tree k)
    ++ climb_queries (wots_pk sig) (leaf_index sig) (auth_path sig)) ->
  mss_verify sig m (master_pk k) = true ->
  wots_pk sig = leaf_pk (master_seed k) (Z.to_nat (leaf_index sig))
  /\ leaf_index sig < num_leaves (height k)
  /\ verify (wots_sig sig) m (wots_pk sig) = true.
Proof.
  intros [Hh HT HLf HR] Hi HL CF. unfold mss_verify. rewrite HL. unfold capacity.
  rewrite Z.mod_small by (unfold MAX_HEIGHT in Hh; lia).
  rewrite (proj2 (Z.ltb_lt _ 64)) by (unfold MAX_HEIGHT in Hh; lia).
  pose proof (num_leaves_nat (height k) ltac:(lia)) as EN. rewrite Nat2Z.inj_pow in EN.
  change (Z.of_nat 2) with 2 in EN.
  destruct (Z.leb_spec (2 ^ Z.of_nat (height k)) (leaf_index sig)) as [|Hb]; [discriminate|].
  destruct (verify _ _ _) eqn:EV; [|discriminate]. simpl. rewrite bool_decide_eq_true, HR.
  intros HC. assert (HP : Z.of_nat (2 ^ height k) = 2 ^ Z.of_nat (height k))
    by apply Nat2Z.inj_pow.
  split; [|split; [lia|reflexivity]].
  rewrite <- HLf by lia.
  apply (climb_sound (2 ^ height k) (tree k) (auth_path sig) (wots_pk sig) _ (leaf_index sig) 1
    (fun x => x ∈ tree_queries (2 ^ height k) (tree k)
       ++ climb_queries (wots_pk sig) (leaf_index sig) (auth_path sig))); try assumption;
    try lia; try (intros x Hx; apply elem_of_app; auto).
  - rewrite HL. lia.
  - rewrite HC, HL. f_equal.
    replace (2 ^ height k + Z.to_nat (leaf_index sig))%nat
      with (Z.to_nat (leaf_index sig) + 1 * 2 ^ height k)%nat by lia.
    rewrite Nat.div_add by (apply Nat.pow_nonzero; lia).
    rewrite Nat.div_small by lia. reflexivity.
Qed.

(** The parser of untrusted signatures never aborts, inverts the encoder on
    every well-formed signature, and accepts nothing but such an encoding, except
    that an empty path lets arbitrary trailing bytes through. *)
Lemma mss_codec data :
  mss_from_bytes data <> Panic
  /\ (forall s, sig_wf s -> data = mss_to_bytes s -> mss_from_bytes data = Ok s)
  /\ (forall s, mss_from_bytes data = Ok s ->
        sig_wf s /\ exists tail, data = mss_to_bytes s ++ tail
          /\ (auth_path s <> [] -> tail = [])).
Proof.
  split; [apply mss_from_bytes_total|]. split.
  - intros s HW ->. apply mss_from_to_bytes, HW.
  - apply mss_from_bytes_Ok.
Qed.

(** A checkpoint file is keyed by the height alone: resuming from the leaves
    of another seed keeps them, so those leaves of the new tree are the other
    seed's public keys. *)
Lemma mss_foreign_checkpoint seed seed' h c kp :
  (1 <= h <= MAX_HEIGHT)%nat -> (c <= 2 ^ h)%nat ->
  (forall i, (i < c)%nat -> leaf_pk seed' i <> zero_arr 32) ->
  mss_keygen (Some (map (leaf_pk seed') (seq 0 c) ++ replicate (2 ^ h - c) (zero_arr 32))) seed h
  = Ok kp ->
  forall i, (i < c)%nat -> tget (tree kp) (2 ^ h + i) = leaf_pk seed' i.
Proof.
  intros Hh Hc HZ. unfold mss_keygen.
  rewrite (proj2 (Nat.eqb_neq h 0)), (proj2 (Nat.ltb_ge MAX_HEIGHT h)) by lia.
  rewrite num_leaves_nat, Nat2Z.id by lia. cbn [orb bail_if mbind res_bind].
  assert (HC : checkpoint_of seed' (2 ^ h)
    (Some (map (leaf_pk seed') (seq 0 c) ++ replicate (2 ^ h - c) (zero_arr 32)))).
  { intros _. exists c. auto. }
  destruct (load_checkpoint _ _ _) as [t c'] eqn:EL.
  assert (c' = c) as ->.
  { unfold load_checkpoint in EL. rewrite length_app, length_map, length_seq, length_replicate in EL.
    rewrite (proj2 (Nat.eqb_eq _ (2 ^ h))) in EL by lia.
    rewrite filter_nonzero_checkpoint in EL by exact HZ. injection EL as _ <-. reflexivity. }
  destruct (load_checkpoint_ok _ _ _ _ _ HC EL) as (L1 & _ & L3).
  cbv zeta. intros [= <-] i Hi. simpl tree.
  assert (1 <= 2 ^ h)%nat by (pose proof (Nat.pow_nonzero 2 h); lia).
  set (ts := foldl _ _ _).
  assert (HS : length ts = (2 * 2 ^ h)%nat /\
               forall i, (i < c)%nat -> tget ts (2 ^ h + i) = leaf_pk seed' i)
    by (apply chunk_fold_prefix; assumption).
  rewrite (proj2 (build_internal_wf (2 ^ h) ts ltac:(lia) (proj1 HS))) by lia.
  apply (proj2 HS), Hi.
Qed.

End Properties.

(** Concrete inputs.  The constant hash keeps long chains from being evaluated. *)
Definition const_blake3 : Blake3 := fun _ => arr_of 32 [x01].

Definition demo_seed : hash32 := arr_of 32 [x05; x06].

Definition demo_kp `{Blake3} : MssKeypair :=
  let t := build_internal 2 (fill_leaves demo_seed 2 0 2 (replicate 4 (zero_arr 32))) in
  {| height := 1; master_seed := demo_seed; master_pk := tget t 1; tree := t; next_leaf := 0 |}.

Definition demo_sig `{Blake3} (m : hash32) : MssSignature :=
  {| leaf_index := 0; wots_pk := leaf_pk demo_seed 0;
     wots_sig := sign (derive_wots_seed demo_seed 0) m;
     auth_path := [leaf_pk demo_seed 1] |}.

Lemma mss_many_time_witness :
  let H := toy_blake3 in
  exists kp sigs kp', mss_keygen None demo_seed 1 = Ok kp
    /\ sign_all [demo_seed; demo_seed] kp = (Ok sigs, kp')
    /\ map leaf_index sigs = [0; 1]
    /\ Forall2 (fun s m => mss_verify s m (master_pk kp) = true) sigs [demo_seed; demo_seed]
    /\ (2%nat = (2 ^ 1)%nat -> forall m, mss_sign m kp' = (Err Exhausted, kp')).
Proof.
  intros H. apply (mss_many_time None demo_seed 1 [demo_seed; demo_seed]);
    [unfold MAX_HEIGHT; lia|exact I|simpl; lia].
Defined.

Lemma cf_twice `{Blake3} (q : bytes) : collision_free (fun x => x ∈ [q; q]).
Proof.
  intros x y Hx Hy _. rewrite !elem_of_cons, elem_of_nil in Hx, Hy.
  destruct Hx as [->|[->|[]]], Hy as [->|[->|[]]]; reflexivity.
Qed.

Lemma mss_verify_binds_leaf_witness :
  let H := toy_blake3 in
  mss_verify (demo_sig demo_seed) demo_seed (master_pk demo_kp) = true
  /\ wots_pk (demo_sig demo_seed) = leaf_pk demo_seed 0.
Proof.
  intros H.
  assert (V : mss_verify (demo_sig demo_seed) demo_seed (master_pk demo_kp) = true).
  { unfold mss_verify. cbn [demo_sig auth_path leaf_index wots_sig wots_pk length].
    change (capacity 1 <=? 0) with false. cbv iota.
    change (leaf_pk demo_seed 0) with (keygen (derive_wots_seed demo_seed 0)).
    rewrite verify_sign. apply bool_decide_eq_true. reflexivity. }
  split; [exact V|]. eapply proj1, (mss_verify_binds_leaf demo_kp (demo_sig demo_seed) demo_seed).
  - apply (keygen_with_progress_wf demo_seed 1). reflexivity.
  - apply Z.le_refl.
  - reflexivity.
  - apply (cf_twice (arr_list (leaf_pk demo_seed 0) ++ leaf_pk demo_seed 1)).
  - exact V.
Defined.

Lemma mss_foreign_checkpoint_witness :
  let H := const_blake3 in
  let saved := map (leaf_pk demo_seed) (seq 0 1) ++ replicate 1 (zero_arr 32) in
  exists kp, mss_keygen (Some saved) (zero_arr 32) 1 = Ok kp
    /\ tget (tree kp) 2 = leaf_pk demo_seed 0.
Proof.
  intros H saved. eexists. split; [unfold mss_keygen; reflexivity|].
  apply (mss_foreign_checkpoint (zero_arr 32) demo_seed 1 1 _) with (i := 0%nat).
  - unfold MAX_HEIGHT; lia.
  - simpl. lia.
  - intros i Hi E. apply (f_equal (fun a : hash32 => hd x00 a)) in E. discriminate.
  - reflexivity.
  - lia.
Defined.
