(* ===== verification/Script.v ===== *)
(** The script virtual machine of [src/core/script.rs]: ahead-of-time structural
    validation and the stack machine that runs a predicate's bytecode on a
    spender's witness.

    A stack is a list whose head is the top item ([stack.last()]); the
    conditional stack likewise has its innermost entry first.  [usize_bits] is the
    width of [usize] on the target (64 natively, 32 in the wasm wallet). *)
From S2P Require Import Prelude Bytecode Types Wots Mss.

#[local] Open Scope Z_scope.

Inductive ScriptError : Type :=
  | ScriptTooLarge | StackOverflow | StackUnderflow | ItemTooLarge
  | InvalidOpcode (op : byte)
  | PushDataOutOfBounds | UnbalancedConditional | VerifyFailed | MathOverflow
  | InvalidBooleanOnStack | ScriptMustFinishTrue | EmptyStack | CleanStackRuleFailed
  | InvalidStateRead | DivisionByZero.

Record ExecContext : Type := mkExecContext {
  commitment : hash32;
  ctx_height : Z;
  outputs : list OutputData;
  input_value : Z;
  input_state : option hash32;
  this_address : hash32
}.

Abbreviation Stack := (list bytes).

(** * Ahead-of-time validation *)

(** [u16::from_le_bytes([bytecode[pc], bytecode[pc + 1]])]. *)
Definition u16_at {E} (bc : bytes) (pc : nat) : res E nat :=
  l ← slice bc pc (pc + 2); Ok (Z.to_nat (le_val l)).

(** One iteration of the loop: the next [pc] and [if_depth]. *)
Definition validate_step (bc : bytes) (pc : nat) (if_depth : Z) : res ScriptError (nat * Z) :=
  op ← unwrap (bc !! pc);
  let pc := S pc in
  match decode_op op with
  | Some OP_PUSH_DATA =>
      _ ← bail_if (Nat.ltb (length bc) (pc + 2)) PushDataOutOfBounds;
      len ← u16_at bc pc;
      let pc := (pc + 2)%nat in
      _ ← bail_if (Nat.ltb (length bc) (pc + len)) PushDataOutOfBounds;
      _ ← bail_if (Nat.ltb MAX_ITEM_SIZE len) ItemTooLarge;
      Ok ((pc + len)%nat, if_depth)
  | Some OP_IF => Ok (pc, if_depth + 1)
  | Some OP_ELSE => _ ← bail_if (if_depth <=? 0) UnbalancedConditional; Ok (pc, if_depth)
  | Some OP_ENDIF =>
      let if_depth := if_depth - 1 in
      _ ← bail_if (if_depth <? 0) UnbalancedConditional; Ok (pc, if_depth)
  | Some _ => Ok (pc, if_depth)
  | None => Err (InvalidOpcode op)
  end.

(** The loop advances [pc] by at least one each time: [length bc] rounds suffice
    (see [execute_script_total]). *)
Fixpoint validate_loop (fuel : nat) (bc : bytes) (pc : nat) (if_depth : Z)
    : res ScriptError () :=
  if Nat.ltb pc (length bc) then
    match fuel with
    | O => Panic
    | S fuel => '(pc, if_depth) ← validate_step bc pc if_depth; validate_loop fuel bc pc if_depth
    end
  else bail_if (negb (if_depth =? 0)) UnbalancedConditional.

Definition validate_structure (bc : bytes) (height : Z) : res ScriptError () :=
  _ ← bail_if (Nat.ltb MAX_SCRIPT_SIZE (length bc)) ScriptTooLarge;
  validate_loop (length bc) bc 0 0.

(** * Stack helpers *)

Definition stack_push (st : Stack) (item : bytes) : res ScriptError Stack :=
  _ ← bail_if (Nat.ltb MAX_ITEM_SIZE (length item)) ItemTooLarge;
  _ ← bail_if (Nat.leb MAX_STACK_DEPTH (length st)) StackOverflow;
  Ok (item :: st).

Definition stack_pop (st : Stack) : res ScriptError (bytes * Stack) :=
  match st with [] => Err StackUnderflow | x :: st => Ok (x, st) end.

Definition to_u64 (item : bytes) : res ScriptError Z :=
  _ ← bail_if (Nat.ltb 8 (length item)) (InvalidOpcode x00);
  Ok (le_val (item ++ replicate (8 - length item) x00)).

Definition is_true (item : bytes) : bool :=
  existsb (fun b => negb (bool_decide (b = x00))) item.

(** The boolean items [[1]] and [[0]]. *)
Definition bool_item (b : bool) : bytes := if b then [x01] else [x00].

Section VM.
Context `{Blake3}.
Context (usize_bits : Z).

Definition verify_signature (sig_bytes : bytes) (message : hash32) (pk_bytes : bytes)
    : res ScriptError bool :=
  if negb (Nat.eqb (length pk_bytes) 32) then Ok false
  else
    pk ← unwrap (try_arr 32 pk_bytes);
    if Nat.eqb (length sig_bytes) SIG_SIZE then
      match sig_from_bytes sig_bytes with
      | Some sig => Ok (verify sig message pk)
      | None => Ok false
      end
    else
      match mss_from_bytes sig_bytes with
      | Ok sig => Ok (mss_verify sig message pk)
      | Err _ => Ok false
      | Panic => Panic
      end.

(** * Opcodes *)

(** The opcodes that read the spending transaction or the depth of the stack. *)
Definition exec_ctx_op (ctx : ExecContext) (o : Opcode) (st : Stack) : res ScriptError Stack :=
  match o with
  | OP_SUM_TO_ADDR =>
      '(addr, st) ← stack_pop st;
      _ ← bail_if (negb (Nat.eqb (length addr) 32)) VerifyFailed;
      addr ← unwrap (try_arr 32 addr);
      sum ← ok_or MathOverflow (checked_sum 64 0 (map output_value
              (List.filter (fun out => bool_decide (output_address out = addr)) (outputs ctx))));
      stack_push st (from_u64 sum)
  | OP_READ_INPUT_STATE =>
      match input_state ctx with
      | Some state_bytes => stack_push st state_bytes
      | None => Err InvalidStateRead
      end
  | OP_READ_OUTPUT_STATE =>
      '(x, st) ← stack_pop st; idx ← to_u64 x;
      _ ← bail_if (Z.of_nat (length (outputs ctx)) <=? idx) InvalidStateRead;
      out ← unwrap (outputs ctx !! Z.to_nat idx);
      match output_commitment out with
      | Some state_bytes => stack_push st state_bytes
      | None => Err InvalidStateRead
      end
  | OP_PICK =>
      '(x, st) ← stack_pop st; d ← to_u64 x;
      let depth_item := wrap usize_bits d in
      _ ← bail_if (Z.of_nat (length st) <=? depth_item) StackUnderflow;
      picked ← unwrap (st !! Z.to_nat depth_item);
      stack_push st picked
  | OP_SIZE =>
      match st with
      | [] => Err StackUnderflow
      | top :: _ => stack_push st (from_u64 (Z.of_nat (length top)))
      end
  | OP_INPUT_VALUE => stack_push st (from_u64 (input_value ctx))
  | OP_OUTPUT_ADDRESS =>
      '(x, st) ← stack_pop st; idx ← to_u64 x;
      _ ← bail_if (Z.of_nat (length (outputs ctx)) <=? idx) InvalidStateRead;
      out ← unwrap (outputs ctx !! Z.to_nat idx);
      stack_push st (output_address out)
  | OP_THIS_ADDRESS => stack_push st (this_address ctx)
  | _ => Err (InvalidOpcode (op_byte o))
  end.

(** Every opcode except [OP_PUSH_DATA] and the conditionals, which also move [pc]
    or the conditional stack. *)
Definition exec_op (ctx : ExecContext) (o : Opcode) (st : Stack) : res ScriptError Stack :=
  match o with
  | OP_PUSH_DATA | OP_IF | OP_ELSE | OP_ENDIF => Err (InvalidOpcode (op_byte o))
  | OP_DROP => '(_, st) ← stack_pop st; Ok st
  | OP_DUP =>
      match st with [] => Err StackUnderflow | top :: _ => stack_push st top end
  | OP_SWAP =>
      match st with a :: b :: st => Ok (b :: a :: st) | _ => Err StackUnderflow end
  | OP_OVER =>
      match st with _ :: over_item :: _ => stack_push st over_item | _ => Err StackUnderflow end
  | OP_ROT =>
      match st with c :: b :: a :: st => Ok (a :: c :: b :: st) | _ => Err StackUnderflow end
  | OP_SLICE =>
      '(x, st) ← stack_pop st; len ← to_u64 x;
      '(x, st) ← stack_pop st; offset ← to_u64 x;
      '(data, st) ← stack_pop st;
      end_ ← ok_or MathOverflow (checked_add 64 offset len);
      _ ← bail_if (Z.of_nat (length data) <? end_) VerifyFailed;
      part ← slice data (Z.to_nat (wrap usize_bits offset)) (Z.to_nat (wrap usize_bits end_));
      stack_push st part
  | OP_CONCAT =>
      '(b, st) ← stack_pop st; '(a, st) ← stack_pop st;
      _ ← bail_if (Nat.ltb MAX_ITEM_SIZE (length a + length b)) ItemTooLarge;
      stack_push st (a ++ b)
  | OP_EQUAL =>
      '(b, st) ← stack_pop st; '(a, st) ← stack_pop st;
      stack_push st (bool_item (bool_decide (a = b)))
  | OP_VERIFY =>
      '(top, st) ← stack_pop st;
      _ ← bail_if (negb (is_true top)) VerifyFailed; Ok st
  | OP_EQUALVERIFY =>
      '(b, st) ← stack_pop st; '(a, st) ← stack_pop st;
      _ ← bail_if (negb (bool_decide (a = b))) VerifyFailed; Ok st
  | OP_ADD =>
      '(b, st) ← stack_pop st; '(a, st) ← stack_pop st;
      x ← to_u64 a; y ← to_u64 b; sum ← ok_or MathOverflow (checked_add 64 x y);
      stack_push st (from_u64 sum)
  | OP_SUB =>
      '(b, st) ← stack_pop st; '(a, st) ← stack_pop st;
      x ← to_u64 a; y ← to_u64 b; diff ← ok_or MathOverflow (checked_sub x y);
      stack_push st (from_u64 diff)
  | OP_MUL =>
      '(b, st) ← stack_pop st; '(a, st) ← stack_pop st;
      x ← to_u64 a; y ← to_u64 b; prod ← ok_or MathOverflow (checked_mul 64 x y);
      stack_push st (from_u64 prod)
  | OP_DIV =>
      '(b, st) ← stack_pop st; b_val ← to_u64 b;
      _ ← bail_if (b_val =? 0) DivisionByZero;
      '(a, st) ← stack_pop st; a_val ← to_u64 a;
      stack_push st (from_u64 (a_val / b_val))
  | OP_MOD =>
      '(b, st) ← stack_pop st; b_val ← to_u64 b;
      _ ← bail_if (b_val =? 0) DivisionByZero;
      '(a, st) ← stack_pop st; a_val ← to_u64 a;
      stack_push st (from_u64 (a_val mod b_val))
  | OP_GREATER_OR_EQUAL =>
      '(b, st) ← stack_pop st; '(a, st) ← stack_pop st;
      x ← to_u64 a; y ← to_u64 b;
      stack_push st (bool_item (y <=? x))
  | OP_HASH => '(data, st) ← stack_pop st; stack_push st (hash data)
  | OP_CHECKSIG =>
      '(pk, st) ← stack_pop st; '(sig, st) ← stack_pop st;
      valid ← verify_signature sig (commitment ctx) pk;
      stack_push st (bool_item valid)
  | OP_CHECKSIGVERIFY =>
      '(pk, st) ← stack_pop st; '(sig, st) ← stack_pop st;
      valid ← verify_signature sig (commitment ctx) pk;
      _ ← bail_if (negb valid) VerifyFailed; Ok st
  | OP_CHECKTIMEVERIFY =>
      '(x, st) ← stack_pop st; required_height ← to_u64 x;
      _ ← bail_if (ctx_height ctx <? required_height) VerifyFailed; Ok st
  | _ => exec_ctx_op ctx o st
  end.

(** * The machine *)

Record VM : Type := mkVM {
  stack : Stack;
  pc : nat;
  exec_stack : list bool;
  sigop_count : nat
}.

Definition all_true (l : list bool) : bool := forallb (fun e => e) l.

Definition is_sigop (o : option Opcode) : bool :=
  match o with Some OP_CHECKSIG | Some OP_CHECKSIGVERIFY => true | _ => false end.

(** The three conditional opcodes act on the conditional stack only. *)
Definition exec_if (executing : bool) (st : Stack) (es : list bool)
    : res ScriptError (Stack * list bool) :=
  if executing then
    '(cond, st) ← stack_pop st;
    let es := is_true cond :: es in
    _ ← bail_if (Nat.ltb MAX_STACK_DEPTH (length es)) UnbalancedConditional;
    Ok (st, es)
  else Ok (st, false :: es).

Definition exec_else (es : list bool) : res ScriptError (list bool) :=
  match es with
  | [] => Err UnbalancedConditional
  | last :: parents =>
      if Nat.leb (length es) 1 || all_true parents then Ok (negb last :: parents) else Ok es
  end.

Definition exec_endif (es : list bool) : res ScriptError (list bool) :=
  match es with [] => Err UnbalancedConditional | _ :: es => Ok es end.

Definition count_sigop (executing : bool) (o : option Opcode) (n : nat) : res ScriptError nat :=
  if is_sigop o && executing
  then _ ← bail_if (Nat.ltb MAX_SIGOPS_PER_SCRIPT (S n)) VerifyFailed; Ok (S n)
  else Ok n.

(** The body of the [while pc < bytecode.len()] loop. *)
Definition vm_step (bc : bytes) (ctx : ExecContext) (vm : VM) : res ScriptError VM :=
  let executing := all_true (exec_stack vm) in
  op ← unwrap (bc !! pc vm);
  let p := S (pc vm) in
  match decode_op op with
  | Some OP_IF =>
      '(st, es) ← exec_if executing (stack vm) (exec_stack vm);
      Ok (mkVM st p es (sigop_count vm))
  | Some OP_ELSE =>
      es ← exec_else (exec_stack vm); Ok (mkVM (stack vm) p es (sigop_count vm))
  | Some OP_ENDIF =>
      es ← exec_endif (exec_stack vm); Ok (mkVM (stack vm) p es (sigop_count vm))
  | o =>
      n ← count_sigop executing o (sigop_count vm);
      if negb executing then
        match o with
        | Some OP_PUSH_DATA =>
            _ ← bail_if (Nat.ltb (length bc) (p + 2)) PushDataOutOfBounds;
            len ← u16_at bc p;
            Ok (mkVM (stack vm) (p + (2 + len)) (exec_stack vm) n)
        | _ => Ok (mkVM (stack vm) p (exec_stack vm) n)
        end
      else
        match o with
        | Some OP_PUSH_DATA =>
            len ← u16_at bc p;
            let p := (p + 2)%nat in
            data ← slice bc p (p + len);
            st ← stack_push (stack vm) data;
            Ok (mkVM st (p + len) (exec_stack vm) n)
        | Some o => st ← exec_op ctx o (stack vm); Ok (mkVM st p (exec_stack vm) n)
        | None => Err (InvalidOpcode op)
        end
  end.

Fixpoint vm_loop (fuel : nat) (bc : bytes) (ctx : ExecContext) (vm : VM) : res ScriptError VM :=
  if Nat.ltb (pc vm) (length bc) then
    match fuel with
    | O => Panic
    | S fuel => vm ← vm_step bc ctx vm; vm_loop fuel bc ctx vm
    end
  else Ok vm.

(** The first witness item is pushed first and ends up at the bottom. *)
Fixpoint push_witness (st : Stack) (witness : list bytes) : res ScriptError Stack :=
  match witness with
  | [] => Ok st
  | item :: witness => st ← stack_push st item; push_witness st witness
  end.

Definition check_final (st : Stack) : res ScriptError () :=
  match st with
  | [] => Err EmptyStack
  | [top] => if bool_decide (top = [x01]) then Ok () else Err ScriptMustFinishTrue
  | _ => Err CleanStackRuleFailed
  end.

Definition execute_script (bc : bytes) (witness : list bytes) (ctx : ExecContext)
    : res ScriptError () :=
  _ ← validate_structure bc (ctx_height ctx);
  st ← push_witness [] witness;
  vm ← vm_loop (length bc) bc ctx (mkVM st 0 [] 0);
  check_final (stack vm).

End VM.

#[global] Arguments from_u64 : simpl never.
#[global] Arguments bool_item : simpl never.
#[global] Arguments MAX_ITEM_SIZE : simpl never.
#[global] Arguments MAX_STACK_DEPTH : simpl never.
#[global] Arguments MAX_SIGOPS_PER_SCRIPT : simpl never.

(** * Lemmas: bounds and absence of panics, opcode by opcode *)

(** What every reachable stack satisfies. *)
Definition stack_ok (st : Stack) : Prop :=
  (length st <= MAX_STACK_DEPTH)%nat /\ Forall (fun x => (length x <= MAX_ITEM_SIZE)%nat) st.

Lemma stack_ok_tail x st : stack_ok (x :: st) -> stack_ok st.
Proof. intros [HL HF]. inversion HF; subst. split; [simpl in HL; lia|assumption]. Qed.

Lemma stack_ok_perm st st' : st ≡ₚ st' -> stack_ok st -> stack_ok st'.
Proof. intros HP [HL HF]. split; [rewrite <- HP; exact HL|rewrite <- HP; exact HF]. Qed.

Lemma stack_push_Ok st x st' :
  stack_push st x = Ok st' <->
  st' = x :: st /\ (length x <= MAX_ITEM_SIZE)%nat /\ (length st < MAX_STACK_DEPTH)%nat.
Proof.
  unfold stack_push. rewrite res_bind_Ok. setoid_rewrite res_bind_Ok. split.
  - intros ([] & B1 & [] & B2 & [= <-]). apply bail_if_Ok, Nat.ltb_ge in B1.
    apply bail_if_Ok, Nat.leb_gt in B2. auto.
  - intros (-> & B1 & B2). exists (). rewrite bail_if_Ok, Nat.ltb_ge. split; [exact B1|].
    exists (). rewrite bail_if_Ok, Nat.leb_gt. auto.
Qed.

Lemma stack_push_ok st x st' : stack_ok st -> stack_push st x = Ok st' -> stack_ok st'.
Proof.
  rewrite stack_push_Ok. intros [HL HF] (-> & B1 & B2).
  split; [simpl; lia|constructor; assumption].
Qed.

Lemma stack_push_safe st x : stack_push st x <> Panic.
Proof. unfold stack_push. repeat safe_step. Qed.

Lemma stack_pop_safe st : stack_pop st <> Panic.
Proof. destruct st; discriminate. Qed.

Lemma stack_pop_Ok st x st' : stack_pop st = Ok (x, st') <-> st = x :: st'.
Proof. destruct st; simpl; split; congruence. Qed.

Lemma le_val_zeros l n : le_val (l ++ replicate n x00) = le_val l.
Proof.
  rewrite le_val_app. assert (le_val (replicate n x00) = 0) as ->; [|lia].
  induction n as [|n IH]; [reflexivity|]. simpl. rewrite IH. reflexivity.
Qed.

Lemma to_u64_Ok x v : to_u64 x = Ok v <-> (length x <= 8)%nat /\ v = le_val x.
Proof.
  unfold to_u64. rewrite res_bind_Ok, le_val_zeros. split.
  - intros ([] & B & [= <-]). apply bail_if_Ok, Nat.ltb_ge in B. auto.
  - intros [B ->]. exists (). rewrite bail_if_Ok, Nat.ltb_ge. auto.
Qed.

Lemma to_u64_range x v : to_u64 x = Ok v -> in_u 64 v.
Proof.
  rewrite to_u64_Ok. intros [HL ->]. pose proof (le_val_range x) as [R1 R2]. split; [exact R1|].
  eapply Z.lt_le_trans; [exact R2|]. apply Z.pow_le_mono_r; lia.
Qed.

Lemma to_u64_safe x : to_u64 x <> Panic.
Proof. unfold to_u64. repeat safe_step. Qed.

(** Integer items round trip. *)
Lemma to_from_u64 v : in_u 64 v -> to_u64 (from_u64 v) = Ok v.
Proof.
  intros Hv. apply to_u64_Ok. pose proof (from_u64_length v) as L.
  split; [lia|]. symmetry. apply from_u64_val, Hv.
Qed.

#[export] Hint Resolve stack_push_safe stack_pop_safe to_u64_safe : safe.

(** Run through the binds of an opcode, naming nothing. *)
Ltac op_step :=
  match goal with
  | p : (_ * _)%type |- _ => destruct p
  | H : stack_pop _ = Ok _ |- _ => apply stack_pop_Ok in H; subst
  | H : stack_ok (_ :: _) |- _ =>
      let H' := fresh in pose proof H as [_ H'%Forall_inv]; apply stack_ok_tail in H
  | H : to_u64 _ = Ok _ |- _ => apply to_u64_range in H
  | |- (match ?st with [] => _ | _ :: _ => _ end) <> Panic => destruct st
  | |- (match ?o with Some _ => _ | None => _ end) <> Panic => destruct o
  | |- (let '_ := ?p in _) <> Panic => destruct p
  | _ => safe_step
  end.

Section Safety.
Context `{Blake3}.
Context (usize_bits : Z).

Lemma verify_signature_safe s m pk : verify_signature s m pk <> Panic.
Proof.
  unfold verify_signature. destruct (Nat.eqb_spec (length pk) 32) as [E|]; [|discriminate].
  unfold try_arr. rewrite (proj2 (Nat.eqb_eq _ 32) E). cbn [negb unwrap mbind res_bind].
  destruct (Nat.eqb _ _); [destruct (sig_from_bytes s); discriminate|].
  pose proof (mss_from_bytes_total s). destruct (mss_from_bytes s); congruence.
Qed.
Hint Resolve verify_signature_safe : safe.

Lemma unwrap_lookup_safe {E A} (l : list A) z :
  (Z.of_nat (length l) <=? z) = false -> 0 <= z -> unwrap (E := E) (l !! Z.to_nat z) <> Panic.
Proof.
  intros B%Z.leb_gt Hz. destruct (lookup_lt_is_Some_2 l (Z.to_nat z)) as [x ->]; [lia|discriminate].
Qed.

Lemma exec_op_safe ctx o st :
  16 <= usize_bits -> stack_ok st -> exec_op usize_bits ctx o st <> Panic.
Proof.
  intros HU HS. destruct o; cbn [exec_op exec_ctx_op]; repeat op_step.
  - (* OP_SLICE *)
    match goal with C : checked_add _ _ _ = Some _ |- _ => apply checked_add_Some in C as [-> _] end.
    match goal with C : (_ <? _) = false |- _ => apply Z.ltb_ge in C end.
    assert (2 ^ 16 <= 2 ^ usize_bits) by (apply Z.pow_le_mono_r; lia).
    unfold in_u, MAX_ITEM_SIZE in *. unfold wrap. rewrite !Z.mod_small by lia.
    apply slice_safe. lia.
  - (* OP_PICK *)
    apply unwrap_lookup_safe; [assumption|apply Z.mod_pos_bound, Z.pow_pos_nonneg; lia].
  - (* OP_SUM_TO_ADDR *)
    match goal with C : negb _ = false |- _ => apply negb_false_iff in C end.
    unfold try_arr. case_match; discriminate.
  - (* OP_READ_OUTPUT_STATE *)
    apply unwrap_lookup_safe; [assumption|unfold in_u in *; lia].
  - (* OP_OUTPUT_ADDRESS *)
    apply unwrap_lookup_safe; [assumption|unfold in_u in *; lia].
Qed.

Lemma exec_op_stack_ok ctx o st st' :
  stack_ok st -> exec_op usize_bits ctx o st = Ok st' -> stack_ok st'.
Proof.
  intros HS HE. destruct o; cbn [exec_op exec_ctx_op] in HE;
    repeat (first
      [ ok_step
      | match goal with
        | H : stack_pop _ = Ok _ |- _ => apply stack_pop_Ok in H; subst
        | H : match ?st with [] => _ | _ :: _ => _ end = Ok _ |- _ => destruct st
        | H : match ?o with Some _ => _ | None => _ end = Ok _ |- _ => destruct o
        end ]); subst;
    try (eapply stack_push_ok; [|eassumption]); eauto using stack_ok_tail.
  - eapply stack_ok_perm; [|exact HS]. apply Permutation_swap.
  - eapply stack_ok_perm; [|exact HS].
    match goal with |- ?c :: ?b :: ?a :: ?r ≡ₚ _ => symmetry; apply (Permutation_middle [c; b] r a) end.
Qed.

End Safety.
