(* ===== verification/Instr.v ===== *)
(** A reference semantics of scripts on decoded instruction lists, and the
    refinement theorems that tie it to the byte-level machine of [Script]: every
    bytecode the validator accepts is the assembly of one instruction list, and
    running the bytes is running the list. *)
From S2P Require Import Prelude Bytecode Types Wots Mss Script.

#[local] Open Scope Z_scope.

Inductive instr : Type :=
  | Push (data : bytes)
  | Op (o : Opcode).

Definition asm1 (i : instr) : bytes :=
  match i with
  | Push d => op_byte OP_PUSH_DATA :: le_bytes 2 (Z.of_nat (length d)) ++ d
  | Op o => [op_byte o]
  end.

Definition asm (l : list instr) : bytes := mjoin (asm1 <$> l).

Definition instr_wf (i : instr) : Prop :=
  match i with
  | Push d => (length d <= MAX_ITEM_SIZE)%nat
  | Op o => o <> OP_PUSH_DATA
  end.

(** The conditional depth after an instruction, [None] when it is unbalanced. *)
Definition depth_after (d : nat) (i : instr) : option nat :=
  match i with
  | Op OP_IF => Some (S d)
  | Op OP_ELSE => if Nat.eqb d 0 then None else Some d
  | Op OP_ENDIF => match d with O => None | S d => Some d end
  | _ => Some d
  end.

Fixpoint balanced (d : nat) (l : list instr) : bool :=
  match l with
  | [] => Nat.eqb d 0
  | i :: l => match depth_after d i with Some d => balanced d l | None => false end
  end.

Section Exec.
Context `{Blake3}.
Context (usize_bits : Z).

(** Stack, conditional stack, signature operations so far. *)
Abbreviation istate := (Stack * list bool * nat)%type.

Definition exec_instr (ctx : ExecContext) (i : instr) (s : istate) : res ScriptError istate :=
  let '(st, es, n) := s in
  let executing := all_true es in
  match i with
  | Op OP_IF => '(st, es) ← exec_if executing st es; Ok (st, es, n)
  | Op OP_ELSE => es ← exec_else es; Ok (st, es, n)
  | Op OP_ENDIF => es ← exec_endif es; Ok (st, es, n)
  | Push d => if executing then st ← stack_push st d; Ok (st, es, n) else Ok (st, es, n)
  | Op o =>
      n ← count_sigop executing (Some o) n;
      if executing then st ← exec_op usize_bits ctx o st; Ok (st, es, n) else Ok (st, es, n)
  end.

Fixpoint exec_instrs (ctx : ExecContext) (l : list instr) (s : istate) : res ScriptError istate :=
  match l with
  | [] => Ok s
  | i :: l => s ← exec_instr ctx i s; exec_instrs ctx l s
  end.

Definition run_instrs (l : list instr) (witness : list bytes) (ctx : ExecContext)
    : res ScriptError () :=
  st ← push_witness [] witness;
  '(st, _, _) ← exec_instrs ctx l (st, [], 0%nat);
  check_final st.

End Exec.

(** * Assembly *)

Lemma asm_cons i l : asm (i :: l) = asm1 i ++ asm l.
Proof. reflexivity. Qed.

Lemma asm_app l k : asm (l ++ k) = asm l ++ asm k.
Proof. unfold asm. rewrite fmap_app, join_app. reflexivity. Qed.

Lemma asm1_length i : (1 <= length (asm1 i))%nat.
Proof. destruct i; simpl; lia. Qed.

Lemma asm1_push_length d : length (asm1 (Push d)) = (3 + length d)%nat.
Proof. cbn [asm1]. rewrite length_cons, length_app, length_le_bytes. lia. Qed.

Lemma asm_length l : (length l <= length (asm l))%nat.
Proof.
  induction l as [|i l IH]; [simpl; lia|]. rewrite asm_cons, length_app.
  pose proof (asm1_length i). simpl. lia.
Qed.

Lemma push_data_asm bc d : push_data bc d = bc ++ asm1 (Push d).
Proof. reflexivity. Qed.

Lemma push_op_asm bc o : push_op bc o = bc ++ asm1 (Op o).
Proof. reflexivity. Qed.

Lemma op_byte_inj o o' : op_byte o = op_byte o' -> o = o'.
Proof.
  intros E. apply (f_equal decode_op) in E. rewrite !decode_op_byte in E. congruence.
Qed.

(** ** Reading an instruction at a position *)

Section Reading.
Context (pre : bytes) (i : instr) (rest : bytes).
Let bc := pre ++ asm1 i ++ rest.

Lemma lookup_op : bc !! length pre = Some (match i with Push _ => op_byte OP_PUSH_DATA | Op o => op_byte o end).
Proof. unfold bc. rewrite lookup_app_r, Nat.sub_diag by lia. destruct i; reflexivity. Qed.

Lemma u16_at_push {E} d :
  instr_wf i -> i = Push d -> u16_at (E := E) bc (S (length pre)) = Ok (length d).
Proof.
  unfold bc. intros WF ->. unfold u16_at.
  pose proof (slice_mid (E := E) (pre ++ [op_byte OP_PUSH_DATA])
    (le_bytes 2 (Z.of_nat (length d))) (d ++ rest)) as S.
  rewrite length_app, length_le_bytes, <- !app_assoc in S. cbn [length] in S.
  rewrite Nat.add_1_r in S. cbn [asm1]. cbn [app] in *. rewrite <- app_assoc, S.
  cbn [mbind res_bind]. unfold instr_wf, MAX_ITEM_SIZE in WF.
  rewrite le_val_small, Nat2Z.id; [reflexivity|]. lia.
Qed.

Lemma slice_push {E} d :
  i = Push d ->
  slice (E := E) bc (S (length pre) + 2) (S (length pre) + 2 + length d) = Ok d.
Proof.
  unfold bc. intros ->.
  pose proof (slice_mid (E := E) (pre ++ op_byte OP_PUSH_DATA :: le_bytes 2 (Z.of_nat (length d)))
    d rest) as S.
  rewrite length_app, length_cons, length_le_bytes, <- !app_assoc in S.
  replace (length pre + 3)%nat with (Datatypes.S (length pre) + 2)%nat in S by lia.
  cbn [asm1]. cbn [app] in *. rewrite <- app_assoc. exact S.
Qed.

Lemma length_bc : length bc = (length pre + length (asm1 i) + length rest)%nat.
Proof. unfold bc. rewrite !length_app. lia. Qed.

End Reading.

(** ** One step of each machine agrees *)

Lemma validate_step_asm pre i rest d :
  instr_wf i ->
  validate_step (pre ++ asm1 i ++ rest) (length pre) (Z.of_nat d) =
  match depth_after d i with
  | Some d' => Ok ((length pre + length (asm1 i))%nat, Z.of_nat d')
  | None => Err UnbalancedConditional
  end.
Proof.
  intros WF. unfold validate_step. rewrite lookup_op. cbn [unwrap mbind res_bind].
  rewrite length_bc. destruct i as [dat|o].
  - rewrite decode_op_byte, asm1_push_length. cbn [depth_after].
    rewrite (proj2 (Nat.ltb_ge _ (S (length pre) + 2))) by lia. cbn [bail_if mbind res_bind].
    rewrite (u16_at_push pre (Push dat) rest dat WF) by reflexivity. cbn [mbind res_bind].
    rewrite (proj2 (Nat.ltb_ge _ (S (length pre) + 2 + length dat))) by lia.
    cbn [bail_if mbind res_bind].
    rewrite (proj2 (Nat.ltb_ge MAX_ITEM_SIZE _)) by exact WF. cbn [bail_if mbind res_bind].
    do 2 f_equal. lia.
  - rewrite decode_op_byte. cbn [asm1 length].
    replace (length pre + 1)%nat with (S (length pre)) by lia.
    destruct o; cbn [depth_after]; try reflexivity; try (exfalso; apply WF; reflexivity).
    + do 2 f_equal. lia.
    + destruct d; simpl; reflexivity.
    + destruct d as [|d]; [reflexivity|].
      rewrite (proj2 (Z.ltb_ge (Z.of_nat (S d) - 1) 0)) by lia. cbn [bail_if mbind res_bind].
      do 2 f_equal. lia.
Qed.

Lemma count_sigop_None {b n} : count_sigop b None n = Ok n.
Proof. reflexivity. Qed.

Lemma vm_step_asm `{Blake3} us ctx pre i rest st es n :
  instr_wf i ->
  vm_step us (pre ++ asm1 i ++ rest) ctx (mkVM st (length pre) es n) =
  ('(st, es, n) ← exec_instr us ctx i (st, es, n);
   Ok (mkVM st (length pre + length (asm1 i)) es n)).
Proof.
  intros WF. unfold vm_step. cbn [pc stack exec_stack sigop_count].
  rewrite lookup_op. cbn [unwrap mbind res_bind]. rewrite length_bc.
  destruct i as [dat|o].
  - rewrite decode_op_byte. cbn [exec_instr is_sigop andb count_sigop mbind res_bind].
    rewrite !(u16_at_push pre (Push dat) rest dat WF) by reflexivity.
    rewrite asm1_push_length, (proj2 (Nat.ltb_ge _ (S (length pre) + 2))) by lia.
    destruct (all_true es); cbn [negb bail_if mbind res_bind].
    + rewrite (slice_push pre (Push dat) rest dat) by reflexivity. cbn [mbind res_bind].
      destruct (stack_push st dat); [|reflexivity..]. cbn [mbind res_bind].
      do 2 f_equal. lia.
    + do 2 f_equal. lia.
  - rewrite decode_op_byte. cbn [asm1 length].
    replace (length pre + 1)%nat with (S (length pre)) by lia.
    destruct o; cbn [exec_instr is_sigop andb]; try (exfalso; apply WF; reflexivity);
      try (destruct (exec_if _ _ _) as [[]| |]; reflexivity);
      try (destruct (exec_else _); reflexivity); try (destruct (exec_endif _); reflexivity);
      unfold count_sigop; cbn [is_sigop andb mbind res_bind];
      destruct (all_true es); cbn [negb mbind res_bind]; try reflexivity;
      try (destruct (bail_if _ _); cbn [mbind res_bind]; try reflexivity);
      try (destruct (exec_op us ctx _ st); reflexivity).
Qed.

(** * The loops *)

Lemma validate_loop_asm l : forall pre d fuel,
  Forall instr_wf l -> (length l <= fuel)%nat ->
  validate_loop fuel (pre ++ asm l) (length pre) (Z.of_nat d) =
  (if balanced d l then Ok () else Err UnbalancedConditional).
Proof.
  induction l as [|i l IH]; intros pre d fuel WF HF.
  - unfold asm; cbn [fmap list_fmap mjoin list_join]. rewrite app_nil_r.
    destruct fuel; cbn [validate_loop balanced]; rewrite Nat.ltb_irrefl;
      destruct d; reflexivity.
  - inversion WF as [|? ? W1 W2]; subst. destruct fuel as [|fuel]; [simpl in HF; lia|].
    cbn [validate_loop]. rewrite asm_cons, length_bc.
    rewrite (proj2 (Nat.ltb_lt _ _)) by (pose proof (asm1_length i); lia).
    rewrite validate_step_asm by exact W1. cbn [balanced].
    destruct (depth_after d i) as [d'|]; [|reflexivity]. cbn [mbind res_bind].
    rewrite app_assoc, <- length_app. apply IH; [exact W2|simpl in HF; lia].
Qed.

Lemma vm_loop_asm `{Blake3} us ctx l : forall pre st es n fuel,
  Forall instr_wf l -> (length l <= fuel)%nat ->
  vm_loop us fuel (pre ++ asm l) ctx (mkVM st (length pre) es n) =
  ('(st, es, n) ← exec_instrs us ctx l (st, es, n);
   Ok (mkVM st (length (pre ++ asm l)) es n)).
Proof.
  induction l as [|i l IH]; intros pre st es n fuel WF HF.
  - unfold asm; cbn [fmap list_fmap mjoin list_join]. rewrite app_nil_r.
    destruct fuel; cbn [vm_loop exec_instrs pc]; rewrite Nat.ltb_irrefl; reflexivity.
  - inversion WF as [|? ? W1 W2]; subst. destruct fuel as [|fuel]; [simpl in HF; lia|].
    cbn [vm_loop pc exec_instrs]. rewrite asm_cons, length_bc.
    rewrite (proj2 (Nat.ltb_lt _ _)) by (pose proof (asm1_length i); lia).
    rewrite vm_step_asm by exact W1.
    destruct (exec_instr us ctx i (st, es, n)) as [[[st' es'] n']| |]; [|reflexivity..].
    cbn [mbind res_bind]. rewrite <- !length_app, app_assoc.
    apply IH; [exact W2|simpl in HF; lia].
Qed.

(** Every instruction boundary the validator steps over starts an instruction. *)
Lemma validate_step_decode bc p d p' d' :
  (p < length bc)%nat -> 0 <= d -> validate_step bc p d = Ok (p', d') ->
  (p < p')%nat /\ 0 <= d' /\ exists i, instr_wf i /\ drop p bc = asm1 i ++ drop p' bc.
Proof.
  intros Hp Hd HV. unfold validate_step in HV. repeat ok_step.
  destruct (bc !! p) as [op|] eqn:EO; [|discriminate]. cbn [unwrap] in *.
  match goal with E : Ok _ = Ok _ |- _ => injection E as <- end.
  assert (HD : drop p bc = op :: drop (S p) bc) by (apply drop_S; exact EO).
  destruct (decode_op op) as [o|] eqn:ED; [|discriminate].
  apply decode_op_Some in ED. rewrite HD, ED.
  assert (HO : o <> OP_PUSH_DATA -> (p < S p)%nat /\
    exists i, instr_wf i /\ op_byte o :: drop (S p) bc = asm1 i ++ drop (S p) bc)
    by (intros HN; split; [lia|exists (Op o); split; [exact HN|reflexivity]]).
  destruct o; repeat ok_step; subst; try (destruct HO as [HO1 HO2]; [discriminate|];
    split; [lia|]; split; [lia|]; assumption).
  - (* OP_PUSH_DATA *)
    repeat match goal with B : Nat.ltb _ _ = false |- _ => apply Nat.ltb_ge in B end.
    unfold u16_at in *. repeat ok_step.
    match goal with S : slice _ _ _ = Ok ?x, E : Z.to_nat (le_val ?x) = ?n |- _ =>
      apply length_slice in S as [L1 L2]; rename x into l2; subst n end.
    replace (S p + 2 - S p)%nat with 2%nat in * by lia.
    split; [lia|]. split; [lia|].
    exists (Push (take (Z.to_nat (le_val l2)) (drop (S p + 2) bc))). split.
    + simpl. rewrite length_take. lia.
    + cbn [asm1 app]. f_equal. rewrite length_take, length_drop, Nat.min_l by lia.
      pose proof (le_val_range l2). rewrite Z2Nat.id by lia.
      rewrite le_bytes_le_val' by exact L1. rewrite <- app_assoc.
      change (S (p + 2 + Z.to_nat (le_val l2))) with (S p + 2 + Z.to_nat (le_val l2))%nat.
      rewrite <- (drop_drop bc (Z.to_nat (le_val l2)) (S p + 2)), take_drop, L2.
      rewrite <- (drop_drop bc 2 (S p)), take_drop. reflexivity.
Qed.

Lemma validate_loop_decode fuel bc : forall p d,
  0 <= d -> validate_loop fuel bc p d = Ok () ->
  exists l, Forall instr_wf l /\ drop p bc = asm l.
Proof.
  induction fuel as [|fuel IH]; intros p d Hd; cbn [validate_loop];
    destruct (Nat.ltb_spec p (length bc)) as [HP|HP]; try discriminate.
  1, 3: intros _; exists []; split; [constructor|apply drop_ge; exact HP].
  intros HV. apply res_bind_Ok in HV as ([p' d'] & HS & HV).
  destruct (validate_step_decode _ _ _ _ _ HP Hd HS) as (_ & Hd' & i & W & E).
  destruct (IH _ _ Hd' HV) as (l & WL & EL). exists (i :: l).
  split; [constructor; assumption|]. rewrite asm_cons, E, EL. reflexivity.
Qed.

Lemma validate_structure_asm l h :
  Forall instr_wf l ->
  validate_structure (asm l) h =
  if Nat.ltb MAX_SCRIPT_SIZE (length (asm l)) then Err ScriptTooLarge
  else if balanced 0 l then Ok () else Err UnbalancedConditional.
Proof.
  intros WF. unfold validate_structure. destruct (Nat.ltb _ _); [reflexivity|].
  apply (validate_loop_asm l [] 0 (length (asm l)) WF), asm_length.
Qed.

(** What the validator accepts: the assembly of balanced, well-formed
    instructions that fits the size limit. *)
Lemma validate_structure_Ok bc h :
  validate_structure bc h = Ok () <->
  exists l, bc = asm l /\ Forall instr_wf l /\ balanced 0 l = true
    /\ (length bc <= MAX_SCRIPT_SIZE)%nat.
Proof.
  split.
  - intros HV. pose proof HV as HV'. unfold validate_structure in HV. repeat ok_step.
    destruct (validate_loop_decode (length bc) bc 0 0 ltac:(lia) ltac:(assumption)) as (l & W & E).
    rewrite drop_0 in E. subst bc. exists l. rewrite validate_structure_asm in HV' by exact W.
    destruct (Nat.ltb_spec MAX_SCRIPT_SIZE (length (asm l))); [discriminate|].
    destruct (balanced 0 l); [auto|discriminate].
  - intros (l & -> & W & B & HL). rewrite validate_structure_asm, B by exact W.
    rewrite (proj2 (Nat.ltb_ge _ _)) by exact HL. reflexivity.
Qed.

Lemma execute_script_asm `{Blake3} us l w ctx :
  Forall instr_wf l -> balanced 0 l = true -> (length (asm l) <= MAX_SCRIPT_SIZE)%nat ->
  execute_script us (asm l) w ctx = run_instrs us l w ctx.
Proof.
  intros W B HL. unfold execute_script, run_instrs.
  rewrite (proj2 (validate_structure_Ok (asm l) (ctx_height ctx))) by eauto.
  cbn [mbind res_bind]. destruct (push_witness [] w) as [st| |]; [|reflexivity..].
  cbn [mbind res_bind].
  rewrite (vm_loop_asm us ctx l [] st [] 0 (length (asm l)) W) by apply asm_length.
  destruct (exec_instrs us ctx l (st, [], 0%nat)) as [[[? ?] ?]| |]; reflexivity.
Qed.

(** * Invariants of the reference machine *)

Section Invariants.
Context `{Blake3}.
Context (usize_bits : Z).

(** Bounds that hold in every state, [d] being the static conditional depth. *)
Definition istate_ok (d : nat) (s : Stack * list bool * nat) : Prop :=
  let '(st, es, n) := s in
  stack_ok st /\ length es = d /\ (n <= MAX_SIGOPS_PER_SCRIPT)%nat.

Lemma stack_ok_cons_inv x st : stack_ok (x :: st) -> stack_ok st.
Proof. apply stack_ok_tail. Qed.

Lemma exec_instr_ok ctx i d d' s s' :
  instr_wf i -> depth_after d i = Some d' -> istate_ok d s ->
  exec_instr usize_bits ctx i s = Ok s' -> istate_ok d' s'.
Proof.
  destruct s as [[st es] n]. intros W HD (HS & HE & HN) HX.
  assert (HC : forall o n', count_sigop (all_true es) o n = Ok n' ->
    (n' <= MAX_SIGOPS_PER_SCRIPT)%nat).
  { intros o n'. unfold count_sigop. destruct (_ && _); intros HC; repeat ok_step; subst;
      [match goal with B : Nat.ltb _ _ = false |- _ => apply Nat.ltb_ge in B; exact B end|exact HN]. }
  destruct i as [dat|o].
  - cbn in HD. injection HD as <-. cbn [exec_instr] in HX.
    destruct (all_true es); repeat ok_step; subst; split; auto. eapply stack_push_ok; eauto.
  - destruct o; cbn [depth_after] in HD; cbn [exec_instr] in HX;
      try (injection HD as <-; destruct (all_true es) in *; repeat ok_step; subst; split;
           eauto using exec_op_stack_ok; fail).
    + injection HD as <-. unfold exec_if in HX. destruct (all_true es); repeat ok_step; subst.
      * match goal with S : stack_pop _ = Ok _ |- _ => apply stack_pop_Ok in S; subst end.
        split; [eapply stack_ok_tail, HS|]. split; [reflexivity|exact HN].
      * split; [exact HS|]. split; [reflexivity|exact HN].
    + destruct (Nat.eqb d 0) eqn:E0; [discriminate|]. injection HD as <-.
      unfold exec_else in HX. destruct es as [|e es]; [repeat ok_step|].
      destruct (_ || _); repeat ok_step; subst; split; auto.
    + destruct d; [discriminate|]. injection HD as <-.
      unfold exec_endif in HX. destruct es as [|e es]; repeat ok_step; subst.
      split; [exact HS|]. simpl in HE. split; [lia|exact HN].
Qed.

Lemma exec_instr_safe ctx i d d' s :
  16 <= usize_bits -> depth_after d i = Some d' -> istate_ok d s ->
  exec_instr usize_bits ctx i s <> Panic.
Proof.
  destruct s as [[st es] n]. intros HU HD (HS & HE & HN).
  assert (HC : forall o, count_sigop (all_true es) o n <> Panic)
    by (intros o; unfold count_sigop; destruct (_ && _); repeat safe_step).
  destruct i as [dat|o]; cbn [exec_instr].
  - destruct (all_true es); repeat safe_step.
  - destruct o;
      try (apply bind_safe; [apply HC|intros ? _]; destruct (all_true es); [|discriminate];
           apply bind_safe; [apply exec_op_safe; assumption|discriminate]).
    + apply bind_safe; [|intros [] _; discriminate]. unfold exec_if.
      destruct (all_true es); repeat op_step.
    + apply bind_safe; [|discriminate]. unfold exec_else.
      destruct es; [discriminate|]. destruct (_ || _); discriminate.
    + apply bind_safe; [|discriminate]. unfold exec_endif. destruct es; discriminate.
Qed.

Lemma exec_instrs_safe ctx l : forall d s,
  16 <= usize_bits -> Forall instr_wf l -> balanced d l = true -> istate_ok d s ->
  exec_instrs usize_bits ctx l s <> Panic.
Proof.
  induction l as [|i l IH]; intros d s HU W B HS; cbn [exec_instrs]; [discriminate|].
  inversion W; subst. cbn [balanced] in B. destruct (depth_after d i) as [d'|] eqn:ED; [|discriminate].
  apply bind_safe; [eapply exec_instr_safe; eassumption|]. intros s' HX.
  eapply IH; eauto using exec_instr_ok.
Qed.

Lemma push_witness_spec w : forall st st',
  push_witness st w = Ok st' <->
  st' = rev w ++ st /\ Forall (fun x => (length x <= MAX_ITEM_SIZE)%nat) w
  /\ (w = [] \/ (length st + length w <= MAX_STACK_DEPTH)%nat).
Proof.
  induction w as [|x w IH]; intros st st'; cbn [push_witness].
  - split; [intros [= <-]; auto|intros (-> & _); reflexivity].
  - rewrite res_bind_Ok. setoid_rewrite stack_push_Ok. setoid_rewrite IH. simpl. split.
    + intros (? & (-> & B1 & B2) & -> & B3 & B4). rewrite <- app_assoc.
      split; [reflexivity|]. split; [constructor; assumption|]. right.
      destruct B4 as [->|B4]; simpl in *; lia.
    + intros (-> & B & [B4|B4]); [discriminate|]. inversion B; subst. exists (x :: st).
      rewrite <- app_assoc. simpl. repeat split; auto; [lia|]. destruct w; [auto|right; simpl in *; lia].
Qed.

Lemma push_witness_safe w : forall st, push_witness st w <> Panic.
Proof. induction w; intros st; cbn [push_witness]; repeat safe_step; auto. Qed.

Lemma push_witness_ok w st : push_witness [] w = Ok st -> stack_ok st.
Proof.
  rewrite push_witness_spec, app_nil_r. intros (-> & B & HL). split.
  - rewrite length_rev. destruct HL as [->|HL]; simpl in *; lia.
  - apply Forall_rev, B.
Qed.

Lemma validate_structure_safe bc h : validate_structure bc h <> Panic.
Proof.
  unfold validate_structure. apply bind_safe; [auto with safe|]. intros _ _.
  assert (HL : forall fuel p d, (length bc - p <= fuel)%nat -> 0 <= d ->
    validate_loop fuel bc p d <> Panic); [|apply HL; lia].
  induction fuel as [|fuel IH]; intros p d HF Hd; cbn [validate_loop];
    destruct (Nat.ltb_spec p (length bc)) as [HP|HP]; try apply bail_if_safe; [lia|].
  apply bind_safe.
  - unfold validate_step. destruct (lookup_lt_is_Some_2 bc p HP) as [op ->].
    cbn [unwrap mbind res_bind]. destruct (decode_op op) as [[]|]; repeat safe_step.
    all: unfold u16_at; repeat safe_step; apply slice_safe; lia.
  - intros [p' d'] HS. destruct (validate_step_decode _ _ _ _ _ HP Hd HS) as (H1 & H2 & _).
    apply IH; lia.
Qed.

End Invariants.

(** * Reachable machine states *)

Section Reach.
Context `{Blake3}.
Context (usize_bits : Z).

(** The states the loop of [execute_script] goes through. *)
Inductive reaches (bc : bytes) (w : list bytes) (ctx : ExecContext) : VM -> Prop :=
  | reaches_init st :
      push_witness [] w = Ok st -> reaches bc w ctx (mkVM st 0 [] 0)
  | reaches_step vm vm' :
      reaches bc w ctx vm -> (pc vm < length bc)%nat ->
      vm_step usize_bits bc ctx vm = Ok vm' -> reaches bc w ctx vm'.

(** Every reachable state is at an instruction boundary, with the bounds. *)
Lemma reaches_boundary l w ctx vm :
  Forall instr_wf l -> balanced 0 l = true -> reaches (asm l) w ctx vm ->
  exists done todo, l = done ++ todo /\ pc vm = length (asm done)
    /\ balanced (length (exec_stack vm)) todo = true
    /\ istate_ok (length (exec_stack vm)) (stack vm, exec_stack vm, sigop_count vm).
Proof.
  intros W B. induction 1 as [st HP|vm vm' HR (done & todo & -> & EP & EB & EI) HL HS].
  - exists [], l. simpl. repeat split; auto; [eapply push_witness_ok, HP..|lia].
  - destruct vm as [st p es n]. cbn [pc stack exec_stack sigop_count] in *. subst p.
    rewrite asm_app in HS, HL. destruct todo as [|i todo].
    { rewrite length_app in HL. simpl in HL. lia. }
    apply Forall_app in W as [W1 W2]. inversion W2 as [|? ? Wi W3]; subst.
    rewrite asm_cons, vm_step_asm in HS by exact Wi.
    cbn [balanced] in EB. destruct (depth_after (length es) i) as [d'|] eqn:ED; [|discriminate].
    apply res_bind_Ok in HS as ([[st' es'] n'] & HX & HS).
    pose proof (exec_instr_ok usize_bits ctx i _ _ _ _ Wi ED EI HX) as HI.
    injection HS as <-. cbn [pc stack exec_stack sigop_count]. pose proof HI as (_ & HD & _).
    rewrite HD. exists (done ++ [i]), todo. rewrite <- app_assoc.
    rewrite asm_app, length_app. unfold asm at 3; simpl. rewrite app_nil_r. auto.
Qed.

Lemma balanced_depth l : forall d, balanced d l = true -> (d <= length l)%nat.
Proof.
  induction l as [|i l IH]; intros d; cbn [balanced length].
  - intros E%Nat.eqb_eq. lia.
  - destruct (depth_after d i) as [d'|] eqn:ED; [|discriminate]. intros E%IH.
    destruct i as [|[]]; cbn in ED; try (injection ED as <-; lia).
    + destruct (Nat.eqb_spec d 0); [discriminate|]. injection ED as <-. lia.
    + destruct d; [discriminate|]. injection ED as <-. lia.
Qed.

(** Running any bytecode on any witness and context terminates with a result
    or an error: no index is out of bounds, no [unwrap] fails, and the loops need
    no more rounds than the script has bytes. *)
Lemma execute_script_total bc w ctx :
  16 <= usize_bits -> execute_script usize_bits bc w ctx <> Panic.
Proof.
  intros HU. destruct (validate_structure bc (ctx_height ctx)) as [u|e|] eqn:EV.
  - destruct u. apply validate_structure_Ok in EV as (l & -> & W & B & HL).
    rewrite execute_script_asm by assumption. unfold run_instrs.
    apply bind_safe; [apply push_witness_safe|]. intros st HP.
    apply bind_safe.
    + eapply exec_instrs_safe; eauto. split; [eapply push_witness_ok, HP|]. simpl. lia.
    + intros [[st' es] n] _. destruct st' as [|x [|]]; simpl; try discriminate.
      case_bool_decide; discriminate.
  - unfold execute_script. rewrite EV. discriminate.
  - contradiction (validate_structure_safe _ _ EV).
Qed.

(** C11: the byte-level machine implements the instruction-level one: either the
    validator rejects the script and its error is the result, or the script is
    the assembly of well-formed, balanced instructions and the result is that of
    interpreting them. *)
Theorem execute_script_refines bc w ctx :
  (exists e, validate_structure bc (ctx_height ctx) = Err e
     /\ execute_script usize_bits bc w ctx = Err e)
  \/ (exists l, bc = asm l /\ Forall instr_wf l /\ balanced 0 l = true
     /\ execute_script usize_bits bc w ctx = run_instrs usize_bits l w ctx).
Proof.
  destruct (validate_structure bc (ctx_height ctx)) as [[]|e|] eqn:EV.
  - right. apply validate_structure_Ok in EV as (l & -> & W & B & HL).
    exists l. rewrite execute_script_asm by assumption. auto.
  - left. exists e. unfold execute_script. rewrite EV. auto.
  - contradiction (validate_structure_safe _ _ EV).
Qed.

(** C10: the resource limits hold in every state of an execution: at most 64 items
    of at most 1,536 bytes on the stack, at most 3 signature operations counted,
    the program counter inside the script, and no more open conditionals than the
    script has bytes. *)
Theorem vm_resource_bounds bc w ctx vm :
  validate_structure bc (ctx_height ctx) = Ok () ->
  reaches bc w ctx vm ->
  (length (stack vm) <= MAX_STACK_DEPTH)%nat
  /\ Forall (fun x => (length x <= MAX_ITEM_SIZE)%nat) (stack vm)
  /\ (sigop_count vm <= MAX_SIGOPS_PER_SCRIPT)%nat
  /\ (pc vm <= length bc)%nat
  /\ (length (exec_stack vm) <= length bc - pc vm)%nat.
Proof.
  intros EV HR. apply validate_structure_Ok in EV as (l & -> & W & B & HL).
  destruct (reaches_boundary _ _ _ _ W B HR) as (done & todo & -> & EP & EB & [HS HF] & _ & HN).
  apply balanced_depth in EB. pose proof (asm_length todo).
  rewrite EP, asm_app, length_app. repeat split; auto; lia.
Qed.

End Reach.

(** * The width of [usize] *)

Section Width.
Context `{Blake3}.
Context (us us' : Z).
Context (HU : 16 <= us) (HU' : 16 <= us').

Lemma wrap_small w z : 16 <= w -> 0 <= z <= Z.of_nat MAX_ITEM_SIZE -> wrap w z = z.
Proof.
  intros Hw Hz. assert (2 ^ 16 <= 2 ^ w) by (apply Z.pow_le_mono_r; lia).
  unfold MAX_ITEM_SIZE in Hz. apply Z.mod_small. lia.
Qed.

Lemma exec_op_width ctx o st :
  stack_ok st -> o <> OP_PICK -> exec_op us ctx o st = exec_op us' ctx o st.
Proof.
  intros HS HN. destruct o; try reflexivity; [|contradiction]. cbn [exec_op exec_ctx_op].
  apply res_bind_ext. intros [x st1] E1. apply stack_pop_Ok in E1. subst.
  apply res_bind_ext. intros len L1. apply to_u64_range in L1.
  apply res_bind_ext. intros [y st2] E2. apply stack_pop_Ok in E2. subst.
  apply res_bind_ext. intros off L2. apply to_u64_range in L2.
  apply res_bind_ext. intros [z st3] E3. apply stack_pop_Ok in E3. subst.
  apply res_bind_ext. intros e E4. apply ok_or_Ok, checked_add_Some in E4 as [-> _].
  apply res_bind_ext. intros [] E5. apply bail_if_Ok, Z.ltb_ge in E5.
  destruct HS as [_ HF]. rewrite !Forall_cons in HF. destruct HF as (_ & _ & HZ & _).
  unfold in_u in *. rewrite !wrap_small by lia. reflexivity.
Qed.

Lemma exec_instrs_width ctx l : forall d s,
  Forall instr_wf l -> balanced d l = true -> Op OP_PICK ∉ l -> istate_ok d s ->
  exec_instrs us ctx l s = exec_instrs us' ctx l s.
Proof.
  induction l as [|i l IH]; intros d s W B HN HS; [reflexivity|]. cbn [exec_instrs].
  inversion W; subst. cbn [balanced] in B. destruct (depth_after d i) as [d'|] eqn:ED; [|discriminate].
  apply not_elem_of_cons in HN as [HN1 HN2].
  replace (exec_instr us' ctx i s) with (exec_instr us ctx i s).
  - apply res_bind_ext. intros s' HX. eapply IH; eauto using exec_instr_ok.
  - destruct s as [[st es] n], HS as (HS & _). destruct i as [|o]; [reflexivity|].
    destruct o; try reflexivity; cbn [exec_instr]; apply res_bind_ext; intros n' _;
      destruct (all_true es); try reflexivity;
      (rewrite exec_op_width by (exact HS || discriminate || (intros _; apply HN1; reflexivity)); reflexivity).
Qed.

(** The result of a script does not depend on the width of [usize] of the
    machine that runs it, as long as it does not use [OP_PICK]. *)
Lemma width_independent l w ctx :
  Forall instr_wf l -> balanced 0 l = true -> (length (asm l) <= MAX_SCRIPT_SIZE)%nat ->
  Op OP_PICK ∉ l ->
  execute_script us (asm l) w ctx = execute_script us' (asm l) w ctx.
Proof.
  intros W B HL HN. rewrite !execute_script_asm by assumption. unfold run_instrs.
  apply res_bind_ext. intros st HP.
  rewrite (exec_instrs_width ctx l 0 (st, [], 0%nat)); auto.
  split; [eapply push_witness_ok, HP|]. simpl. lia.
Qed.

End Width.

(** A small concrete execution: 2 + 3 >= 5. *)
Definition demo_ctx : ExecContext :=
  {| commitment := zero_arr 32; ctx_height := 100; outputs := []; input_value := 7;
     input_state := None; this_address := zero_arr 32 |}.

Definition demo_bc : bytes :=
  asm [Push [x03]; Op OP_ADD; Push [x05]; Op OP_GREATER_OR_EQUAL].

Lemma execute_script_total_witness :
  let H := toy_blake3 in
  execute_script 64 demo_bc [[x02]] demo_ctx = Ok ()
  /\ execute_script 64 demo_bc [[x02]] demo_ctx <> Panic.
Proof. split; [vm_compute; reflexivity|]. apply execute_script_total. lia. Defined.

Lemma vm_resource_bounds_witness :
  let H := toy_blake3 in
  (length (stack (mkVM [[x02]] 0 [] 0)) <= MAX_STACK_DEPTH)%nat.
Proof.
  intros H.
  apply (vm_resource_bounds 64 demo_bc [[x02]] demo_ctx (mkVM [[x02]] 0 [] 0)).
  - vm_compute. reflexivity.
  - apply reaches_init. vm_compute. reflexivity.
Defined.

(** [OP_PICK] casts its operand to [usize] before checking it, so a depth of
    2^32 underflows the stack on a 64-bit node and picks the top item on a 32-bit
    one: the two disagree on the validity of the same spend. *)
Lemma op_pick_depends_on_width `{Blake3} ctx :
  let bc := asm [Push [x01]; Push [x00; x00; x00; x00; x01]; Op OP_PICK; Op OP_EQUALVERIFY;
                 Push [x01]] in
  execute_script 64 bc [] ctx = Err StackUnderflow /\ execute_script 32 bc [] ctx = Ok ().
Proof. split; reflexivity. Qed.

Lemma width_independent_witness :
  let H := toy_blake3 in
  execute_script 64 demo_bc [[x02]] demo_ctx = execute_script 32 demo_bc [[x02]] demo_ctx.
Proof.
  intros H. apply width_independent; try lia.
  - repeat constructor; discriminate.
  - reflexivity.
  - apply Nat.leb_le. reflexivity.
  - rewrite !not_elem_of_cons. repeat split; try discriminate. apply not_elem_of_nil.
Defined.
