(* ===== verification/Templates.v ===== *)
(** What the standard scripts of [src/core/script.rs] mean: for each template, the
    exact set of witnesses (and transaction contexts) that satisfy it, derived
    from the machine through a weakest-precondition calculus on instructions. *)
From S2P Require Import Prelude Bytecode Types Wots Mss Script Instr.

#[local] Open Scope Z_scope.

Section WP.
Context `{Blake3}.
Context (usize_bits : Z).

(** The verdict of a signature check. *)
Definition sig_ok (sig : bytes) (m : hash32) (pk : bytes) : bool :=
  match verify_signature sig m pk with Ok b => b | _ => false end.

Lemma verify_signature_sig_ok sig m pk : verify_signature sig m pk = Ok (sig_ok sig m pk).
Proof.
  unfold sig_ok. pose proof (verify_signature_safe sig m pk) as HS. revert HS.
  unfold verify_signature. destruct (negb _); [reflexivity|].
  destruct (try_arr 32 pk) as [a|]; cbn [unwrap mbind res_bind]; [|congruence].
  destruct (Nat.eqb _ _); [destruct (sig_from_bytes sig); reflexivity|].
  destruct (mss_from_bytes sig); [reflexivity..|congruence].
Qed.

(** What the spending transaction pays to an address; [None] on overflow. *)
Definition paid_to (ctx : ExecContext) (addr : bytes) : option Z :=
  checked_sum 64 0 (map output_value
    (List.filter (fun out => bool_decide (arr_list (output_address out) = addr)) (outputs ctx))).

Definition wp_push (d : bytes) (st : Stack) (Q : Stack -> Prop) : Prop :=
  (length d <= MAX_ITEM_SIZE)%nat /\ (length st < MAX_STACK_DEPTH)%nat /\ Q (d :: st).

Definition wp_op (ctx : ExecContext) (o : Opcode) (st : Stack) (Q : Stack -> Prop) : Prop :=
  match o with
  | OP_DROP => match st with _ :: st => Q st | _ => False end
  | OP_SWAP => match st with a :: b :: st => Q (b :: a :: st) | _ => False end
  | OP_HASH => match st with x :: st => wp_push (hash x) st Q | _ => False end
  | OP_EQUALVERIFY => match st with b :: a :: st => a = b /\ Q st | _ => False end
  | OP_VERIFY => match st with x :: st => is_true x = true /\ Q st | _ => False end
  | OP_ADD =>
      match st with
      | b :: a :: st => (length a <= 8)%nat /\ (length b <= 8)%nat
          /\ le_val a + le_val b <= umax 64 /\ wp_push (from_u64 (le_val a + le_val b)) st Q
      | _ => False
      end
  | OP_GREATER_OR_EQUAL =>
      match st with
      | b :: a :: st => (length a <= 8)%nat /\ (length b <= 8)%nat
          /\ wp_push (bool_item (le_val b <=? le_val a)) st Q
      | _ => False
      end
  | OP_CHECKSIG =>
      match st with
      | pk :: sig :: st => wp_push (bool_item (sig_ok sig (commitment ctx) pk)) st Q
      | _ => False
      end
  | OP_CHECKSIGVERIFY =>
      match st with
      | pk :: sig :: st => sig_ok sig (commitment ctx) pk = true /\ Q st
      | _ => False
      end
  | OP_CHECKTIMEVERIFY =>
      match st with
      | x :: st => (length x <= 8)%nat /\ le_val x <= ctx_height ctx /\ Q st
      | _ => False
      end
  | OP_SUM_TO_ADDR =>
      match st with
      | x :: st => length x = 32%nat /\
          match paid_to ctx x with Some s => wp_push (from_u64 s) st Q | None => False end
      | _ => False
      end
  | OP_INPUT_VALUE => wp_push (from_u64 (input_value ctx)) st Q
  | OP_THIS_ADDRESS => wp_push (this_address ctx) st Q
  | _ => exists st', exec_op usize_bits ctx o st = Ok st' /\ Q st'
  end.

Fixpoint wp (ctx : ExecContext) (l : list instr) (st : Stack) (es : list bool) (n : nat) : Prop :=
  match l with
  | [] => st = [[x01]]
  | Push d :: l =>
      if all_true es then wp_push d st (fun st => wp ctx l st es n) else wp ctx l st es n
  | Op OP_IF :: l =>
      if all_true es then
        match st with
        | c :: st => (length es < MAX_STACK_DEPTH)%nat /\
            if is_true c then wp ctx l st (true :: es) n else wp ctx l st (false :: es) n
        | [] => False
        end
      else wp ctx l st (false :: es) n
  | Op OP_ELSE :: l =>
      match es with
      | [] => False
      | e :: ps => wp ctx l st ((if Nat.leb (length es) 1 || all_true ps then negb e else e) :: ps) n
      end
  | Op OP_ENDIF :: l => match es with [] => False | _ :: es => wp ctx l st es n end
  | Op o :: l =>
      if all_true es then
        if is_sigop (Some o) then
          (S n <= MAX_SIGOPS_PER_SCRIPT)%nat /\ wp_op ctx o st (fun st => wp ctx l st es (S n))
        else wp_op ctx o st (fun st => wp ctx l st es n)
      else wp ctx l st es n
  end.

Lemma wp_push_iff d st Q : wp_push d st Q <-> exists st', stack_push st d = Ok st' /\ Q st'.
Proof.
  unfold wp_push. setoid_rewrite stack_push_Ok. split.
  - intros (H1 & H2 & HQ). eauto.
  - intros (st' & (-> & H1 & H2) & HQ). auto.
Qed.

Lemma filter_addr_ext (addr : hash32) outs :
  List.filter (fun out => bool_decide (output_address out = addr)) outs
  = List.filter (fun out => bool_decide (arr_list (output_address out) = addr)) outs.
Proof.
  apply List.filter_ext. intros o. apply bool_decide_ext. split; [intros ->; reflexivity|apply arr_eq].
Qed.

Lemma exists_Ok {E A} (a : A) (Q : A -> Prop) : (exists x, Ok (E := E) a = Ok x /\ Q x) <-> Q a.
Proof. split; [intros (? & [= <-] & HQ); exact HQ|eauto]. Qed.

Lemma exists_Err {E A} (e : E) (Q : A -> Prop) : (exists x, Err e = Ok x /\ Q x) <-> False.
Proof. split; [intros (? & [=] & _)|tauto]. Qed.

Lemma exists_bind {E A B} (m : res E A) (f : A -> res E B) (Q : B -> Prop) :
  (exists x, (m ≫= f) = Ok x /\ Q x) <-> (exists a, m = Ok a /\ exists x, f a = Ok x /\ Q x).
Proof.
  setoid_rewrite res_bind_Ok. split.
  - intros (x & (a & H1 & H2) & HQ). eauto.
  - intros (a & H1 & x & H2 & HQ). eauto 6.
Qed.

Lemma exists_bail {E} c (e : E) (Q : () -> Prop) :
  (exists x, bail_if c e = Ok x /\ Q x) <-> c = false /\ Q ().
Proof. setoid_rewrite bail_if_Ok. split; [intros ([] & ? & ?); auto|intros [? ?]; exists (); auto]. Qed.

Lemma exists_ok_or {E A} (e : E) (o : option A) (Q : A -> Prop) :
  (exists x, ok_or e o = Ok x /\ Q x) <-> match o with Some a => Q a | None => False end.
Proof. setoid_rewrite ok_or_Ok. destruct o; naive_solver. Qed.

Lemma exists_to_u64 x (Q : Z -> Prop) :
  (exists v, to_u64 x = Ok v /\ Q v) <-> (length x <= 8)%nat /\ Q (le_val x).
Proof. setoid_rewrite to_u64_Ok. naive_solver. Qed.

Ltac wp_rw :=
  cbn [stack_pop mbind res_bind];
  rewrite ?exists_bind, ?exists_Err, ?exists_Ok, ?exists_to_u64, ?exists_bail, ?exists_ok_or;
  cbv beta.

Lemma wp_op_iff ctx o st Q :
  wp_op ctx o st Q <-> exists st', exec_op usize_bits ctx o st = Ok st' /\ Q st'.
Proof.
  destruct o; cbn [wp_op exec_op exec_ctx_op]; try reflexivity.
  - destruct st; do 3 wp_rw; reflexivity.
  - destruct st as [|a [|b st]]; do 3 wp_rw; reflexivity.
  - destruct st; do 4 wp_rw; [tauto|]. rewrite negb_false_iff. tauto.
  - destruct st as [|a [|b st]]; do 6 wp_rw; try tauto.
    rewrite negb_false_iff, bool_decide_eq_true. tauto.
  - destruct st as [|b [|a st]]; do 8 wp_rw; try tauto.
    unfold checked_add. rewrite wp_push_iff. destruct (Z.leb_spec (le_val a + le_val b) (umax 64));
      [tauto|]. split; [lia|tauto].
  - destruct st as [|b [|a st]]; do 8 wp_rw; try tauto. rewrite wp_push_iff. tauto.
  - destruct st; do 3 wp_rw; [tauto|]. apply wp_push_iff.
  - destruct st as [|pk [|sig st]]; do 4 wp_rw; try tauto.
    rewrite verify_signature_sig_ok. do 2 wp_rw. apply wp_push_iff.
  - destruct st as [|pk [|sig st]]; do 4 wp_rw; try tauto.
    rewrite verify_signature_sig_ok. do 3 wp_rw. rewrite negb_false_iff. tauto.
  - destruct st; do 5 wp_rw; [tauto|]. rewrite Z.ltb_ge. tauto.
  - destruct st as [|x st]; do 3 wp_rw; [tauto|]. rewrite negb_false_iff, Nat.eqb_eq.
    unfold paid_to, try_arr. split.
    + intros [E HQ]. split; [exact E|]. rewrite (proj2 (Nat.eqb_eq _ _) E). cbn [unwrap].
      do 3 wp_rw. rewrite filter_addr_ext, arr_of_id by exact E.
      destruct (checked_sum _ _ _); [apply wp_push_iff, HQ|exact HQ].
    + intros [E HQ]. split; [exact E|]. rewrite (proj2 (Nat.eqb_eq _ _) E) in HQ.
      cbn [unwrap] in HQ. revert HQ. do 3 wp_rw. rewrite filter_addr_ext, arr_of_id by exact E.
      destruct (checked_sum _ _ _); [apply wp_push_iff|tauto].
  - apply wp_push_iff.
  - apply wp_push_iff.
Qed.

Lemma check_final_Ok st : check_final st = Ok () <-> st = [[x01]].
Proof.
  destruct st as [|x [|]]; simpl; try (split; discriminate).
  case_bool_decide; subst; split; congruence.
Qed.

(** An instruction other than the conditionals: a step that yields a stack. *)
Lemma exists_stack (m : res ScriptError Stack) ctx l es n (R : Stack -> Prop) :
  (forall st, R st <->
     exists r, exec_instrs usize_bits ctx l (st, es, n) = Ok r /\ r.1.1 = [[x01]]) ->
  (exists st, m = Ok st /\ R st) <->
  exists a, (st ← m; Ok (st, es, n)) = Ok a
    /\ exists r, exec_instrs usize_bits ctx l a = Ok r /\ r.1.1 = [[x01]].
Proof.
  intros HR. rewrite exists_bind. split; intros (st & E & HX); exists st; (split; [exact E|]).
  - rewrite exists_Ok. apply HR, HX.
  - rewrite exists_Ok in HX. apply HR. exact HX.
Qed.

Definition plain (o : Opcode) : bool :=
  match o with OP_IF | OP_ELSE | OP_ENDIF => false | _ => true end.

Lemma wp_plain ctx l o st es n :
  plain o = true ->
  (forall st n, wp ctx l st es n <->
     exists r, exec_instrs usize_bits ctx l (st, es, n) = Ok r /\ r.1.1 = [[x01]]) ->
  wp ctx (Op o :: l) st es n <->
  exists r, exec_instrs usize_bits ctx (Op o :: l) (st, es, n) = Ok r /\ r.1.1 = [[x01]].
Proof.
  intros HP IH.
  assert (wp ctx (Op o :: l) st es n =
    if all_true es then
      if is_sigop (Some o) then
        (S n <= MAX_SIGOPS_PER_SCRIPT)%nat /\ wp_op ctx o st (fun st => wp ctx l st es (S n))
      else wp_op ctx o st (fun st => wp ctx l st es n)
    else wp ctx l st es n) as -> by (destruct o; try discriminate HP; reflexivity).
  assert (exec_instrs usize_bits ctx (Op o :: l) (st, es, n) =
    (s ← (n ← count_sigop (all_true es) (Some o) n;
          if all_true es then st ← exec_op usize_bits ctx o st; Ok (st, es, n)
          else Ok (st, es, n));
     exec_instrs usize_bits ctx l s)) as -> by (destruct o; try discriminate HP; reflexivity).
  rewrite exists_bind. unfold count_sigop. destruct (all_true es).
  - rewrite andb_true_r. destruct (is_sigop _); rewrite wp_op_iff; cbn [mbind res_bind].
    + destruct (Nat.ltb_spec MAX_SIGOPS_PER_SCRIPT (S n)) as [HN|HN]; cbn [bail_if mbind res_bind].
      * rewrite exists_Err. split; [intros [? _]; lia|tauto].
      * rewrite <- (exists_stack _ ctx l es (S n) (fun st => wp ctx l st es (S n))) by auto. tauto.
    + apply (exists_stack _ ctx l es n (fun st => wp ctx l st es n)). auto.
  - rewrite andb_false_r. cbn [mbind res_bind]. rewrite exists_Ok. apply IH.
Qed.

Lemma wp_iff ctx l : forall st es n,
  wp ctx l st es n <->
  exists r, exec_instrs usize_bits ctx l (st, es, n) = Ok r /\ r.1.1 = [[x01]].
Proof.
  induction l as [|i l IH]; intros st es n; [cbn [wp exec_instrs]; rewrite exists_Ok; reflexivity|].
  destruct i as [d|o]; [|destruct (plain o) eqn:HP; [apply wp_plain; auto|]].
  - cbn [wp exec_instrs exec_instr]. rewrite exists_bind. destruct (all_true es).
    + rewrite wp_push_iff. apply (exists_stack _ ctx l es n (fun st => wp ctx l st es n)). auto.
    + rewrite exists_Ok. apply IH.
  - destruct o; try discriminate HP; cbn [wp exec_instrs exec_instr]; rewrite !exists_bind.
    + unfold exec_if. destruct (all_true es).
      * destruct st as [|c st]; cbn [stack_pop mbind res_bind]; [rewrite exists_Err; tauto|].
        rewrite exists_bind, exists_bail, exists_Ok, exists_Ok, Nat.ltb_ge.
        simpl length. rewrite <- IH. destruct (is_true c); split; intros [? ?]; split; auto; lia.
      * rewrite exists_Ok, exists_Ok. apply IH.
    + unfold exec_else. destruct es as [|e es]; [rewrite exists_Err; tauto|].
      destruct (_ || _); rewrite exists_Ok, exists_Ok; apply IH.
    + unfold exec_endif. destruct es as [|e es]; [rewrite exists_Err; tauto|].
      rewrite exists_Ok, exists_Ok. apply IH.
Qed.

Lemma run_instrs_wp ctx l w :
  run_instrs usize_bits l w ctx = Ok () <->
  Forall (fun x => (length x <= MAX_ITEM_SIZE)%nat) w /\ (length w <= MAX_STACK_DEPTH)%nat
  /\ wp ctx l (rev w) [] 0.
Proof.
  unfold run_instrs. rewrite res_bind_Ok. setoid_rewrite push_witness_spec.
  setoid_rewrite app_nil_r. rewrite wp_iff. split.
  - intros (st & (-> & HF & HL) & HR). apply res_bind_Ok in HR as ([[st es] n] & HX & HC).
    apply check_final_Ok in HC as ->. split; [exact HF|]. split; [|eauto].
    destruct HL as [->|HL]; simpl in *; lia.
  - intros (HF & HL & [[st es] n] & HX & E). simpl in E. subst st. eexists.
    split; [split; [reflexivity|]; split; [exact HF|right; simpl; lia]|].
    apply res_bind_Ok. eexists. split; [exact HX|]. reflexivity.
Qed.

End WP.

(** * The templates as instruction lists *)

Definition i_p2pk (pk : hash32) : list instr :=
  [Push pk; Op OP_CHECKSIGVERIFY; Push (from_u64 1)].

Definition i_refund (timeout : Z) (refund_pk : hash32) : list instr :=
  [Op OP_ELSE; Op OP_DROP; Push (from_u64 timeout); Op OP_CHECKTIMEVERIFY;
   Push refund_pk; Op OP_CHECKSIGVERIFY; Op OP_ENDIF; Push (from_u64 1)].

Definition i_htlc (secret_hash receiver_pk : hash32) (timeout : Z) (refund_pk : hash32)
    : list instr :=
  [Op OP_IF; Op OP_HASH; Push secret_hash; Op OP_EQUALVERIFY; Push receiver_pk;
   Op OP_CHECKSIGVERIFY] ++ i_refund timeout refund_pk.

Definition i_covenant_htlc (secret_hash receiver_addr : hash32) (min_payout timeout : Z)
    (refund_pk : hash32) : list instr :=
  [Op OP_IF; Op OP_HASH; Push secret_hash; Op OP_EQUALVERIFY; Push receiver_addr;
   Op OP_SUM_TO_ADDR; Push (from_u64 min_payout); Op OP_GREATER_OR_EQUAL; Op OP_VERIFY]
  ++ i_refund timeout refund_pk.

Definition i_limit_order (secret_hash : hash32) (max_claim timeout : Z) (refund_pk : hash32)
    : list instr :=
  [Op OP_IF; Op OP_HASH; Push secret_hash; Op OP_EQUALVERIFY; Op OP_THIS_ADDRESS;
   Op OP_SUM_TO_ADDR; Push (from_u64 max_claim); Op OP_ADD; Op OP_INPUT_VALUE;
   Op OP_GREATER_OR_EQUAL; Op OP_VERIFY] ++ i_refund timeout refund_pk.

Definition i_2of2 (pk1 pk2 : hash32) : list instr :=
  [Push pk2; Op OP_CHECKSIG; Op OP_SWAP; Push pk1; Op OP_CHECKSIG; Op OP_ADD;
   Push (from_u64 2); Op OP_GREATER_OR_EQUAL].

Definition i_2of3 (pk1 pk2 pk3 : hash32) : list instr :=
  [Push pk3; Op OP_CHECKSIG; Op OP_SWAP; Push pk2; Op OP_CHECKSIG; Op OP_ADD; Op OP_SWAP;
   Push pk1; Op OP_CHECKSIG; Op OP_ADD; Push (from_u64 2); Op OP_GREATER_OR_EQUAL].

Lemma asm_nil : asm [] = [].
Proof. reflexivity. Qed.

Ltac compile_tac :=
  cbv beta zeta; unfold push_int; rewrite ?push_data_asm, ?push_op_asm;
  unfold i_p2pk, i_htlc, i_covenant_htlc, i_limit_order, i_2of2, i_2of3, i_refund; cbn [app];
  rewrite ?asm_cons, ?asm_nil, ?app_nil_r, <- ?app_assoc; reflexivity.

Lemma compile_p2pk_asm pk : compile_p2pk pk = asm (i_p2pk pk).
Proof. unfold compile_p2pk. compile_tac. Qed.

Lemma compile_htlc_asm s r t f : compile_htlc s r t f = asm (i_htlc s r t f).
Proof. unfold compile_htlc. compile_tac. Qed.

Lemma compile_covenant_htlc_asm s r m t f :
  compile_covenant_htlc s r m t f = asm (i_covenant_htlc s r m t f).
Proof. unfold compile_covenant_htlc. compile_tac. Qed.

Lemma compile_limit_order_asm s m t f :
  compile_limit_order_covenant s m t f = asm (i_limit_order s m t f).
Proof. unfold compile_limit_order_covenant. compile_tac. Qed.

Lemma compile_2of2_asm a b : compile_multisig_2of2 a b = asm (i_2of2 a b).
Proof. unfold compile_multisig_2of2. compile_tac. Qed.

Lemma compile_2of3_asm a b c : compile_multisig_2of3 a b c = asm (i_2of3 a b c).
Proof. unfold compile_multisig_2of3. compile_tac. Qed.

(** Sizes: every push of a template is a hash or an integer item. *)
Definition instr_small (i : instr) : bool :=
  match i with Push d => Nat.leb (length d) 32 | Op o => negb (bool_decide (op_byte o = x01)) end.

Lemma small_wf l : forallb instr_small l = true -> Forall instr_wf l.
Proof.
  intros HS. apply Forall_forall. intros i Hi.
  rewrite forallb_forall in HS. specialize (HS i ltac:(apply list_elem_of_In; exact Hi)).
  destruct i as [d|o]; simpl in *.
  - apply Nat.leb_le in HS. unfold MAX_ITEM_SIZE. lia.
  - intros ->. discriminate.
Qed.

Lemma small_size l : forallb instr_small l = true -> (length (asm l) <= 35 * length l)%nat.
Proof.
  induction l as [|i l IH]; cbn [forallb]; [simpl; lia|].
  rewrite andb_true_iff. intros [HS HL]. rewrite asm_cons, length_app. specialize (IH HL).
  destruct i as [d|o]; simpl in HS.
  - apply Nat.leb_le in HS. rewrite asm1_push_length, length_cons. lia.
  - simpl. lia.
Qed.

Lemma execute_small `{Blake3} us l w ctx :
  forallb instr_small l = true -> balanced 0 l = true -> (35 * length l <= MAX_SCRIPT_SIZE)%nat ->
  execute_script us (asm l) w ctx = Ok () <->
  Forall (fun x => (length x <= MAX_ITEM_SIZE)%nat) w /\ (length w <= MAX_STACK_DEPTH)%nat
  /\ wp us ctx l (rev w) [] 0.
Proof.
  intros HS HB HL. pose proof (small_size l HS).
  rewrite execute_script_asm by (auto using small_wf; lia). apply run_instrs_wp.
Qed.

Lemma arr32_small (a : hash32) : Nat.leb (length a) 32 = true.
Proof. rewrite arr_length. reflexivity. Qed.

Lemma from_u64_small v : Nat.leb (length (from_u64 v)) 32 = true.
Proof. apply Nat.leb_le. pose proof (from_u64_length v). lia. Qed.

Ltac small_tac :=
  cbn [i_p2pk i_htlc i_covenant_htlc i_limit_order i_2of2 i_2of3 i_refund app forallb instr_small];
  rewrite ?arr32_small, ?from_u64_small; reflexivity.

(** Compute the precondition of a template on the spender's stack. *)
Ltac wp_simpl :=
  cbn [wp wp_op all_true forallb is_sigop andb orb negb Nat.leb length app
       i_p2pk i_htlc i_covenant_htlc i_limit_order i_2of2 i_2of3 i_refund].

(** Name the items of the witness, bottom first. *)
Ltac witness_shape w :=
  let EW := fresh "EW" in
  destruct (rev w) as [|? [|? [|? [|? ?]]]] eqn:EW;
  apply (f_equal (@rev bytes)) in EW; rewrite rev_involutive in EW; cbn [rev app] in EW; subst w.

Lemma wp_push_small d st Q :
  Nat.leb (length d) 32 = true -> (length st < 64)%nat -> wp_push d st Q <-> Q (d :: st).
Proof.
  intros HD%Nat.leb_le HL. unfold wp_push, MAX_ITEM_SIZE, MAX_STACK_DEPTH.
  split; [tauto|]. intros HQ. repeat split; [lia|lia|exact HQ].
Qed.

Ltac item_small :=
  first [apply arr32_small | apply from_u64_small | reflexivity
        | match goal with |- context [bool_item ?b] => destruct b; reflexivity end].

(** Discharge the pushes of hashes, integers and booleans, which always fit. *)
Ltac wp_go :=
  repeat (rewrite wp_push_small by (item_small || (cbn [length]; lia)); wp_simpl; cbv beta).

(** A witness of the wrong length satisfies neither side. *)
Ltac wrong_shape :=
  split;
  [ intros (_ & _ & HW); exfalso; unfold wp_push in HW;
    repeat first
      [ contradiction | discriminate
      | match goal with
        | H : _ /\ _ |- _ => destruct H
        | H : match paid_to ?c ?a with Some _ => _ | None => _ end |- _ => destruct (paid_to c a)
        | H : (if ?b then _ else _) |- _ => destruct b
        end ]
  | intros HW; exfalso;
    repeat match goal with
      | H : _ /\ _ |- _ => destruct H
      | H : _ \/ _ |- _ => destruct H
      | H : exists _, _ |- _ => destruct H
      end;
    match goal with E : _ = _ :: _ |- _ =>
      apply (f_equal (@length bytes)) in E; rewrite ?length_app in E; cbn [length] in E; lia end ].

Lemma one_item : from_u64 1 = [x01].
Proof. reflexivity. Qed.

Lemma Forall_small (w : list bytes) :
  (length w <= 4)%nat ->
  (Forall (fun x => (length x <= MAX_ITEM_SIZE)%nat) w /\ (length w <= MAX_STACK_DEPTH)%nat)
  <-> Forall (fun x => (length x <= MAX_ITEM_SIZE)%nat) w.
Proof. intros HL. unfold MAX_STACK_DEPTH. split; [tauto|]. intros HF. split; [exact HF|lia]. Qed.

Lemma arr_list_iff {n} (a b : arr n) : arr_list a = arr_list b <-> a = b.
Proof. split; [apply arr_eq|intros ->; reflexivity]. Qed.

Lemma is_true_bool b : is_true (bool_item b) = b.
Proof. destruct b; reflexivity. Qed.

Lemma u64_item v : in_u 64 v -> le_val (from_u64 v) = v.
Proof. apply from_u64_val. Qed.

Lemma sum_item a b :
  0 <= a -> 0 <= b -> a + b <= umax 64 -> le_val (from_u64 (a + b)) = a + b.
Proof. intros. apply u64_item. unfold in_u, umax in *. lia. Qed.

Lemma u64_len v : (length (from_u64 v) <= 8)%nat.
Proof. apply from_u64_length. Qed.

(** After the shape is known: both sides are the same conjunction. *)
Ltac wp_norm :=
  wp_go; rewrite ?arr_list_iff, ?one_item, ?Forall_cons, ?u64_item, ?is_true_bool by assumption;
  unfold MAX_STACK_DEPTH, MAX_SIGOPS_PER_SCRIPT.

Ltac hyps :=
  repeat match goal with
    | H : _ /\ _ |- _ => destruct H
    | H : exists _, _ |- _ => destruct H
    end.

Ltac facts :=
  repeat split;
  solve [auto using u64_len | apply arr_length | lia | unfold MAX_ITEM_SIZE, MAX_STACK_DEPTH; cbn [length]; lia].

(** Output values are [u64]s. *)
Definition outputs_ok (ctx : ExecContext) : Prop :=
  Forall (fun o => in_u 64 (output_value o)) (outputs ctx).

Lemma paid_to_Some ctx addr s :
  outputs_ok ctx -> paid_to ctx addr = Some s -> in_u 64 s.
Proof.
  intros HO. unfold paid_to.
  assert (HP : Forall (Z.le 0) (map output_value (List.filter
    (fun out => bool_decide (arr_list (output_address out) = addr)) (outputs ctx)))).
  { apply Forall_map, Forall_forall. intros o Ho. apply list_elem_of_In, filter_In in Ho as [Ho _].
    unfold outputs_ok in HO. rewrite Forall_forall in HO. specialize (HO o ltac:(apply list_elem_of_In; exact Ho)).
    unfold in_u in HO. lia. }
  intros E. apply checked_sum_Some in E as [-> HB]; [|exact HP|unfold umax; lia].
  apply sumZ_nonneg in HP. unfold in_u, umax in *. lia.
Qed.

Ltac closed_facts :=
  repeat split;
  solve [ auto | reflexivity | apply Nat.leb_le; reflexivity | apply Z.leb_le; reflexivity ].

(** Signature counting: the verdicts are known, so the sums evaluate. *)
Ltac counted :=
  split;
  [ intros HW; hyps;
    try (match goal with E : [bool_item _] = _ |- _ => vm_compute in E; discriminate E end)
  | intros HW; hyps; simplify_eq; try congruence; try (cbn [Z.b2z] in *; lia) ].

Section Specs.
Context `{Blake3}.
Context (usize_bits : Z).

Abbreviation runs bc w ctx := (execute_script usize_bits bc w ctx = Ok ()).
Abbreviation small x := (length x <= MAX_ITEM_SIZE)%nat.

(** A P2PK script is satisfied exactly by one witness item that is a valid
    signature of the transaction's commitment under the key. *)
Lemma p2pk_spec pk w ctx :
  runs (compile_p2pk pk) w ctx <->
  exists sig, w = [sig] /\ small sig /\ sig_ok sig (commitment ctx) pk = true.
Proof.
  rewrite compile_p2pk_asm, execute_small; [|small_tac|reflexivity|apply Nat.leb_le; reflexivity].
  witness_shape w; wp_simpl; try wrong_shape.
  wp_go. rewrite one_item. unfold MAX_STACK_DEPTH, MAX_SIGOPS_PER_SCRIPT.
  split.
  - intros (HF & _ & _ & HS & _). inversion HF; subst. eauto.
  - intros (sig & [= <-] & HL & HS). repeat split; auto; lia.
Qed.

(** An HTLC is satisfied exactly by [[sig; x; c]] where either [c] selects the
    claim branch, [x] is the preimage of the hash lock and [sig] the receiver's
    signature, or [c] selects the refund branch, the time lock has expired and
    [sig] is the refunder's signature. *)
Lemma htlc_spec secret_hash receiver_pk timeout refund_pk w ctx :
  in_u 64 timeout ->
  runs (compile_htlc secret_hash receiver_pk timeout refund_pk) w ctx <->
  exists sig x c, w = [sig; x; c] /\ small sig /\ small x /\ small c /\
    if is_true c
    then hash x = secret_hash /\ sig_ok sig (commitment ctx) receiver_pk = true
    else timeout <= ctx_height ctx /\ sig_ok sig (commitment ctx) refund_pk = true.
Proof.
  intros HT. rewrite compile_htlc_asm, execute_small;
    [|small_tac|reflexivity|apply Nat.leb_le; reflexivity].
  witness_shape w; wp_simpl; try wrong_shape.
  destruct (is_true l) eqn:HC; wp_simpl; wp_norm; split; intros HW; hyps.
  - exists l1, l0, l. rewrite HC. facts.
  - simplify_eq. rewrite HC in *. hyps. facts.
  - exists l1, l0, l. rewrite HC. facts.
  - simplify_eq. rewrite HC in *. hyps. facts.
Qed.

(** A covenant HTLC is satisfied exactly by [[secret; c]] in a transaction that
    pays at least [min_payout] to the receiver's address, with no signature, or,
    after the timeout, by [[sig; x; c]] with the refunder's signature. *)
Lemma covenant_htlc_spec secret_hash receiver_addr min_payout timeout refund_pk w ctx :
  in_u 64 timeout -> in_u 64 min_payout -> outputs_ok ctx ->
  runs (compile_covenant_htlc secret_hash receiver_addr min_payout timeout refund_pk) w ctx <->
  (exists secret c, w = [secret; c] /\ small secret /\ small c /\ is_true c = true
     /\ hash secret = secret_hash
     /\ exists s, paid_to ctx receiver_addr = Some s /\ min_payout <= s)
  \/ (exists sig x c, w = [sig; x; c] /\ small sig /\ small x /\ small c /\ is_true c = false
     /\ timeout <= ctx_height ctx /\ sig_ok sig (commitment ctx) refund_pk = true).
Proof.
  intros HT HM HO. rewrite compile_covenant_htlc_asm, execute_small;
    [|small_tac|reflexivity|apply Nat.leb_le; reflexivity].
  witness_shape w; wp_simpl; try wrong_shape; destruct (is_true l) eqn:HC; wp_simpl; wp_norm.
  - destruct (paid_to ctx receiver_addr) as [s|] eqn:EP;
      [pose proof (paid_to_Some _ _ _ HO EP)|]; wp_norm;
      (split; [intros HW; hyps|intros [HW|HW]; hyps; simplify_eq]); try contradiction.
    + left. exists l0, l. apply Z.leb_le in H8. repeat split; auto. exists s. auto.
    + rewrite (proj2 (Z.leb_le _ _)) by lia. facts.
  - split; [intros HW; hyps; contradiction|intros [HW|HW]; hyps; simplify_eq; congruence].
  - destruct (paid_to ctx receiver_addr) as [s|] eqn:EP; wp_norm;
      (split; [intros HW; hyps; discriminate || contradiction
              |intros [HW|HW]; hyps; simplify_eq; congruence]).
  - split; [intros HW; hyps|intros [HW|HW]; hyps; simplify_eq]; [|facts].
    right. exists l1, l0, l. facts.
Qed.

Lemma limit_order_runs secret_hash max_claim timeout refund_pk w ctx :
  in_u 64 timeout -> in_u 64 max_claim -> in_u 64 (input_value ctx) -> outputs_ok ctx ->
  runs (compile_limit_order_covenant secret_hash max_claim timeout refund_pk) w ctx <->
  (exists secret c, w = [secret; c] /\ small secret /\ small c /\ is_true c = true
     /\ hash secret = secret_hash
     /\ exists s, paid_to ctx (this_address ctx) = Some s
          /\ s + max_claim <= umax 64 /\ input_value ctx <= s + max_claim)
  \/ (exists sig x c, w = [sig; x; c] /\ small sig /\ small x /\ small c /\ is_true c = false
     /\ timeout <= ctx_height ctx /\ sig_ok sig (commitment ctx) refund_pk = true).
Proof.
  intros HT HM HI HO. rewrite compile_limit_order_asm, execute_small;
    [|small_tac|reflexivity|apply Nat.leb_le; reflexivity].
  witness_shape w; wp_simpl; try wrong_shape; destruct (is_true l) eqn:HC; wp_simpl; wp_norm.
  - destruct (paid_to ctx (this_address ctx)) as [s|] eqn:EP;
      [pose proof (paid_to_Some _ _ _ HO EP)|]; wp_norm;
      (split; [intros HW; hyps|intros [HW|HW]; hyps; simplify_eq]); try contradiction.
    + rewrite sum_item in * by (unfold in_u in *; lia).
      left. exists l0, l. apply Z.leb_le in H11. repeat split; auto. exists s. auto.
    + rewrite sum_item by (unfold in_u in *; lia).
      rewrite (proj2 (Z.leb_le _ _)) by lia. facts.
  - split; [intros HW; hyps; contradiction|intros [HW|HW]; hyps; simplify_eq; congruence].
  - destruct (paid_to ctx (this_address ctx)) as [s|] eqn:EP; wp_norm;
      (split; [intros HW; hyps; discriminate || contradiction
              |intros [HW|HW]; hyps; simplify_eq; congruence]).
  - split; [intros HW; hyps|intros [HW|HW]; hyps; simplify_eq]; [|facts].
    right. exists l1, l0, l. facts.
Qed.

(** A limit-order covenant is satisfied exactly by [[secret; c]] in a
    transaction that pays back to the covenant's own address all but [max_claim] of
    the coin it spends, or, after the timeout, by the maker's signature. *)
Lemma limit_order_spec secret_hash max_claim timeout refund_pk w ctx :
  in_u 64 timeout -> in_u 64 max_claim -> in_u 64 (input_value ctx) -> outputs_ok ctx ->
  runs (compile_limit_order_covenant secret_hash max_claim timeout refund_pk) w ctx <->
  (exists secret c, w = [secret; c] /\ small secret /\ small c /\ is_true c = true
     /\ hash secret = secret_hash
     /\ exists s, paid_to ctx (this_address ctx) = Some s
          /\ s + max_claim <= umax 64 /\ input_value ctx <= s + max_claim)
  \/ (exists sig x c, w = [sig; x; c] /\ small sig /\ small x /\ small c /\ is_true c = false
     /\ timeout <= ctx_height ctx /\ sig_ok sig (commitment ctx) refund_pk = true).
Proof. apply limit_order_runs. Qed.

(** The 2-of-2 script is satisfied exactly by two signatures, the first (at the
    bottom of the stack) under the first key and the second under the second. *)
Lemma multisig_2of2_spec pk1 pk2 w ctx :
  runs (compile_multisig_2of2 pk1 pk2) w ctx <->
  exists s1 s2, w = [s1; s2] /\ small s1 /\ small s2
    /\ sig_ok s1 (commitment ctx) pk1 = true /\ sig_ok s2 (commitment ctx) pk2 = true.
Proof.
  rewrite compile_2of2_asm, execute_small; [|small_tac|reflexivity|apply Nat.leb_le; reflexivity].
  witness_shape w; wp_simpl; try wrong_shape.
  wp_norm. destruct (sig_ok l _ pk2) eqn:E2, (sig_ok l0 _ pk1) eqn:E1; counted.
  - exists l0, l. auto.
  - closed_facts.
Qed.

(** The 2-of-3 script is satisfied exactly by three items of which at least two
    are signatures under the key of their position. *)
Lemma multisig_2of3_spec pk1 pk2 pk3 w ctx :
  runs (compile_multisig_2of3 pk1 pk2 pk3) w ctx <->
  exists s1 s2 s3, w = [s1; s2; s3] /\ small s1 /\ small s2 /\ small s3
    /\ 2 <= Z.b2z (sig_ok s1 (commitment ctx) pk1) + Z.b2z (sig_ok s2 (commitment ctx) pk2)
            + Z.b2z (sig_ok s3 (commitment ctx) pk3).
Proof.
  rewrite compile_2of3_asm, execute_small; [|small_tac|reflexivity|apply Nat.leb_le; reflexivity].
  witness_shape w; wp_simpl; try wrong_shape.
  wp_norm. destruct (sig_ok l _ pk3) eqn:E3, (sig_ok l0 _ pk2) eqn:E2, (sig_ok l1 _ pk1) eqn:E1;
    counted.
  all: try (exists l1, l0, l; rewrite E1, E2, E3; closed_facts).
  all: try (match goal with B : 2 <= _ |- _ => rewrite E1, E2, E3 in B; cbn [Z.b2z] in B; lia end).
  all: closed_facts.
Qed.

End Specs.

(** * Concrete inputs *)

Definition a1 : hash32 := arr_of 32 [x0a].
Definition a2 : hash32 := arr_of 32 [x0b].

Definition pay_ctx : ExecContext :=
  {| commitment := zero_arr 32; ctx_height := 10; outputs := [Standard a1 50 a2; Standard a2 8 a1];
     input_value := 64; input_state := None; this_address := a2 |}.

Lemma htlc_spec_witness :
  let H := toy_blake3 in
  execute_script 64 (compile_htlc a1 a2 1000 a1) [[]; []; [x01]] pay_ctx = Ok () <->
  exists sig x c, [[]; []; [x01]] = [sig; x; c] /\ (length sig <= MAX_ITEM_SIZE)%nat
    /\ (length x <= MAX_ITEM_SIZE)%nat /\ (length c <= MAX_ITEM_SIZE)%nat /\
    if is_true c then hash x = a1 /\ sig_ok sig (commitment pay_ctx) a2 = true
    else 1000 <= ctx_height pay_ctx /\ sig_ok sig (commitment pay_ctx) a1 = true.
Proof. intros H. apply htlc_spec. split; [lia|reflexivity]. Defined.

Lemma pay_ctx_ok : outputs_ok pay_ctx.
Proof. repeat constructor; (reflexivity || discriminate). Qed.

Lemma covenant_htlc_spec_witness :
  let H := toy_blake3 in
  execute_script 64 (compile_covenant_htlc (hash [x07]) a1 45 1000 a2) [[x07]; [x01]] pay_ctx = Ok ().
Proof.
  intros H. apply covenant_htlc_spec; [split; [lia|reflexivity]..|exact pay_ctx_ok|].
  left. exists [x07], [x01]. repeat split; try (apply Nat.leb_le; reflexivity).
  exists 50. split; [vm_compute; reflexivity|lia].
Defined.

Lemma limit_order_spec_witness :
  let H := toy_blake3 in
  execute_script 64 (compile_limit_order_covenant (hash [x07]) 56 1000 a1) [[x07]; [x01]] pay_ctx
  = Ok ().
Proof.
  intros H. apply limit_order_spec; [split; [apply Z.leb_le; reflexivity|reflexivity]..|exact pay_ctx_ok|].
  left. exists [x07], [x01]. repeat split; try (apply Nat.leb_le; reflexivity).
  exists 8. split; [vm_compute; reflexivity|]. simpl. unfold umax. lia.
Defined.

(** * A signature for the examples

    A key whose digest under [tail_blake3] is itself: its chains stand still, and the
    signature made of it verifies for every message. *)

Definition same (b : byte) : hash32 := arr_of 32 (replicate 32 b).

Definition demo_signature (b : byte) : bytes := sig_to_bytes (replicate CHAINS (same b)).

Lemma chain_fixed `{Blake3} (x : hash32) n : hash x = x -> scalar_wots_chain x n = x.
Proof. intros E. induction n as [|n IH]; [reflexivity|]. cbn [scalar_wots_chain]. rewrite E. exact IH. Qed.

Lemma chains_fixed `{Blake3} (x : hash32) ns k : hash x = x -> length ns = k -> zip_with scalar_wots_chain (replicate k x) ns = replicate k x.
Proof.
  intros E <-. induction ns as [|n ns IH]; [reflexivity|]. cbn. rewrite (chain_fixed x n E), IH. reflexivity.
Qed.

Lemma same_signs b m : b ∈ [x02; x03; x06] -> @sig_ok tail_blake3 (demo_signature b) m (same b) = true.
Proof.
  intros Hb. assert (E : @hash tail_blake3 (same b) = same b /\ @compress tail_blake3 (replicate CHAINS (same b)) = same b).
  { repeat (apply elem_of_cons in Hb as [->|Hb]; [split; apply arr_eq; reflexivity|]). inversion Hb. }
  destruct E as [E1 E2]. unfold sig_ok, verify_signature, demo_signature.
  rewrite arr_length, try_arr_list, length_sig_to_bytes, Nat.eqb_refl by reflexivity. cbn [negb Nat.eqb unwrap mbind res_bind].
  rewrite sig_to_from_bytes by reflexivity. unfold verify. cbv zeta. apply bool_decide_eq_true.
  rewrite process_wots_batch_eq by (rewrite length_map, length_all_digits; reflexivity).
  rewrite chains_fixed by (exact E1 || (rewrite length_map, length_all_digits; reflexivity)). exact E2.
Qed.
