(* ===== verification/Mmr.v ===== *)
(** The Merkle Mountain Range of [src/core/mmr.rs]: node hashing, position
    arithmetic, append, root, proofs and their verification, against a reference
    semantics in terms of a forest of perfect trees.

    Positions and heights are below 2^63 and 63 (a position is an index of an
    in-memory vector), so they are modelled as [nat]. *)
From S2P Require Import Prelude Types.

Inductive MmrError : Type :=
  | PositionOutOfRange | NotALeaf | ClimbedToNonPeak.

Definition NODE_TAG : byte := x01.

Section NodeHash.
Context `{Blake3}.

Definition node_preimage (left right : hash32) (is_v2 : bool) : bytes :=
  (if is_v2 then [NODE_TAG] else []) ++ left ++ right.

Definition hash_node (left right : hash32) (is_v2 : bool) : hash32 :=
  blake3 (node_preimage left right is_v2).

End NodeHash.

(** * Position arithmetic *)

(** [(1u64 << h) - 1]. *)
Definition tree_size (h : nat) : nat := 2 ^ h - 1.

(** The first loop of [pos_height]: the smallest [h] with [pos < 2^(h+1) - 1]. *)
Fixpoint find_height (fuel h pos : nat) : nat :=
  match fuel with
  | O => h
  | S fuel => if tree_size (h + 1) <=? pos then find_height fuel (h + 1) pos else h
  end.

(** The second loop: [h -= 1] makes it structural. *)
Fixpoint descend (h pos : nat) : nat :=
  if pos =? 2 ^ (h + 1) - 2 then h
  else
    match h with
    | O => O
    | S h' =>
        let left_subtree_size := tree_size h in
        descend h' (if left_subtree_size <=? pos then pos - left_subtree_size else pos)
    end.

Definition pos_height (pos : nat) : nat := descend (find_height (S pos) 0 pos) pos.

(** [n.count_ones()]. *)
Fixpoint count_ones (fuel n : nat) : nat :=
  match fuel with
  | O => 0
  | S fuel => if n =? 0 then 0 else n mod 2 + count_ones fuel (n / 2)
  end.

Definition mmr_size (n : nat) : nat := if n =? 0 then 0 else 2 * n - count_ones n n.

(** The inner loop of [peaks], from [h = 1]. *)
Fixpoint peak_height (fuel h remaining : nat) : nat :=
  match fuel with
  | O => h
  | S fuel => if tree_size (h + 1) <=? remaining then peak_height fuel (h + 1) remaining else h
  end.

Fixpoint peaks_loop (fuel remaining offset : nat) (result : list nat) : list nat :=
  match fuel with
  | O => result
  | S fuel =>
      if 0 <? remaining then
        let size := tree_size (peak_height remaining 1 remaining) in
        if remaining <? size then result
        else peaks_loop fuel (remaining - size) (offset + size) (result ++ [offset + size - 1])
      else result
  end.

Definition peaks (size : nat) : list nat := peaks_loop size size 0 [].

(** * The structure *)

Record MerkleMountainRange : Type := mkMmr {
  nodes : list hash32;
  leaf_count : nat
}.

Record ProofElement : Type := mkProofElement { elem_hash : hash32; elem_is_right : bool }.

Record MmrProof : Type := mkMmrProof {
  leaf_pos : nat;
  siblings : list ProofElement;
  peak_hashes : list hash32;
  peak_index : nat;
  proof_mmr_size : nat
}.

Definition mmr_new : MerkleMountainRange := {| nodes := []; leaf_count := 0 |}.

Definition mmr_size_of (m : MerkleMountainRange) : nat := length (nodes m).

Definition mmr_get (m : MerkleMountainRange) (pos : nat) : option hash32 := nodes m !! pos.

Section Mmr.
Context `{Blake3}.

(** The merge cascade; [nodes[i]] aborts when [i] is out of bounds. *)
Fixpoint append_loop (fuel : nat) (ns : list hash32) (current_pos current_height : nat)
    (is_v2 : bool) : res MmrError (list hash32) :=
  match fuel with
  | O => Panic
  | S fuel =>
      let sibling_distance := tree_size (current_height + 1) in
      if current_pos <? sibling_distance then Ok ns
      else
        let left_pos := current_pos - sibling_distance in
        if negb (pos_height left_pos =? current_height) then Ok ns
        else
          l ← unwrap (ns !! left_pos);
          r ← unwrap (ns !! current_pos);
          let parent_pos := length ns in
          append_loop fuel (ns ++ [hash_node l r is_v2]) parent_pos (current_height + 1) is_v2
  end.

Definition mmr_append (leaf_hash : hash32) (is_v2 : bool) (m : MerkleMountainRange)
    : res MmrError (nat * MerkleMountainRange) :=
  let leaf_pos := length (nodes m) in
  ns ← append_loop (S (S (length (nodes m)))) (nodes m ++ [leaf_hash]) leaf_pos 0 is_v2;
  Ok (leaf_pos, {| nodes := ns; leaf_count := leaf_count m + 1 |}).

(** Fold the larger peaks into [acc], from the right. *)
Definition bag (acc : hash32) (larger : list hash32) (is_v2 : bool) : hash32 :=
  foldl (fun acc peak => hash_node peak acc is_v2) acc larger.

Fixpoint get_all (ns : list hash32) (ps : list nat) : res MmrError (list hash32) :=
  match ps with
  | [] => Ok []
  | p :: ps => x ← unwrap (ns !! p); rest ← get_all ns ps; Ok (x :: rest)
  end.

Definition mmr_root (m : MerkleMountainRange) (is_v2 : bool) : res MmrError hash32 :=
  let peak_positions := peaks (length (nodes m)) in
  match rev peak_positions with
  | [] => Ok (zero_arr 32)
  | last :: larger =>
      acc ← unwrap (nodes m !! last);
      hs ← get_all (nodes m) larger;
      Ok (bag acc hs is_v2)
  end.

Fixpoint prove_loop (fuel : nat) (ns : list hash32) (peak_positions : list nat)
    (pos height : nat) (sibs : list ProofElement)
    : res MmrError (nat * list ProofElement) :=
  match fuel with
  | O => Panic
  | S fuel =>
      if existsb (fun p => p =? pos) peak_positions then Ok (pos, sibs)
      else
        let right_sibling := pos + tree_size (height + 1) in
        if (right_sibling <? length ns) && (pos_height right_sibling =? height) then
          h ← unwrap (ns !! right_sibling);
          prove_loop fuel ns peak_positions (right_sibling + 1) (height + 1)
            (sibs ++ [{| elem_hash := h; elem_is_right := true |}])
        else
          left_sibling ← unwrap (if tree_size (height + 1) <=? pos
                                 then Some (pos - tree_size (height + 1)) else None);
          h ← unwrap (ns !! left_sibling);
          prove_loop fuel ns peak_positions (pos + 1) (height + 1)
            (sibs ++ [{| elem_hash := h; elem_is_right := false |}])
  end.

(** [iter().position(|&p| p == x)]. *)
Fixpoint position (x : nat) (l : list nat) : option nat :=
  match l with
  | [] => None
  | y :: l => if y =? x then Some 0 else S <$> position x l
  end.

Definition mmr_prove (m : MerkleMountainRange) (lp : nat) : res MmrError MmrProof :=
  let sz := length (nodes m) in
  _ ← bail_if (sz <=? lp) PositionOutOfRange;
  _ ← bail_if (negb (pos_height lp =? 0)) NotALeaf;
  let peak_positions := peaks sz in
  '(pos, sibs) ← prove_loop (S sz) (nodes m) peak_positions lp 0 [];
  idx ← ok_or ClimbedToNonPeak (position pos peak_positions);
  hs ← get_all (nodes m) peak_positions;
  Ok {| leaf_pos := lp; siblings := sibs; peak_hashes := hs; peak_index := idx;
        proof_mmr_size := sz |}.

Definition climb_proof (leaf_hash : hash32) (sibs : list ProofElement) (is_v2 : bool) : hash32 :=
  foldl (fun current elem =>
    if elem_is_right elem then hash_node current (elem_hash elem) is_v2
    else hash_node (elem_hash elem) current is_v2) leaf_hash sibs.

Definition verify_mmr_proof (leaf_hash : hash32) (proof : MmrProof) (expected_root : hash32)
    (is_v2 : bool) : bool :=
  match rev (peak_hashes proof), peak_hashes proof !! peak_index proof with
  | last :: larger, Some claimed =>
      let current := climb_proof leaf_hash (siblings proof) is_v2 in
      if negb (bool_decide (current = claimed)) then false
      else bool_decide (bag last larger is_v2 = expected_root)
  | _, _ => false
  end.

End Mmr.

(** * The height of every position *)

Lemma pow2_pos n : 1 <= 2 ^ n.
Proof. pose proof (Nat.pow_nonzero 2 n). lia. Qed.

(** Expose the powers of two around [n] to [lia]. *)
Ltac pow2 n :=
  pose proof (pow2_pos n); unfold tree_size in *;
  rewrite ?Nat.add_1_r, ?Nat.pow_succ_r' in *.

(** Heights of the nodes of a perfect tree in post-order. *)
Fixpoint heights (n : nat) : list nat :=
  match n with
  | O => [0]
  | S n => heights n ++ heights n ++ [S n]
  end.

Lemma length_heights n : length (heights n) = tree_size (n + 1).
Proof.
  induction n as [|n IH]; [reflexivity|].
  cbn [heights]. rewrite !length_app, IH. pow2 n. cbn [length]. lia.
Qed.

Lemma heights_S_lookup n j :
  heights (S n) !! j =
  if decide (j < tree_size (n + 1)) then heights n !! j
  else if decide (j < 2 * tree_size (n + 1)) then heights n !! (j - tree_size (n + 1))
  else if decide (j = 2 * tree_size (n + 1)) then Some (S n) else None.
Proof.
  cbn [heights]. pose proof (length_heights n) as HL.
  repeat case_decide.
  - rewrite lookup_app_l by lia. reflexivity.
  - rewrite lookup_app_r, lookup_app_l by lia. rewrite HL. reflexivity.
  - subst j. rewrite !lookup_app_r by lia. rewrite HL.
    replace (2 * tree_size (n + 1) - tree_size (n + 1) - tree_size (n + 1)) with 0 by lia.
    reflexivity.
  - apply lookup_ge_None. rewrite !length_app. simpl. lia.
Qed.

Lemma heights_root n : heights n !! (2 * tree_size n) = Some n.
Proof.
  destruct n as [|n]; [reflexivity|]. rewrite heights_S_lookup.
  replace (tree_size (S n)) with (tree_size (n + 1)) by (f_equal; lia).
  assert (1 <= tree_size (n + 1)) by (pow2 n; lia).
  repeat case_decide; first [lia|reflexivity].
Qed.

(** A node of height [h] cannot come before the first one. *)
Lemma heights_first n : forall j h, heights n !! j = Some h -> h <= n /\ 2 * tree_size h <= j.
Proof.
  induction n as [|n IH]; intros j h E.
  - destruct j; [injection E as <-; cbn; lia|discriminate].
  - rewrite heights_S_lookup in E. repeat case_decide.
    + destruct (IH _ _ E). lia.
    + destruct (IH _ _ E). lia.
    + injection E as <-. split; [lia|].
      replace (tree_size (S n)) with (tree_size (n + 1)) by (f_equal; lia). lia.
    + discriminate.
Qed.

Lemma heights_prefix n m j :
  n <= m -> j < tree_size (n + 1) -> heights m !! j = heights n !! j.
Proof.
  induction 1 as [|m HM IH]; intros Hj; [reflexivity|].
  assert (tree_size (n + 1) <= tree_size (m + 1)).
  { unfold tree_size. pose proof (Nat.pow_le_mono_r 2 (n + 1) (m + 1)). lia. }
  rewrite heights_S_lookup. rewrite decide_True by lia. apply IH, Hj.
Qed.

Lemma descend_spec h : forall pos,
  pos < tree_size (h + 1) -> heights h !! pos = Some (descend h pos).
Proof.
  induction h as [|h IH]; intros pos Hp.
  - cbn in Hp. replace pos with 0 by lia. reflexivity.
  - cbn [descend]. rewrite heights_S_lookup.
    assert (E1 : 2 ^ (S h + 1) - 2 = 2 * tree_size (h + 1)) by (pow2 h; lia).
    assert (E2 : tree_size (S h) = tree_size (h + 1)) by (f_equal; lia).
    assert (E3 : tree_size (S h + 1) = 2 * tree_size (h + 1) + 1) by (pow2 h; lia).
    rewrite E1, E2. rewrite E3 in Hp.
    destruct (Nat.eqb_spec pos (2 * tree_size (h + 1))) as [->|NE].
    + assert (1 <= tree_size (h + 1)) by (pow2 h; lia).
      repeat case_decide; first [lia|reflexivity].
    + destruct (Nat.leb_spec (tree_size (h + 1)) pos).
      * rewrite decide_False, decide_True by lia. apply IH. lia.
      * rewrite decide_True by lia. apply IH. lia.
Qed.

Lemma tree_size_gt h : h < tree_size (h + 1).
Proof. pose proof (Nat.pow_gt_lin_r 2 h). pow2 h. lia. Qed.

Lemma find_height_spec fuel : forall h pos,
  pos < h + fuel -> pos < tree_size (find_height fuel h pos + 1).
Proof.
  induction fuel as [|fuel IH]; intros h pos HF; cbn [find_height].
  - pose proof (tree_size_gt h). lia.
  - destruct (Nat.leb_spec (tree_size (h + 1)) pos); [apply IH; lia|assumption].
Qed.

Lemma pos_height_heights pos :
  exists n, pos < tree_size (n + 1) /\ heights n !! pos = Some (pos_height pos).
Proof.
  exists (find_height (S pos) 0 pos). pose proof (find_height_spec (S pos) 0 pos ltac:(lia)).
  split; [assumption|]. apply descend_spec. assumption.
Qed.

Lemma pos_height_spec n pos h : heights n !! pos = Some h -> pos_height pos = h.
Proof.
  intros E. assert (HL : pos < tree_size (n + 1))
    by (rewrite <- length_heights; eapply lookup_lt_Some, E).
  destruct (pos_height_heights pos) as (m & Hm & Em).
  destruct (Nat.le_ge_cases n m) as [L|L].
  - rewrite (heights_prefix n m) in Em by assumption. congruence.
  - rewrite (heights_prefix m n) in E by assumption. congruence.
Qed.

(** A right child at height [h] has no node of height [h] where a left child would
    have its sibling: the test in [prove] tells the two apart. *)
Lemma right_child_no_sibling n : forall p h,
  heights n !! p = Some h -> heights n !! (p + 1) = Some (h + 1) ->
  heights n !! (p + tree_size (h + 1)) <> Some h.
Proof.
  induction n as [|n IH]; intros p h E1 E2 E3.
  - apply lookup_lt_Some in E2. cbn in E2. lia.
  - set (s := tree_size (n + 1)) in *. assert (Hs : s = 2 ^ n + 2 ^ n - 1) by (unfold s; pow2 n; lia).
    pose proof (pow2_pos n).
    assert (HR : heights n !! (s - 1) = Some n).
    { replace (s - 1) with (2 * tree_size n) by (rewrite Hs; unfold tree_size; lia).
      apply heights_root. }
    pose proof (heights_first _ _ _ E1) as [_ F1]. pose proof (heights_first _ _ _ E2) as [_ F2].
    pose proof (heights_first _ _ _ E3) as [_ F3].
    rewrite heights_S_lookup in E1, E2, E3. fold s in E1, E2, E3.
    destruct (decide (p + 1 < s)) as [A|A].
    + rewrite decide_True in E1 by lia.
      destruct (decide (p + tree_size (h + 1) < s)) as [B|B]; [exact (IH p h E1 E2 E3)|].
      destruct (heights_first _ _ _ E2) as [L2 _].
      destruct (decide (p + tree_size (h + 1) < 2 * s)) as [B'|B'].
      * apply heights_first in E3 as [_ F]. revert F. pow2 h. lia.
      * destruct (decide _); [|discriminate]. injection E3 as <-. lia.
    + destruct (decide (p + 1 < 2 * s)) as [B|B].
      * destruct (decide (p = s - 1)) as [->|NE].
        { replace (s - 1 + 1 - s) with 0 in E2 by lia.
          apply heights_first in E2 as [_ F]. revert F. pow2 h. lia. }
        rewrite decide_False in E1 by lia. rewrite decide_True in E1 by lia.
        rewrite decide_False in E3 by lia.
        replace (p + 1 - s) with (p - s + 1) in E2 by lia.
        destruct (decide (p + tree_size (h + 1) < 2 * s)).
        -- replace (p + tree_size (h + 1) - s) with (p - s + tree_size (h + 1)) in E3 by lia.
           exact (IH _ _ E1 E2 E3).
        -- destruct (decide _); [|discriminate]. injection E3 as <-.
           apply heights_first in E1 as [L _]. lia.
      * destruct (decide (p + 1 = 2 * s)); [|discriminate]. injection E2 as E2.
        assert (h = n) as -> by lia.
        repeat case_decide; try lia; try discriminate; injection E3; lia.
Qed.

Lemma heights_pos_height n p : p < tree_size (n + 1) -> heights n !! p = Some (pos_height p).
Proof.
  intros Hp. rewrite <- length_heights in Hp. apply lookup_lt_is_Some_2 in Hp as [h E].
  rewrite E, (pos_height_spec n p h E). reflexivity.
Qed.

Lemma right_child_test p h :
  pos_height p = h -> pos_height (p + 1) = h + 1 -> pos_height (p + tree_size (h + 1)) <> h.
Proof.
  intros E1 E2 E3. assert (1 <= tree_size (h + 1)) by (pow2 h; lia).
  destruct (pos_height_heights (p + tree_size (h + 1))) as (n & Hn & E).
  apply (right_child_no_sibling n p h).
  - rewrite heights_pos_height, E1 by lia. reflexivity.
  - rewrite heights_pos_height, E2 by lia. reflexivity.
  - rewrite E, E3. reflexivity.
Qed.

(** * Perfect trees *)

Inductive ptree : Type :=
  | PLeaf (x : hash32)
  | PNode (l r : ptree).

Fixpoint perfect (n : nat) (t : ptree) : Prop :=
  match n, t with
  | O, PLeaf _ => True
  | S n, PNode l r => perfect n l /\ perfect n r
  | _, _ => False
  end.

Fixpoint leaves (t : ptree) : list hash32 :=
  match t with PLeaf x => [x] | PNode l r => leaves l ++ leaves r end.

Section Trees.
Context `{Blake3}.
Context (v2 : bool).

Fixpoint tree_root (t : ptree) : hash32 :=
  match t with PLeaf x => x | PNode l r => hash_node (tree_root l) (tree_root r) v2 end.

(** Post-order. *)
Fixpoint flat (t : ptree) : list hash32 :=
  match t with
  | PLeaf x => [x]
  | PNode l r => flat l ++ flat r ++ [hash_node (tree_root l) (tree_root r) v2]
  end.

Lemma length_flat n t : perfect n t -> length (flat t) = tree_size (n + 1).
Proof.
  revert t; induction n as [|n IH]; intros [x|l r]; cbn [perfect]; try contradiction; [reflexivity|].
  intros [Hl Hr]. cbn [flat]. rewrite !length_app, (IH _ Hl), (IH _ Hr). pow2 n. cbn [length]. lia.
Qed.

Lemma length_leaves n t : perfect n t -> length (leaves t) = 2 ^ n.
Proof.
  revert t; induction n as [|n IH]; intros [x|l r]; cbn [perfect]; try contradiction; [reflexivity|].
  intros [Hl Hr]. cbn [leaves]. rewrite !length_app, (IH _ Hl), (IH _ Hr). pow2 n. lia.
Qed.

Lemma flat_root n t : perfect n t -> flat t !! (2 * tree_size n) = Some (tree_root t).
Proof.
  intros HP. destruct t as [x|l r], n as [|n]; try contradiction HP; [reflexivity|].
  destruct HP as [Hl Hr]. cbn [flat tree_root]. rewrite app_assoc, lookup_app_r;
    rewrite length_app, (length_flat _ _ Hl), (length_flat _ _ Hr);
    replace (tree_size (S n)) with (tree_size (n + 1)) by (f_equal; lia); [|lia].
  replace (_ - _) with 0 by lia. reflexivity.
Qed.

(** How a node other than the root hangs in its tree: it is a left child whose
    sibling and parent follow, or a right child. *)
Definition left_child (t : ptree) (hs : list nat) (i h : nat) : Prop :=
  let d := tree_size (h + 1) in
  exists x y, flat t !! i = Some x /\ flat t !! (i + d) = Some y
    /\ hs !! (i + d) = Some h /\ hs !! (i + d + 1) = Some (h + 1)
    /\ flat t !! (i + d + 1) = Some (hash_node x y v2).

Definition right_child (t : ptree) (hs : list nat) (i h : nat) : Prop :=
  let d := tree_size (h + 1) in
  d <= i /\ exists x y, flat t !! i = Some x /\ flat t !! (i - d) = Some y
    /\ hs !! (i + 1) = Some (h + 1)
    /\ flat t !! (i + 1) = Some (hash_node y x v2).

Lemma child_step n t : forall i h,
  perfect n t -> heights n !! i = Some h -> i < 2 * tree_size n ->
  left_child t (heights n) i h \/ right_child t (heights n) i h.
Proof.
  revert t. induction n as [|n IH]; intros t i h HP E Hi; [cbn in Hi; lia|].
  destruct t as [|l r]; [contradiction|]. destruct HP as [Hl Hr].
  replace (tree_size (S n)) with (tree_size (n + 1)) in Hi by (f_equal; lia).
  set (s := tree_size (n + 1)) in *.
  assert (Hs : s = 2 * tree_size n + 1) by (unfold s; pow2 n; lia).
  pose proof (length_flat _ _ Hl) as Ll. pose proof (length_flat _ _ Hr) as Lr. fold s in Ll, Lr.
  pose proof (length_heights n) as Lh. fold s in Lh.
  cbn [heights] in E.
  unfold left_child, right_child. cbn [flat heights].
  set (hn := hash_node (tree_root l) (tree_root r) v2).
  destruct (decide (i < s)) as [A|A].
  - rewrite lookup_app_l in E by lia.
    destruct (decide (i < 2 * tree_size n)) as [B|B].
    + destruct (IH l i h Hl E B) as [(x & y & E1 & E2 & E3 & E4 & E5)|(HD & x & y & E1 & E2 & E3 & E4)].
      * left. exists x, y. pose proof (lookup_lt_Some _ _ _ E5). pose proof (lookup_lt_Some _ _ _ E4).
        rewrite !lookup_app_l by lia. auto.
      * right. split; [exact HD|]. exists x, y.
        pose proof (lookup_lt_Some _ _ _ E4). pose proof (lookup_lt_Some _ _ _ E3).
        rewrite !lookup_app_l by lia. auto.
    + assert (i = 2 * tree_size n) as -> by lia. rewrite heights_root in E. injection E as <-.
      fold s. left. exists (tree_root l), (tree_root r).
      rewrite lookup_app_l by lia. rewrite (flat_root _ _ Hl). split; [reflexivity|].
      rewrite lookup_app_r, lookup_app_l by lia.
      replace (2 * tree_size n + s - length (flat l)) with (2 * tree_size n) by lia.
      rewrite (flat_root _ _ Hr). split; [reflexivity|].
      rewrite lookup_app_r, lookup_app_l by lia. rewrite Lh.
      replace (2 * tree_size n + s - s) with (2 * tree_size n) by lia.
      split; [apply heights_root|].
      rewrite !lookup_app_r by lia. rewrite Lh, Ll, Lr.
      replace (2 * tree_size n + s + 1 - s - s) with 0 by lia.
      split; [simpl; f_equal; lia|reflexivity].
  - rewrite lookup_app_r, lookup_app_l in E by lia. rewrite Lh in E.
    destruct (decide (i - s < 2 * tree_size n)) as [B|B].
    + destruct (IH r (i - s) h Hr E B) as [(x & y & E1 & E2 & E3 & E4 & E5)|(HD & x & y & E1 & E2 & E3 & E4)].
      * left. exists x, y. pose proof (lookup_lt_Some _ _ _ E5). pose proof (lookup_lt_Some _ _ _ E4).
        rewrite !(lookup_app_r (flat l) (flat r ++ _)), !(lookup_app_r (heights n) (heights n ++ _)) by lia. rewrite Ll, Lh.
        rewrite !lookup_app_l by lia.
        replace (i + tree_size (h + 1) - s) with (i - s + tree_size (h + 1)) by lia.
        replace (i + tree_size (h + 1) + 1 - s) with (i - s + tree_size (h + 1) + 1) by lia. auto.
      * right. split; [lia|]. exists x, y.
        pose proof (lookup_lt_Some _ _ _ E4). pose proof (lookup_lt_Some _ _ _ E3).
        rewrite !(lookup_app_r (flat l) (flat r ++ _)), !(lookup_app_r (heights n) (heights n ++ _)) by lia. rewrite Ll, Lh.
        rewrite !lookup_app_l by lia.
        replace (i - tree_size (h + 1) - s) with (i - s - tree_size (h + 1)) by lia.
        replace (i + 1 - s) with (i - s + 1) by lia. auto.
    + assert (i = s + 2 * tree_size n) as -> by lia.
      replace (s + 2 * tree_size n - s) with (2 * tree_size n) in E by lia.
      rewrite heights_root in E. injection E as <-. fold s. right. split; [lia|].
      exists (tree_root r), (tree_root l).
      rewrite (lookup_app_r (flat l)), (lookup_app_l (flat r)) by lia.
      replace (s + 2 * tree_size n - length (flat l)) with (2 * tree_size n) by lia.
      rewrite (flat_root _ _ Hr). split; [reflexivity|].
      replace (s + 2 * tree_size n - s) with (2 * tree_size n) by lia.
      rewrite (lookup_app_l (flat l)) by lia. rewrite (flat_root _ _ Hl). split; [reflexivity|].
      rewrite !lookup_app_r by lia. rewrite Lh, Ll, Lr.
      replace (s + 2 * tree_size n + 1 - s - s) with 0 by lia. split; [simpl; f_equal; lia|reflexivity].
Qed.

End Trees.

(** * Forests of perfect trees, the smallest (rightmost) first *)

Abbreviation forest := (list (nat * ptree)).

Definition forest_ok (r : forest) : Prop :=
  StronglySorted (fun a b => a.1 < b.1) r /\ Forall (fun p => perfect p.1 p.2) r.

Fixpoint fheights (r : forest) : list nat :=
  match r with [] => [] | p :: r => fheights r ++ heights p.1 end.

Fixpoint fleaves (r : forest) : list hash32 :=
  match r with [] => [] | p :: r => fleaves r ++ leaves p.2 end.

(** Root positions, largest tree first. *)
Fixpoint fpeaks (r : forest) : list nat :=
  match r with
  | [] => []
  | p :: r => fpeaks r ++ [length (fheights r) + 2 * tree_size p.1]
  end.

Lemma forest_ok_tail p r : forest_ok (p :: r) -> forest_ok r.
Proof. intros [HS HP]. inversion HS; inversion HP; subst. split; assumption. Qed.

(** The numbering of a forest is the beginning of the numbering of one big tree. *)
Lemma forest_prefix r : forall k N,
  StronglySorted (fun a b => a.1 < b.1) r -> Forall (fun p => k <= p.1 < N) r -> k <= N ->
  fheights r ++ heights k `prefix_of` heights N.
Proof.
  assert (HP : forall k N, k <= N -> heights k `prefix_of` heights N).
  { intros k N HN. induction HN as [|N HN IH]; [reflexivity|].
    etransitivity; [exact IH|]. cbn [heights]. apply prefix_app_r. reflexivity. }
  induction r as [|[h t] r IH]; intros k N HS HF HN; [apply HP, HN|].
  inversion HS as [|? ? HS' HH]; inversion HF as [|? ? HK HF']; subst. cbn [fheights fst] in *.
  etransitivity; [|apply (IH (S h) N)].
  - rewrite <- app_assoc. apply prefix_app. cbn [heights]. apply prefix_app.
    apply prefix_app_r, HP. lia.
  - assumption.
  - rewrite Forall_forall in *. intros p Hp. specialize (HH p Hp). specialize (HF' p Hp).
    cbn in *. lia.
  - lia.
Qed.

Lemma forest_bound (r : forest) : exists N, Forall (fun p => p.1 < N) r.
Proof.
  induction r as [|[h t] r [N IH]]; [exists 0; constructor|]. exists (N + S h).
  constructor; [cbn; lia|]. eapply Forall_impl; [exact IH|]. cbn. lia.
Qed.

Lemma forest_pos_height r k p h :
  StronglySorted (fun a b => a.1 < b.1) r -> Forall (fun q => k <= q.1) r ->
  (fheights r ++ heights k) !! p = Some h -> pos_height p = h.
Proof.
  intros HS HK E. destruct (forest_bound r) as [N HN].
  apply (pos_height_spec (N + k)). eapply prefix_lookup_Some; [exact E|].
  apply forest_prefix; [exact HS| |lia]. rewrite Forall_forall in *. intros q Hq.
  specialize (HK q Hq). specialize (HN q Hq). cbn in *. lia.
Qed.

Lemma forest_pos_height_ok r p h :
  forest_ok r -> fheights r !! p = Some h -> pos_height p = h.
Proof.
  intros [HS _] E. apply (forest_pos_height r 0); [exact HS| |].
  - apply Forall_forall. intros. lia.
  - apply lookup_app_l_Some, E.
Qed.

Section Forests.
Context `{Blake3}.
Context (v2 : bool).

Fixpoint fflat (r : forest) : list hash32 :=
  match r with [] => [] | p :: r => fflat r ++ flat v2 p.2 end.

Fixpoint fcarry (r : forest) (h : nat) (t : ptree) : forest :=
  match r with
  | (h', t') :: r' => if h' =? h then fcarry r' (h + 1) (PNode t' t) else (h, t) :: r
  | [] => [(h, t)]
  end.

(** The forest of a sequence of leaves. *)
Definition forest_of (xs : list hash32) : forest :=
  foldl (fun r x => fcarry r 0 (PLeaf x)) [] xs.

Lemma length_fflat r :
  Forall (fun p => perfect p.1 p.2) r -> length (fflat r) = length (fheights r).
Proof.
  induction 1 as [|p r HP HF IH]; [reflexivity|]. cbn [fflat fheights].
  rewrite !length_app, IH, length_heights, (length_flat _ _ _ HP). reflexivity.
Qed.

Lemma fcarry_ok r : forall h t,
  forest_ok r -> Forall (fun q => h <= q.1) r -> perfect h t ->
  forest_ok (fcarry r h t) /\ fleaves (fcarry r h t) = fleaves r ++ leaves t
  /\ Forall (fun q => h <= q.1) (fcarry r h t).
Proof.
  induction r as [|[h' t'] r IH]; intros h t [HS HF] HH HP; cbn [fcarry].
  - split; [|split; [reflexivity|repeat constructor]].
    split; repeat constructor; assumption.
  - inversion HS as [|? ? HS' HL]; inversion HF as [|? ? HP' HF']; inversion HH as [|? ? HH' _];
      subst. cbn [fst snd] in *. destruct (Nat.eqb_spec h' h) as [->|NE].
    + destruct (IH (h + 1) (PNode t' t)) as (I1 & I2 & I3).
      * split; assumption.
      * eapply Forall_impl; [exact HL|]. cbn. lia.
      * rewrite Nat.add_1_r. split; assumption.
      * split; [exact I1|]. split; [rewrite I2; cbn [leaves fleaves snd]; rewrite app_assoc; reflexivity|].
        eapply Forall_impl; [exact I3|]. cbn. lia.
    + split; [|split; [reflexivity|]].
      * split; [|repeat constructor; assumption]. constructor; [assumption|].
        constructor; [cbn; lia|]. eapply Forall_impl; [exact HL|]. cbn. lia.
      * constructor; [cbn; lia|assumption].
Qed.

Lemma fflat_app_tree r h t :
  forest_ok r -> perfect h t ->
  (fflat r ++ flat v2 t) !! (length (fflat r) + 2 * tree_size h) = Some (tree_root v2 t).
Proof.
  intros _ HP. rewrite lookup_app_r by lia.
  replace (length (fflat r) + _ - _) with (2 * tree_size h) by lia. apply flat_root, HP.
Qed.

(** The merge cascade of [append] is the carry of a binary counter. *)
Lemma append_loop_carry r : forall fuel h t pos,
  forest_ok r -> Forall (fun q => h <= q.1) r -> perfect h t -> length r < fuel ->
  pos = length (fflat r) + 2 * tree_size h ->
  append_loop fuel (fflat r ++ flat v2 t) pos h v2 = Ok (fflat (fcarry r h t)).
Proof.
  induction r as [|[h' t'] r IH]; intros fuel h t pos HO HH HP HF ->;
    (destruct fuel as [|fuel]; [lia|]); cbn [append_loop fcarry fflat snd].
  - simpl length. rewrite (proj2 (Nat.ltb_lt _ _)) by (pow2 h; lia). reflexivity.
  - pose proof HO as [HS HA]. pose proof (forest_ok_tail _ _ HO) as HO'.
    inversion HS as [|? ? HS' HL]; inversion HA as [|? ? HP' HA']; inversion HH as [|? ? HH' _];
      subst. cbn [fst snd] in *.
    assert (L1 : length (fflat r ++ flat v2 t') = length (fflat r) + tree_size (h' + 1))
      by (rewrite length_app, (length_flat _ _ _ HP'); reflexivity).
    rewrite L1. assert (E1 : tree_size (h' + 1) = 2 * tree_size h' + 1) by (pow2 h'; lia).
    assert (E2 : tree_size (h + 1) = 2 * tree_size h + 1) by (pow2 h; lia).
    rewrite (proj2 (Nat.ltb_ge _ _)) by lia.
    replace (length (fflat r) + tree_size (h' + 1) + 2 * tree_size h - tree_size (h + 1))
      with (length (fflat r) + 2 * tree_size h') by lia.
    assert (HPH : pos_height (length (fflat r) + 2 * tree_size h') = h').
    { apply (forest_pos_height r h').
      - exact HS'.
      - eapply Forall_impl; [exact HL|]. cbn. lia.
      - rewrite length_fflat by exact HA'. rewrite lookup_app_r by lia.
        replace (length (fheights r) + _ - _) with (2 * tree_size h') by lia. apply heights_root. }
    rewrite HPH. destruct (Nat.eqb_spec h' h) as [->|NE]; cbn [negb]; [|reflexivity].
    rewrite (lookup_app_l (fflat r ++ flat v2 t') _ (length (fflat r) + 2 * tree_size h)) by lia.
    rewrite (fflat_app_tree r h t' HO' HP'). cbn [unwrap mbind res_bind].
    rewrite (lookup_app_r (fflat r ++ flat v2 t')) by lia. rewrite L1.
    replace (length (fflat r) + tree_size (h + 1) + 2 * tree_size h
             - (length (fflat r) + tree_size (h + 1))) with (2 * tree_size h) by lia.
    rewrite (flat_root _ _ _ HP). cbn [unwrap mbind res_bind].
    replace (((fflat r ++ flat v2 t') ++ flat v2 t) ++ [hash_node (tree_root v2 t') (tree_root v2 t) v2])
      with (fflat r ++ flat v2 (PNode t' t)) by (cbn [flat]; rewrite <- !app_assoc; reflexivity).
    apply IH.
    + exact HO'.
    + eapply Forall_impl; [exact HL|]. cbn. lia.
    + rewrite Nat.add_1_r. split; assumption.
    + simpl in HF. lia.
    + rewrite !length_app, (length_flat _ _ _ HP), (length_flat _ _ _ HP').
      replace (tree_size (h + 1)) with (2 * tree_size h + 1) by lia. pow2 h. lia.
Qed.

Lemma fcarry_length_fuel r : forest_ok r -> length r <= length (fflat r).
Proof.
  intros [_ HF]. induction HF as [|p r HP HF IH]; [simpl; lia|]. cbn [fflat length].
  rewrite length_app, (length_flat _ _ _ HP). pow2 p.1. lia.
Qed.

(** The state of an MMR: the post-order listing of the forest of its leaves. *)
Definition mmr_repr (m : MerkleMountainRange) (r : forest) : Prop :=
  forest_ok r /\ nodes m = fflat r /\ leaf_count m = length (fleaves r).

Lemma mmr_append_repr m r x :
  mmr_repr m r ->
  exists m', mmr_append x v2 m = Ok (length (nodes m), m')
    /\ mmr_repr m' (fcarry r 0 (PLeaf x)).
Proof.
  intros (HO & HN & HC). unfold mmr_append. rewrite HN.
  assert (HA : Forall (fun q : nat * ptree => 0 <= q.1) r) by (apply Forall_forall; intros; lia).
  change [x] with (flat v2 (PLeaf x)). rewrite append_loop_carry; try assumption.
  - cbn [mbind res_bind]. eexists. split; [reflexivity|].
    destruct (fcarry_ok r 0 (PLeaf x) HO HA I) as (I1 & I2 & _).
    split; [exact I1|]. split; [reflexivity|]. cbn [leaf_count].
    rewrite I2, length_app, HC. reflexivity.
  - exact I.
  - pose proof (fcarry_length_fuel r HO). lia.
  - cbn. lia.
Qed.

Lemma forest_of_snoc xs x : forest_of (xs ++ [x]) = fcarry (forest_of xs) 0 (PLeaf x).
Proof. unfold forest_of. rewrite foldl_app. reflexivity. Qed.

Lemma forest_of_ok xs : forest_ok (forest_of xs) /\ fleaves (forest_of xs) = xs.
Proof.
  induction xs as [|x xs [IH1 IH2]] using rev_ind.
  - split; [split; constructor|reflexivity].
  - rewrite forest_of_snoc.
    destruct (fcarry_ok (forest_of xs) 0 (PLeaf x) IH1) as (I1 & I2 & _); [|exact I|].
    + apply Forall_forall. intros. lia.
    + split; [exact I1|]. rewrite I2, IH2. reflexivity.
Qed.

End Forests.

(** * Sizes *)

(** Node count of trees of the given heights. *)
Definition sizes (hs : list nat) : nat := sum_list (map (fun h => tree_size (h + 1)) hs).

Lemma length_fheights r : length (fheights r) = sizes (map fst r).
Proof.
  induction r as [|p r IH]; [reflexivity|]. cbn [fheights map]. unfold sizes in *. simpl.
  rewrite length_app, IH, length_heights. lia.
Qed.

Lemma length_fleaves r :
  Forall (fun p => perfect p.1 p.2) r -> length (fleaves r) = sum_list (map (fun h => 2 ^ h) (map fst r)).
Proof.
  induction 1 as [|p r HP HF IH]; [reflexivity|]. cbn [fleaves map]. simpl.
  rewrite length_app, IH, (length_leaves _ _ HP). lia.
Qed.

Lemma sizes_pow2 hs : sizes hs + length hs = 2 * sum_list (map (fun h => 2 ^ h) hs).
Proof.
  induction hs as [|h hs IH]; [reflexivity|]. unfold sizes in *. simpl map. simpl sum_list.
  simpl length. pow2 h. lia.
Qed.

Lemma count_ones_fuel f : forall f' n, n <= f -> n <= f' -> count_ones f n = count_ones f' n.
Proof.
  induction f as [|f IH]; intros [|f'] n H1 H2; cbn [count_ones]; try reflexivity;
    try (replace n with 0 by lia; reflexivity).
  destruct (Nat.eqb_spec n 0); [reflexivity|]. f_equal.
  pose proof (Nat.div_lt n 2). apply IH; lia.
Qed.

Lemma count_ones_double n : count_ones (2 * n) (2 * n) = count_ones n n.
Proof.
  destruct n as [|n]; [reflexivity|]. cbn [count_ones].
  replace (2 * S n) with (S (2 * n + 1)) at 1 by lia. cbn [count_ones].
  rewrite (proj2 (Nat.eqb_neq _ 0)) by lia.
  replace ((2 * S n) mod 2) with 0 by (rewrite Nat.mul_comm, Nat.Div0.mod_mul; reflexivity).
  replace (2 * S n / 2) with (S n) by (rewrite Nat.mul_comm, Nat.div_mul; lia).
  rewrite Nat.add_0_l. apply (count_ones_fuel (2 * n + 1) (S n)); lia.
Qed.

Lemma count_ones_double_S n : count_ones (2 * n + 1) (2 * n + 1) = S (count_ones n n).
Proof.
  replace (2 * n + 1) with (S (2 * n)) at 1 by lia. cbn [count_ones].
  rewrite (proj2 (Nat.eqb_neq _ 0)) by lia.
  replace ((2 * n + 1) mod 2) with 1
    by (rewrite Nat.add_comm, Nat.mul_comm, Nat.Div0.mod_add; reflexivity).
  replace ((2 * n + 1) / 2) with n
    by (rewrite Nat.add_comm, Nat.mul_comm, Nat.div_add by lia; reflexivity).
  simpl. f_equal. apply count_ones_fuel; lia.
Qed.

(** A sum of distinct powers of two has as many one bits as terms. *)
Lemma count_ones_sum N : forall hs,
  StronglySorted lt hs -> Forall (fun h => h < N) hs ->
  let n := sum_list (map (fun h => 2 ^ h) hs) in count_ones n n = length hs.
Proof.
  induction N as [|N IH]; intros hs HS HF.
  - destruct hs as [|h hs]; [reflexivity|]. inversion HF; lia.
  - assert (HP : forall l, Forall (fun h => 0 < h < S N) l ->
      sum_list (map (fun h => 2 ^ h) l) = 2 * sum_list (map (fun h => 2 ^ h) (map pred l))
      /\ Forall (fun h => h < N) (map pred l)).
    { induction 1 as [|h l Hh Hl [I1 I2]]; [split; [reflexivity|constructor]|]. simpl. rewrite I1.
      split; [|constructor; [lia|exact I2]]. destruct h; [lia|]. simpl pred. pow2 h. lia. }
    assert (HM : forall l, Forall (fun h => 0 < h) l -> StronglySorted lt l ->
                 StronglySorted lt (map pred l)).
    { intros l. induction l as [|h l IHl]; intros H0 HSl; [constructor|].
      inversion HSl as [|? ? HSl' HHl]; inversion H0 as [|? ? Hh H0']; subst. cbn [map].
      constructor; [apply IHl; assumption|]. rewrite Forall_map. rewrite Forall_forall in *.
      intros x Hx. specialize (HHl x Hx). specialize (H0' x Hx). lia. }
    destruct hs as [|h hs]; [reflexivity|].
    inversion HS as [|? ? HS' HH]; inversion HF as [|? ? Hh HF']; subst.
    assert (HR : Forall (fun x => 0 < x < S N) hs)
      by (rewrite Forall_forall in *; intros x Hx; specialize (HH x Hx); specialize (HF' x Hx); lia).
    destruct (HP hs HR) as [E1 F1].
    assert (HR0 : Forall (fun x => 0 < x) hs) by (eapply Forall_impl; [exact HR|]; cbn; lia).
    destruct h as [|h]; cbn zeta; simpl map; simpl sum_list.
    + rewrite E1. replace (2 ^ 0 + _) with (2 * sum_list (map (fun h => 2 ^ h) (map pred hs)) + 1)
        by (simpl; lia).
      rewrite count_ones_double_S. simpl length. f_equal.
      rewrite (IH (map pred hs)) by auto. apply length_map.
    + destruct (HP (S h :: hs)) as [E2 F2]; [constructor; [lia|exact HR]|].
      simpl map in E2. simpl sum_list in E2. rewrite E2, count_ones_double.
      change (2 ^ h + sum_list (map (fun h => 2 ^ h) (map pred hs)))
        with (sum_list (map (fun h => 2 ^ h) (map pred (S h :: hs)))).
      rewrite (IH (map pred (S h :: hs)));
        [rewrite length_map; reflexivity|apply HM; [constructor; [lia|exact HR0]|exact HS]|exact F2].
Qed.

Lemma sorted_fst (r : forest) :
  StronglySorted (fun a b => a.1 < b.1) r -> StronglySorted lt (map fst r).
Proof.
  induction 1 as [|p r HS IH HF]; [constructor|]. cbn [map]. constructor; [exact IH|].
  apply Forall_map, HF.
Qed.

Lemma forest_size r : forest_ok r -> length (fheights r) = mmr_size (length (fleaves r)).
Proof.
  intros [HS HP]. rewrite length_fheights, length_fleaves by exact HP.
  pose proof (sizes_pow2 (map fst r)) as E. destruct (forest_bound r) as [N HN].
  pose proof (count_ones_sum N (map fst r) (sorted_fst r HS)) as C.
  cbn zeta in C. rewrite Forall_map in C. specialize (C HN). unfold mmr_size.
  set (n := sum_list _) in *. destruct (Nat.eqb_spec n 0) as [E0|NE].
  - destruct r as [|p r]; [reflexivity|]. unfold n in E0. simpl in E0.
    pose proof (pow2_pos p.1). lia.
  - rewrite C. lia.
Qed.

(** * Peaks *)

Fixpoint peak_positions_from (offset : nat) (gs : list nat) : list nat :=
  match gs with
  | [] => []
  | g :: gs =>
      (offset + tree_size (g + 1) - 1) :: peak_positions_from (offset + tree_size (g + 1)) gs
  end.

Lemma peak_positions_app gs g : forall off,
  peak_positions_from off (gs ++ [g])
  = peak_positions_from off gs ++ [off + sizes gs + tree_size (g + 1) - 1].
Proof.
  induction gs as [|x gs IH]; intros off; cbn [peak_positions_from app].
  - replace (off + sizes []) with off by (unfold sizes; simpl; lia). reflexivity.
  - rewrite IH. replace (off + sizes (x :: gs)) with (off + tree_size (x + 1) + sizes gs)
      by (unfold sizes; simpl; lia). reflexivity.
Qed.

Lemma sizes_app a b : sizes (a ++ b) = sizes a + sizes b.
Proof. unfold sizes. rewrite map_app. induction (map _ a); simpl; [reflexivity|]. lia. Qed.

Lemma sizes_rev a : sizes (rev a) = sizes a.
Proof.
  induction a as [|x a IH]; [reflexivity|]. cbn [rev]. rewrite sizes_app, IH.
  unfold sizes. simpl. lia.
Qed.

Lemma fpeaks_positions r : fpeaks r = peak_positions_from 0 (rev (map fst r)).
Proof.
  induction r as [|p r IH]; [reflexivity|]. cbn [fpeaks map rev].
  rewrite peak_positions_app, IH, sizes_rev, <- length_fheights. repeat f_equal.
  pow2 p.1. lia.
Qed.

(** Strictly decreasing heights below [g] hold fewer nodes than a tree of height [g]. *)
Lemma sizes_lt gs : forall g,
  StronglySorted (fun a b => b < a) gs -> Forall (fun x => x < g) gs ->
  sizes gs < tree_size (g + 1).
Proof.
  induction gs as [|x gs IH]; intros g HS HF.
  - unfold sizes. simpl. pow2 g. lia.
  - inversion HS as [|? ? HS' HH]; inversion HF as [|? ? HX _]; subst.
    specialize (IH x HS' HH). unfold sizes in *. simpl.
    assert (2 * tree_size (x + 1) + 1 <= tree_size (g + 1)); [|lia].
    unfold tree_size. pose proof (Nat.pow_le_mono_r 2 (S (x + 1)) (g + 1)). pow2 x. lia.
Qed.

Lemma peak_height_spec fuel : forall h k rem,
  h <= k -> k - h < fuel -> tree_size k <= rem < tree_size (k + 1) ->
  peak_height fuel h rem = k.
Proof.
  induction fuel as [|fuel IH]; intros h k rem HL HF HR; [lia|]. cbn [peak_height].
  destruct (Nat.leb_spec (tree_size (h + 1)) rem) as [L|L].
  - destruct (decide (h = k)) as [->|]; [lia|]. apply IH; [lia|lia|exact HR].
  - destruct (decide (h = k)) as [->|NE]; [reflexivity|].
    assert (tree_size (h + 1) <= tree_size k); [|lia].
    unfold tree_size. pose proof (Nat.pow_le_mono_r 2 (h + 1) k). lia.
Qed.

Lemma peaks_loop_spec gs : forall fuel off res,
  StronglySorted (fun a b => b < a) gs -> sizes gs <= fuel ->
  peaks_loop fuel (sizes gs) off res = res ++ peak_positions_from off gs.
Proof.
  induction gs as [|g gs IH]; intros fuel off res HS HF.
  - cbn [peak_positions_from]. rewrite app_nil_r. destruct fuel; reflexivity.
  - inversion HS as [|? ? HS' HH]; subst. pose proof (sizes_lt gs g HS' HH) as HL.
    assert (E : sizes (g :: gs) = tree_size (g + 1) + sizes gs) by reflexivity.
    assert (G : g < tree_size (g + 1)) by apply tree_size_gt.
    destruct fuel as [|fuel]; [lia|]. cbn [peaks_loop].
    rewrite (proj2 (Nat.ltb_lt 0 _)) by lia.
    rewrite (peak_height_spec (sizes (g :: gs)) 1 (g + 1)); [|lia|lia|].
    + rewrite (proj2 (Nat.ltb_ge _ _)) by lia. rewrite E.
      replace (tree_size (g + 1) + sizes gs - tree_size (g + 1)) with (sizes gs) by lia.
      rewrite IH by (auto; lia). rewrite <- app_assoc. reflexivity.
    + rewrite E. split; [lia|]. pow2 (g + 1). pow2 g. lia.
Qed.

Lemma sorted_rev (l : list nat) :
  StronglySorted lt l -> StronglySorted (fun a b => b < a) (rev l).
Proof.
  induction 1 as [|x l HS IH HF]; [constructor|]. cbn [rev].
  assert (HF' : Forall (fun y => x < y) (rev l)) by (apply Forall_rev, HF).
  revert IH HF'. generalize (rev l). intros k HS' HF'. induction HS' as [|y k HS' IH HY].
  - repeat constructor.
  - inversion HF'; subst. cbn [app]. constructor; [apply IH; assumption|].
    apply Forall_app. split; [exact HY|]. repeat constructor. assumption.
Qed.

Lemma peaks_forest r : forest_ok r -> peaks (length (fheights r)) = fpeaks r.
Proof.
  intros [HS _]. rewrite fpeaks_positions. unfold peaks.
  rewrite length_fheights, <- sizes_rev. apply (peaks_loop_spec _ _ 0 []); [|lia].
  apply sorted_rev, sorted_fst, HS.
Qed.

(** * Root and proofs on a forest *)

Section Proofs.
Context `{Blake3}.
Context (v2 : bool).

Definition forest_root (r : forest) : hash32 :=
  match r with
  | [] => zero_arr 32
  | p :: r => bag (tree_root v2 p.2) (map (fun q => tree_root v2 q.2) r) v2
  end.

Lemma fflat_app pre q : exists s, fflat v2 (pre ++ q) = fflat v2 q ++ s.
Proof.
  induction pre as [|p pre [s IH]]; [exists []; rewrite app_nil_r; reflexivity|].
  exists (s ++ flat v2 p.2). cbn [fflat app]. rewrite IH, app_assoc. reflexivity.
Qed.

Lemma fheights_app pre q : exists s, fheights (pre ++ q) = fheights q ++ s.
Proof.
  induction pre as [|p pre [s IH]]; [exists []; rewrite app_nil_r; reflexivity|].
  exists (s ++ heights p.1). cbn [fheights app]. rewrite IH, app_assoc. reflexivity.
Qed.

Lemma forest_ok_app pre q : forest_ok (pre ++ q) -> forest_ok q.
Proof. induction pre as [|p pre IH]; [auto|]. intros HO. apply IH. eapply forest_ok_tail, HO. Qed.

(** Every node of a forest of [r] is a node of one of its trees. *)
Lemma locate r p :
  p < length (fheights r) ->
  exists pre h t r' i, r = pre ++ (h, t) :: r' /\ p = length (fheights r') + i
    /\ i < tree_size (h + 1).
Proof.
  induction r as [|[h t] r IH]; cbn [fheights]; [simpl; lia|].
  rewrite length_app, length_heights. intros HP.
  destruct (decide (p < length (fheights r))) as [L|L].
  - destruct (IH L) as (pre & h' & t' & r' & i & -> & E & Hi).
    exists ((h, t) :: pre), h', t', r', i. auto.
  - exists [], h, t, r, (p - length (fheights r)). cbn [fst] in HP. split; [reflexivity|]. lia.
Qed.

Lemma fpeaks_lt r x : In x (fpeaks r) -> x < length (fheights r).
Proof.
  induction r as [|p r IH]; cbn [fpeaks fheights]; [contradiction|].
  rewrite length_app, length_heights. intros [Hx|[<-|[]]]%in_app_or.
  - specialize (IH Hx). lia.
  - pow2 p.1. lia.
Qed.

(** A node inside a tree is a peak exactly when it is the tree's root. *)
Lemma fpeaks_tree pre h t r' i :
  i < tree_size (h + 1) ->
  existsb (fun p => p =? length (fheights r') + i) (fpeaks (pre ++ (h, t) :: r'))
  = (i =? 2 * tree_size h).
Proof.
  intros Hi. apply eq_bool_prop_intro. rewrite !Is_true_true, existsb_exists, Nat.eqb_eq.
  assert (HT : tree_size (h + 1) = 2 * tree_size h + 1) by (pow2 h; lia).
  split.
  - intros (x & Hx & E%Nat.eqb_eq). subst x.
    induction pre as [|p pre IH]; cbn [app fpeaks fst] in Hx;
      apply in_app_or in Hx as [Hx|[Hx|[]]].
    + apply fpeaks_lt in Hx. lia.
    + lia.
    + apply IH, Hx.
    + destruct (fheights_app pre ((h, t) :: r')) as [s Es]. rewrite Es in Hx.
      cbn [fheights fst] in Hx. rewrite !length_app, length_heights in Hx. lia.
  - intros ->. exists (length (fheights r') + 2 * tree_size h). rewrite Nat.eqb_refl.
    split; [|reflexivity]. induction pre as [|p pre IH]; cbn [app fpeaks fst]; apply in_or_app.
    + right. left. reflexivity.
    + left. exact IH.
Qed.

Lemma forest_lookup pre h t r' i x :
  forest_ok (pre ++ (h, t) :: r') -> flat v2 t !! i = Some x ->
  fflat v2 (pre ++ (h, t) :: r') !! (length (fheights r') + i) = Some x.
Proof.
  intros HO E. destruct (fflat_app pre ((h, t) :: r')) as [s ->].
  pose proof (forest_ok_app _ _ HO) as HO'. pose proof (forest_ok_tail _ _ HO') as [_ HA].
  cbn [fflat snd]. apply lookup_app_l_Some. rewrite <- (length_fflat v2 r' HA).
  rewrite lookup_app_r by lia. replace (_ + i - _) with i by lia. exact E.
Qed.

Lemma forest_height_lookup pre h t r' i k :
  forest_ok (pre ++ (h, t) :: r') -> heights h !! i = Some k ->
  pos_height (length (fheights r') + i) = k.
Proof.
  intros HO E. pose proof (forest_ok_app _ _ HO) as HO'.
  apply (forest_pos_height_ok ((h, t) :: r')); [exact HO'|]. cbn [fheights fst].
  rewrite lookup_app_r by lia. replace (_ + i - _) with i by lia. exact E.
Qed.

Lemma climb_app x s1 s2 : climb_proof x (s1 ++ s2) v2 = climb_proof (climb_proof x s1 v2) s2 v2.
Proof. apply foldl_app. Qed.

Lemma prove_loop_climb pre h t r' : forall fuel i k x sibs,
  let r := pre ++ (h, t) :: r' in
  forest_ok r -> perfect h t -> heights h !! i = Some k -> flat v2 t !! i = Some x ->
  h - k < fuel ->
  exists s, prove_loop fuel (fflat v2 r) (fpeaks r) (length (fheights r') + i) k sibs
            = Ok (length (fheights r') + 2 * tree_size h, sibs ++ s)
    /\ climb_proof x s v2 = tree_root v2 t.
Proof.
  induction fuel as [|fuel IH]; intros i k x sibs r HO HP EH EX HF; [lia|].
  pose proof (lookup_lt_Some _ _ _ EH) as Li. rewrite length_heights in Li.
  assert (HT : tree_size (h + 1) = 2 * tree_size h + 1) by (pow2 h; lia).
  cbn [prove_loop]. unfold r. rewrite fpeaks_tree by exact Li.
  destruct (Nat.eqb_spec i (2 * tree_size h)) as [->|NE].
  - exists []. rewrite app_nil_r. split; [reflexivity|].
    rewrite (flat_root _ _ _ HP) in EX. injection EX as <-. reflexivity.
  - destruct (child_step v2 h t i k HP EH ltac:(lia))
      as [(x' & y & E1 & E2 & E3 & E4 & E5)|(HD & x' & y & E1 & E2 & E3 & E4)];
      rewrite E1 in EX; injection EX as ->.
    + pose proof (heights_first _ _ _ E4) as [Lk _].
      pose proof (forest_lookup pre h t r' _ _ HO E2) as X2.
      rewrite Nat.add_assoc in X2.
      rewrite (proj2 (Nat.ltb_lt _ _)) by (eapply lookup_lt_Some, X2).
      pose proof (forest_height_lookup pre h t r' _ _ HO E3) as X3. rewrite Nat.add_assoc in X3.
      rewrite X3, Nat.eqb_refl, X2. cbn [andb unwrap mbind res_bind].
      destruct (IH (i + tree_size (k + 1) + 1) (k + 1) (hash_node x y v2)
        (sibs ++ [{| elem_hash := y; elem_is_right := true |}]) HO HP E4 E5 ltac:(lia))
        as (s & EL & EC).
      exists ({| elem_hash := y; elem_is_right := true |} :: s).
      replace (length (fheights r') + i + tree_size (k + 1) + 1)
        with (length (fheights r') + (i + tree_size (k + 1) + 1)) by lia.
      unfold r in EL. rewrite EL, <- app_assoc. split; [reflexivity|exact EC].
    + pose proof (heights_first _ _ _ E3) as [Lk _].
      assert (HT1 : pos_height (length (fheights r') + i + tree_size (k + 1)) <> k).
      { apply right_child_test; [exact (forest_height_lookup pre h t r' _ _ HO EH)|].
        rewrite <- Nat.add_assoc. exact (forest_height_lookup pre h t r' _ _ HO E3). }
      rewrite (proj2 (Nat.eqb_neq _ _) HT1), andb_false_r.
      rewrite (proj2 (Nat.leb_le _ _)) by lia. cbn [unwrap mbind res_bind].
      replace (length (fheights r') + i - tree_size (k + 1))
        with (length (fheights r') + (i - tree_size (k + 1))) by lia.
      rewrite (forest_lookup pre h t r' _ _ HO E2). cbn [unwrap mbind res_bind].
      destruct (IH (i + 1) (k + 1) (hash_node y x v2)
        (sibs ++ [{| elem_hash := y; elem_is_right := false |}]) HO HP E3 E4 ltac:(lia))
        as (s & EL & EC).
      exists ({| elem_hash := y; elem_is_right := false |} :: s).
      rewrite <- Nat.add_assoc. unfold r in EL. rewrite EL, <- app_assoc.
      split; [reflexivity|exact EC].
Qed.

Lemma get_all_peaks r :
  forest_ok r -> forall extra,
  get_all (fflat v2 r ++ extra) (rev (fpeaks r)) = Ok (map (fun q => tree_root v2 q.2) r).
Proof.
  induction r as [|p r IH]; intros HO extra; [reflexivity|].
  cbn [fpeaks fflat]. rewrite rev_unit. cbn [get_all map].
  pose proof HO as [_ HA]. inversion HA as [|? ? HP HA']; subst.
  rewrite <- app_assoc, lookup_app_r, lookup_app_l by
    (rewrite (length_fflat v2 r HA'); rewrite ?(length_flat _ _ _ HP); pow2 p.1; lia).
  rewrite (length_fflat v2 r HA'). replace (_ + 2 * _ - _) with (2 * tree_size p.1) by lia.
  rewrite (flat_root _ _ _ HP). cbn [unwrap mbind res_bind].
  rewrite (IH (forest_ok_tail _ _ HO)). reflexivity.
Qed.

Lemma get_all_app ns a b xs ys :
  get_all ns a = Ok xs -> get_all ns b = Ok ys -> get_all ns (a ++ b) = Ok (xs ++ ys).
Proof.
  revert xs. induction a as [|p a IH]; intros xs; cbn [get_all app].
  - intros [= <-] E. exact E.
  - rewrite res_bind_Ok. intros (x & E1 & E2) EB. apply res_bind_Ok in E2 as (l & E2 & [= <-]).
    rewrite E1. cbn [mbind res_bind]. rewrite (IH _ E2 EB). reflexivity.
Qed.

Lemma get_all_rev ns a : forall xs, get_all ns a = Ok xs -> get_all ns (rev a) = Ok (rev xs).
Proof.
  induction a as [|p a IH]; intros xs; cbn [get_all rev]; [intros [= <-]; reflexivity|].
  rewrite res_bind_Ok. intros (x & E1 & E2). apply res_bind_Ok in E2 as (l & E2 & [= <-]).
  cbn [rev]. apply get_all_app; [apply IH, E2|]. cbn [get_all]. rewrite E1. reflexivity.
Qed.

Lemma mmr_root_repr m r : mmr_repr v2 m r -> mmr_root m v2 = Ok (forest_root r).
Proof.
  intros (HO & HN & _). unfold mmr_root. pose proof HO as [_ HA].
  rewrite HN, (length_fflat v2 r HA), (peaks_forest r HO).
  pose proof (get_all_peaks r HO []) as HG. rewrite app_nil_r in HG.
  destruct r as [|p r]; [reflexivity|].
  cbn [fpeaks] in *. rewrite rev_unit in *. cbn [get_all map] in HG.
  apply res_bind_Ok in HG as (x & E1 & HG). apply res_bind_Ok in HG as (l & E2 & [= E3 E4]).
  rewrite E1. cbn [mbind res_bind]. rewrite E2. cbn [mbind res_bind]. subst. reflexivity.
Qed.

Lemma position_app_notin x a b :
  existsb (fun p => p =? x) a = false -> position x (a ++ b) = (fun i => length a + i) <$> position x b.
Proof.
  induction a as [|y a IH]; cbn [existsb app position length].
  - intros _. destruct (position x b); reflexivity.
  - intros [E1 E2]%orb_false_iff. rewrite E1, (IH E2). destruct (position x b); reflexivity.
Qed.

Lemma position_tree pre h t r' :
  position (length (fheights r') + 2 * tree_size h) (fpeaks (pre ++ (h, t) :: r'))
  = Some (length (fpeaks r')).
Proof.
  induction pre as [|p pre IH]; cbn [app fpeaks fst].
  - rewrite position_app_notin.
    + cbn [position]. rewrite Nat.eqb_refl. simpl. f_equal. lia.
    + apply not_true_iff_false. rewrite existsb_exists. intros (x & Hx & E%Nat.eqb_eq).
      apply fpeaks_lt in Hx. lia.
  - assert (HA : forall a b i x, position x a = Some i -> position x (a ++ b) = Some i).
    { intros a b. induction a as [|y a IHa]; intros i x; cbn [position app]; [discriminate|].
      destruct (y =? x); [auto|]. destruct (position x a) as [j|] eqn:Ej; [|discriminate].
      rewrite (IHa j x Ej). auto. }
    apply HA, IH.
Qed.

Lemma length_fpeaks r : length (fpeaks r) = length r.
Proof. induction r as [|p r IH]; [reflexivity|]. cbn [fpeaks length]. rewrite length_app, IH. simpl. lia. Qed.

(** The proof assembled from the climb from any node of the forest verifies. *)
Lemma mmr_climb_proof m r p k :
  mmr_repr v2 m r -> p < length (nodes m) -> pos_height p = k ->
  exists x pos sibs idx hs, nodes m !! p = Some x
    /\ prove_loop (S (length (nodes m))) (nodes m) (peaks (length (nodes m))) p k [] = Ok (pos, sibs)
    /\ position pos (peaks (length (nodes m))) = Some idx
    /\ get_all (nodes m) (peaks (length (nodes m))) = Ok hs
    /\ forall lp n, verify_mmr_proof x (mkMmrProof lp sibs hs idx n) (forest_root r) v2 = true.
Proof.
  intros (HO & HN & _) HL HH. pose proof HO as [_ HA].
  assert (EL : length (nodes m) = length (fheights r)) by (rewrite HN; apply length_fflat, HA).
  destruct (locate r p ltac:(lia)) as (pre & h & t & r' & i & E & -> & Hi). subst r.
  pose proof (forest_ok_app _ _ HO) as [_ HA']. inversion HA' as [|? ? HP HA'']; subst.
  cbn [fst snd] in HP.
  assert (EH : heights h !! i = Some (pos_height (length (fheights r') + i))).
  { rewrite <- length_heights in Hi. apply lookup_lt_is_Some_2 in Hi as [k Ek].
    rewrite (forest_height_lookup pre h t r' i k HO Ek). exact Ek. }
  destruct (lookup_lt_is_Some_2 (flat v2 t) i) as [x Ex]; [rewrite (length_flat _ _ _ HP); exact Hi|].
  set (r := pre ++ (h, t) :: r') in *.
  destruct (prove_loop_climb pre h t r' (S (length (fheights r))) i _ x [] HO HP EH Ex)
    as (s & EP & EC).
  { destruct (fheights_app pre ((h, t) :: r')) as [z Ez]. unfold r. rewrite Ez. cbn [fheights fst].
    rewrite !length_app, length_heights. pose proof (tree_size_gt h). lia. }
  fold r in EP. rewrite EL, HN, (peaks_forest r HO).
  pose proof (position_tree pre h t r') as EPos. fold r in EPos.
  pose proof (get_all_peaks r HO []) as HG. rewrite app_nil_r in HG. apply get_all_rev in HG.
  rewrite rev_involutive in HG.
  exists x. do 4 eexists. split; [apply forest_lookup; assumption|]. split; [exact EP|].
  split; [exact EPos|]. split; [exact HG|]. intros lp n.
  unfold verify_mmr_proof. cbn [peak_hashes peak_index siblings]. rewrite rev_involutive.
  assert (EK : rev (map (fun q : nat * ptree => tree_root v2 q.2) r) !! length (fpeaks r')
               = Some (tree_root v2 t)).
  { unfold r. rewrite map_app, rev_app_distr. cbn [map rev snd]. rewrite length_fpeaks.
    rewrite lookup_app_l by (rewrite length_app, length_rev, length_map; simpl; lia).
    rewrite lookup_app_r by (rewrite length_rev, length_map; lia).
    rewrite length_rev, length_map, Nat.sub_diag. reflexivity. }
  rewrite EK, app_nil_l, EC, bool_decide_true by reflexivity. cbn [negb].
  assert (NEr : r <> []) by (unfold r; destruct pre; discriminate).
  destruct r as [|q r0]; [contradiction|]. cbn [map forest_root].
  apply bool_decide_eq_true. reflexivity.
Qed.

Lemma mmr_prove_repr m r p :
  mmr_repr v2 m r -> p < length (nodes m) -> pos_height p = 0 ->
  exists proof x, mmr_prove m p = Ok proof /\ nodes m !! p = Some x /\ leaf_pos proof = p
    /\ verify_mmr_proof x proof (forest_root r) v2 = true.
Proof.
  intros HR HL HH. destruct (mmr_climb_proof m r p 0 HR HL HH)
    as (x & pos & sibs & idx & hs & E1 & E2 & E3 & E4 & E5).
  unfold mmr_prove. rewrite (proj2 (Nat.leb_gt _ _)), HH by lia.
  cbn [bail_if negb Nat.eqb mbind res_bind]. rewrite E2. cbn [mbind res_bind].
  rewrite E3. cbn [ok_or mbind res_bind]. rewrite E4. cbn [mbind res_bind].
  do 2 eexists. split; [reflexivity|]. split; [exact E1|]. split; [reflexivity|]. apply E5.
Qed.

End Proofs.

(** * Appending a sequence of leaves *)

Section Sequences.
Context `{Blake3}.
Context (v2 : bool).

(** Successive appends, with the positions they return. *)
Fixpoint append_all (xs : list hash32) (m : MerkleMountainRange)
    : res MmrError (list nat * MerkleMountainRange) :=
  match xs with
  | [] => Ok ([], m)
  | x :: xs =>
      '(p, m) ← mmr_append x v2 m; '(ps, m) ← append_all xs m; Ok (p :: ps, m)
  end.

Lemma mmr_new_repr : mmr_repr v2 mmr_new [].
Proof. split; [split; constructor|]. split; reflexivity. Qed.

Lemma mmr_repr_size m r : mmr_repr v2 m r -> length (nodes m) = mmr_size (length (fleaves r)).
Proof.
  intros (HO & HN & _). rewrite HN, <- (forest_size r HO). apply length_fflat, (proj2 HO).
Qed.

(** An append only adds nodes at the end. *)
Lemma append_loop_prefix fuel : forall ns pos h ns',
  append_loop fuel ns pos h v2 = Ok ns' -> ns `prefix_of` ns'.
Proof.
  induction fuel as [|fuel IH]; intros ns pos h ns' E; cbn [append_loop] in E; [discriminate|].
  destruct (pos <? _); [injection E as <-; reflexivity|]. destruct (negb _); [injection E as <-; reflexivity|].
  apply res_bind_Ok in E as (l & _ & E). apply res_bind_Ok in E as (r & _ & E).
  etrans; [|apply (IH _ _ _ _ E)]. apply prefix_app_r. reflexivity.
Qed.

Lemma append_all_prefix ys : forall m ps m', append_all ys m = Ok (ps, m') -> nodes m `prefix_of` nodes m'.
Proof.
  induction ys as [|y ys IH]; intros m ps m' E; cbn [append_all] in E; [injection E as _ <-; reflexivity|].
  apply res_bind_Ok in E as ([p m1] & E1 & E). apply res_bind_Ok in E as ([qs m2] & E2 & [= _ <-]).
  etrans; [|apply (IH _ _ _ E2)]. unfold mmr_append in E1. apply res_bind_Ok in E1 as (ns & EL & [= _ <-]).
  apply append_loop_prefix in EL. etrans; [|exact EL]. apply prefix_app_r. reflexivity.
Qed.

(** A sequence of appends is one after another. *)
Lemma append_all_app ys zs : forall m ps m',
  append_all (ys ++ zs) m = Ok (ps, m') -> exists qs m1 rs, append_all ys m = Ok (qs, m1)
  /\ append_all zs m1 = Ok (rs, m') /\ ps = qs ++ rs.
Proof.
  induction ys as [|y ys IH]; intros m ps m' E; [exists [], m, ps; auto|]. cbn [append_all app] in *.
  apply res_bind_Ok in E as ([p m1] & E1 & E). apply res_bind_Ok in E as ([ts m2] & E2 & [= <- <-]).
  destruct (IH _ _ _ E2) as (qs & m3 & rs & H1 & H2 & ->). exists (p :: qs), m3, rs.
  rewrite E1. cbn. rewrite H1. cbn. auto.
Qed.

Lemma append_all_repr ys : forall xs m,
  mmr_repr v2 m (forest_of xs) ->
  exists m', append_all ys m = Ok (map mmr_size (seq (length xs) (length ys)), m')
    /\ mmr_repr v2 m' (forest_of (xs ++ ys)).
Proof.
  induction ys as [|y ys IH]; intros xs m HR.
  - exists m. rewrite app_nil_r. split; [reflexivity|exact HR].
  - destruct (mmr_append_repr v2 m _ y HR) as (m1 & E1 & R1). rewrite <- forest_of_snoc in R1.
    destruct (IH (xs ++ [y]) m1 R1) as (m2 & E2 & R2). exists m2.
    rewrite <- app_assoc in R2. split; [|exact R2]. cbn [append_all]. rewrite E1.
    cbn [mbind res_bind]. rewrite E2. cbn [mbind res_bind length seq map].
    rewrite length_app, Nat.add_1_r. rewrite (mmr_repr_size _ _ HR), (proj2 (forest_of_ok xs)).
    reflexivity.
Qed.

Lemma append_all_new xs :
  exists m, append_all xs mmr_new = Ok (map mmr_size (seq 0 (length xs)), m)
    /\ mmr_repr v2 m (forest_of xs).
Proof. apply (append_all_repr xs [] mmr_new). exact mmr_new_repr. Qed.

(** Merging only adds nodes at the end. *)
Lemma fcarry_flat_prefix r : forall h t,
  fflat v2 r ++ flat v2 t `prefix_of` fflat v2 (fcarry r h t).
Proof.
  induction r as [|[h' t'] r IH]; intros h t; cbn [fcarry]; [reflexivity|].
  destruct (h' =? h); [|reflexivity]. etransitivity; [|apply IH].
  cbn [fflat flat snd]. rewrite <- !app_assoc. do 2 apply prefix_app. apply prefix_app_r. reflexivity.
Qed.

Lemma forest_of_prefix xs ys : fflat v2 (forest_of xs) `prefix_of` fflat v2 (forest_of (xs ++ ys)).
Proof.
  induction ys as [|y ys IH] using rev_ind; [rewrite app_nil_r; reflexivity|].
  rewrite app_assoc, forest_of_snoc. etransitivity; [exact IH|].
  etransitivity; [|apply fcarry_flat_prefix]. apply prefix_app_r. reflexivity.
Qed.

(** The [i]-th leaf sits at position [mmr_size i], at height 0. *)
Lemma leaf_position xs i x :
  xs !! i = Some x ->
  fflat v2 (forest_of xs) !! mmr_size i = Some x /\ pos_height (mmr_size i) = 0.
Proof.
  intros E. apply list_elem_of_split_length in E as (a & b & -> & ->).
  destruct (forest_of_ok a) as [HO HL].
  assert (ES : length (fflat v2 (forest_of a)) = mmr_size (length a))
    by (rewrite (length_fflat v2 _ (proj2 HO)), (forest_size _ HO), HL; reflexivity).
  split.
  - eapply prefix_lookup_Some; [|replace (a ++ x :: b) with ((a ++ [x]) ++ b)
      by (rewrite <- app_assoc; reflexivity); apply forest_of_prefix].
    rewrite forest_of_snoc. eapply prefix_lookup_Some; [|apply fcarry_flat_prefix].
    cbn [flat]. rewrite lookup_app_r by lia. replace (_ - _) with 0 by lia. reflexivity.
  - apply (forest_pos_height (forest_of a) 0); [exact (proj1 HO)|apply Forall_forall; intros; lia|].
    rewrite <- ES, (length_fflat v2 _ (proj2 HO)), lookup_app_r, Nat.sub_diag by lia. reflexivity.
Qed.

(** * Soundness of verification *)

Fixpoint tree_values (t : ptree) : list hash32 :=
  match t with
  | PLeaf x => [x]
  | PNode l r => tree_root v2 t :: tree_values l ++ tree_values r
  end.

(** What hashing the tree feeds to BLAKE3. *)
Fixpoint tree_queries (t : ptree) : list bytes :=
  match t with
  | PLeaf _ => []
  | PNode l r =>
      node_preimage (tree_root v2 l) (tree_root v2 r) v2 :: tree_queries l ++ tree_queries r
  end.

Definition elem_query (current : hash32) (e : ProofElement) : bytes :=
  if elem_is_right e then node_preimage current (elem_hash e) v2
  else node_preimage (elem_hash e) current v2.

Fixpoint climb_queries (current : hash32) (sibs : list ProofElement) : list bytes :=
  match sibs with
  | [] => []
  | e :: sibs => elem_query current e :: climb_queries (blake3 (elem_query current e)) sibs
  end.

Lemma node_preimage_inj l r l' r' :
  node_preimage l r v2 = node_preimage l' r' v2 -> l = l' /\ r = r'.
Proof.
  unfold node_preimage. intros E%app_inv_head.
  apply app_inj_1 in E as [E1 E2]; [|rewrite !arr_length; reflexivity].
  split; apply arr_eq; assumption.
Qed.

Lemma node_preimage_length l r : length (node_preimage l r v2) = if v2 then 65 else 64.
Proof. unfold node_preimage. rewrite !length_app, !arr_length. destruct v2; reflexivity. Qed.

Lemma climb_cons x e s : climb_proof x (e :: s) v2 = climb_proof (blake3 (elem_query x e)) s v2.
Proof. unfold climb_proof, elem_query, hash_node. simpl. destruct (elem_is_right e); reflexivity. Qed.

Lemma climb_queries_snoc x s e :
  climb_queries x (s ++ [e]) = climb_queries x s ++ [elem_query (climb_proof x s v2) e].
Proof.
  revert x. induction s as [|e' s IH]; intros x; [reflexivity|].
  cbn [app climb_queries]. rewrite IH, climb_cons. reflexivity.
Qed.

(** A path that hashes to a tree's root starts at a value of the tree. *)
Lemma mmr_climb_sound (Q : bytes -> Prop) s : forall x t,
  collision_free Q ->
  (forall q, q ∈ tree_queries t -> Q q) -> (forall q, q ∈ climb_queries x s -> Q q) ->
  (forall y q, y ∈ leaves t -> q ∈ climb_queries x s -> y <> blake3 q) ->
  climb_proof x s v2 = tree_root v2 t -> x ∈ tree_values t.
Proof.
  induction s as [|e s IH] using rev_ind; intros x t CF HT HS HL E.
  - cbn in E. subst x. destruct t; apply elem_of_cons; auto.
  - rewrite climb_queries_snoc in HS, HL. rewrite climb_app in E.
    set (c := climb_proof x s v2) in *.
    assert (EQ : climb_proof c [e] v2 = blake3 (elem_query c e)) by (rewrite climb_cons; reflexivity).
    rewrite EQ in E.
    assert (Hin : elem_query c e ∈ climb_queries x s ++ [elem_query c e])
      by (apply elem_of_app; right; apply elem_of_cons; auto).
    destruct t as [y|l r]; cbn [tree_root] in E.
    + exfalso. eapply (HL y); [cbn; apply elem_of_cons; auto|exact Hin|]. symmetry. exact E.
    + unfold hash_node in E. apply CF in E;
        [|apply HS, Hin|apply HT; cbn [tree_queries]; apply elem_of_cons; auto].
      cbn [tree_values]. apply elem_of_cons. right. apply elem_of_app.
      unfold elem_query in E. destruct (elem_is_right e);
        apply node_preimage_inj in E as [E1 E2]; [left|right]; apply IH; try assumption;
        try (intros q Hq; apply HT; cbn [tree_queries]; apply elem_of_cons; right;
             apply elem_of_app; auto; fail);
        try (intros q Hq; apply HS, elem_of_app; auto; fail);
        intros y q Hy Hq; apply HL; try (cbn [leaves]; apply elem_of_app; auto; fail);
        apply elem_of_app; auto.
Qed.

(** The bagged peaks form one tree. *)
Definition fbag (r : forest) : ptree :=
  match r with
  | [] => PLeaf (zero_arr 32)
  | p :: r => foldl (fun acc q => PNode q.2 acc) p.2 r
  end.

Lemma fbag_root r : tree_root v2 (fbag r) = forest_root v2 r.
Proof.
  destruct r as [|p r]; [reflexivity|]. cbn [fbag forest_root].
  generalize (p.2). induction r as [|q r IH]; intros t; [reflexivity|].
  cbn [foldl map]. rewrite IH. reflexivity.
Qed.

Lemma fbag_leaves r : r <> [] -> leaves (fbag r) = fleaves r.
Proof.
  destruct r as [|p r]; [contradiction|]. intros _. cbn [fbag fleaves].
  generalize (p.2). induction r as [|q r IH]; intros t; [reflexivity|].
  cbn [foldl fleaves]. rewrite IH. cbn [leaves]. rewrite app_assoc. reflexivity.
Qed.

(** Bagging, seen as the end of the climb. *)
Definition bag_path (proof : MmrProof) : list ProofElement :=
  match rev (peak_hashes proof) with
  | [] => []
  | last :: larger =>
      let j := length larger - peak_index proof in
      match j with
      | O => map (fun p => mkProofElement p false) larger
      | S j => mkProofElement (bag last (take j larger) v2) true
               :: map (fun p => mkProofElement p false) (drop (S j) larger)
      end
  end.

Definition proof_path (proof : MmrProof) : list ProofElement := siblings proof ++ bag_path proof.

Lemma climb_bag acc larger :
  climb_proof acc (map (fun p => mkProofElement p false) larger) v2 = bag acc larger v2.
Proof.
  revert acc. induction larger as [|p larger IH]; intros acc; [reflexivity|].
  cbn [map]. rewrite climb_cons, IH. reflexivity.
Qed.

Lemma verify_climb x proof root :
  verify_mmr_proof x proof root v2 = true -> climb_proof x (proof_path proof) v2 = root.
Proof.
  unfold verify_mmr_proof, proof_path, bag_path.
  destruct (rev (peak_hashes proof)) as [|last larger] eqn:ER; [discriminate|].
  destruct (peak_hashes proof !! peak_index proof) as [c|] eqn:EI; [|discriminate].
  destruct (bool_decide (_ = c)) eqn:EC; [|discriminate]. apply bool_decide_eq_true in EC.
  cbn [negb]. rewrite bool_decide_eq_true. intros ER'. rewrite climb_app, EC.
  assert (EP : peak_hashes proof = rev larger ++ [last])
    by (rewrite <- (rev_involutive (peak_hashes proof)), ER; reflexivity).
  rewrite EP in EI. pose proof (lookup_lt_Some _ _ _ EI) as LI.
  rewrite length_app, length_rev in LI. simpl in LI.
  destruct (length larger - peak_index proof) as [|j] eqn:EJ.
  - rewrite climb_bag, <- ER'. f_equal. rewrite lookup_app_r in EI by (rewrite length_rev; lia).
    rewrite length_rev in EI. replace (_ - _) with 0 in EI by lia. injection EI as <-. reflexivity.
  - rewrite lookup_app_l in EI by (rewrite length_rev; lia).
    rewrite climb_cons, climb_bag, <- ER'.
    replace (rev larger) with (reverse larger) in EI by (symmetry; apply rev_alt).
    rewrite reverse_lookup in EI by lia.
    replace (length larger - S (peak_index proof)) with j in EI by lia.
    pose proof (take_drop_middle larger j c EI) as EM. rewrite <- EM at 3. unfold bag.
    rewrite foldl_app. reflexivity.
Qed.

End Sequences.

(** * Ranges of mixed hashing modes

    The node list is append-only and its layout depends on the number of leaves
    only, so a range whose hashing mode has changed keeps its leaves in place
    and can still be extended and bagged. *)

Section Shape.
Context `{Blake3}.

Definition mmr_shape (xs : list hash32) (m : MerkleMountainRange) : Prop :=
  length (nodes m) = mmr_size (length xs) /\ leaf_count m = length xs
  /\ forall i x, xs !! i = Some x -> nodes m !! mmr_size i = Some x.

Lemma append_loop_layout fuel : forall ns ns' p h v v' r,
  length ns = length ns' -> append_loop fuel ns p h v = Ok r ->
  exists r', append_loop fuel ns' p h v' = Ok r' /\ length r' = length r /\ ns' `prefix_of` r'.
Proof.
  induction fuel as [|fuel IH]; intros ns ns' p h v v' r HL; cbn [append_loop]; [discriminate|].
  destruct (p <? _); [intros [= <-]; eauto|]. destruct (negb _); [intros [= <-]; eauto|].
  destruct (ns !! (p - _)) as [l|] eqn:El; [|discriminate]. cbn [unwrap mbind res_bind].
  destruct (ns !! p) as [q|] eqn:Eq; [|discriminate]. cbn [unwrap mbind res_bind]. intros E.
  apply lookup_lt_Some in El, Eq. rewrite HL in El, Eq.
  apply lookup_lt_is_Some_2 in El as [l' ->]. apply lookup_lt_is_Some_2 in Eq as [q' ->].
  cbn [unwrap mbind res_bind]. rewrite HL in E.
  assert (LA : length (ns ++ [hash_node l q v]) = length (ns' ++ [hash_node l' q' v']))
    by (rewrite !length_app, HL; reflexivity).
  destruct (IH _ _ _ _ _ v' _ LA E) as (r' & E' & L' & P'). exists r'. split; [exact E'|]. split; [exact L'|].
  etransitivity; [|exact P']. apply prefix_app_r. reflexivity.
Qed.

Lemma get_all_layout ps : forall ns ns' r,
  length ns = length ns' -> get_all ns ps = Ok r -> exists r', get_all ns' ps = Ok r'.
Proof.
  induction ps as [|p ps IH]; intros ns ns' r HL; cbn [get_all]; [eauto|].
  destruct (ns !! p) as [x|] eqn:Ex; [|discriminate]. cbn [unwrap mbind res_bind].
  intros E. apply res_bind_Ok in E as (l & E & _). destruct (IH _ _ _ HL E) as [r' Er].
  apply lookup_lt_Some in Ex. rewrite HL in Ex. apply lookup_lt_is_Some_2 in Ex as [y ->].
  cbn [unwrap mbind res_bind]. rewrite Er. eauto.
Qed.

Lemma mmr_new_shape : mmr_shape [] mmr_new.
Proof. split; [reflexivity|]. split; [reflexivity|]. intros i x E. discriminate E. Qed.

(** A uniform range with the layout of [m]. *)
Lemma shape_reference xs m : mmr_shape xs m ->
  exists m0, mmr_repr false m0 (forest_of xs) /\ length (nodes m0) = length (nodes m).
Proof.
  intros (HS & _ & _). destruct (append_all_new false xs) as (m0 & _ & R0). exists m0.
  split; [exact R0|]. rewrite HS, (mmr_repr_size _ _ _ R0), (proj2 (forest_of_ok xs)). reflexivity.
Qed.

Lemma mmr_append_shape xs m x v : mmr_shape xs m ->
  exists m', mmr_append x v m = Ok (mmr_size (length xs), m') /\ mmr_shape (xs ++ [x]) m'.
Proof.
  intros HS. destruct (shape_reference xs m HS) as (m0 & R0 & L0). destruct HS as (HL & HC & HX).
  destruct (mmr_append_repr false m0 _ x R0) as (m1 & E1 & R1).
  rewrite <- forest_of_snoc in R1. pose proof (mmr_repr_size _ _ _ R1) as S1.
  rewrite (proj2 (forest_of_ok (xs ++ [x]))) in S1.
  unfold mmr_append in E1. apply res_bind_Ok in E1 as (ns & E1 & [= E3]).
  rewrite L0 in E1.
  assert (LA : length (nodes m0 ++ [x]) = length (nodes m ++ [x])) by (rewrite !length_app, L0; reflexivity).
  destruct (append_loop_layout _ _ _ _ _ _ v _ LA E1) as (r & Er & Lr & Pr).
  unfold mmr_append. rewrite Er. cbn [mbind res_bind]. rewrite HL. eexists. split; [reflexivity|].
  split; [|split]; cbn [nodes leaf_count].
  - rewrite Lr, <- S1, <- E3. reflexivity.
  - rewrite length_app, HC. reflexivity.
  - intros i y Hi. eapply prefix_lookup_Some; [|exact Pr].
    apply lookup_app_Some in Hi as [Hi|[Hi1 Hi2]].
    + apply lookup_app_l_Some, HX, Hi.
    + apply list_lookup_singleton_Some in Hi2 as [Hi2 <-].
      assert (i = length xs) as -> by lia. rewrite <- HL, lookup_app_r, Nat.sub_diag by lia. reflexivity.
Qed.

Lemma mmr_root_shape xs m v : mmr_shape xs m -> exists r, mmr_root m v = Ok r.
Proof.
  intros HS. destruct (shape_reference xs m HS) as (m0 & R0 & L0).
  pose proof (mmr_root_repr false m0 _ R0) as E0. unfold mmr_root in *. rewrite <- L0.
  destruct (rev (peaks (length (nodes m0)))) as [|p ps]; [eauto|].
  apply res_bind_Ok in E0 as (acc & E0 & E1). apply res_bind_Ok in E1 as (hs & E1 & _).
  destruct (nodes m0 !! p) as [y|] eqn:Ey; [|discriminate].
  apply lookup_lt_Some in Ey. rewrite L0 in Ey. apply lookup_lt_is_Some_2 in Ey as [z ->].
  destruct (get_all_layout _ _ _ _ L0 E1) as [r' Er]. cbn [unwrap mbind res_bind]. rewrite Er. eauto.
Qed.

End Shape.

Section Properties.
Context `{Blake3}.

Lemma tree_values_cases v2 t x :
  x ∈ tree_values v2 t -> x ∈ leaves t \/ exists q, q ∈ tree_queries v2 t /\ x = blake3 q.
Proof.
  induction t as [y|l IHl r IHr]; cbn [tree_values leaves tree_queries]; [auto|].
  rewrite elem_of_cons, elem_of_app. intros [->|[Hx|Hx]].
  - right. eexists. split; [apply elem_of_cons; left; reflexivity|reflexivity].
  - destruct (IHl Hx) as [HL|(q & Hq & ->)]; [left; apply elem_of_app; auto|].
    right. exists q. split; [|reflexivity]. apply elem_of_cons; right; apply elem_of_app; auto.
  - destruct (IHr Hx) as [HL|(q & Hq & ->)]; [left; apply elem_of_app; auto|].
    right. exists q. split; [|reflexivity]. apply elem_of_cons; right; apply elem_of_app; auto.
Qed.

Lemma tree_queries_length v2 t q : q ∈ tree_queries v2 t -> length q = 64 \/ length q = 65.
Proof.
  induction t as [y|l IHl r IHr]; cbn [tree_queries]; [intros Hq; inversion Hq|].
  rewrite elem_of_cons, elem_of_app. intros [->|[Hq|Hq]]; auto.
  rewrite node_preimage_length. destruct v2; auto.
Qed.

Lemma climb_queries_length v2 s : forall x q,
  q ∈ climb_queries v2 x s -> length q = 64 \/ length q = 65.
Proof.
  induction s as [|e s IH]; intros x q; cbn [climb_queries]; [intros Hq; inversion Hq|].
  rewrite elem_of_cons. intros [->|Hq]; [|eapply IH, Hq].
  unfold elem_query. destruct (elem_is_right e); rewrite node_preimage_length; destruct v2; auto.
Qed.

(** C35: the eager merge cascade builds, for every sequence of leaves, the
    post-order listing of the binary-counter forest: each append returns the leaf's
    position [mmr_size i], the total size is [mmr_size n], the peaks are the roots of
    the trees, and the root is the right-to-left bagging of those roots.  No
    earlier node moves or changes: the range after fewer of the leaves is a prefix
    of the range after all of them. *)
Theorem mmr_append_refines v2 xs :
  exists m, append_all v2 xs mmr_new = Ok (map mmr_size (seq 0 (length xs)), m)
    /\ nodes m = fflat v2 (forest_of xs)
    /\ leaf_count m = length xs
    /\ mmr_size_of m = mmr_size (length xs)
    /\ peaks (mmr_size_of m) = fpeaks (forest_of xs)
    /\ mmr_root m v2 = Ok (forest_root v2 (forest_of xs))
    /\ forall ys zs, xs = ys ++ zs -> exists m0,
         append_all v2 ys mmr_new = Ok (map mmr_size (seq 0 (length ys)), m0) /\ nodes m0 `prefix_of` nodes m.
Proof.
  destruct (append_all_new v2 xs) as (m & E & HR). exists m.
  destruct (forest_of_ok xs) as [HO HL]. pose proof HR as (_ & HN & HC).
  split; [exact E|]. split; [exact HN|]. split; [rewrite HC, HL; reflexivity|].
  split; [unfold mmr_size_of; rewrite (mmr_repr_size _ _ _ HR), HL; reflexivity|].
  split; [unfold mmr_size_of; rewrite HN, (length_fflat v2 _ (proj2 HO)); apply peaks_forest, HO|].
  split; [apply mmr_root_repr, HR|]. intros ys zs ->.
  destruct (append_all_app v2 _ _ _ _ _ E) as (qs & m0 & rs & E1 & E2 & _).
  destruct (append_all_new v2 ys) as (m0' & E1' & _). exists m0. split; [congruence|].
  eapply append_all_prefix, E2.
Qed.

(** [prove] never aborts: it refuses positions out of range and positions of
    internal nodes, and otherwise returns a proof, which verifies against the root;
    in particular every appended leaf has one. *)
Lemma mmr_prove_complete v2 xs :
  exists m root, append_all v2 xs mmr_new = Ok (map mmr_size (seq 0 (length xs)), m)
    /\ mmr_root m v2 = Ok root
    /\ (forall p, mmr_size_of m <= p -> mmr_prove m p = Err PositionOutOfRange)
    /\ (forall p, p < mmr_size_of m -> pos_height p <> 0 -> mmr_prove m p = Err NotALeaf)
    /\ (forall i x, xs !! i = Some x -> exists proof,
          mmr_prove m (mmr_size i) = Ok proof /\ leaf_pos proof = mmr_size i
          /\ verify_mmr_proof x proof root v2 = true).
Proof.
  destruct (append_all_new v2 xs) as (m & E & HR). pose proof HR as (HO & HN & HC).
  exists m, (forest_root v2 (forest_of xs)). split; [exact E|].
  split; [apply mmr_root_repr, HR|]. unfold mmr_size_of. split; [|split].
  - intros p Hp. unfold mmr_prove. rewrite (proj2 (Nat.leb_le _ _)) by exact Hp. reflexivity.
  - intros p Hp Hh. unfold mmr_prove. rewrite (proj2 (Nat.leb_gt _ _)) by exact Hp.
    rewrite (proj2 (Nat.eqb_neq _ _)) by exact Hh. reflexivity.
  - intros i x Ex. destruct (leaf_position v2 xs i x Ex) as [E1 E2]. rewrite <- HN in E1.
    destruct (mmr_prove_repr v2 m _ (mmr_size i) HR) as (proof & y & P1 & P2 & P3 & P4);
      [eapply lookup_lt_Some, E1|exact E2|].
    exists proof. split; [exact P1|]. split; [exact P3|].
    assert (x = y) as -> by congruence. exact P4.
Qed.

(** A proof that verifies against the root of an MMR of hashed headers proves
    membership: the proved header is one of those appended, unless BLAKE3 collides
    on what the tree, the proof and the headers hash. *)
Lemma mmr_verify_sound v2 (ps : list bytes) (p0 : bytes) proof root m poss :
  append_all v2 (map blake3 ps) mmr_new = Ok (poss, m) -> mmr_root m v2 = Ok root ->
  ps <> [] ->
  Forall (fun p => length p <> 64 /\ length p <> 65) (p0 :: ps) ->
  collision_free (fun q => q ∈ tree_queries v2 (fbag (forest_of (map blake3 ps)))
    ++ climb_queries v2 (blake3 p0) (proof_path v2 proof) ++ p0 :: ps) ->
  verify_mmr_proof (blake3 p0) proof root v2 = true ->
  p0 ∈ ps.
Proof.
  intros EA ER NE HF CF HV. destruct (append_all_new v2 (map blake3 ps)) as (m' & EA' & HR).
  rewrite EA in EA'. injection EA' as _ <-.
  rewrite (mmr_root_repr v2 m _ HR) in ER. injection ER as <-. rewrite <- fbag_root in HV.
  destruct (forest_of_ok (map blake3 ps)) as [HO HL].
  assert (HLv : leaves (fbag (forest_of (map blake3 ps))) = map blake3 ps).
  { rewrite fbag_leaves; [exact HL|]. intros E0. rewrite E0 in HL. destruct ps; [contradiction|discriminate]. }
  set (t := fbag _) in *. apply verify_climb in HV.
  inversion HF as [|? ? [H64 H65] HF']; subst. rewrite Forall_forall in HF'.
  apply (mmr_climb_sound v2 _ _ _ _ CF) in HV; [| | |].
  - apply tree_values_cases in HV as [HV|(q & Hq & E)].
    + rewrite HLv in HV. apply list_elem_of_In, in_map_iff in HV as (p & E & Hp).
      apply list_elem_of_In in Hp. apply CF in E; [congruence|..].
      * apply elem_of_app; right; apply elem_of_app; right; apply elem_of_cons; auto.
      * apply elem_of_app; right; apply elem_of_app; right; apply elem_of_cons; auto.
    + exfalso. apply CF in E; [|apply elem_of_app; right; apply elem_of_app; right;
        apply elem_of_cons; auto|apply elem_of_app; auto].
      subst q. apply tree_queries_length in Hq. tauto.
  - intros q Hq. apply elem_of_app. auto.
  - intros q Hq. apply elem_of_app; right. apply elem_of_app. auto.
  - intros y q Hy Hq E. rewrite HLv in Hy. apply list_elem_of_In, in_map_iff in Hy as (p & E' & Hp).
    apply list_elem_of_In in Hp. rewrite <- E' in E. apply CF in E.
    + subst q. apply climb_queries_length in Hq. specialize (HF' p Hp). tauto.
    + apply elem_of_app; right; apply elem_of_app; right; apply elem_of_cons; auto.
    + apply elem_of_app; right. apply elem_of_app. auto.
Qed.

(** The verifier binds neither the position nor the height: every node of an
    MMR, internal ones included, has a proof that verifies while claiming any leaf
    position whatsoever. *)
Lemma mmr_position_unbound v2 xs p q :
  p < mmr_size (length xs) ->
  exists m root x proof, append_all v2 xs mmr_new = Ok (map mmr_size (seq 0 (length xs)), m)
    /\ mmr_root m v2 = Ok root /\ mmr_get m p = Some x /\ leaf_pos proof = q
    /\ verify_mmr_proof x proof root v2 = true.
Proof.
  intros Hp. destruct (append_all_new v2 xs) as (m & E & HR).
  pose proof (mmr_repr_size _ _ _ HR) as ES. pose proof HR as (HO & HN & HC).
  rewrite (proj2 (forest_of_ok xs)) in ES.
  destruct (mmr_climb_proof v2 m _ p _ HR ltac:(lia) eq_refl)
    as (x & pos & sibs & idx & hs & E1 & _ & _ & _ & E2).
  exists m, (forest_root v2 (forest_of xs)), x, (mkMmrProof q sibs hs idx 0).
  split; [exact E|]. split; [apply mmr_root_repr, HR|]. split; [exact E1|].
  split; [reflexivity|apply E2].
Qed.

End Properties.

Definition demo_leaves : list bytes := [[x0a]; [x0b]; [x0c]].

Definition demo_mmr `{Blake3} : MerkleMountainRange :=
  match append_all true (map blake3 demo_leaves) mmr_new with
  | Ok (_, m) => m
  | _ => mmr_new
  end.

Definition demo_proof `{Blake3} : MmrProof :=
  match mmr_prove demo_mmr 3 with
  | Ok p => p
  | _ => mkMmrProof 0 [] [] 0 0
  end.

Definition demo_root `{Blake3} : hash32 :=
  match mmr_root demo_mmr true with Ok r => r | _ => zero_arr 32 end.

Lemma mmr_verify_sound_witness :
  let H := toy_blake3 in
  verify_mmr_proof (blake3 [x0c]) demo_proof demo_root true = true /\ [x0c] ∈ demo_leaves.
Proof.
  intros H. assert (V : verify_mmr_proof (blake3 [x0c]) demo_proof demo_root true = true)
    by (vm_compute; reflexivity).
  split; [exact V|].
  apply (mmr_verify_sound true demo_leaves [x0c] demo_proof demo_root demo_mmr
           (map mmr_size (seq 0 3))).
  - vm_compute. reflexivity.
  - vm_compute. reflexivity.
  - discriminate.
  - repeat constructor; discriminate.
  - apply cf_check_sound. vm_compute. reflexivity.
  - exact V.
Defined.

Lemma mmr_position_unbound_witness :
  let H := toy_blake3 in
  exists m root x proof,
    append_all true (map blake3 demo_leaves) mmr_new = Ok (map mmr_size (seq 0 3), m)
    /\ mmr_root m true = Ok root /\ mmr_get m 2 = Some x /\ leaf_pos proof = 0
    /\ verify_mmr_proof x proof root true = true.
Proof.
  intros H. apply (mmr_position_unbound true (map blake3 demo_leaves) 2 0).
  apply Nat.ltb_lt. vm_compute. reflexivity.
Defined.
