(* ===== verification/Smt.v ===== *)
(** The sparse Merkle accumulator of [src/core/mmr.rs] ([UtxoAccumulator]): path
    bits, subtree hashing over sorted coins, the cache of the top sixteen
    levels, insertion, removal, rebuilding, proofs and their verification,
    against a reference Merkle tree defined on the coin set alone.

    The interface [SetAccumulator] is what the transaction and state code relies
    on; [UtxoAccumulator] and the bare set are its two instances.

    Heights and bit indices are at most 256 and modelled as [nat]; a [u16] is a
    [Z]; [im::OrdSet] is a [gset] iterated in ascending order ([ord_list]). *)
From S2P Require Import Prelude Types Mmr.

#[local] Open Scope Z_scope.

(** * Path bits *)

(** Bit [i] of a big-endian path: bit 0 is the lowest bit of the last byte.
    Callers pass [bit_index < 256], so the index never leaves the array. *)
Definition byte_at (p : bytes) (i : nat) : Z := bval (default x00 (p !! (31 - i / 8)%nat)).

Definition get_bit (p : hash32) (i : nat) : Z :=
  Z.land (Z.shiftr (byte_at p i) (Z.of_nat (i mod 8))) 1.

Definition flip_bit (p : hash32) (i : nat) : hash32 :=
  arr_of 32 (<[(31 - i / 8)%nat := b8 (Z.lxor (byte_at p i) (Z.shiftl 1 (Z.of_nat (i mod 8))))]>
               (arr_list p)).

Definition mask_lower_bits (p : hash32) (height : nat) : hash32 :=
  if (height =? 0)%nat then p
  else
    let full_bytes := (height / 8)%nat in
    let partial_bits := (height mod 8)%nat in
    let start := (32 - full_bytes)%nat in
    let path := take start (arr_list p) ++ replicate full_bytes x00 in
    let path :=
      if (0 <? partial_bits)%nat && (0 <? start)%nat then
        let mask := 255 - (Z.shiftl 1 (Z.of_nat partial_bits) - 1) in
        let b := bval (default x00 (path !! (start - 1)%nat)) in
        <[(start - 1)%nat := b8 (Z.land b mask)]> path
      else path in
    arr_of 32 path.

Definition SMT_HEIGHT : nat := 256.
Definition CACHE_MIN_HEIGHT : nat := 240.

(** [u16::from_be_bytes([path[0], path[1]])]. *)
Definition top16 (p : hash32) : Z := be_val (take 2 (arr_list p)).

Definition cache_key (height : nat) (path : hash32) : Z * Z := (Z.of_nat height, top16 path).

Definition path_from_top16 (t : Z) : hash32 := arr_of 32 (be_bytes 2 t).

(** [slice::partition_point] on a partitioned slice. *)
Fixpoint partition_point {A} (p : A -> bool) (l : list A) : nat :=
  match l with
  | [] => 0
  | x :: l => if p x then S (partition_point p l) else 0
  end.

Definition bit0 (i : nat) (c : hash32) : bool := get_bit c i =? 0.

Record UtxoAccumulator : Type := mkUtxoAccumulator {
  coins : gset hash32;
  smt_nodes : gmap (Z * Z) hash32;
  buckets : gmap Z (gset hash32)
}.

Record UtxoProof : Type := mkUtxoProof {
  leaf_index : nat;
  proof_leaf_count : nat;
  utxo_siblings : list ProofElement
}.

Inductive SmtError : Type := CoinNotInAccumulator.

Definition acc_new : UtxoAccumulator :=
  {| coins := ∅; smt_nodes := ∅; buckets := ∅ |}.

Definition acc_len (a : UtxoAccumulator) : nat := size (coins a).
Definition acc_is_empty (a : UtxoAccumulator) : bool := (acc_len a =? 0)%nat.
Definition contains (coin : hash32) (a : UtxoAccumulator) : bool := bool_decide (coin ∈ coins a).
Definition into_vec (a : UtxoAccumulator) : list hash32 := ord_list (coins a).

Section Smt.
Context `{Blake3}.

(** * Subtree hashes *)

(** [h.push(hash_node(&h[i], &h[i]))] for [i] in [0..n], on a table [acc] whose
    last entry is [last]. *)
Fixpoint empty_hashes_loop (n : nat) (last : hash32) (is_v2 : bool) : list hash32 :=
  match n with
  | O => []
  | S n => let parent := hash_node last last is_v2 in parent :: empty_hashes_loop n parent is_v2
  end.

Definition init_empty_hashes (is_v2 : bool) : list hash32 :=
  zero_arr 32 :: empty_hashes_loop SMT_HEIGHT (zero_arr 32) is_v2.

(** [table[height]]; callers pass [height <= 256]. *)
Definition get_empty_hash (height : nat) (is_v2 : bool) : hash32 :=
  default (zero_arr 32) (init_empty_hashes is_v2 !! height).

Fixpoint compute_sparse_subtree (height : nat) (cs : list hash32) (is_v2 : bool) : hash32 :=
  match cs with
  | [] => get_empty_hash height is_v2
  | c :: _ =>
      match height with
      | O => c
      | S bit_idx =>
          let split_idx := partition_point (bit0 bit_idx) cs in
          hash_node (compute_sparse_subtree bit_idx (take split_idx cs) is_v2)
                    (compute_sparse_subtree bit_idx (drop split_idx cs) is_v2) is_v2
      end
  end.

(** The siblings pushed to [out], deepest first. *)
Fixpoint extract_path_siblings (height : nat) (cs : list hash32) (target : hash32)
    (out : list ProofElement) (is_v2 : bool) : list ProofElement :=
  match height with
  | O => out
  | S bit_idx =>
      let split_idx := partition_point (bit0 bit_idx) cs in
      let left_coins := take split_idx cs in
      let right_coins := drop split_idx cs in
      if get_bit target bit_idx =? 0 then
        let sibling_hash := compute_sparse_subtree bit_idx right_coins is_v2 in
        let out := extract_path_siblings bit_idx left_coins target out is_v2 in
        out ++ [{| elem_hash := sibling_hash; elem_is_right := true |}]
      else
        let sibling_hash := compute_sparse_subtree bit_idx left_coins is_v2 in
        let out := extract_path_siblings bit_idx right_coins target out is_v2 in
        out ++ [{| elem_hash := sibling_hash; elem_is_right := false |}]
  end.

(** * The accumulator *)

Definition get_node (ns : gmap (Z * Z) hash32) (height : nat) (path : hash32) (is_v2 : bool)
    : hash32 :=
  default (get_empty_hash height is_v2) (ns !! cache_key height path).

(** Cache a node, or evict it when its subtree is empty. *)
Definition set_node (ns : gmap (Z * Z) hash32) (height : nat) (path : hash32) (h : hash32)
    (is_v2 : bool) : gmap (Z * Z) hash32 :=
  if bool_decide (h = get_empty_hash height is_v2)
  then delete (cache_key height path) ns
  else <[cache_key height path := h]> ns.

(** One iteration of the ripple: [(nodes, current_path, hash_to_ripple)]. *)
Definition ripple_step (is_v2 : bool) (st : gmap (Z * Z) hash32 * hash32 * hash32) (h : nat)
    : gmap (Z * Z) hash32 * hash32 * hash32 :=
  let '(ns, current_path, hash_to_ripple) := st in
  let bit := get_bit current_path h in
  let sibling_path := flip_bit current_path h in
  let sibling_hash := get_node ns h sibling_path is_v2 in
  let parent_hash :=
    if bit =? 0 then hash_node hash_to_ripple sibling_hash is_v2
    else hash_node sibling_hash hash_to_ripple is_v2 in
  let current_path := mask_lower_bits current_path (h + 1) in
  (set_node ns (h + 1) current_path parent_hash is_v2, current_path, parent_hash).

Definition cached_heights : list nat := seq CACHE_MIN_HEIGHT (SMT_HEIGHT - CACHE_MIN_HEIGHT).

Definition update_cache_for_bucket (prefix : Z) (bucket : gset hash32) (is_v2 : bool)
    (ns : gmap (Z * Z) hash32) : gmap (Z * Z) hash32 :=
  let bucket_hash := compute_sparse_subtree CACHE_MIN_HEIGHT (ord_list bucket) is_v2 in
  let current_path := path_from_top16 prefix in
  let ns := set_node ns CACHE_MIN_HEIGHT current_path bucket_hash is_v2 in
  (foldl (ripple_step is_v2) (ns, current_path, bucket_hash) cached_heights).1.1.

(** [staging.entry(prefix).or_default().insert(coin)]. *)
Definition stage (st : gmap Z (gset hash32)) (coin : hash32) : gmap Z (gset hash32) :=
  <[top16 coin := {[coin]} ∪ default ∅ (st !! top16 coin)]> st.

Definition staging (cs : gset hash32) : gmap Z (gset hash32) := foldl stage ∅ (ord_list cs).

(** One iteration of the second pass of [rebuild_tree]. *)
Definition rebuild_bucket (is_v2 : bool) (a : UtxoAccumulator) (e : Z * gset hash32)
    : UtxoAccumulator :=
  {| coins := coins a;
     buckets := <[e.1 := e.2]> (buckets a);
     smt_nodes := update_cache_for_bucket e.1 e.2 is_v2 (smt_nodes a) |}.

(** [order] is the iteration order of the staging [HashMap], which Rust leaves
    unspecified (it is seeded at random). *)
Definition rebuild_tree (order : gmap Z (gset hash32) -> list (Z * gset hash32)) (is_v2 : bool)
    (a : UtxoAccumulator) : UtxoAccumulator :=
  foldl (rebuild_bucket is_v2) {| coins := coins a; smt_nodes := ∅; buckets := ∅ |}
    (order (staging (coins a))).

Definition from_canonical_coins order (cs : gset hash32) (is_v2 : bool) : UtxoAccumulator :=
  rebuild_tree order is_v2 {| coins := cs; smt_nodes := ∅; buckets := ∅ |}.

Definition insert (coin : hash32) (is_v2 : bool) (a : UtxoAccumulator) : bool * UtxoAccumulator :=
  if bool_decide (coin ∈ coins a) then (false, a)
  else
    let prefix := top16 coin in
    let bucket := {[coin]} ∪ default ∅ (buckets a !! prefix) in
    (true, {| coins := {[coin]} ∪ coins a;
              buckets := <[prefix := bucket]> (delete prefix (buckets a));
              smt_nodes := update_cache_for_bucket prefix bucket is_v2 (smt_nodes a) |}).

Definition remove (coin : hash32) (is_v2 : bool) (a : UtxoAccumulator) : bool * UtxoAccumulator :=
  if negb (bool_decide (coin ∈ coins a)) then (false, a)
  else
    let prefix := top16 coin in
    let bucket := default ∅ (buckets a !! prefix) ∖ {[coin]} in
    let bs := delete prefix (buckets a) in
    if bool_decide (bucket = ∅) then
      (true, {| coins := coins a ∖ {[coin]}; buckets := bs;
                smt_nodes := update_cache_for_bucket prefix ∅ is_v2 (smt_nodes a) |})
    else
      (true, {| coins := coins a ∖ {[coin]}; buckets := <[prefix := bucket]> bs;
                smt_nodes := update_cache_for_bucket prefix bucket is_v2 (smt_nodes a) |}).

Definition from_set (cs : list hash32) (is_v2 : bool) : UtxoAccumulator :=
  foldl (fun a c => (insert c is_v2 a).2) acc_new cs.

Definition root (is_v2 : bool) (a : UtxoAccumulator) : hash32 :=
  get_node (smt_nodes a) SMT_HEIGHT (zero_arr 32) is_v2.

(** The top sixteen levels of a proof: [(current_path, siblings)]. *)
Definition prove_step (ns : gmap (Z * Z) hash32) (coin : hash32) (is_v2 : bool)
    (st : hash32 * list ProofElement) (h : nat) : hash32 * list ProofElement :=
  let '(current_path, sibs) := st in
  let bit := get_bit coin h in
  let sibling_path := flip_bit current_path h in
  let sibling_hash := get_node ns h sibling_path is_v2 in
  (mask_lower_bits current_path (h + 1),
   sibs ++ [{| elem_hash := sibling_hash; elem_is_right := bit =? 0 |}]).

Definition prove (coin : hash32) (is_v2 : bool) (a : UtxoAccumulator) : res SmtError UtxoProof :=
  _ ← bail_if (negb (contains coin a)) CoinNotInAccumulator;
  let prefix := top16 coin in
  let bucket := default ∅ (buckets a !! prefix) in
  let sibs := extract_path_siblings CACHE_MIN_HEIGHT (ord_list bucket) coin [] is_v2 in
  Ok {| leaf_index := 0; proof_leaf_count := acc_len a;
        utxo_siblings :=
          (foldl (prove_step (smt_nodes a) coin is_v2) (path_from_top16 prefix, sibs)
             cached_heights).2 |}.

Fixpoint verify_loop (coin : hash32) (h : nat) (current : hash32) (sibs : list ProofElement)
    (is_v2 : bool) : option hash32 :=
  match sibs with
  | [] => Some current
  | elem :: sibs =>
      let expected_is_right := get_bit coin h =? 0 in
      if negb (bool_decide (elem_is_right elem = expected_is_right)) then None
      else
        verify_loop coin (S h)
          (if elem_is_right elem then hash_node current (elem_hash elem) is_v2
           else hash_node (elem_hash elem) current is_v2) sibs is_v2
  end.

Definition verify_utxo_proof (coin : hash32) (proof : UtxoProof) (expected_root : hash32)
    (is_v2 : bool) : bool :=
  if negb (length (utxo_siblings proof) =? SMT_HEIGHT)%nat then false
  else match verify_loop coin 0 coin (utxo_siblings proof) is_v2 with
       | Some current => bool_decide (current = expected_root)
       | None => false
       end.

End Smt.

(** * Paths as integers *)

(** [p] is the path of the [q]-th node of height [h]. *)
Definition is_path (p : hash32) (h : nat) (q : Z) : Prop :=
  be_val p = q * 2 ^ Z.of_nat h.

Lemma lookup_cons_S {A} (x : A) l n : (x :: l) !! S n = l !! n.
Proof. reflexivity. Qed.

Lemma testbit_be_val l : forall i, (i < 8 * length l)%nat ->
  Z.testbit (be_val l) (Z.of_nat i)
  = Z.testbit (bval (default x00 (l !! (length l - 1 - i / 8)%nat))) (Z.of_nat (i mod 8)).
Proof.
  induction l as [|b l IH]; intros i Hi; [simpl in Hi; lia|].
  rewrite length_cons in Hi. rewrite be_val_cons.
  pose proof (be_val_range l) as R. set (k := 8 * Z.of_nat (length l)) in *.
  rewrite Z.add_comm.
  destruct (decide (i < 8 * length l)%nat) as [Hl|Hl].
  - rewrite length_cons. replace (S (length l) - 1 - i / 8)%nat with (S (length l - 1 - i / 8))
      by (pose proof (Nat.Div0.div_lt_upper_bound i 8 (length l) ltac:(lia)); lia).
    rewrite lookup_cons_S, <- IH by exact Hl.
    rewrite <- (Z.mod_pow2_bits_low (_ + _) k) by lia.
    rewrite Z.mod_add by lia. rewrite Z.mod_small by exact R. reflexivity.
  - assert (E : (i / 8 = length l)%nat) by (symmetry; apply Nat.div_unique with (i - 8 * length l)%nat; lia).
    assert (Em : (i mod 8 = i - 8 * length l)%nat) by (pose proof (Nat.div_mod i 8 ltac:(lia)); lia).
    rewrite length_cons, E, Em. replace (S (length l) - 1 - length l)%nat with 0%nat by lia.
    change (default x00 ((b :: l) !! 0%nat)) with b.
    replace (Z.of_nat i) with (Z.of_nat (i - 8 * length l) + k) by lia.
    rewrite <- Z.div_pow2_bits by lia.
    rewrite Z.div_add by lia. rewrite Z.div_small by exact R. reflexivity.
Qed.

Lemma testbit_be_val_high l i : (8 * length l <= i)%nat -> Z.testbit (be_val l) (Z.of_nat i) = false.
Proof.
  intros Hi. pose proof (be_val_range l) as [R1 R2].
  destruct (Z.eq_dec (be_val l) 0) as [->|NE]; [apply Z.testbit_0_l|].
  apply Z.bits_above_log2; [exact R1|]. apply Z.log2_lt_pow2; [lia|].
  eapply Z.lt_le_trans; [exact R2|]. apply Z.pow_le_mono_r; lia.
Qed.

(** Two paths agree when all their bits do. *)
Lemma be_val_bits (l : bytes) z :
  0 <= z < 2 ^ (8 * Z.of_nat (length l)) ->
  (forall i, (i < 8 * length l)%nat -> Z.testbit (be_val l) (Z.of_nat i) = Z.testbit z (Z.of_nat i)) ->
  be_val l = z.
Proof.
  intros Hz Hb. apply Z.bits_inj'. intros n Hn. rewrite <- (Z2Nat.id n) by exact Hn.
  destruct (decide (Z.to_nat n < 8 * length l)%nat); [apply Hb; assumption|].
  rewrite testbit_be_val_high by lia. symmetry.
  rewrite <- (Z.mod_small z (2 ^ (8 * Z.of_nat (length l)))) by exact Hz.
  apply Z.mod_pow2_bits_high. lia.
Qed.

Lemma byte_at_testbit (p : hash32) i : (i < 256)%nat ->
  Z.testbit (be_val p) (Z.of_nat i) = Z.testbit (byte_at p i) (Z.of_nat (i mod 8)).
Proof.
  intros Hi. rewrite testbit_be_val by (rewrite arr_length; lia).
  rewrite arr_length. reflexivity.
Qed.

Lemma get_bit_testbit (p : hash32) i : (i < 256)%nat ->
  get_bit p i = Z.b2z (Z.testbit (be_val p) (Z.of_nat i)).
Proof.
  intros Hi. rewrite byte_at_testbit by exact Hi. unfold get_bit.
  change 1 with (Z.ones 1). rewrite Z.land_ones by lia. change (2 ^ 1) with 2.
  rewrite Zmod_odd, <- Z.bit0_odd, Z.shiftr_spec by lia. rewrite Z.add_0_l.
  destruct (Z.testbit _ _); reflexivity.
Qed.

Lemma bit0_testbit i c : (i < 256)%nat ->
  bit0 i c = negb (Z.testbit (be_val c) (Z.of_nat i)).
Proof. intros Hi. unfold bit0. rewrite get_bit_testbit by exact Hi. destruct (Z.testbit _ _); reflexivity. Qed.

Lemma get_bit_path p h q : (h < 256)%nat -> is_path p h q -> get_bit p h = q mod 2.
Proof.
  intros Hh E. rewrite get_bit_testbit, E by exact Hh.
  rewrite Z.mul_pow2_bits by lia. rewrite Z.sub_diag, Z.bit0_odd, Zmod_odd.
  destruct (Z.odd q); reflexivity.
Qed.

Lemma fit32 l : length l = 32%nat -> arr_list (arr_of 32 l) = l.
Proof. apply arr_of_id. Qed.

Lemma div8_lt i : (i < 256)%nat -> (i / 8 < 32)%nat.
Proof. intros. apply Nat.Div0.div_lt_upper_bound; lia. Qed.

Lemma bval_bits b k : (8 <= k)%Z -> Z.testbit (bval b) k = false.
Proof.
  intros Hk. rewrite <- (b8_bval b), bval_b8. change 256 with (2 ^ 8).
  apply Z.mod_pow2_bits_high. lia.
Qed.

(** The byte holding bit [i] is the byte number [j] exactly when [i / 8 = 31 - j]. *)
Lemma flip_bit_val (p : hash32) i : (i < 256)%nat ->
  be_val (flip_bit p i) = Z.lxor (be_val p) (2 ^ Z.of_nat i).
Proof.
  intros Hi. unfold flip_bit. pose proof (div8_lt i Hi) as Hd.
  assert (HL : length (<[(31 - i / 8)%nat := b8 (Z.lxor (byte_at p i) (Z.shiftl 1 (Z.of_nat (i mod 8))))]>
                 (arr_list p)) = 32%nat) by (rewrite length_insert; apply arr_length).
  rewrite fit32 by exact HL. apply be_val_bits.
  - rewrite HL. pose proof (arr_be_val_range p) as R. change (8 * Z.of_nat 32) with 256 in *.
    assert (0 <= Z.lxor (be_val p) (2 ^ Z.of_nat i))
      by (apply Z.lxor_nonneg; split; intros; lia).
    split; [assumption|]. destruct (Z.eq_dec (Z.lxor (be_val p) (2 ^ Z.of_nat i)) 0) as [->|NE]; [lia|].
    apply Z.log2_lt_pow2; [lia|]. eapply Z.le_lt_trans; [apply Z.log2_lxor; lia|].
    apply Z.max_lub_lt; [|rewrite Z.log2_pow2 by lia; lia].
    destruct (Z.eq_dec (be_val p) 0) as [->|NE2]; [reflexivity|]. apply Z.log2_lt_pow2; lia.
  - intros j. rewrite HL. intros Hj. change (8 * 32)%nat with 256%nat in Hj.
    rewrite testbit_be_val by (rewrite HL; lia). rewrite HL, Z.lxor_spec.
    rewrite byte_at_testbit by exact Hj. change (32 - 1 - j / 8)%nat with (31 - j / 8)%nat.
    rewrite Z.pow2_bits_eqb by lia. pose proof (div8_lt j Hj) as Hdj.
    pose proof (Nat.div_mod i 8 ltac:(lia)). pose proof (Nat.div_mod j 8 ltac:(lia)).
    destruct (decide (i / 8 = j / 8)%nat) as [E|E].
    + rewrite <- E, list_lookup_insert_eq by (rewrite arr_length; lia). cbn [default from_option id].
      rewrite bval_b8. change 256 with (2 ^ 8).
      pose proof (Nat.mod_upper_bound j 8 ltac:(lia)).
      rewrite Z.mod_pow2_bits_low by lia. rewrite Z.lxor_spec, Z.shiftl_1_l, Z.pow2_bits_eqb by lia.
      unfold byte_at. rewrite E. f_equal.
      destruct (Z.eqb_spec (Z.of_nat (i mod 8)) (Z.of_nat (j mod 8))), (Z.eqb_spec (Z.of_nat i) (Z.of_nat j));
        reflexivity || (exfalso; lia).
    + rewrite list_lookup_insert_ne by lia. unfold byte_at.
      destruct (Z.eqb_spec (Z.of_nat i) (Z.of_nat j)) as [E2|]; [|rewrite xorb_false_r; reflexivity].
      exfalso. apply E. f_equal. lia.
Qed.

Lemma flip_bit_path p h q : (h < 256)%nat -> is_path p h q ->
  is_path (flip_bit p h) h (if Z.even q then q + 1 else q - 1).
Proof.
  intros Hh E. unfold is_path in *. rewrite flip_bit_val, E by exact Hh.
  rewrite <- (Z.mul_1_l (2 ^ Z.of_nat h)) at 2. rewrite <- !Z.shiftl_mul_pow2 by lia.
  rewrite <- Z.shiftl_lxor. f_equal. apply Z.bits_inj'. intros n Hn.
  rewrite Z.lxor_spec. pose proof (Zdiv2_odd_eqn q) as Eq. rewrite <- Z.negb_odd.
  change 1 with (2 * 0 + 1) at 1.
  destruct (Z.eq_dec n 0) as [->|Hn0].
  - rewrite !Z.bit0_odd. destruct (Z.odd q) eqn:O; simpl negb; cbv iota; rewrite ?Z.odd_add, ?Z.odd_sub, ?O; reflexivity.
  - replace n with (Z.succ (n - 1)) by lia. rewrite Z.testbit_odd_succ by lia.
    rewrite Z.testbit_0_l, xorb_false_r.
    destruct (Z.odd q) eqn:O; simpl negb; cbv iota.
    + replace (q - 1) with (2 * Z.div2 q) by lia. rewrite Z.testbit_even_succ by lia.
      rewrite Eq at 1. rewrite Z.testbit_odd_succ by lia. reflexivity.
    + replace (q + 1) with (2 * Z.div2 q + 1) by lia. rewrite Z.testbit_odd_succ by lia.
      rewrite Eq at 1. rewrite Z.add_0_r. rewrite Z.testbit_even_succ by lia. reflexivity.
Qed.

Lemma mask_byte_bits a b : (a < 8)%nat -> (b < 8)%nat ->
  Z.testbit (255 - (Z.shiftl 1 (Z.of_nat a) - 1)) (Z.of_nat b) = (a <=? b)%nat.
Proof. intros Ha Hb. do 8 (destruct a as [|a]; [do 8 (destruct b as [|b]; [reflexivity|]); lia|]). lia. Qed.

Lemma be_val_small_bits (l : bytes) z :
  0 <= z <= be_val l ->
  (forall i, (i < 8 * length l)%nat -> Z.testbit (be_val l) (Z.of_nat i) = Z.testbit z (Z.of_nat i)) ->
  be_val l = z.
Proof. intros Hz. apply be_val_bits. pose proof (be_val_range l). lia. Qed.

Lemma mask_lower_bits_list (p : hash32) h : (0 < h <= 256)%nat ->
  exists l, mask_lower_bits p h = arr_of 32 l /\ length l = 32%nat
  /\ forall j, (j < 256)%nat ->
     Z.testbit (bval (default x00 (l !! (31 - j / 8)%nat))) (Z.of_nat (j mod 8))
     = (h <=? j)%nat && Z.testbit (be_val p) (Z.of_nat j).
Proof.
  intros Hh. unfold mask_lower_bits. destruct (Nat.eqb_spec h 0); [lia|].
  pose proof (arr_length p) as HP.
  pose proof (Nat.div_mod h 8 ltac:(lia)) as DM. pose proof (Nat.mod_upper_bound h 8 ltac:(lia)) as MB.
  set (fb := (h / 8)%nat) in *. set (pb := (h mod 8)%nat) in *. cbv zeta.
  assert (Hfb : (fb <= 32)%nat) by lia.
  set (path := take (32 - fb) (arr_list p) ++ replicate fb x00).
  assert (HLp : length path = 32%nat)
    by (unfold path; rewrite length_app, length_take, length_replicate, HP; lia).
  assert (B : forall j, (j < 256)%nat ->
    default x00 (path !! (31 - j / 8)%nat)
    = if (j / 8 <? fb)%nat then x00 else default x00 (arr_list p !! (31 - j / 8)%nat)).
  { intros j Hj. pose proof (div8_lt j Hj). unfold path. destruct (Nat.ltb_spec (j / 8) fb).
    - rewrite lookup_app_r; rewrite length_take, HP; [|lia].
      rewrite lookup_replicate_2 by lia. reflexivity.
    - rewrite lookup_app_l by (rewrite length_take, HP; lia). rewrite lookup_take_lt by lia. reflexivity. }
  assert (X0 : forall k, Z.testbit (bval x00) k = false) by (intros; apply Z.testbit_0_l).
  destruct (Nat.ltb_spec 0 pb) as [Hpb|Hpb]; cycle 1.
  - rewrite andb_false_l. exists path. split; [reflexivity|]. split; [exact HLp|].
    intros j Hj. rewrite B by exact Hj. rewrite byte_at_testbit by exact Hj. unfold byte_at.
    pose proof (Nat.div_mod j 8 ltac:(lia)). pose proof (Nat.mod_upper_bound j 8 ltac:(lia)).
    destruct (Nat.ltb_spec (j / 8) fb), (Nat.leb_spec h j); rewrite ?X0; try reflexivity; exfalso; lia.
  - destruct (Nat.ltb_spec 0 (32 - fb)); [|lia]. rewrite andb_true_l.
    eexists. split; [reflexivity|]. split; [rewrite length_insert; exact HLp|].
    intros j Hj. rewrite byte_at_testbit by exact Hj. unfold byte_at.
    pose proof (Nat.div_mod j 8 ltac:(lia)). pose proof (Nat.mod_upper_bound j 8 ltac:(lia)).
    pose proof (div8_lt j Hj).
    destruct (decide (j / 8 = fb)%nat) as [E|E].
    + replace (31 - j / 8)%nat with (32 - fb - 1)%nat by lia.
      rewrite list_lookup_insert_eq by lia. cbn [default from_option id].
      replace (32 - fb - 1)%nat with (31 - j / 8)%nat by lia.
      rewrite B by exact Hj. destruct (Nat.ltb_spec (j / 8) fb); [lia|].
      rewrite bval_b8. change 256 with (2 ^ 8). rewrite Z.mod_pow2_bits_low by lia.
      rewrite Z.land_spec, mask_byte_bits by lia. rewrite andb_comm. f_equal.
      destruct (Nat.leb_spec pb (j mod 8)), (Nat.leb_spec h j); reflexivity || (exfalso; lia).
    + rewrite list_lookup_insert_ne by lia. rewrite B by exact Hj.
      destruct (Nat.ltb_spec (j / 8) fb), (Nat.leb_spec h j); rewrite ?X0; try reflexivity; exfalso; lia.
Qed.

Lemma mask_lower_bits_val (p : hash32) h : (0 < h <= 256)%nat ->
  be_val (mask_lower_bits p h) = be_val p / 2 ^ Z.of_nat h * 2 ^ Z.of_nat h.
Proof.
  intros Hh. destruct (mask_lower_bits_list p h Hh) as (l & -> & HL & HB).
  rewrite fit32 by exact HL. rewrite <- Z.shiftr_div_pow2, <- Z.shiftl_mul_pow2 by lia.
  apply be_val_bits.
  - rewrite HL. pose proof (arr_be_val_range p) as R. change (8 * Z.of_nat 32) with 256 in *.
    rewrite Z.shiftr_div_pow2, Z.shiftl_mul_pow2 by lia.
    pose proof (Z.pow_pos_nonneg 2 (Z.of_nat h) ltac:(lia) ltac:(lia)) as HM.
    pose proof (Z.mul_div_le (be_val p) _ HM). pose proof (Z.div_pos (be_val p) _ ltac:(lia) HM).
    split; [apply Z.mul_nonneg_nonneg|]; lia.
  - rewrite HL. intros j Hj. change (8 * 32)%nat with 256%nat in Hj.
    rewrite testbit_be_val by (rewrite HL; lia). rewrite HL. change (32 - 1)%nat with 31%nat.
    rewrite HB by exact Hj. rewrite Z.shiftl_spec by lia.
    destruct (Nat.leb_spec h j).
    + rewrite andb_true_l, Z.shiftr_spec by lia. f_equal. lia.
    + rewrite (Z.testbit_neg_r _ (Z.of_nat j - Z.of_nat h)) by lia. reflexivity.
Qed.

Lemma mask_path p h q : (h < 256)%nat -> is_path p h q ->
  is_path (mask_lower_bits p (h + 1)) (h + 1) (q / 2).
Proof.
  intros Hh E. unfold is_path in *. rewrite mask_lower_bits_val by lia. f_equal.
  rewrite E, Nat2Z.inj_add, Z.pow_add_r by lia. change (2 ^ Z.of_nat 1) with 2.
  rewrite (Z.mul_comm (2 ^ Z.of_nat h)). apply Z.div_mul_cancel_r; lia.
Qed.

Lemma top16_val (p : hash32) : top16 p = be_val p / 2 ^ 240.
Proof.
  unfold top16. rewrite <- (take_drop 2 (arr_list p)) at 2. rewrite be_val_app.
  pose proof (be_val_range (drop 2 (arr_list p))) as R.
  rewrite length_drop, arr_length in *. change (8 * Z.of_nat (32 - 2)) with 240 in *.
  rewrite Z.div_add_l by lia. rewrite Z.div_small by exact R. lia.
Qed.

Lemma path_from_top16_path t : 0 <= t < 2 ^ 16 -> is_path (path_from_top16 t) CACHE_MIN_HEIGHT t.
Proof.
  intros Ht. unfold is_path, path_from_top16. simpl arr_list. unfold fit.
  rewrite take_app_ge by (rewrite length_be_bytes; lia). rewrite length_be_bytes.
  rewrite be_val_app, be_val_small by exact Ht.
  rewrite take_replicate.
  assert (be_val (replicate ((32 - 2) `min` 32) x00) = 0) as -> by (vm_compute; reflexivity).
  rewrite Z.add_0_r. reflexivity.
Qed.

Lemma cache_key_path p h q : (CACHE_MIN_HEIGHT <= h)%nat -> is_path p h q ->
  cache_key h p = (Z.of_nat h, q * 2 ^ (Z.of_nat h - 240)).
Proof.
  unfold CACHE_MIN_HEIGHT. intros Hh E. unfold cache_key. f_equal. rewrite top16_val, E.
  replace (Z.of_nat h) with ((Z.of_nat h - 240) + 240) at 1 by lia.
  rewrite Z.pow_add_r by lia. rewrite Z.mul_assoc. apply Z.div_mul. lia.
Qed.

(** * The reference tree

    [smt_hash h C] hashes the perfect binary tree of height [h] whose leaves are
    the coins of [C] at their path and the zero hash elsewhere. *)

Definition bit_of (i : nat) (c : hash32) : bool := Z.testbit (be_val c) (Z.of_nat i).

(** The coins below the [q]-th node of height [h]. *)
Definition below (h : nat) (q : Z) (C : gset hash32) : gset hash32 :=
  filter (fun c : hash32 => be_val c / 2 ^ Z.of_nat h = q) C.

Lemma elem_of_below h q C (c : hash32) : c ∈ below h q C <-> be_val c / 2 ^ Z.of_nat h = q /\ c ∈ C.
Proof. unfold below. rewrite elem_of_filter. reflexivity. Qed.

Lemma prefix_succ v h : 0 <= v ->
  v / 2 ^ Z.of_nat h = 2 * (v / 2 ^ Z.of_nat (S h)) + Z.b2z (Z.testbit v (Z.of_nat h)).
Proof.
  intros Hv. rewrite Nat2Z.inj_succ, Z.pow_succ_r by lia.
  rewrite (Z.mul_comm 2 (2 ^ _)), <- Z.div_div by lia.
  rewrite <- Z.div2_div, Z.testbit_odd, Z.shiftr_div_pow2 by lia.
  rewrite (Zdiv2_odd_eqn (v / 2 ^ Z.of_nat h)) at 1. destruct (Z.odd _); reflexivity.
Qed.

Lemma below_child h q b C :
  filter (fun c => bit_of h c = b) (below (S h) q C) = below h (2 * q + Z.b2z b) C.
Proof.
  apply set_eq. intros c. rewrite elem_of_filter, !elem_of_below.
  pose proof (prefix_succ (be_val c) h (proj1 (be_val_range c))) as E. unfold bit_of.
  destruct (Z.testbit (be_val c) (Z.of_nat h)), b; simpl Z.b2z in *; split; intros; destruct_and?;
    try discriminate; try (exfalso; lia); repeat split; try assumption; lia.
Qed.

Lemma below_0 (c : hash32) C : below 0 (be_val c) C = if bool_decide (c ∈ C) then {[c]} else ∅.
Proof.
  apply set_eq. intros x. rewrite elem_of_below, Z.div_1_r.
  case_bool_decide as Hc.
  - rewrite elem_of_singleton. split; [intros [E _]; apply arr_be_val_inj, E|intros ->; auto].
  - split; [intros [E Hx]|set_solver]. apply arr_be_val_inj in E. subst. contradiction.
Qed.

Lemma below_all C : below SMT_HEIGHT 0 C = C.
Proof.
  apply set_eq. intros c. rewrite elem_of_below. split; [intros [_ ?]; assumption|].
  intros Hc. split; [|exact Hc]. apply Z.div_small. exact (arr_be_val_range c).
Qed.

Section Reference.
Context `{Blake3}.
Context (v2 : bool).

Fixpoint smt_hash (h : nat) (C : gset hash32) : hash32 :=
  match h with
  | O => match elements C with [] => zero_arr 32 | c :: _ => c end
  | S h =>
      hash_node (smt_hash h (filter (fun c => bit_of h c = false) C))
                (smt_hash h (filter (fun c => bit_of h c = true) C)) v2
  end.

Definition smt_root (C : gset hash32) : hash32 := smt_hash SMT_HEIGHT C.

(** The hash of the [q]-th node of height [h]. *)
Definition smt_node (C : gset hash32) (h : nat) (q : Z) : hash32 := smt_hash h (below h q C).

Lemma smt_node_child C h q :
  smt_node C (S h) q = hash_node (smt_node C h (2 * q)) (smt_node C h (2 * q + 1)) v2.
Proof.
  unfold smt_node. cbn [smt_hash]. rewrite !below_child. simpl Z.b2z.
  rewrite Z.add_0_r. reflexivity.
Qed.

Lemma smt_node_root C : smt_node C SMT_HEIGHT 0 = smt_root C.
Proof. unfold smt_node, smt_root. rewrite below_all. reflexivity. Qed.

Lemma smt_node_leaf C (c : hash32) :
  smt_node C 0 (be_val c) = if bool_decide (c ∈ C) then c else zero_arr 32.
Proof.
  unfold smt_node. rewrite below_0. cbn [smt_hash]. case_bool_decide.
  - rewrite elements_singleton. reflexivity.
  - rewrite elements_empty. reflexivity.
Qed.

Lemma filter_empty_set (P : hash32 -> Prop) {dec : forall x, Decision (P x)} :
  filter P (∅ : gset hash32) = ∅.
Proof. apply set_eq. intros x. rewrite elem_of_filter. set_solver. Qed.

Lemma empty_hashes_lookup n : forall last i x,
  empty_hashes_loop n last v2 !! i = Some x ->
  (i = 0%nat /\ x = hash_node last last v2)
  \/ exists j y, i = S j /\ empty_hashes_loop n last v2 !! j = Some y /\ x = hash_node y y v2.
Proof.
  induction n as [|n IH]; intros last i x; cbn [empty_hashes_loop]; [discriminate|].
  destruct i as [|i]; cbv zeta; [intros [= <-]; auto|]. rewrite lookup_cons_S. intros E.
  right. destruct (IH _ _ _ E) as [[-> ->]|(j & y & -> & E2 & ->)].
  - exists 0%nat. eexists. split; [reflexivity|]. split; reflexivity.
  - exists (S j), y. rewrite lookup_cons_S. auto.
Qed.

Lemma length_empty_hashes n last : length (empty_hashes_loop n last v2) = n.
Proof. revert last; induction n; intros; cbn [empty_hashes_loop]; cbv zeta; simpl; auto. Qed.

Lemma get_empty_hash_S h : (h < SMT_HEIGHT)%nat ->
  get_empty_hash (S h) v2 = hash_node (get_empty_hash h v2) (get_empty_hash h v2) v2.
Proof.
  intros Hh. unfold get_empty_hash, init_empty_hashes. rewrite lookup_cons_S.
  destruct (lookup_lt_is_Some_2 (empty_hashes_loop SMT_HEIGHT (zero_arr 32) v2) h) as [x E];
    [rewrite length_empty_hashes; exact Hh|].
  rewrite E. destruct (empty_hashes_lookup _ _ _ _ E) as [[-> ->]|(j & y & -> & E2 & ->)];
    [reflexivity|]. rewrite lookup_cons_S, E2. reflexivity.
Qed.

Lemma smt_hash_empty h : (h <= SMT_HEIGHT)%nat -> smt_hash h ∅ = get_empty_hash h v2.
Proof.
  induction h as [|h IH]; intros Hh; cbn [smt_hash].
  - rewrite elements_empty. reflexivity.
  - rewrite !filter_empty_set, IH by lia. symmetry. apply get_empty_hash_S. lia.
Qed.

(** ** Splitting a sorted slice *)

Lemma partition_point_filter {A} (R : A -> A -> Prop) (p : A -> bool) l :
  StronglySorted R l -> (forall x y, x ∈ l -> y ∈ l -> R x y -> p y = true -> p x = true) ->
  take (partition_point p l) l = filter (fun x => p x = true) l
  /\ drop (partition_point p l) l = filter (fun x => p x = false) l.
Proof.
  induction 1 as [|x l Hs IH Hx]; intros Hm; [auto|]. cbn [partition_point].
  rewrite Forall_forall in Hx.
  destruct (p x) eqn:E; cbn [take drop].
  - destruct IH as [IH1 IH2]; [intros y z Hy Hz; apply Hm; set_solver +Hy Hz|].
    rewrite !filter_cons, !E, IH1, IH2. rewrite decide_True, decide_False by congruence. auto.
  - assert (F : forall y, y ∈ l -> p y = false).
    { intros y Hy. destruct (p y) eqn:Ey; [|reflexivity].
      rewrite (Hm x y) in E; [discriminate|set_solver|set_solver|apply Hx, Hy|exact Ey]. }
    clear -E F. rewrite !filter_cons, E. rewrite decide_False, decide_True by congruence.
    induction l as [|y l IH]; [auto|]. destruct IH as [IH1 IH2]; [set_solver|].
    rewrite !filter_cons, (F y) by set_solver. rewrite decide_False, decide_True by congruence.
    split; [exact IH1|]. injection IH2 as <-. reflexivity.
Qed.

Lemma sorted_filter {A} (R : A -> A -> Prop) (P : A -> Prop) {dec : forall x, Decision (P x)} l :
  StronglySorted R l -> StronglySorted R (filter P l).
Proof.
  induction 1 as [|x l Hs IH Hx]; [constructor|]. rewrite filter_cons. case_decide; [|exact IH].
  constructor; [exact IH|]. rewrite Forall_forall in *. intros y Hy.
  apply list_elem_of_filter in Hy as [_ Hy]. auto.
Qed.

(** The coins of [l] are sorted and share the node [q] of height [h]. *)
Definition slice_of (h : nat) (q : Z) (l : list hash32) : Prop :=
  StronglySorted arr_le l /\ Forall (fun c : hash32 => be_val c / 2 ^ Z.of_nat h = q) l.

Lemma slice_split h q l : (h < 256)%nat -> slice_of (S h) q l ->
  let k := partition_point (bit0 h) l in
  take k l = filter (fun c => bit_of h c = false) l
  /\ drop k l = filter (fun c => bit_of h c = true) l
  /\ slice_of h (2 * q) (take k l) /\ slice_of h (2 * q + 1) (drop k l).
Proof.
  intros Hh [HS HQ] k. rewrite Forall_forall in HQ.
  assert (P : forall c : hash32, c ∈ l -> be_val c / 2 ^ Z.of_nat h = 2 * q + Z.b2z (bit_of h c)).
  { intros c Hc. rewrite prefix_succ by apply be_val_range. rewrite (HQ c Hc). reflexivity. }
  assert (B : forall c, bit0 h c = negb (bit_of h c)) by (intros; apply bit0_testbit, Hh).
  destruct (partition_point_filter arr_le (bit0 h) l HS) as [E1 E2].
  { intros x y Hx Hy Hle. apply arr_le_be_val in Hle. rewrite !B.
    apply (Z.div_le_mono _ _ (2 ^ Z.of_nat h)) in Hle; [|lia].
    rewrite (P x Hx), (P y Hy) in Hle.
    destruct (bit_of h x), (bit_of h y); simpl in *; lia || auto. }
  fold k in E1, E2.
  assert (F1 : take k l = filter (fun c => bit_of h c = false) l).
  { rewrite E1. apply list_filter_iff. intros c. rewrite B. destruct (bit_of h c); split; auto. }
  assert (F2 : drop k l = filter (fun c => bit_of h c = true) l).
  { rewrite E2. apply list_filter_iff. intros c. rewrite B. destruct (bit_of h c); split; auto. }
  split; [exact F1|]. split; [exact F2|]. unfold slice_of. rewrite F1, F2.
  split; (split; [apply sorted_filter, HS|]); apply Forall_forall; intros c Hc;
    apply list_elem_of_filter in Hc as [Hb Hc]; rewrite (P c Hc), Hb; simpl; lia.
Qed.

Lemma list_to_set_filter (P : hash32 -> Prop) {dec : forall x, Decision (P x)} (l : list hash32) :
  (list_to_set (filter P l) : gset hash32) = filter P (list_to_set l).
Proof.
  apply set_eq. intros x. rewrite elem_of_filter, !elem_of_list_to_set, list_elem_of_filter. auto.
Qed.

Lemma sparse_subtree_hash h : forall q l, (h <= SMT_HEIGHT)%nat -> slice_of h q l ->
  compute_sparse_subtree h l v2 = smt_hash h (list_to_set l).
Proof.
  induction h as [|h IH]; intros q [|c l] Hh HS.
  - symmetry. apply smt_hash_empty. exact Hh.
  - destruct HS as [_ HQ]. cbn [compute_sparse_subtree smt_hash].
    assert ((list_to_set (c :: l) : gset hash32) = {[c]}) as ->; [|rewrite elements_singleton; reflexivity].
    apply set_eq. intros x. rewrite elem_of_list_to_set, elem_of_singleton.
    split; [|intros ->; set_solver]. intros Hx. rewrite Forall_forall in HQ.
    apply arr_be_val_inj. pose proof (HQ x Hx) as E1. pose proof (HQ c ltac:(set_solver)) as E2.
    rewrite Z.div_1_r in E1, E2. congruence.
  - symmetry. apply smt_hash_empty. exact Hh.
  - cbn [compute_sparse_subtree]. cbv zeta. unfold SMT_HEIGHT in *.
    destruct (slice_split h q (c :: l) ltac:(lia) HS) as (E1 & E2 & S1 & S2).
    rewrite (IH _ _ ltac:(lia) S1), (IH _ _ ltac:(lia) S2), E1, E2.
    rewrite !list_to_set_filter. reflexivity.
Qed.

Lemma ord_list_slice h q C : slice_of h q (ord_list (below h q C)).
Proof.
  split; [apply ord_list_sorted|]. apply Forall_forall. intros c Hc.
  apply elem_of_ord_list, elem_of_below in Hc. tauto.
Qed.

Lemma list_to_set_ord (C : gset hash32) : (list_to_set (ord_list C) : gset hash32) = C.
Proof. apply set_eq. intros x. rewrite elem_of_list_to_set. apply elem_of_ord_list. Qed.

Lemma sparse_subtree_node h q C : (h <= SMT_HEIGHT)%nat ->
  compute_sparse_subtree h (ord_list (below h q C)) v2 = smt_node C h q.
Proof.
  intros Hh. rewrite (sparse_subtree_hash h q) by (exact Hh || apply ord_list_slice).
  rewrite list_to_set_ord. reflexivity.
Qed.

End Reference.

(** * The cache invariant *)

(** The key under which node [q] of height [h] is cached. *)
Definition nkey (h : nat) (q : Z) : Z * Z := (Z.of_nat h, q * 2 ^ (Z.of_nat h - 240)).

Definition cached (h : nat) (q : Z) : Prop :=
  (CACHE_MIN_HEIGHT <= h <= SMT_HEIGHT)%nat /\ 0 <= q < 2 ^ (256 - Z.of_nat h).

Lemma nkey_inj h q h' q' : cached h q -> cached h' q' -> nkey h q = nkey h' q' -> h = h' /\ q = q'.
Proof.
  unfold cached, CACHE_MIN_HEIGHT. intros [? _] [? _] [= E1 E2]. assert (h = h') as -> by lia.
  split; [reflexivity|]. eapply Z.mul_reg_r; [|exact E2].
  pose proof (Z.pow_pos_nonneg 2 (Z.of_nat h' - 240)). lia.
Qed.

(** Ancestor of bucket [t] at height [h]. *)
Definition anc (t : Z) (h : nat) : Z := t / 2 ^ (Z.of_nat h - 240).

Lemma anc_240 t : anc t CACHE_MIN_HEIGHT = t.
Proof. unfold anc, CACHE_MIN_HEIGHT. simpl. apply Z.div_1_r. Qed.

Lemma anc_S t h : (CACHE_MIN_HEIGHT <= h)%nat -> anc t (S h) = anc t h / 2.
Proof.
  unfold CACHE_MIN_HEIGHT. intros Hh. unfold anc. rewrite Nat2Z.inj_succ.
  replace (Z.succ (Z.of_nat h) - 240) with (Z.of_nat h - 240 + 1) by lia.
  rewrite Z.pow_add_r by lia. change (2 ^ 1) with 2. symmetry. apply Z.div_div; lia.
Qed.

Lemma anc_cached t h : (CACHE_MIN_HEIGHT <= h <= SMT_HEIGHT)%nat -> 0 <= t < 2 ^ 16 -> cached h (anc t h).
Proof.
  unfold SMT_HEIGHT, CACHE_MIN_HEIGHT. intros Hh Ht. split; [exact Hh|]. unfold anc. split.
  - apply Z.div_pos; [lia|]. apply Z.pow_pos_nonneg; lia.
  - apply Z.div_lt_upper_bound; [apply Z.pow_pos_nonneg; lia|].
    rewrite <- Z.pow_add_r by lia. replace (_ + _) with 16 by lia. lia.
Qed.

Lemma anc_top16 (c : hash32) h : (CACHE_MIN_HEIGHT <= h)%nat ->
  anc (top16 c) h = be_val c / 2 ^ Z.of_nat h.
Proof.
  unfold CACHE_MIN_HEIGHT. intros Hh. unfold anc. rewrite top16_val.
  rewrite Z.div_div by lia. rewrite <- Z.pow_add_r by lia. do 2 f_equal. lia.
Qed.

Lemma top16_range (c : hash32) : 0 <= top16 c < 2 ^ 16.
Proof.
  unfold top16. pose proof (be_val_range (take 2 (arr_list c))) as R.
  rewrite length_take, arr_length in R. exact R.
Qed.

(** The sibling of node [q]. *)
Definition sib (q : Z) : Z := if Z.even q then q + 1 else q - 1.

Lemma sib_ne q : sib q <> q.
Proof. unfold sib. destruct (Z.even q); lia. Qed.

Lemma sib_cached h q : (h < SMT_HEIGHT)%nat -> cached h q -> cached h (sib q).
Proof.
  unfold SMT_HEIGHT. intros Hh [Hr Hq]. split; [exact Hr|]. unfold sib.
  assert (E : 2 ^ (256 - Z.of_nat h) = 2 * 2 ^ (255 - Z.of_nat h)).
  { rewrite <- Z.pow_succ_r by lia. f_equal. lia. }
  pose proof (Zdiv2_odd_eqn q) as D. rewrite <- Z.negb_odd. rewrite E in *.
  destruct (Z.odd q); simpl negb; cbv iota; lia.
Qed.

Section Cache.
Context `{Blake3}.
Context (v2 : bool).

Definition cache_entry (C : gset hash32) (h : nat) (q : Z) : option hash32 :=
  if bool_decide (smt_node v2 C h q = get_empty_hash h v2) then None
  else Some (smt_node v2 C h q).

Definition only_nodes (ns : gmap (Z * Z) hash32) : Prop :=
  forall k x, ns !! k = Some x -> exists h q, cached h q /\ k = nkey h q.

(** Every node is cached correctly, except the ancestors of [t] above [hH]. *)
Definition nodes_upto (ns : gmap (Z * Z) hash32) (C : gset hash32) (t : Z) (hH : nat) : Prop :=
  only_nodes ns
  /\ forall h q, cached h q -> (h <= hH)%nat \/ q <> anc t h -> ns !! nkey h q = cache_entry C h q.

Definition nodes_ok (ns : gmap (Z * Z) hash32) (C : gset hash32) : Prop :=
  only_nodes ns /\ forall h q, cached h q -> ns !! nkey h q = cache_entry C h q.

Lemma get_node_ok ns C h p q : is_path p h q -> cached h q ->
  ns !! nkey h q = cache_entry C h q -> get_node ns h p v2 = smt_node v2 C h q.
Proof.
  intros Hp [Hh Hq] E. unfold get_node. rewrite (cache_key_path p h q) by (apply Hh || exact Hp).
  fold (nkey h q). rewrite E. unfold cache_entry. case_bool_decide as B; [symmetry; exact B|reflexivity].
Qed.

Lemma set_node_lookup ns h p q x : is_path p h q -> cached h q ->
  set_node ns h p x v2 !! nkey h q = (if bool_decide (x = get_empty_hash h v2) then None else Some x)
  /\ forall k, k <> nkey h q -> set_node ns h p x v2 !! k = ns !! k.
Proof.
  intros Hp [Hh Hq]. unfold set_node. rewrite (cache_key_path p h q) by (apply Hh || exact Hp).
  fold (nkey h q). case_bool_decide; split; intros;
    rewrite ?lookup_delete_eq, ?lookup_insert_eq, ?lookup_delete_ne, ?lookup_insert_ne by auto; reflexivity.
Qed.

Lemma set_node_only ns h p q x : is_path p h q -> cached h q -> only_nodes ns ->
  only_nodes (set_node ns h p x v2).
Proof.
  intros Hp Hc HO k y E. destruct (set_node_lookup ns h p q x Hp Hc) as [_ E2].
  destruct (decide (k = nkey h q)) as [->|NE]; [eauto|]. rewrite E2 in E by exact NE. eauto.
Qed.

(** Writing the ancestor of [t] at the next height extends the correct part. *)
Lemma set_node_upto ns C t hH p x : (forall h q, cached h q -> (h < hH)%nat \/ q <> anc t h ->
    ns !! nkey h q = cache_entry C h q) -> only_nodes ns ->
  (CACHE_MIN_HEIGHT <= hH <= SMT_HEIGHT)%nat -> 0 <= t < 2 ^ 16 ->
  is_path p hH (anc t hH) -> x = smt_node v2 C hH (anc t hH) ->
  nodes_upto (set_node ns hH p x v2) C t hH.
Proof.
  intros HE HO HH Ht Hp ->. pose proof (anc_cached t hH HH Ht) as Hc.
  split; [eapply set_node_only; eassumption|]. intros h q Hq Hd.
  destruct (set_node_lookup ns hH p _ (smt_node v2 C hH (anc t hH)) Hp Hc) as [E1 E2].
  destruct (decide (h = hH /\ q = anc t hH)) as [[-> ->]|NE]; [exact E1|].
  rewrite E2.
  - apply HE; [exact Hq|]. destruct Hd as [Hd|Hd]; [|right; exact Hd].
    destruct (decide (h = hH)) as [->|]; [|left; lia]. right. intros ->. apply NE. auto.
  - intros E. apply nkey_inj in E as [-> ->]; [|exact Hq|exact Hc]. apply NE. auto.
Qed.

Lemma ripple_step_ok ns C t hH p : (CACHE_MIN_HEIGHT <= hH < SMT_HEIGHT)%nat -> 0 <= t < 2 ^ 16 ->
  nodes_upto ns C t hH -> is_path p hH (anc t hH) ->
  let '(ns', p', x') := ripple_step v2 (ns, p, smt_node v2 C hH (anc t hH)) hH in
  nodes_upto ns' C t (S hH) /\ is_path p' (S hH) (anc t (S hH)) /\ x' = smt_node v2 C (S hH) (anc t (S hH)).
Proof.
  intros HH Ht [HO HE] Hp. unfold ripple_step. unfold SMT_HEIGHT in HH.
  set (q := anc t hH) in *.
  assert (Hc : cached hH q) by (apply anc_cached; unfold SMT_HEIGHT; lia).
  pose proof (flip_bit_path p hH q ltac:(lia) Hp) as Hs. fold (sib q) in Hs.
  pose proof (sib_cached hH q ltac:(unfold SMT_HEIGHT; lia) Hc) as Hsc.
  rewrite (get_node_ok ns C hH _ _ Hs Hsc) by (apply HE; [exact Hsc|right; apply sib_ne]).
  rewrite (get_bit_path p hH q ltac:(lia) Hp).
  pose proof (mask_path p hH q ltac:(lia) Hp) as Hm. rewrite Nat.add_1_r in *.
  unfold q in Hm. rewrite <- anc_S in Hm by apply HH. fold q in Hm.
  assert (EX : (if q mod 2 =? 0 then hash_node (smt_node v2 C hH q) (smt_node v2 C hH (sib q)) v2
          else hash_node (smt_node v2 C hH (sib q)) (smt_node v2 C hH q) v2)
          = smt_node v2 C (S hH) (anc t (S hH))).
  { rewrite smt_node_child, anc_S by apply HH. fold q. unfold sib.
    rewrite Zmod_odd, <- Z.negb_odd. pose proof (Zdiv2_odd_eqn q) as D. rewrite Z.div2_div in D.
    destruct (Z.odd q); simpl; do 2 f_equal; lia. }
  rewrite EX. split; [|split; [exact Hm|reflexivity]].
  apply set_node_upto; try assumption; try reflexivity.
  - intros h q' Hq' Hd. apply HE; [exact Hq'|]. destruct Hd; [left; lia|right; assumption].
  - unfold SMT_HEIGHT. lia.
Qed.

Lemma ripple_ok n : forall ns C t hH p, (CACHE_MIN_HEIGHT <= hH)%nat -> (hH + n <= SMT_HEIGHT)%nat ->
  0 <= t < 2 ^ 16 -> nodes_upto ns C t hH -> is_path p hH (anc t hH) ->
  nodes_upto (foldl (ripple_step v2) (ns, p, smt_node v2 C hH (anc t hH)) (seq hH n)).1.1 C t (hH + n).
Proof.
  induction n as [|n IH]; intros ns C t hH p HH HN Ht HU Hp; cbn [seq foldl].
  - rewrite Nat.add_0_r. exact HU.
  - pose proof (ripple_step_ok ns C t hH p ltac:(lia) Ht HU Hp) as E.
    destruct (ripple_step v2 _ hH) as [[ns' p'] x']. destruct E as (U & P & ->).
    rewrite <- Nat.add_succ_comm. apply IH; try assumption; lia.
Qed.

Lemma nodes_upto_all ns C t : 0 <= t < 2 ^ 16 -> nodes_upto ns C t SMT_HEIGHT -> nodes_ok ns C.
Proof.
  intros Ht [HO HE]. split; [exact HO|]. intros h q Hc. apply HE; [exact Hc|].
  left. apply Hc.
Qed.

Lemma below_agree C C0 t h q : (CACHE_MIN_HEIGHT <= h)%nat -> q <> anc t h ->
  (forall c, top16 c <> t -> c ∈ C <-> c ∈ C0) -> below h q C = below h q C0.
Proof.
  intros Hh Hq HA. apply set_eq. intros c. rewrite !elem_of_below.
  destruct (decide (top16 c = t)) as [<-|NE]; [|rewrite HA by exact NE; reflexivity].
  rewrite anc_top16 in Hq by exact Hh. split; intros [? _]; congruence.
Qed.

(** Rewriting bucket [t] moves a correct cache of [C0] to a correct cache of [C],
    when the two coin sets differ in that bucket only. *)
Lemma update_cache_ok ns C0 C t : 0 <= t < 2 ^ 16 -> nodes_ok ns C0 ->
  (forall c, top16 c <> t -> c ∈ C <-> c ∈ C0) ->
  nodes_ok (update_cache_for_bucket t (below CACHE_MIN_HEIGHT t C) v2 ns) C.
Proof.
  intros Ht [HO HE] HA. unfold update_cache_for_bucket.
  rewrite sparse_subtree_node by (unfold CACHE_MIN_HEIGHT, SMT_HEIGHT; lia).
  assert (P : is_path (path_from_top16 t) CACHE_MIN_HEIGHT (anc t CACHE_MIN_HEIGHT))
    by (rewrite anc_240; apply path_from_top16_path, Ht).
  apply (nodes_upto_all _ _ t Ht). unfold cached_heights.
  pose proof (ripple_ok (SMT_HEIGHT - CACHE_MIN_HEIGHT)
    (set_node ns CACHE_MIN_HEIGHT (path_from_top16 t) (smt_node v2 C CACHE_MIN_HEIGHT t) v2)
    C t CACHE_MIN_HEIGHT (path_from_top16 t) ltac:(lia) ltac:(unfold CACHE_MIN_HEIGHT, SMT_HEIGHT; lia) Ht) as R.
  rewrite anc_240 in R, P. apply R; [|exact P].
  apply set_node_upto; try exact HO; try exact Ht; rewrite ?anc_240; try exact P; try reflexivity.
  - intros h q Hc Hd. rewrite HE by exact Hc. unfold cache_entry, smt_node.
    destruct Hd as [Hd|Hd]; [destruct Hc as [[? _] _]; lia|].
    rewrite (below_agree C C0 t h q); auto. apply Hc.
  - unfold CACHE_MIN_HEIGHT, SMT_HEIGHT. lia.
Qed.

End Cache.

(** * The accumulator keeps its invariant *)

Definition buckets_ok (bs : gmap Z (gset hash32)) (C : gset hash32) : Prop :=
  forall t, bs !! t = if bool_decide (below CACHE_MIN_HEIGHT t C = ∅) then None
                      else Some (below CACHE_MIN_HEIGHT t C).

Lemma elem_of_bucket t C (c : hash32) : c ∈ below CACHE_MIN_HEIGHT t C <-> top16 c = t /\ c ∈ C.
Proof. rewrite elem_of_below, top16_val. reflexivity. Qed.

Lemma bucket_default bs C t : buckets_ok bs C -> default ∅ (bs !! t) = below CACHE_MIN_HEIGHT t C.
Proof. intros HB. rewrite HB. case_bool_decide as E; [rewrite E|]; reflexivity. Qed.

(** Replacing the bucket [t] when the sets differ in that bucket only. *)
Lemma buckets_ok_update bs C0 C t : buckets_ok bs C0 ->
  (forall c, top16 c <> t -> c ∈ C <-> c ∈ C0) ->
  below CACHE_MIN_HEIGHT t C <> ∅ ->
  buckets_ok (<[t := below CACHE_MIN_HEIGHT t C]> bs) C.
Proof.
  intros HB HA NE t'. destruct (decide (t' = t)) as [->|Ht].
  - rewrite lookup_insert_eq, bool_decide_false by exact NE. reflexivity.
  - rewrite lookup_insert_ne by congruence. rewrite HB.
    rewrite (below_agree C C0 t); [reflexivity|lia|rewrite anc_240; exact Ht|exact HA].
Qed.

Lemma buckets_ok_delete bs C0 C t : buckets_ok bs C0 ->
  (forall c, top16 c <> t -> c ∈ C <-> c ∈ C0) ->
  below CACHE_MIN_HEIGHT t C = ∅ -> buckets_ok (delete t bs) C.
Proof.
  intros HB HA NE t'. destruct (decide (t' = t)) as [->|Ht].
  - rewrite lookup_delete_eq, bool_decide_true by exact NE. reflexivity.
  - rewrite lookup_delete_ne by congruence. rewrite HB.
    rewrite (below_agree C C0 t); [reflexivity|lia|rewrite anc_240; exact Ht|exact HA].
Qed.

Lemma bucket_add t C c : top16 c = t ->
  {[c]} ∪ below CACHE_MIN_HEIGHT t C = below CACHE_MIN_HEIGHT t ({[c]} ∪ C).
Proof.
  intros E. apply set_eq. intros x. rewrite elem_of_union, !elem_of_bucket.
  rewrite elem_of_union, elem_of_singleton. split.
  - intros [->|[? ?]]; split; auto.
  - intros [? [->|?]]; auto.
Qed.

Lemma bucket_del t C c : below CACHE_MIN_HEIGHT t C ∖ {[c]} = below CACHE_MIN_HEIGHT t (C ∖ {[c]}).
Proof. apply set_eq. intros x. rewrite elem_of_difference, !elem_of_bucket, elem_of_difference. tauto. Qed.

Lemma stage_ok st C c : buckets_ok st C -> buckets_ok (stage st c) ({[c]} ∪ C).
Proof.
  intros HB. unfold stage. rewrite (bucket_default st C) by exact HB. rewrite bucket_add by reflexivity.
  apply (buckets_ok_update st C); [exact HB|set_solver|].
  intros E. assert (c ∈ below CACHE_MIN_HEIGHT (top16 c) ({[c]} ∪ C)) as Hc
    by (apply elem_of_bucket; set_solver).
  rewrite E in Hc. set_solver.
Qed.

Lemma staging_ok C : buckets_ok (staging C) C.
Proof.
  unfold staging. rewrite <- (list_to_set_ord C) at 2.
  assert (G : forall l st D, buckets_ok st D -> buckets_ok (foldl stage st l) (list_to_set l ∪ D)).
  { induction l as [|c l IH]; intros st D HB; cbn [foldl].
    - replace (list_to_set [] ∪ D) with D by set_solver. exact HB.
    - replace (list_to_set (c :: l) ∪ D) with (list_to_set l ∪ ({[c]} ∪ D)) by set_solver.
      apply IH, stage_ok, HB. }
  rewrite <- (union_empty_r_L (list_to_set (ord_list C))). apply G.
  intros t. rewrite lookup_empty, bool_decide_true; [reflexivity|].
  apply set_eq. intros x. rewrite elem_of_bucket. set_solver.
Qed.

Section Accumulator.
Context `{Blake3}.
Context (v2 : bool).

Definition acc_ok (a : UtxoAccumulator) : Prop :=
  nodes_ok v2 (smt_nodes a) (coins a) /\ buckets_ok (buckets a) (coins a).

(** A consistent accumulator is determined by its coins. *)
Lemma acc_ok_unique a b : acc_ok a -> acc_ok b -> coins a = coins b -> a = b.
Proof.
  intros [[OA EA] BA] [[OB EB] BB] E. destruct a as [ca na ba], b as [cb nb bb].
  cbn [coins smt_nodes buckets] in *. subst cb. f_equal.
  - apply map_eq. intros k.
    assert (K : forall m m' : gmap (Z * Z) hash32, only_nodes m -> (forall h q, cached h q -> m !! nkey h q = m' !! nkey h q) ->
              forall x, m !! k = Some x -> m' !! k = Some x).
    { intros m m' HO HM x Ex. destruct (HO _ _ Ex) as (h & q & Hc & ->). rewrite <- HM; auto. }
    apply option_eq. intros x. split; apply K; try assumption; intros; rewrite EA, EB by assumption; reflexivity.
  - apply map_eq. intros t. rewrite BA, BB. reflexivity.
Qed.

Lemma empty_nodes_ok : nodes_ok v2 ∅ ∅.
Proof.
  split; [intros k x E; rewrite lookup_empty in E; discriminate|].
  intros h q [Hh _]. rewrite lookup_empty. unfold cache_entry. rewrite bool_decide_true; [reflexivity|].
  unfold smt_node. assert (below h q ∅ = ∅) as ->.
  { apply set_eq. intros x. rewrite elem_of_below. set_solver. }
  apply smt_hash_empty. apply Hh.
Qed.

Lemma empty_buckets_ok : buckets_ok ∅ ∅.
Proof.
  intros t. rewrite lookup_empty, bool_decide_true; [reflexivity|].
  apply set_eq. intros x. rewrite elem_of_bucket. set_solver.
Qed.

Lemma acc_new_ok : acc_ok acc_new.
Proof. split; [apply empty_nodes_ok|apply empty_buckets_ok]. Qed.

Lemma insert_ok c a : acc_ok a ->
  acc_ok (insert c v2 a).2 /\ coins (insert c v2 a).2 = {[c]} ∪ coins a
  /\ (insert c v2 a).1 = negb (bool_decide (c ∈ coins a)).
Proof.
  intros [HN HB]. unfold insert. case_bool_decide as Hc; cbn [fst snd negb coins].
  - split; [split; assumption|]. split; [set_solver|reflexivity].
  - split; [|split; reflexivity]. rewrite (bucket_default _ _ _ HB), bucket_add by reflexivity.
    assert (HA : forall x, top16 x <> top16 c -> x ∈ {[c]} ∪ coins a <-> x ∈ coins a) by set_solver.
    split; cbn [coins smt_nodes buckets].
    + eapply update_cache_ok; [apply top16_range|exact HN|exact HA].
    + rewrite insert_delete_eq. eapply buckets_ok_update; [exact HB|exact HA|].
      intros E. assert (c ∈ below CACHE_MIN_HEIGHT (top16 c) ({[c]} ∪ coins a)) as Hx
        by (apply elem_of_bucket; set_solver).
      rewrite E in Hx. set_solver.
Qed.

Lemma remove_ok c a : acc_ok a ->
  acc_ok (remove c v2 a).2 /\ coins (remove c v2 a).2 = coins a ∖ {[c]}
  /\ (remove c v2 a).1 = bool_decide (c ∈ coins a).
Proof.
  intros [HN HB]. unfold remove. case_bool_decide as Hc; cbn [fst snd negb coins].
  - rewrite (bucket_default _ _ _ HB), bucket_del.
    assert (HA : forall x, top16 x <> top16 c -> x ∈ coins a ∖ {[c]} <-> x ∈ coins a) by set_solver.
    case_bool_decide as E; cbn [fst snd coins]; (split; [|split; reflexivity]); split; cbn [coins smt_nodes buckets].
    + rewrite <- E. eapply update_cache_ok; [apply top16_range|exact HN|exact HA].
    + eapply buckets_ok_delete; [exact HB|exact HA|exact E].
    + eapply update_cache_ok; [apply top16_range|exact HN|exact HA].
    + rewrite insert_delete_eq. eapply buckets_ok_update; [exact HB|exact HA|exact E].
  - split; [split; assumption|]. split; [set_solver|reflexivity].
Qed.

Lemma rebuild_loop_ok C l : forall a D,
  Forall (fun e : Z * gset hash32 => 0 <= e.1 < 2 ^ 16 /\ e.2 = below CACHE_MIN_HEIGHT e.1 C /\ e.2 <> ∅) l ->
  NoDup l.*1 -> (forall c, c ∈ C <-> c ∈ D \/ (top16 c ∈ l.*1 /\ c ∈ C)) ->
  (forall c, c ∈ D -> top16 c ∉ l.*1) ->
  nodes_ok v2 (smt_nodes a) D -> buckets_ok (buckets a) D ->
  nodes_ok v2 (smt_nodes (foldl (rebuild_bucket v2) a l)) C
  /\ buckets_ok (buckets (foldl (rebuild_bucket v2) a l)) C
  /\ coins (foldl (rebuild_bucket v2) a l) = coins a.
Proof.
  induction l as [|[t B] l IH]; intros a D HF HND HC HD HN HB; cbn [foldl].
  - replace C with D by (apply set_eq; intros x; rewrite HC; set_solver). auto.
  - apply Forall_cons in HF as [(Ht & EB & NB) HF]. cbn [fst snd] in *. subst B.
    rewrite fmap_cons in *. cbn [fst] in *. apply NoDup_cons in HND as [Hnt HND].
    set (D' := below CACHE_MIN_HEIGHT t C ∪ D).
    assert (EBt : below CACHE_MIN_HEIGHT t C = below CACHE_MIN_HEIGHT t D').
    { apply set_eq. intros x. unfold D'. rewrite !elem_of_bucket, elem_of_union, elem_of_bucket.
      split; [tauto|]. intros [E [?|Hx]]; [tauto|]. exfalso.
      apply (HD x Hx). rewrite E. apply elem_of_cons. auto. }
    assert (HA : forall x, top16 x <> t -> x ∈ D' <-> x ∈ D).
    { intros x Hx. unfold D'. rewrite elem_of_union, elem_of_bucket. tauto. }
    destruct (IH (rebuild_bucket v2 a (t, below CACHE_MIN_HEIGHT t C)) D') as (R1 & R2 & R3);
      try assumption.
    + intros c. unfold D'. rewrite elem_of_union, elem_of_bucket. split.
      * intros Hc. pose proof (proj1 (HC c) Hc) as [?|[Hk _]]; [auto|].
        apply elem_of_cons in Hk as [->|Hk]; auto.
      * intros [[[_ ?]|Hx]|[_ ?]]; auto. apply HC. auto.
    + intros c. unfold D'. rewrite elem_of_union, elem_of_bucket. intros [[-> _]|Hx]; [exact Hnt|].
      intros Hk. apply (HD c Hx). apply elem_of_cons. auto.
    + unfold rebuild_bucket. cbn [smt_nodes fst snd]. rewrite EBt.
      eapply update_cache_ok; [exact Ht|exact HN|exact HA].
    + unfold rebuild_bucket. cbn [buckets fst snd]. rewrite EBt in *.
      eapply buckets_ok_update; [exact HB|exact HA|exact NB].
    + split; [exact R1|]. split; [exact R2|exact R3].
Qed.

Lemma rebuild_ok order a : (forall m, order m ≡ₚ map_to_list m) ->
  acc_ok (rebuild_tree order v2 a) /\ coins (rebuild_tree order v2 a) = coins a.
Proof.
  intros HO. unfold rebuild_tree. set (C := coins a). pose proof (staging_ok C) as SO.
  assert (L : forall t B, (t, B) ∈ order (staging C) <-> staging C !! t = Some B).
  { intros t B. rewrite (HO (staging C)). apply elem_of_map_to_list. }
  edestruct (rebuild_loop_ok C (order (staging C)) {| coins := C; smt_nodes := ∅; buckets := ∅ |} ∅)
    as (R1 & R2 & R3).
  - apply Forall_forall. intros [t B] Ht. apply L in Ht. rewrite SO in Ht. cbn [fst snd].
    case_bool_decide as NE; [discriminate|]. injection Ht as <-. split; [|auto].
    apply set_choose_L in NE as [x Hx]. apply elem_of_bucket in Hx as [<- _]. apply top16_range.
  - rewrite (HO (staging C)). apply NoDup_fst_map_to_list.
  - intros c. split; [|set_solver]. intros Hc. right. split; [|exact Hc].
    apply list_elem_of_fmap. exists (top16 c, below CACHE_MIN_HEIGHT (top16 c) C). split; [reflexivity|].
    apply L. rewrite SO, bool_decide_false; [reflexivity|]. intros E.
    assert (c ∈ below CACHE_MIN_HEIGHT (top16 c) C) as Hx by (apply elem_of_bucket; auto).
    rewrite E in Hx. set_solver.
  - set_solver.
  - apply empty_nodes_ok.
  - apply empty_buckets_ok.
  - cbn [coins] in R3. unfold acc_ok. rewrite R3. auto.
Qed.

Lemma root_ok a : acc_ok a -> root v2 a = smt_root v2 (coins a).
Proof.
  intros [[_ HE] _]. unfold root. rewrite <- smt_node_root.
  apply (get_node_ok v2 _ (coins a) SMT_HEIGHT (zero_arr 32) 0).
  - vm_compute. reflexivity.
  - split; [unfold CACHE_MIN_HEIGHT, SMT_HEIGHT; lia|]. unfold SMT_HEIGHT. simpl. lia.
  - apply HE. split; [unfold CACHE_MIN_HEIGHT, SMT_HEIGHT; lia|]. unfold SMT_HEIGHT. simpl. lia.
Qed.

End Accumulator.

(** * Inclusion proofs *)

Section Proofs.
Context `{Blake3}.
Context (v2 : bool).

(** The [i]-th ancestor of a coin, and the sibling of that ancestor. *)
Definition up (c : hash32) (i : nat) : Z := be_val c / 2 ^ Z.of_nat i.

Definition path_elem (C : gset hash32) (c : hash32) (i : nat) : ProofElement :=
  {| elem_hash := smt_node v2 C i (sib (up c i)); elem_is_right := bit0 i c |}.

(** The sorted slice [l] holds exactly the coins of [C] below a node. *)
Definition slice_below (C : gset hash32) (h : nat) (q : Z) (l : list hash32) : Prop :=
  slice_of h q l /\ (list_to_set l : gset hash32) = below h q C.

Lemma slice_below_split C h q l : (h < 256)%nat -> slice_below C (S h) q l ->
  let k := partition_point (bit0 h) l in
  slice_below C h (2 * q) (take k l) /\ slice_below C h (2 * q + 1) (drop k l).
Proof.
  intros Hh [HS HB] k. destruct (slice_split h q l Hh HS) as (E1 & E2 & S1 & S2).
  fold k in E1, E2, S1, S2. split; (split; [assumption|]).
  - rewrite E1, list_to_set_filter, HB, below_child. f_equal. apply Z.add_0_r.
  - rewrite E2, list_to_set_filter, HB, below_child. reflexivity.
Qed.

Lemma slice_below_hash C h q l : (h <= SMT_HEIGHT)%nat -> slice_below C h q l ->
  compute_sparse_subtree h l v2 = smt_node v2 C h q.
Proof. intros Hh [HS HB]. rewrite (sparse_subtree_hash v2 h q) by assumption. rewrite HB. reflexivity. Qed.

Lemma up_S c i : up c i = 2 * up c (S i) + Z.b2z (bit_of i c).
Proof. apply prefix_succ, be_val_range. Qed.

Lemma sib_up c i : sib (up c i) = 2 * up c (S i) + Z.b2z (negb (bit_of i c)).
Proof.
  unfold sib. rewrite up_S. rewrite <- Z.negb_odd, Z.odd_add, Z.odd_mul.
  destruct (bit_of i c); simpl; lia.
Qed.

Lemma extract_spec C c h : forall l out, (h <= SMT_HEIGHT)%nat -> slice_below C h (up c h) l ->
  extract_path_siblings h l c out v2 = out ++ map (path_elem C c) (seq 0 h).
Proof.
  induction h as [|h IH]; intros l out Hh HS; cbn [extract_path_siblings].
  - rewrite app_nil_r. reflexivity.
  - unfold SMT_HEIGHT in *. destruct (slice_below_split C h _ l ltac:(lia) HS) as [SL SR].
    cbv zeta. rewrite (slice_below_hash C h _ _ ltac:(unfold SMT_HEIGHT; lia) SL).
    rewrite (slice_below_hash C h _ _ ltac:(unfold SMT_HEIGHT; lia) SR).
    rewrite seq_S, map_app, app_assoc. cbn [map Nat.add]. unfold path_elem at 2.
    fold (bit0 h c). rewrite sib_up. pose proof (up_S c h) as EU.
    rewrite bit0_testbit by lia. fold (bit_of h c).
    destruct (bit_of h c); cbn [negb Z.b2z] in *; rewrite ?Z.add_0_r in *; rewrite <- EU in *;
      rewrite IH by (lia || assumption); reflexivity.
Qed.

Lemma prove_top_ok a c n : forall h p sibs, acc_ok v2 a -> (CACHE_MIN_HEIGHT <= h)%nat ->
  (h + n <= SMT_HEIGHT)%nat -> is_path p h (up c h) ->
  (foldl (prove_step (smt_nodes a) c v2) (p, sibs) (seq h n)).2
  = sibs ++ map (path_elem (coins a) c) (seq h n).
Proof.
  induction n as [|n IH]; intros h p sibs HA Hh Hn Hp; cbn [seq foldl map].
  - rewrite app_nil_r. reflexivity.
  - unfold SMT_HEIGHT in *. unfold prove_step at 2. cbv zeta.
    assert (Hc : cached h (up c h)).
    { unfold up. rewrite <- anc_top16 by exact Hh. apply anc_cached; [unfold SMT_HEIGHT; lia|apply top16_range]. }
    pose proof (sib_cached h _ ltac:(unfold SMT_HEIGHT; lia) Hc) as Hsc.
    rewrite (get_node_ok v2 _ (coins a) h _ _ (flip_bit_path p h _ ltac:(lia) Hp) Hsc)
      by (apply HA; exact Hsc).
    rewrite IH; try assumption; try lia.
    + rewrite <- app_assoc. reflexivity.
    + rewrite <- Nat.add_1_r at 1. replace (up c (S h)) with (up c h / 2).
      * rewrite <- (Nat.add_1_r h). apply mask_path; [lia|exact Hp].
      * rewrite (up_S c h), (Z.mul_comm 2), Z.div_add_l by lia. destruct (bit_of h c); apply Z.add_0_r.
Qed.

Lemma prove_ok c a : acc_ok v2 a -> c ∈ coins a ->
  prove c v2 a = Ok {| leaf_index := 0; proof_leaf_count := acc_len a;
                       utxo_siblings := map (path_elem (coins a) c) (seq 0 SMT_HEIGHT) |}.
Proof.
  intros HA Hc. unfold prove, contains. rewrite bool_decide_true by exact Hc. cbn [negb bail_if].
  change (Ok () ≫= ?f) with (f ()). cbv beta zeta. do 2 f_equal.
  rewrite (bucket_default _ (coins a)) by apply HA.
  assert (EU : up c CACHE_MIN_HEIGHT = top16 c) by (symmetry; apply top16_val).
  rewrite (extract_spec (coins a)).
  - unfold cached_heights. rewrite prove_top_ok; try assumption.
    + change SMT_HEIGHT with (CACHE_MIN_HEIGHT + (SMT_HEIGHT - CACHE_MIN_HEIGHT))%nat at 2.
      rewrite seq_app, map_app. reflexivity.
    + lia.
    + unfold CACHE_MIN_HEIGHT, SMT_HEIGHT. lia.
    + rewrite EU. apply path_from_top16_path, top16_range.
  - unfold CACHE_MIN_HEIGHT, SMT_HEIGHT. lia.
  - rewrite EU. split; [apply ord_list_slice|apply list_to_set_ord].
Qed.

Lemma fold_elem C c i : 
  (if bit0 i c then hash_node (smt_node v2 C i (up c i)) (elem_hash (path_elem C c i)) v2
   else hash_node (elem_hash (path_elem C c i)) (smt_node v2 C i (up c i)) v2)
  = smt_node v2 C (S i) (up c (S i)) \/ (256 <= i)%nat.
Proof.
  destruct (decide (256 <= i)%nat); [auto|left]. rewrite bit0_testbit by lia. fold (bit_of i c).
  rewrite smt_node_child. unfold path_elem. cbn [elem_hash]. rewrite sib_up, up_S.
  destruct (bit_of i c); cbn [negb Z.b2z]; rewrite ?Z.add_0_r; reflexivity.
Qed.

Lemma verify_loop_path C c n : forall i, (i + n <= SMT_HEIGHT)%nat ->
  verify_loop c i (smt_node v2 C i (up c i)) (map (path_elem C c) (seq i n)) v2
  = Some (smt_node v2 C (i + n) (up c (i + n))).
Proof.
  induction n as [|n IH]; intros i Hi; cbn [seq map verify_loop].
  - rewrite Nat.add_0_r. reflexivity.
  - unfold SMT_HEIGHT in *. fold (bit0 i c). cbn [path_elem elem_is_right].
    rewrite bool_decide_true by reflexivity. cbn [negb].
    destruct (fold_elem C c i) as [->|]; [|lia].
    rewrite IH by lia. rewrite Nat.add_succ_comm. reflexivity.
Qed.

Lemma up_top c : up c SMT_HEIGHT = 0.
Proof. apply Z.div_small. exact (arr_be_val_range c). Qed.

Lemma up_0 c : up c 0 = be_val c.
Proof. apply Z.div_1_r. Qed.

(** The genuine path of a coin, or of the zero hash, verifies. *)
Lemma verify_path C c k n : c ∈ C \/ c = zero_arr 32 ->
  verify_utxo_proof c {| leaf_index := k; proof_leaf_count := n;
                         utxo_siblings := map (path_elem C c) (seq 0 SMT_HEIGHT) |}
    (smt_root v2 C) v2 = true.
Proof.
  intros Hc. unfold verify_utxo_proof. cbn [utxo_siblings].
  rewrite length_map, length_seq, Nat.eqb_refl. cbn [negb].
  assert (E0 : c = smt_node v2 C 0 (up c 0)).
  { rewrite up_0, smt_node_leaf. case_bool_decide; [reflexivity|]. tauto. }
  rewrite E0 at 2. rewrite verify_loop_path by lia. rewrite Nat.add_0_l, up_top, smt_node_root.
  apply bool_decide_eq_true. reflexivity.
Qed.

(** ** Soundness *)

(** What the reference tree feeds to BLAKE3 on the path of [c]. *)
Definition tree_path_queries (C : gset hash32) (c : hash32) (i n : nat) : list bytes :=
  map (fun j => node_preimage (smt_node v2 C j (2 * up c (S j)))
                              (smt_node v2 C j (2 * up c (S j) + 1)) v2) (seq i n).

Definition no_collision (x y : bytes) : Prop := blake3 x = blake3 y -> x = y.

Lemma verify_loop_sound C c sibs : forall i cur,
  (i + length sibs = SMT_HEIGHT)%nat ->
  verify_loop c i cur sibs v2 = Some (smt_root v2 C) ->
  Forall2 no_collision (tree_path_queries C c i (length sibs)) (climb_queries v2 cur sibs) ->
  cur = smt_node v2 C i (up c i).
Proof.
  induction sibs as [|e sibs IH]; intros i cur Hi; cbn [verify_loop length].
  - rewrite Nat.add_0_r in Hi. subst i. intros [= ->] _. rewrite up_top, smt_node_root. reflexivity.
  - fold (bit0 i c). case_bool_decide as EB; cbn [negb]; [|discriminate]. intros EV HF.
    cbn [length] in Hi. unfold SMT_HEIGHT in Hi.
    unfold tree_path_queries in HF. cbn [length seq map climb_queries] in HF.
    apply Forall2_cons in HF as [HC HF].
    assert (EN : (if elem_is_right e then hash_node cur (elem_hash e) v2 else hash_node (elem_hash e) cur v2)
                 = blake3 (elem_query v2 cur e)) by (unfold elem_query; destruct (elem_is_right e); reflexivity).
    rewrite EN in EV. apply IH in EV; [|unfold SMT_HEIGHT; lia|exact HF].
    rewrite smt_node_child in EV. symmetry in EV. apply HC in EV.
    rewrite up_S. rewrite bit0_testbit in EB by lia. fold (bit_of i c) in EB.
    unfold elem_query in EV. rewrite EB in EV.
    destruct (bit_of i c); cbn [negb Z.b2z] in *; apply node_preimage_inj in EV as [E1 E2];
      rewrite ?Z.add_0_r; congruence.
Qed.

Lemma path_queries_eq C c n : forall i, (i + n <= SMT_HEIGHT)%nat ->
  climb_queries v2 (smt_node v2 C i (up c i)) (map (path_elem C c) (seq i n)) = tree_path_queries C c i n.
Proof.
  unfold tree_path_queries. induction n as [|n IH]; intros i Hi; [reflexivity|].
  cbn [seq map climb_queries]. unfold SMT_HEIGHT in *.
  assert (EQ : elem_query v2 (smt_node v2 C i (up c i)) (path_elem C c i)
    = node_preimage (smt_node v2 C i (2 * up c (S i))) (smt_node v2 C i (2 * up c (S i) + 1)) v2).
  { unfold elem_query, path_elem. cbn [elem_is_right elem_hash]. rewrite bit0_testbit by lia.
    fold (bit_of i c). rewrite sib_up, (up_S c i).
    destruct (bit_of i c); cbn [negb Z.b2z]; rewrite ?Z.add_0_r; reflexivity. }
  rewrite EQ. f_equal.
  change (blake3 (node_preimage ?a ?b v2)) with (hash_node a b v2). rewrite <- smt_node_child.
  apply IH. lia.
Qed.

End Proofs.

(** * The interface of a set accumulator

    What the transaction and state code uses of [UtxoAccumulator].  The set is
    kept whatever the hashing mode; the root is that of the reference tree as
    long as every update used the mode of the last rebuild. *)

Class SetAccumulator (A : Type) : Type := {
  sa_new : A;
  sa_contains : hash32 -> A -> bool;
  sa_insert : hash32 -> bool -> A -> bool * A;
  sa_remove : hash32 -> bool -> A -> bool * A;
  sa_rebuild : bool -> A -> A;
  sa_root : bool -> A -> hash32
}.

Class SetAccumulatorLaws (A : Type) `{Blake3} `{!SetAccumulator A} : Type := {
  sa_set : A -> gset hash32;
  sa_wf : bool -> A -> Prop;
  sa_new_set : sa_set sa_new = ∅;
  sa_contains_set c a : sa_contains c a = bool_decide (c ∈ sa_set a);
  sa_insert_set c m a : sa_set (sa_insert c m a).2 = {[c]} ∪ sa_set a;
  sa_insert_new c m a : (sa_insert c m a).1 = negb (bool_decide (c ∈ sa_set a));
  sa_insert_present c m a : c ∈ sa_set a -> sa_insert c m a = (false, a);
  sa_remove_set c m a : sa_set (sa_remove c m a).2 = sa_set a ∖ {[c]};
  sa_remove_found c m a : (sa_remove c m a).1 = bool_decide (c ∈ sa_set a);
  sa_rebuild_set m a : sa_set (sa_rebuild m a) = sa_set a;
  sa_new_wf m : sa_wf m sa_new;
  sa_rebuild_wf m a : sa_wf m (sa_rebuild m a);
  sa_insert_wf c m a : sa_wf m a -> sa_wf m (sa_insert c m a).2;
  sa_remove_wf c m a : sa_wf m a -> sa_wf m (sa_remove c m a).2;
  sa_root_set m a : sa_wf m a -> sa_root m a = smt_root m (sa_set a)
}.

Section Instances.
Context `{Blake3}.

Lemma insert_set c m a :
  coins (insert c m a).2 = {[c]} ∪ coins a /\ (insert c m a).1 = negb (bool_decide (c ∈ coins a)).
Proof. unfold insert. case_bool_decide; cbn; split; [set_solver|..]; reflexivity. Qed.

Lemma remove_set c m a :
  coins (remove c m a).2 = coins a ∖ {[c]} /\ (remove c m a).1 = bool_decide (c ∈ coins a).
Proof.
  unfold remove. destruct (decide (c ∈ coins a)) as [Hc|Hc];
    [rewrite bool_decide_true by exact Hc|rewrite bool_decide_false by exact Hc]; cbn [negb].
  - case_bool_decide; split; reflexivity.
  - split; [set_solver|reflexivity].
Qed.

Context (order : gmap Z (gset hash32) -> list (Z * gset hash32)).

Definition utxo_accumulator : SetAccumulator UtxoAccumulator := {|
  sa_new := acc_new; sa_contains := contains; sa_insert := insert; sa_remove := remove;
  sa_rebuild := rebuild_tree order; sa_root := root
|}.

Lemma rebuild_bucket_coins m l a : coins (foldl (rebuild_bucket m) a l) = coins a.
Proof. revert a. induction l as [|e l IH]; intros a; cbn [foldl]; [|rewrite IH]; reflexivity. Qed.

Lemma rebuild_coins m a : coins (rebuild_tree order m a) = coins a.
Proof. unfold rebuild_tree. rewrite rebuild_bucket_coins. reflexivity. Qed.

Program Definition utxo_accumulator_laws (Horder : forall m, order m ≡ₚ map_to_list m)
    : @SetAccumulatorLaws UtxoAccumulator _ utxo_accumulator := {|
  sa_set := coins; sa_wf := acc_ok
|}.
Next Obligation. reflexivity. Qed.
Next Obligation. reflexivity. Qed.
Next Obligation. intros _ c m a. apply insert_set. Qed.
Next Obligation. intros _ c m a. apply insert_set. Qed.
Next Obligation. intros _ c m a Hc. cbn. unfold insert. rewrite bool_decide_true by exact Hc. reflexivity. Qed.
Next Obligation. intros _ c m a. apply remove_set. Qed.
Next Obligation. intros _ c m a. apply remove_set. Qed.
Next Obligation. intros _ m a. exact (rebuild_coins m a). Qed.
Next Obligation. intros _ m. apply acc_new_ok. Qed.
Next Obligation. intros HO m a. apply rebuild_ok, HO. Qed.
Next Obligation. intros _ c m a HA. apply insert_ok, HA. Qed.
Next Obligation. intros _ c m a HA. apply remove_ok, HA. Qed.
Next Obligation. intros _ m a HA. apply root_ok, HA. Qed.

(** The abstract accumulator: the bare set. *)
Definition set_accumulator : SetAccumulator (gset hash32) := {|
  sa_new := ∅;
  sa_contains c a := bool_decide (c ∈ a);
  sa_insert c _ a := (negb (bool_decide (c ∈ a)), {[c]} ∪ a);
  sa_remove c _ a := (bool_decide (c ∈ a), a ∖ {[c]});
  sa_rebuild _ a := a;
  sa_root m a := compute_sparse_subtree SMT_HEIGHT (ord_list a) m
|}.

#[local] Obligation Tactic := intros; try (reflexivity || exact I).

Program Definition set_accumulator_laws : @SetAccumulatorLaws (gset hash32) _ set_accumulator := {|
  sa_set := fun a => a; sa_wf := fun _ _ => True
|}.
Next Obligation.
  cbn. rewrite bool_decide_true by assumption. cbn [negb]. f_equal. set_solver.
Qed.
Next Obligation.
  cbn [sa_root set_accumulator]. rewrite <- (below_all a) at 1.
  rewrite sparse_subtree_node by lia. apply smt_node_root.
Qed.

End Instances.

(** * Properties *)

Section Properties.
Context `{Blake3}.

(** Operations on an accumulator, and their effect on the set of coins. *)
Inductive acc_op : Type := OpInsert (c : hash32) | OpRemove (c : hash32) | OpRebuild.

Definition run_op order (v2 : bool) (st : list bool * UtxoAccumulator) (op : acc_op)
    : list bool * UtxoAccumulator :=
  match op with
  | OpInsert c => let '(b, a) := insert c v2 st.2 in (st.1 ++ [b], a)
  | OpRemove c => let '(b, a) := remove c v2 st.2 in (st.1 ++ [b], a)
  | OpRebuild => (st.1, rebuild_tree order v2 st.2)
  end.

Definition spec_op (st : list bool * gset hash32) (op : acc_op) : list bool * gset hash32 :=
  match op with
  | OpInsert c => (st.1 ++ [negb (bool_decide (c ∈ st.2))], {[c]} ∪ st.2)
  | OpRemove c => (st.1 ++ [bool_decide (c ∈ st.2)], st.2 ∖ {[c]})
  | OpRebuild => st
  end.

Lemma run_ops_spec order v2 ops : forall rs a,
  (forall m, order m ≡ₚ map_to_list m) -> acc_ok v2 a ->
  let st := foldl (run_op order v2) (rs, a) ops in
  acc_ok v2 st.2 /\ (st.1, coins st.2) = foldl spec_op (rs, coins a) ops.
Proof.
  induction ops as [|op ops IH]; intros rs a HO HA; cbn [foldl]; [split; [exact HA|reflexivity]|].
  destruct op as [c|c|]; cbn [run_op spec_op fst snd].
  - pose proof (insert_ok v2 c a HA) as (E1 & E2 & E3). destruct (insert c v2 a) as [b a'].
    cbn [fst snd] in *. subst b. rewrite <- E2. apply IH; assumption.
  - pose proof (remove_ok v2 c a HA) as (E1 & E2 & E3). destruct (remove c v2 a) as [b a'].
    cbn [fst snd] in *. subst b. rewrite <- E2. apply IH; assumption.
  - pose proof (rebuild_ok v2 order a HO) as (E1 & E2). rewrite <- E2. apply IH; assumption.
Qed.

(** C9: [UtxoAccumulator] implements a set with a Merkle commitment.  Start from
    any accumulator that was just rebuilt in mode [v2] (a deserialised one, or
    one hashed in the other mode before the V2 activation), and insert, remove
    and rebuild in any order: the booleans returned and the coins kept are those
    of a set, the root is the root of the reference tree of that set, and the
    whole state, caches and buckets included, is the one that rebuilding from
    the set gives, so neither the order of the operations nor the iteration
    order of the hash maps can be observed. *)
Theorem utxo_accumulator_refines order order' v2 a0 ops rs a :
  (forall m, order m ≡ₚ map_to_list m) -> (forall m, order' m ≡ₚ map_to_list m) ->
  foldl (run_op order v2) ([], rebuild_tree order v2 a0) ops = (rs, a) ->
  foldl spec_op ([], coins a0) ops = (rs, coins a)
  /\ root v2 a = smt_root v2 (coins a)
  /\ a = from_canonical_coins order' (coins a) v2.
Proof.
  intros HO HO' E. destruct (rebuild_ok v2 order a0 HO) as [HA HC].
  pose proof (run_ops_spec order v2 ops [] _ HO HA) as [R1 R2]. rewrite E, HC in *. cbn [fst snd] in *.
  split; [auto|]. split; [apply root_ok, R1|].
  destruct (rebuild_ok v2 order' {| coins := coins a; smt_nodes := ∅; buckets := ∅ |} HO') as [K1 K2].
  apply (acc_ok_unique v2); [exact R1|exact K1|]. symmetry. exact K2.
Qed.

(** A consistent accumulator proves the membership of exactly its coins, each
    proof has 256 siblings and verifies against the accumulator's root. *)
Lemma utxo_prove_complete order v2 C c :
  (forall m, order m ≡ₚ map_to_list m) ->
  let a := from_canonical_coins order C v2 in
  (c ∈ C -> exists proof, prove c v2 a = Ok proof
     /\ length (utxo_siblings proof) = 256%nat
     /\ verify_utxo_proof c proof (root v2 a) v2 = true)
  /\ (c ∉ C -> prove c v2 a = Err CoinNotInAccumulator).
Proof.
  intros HO a. destruct (rebuild_ok v2 order {| coins := C; smt_nodes := ∅; buckets := ∅ |} HO) as [HA HC].
  fold (from_canonical_coins order C v2) in HA, HC. fold a in HA, HC. cbn [coins] in HC. split; intros Hc.
  - eexists. split; [apply prove_ok; [exact HA|rewrite HC; exact Hc]|].
    split; [cbn [utxo_siblings]; rewrite length_map, length_seq; reflexivity|].
    rewrite root_ok, HC by exact HA. apply verify_path. auto.
  - unfold prove, contains. rewrite HC, bool_decide_false by exact Hc. reflexivity.
Qed.

(** C34: a proof that verifies against the root of a coin set shows membership,
    for every coin but the all-zero one (the empty-leaf sentinel), unless one of
    the 256 hashes of the proof collides with the hash of the tree node it
    stands for. *)
Theorem utxo_verify_sound v2 C (c : hash32) proof :
  verify_utxo_proof c proof (smt_root v2 C) v2 = true ->
  Forall2 no_collision (tree_path_queries v2 C c 0 256)
    (climb_queries v2 c (utxo_siblings proof)) ->
  c <> zero_arr 32 -> c ∈ C.
Proof.
  unfold verify_utxo_proof. destruct (Nat.eqb_spec (length (utxo_siblings proof)) SMT_HEIGHT) as [HL|];
    cbn [negb]; [|discriminate].
  destruct (verify_loop c 0 c (utxo_siblings proof) v2) as [x|] eqn:E; [|discriminate].
  intros B%bool_decide_eq_true HF NZ. subst x.
  change 256%nat with SMT_HEIGHT in HF. rewrite <- HL in HF.
  apply verify_loop_sound in E; [|rewrite HL; reflexivity|exact HF].
  rewrite up_0, smt_node_leaf in E. case_bool_decide; [assumption|contradiction].
Qed.

(** The all-zero coin cannot be told from an empty leaf: a proof of its
    membership verifies against the root of every coin set, whether or not the
    set contains it, and inserting it does not move the root. *)
Lemma zero_coin_always_verifies v2 C :
  (exists proof, verify_utxo_proof (zero_arr 32) proof (smt_root v2 C) v2 = true)
  /\ smt_root v2 ({[zero_arr 32]} ∪ C) = smt_root v2 C.
Proof.
  split; [eexists; apply (verify_path v2 C _ 0 0); auto|].
  assert (G : forall h q, smt_node v2 ({[zero_arr 32]} ∪ C) h q = smt_node v2 C h q).
  { induction h as [|h IH]; intros q; [|rewrite !smt_node_child, !IH; reflexivity].
    unfold smt_node. cbn [smt_hash].
    destruct (decide (q = 0)) as [->|NE].
    - assert (be_val (zero_arr 32) = 0) as <- by (vm_compute; reflexivity). rewrite !below_0.
      rewrite bool_decide_true by set_solver. rewrite elements_singleton.
      case_bool_decide; rewrite ?elements_singleton, ?elements_empty; reflexivity.
    - assert (below 0 q ({[zero_arr 32]} ∪ C) = below 0 q C) as ->; [|reflexivity].
      apply set_eq. intros x. rewrite !elem_of_below, elem_of_union, elem_of_singleton.
      split; [|tauto]. intros [E [->|?]]; [|tauto]. rewrite Z.div_1_r in E.
      exfalso. apply NE. rewrite <- E. reflexivity. }
  rewrite <- !smt_node_root. apply G.
Qed.

End Properties.

Definition demo_coin : hash32 := arr_of 32 [xa5; x01].

Definition some_order (m : gmap Z (gset hash32)) : list (Z * gset hash32) := map_to_list m.

Lemma some_order_perm m : some_order m ≡ₚ map_to_list m.
Proof. reflexivity. Qed.

Lemma utxo_accumulator_refines_witness :
  let H := toy_blake3 in
  let ops := [OpInsert demo_coin; OpInsert demo_coin; OpRebuild; OpRemove demo_coin] in
  exists rs a, foldl (run_op some_order true) ([], rebuild_tree some_order true acc_new) ops = (rs, a)
  /\ rs = [true; false; true]
  /\ root true a = smt_root true (coins a)
  /\ a = from_canonical_coins some_order (coins a) true.
Proof.
  intros H ops.
  assert (G : forall st : list bool * UtxoAccumulator, exists rs a, st = (rs, a)) by (intros []; eauto).
  destruct (G (foldl (run_op some_order true) ([], rebuild_tree some_order true acc_new) ops))
    as (rs & a & E).
  exists rs, a. split; [exact E|].
  destruct (utxo_accumulator_refines some_order some_order true acc_new ops rs a
    some_order_perm some_order_perm E) as (E1 & E2 & E3).
  split; [|split; [exact E2|exact E3]].
  apply (f_equal fst) in E1. symmetry in E1. etransitivity; [exact E1|].
  vm_compute. reflexivity.
Defined.

Lemma utxo_prove_complete_witness :
  let H := toy_blake3 in
  let a := from_canonical_coins some_order {[demo_coin]} true in
  (exists proof, prove demo_coin true a = Ok proof
     /\ length (utxo_siblings proof) = 256%nat
     /\ verify_utxo_proof demo_coin proof (root true a) true = true)
  /\ prove (zero_arr 32) true a = Err CoinNotInAccumulator.
Proof.
  intros H a. split.
  - exact (proj1 (utxo_prove_complete some_order true {[demo_coin]} demo_coin some_order_perm)
             (proj2 (elem_of_singleton _ _) eq_refl)).
  - refine (proj2 (utxo_prove_complete some_order true {[demo_coin]} (zero_arr 32) some_order_perm) _).
    apply not_elem_of_singleton. intros E. apply (f_equal arr_list) in E. discriminate E.
Defined.

Lemma utxo_verify_sound_witness :
  let H := toy_blake3 in
  let proof := {| leaf_index := 0; proof_leaf_count := 1;
                  utxo_siblings := map (path_elem true {[demo_coin]} demo_coin) (seq 0 SMT_HEIGHT) |} in
  verify_utxo_proof demo_coin proof (smt_root true {[demo_coin]}) true = true
  /\ demo_coin ∈ ({[demo_coin]} : gset hash32).
Proof.
  intros H proof.
  assert (V : verify_utxo_proof demo_coin proof (smt_root true {[demo_coin]}) true = true)
    by (apply verify_path; set_solver).
  split; [exact V|].
  assert (EQ : climb_queries true demo_coin (utxo_siblings proof)
               = tree_path_queries true {[demo_coin]} demo_coin 0 256).
  { pose proof (path_queries_eq true {[demo_coin]} demo_coin SMT_HEIGHT 0 (le_n _)) as E.
    rewrite up_0, smt_node_leaf, bool_decide_true in E by set_solver. exact E. }
  apply (utxo_verify_sound true {[demo_coin]} demo_coin proof V); [|discriminate].
  rewrite EQ. clear. induction (tree_path_queries true {[demo_coin]} demo_coin 0 256) as [|q l IH];
    constructor; [intros _; reflexivity|exact IH].
Defined.
