(* ===== verification/Transaction.v ===== *)
(** Transactions of [src/core/transaction.rs]: the proof of work of a commit,
    signature checks, application to the chain state with and without signature
    checks, and read-only validation.  The chain state itself ([State] of
    [src/core/types.rs]) is generic in its set accumulators ([SetAccumulator]).

    [bincode::serialized_size] of the witnesses is the parameter
    [witnesses_size]; [usize_bits] is the width of [usize] and [fast_mining] the
    cargo feature of that name. *)
From S2P Require Import Prelude Bytecode Types Wots Mss Script Instr Mmr Smt.

#[local] Open Scope Z_scope.

Record State (A : Type) : Type := mkState {
  st_mirstat : hash32;
  st_coins : A;
  st_commitments : A;
  st_depth : Z;
  st_target : hash32;
  st_height : Z;
  st_timestamp : Z;
  st_commitment_heights : gmap hash32 Z;
  st_expirations : gmap Z (list hash32);
  st_chain_mmr : MerkleMountainRange;
  st_header_hash : hash32;
  st_burned_wots : A
}.
Arguments mkState {A}.
Arguments st_mirstat {A}.
Arguments st_coins {A}.
Arguments st_commitments {A}.
Arguments st_depth {A}.
Arguments st_target {A}.
Arguments st_height {A}.
Arguments st_timestamp {A}.
Arguments st_commitment_heights {A}.
Arguments st_expirations {A}.
Arguments st_chain_mmr {A}.
Arguments st_header_hash {A}.
Arguments st_burned_wots {A}.

(** ** Field updates *)

Section Setters.
Context {A : Type}.

Definition set_mirstat (m : hash32) (s : State A) : State A :=
  mkState m (st_coins s) (st_commitments s) (st_depth s) (st_target s) (st_height s)
    (st_timestamp s) (st_commitment_heights s) (st_expirations s) (st_chain_mmr s)
    (st_header_hash s) (st_burned_wots s).

Definition set_coins (c : A) (s : State A) : State A :=
  mkState (st_mirstat s) c (st_commitments s) (st_depth s) (st_target s) (st_height s)
    (st_timestamp s) (st_commitment_heights s) (st_expirations s) (st_chain_mmr s)
    (st_header_hash s) (st_burned_wots s).

Definition set_commitments (c : A) (h : gmap hash32 Z) (s : State A) : State A :=
  mkState (st_mirstat s) (st_coins s) c (st_depth s) (st_target s) (st_height s)
    (st_timestamp s) h (st_expirations s) (st_chain_mmr s)
    (st_header_hash s) (st_burned_wots s).

Definition set_expirations (e : gmap Z (list hash32)) (s : State A) : State A :=
  mkState (st_mirstat s) (st_coins s) (st_commitments s) (st_depth s) (st_target s) (st_height s)
    (st_timestamp s) (st_commitment_heights s) e (st_chain_mmr s)
    (st_header_hash s) (st_burned_wots s).

Definition set_burned (b : A) (s : State A) : State A :=
  mkState (st_mirstat s) (st_coins s) (st_commitments s) (st_depth s) (st_target s) (st_height s)
    (st_timestamp s) (st_commitment_heights s) (st_expirations s) (st_chain_mmr s)
    (st_header_hash s) b.

End Setters.

(** The [bail!] sites. *)
Inductive TxError : Type :=
  | LegacyCommit | PowExpired | AnchorNotPast | AnchorMissing | PowTooFarAhead | InsufficientPow
  | DuplicateCommitment
  | EmptyInputs | TooFewInputs | EmptyOutputs | TooManyInputs | TooManyOutputs
  | WitnessCount | WitnessesTooLarge
  | MixedAddresses | DuplicateInput | StateThreadValue
  | ZeroValueOutput | InvalidDenomination | BurnTooLarge
  | InputOverflow | OutputOverflow | FeeTooLow
  | UnknownCommitment | NoMatchingCommitment | CommitmentExpired
  | CoinNotFound | PredicateFailed | DuplicateCoinCreated.

(** * Proof of work of a commit *)

Definition MIN_COMMIT_POW_BITS (fast_mining : bool) : Z := if fast_mining then 16 else 24.

Definition pack_spam_nonce (actual_nonce target_height : Z) : Z :=
  Z.lor (Z.shiftl target_height 32) actual_nonce.

Definition unpack_spam_nonce (spam_nonce : Z) : Z * Z :=
  (wrap 32 (Z.shiftr spam_nonce 32), wrap 32 (Z.land spam_nonce 4294967295)).

Section CommitPow.
Context `{Blake3}.
Context (fast_mining : bool).
Context {A : Type}.

Definition commit_pow_hash (commitment : hash32) (actual_nonce target_height : Z) : hash32 :=
  hash (le_bytes 4 target_height ++ commitment ++ le_bytes 4 actual_nonce).

(** [loop { if zeros(n) >= required_pow { return n } n += 1 }] on a [u32]. *)
Fixpoint mine_loop (fuel : nat) (zeros : Z -> Z) (required_pow n : Z) : option Z :=
  match fuel with
  | O => None
  | S fuel =>
      if required_pow <=? zeros n then Some n
      else mine_loop fuel zeros required_pow (wrap 32 (n + 1))
  end.

Definition anchored_zeros (anchor commitment : hash32) (n : Z) : Z :=
  count_leading_zeros (hash (anchor ++ commitment ++ le_bytes 4 n)).

Definition mine_pow (fuel : nat) (commitment : hash32) (required_pow current_height : Z)
    (header_hash : hash32) : option Z :=
  if COMMIT_REPLAY_FIX_ACTIVATION_HEIGHT <=? current_height then
    let anchor_height := wrap 32 (sat_sub current_height 1) in
    n ← mine_loop fuel (anchored_zeros header_hash commitment) required_pow 0;
    Some (pack_spam_nonce n anchor_height)
  else
    let target_height := wrap 32 current_height in
    n ← mine_loop fuel
          (fun n => count_leading_zeros
             (hash (le_bytes 4 target_height ++ commitment ++ le_bytes 4 n))) required_pow 0;
    Some (pack_spam_nonce n target_height).

(** The scan of the heights of the window for a V1 proof of work. *)
Fixpoint v1_scan (min_bits : Z) (commitment : hash32) (spam_nonce : Z) (hs : list Z)
    (best_zeros : Z) : Z :=
  match hs with
  | [] => best_zeros
  | h :: hs =>
      let zeros_v1 := count_leading_zeros
        (hash (le_bytes 8 h ++ commitment ++ le_bytes 8 spam_nonce)) in
      if best_zeros <? zeros_v1 then
        if min_bits <=? zeros_v1 then zeros_v1
        else v1_scan min_bits commitment spam_nonce hs zeros_v1
      else v1_scan min_bits commitment spam_nonce hs best_zeros
  end.

Definition evaluate_commit_pow (commitment : hash32) (spam_nonce : Z) (state : State A)
    : res TxError Z :=
  let '(target_height, actual_nonce) := unpack_spam_nonce spam_nonce in
  let current_height := st_height state in
  let min_bits := MIN_COMMIT_POW_BITS fast_mining in
  if COMMIT_REPLAY_FIX_ACTIVATION_HEIGHT <=? current_height then
    _ ← bail_if (target_height =? 0) LegacyCommit;
    _ ← bail_if (COMMIT_POW_WINDOW <? sat_sub current_height target_height) PowExpired;
    _ ← bail_if (current_height <=? target_height) AnchorNotPast;
    let mmr_pos := mmr_size (Z.to_nat target_height) in
    anchor_hash ← ok_or AnchorMissing (mmr_get (st_chain_mmr state) mmr_pos);
    let zeros := anchored_zeros anchor_hash commitment actual_nonce in
    _ ← bail_if (zeros <? min_bits) InsufficientPow;
    Ok zeros
  else if V2_ACTIVATION_HEIGHT <=? current_height then
    _ ← bail_if (target_height =? 0) LegacyCommit;
    _ ← bail_if (COMMIT_POW_WINDOW <? sat_sub current_height target_height) PowExpired;
    _ ← bail_if (wrap 64 (current_height + 1) <? target_height) PowTooFarAhead;
    let zeros := count_leading_zeros (commit_pow_hash commitment actual_nonce target_height) in
    _ ← bail_if (zeros <? min_bits) InsufficientPow;
    Ok zeros
  else
    let zeros_v2 := count_leading_zeros (commit_pow_hash commitment actual_nonce target_height) in
    if (sat_sub current_height target_height <=? COMMIT_POW_WINDOW)
       && (target_height <=? wrap 64 (current_height + 1)) && (min_bits <=? zeros_v2)
    then Ok zeros_v2
    else
      let start := sat_sub current_height COMMIT_POW_WINDOW in
      let best_zeros := v1_scan min_bits commitment spam_nonce
                          (seqZ start (current_height - start + 1)) 0 in
      _ ← bail_if (best_zeros <? min_bits) InsufficientPow;
      Ok best_zeros.

Definition validate_commit_pow (commitment : hash32) (nonce : Z) (state : State A)
    : res TxError () :=
  _ ← evaluate_commit_pow commitment nonce state; Ok ().

End CommitPow.

(** * Verification and application *)

Section Apply.
Context `{Blake3}.
Context (fast_mining : bool) (usize_bits : Z).
Context (witnesses_size : list Witness -> option Z).
Context {A : Type} `{!SetAccumulator A}.

(** [.is_ok()] of the run.  A run that aborts would be [false] here as well; there is
    none, since [execute_script] never aborts on a machine of at least 16 bits
    ([Instr.execute_script_total]). *)
Definition verify_predicate (predicate : Predicate) (witness : Witness) (commitment : hash32)
    (current_height : Z) (outputs : list OutputData) (input_value : Z)
    (input_state : option hash32) : bool :=
  match predicate, witness with
  | Script bytecode, ScriptInputs inputs =>
      let ctx := {| Script.commitment := commitment; ctx_height := current_height;
                    Script.outputs := outputs; Script.input_value := input_value;
                    Script.input_state := input_state;
                    this_address := predicate_address predicate |} in
      is_ok (execute_script usize_bits bytecode inputs ctx)
  end.

Definition verify_input (i : InputReveal) (w : Witness) (expected : hash32) (height : Z)
    (outputs : list OutputData) : bool :=
  verify_predicate (in_predicate i) w expected height outputs (in_value i) (in_commitment i).

Definition tx_commitment (inputs : list InputReveal) (outputs : list OutputData) (salt : hash32)
    : hash32 :=
  compute_commitment (map input_coin_id inputs) (map hash_for_commitment outputs) salt.

Definition same_address (first_addr : hash32) (e : TxError) (i : InputReveal) : res TxError () :=
  bail_if (negb (bool_decide (predicate_address (in_predicate i) = first_addr))) e.

Definition verify_transaction_sigs (tx : Transaction) (height : Z) (commitments : A)
    (in_block_commits : gset hash32) : res TxError () :=
  match tx with
  | Commit _ _ => Ok ()
  | Reveal inputs witnesses outputs salt =>
      let commitment := tx_commitment inputs outputs salt in
      _ ← bail_if (negb (sa_contains commitment commitments)
                   && negb (bool_decide (commitment ∈ in_block_commits))) UnknownCommitment;
      check_all (fun p : InputReveal * Witness =>
        bail_if (negb (verify_input p.1 p.2 commitment height outputs)) PredicateFailed)
        (zip inputs witnesses)
  | Consolidate inputs witness outputs salt =>
      match inputs with
      | [] => Err EmptyInputs
      | first :: rest =>
          let commitment := tx_commitment inputs outputs salt in
          _ ← bail_if (negb (sa_contains commitment commitments)
                       && negb (bool_decide (commitment ∈ in_block_commits))) UnknownCommitment;
          let first_addr := predicate_address (in_predicate first) in
          _ ← check_all (same_address first_addr MixedAddresses) rest;
          bail_if (negb (verify_input first witness commitment height outputs)) PredicateFailed
      end
  end.

(** ** Checks shared by application and validation *)

(** The scan of the inputs with the set of coin ids seen so far; Consolidate
    also requires one address. *)
Fixpoint scan_inputs (first_addr : option hash32) (seen : gset hash32) (inputs : list InputReveal)
    : res TxError () :=
  match inputs with
  | [] => Ok ()
  | i :: inputs =>
      _ ← match first_addr with
          | Some a => same_address a MixedAddresses i
          | None => Ok ()
          end;
      _ ← bail_if (bool_decide (input_coin_id i ∈ seen)) DuplicateInput;
      _ ← bail_if (bool_decide (in_commitment i <> None) && negb (in_value i =? 0)) StateThreadValue;
      scan_inputs first_addr ({[input_coin_id i]} ∪ seen) inputs
  end.

Definition check_output (out : OutputData) : res TxError () :=
  _ ← (if output_value out =? 0
       then bail_if (negb (allows_zero_value out)) ZeroValueOutput
       else bail_if (negb (is_pow2 (output_value out))) InvalidDenomination);
  match out with
  | DataBurn payload _ => bail_if (Nat.ltb MAX_BURN_DATA_SIZE (length payload)) BurnTooLarge
  | _ => Ok ()
  end.

Definition check_values (inputs : list InputReveal) (outputs : list OutputData) : res TxError () :=
  in_sum ← ok_or InputOverflow (checked_sum 64 0 (map in_value inputs));
  out_sum ← ok_or OutputOverflow (checked_sum 64 0 (map output_value outputs));
  bail_if (in_sum <=? out_sum) FeeTooLow.

Definition len {B} (l : list B) : Z := Z.of_nat (length l).

Definition reveal_structure (inputs : list InputReveal) (witnesses : list Witness)
    (outputs : list OutputData) : res TxError () :=
  _ ← bail_if (len inputs =? 0) EmptyInputs;
  _ ← bail_if (len outputs =? 0) EmptyOutputs;
  _ ← bail_if (MAX_TX_INPUTS <? len inputs) TooManyInputs;
  _ ← bail_if (MAX_TX_OUTPUTS <? len outputs) TooManyOutputs;
  _ ← bail_if (negb (len witnesses =? len inputs)) WitnessCount;
  let max_witness_size := MAX_SIGNATURE_SIZE * MAX_TX_INPUTS in
  _ ← bail_if (max_witness_size <? default (umax 64) (witnesses_size witnesses)) WitnessesTooLarge;
  _ ← scan_inputs None ∅ inputs;
  _ ← check_all check_output outputs;
  check_values inputs outputs.

(** [min_inputs] is 2 when applying and 1 when only validating. *)
Definition consolidate_structure (min_inputs : Z) (inputs : list InputReveal)
    (outputs : list OutputData) : res TxError () :=
  _ ← bail_if (len inputs <? min_inputs) TooFewInputs;
  _ ← bail_if (len outputs =? 0) EmptyOutputs;
  _ ← bail_if (MAX_CONSOLIDATE_INPUTS <? len inputs) TooManyInputs;
  _ ← bail_if (MAX_TX_OUTPUTS <? len outputs) TooManyOutputs;
  match inputs with
  | [] => Panic
  | first :: _ =>
      _ ← scan_inputs (Some (predicate_address (in_predicate first))) ∅ inputs;
      _ ← check_all check_output outputs;
      check_values inputs outputs
  end.

Definition check_commitment (expected : hash32) (s : State A) : res TxError () :=
  _ ← bail_if (negb (sa_contains expected (st_commitments s))) NoMatchingCommitment;
  match st_commitment_heights s !! expected with
  | Some commit_height =>
      bail_if (COMMITMENT_TTL <? sat_sub (st_height s) commit_height) CommitmentExpired
  | None => Ok ()
  end.

Definition check_coin (s : State A) (i : InputReveal) : res TxError () :=
  bail_if (negb (sa_contains (input_coin_id i) (st_coins s))) CoinNotFound.

Definition check_spend (expected : hash32) (outputs : list OutputData) (s : State A)
    (p : InputReveal * Witness) : res TxError () :=
  _ ← check_coin s p.1;
  bail_if (negb (verify_input p.1 p.2 expected (st_height s) outputs)) PredicateFailed.

(** ** Mutations *)

Definition v2_of (s : State A) : bool := is_v2_at (st_height s).

Definition release_commitment (expected : hash32) (s : State A) : State A :=
  if st_height s <? COMMIT_REPLAY_FIX_ACTIVATION_HEIGHT
  then set_commitments (sa_remove expected (v2_of s) (st_commitments s)).2
         (delete expected (st_commitment_heights s)) s
  else s.

Definition remove_coin (s : State A) (coin_id : hash32) : State A :=
  set_coins (sa_remove coin_id (v2_of s) (st_coins s)).2 s.

(** The one-time key that a witness exposes.  The last branch is the parser's error:
    it never aborts ([Mss.mss_from_bytes_total]). *)
Definition burned_key (i : InputReveal) (w : Witness) : option hash32 :=
  match w with
  | ScriptInputs [] => None
  | ScriptInputs (sig :: _) =>
      if Nat.eqb (length sig) SIG_SIZE then Some (predicate_address (in_predicate i))
      else match mss_from_bytes sig with
           | Ok mss_sig => Some (wots_pk mss_sig)
           | _ => None
           end
  end.

Definition burn (i : InputReveal) (w : Witness) (s : State A) : State A :=
  if V4_ACTIVATION_HEIGHT <=? st_height s then
    match burned_key i w with
    | Some k => set_burned (sa_insert k (v2_of s) (st_burned_wots s)).2 s
    | None => s
    end
  else s.

Definition spend_input (s : State A) (p : InputReveal * Witness) : State A :=
  burn p.1 p.2 (remove_coin s (input_coin_id p.1)).

(** [if !state.coins.insert(coin_id, v2) { bail!(..) }]. *)
Definition create_output (out : OutputData) : ST (State A) TxError () := fun s =>
  match output_coin_id out with
  | Some coin_id =>
      let '(fresh, coins) := sa_insert coin_id (v2_of s) (st_coins s) in
      (if fresh then Ok () else Err DuplicateCoinCreated, set_coins coins s)
  | None => (Ok (), s)
  end.

Definition absorb (inputs : list InputReveal) (outputs : list OutputData) (salt : hash32)
    (s : State A) : State A :=
  set_mirstat (hash_concat (st_mirstat s) (spend_hash inputs outputs salt)) s.

Definition record_commitment (commitment : hash32) (s : State A) : State A :=
  let s := set_commitments (st_commitments s)
             (<[commitment := st_height s]> (st_commitment_heights s)) s in
  let l := default [] (st_expirations s !! st_height s) ++ [commitment] in
  let s := set_expirations (<[st_height s := l]> (st_expirations s)) s in
  set_mirstat (hash_concat (st_mirstat s) commitment) s.

Definition insert_commitment (commitment : hash32) : ST (State A) TxError () := fun s =>
  let '(fresh, cs) := sa_insert commitment (v2_of s) (st_commitments s) in
  (if fresh then Ok () else Err DuplicateCommitment, set_commitments cs (st_commitment_heights s) s).

Definition apply_commit (commitment : hash32) (spam_nonce : Z) : ST (State A) TxError () :=
  _ ← reads (validate_commit_pow fast_mining commitment spam_nonce);
  _ ← insert_commitment commitment;
  modify (record_commitment commitment).

Definition apply_reveal (inputs : list InputReveal) (witnesses : list Witness)
    (outputs : list OutputData) (salt : hash32) : ST (State A) TxError () :=
  _ ← reads (fun _ => reveal_structure inputs witnesses outputs);
  let expected := tx_commitment inputs outputs salt in
  _ ← reads (check_commitment expected);
  _ ← reads (fun s => check_all (check_spend expected outputs s) (zip inputs witnesses));
  _ ← modify (release_commitment expected);
  _ ← modify (fun s => foldl spend_input s (zip inputs witnesses));
  _ ← st_each create_output outputs;
  modify (absorb inputs outputs salt).

Definition apply_consolidate (inputs : list InputReveal) (witness : Witness)
    (outputs : list OutputData) (salt : hash32) : ST (State A) TxError () :=
  _ ← reads (fun _ => consolidate_structure 2 inputs outputs);
  let expected := tx_commitment inputs outputs salt in
  _ ← reads (check_commitment expected);
  _ ← reads (fun s => check_all (check_coin s) inputs);
  match inputs return ST (State A) TxError () with
  | [] => fun s => (Panic, s)
  | first :: _ =>
      _ ← reads (fun s =>
        bail_if (negb (verify_input first witness expected (st_height s) outputs)) PredicateFailed);
      _ ← modify (release_commitment expected);
      _ ← modify (fun s => foldl remove_coin s (map input_coin_id inputs));
      _ ← modify (burn first witness);
      _ ← st_each create_output outputs;
      modify (absorb inputs outputs salt)
  end.

Definition apply_transaction (tx : Transaction) : ST (State A) TxError () :=
  match tx with
  | Commit commitment spam_nonce => apply_commit commitment spam_nonce
  | Reveal inputs witnesses outputs salt => apply_reveal inputs witnesses outputs salt
  | Consolidate inputs witness outputs salt => apply_consolidate inputs witness outputs salt
  end.

Definition apply_reveal_unchecked (inputs : list InputReveal) (witnesses : list Witness)
    (outputs : list OutputData) (salt : hash32) : ST (State A) TxError () :=
  _ ← reads (fun _ => reveal_structure inputs witnesses outputs);
  let expected := tx_commitment inputs outputs salt in
  _ ← reads (check_commitment expected);
  _ ← modify (release_commitment expected);
  _ ← reads (fun s => check_all (check_coin s) inputs);
  _ ← modify (fun s => foldl remove_coin s (map input_coin_id inputs));
  _ ← st_each create_output outputs;
  modify (absorb inputs outputs salt).

Definition apply_consolidate_unchecked (inputs : list InputReveal) (outputs : list OutputData)
    (salt : hash32) : ST (State A) TxError () :=
  _ ← reads (fun _ => consolidate_structure 2 inputs outputs);
  let expected := tx_commitment inputs outputs salt in
  _ ← reads (check_commitment expected);
  _ ← modify (release_commitment expected);
  _ ← reads (fun s => check_all (check_coin s) inputs);
  _ ← modify (fun s => foldl remove_coin s (map input_coin_id inputs));
  _ ← st_each create_output outputs;
  modify (absorb inputs outputs salt).

Definition apply_transaction_no_sig_check (tx : Transaction) : ST (State A) TxError () :=
  match tx with
  | Commit _ _ => apply_transaction tx
  | Reveal inputs witnesses outputs salt => apply_reveal_unchecked inputs witnesses outputs salt
  | Consolidate inputs _ outputs salt => apply_consolidate_unchecked inputs outputs salt
  end.

Definition validate_reveal (s : State A) (inputs : list InputReveal) (witnesses : list Witness)
    (outputs : list OutputData) (salt : hash32) : res TxError () :=
  _ ← reveal_structure inputs witnesses outputs;
  let expected := tx_commitment inputs outputs salt in
  _ ← check_commitment expected s;
  check_all (check_spend expected outputs s) (zip inputs witnesses).

Definition validate_consolidate (s : State A) (inputs : list InputReveal) (witness : Witness)
    (outputs : list OutputData) (salt : hash32) : res TxError () :=
  _ ← consolidate_structure 1 inputs outputs;
  let expected := tx_commitment inputs outputs salt in
  _ ← check_commitment expected s;
  _ ← check_all (check_coin s) inputs;
  match inputs with
  | [] => Panic
  | first :: _ =>
      bail_if (negb (verify_input first witness expected (st_height s) outputs)) PredicateFailed
  end.

Definition validate_transaction (s : State A) (tx : Transaction) : res TxError () :=
  match tx with
  | Commit commitment spam_nonce =>
      _ ← validate_commit_pow fast_mining commitment spam_nonce s;
      bail_if (sa_contains commitment (st_commitments s)) DuplicateCommitment
  | Reveal inputs witnesses outputs salt => validate_reveal s inputs witnesses outputs salt
  | Consolidate inputs witness outputs salt => validate_consolidate s inputs witness outputs salt
  end.

End Apply.

(** Expose the body of the handler of one kind of transaction. *)
Ltac open_tx :=
  unfold apply_commit, apply_reveal, apply_consolidate, validate_reveal, validate_consolidate,
    apply_reveal_unchecked, apply_consolidate_unchecked in *.


(** * Application in terms of validation *)

Lemma st_reads_bind {S E A B} (f : S -> res E A) (k : A -> ST S E B) s :
  (reads f ≫= k) s
  = match f s with Ok a => k a s | Err e => (Err e, s) | Panic => (Panic, s) end.
Proof. unfold mbind, st_bind, reads. destruct (f s); reflexivity. Qed.

Lemma st_modify_bind {S E B} (f : S -> S) (k : () -> ST S E B) s :
  (modify f ≫= k) s = k () (f s).
Proof. reflexivity. Qed.

Section Facts.
Context `{Blake3}.
Context (fast_mining : bool) (usize_bits : Z).
Context (witnesses_size : list Witness -> option Z).
Context {A : Type} `{!SetAccumulator A}.

Abbreviation apply_tx := (apply_transaction fast_mining usize_bits witnesses_size).
Abbreviation apply_no_sig := (apply_transaction_no_sig_check fast_mining usize_bits witnesses_size).
Abbreviation validate_tx := (validate_transaction fast_mining usize_bits witnesses_size).
Abbreviation verify_sigs := (verify_transaction_sigs usize_bits).

(** The end of every spend: create the outputs and absorb the transaction. *)
Definition finish (inputs : list InputReveal) (outputs : list OutputData) (salt : hash32)
    : ST (State A) TxError () :=
  _ ← st_each create_output outputs; modify (absorb inputs outputs salt).

(** The inputs a transaction spends with the witness that exposes a key. *)
Definition spend_pairs (tx : Transaction) : list (InputReveal * Witness) :=
  match tx with
  | Commit _ _ => []
  | Reveal inputs witnesses _ _ => zip inputs witnesses
  | Consolidate inputs witness _ _ => zip (take 1 inputs) [witness]
  end.

Definition burn_pair (s : State A) (p : InputReveal * Witness) : State A := burn p.1 p.2 s.

Definition run_spend (tx : Transaction) : ST (State A) TxError () :=
  match tx with
  | Commit _ _ => mret ()
  | Reveal inputs _ outputs salt | Consolidate inputs _ outputs salt =>
      fun s => finish inputs outputs salt
        (foldl burn_pair
          (foldl remove_coin (release_commitment (tx_commitment inputs outputs salt) s)
             (map input_coin_id inputs)) (spend_pairs tx))
  end.

Definition after {S E} (r : res E ()) (k : S -> res E () * S) (s : S) : res E () * S :=
  match r with Ok _ => k s | Err e => (Err e, s) | Panic => (Panic, s) end.

Lemma after_bind {S E B} (m : res E B) (f : B -> res E ()) (k : S -> res E () * S) s :
  after (m ≫= f) k s
  = match m with Ok b => after (f b) k s | Err e => (Err e, s) | Panic => (Panic, s) end.
Proof. destruct m; reflexivity. Qed.

Lemma remove_coin_burn s i w c :
  remove_coin (burn i w s) c = burn i w (remove_coin s c).
Proof. unfold burn, remove_coin, set_coins, set_burned, v2_of. cbn [st_height]. case_match; [|reflexivity]. destruct (burned_key i w); reflexivity. Qed.

Lemma remove_all_burn s i w cs :
  foldl remove_coin (burn i w s) cs = burn i w (foldl remove_coin s cs).
Proof. revert s; induction cs as [|c cs IH]; intros s; cbn [foldl]; [reflexivity|]. rewrite remove_coin_burn. apply IH. Qed.

(** Spending input by input is removing every coin, then burning every key. *)
Lemma spend_all_split ps : forall s,
  foldl spend_input s ps
  = foldl burn_pair (foldl remove_coin s (map (fun p => input_coin_id p.1) ps)) ps.
Proof.
  induction ps as [|p ps IH]; intros s; cbn [foldl map]; [reflexivity|].
  rewrite IH. f_equal. unfold spend_input, burn_pair. apply remove_all_burn.
Qed.

Lemma reveal_structure_lengths inputs witnesses outputs :
  reveal_structure witnesses_size inputs witnesses outputs = Ok () -> length witnesses = length inputs.
Proof.
  unfold reveal_structure, len. intros E. repeat ok_step.
  match goal with X : negb (_ =? _) = false |- _ => apply negb_false_iff, Z.eqb_eq in X end. lia.
Qed.

Lemma map_zip_fst {B} (f : InputReveal -> B) inputs (ws : list Witness) :
  length ws = length inputs -> map (fun p => f p.1) (zip inputs ws) = map f inputs.
Proof. revert ws; induction inputs as [|i l IH]; intros [|w ws]; try discriminate; [reflexivity|]. intros [= E]. cbn. f_equal. apply IH, E. Qed.

Lemma apply_reveal_eq inputs witnesses outputs salt s :
  let tx := Reveal inputs witnesses outputs salt in
  apply_tx tx s = after (validate_tx s tx) (run_spend tx) s.
Proof.
  cbn [apply_transaction validate_transaction run_spend spend_pairs]; open_tx.
  rewrite st_reads_bind, after_bind.
  destruct (reveal_structure _ inputs witnesses outputs) as [[]|e|] eqn:ES; try reflexivity.
  cbv zeta. rewrite st_reads_bind, after_bind.
  destruct (check_commitment _ s) as [[]|e|]; try reflexivity. rewrite st_reads_bind.
  destruct (check_all _ _) as [[]|e|]; try reflexivity. rewrite !st_modify_bind.
  cbn [after]. unfold finish. rewrite spend_all_split, map_zip_fst; [reflexivity|].
  apply reveal_structure_lengths in ES. exact ES.
Qed.

Lemma consolidate_structure_min inputs outputs : length inputs <> 1%nat ->
  consolidate_structure 2 inputs outputs = consolidate_structure 1 inputs outputs.
Proof.
  intros NE. unfold consolidate_structure, len.
  destruct inputs as [|i [|j l]]; try reflexivity; [simpl in NE; lia|].
  rewrite !length_cons.
  destruct (Z.ltb_spec (Z.of_nat (S (S (length l)))) 2), (Z.ltb_spec (Z.of_nat (S (S (length l)))) 1);
    try lia; reflexivity.
Qed.

Lemma apply_consolidate_eq inputs witness outputs salt s :
  let tx := Consolidate inputs witness outputs salt in
  length inputs <> 1%nat ->
  apply_tx tx s = after (validate_tx s tx) (run_spend tx) s.
Proof.
  intros tx NE. unfold tx. cbn [apply_transaction validate_transaction run_spend spend_pairs]; open_tx.
  rewrite st_reads_bind, after_bind, consolidate_structure_min by exact NE.
  destruct (consolidate_structure 1 inputs outputs) as [[]|e|]; try reflexivity.
  cbv zeta. rewrite st_reads_bind, after_bind.
  destruct (check_commitment _ s) as [[]|e|]; try reflexivity. rewrite st_reads_bind, after_bind.
  destruct (check_all _ _) as [[]|e|]; try reflexivity.
  destruct inputs as [|i l]; [reflexivity|]. rewrite st_reads_bind.
  destruct (bail_if _ _) as [[]|e|]; reflexivity.
Qed.

Lemma consolidate_structure_single i outputs :
  consolidate_structure 2 [i] outputs = Err TooFewInputs.
Proof. reflexivity. Qed.

(** ** Accumulator effects *)

Context `{!SetAccumulatorLaws A}.

Lemma remove_all_eq cs : forall s,
  exists c, foldl remove_coin s cs = set_coins c s /\ sa_set c = sa_set (st_coins s) ∖ list_to_set cs
    /\ forall m, m = v2_of s -> sa_wf m (st_coins s) -> sa_wf m c.
Proof.
  induction cs as [|x cs IH]; intros s; cbn [foldl].
  - exists (st_coins s). destruct s; split; [reflexivity|]. split; [set_solver|auto].
  - destruct (IH (remove_coin s x)) as (c & E1 & E2 & E3). exists c. rewrite E1. split; [reflexivity|].
    split.
    + rewrite E2. unfold remove_coin. cbn [st_coins set_coins]. rewrite sa_remove_set.
      rewrite list_to_set_cons. set_solver.
    + intros m -> Hw. apply E3; [reflexivity|]. cbn [remove_coin set_coins st_coins].
      apply sa_remove_wf, Hw.
Qed.

Lemma burn_all_eq ps : forall s,
  exists b, foldl burn_pair s ps = set_burned b s
    /\ (st_height s < V4_ACTIVATION_HEIGHT -> b = st_burned_wots s)
    /\ forall m, m = v2_of s -> sa_wf m (st_burned_wots s) -> sa_wf m b.
Proof.
  induction ps as [|p ps IH]; intros s; cbn [foldl].
  - exists (st_burned_wots s). destruct s; auto.
  - assert (E0 : exists b0, burn_pair s p = set_burned b0 s
        /\ (st_height s < V4_ACTIVATION_HEIGHT -> b0 = st_burned_wots s)
        /\ forall m, m = v2_of s -> sa_wf m (st_burned_wots s) -> sa_wf m b0).
    { unfold burn_pair, burn. destruct (Z.leb_spec V4_ACTIVATION_HEIGHT (st_height s)).
      - destruct (burned_key p.1 p.2) as [k|].
        + eexists. split; [reflexivity|]. split; [lia|]. intros m -> Hw. apply sa_insert_wf, Hw.
        + exists (st_burned_wots s). destruct s; auto.
      - exists (st_burned_wots s). destruct s; auto. }
    destruct E0 as (b0 & -> & B1 & B2). destruct (IH (set_burned b0 s)) as (b & -> & C1 & C2).
    exists b. split; [reflexivity|]. cbn [set_burned st_burned_wots st_height] in *. split.
    + intros Hh. rewrite C1 by exact Hh. apply B1, Hh.
    + intros m -> Hw. apply C2; [reflexivity|]. apply B2; auto.
Qed.

Lemma create_outputs_eq outs : forall s r s', st_each create_output outs s = (r, s') ->
  exists c, s' = set_coins c s
    /\ (forall m, m = v2_of s -> sa_wf m (st_coins s) -> sa_wf m c)
    /\ ((r = Ok () /\ NoDup (omap output_coin_id outs)
         /\ (forall x, x ∈ omap output_coin_id outs -> x ∉ sa_set (st_coins s))
         /\ sa_set c = list_to_set (omap output_coin_id outs) ∪ sa_set (st_coins s))
        \/ (r = Err DuplicateCoinCreated
            /\ ~ (NoDup (omap output_coin_id outs)
                  /\ forall x, x ∈ omap output_coin_id outs -> x ∉ sa_set (st_coins s)))).
Proof.
  induction outs as [|o outs IH]; intros s r s'; cbn [st_each].
  - intros [= <- <-]. exists (st_coins s). destruct s. split; [reflexivity|]. split; [auto|].
    left. split; [reflexivity|]. split; [constructor|]. split; [set_solver|set_solver].
  - unfold mbind, st_bind. unfold create_output at 1. cbn [omap list_omap].
    destruct (output_coin_id o) as [k|].
    2: { intros E. apply IH, E. }
    pose proof (sa_insert_new k (v2_of s) (st_coins s)) as EN.
    pose proof (sa_insert_set k (v2_of s) (st_coins s)) as ES.
    pose proof (sa_insert_wf k (v2_of s) (st_coins s)) as EW.
    destruct (sa_insert k (v2_of s) (st_coins s)) as [fresh c1]. cbn [fst snd] in *.
    case_bool_decide as Hk; subst fresh; cbn [negb].
    + intros [= <- <-]. exists c1. split; [reflexivity|]. split; [intros m ->; exact EW|]. right.
      split; [reflexivity|]. intros [_ HN]. apply (HN k); [set_solver|exact Hk].
    + intros E. destruct (IH _ _ _ E) as (c & -> & HW & HC). exists c.
      split; [reflexivity|]. cbn [set_coins st_coins] in *. split.
      { intros m -> Hw. apply HW; [reflexivity|]. apply EW, Hw. }
      rewrite ES in HC. destruct HC as [(-> & N1 & N2 & N3)|(-> & HN)].
      * left. split; [reflexivity|]. split.
        { constructor; [|exact N1]. intros Hx. apply (N2 k Hx). set_solver. }
        split; [intros x [->|Hx]%elem_of_cons; [exact Hk|]; specialize (N2 x Hx); set_solver|].
        rewrite N3. set_solver.
      * right. split; [reflexivity|]. intros [ND HF]. apply HN. apply NoDup_cons in ND as [ND1 ND2].
        split; [exact ND2|]. intros x Hx. specialize (HF x ltac:(set_solver)).
        intros [->%elem_of_singleton|Hc]%elem_of_union; contradiction.
Qed.


(** ** What the checks establish *)

Lemma scan_inputs_Ok a inputs : forall seen, scan_inputs a seen inputs = Ok () ->
  NoDup (map input_coin_id inputs)
  /\ (forall x, x ∈ map input_coin_id inputs -> x ∉ seen)
  /\ Forall (fun i => in_commitment i <> None -> in_value i = 0) inputs
  /\ (forall ad, a = Some ad -> Forall (fun i => predicate_address (in_predicate i) = ad) inputs).
Proof.
  induction inputs as [|i l IH]; intros seen E; cbn [scan_inputs map] in *.
  - split; [constructor|]. split; [set_solver|]. split; [constructor|]. constructor.
  - repeat ok_step. destruct (IH _ ltac:(eassumption)) as (N1 & N2 & N3 & N4).
    match goal with X : bool_decide (_ ∈ seen) = false |- _ => apply bool_decide_eq_false in X end.
    split; [constructor; [intros Hx; apply (N2 _ Hx); set_solver|exact N1]|].
    split; [intros x [->|Hx]%elem_of_cons; [assumption|]; specialize (N2 x Hx); set_solver|].
    split.
    + constructor; [|exact N3]. intros Hc.
      match goal with X : (_ && _) = false |- _ => apply andb_false_iff in X as [X|X];
        [apply bool_decide_eq_false in X; contradiction|apply negb_false_iff, Z.eqb_eq in X; exact X] end.
    + intros ad ->. constructor; [|apply N4; reflexivity].
      unfold same_address in *. repeat ok_step.
      match goal with X : negb _ = false |- _ => apply negb_false_iff, bool_decide_eq_true in X; exact X end.
Qed.

Lemma check_values_Ok inputs outputs :
  Forall (fun i => 0 <= in_value i) inputs -> Forall (fun o => 0 <= output_value o) outputs ->
  check_values inputs outputs = Ok () ->
  sumZ (map output_value outputs) < sumZ (map in_value inputs) < 2 ^ 64.
Proof.
  intros HI HO E. unfold check_values in E. repeat ok_step.
  match goal with X : (_ <=? _) = false |- _ => apply Z.leb_gt in X; rename X into HL end.
  match goal with X : checked_sum 64 0 (map in_value _) = _ |- _ =>
    apply checked_sum_Some in X as [-> B1]; [|apply Forall_map; exact HI|unfold umax; lia] end.
  match goal with X : checked_sum 64 0 (map output_value _) = _ |- _ =>
    apply checked_sum_Some in X as [-> B2]; [|apply Forall_map; exact HO|unfold umax; lia] end.
  unfold umax in *. lia.
Qed.

Lemma check_commitment_Ok expected (s : State A) : check_commitment expected s = Ok () ->
  expected ∈ sa_set (st_commitments s)
  /\ forall h, st_commitment_heights s !! expected = Some h -> st_height s - h <= COMMITMENT_TTL.
Proof.
  unfold check_commitment. intros E. repeat ok_step. rewrite sa_contains_set in *.
  match goal with X : negb _ = false |- _ => apply negb_false_iff, bool_decide_eq_true in X end.
  split; [assumption|]. intros h Eh. rewrite Eh in *. ok_step.
  match goal with X : (_ <? _) = false |- _ => apply Z.ltb_ge in X; unfold sat_sub in X end. lia.
Qed.

Lemma check_coins_Ok (s : State A) inputs : check_all (check_coin s) inputs = Ok () <->
  forall x, x ∈ map input_coin_id inputs -> x ∈ sa_set (st_coins s).
Proof.
  rewrite check_all_Ok, Forall_forall. split.
  - intros HF x Hx. apply list_elem_of_fmap in Hx as (i & -> & Hi). specialize (HF i Hi).
    unfold check_coin in HF. ok_step. rewrite sa_contains_set in HF.
    apply negb_false_iff, bool_decide_eq_true in HF. exact HF.
  - intros HF i Hi. unfold check_coin. rewrite sa_contains_set, bool_decide_true; [reflexivity|].
    apply HF, list_elem_of_fmap. eauto.
Qed.

Lemma release_commitment_eq expected s :
  exists cs hs, release_commitment expected s = set_commitments cs hs s
    /\ sa_set cs = (if st_height s <? COMMIT_REPLAY_FIX_ACTIVATION_HEIGHT
                    then sa_set (st_commitments s) ∖ {[expected]} else sa_set (st_commitments s))
    /\ hs = (if st_height s <? COMMIT_REPLAY_FIX_ACTIVATION_HEIGHT
             then delete expected (st_commitment_heights s) else st_commitment_heights s)
    /\ forall m, m = v2_of s -> sa_wf m (st_commitments s) -> sa_wf m cs.
Proof.
  unfold release_commitment. destruct (_ <? _).
  - do 2 eexists. split; [reflexivity|]. split; [apply sa_remove_set|]. split; [reflexivity|].
    intros m -> Hw. apply sa_remove_wf, Hw.
  - exists (st_commitments s), (st_commitment_heights s). destruct s; auto.
Qed.

(** ** The common end of every spend *)

Definition tx_inputs (tx : Transaction) : list InputReveal :=
  match tx with Commit _ _ => [] | Reveal i _ _ _ | Consolidate i _ _ _ => i end.
Definition tx_outputs (tx : Transaction) : list OutputData :=
  match tx with Commit _ _ => [] | Reveal _ _ o _ | Consolidate _ _ o _ => o end.
Definition tx_salt (tx : Transaction) : hash32 :=
  match tx with Commit _ _ => zero_arr 32 | Reveal _ _ _ s | Consolidate _ _ _ s => s end.
Definition is_spend (tx : Transaction) : bool :=
  match tx with Commit _ _ => false | _ => true end.
Definition commitment_of (tx : Transaction) : hash32 :=
  tx_commitment (tx_inputs tx) (tx_outputs tx) (tx_salt tx).

(** Removing the inputs of [tx], creating its outputs, absorbing it; the
    witnesses are not looked at. *)
Definition run_bare (tx : Transaction) : ST (State A) TxError () := fun s =>
  finish (tx_inputs tx) (tx_outputs tx) (tx_salt tx)
    (foldl remove_coin (release_commitment (commitment_of tx) s) (input_coin_ids tx)).

Lemma create_outputs_burned outs b : forall s,
  st_each create_output outs (set_burned b s)
  = (let '(r, s') := st_each create_output outs s in (r, set_burned b s')).
Proof.
  induction outs as [|o outs IH]; intros s; cbn [st_each]; [reflexivity|].
  unfold mbind, st_bind. unfold create_output at 1 3. destruct (output_coin_id o) as [k|]; [|apply IH].
  change (v2_of (set_burned b s)) with (v2_of s). cbn [set_burned st_coins].
  destruct (sa_insert k (v2_of s) (st_coins s)) as [fresh c]. destruct fresh; [|reflexivity].
  change (set_coins c (set_burned b s)) with (set_burned b (set_coins c s)). apply IH.
Qed.

Lemma finish_burned inputs outputs salt b s :
  finish inputs outputs salt (set_burned b s)
  = (let '(r, s') := finish inputs outputs salt s in (r, set_burned b s')).
Proof.
  unfold finish, mbind, st_bind. rewrite create_outputs_burned.
  destruct (st_each create_output outputs s) as [[a|e|] s']; reflexivity.
Qed.

(** Looking at the witnesses only changes the set of burned keys. *)
Lemma run_spend_bare tx s : is_spend tx = true ->
  exists b, run_spend tx s = (let '(r, s') := run_bare tx s in (r, set_burned b s'))
    /\ (st_height s < V4_ACTIVATION_HEIGHT -> b = st_burned_wots s)
    /\ forall m, m = v2_of s -> sa_wf m (st_burned_wots s) -> sa_wf m b.
Proof.
  intros HS. destruct (release_commitment_eq (commitment_of tx) s) as (cs & hs & ER & _ & _ & _).
  set (s0 := foldl remove_coin (release_commitment (commitment_of tx) s) (input_coin_ids tx)).
  destruct (remove_all_eq (input_coin_ids tx) (release_commitment (commitment_of tx) s))
    as (c & EC & _ & _). fold s0 in EC.
  destruct (burn_all_eq (spend_pairs tx) s0) as (b & EB & B1 & B2). exists b.
  assert (EH : st_height s0 = st_height s /\ st_burned_wots s0 = st_burned_wots s)
    by (rewrite EC, ER; split; reflexivity).
  destruct EH as [EH1 EH2]. unfold v2_of in *. rewrite EH1, EH2 in *. split; [|split; assumption].
  unfold run_bare. fold s0. rewrite <- finish_burned, <- EB.
  destruct tx; try discriminate HS; reflexivity.
Qed.

Lemma run_bare_eq tx s r s' : run_bare tx s = (r, s') ->
  exists c cs hs b,
    s' = set_mirstat b (set_coins c (set_commitments cs hs s))
    /\ sa_set cs = (if st_height s <? COMMIT_REPLAY_FIX_ACTIVATION_HEIGHT
                    then sa_set (st_commitments s) ∖ {[commitment_of tx]} else sa_set (st_commitments s))
    /\ hs = (if st_height s <? COMMIT_REPLAY_FIX_ACTIVATION_HEIGHT
             then delete (commitment_of tx) (st_commitment_heights s) else st_commitment_heights s)
    /\ (forall m, m = v2_of s -> sa_wf m (st_commitments s) -> sa_wf m cs)
    /\ (forall m, m = v2_of s -> sa_wf m (st_coins s) -> sa_wf m c)
    /\ let C := sa_set (st_coins s) ∖ list_to_set (input_coin_ids tx) in
       (r = Ok () /\ NoDup (output_coin_ids tx) /\ (forall x, x ∈ output_coin_ids tx -> x ∉ C)
        /\ sa_set c = list_to_set (output_coin_ids tx) ∪ C
        /\ (is_spend tx = true -> b = replay_tx (st_mirstat s) tx))
       \/ (r = Err DuplicateCoinCreated
           /\ ~ (NoDup (output_coin_ids tx) /\ forall x, x ∈ output_coin_ids tx -> x ∉ C)).
Proof.
  unfold run_bare, finish. intros E.
  destruct (release_commitment_eq (commitment_of tx) s) as (cs & hs & ER & E1 & E2 & E3). rewrite ER in E.
  destruct (remove_all_eq (input_coin_ids tx) (set_commitments cs hs s)) as (c & EC & C1 & C2).
  rewrite EC in E. unfold mbind, st_bind in E.
  destruct (st_each create_output (tx_outputs tx) _) as [r1 s1] eqn:EO.
  destruct (create_outputs_eq _ _ _ _ EO) as (c' & -> & W & HC). cbn [set_coins st_coins set_commitments] in *.
  change (v2_of (set_coins c (set_commitments cs hs s))) with (v2_of s) in *.
  change (v2_of (set_commitments cs hs s)) with (v2_of s) in *. rewrite C1 in HC.
  assert (EI : omap output_coin_id (tx_outputs tx) = output_coin_ids tx) by (destruct tx; reflexivity).
  rewrite EI in HC.
  destruct HC as [(-> & N1 & N2 & N3)|(-> & HN)].
  - injection E as <- <-. exists c', cs, hs, (hash_concat (st_mirstat s) (spend_hash (tx_inputs tx) (tx_outputs tx) (tx_salt tx))).
    split; [reflexivity|]. split; [exact E1|]. split; [exact E2|]. split; [exact E3|].
    split; [intros m -> Hw; auto|]. left. repeat (split; [assumption || reflexivity|]).
    destruct tx; [discriminate|reflexivity..].
  - injection E as <- <-. exists c', cs, hs, (st_mirstat s).
    split; [destruct s; reflexivity|]. split; [exact E1|]. split; [exact E2|]. split; [exact E3|].
    split; [intros m -> Hw; auto|]. right. auto.
Qed.


(** ** Validation, application and the unchecked application compared *)

Definition structure (min_inputs : Z) (tx : Transaction) : res TxError () :=
  match tx with
  | Commit _ _ => Ok ()
  | Reveal inputs witnesses outputs _ => reveal_structure witnesses_size inputs witnesses outputs
  | Consolidate inputs _ outputs _ => consolidate_structure min_inputs inputs outputs
  end.

(** Who may spend: every input's script accepts its witness, or one address
    signs for all. *)
Definition authorised (height : Z) (tx : Transaction) : Prop :=
  match tx with
  | Commit _ _ => True
  | Reveal inputs witnesses outputs _ =>
      length witnesses = length inputs
      /\ Forall (fun p => verify_input usize_bits p.1 p.2 (commitment_of tx) height outputs = true)
           (zip inputs witnesses)
  | Consolidate inputs witness outputs _ =>
      exists first rest, inputs = first :: rest
      /\ Forall (fun i => predicate_address (in_predicate i) = predicate_address (in_predicate first)) rest
      /\ verify_input usize_bits first witness (commitment_of tx) height outputs = true
  end.

Lemma zip_coins (s : State A) inputs (ws : list Witness) : length ws = length inputs ->
  Forall (fun p => check_coin s p.1 = Ok ()) (zip inputs ws) <-> Forall (fun i => check_coin s i = Ok ()) inputs.
Proof.
  revert ws; induction inputs as [|i l IH]; intros [|w ws]; try discriminate; [split; constructor|].
  intros [= E]. cbn. rewrite !Forall_cons, IH by exact E. reflexivity.
Qed.

Lemma check_spends_Ok expected outputs (s : State A) inputs ws : length ws = length inputs ->
  check_all (check_spend usize_bits expected outputs s) (zip inputs ws) = Ok ()
  <-> check_all (check_coin s) inputs = Ok ()
      /\ Forall (fun p => verify_input usize_bits p.1 p.2 expected (st_height s) outputs = true) (zip inputs ws).
Proof.
  intros HL. rewrite !check_all_Ok, <- (zip_coins s inputs ws HL), <- Forall_and.
  apply Forall_iff. intros [i w]. unfold check_spend. cbn [fst snd]. rewrite res_bind_Ok. split.
  - intros ([] & E1 & E2). apply bail_if_Ok in E2. apply negb_false_iff in E2. auto.
  - intros [E1 E2]. exists (). split; [exact E1|]. apply bail_if_Ok. rewrite E2. reflexivity.
Qed.

Lemma consolidate_structure_address m inputs outputs : consolidate_structure m inputs outputs = Ok () ->
  exists first rest, inputs = first :: rest
  /\ Forall (fun i => predicate_address (in_predicate i) = predicate_address (in_predicate first)) rest.
Proof.
  unfold consolidate_structure. intros E. repeat ok_step. destruct inputs as [|first rest]; [discriminate|].
  repeat ok_step. exists first, rest. split; [reflexivity|].
  match goal with X : scan_inputs _ _ _ = _ |- _ => apply scan_inputs_Ok in X as (_ & _ & _ & HA) end.
  specialize (HA _ eq_refl). apply Forall_cons in HA as [_ HA]. exact HA.
Qed.

(** Validation accepts a spend when its shape is right, its commitment is live,
    its coins exist and its witnesses authorise it. *)
Lemma validate_spend_Ok tx s : is_spend tx = true ->
  validate_tx s tx = Ok () <->
  structure 1 tx = Ok () /\ check_commitment (commitment_of tx) s = Ok ()
  /\ check_all (check_coin s) (tx_inputs tx) = Ok () /\ authorised (st_height s) tx.
Proof.
  intros HS. destruct tx as [|inputs ws outputs salt|inputs w outputs salt]; [discriminate| |];
    unfold commitment_of; cbn [validate_transaction structure authorised tx_inputs tx_outputs tx_salt]; open_tx.
  - rewrite res_bind_Ok. split.
    + intros ([] & E1 & E2). apply res_bind_Ok in E2 as ([] & E2 & E3).
      pose proof (reveal_structure_lengths _ _ _ E1) as HL. apply check_spends_Ok in E3; [|exact HL].
      tauto.
    + intros (E1 & E2 & E3 & HL & E4). exists (). split; [exact E1|]. apply res_bind_Ok.
      exists (). split; [exact E2|]. apply check_spends_Ok; auto.
  - rewrite res_bind_Ok. split.
    + intros ([] & E1 & E2). apply res_bind_Ok in E2 as ([] & E2 & E3).
      apply res_bind_Ok in E3 as ([] & E3 & E4).
      destruct (consolidate_structure_address _ _ _ E1) as (f & r & -> & HA).
      apply bail_if_Ok, negb_false_iff in E4. repeat (split; [assumption|]). exists f, r. auto.
    + intros (E1 & E2 & E3 & f & r & -> & HA & E4). exists (). split; [exact E1|]. apply res_bind_Ok.
      exists (). split; [exact E2|]. apply res_bind_Ok. exists (). split; [exact E3|].
      apply bail_if_Ok, negb_false_iff. exact E4.
Qed.

Lemma scan_inputs_intro inputs : forall seen, NoDup (map input_coin_id inputs) ->
  (forall x, x ∈ map input_coin_id inputs -> x ∉ seen) ->
  Forall (fun i => in_commitment i = None \/ in_value i = 0) inputs ->
  scan_inputs None seen inputs = Ok ().
Proof.
  induction inputs as [|i l IH]; intros seen HN HD HC; [reflexivity|]. cbn [scan_inputs map] in *.
  apply NoDup_cons in HN as [N1 N2]. inversion HC as [|? ? C1 C2]; subst. cbn [mbind res_bind].
  rewrite (bool_decide_false (input_coin_id i ∈ seen)) by (apply HD; left). cbn [bail_if mbind res_bind].
  replace (bool_decide (in_commitment i <> None) && negb (in_value i =? 0)) with false.
  - apply IH; [exact N2| |exact C2]. intros x Hx [->%elem_of_singleton|Hs]%elem_of_union; [contradiction|].
    apply (HD x); [right; exact Hx|exact Hs].
  - symmetry. destruct C1 as [-> | ->]; [rewrite bool_decide_false by auto; reflexivity|apply andb_false_r].
Qed.

Lemma sums_intro inputs outputs :
  Forall (fun i => 0 <= in_value i) inputs -> Forall (fun o => 0 <= output_value o) outputs ->
  sumZ (map in_value inputs) <= umax 64 -> sumZ (map output_value outputs) <= umax 64 ->
  checked_sum 64 0 (map in_value inputs) = Some (sumZ (map in_value inputs))
  /\ checked_sum 64 0 (map output_value outputs) = Some (sumZ (map output_value outputs)).
Proof.
  intros HI HO BI BO. split; apply checked_sum_Some; try (apply Forall_map; assumption); unfold umax in *; lia.
Qed.

(** What makes a reveal valid, with the fee it pays. *)
Lemma reveal_valid_intro inputs ws outputs salt (s : State A) :
  inputs <> [] -> outputs <> [] -> len inputs <= MAX_TX_INPUTS -> len outputs <= MAX_TX_OUTPUTS ->
  length ws = length inputs -> default (umax 64) (witnesses_size ws) <= MAX_SIGNATURE_SIZE * MAX_TX_INPUTS ->
  NoDup (map input_coin_id inputs) -> Forall (fun i => in_commitment i = None \/ in_value i = 0) inputs ->
  Forall (fun o => check_output o = Ok () /\ 0 <= output_value o) outputs -> Forall (fun i => 0 <= in_value i) inputs ->
  sumZ (map output_value outputs) < sumZ (map in_value inputs) <= umax 64 ->
  check_commitment (tx_commitment inputs outputs salt) s = Ok () ->
  Forall (fun i => input_coin_id i ∈ sa_set (st_coins s)) inputs ->
  Forall (fun p => verify_input usize_bits p.1 p.2 (tx_commitment inputs outputs salt) (st_height s) outputs = true)
    (zip inputs ws) ->
  let tx := Reveal inputs ws outputs salt in
  validate_tx s tx = Ok () /\ fee tx = sumZ (map in_value inputs) - sumZ (map output_value outputs).
Proof.
  intros HI HO LI LO LW HW HN HC HOk HP HS HK HCo HV tx.
  assert (HO0 : Forall (fun o => 0 <= output_value o) outputs) by (eapply Forall_impl; [exact HOk|]; intros o Ho; apply Ho).
  destruct (sums_intro inputs outputs HP HO0) as [S1 S2]; [lia..|]. split.
  - apply validate_spend_Ok; [reflexivity|]. cbn [structure tx tx_inputs authorised]. split; [|split; [exact HK|split]].
    + unfold reveal_structure. assert (len inputs <> 0) by (unfold len; destruct inputs; [congruence|discriminate]).
      assert (len outputs <> 0) by (unfold len; destruct outputs; [congruence|discriminate]).
      rewrite (proj2 (Z.eqb_neq (len inputs) 0)), (proj2 (Z.eqb_neq (len outputs) 0)) by assumption.
      rewrite (proj2 (Z.ltb_ge MAX_TX_INPUTS (len inputs))), (proj2 (Z.ltb_ge MAX_TX_OUTPUTS (len outputs))) by assumption.
      assert (EW : len ws = len inputs) by (unfold len; rewrite LW; reflexivity). rewrite EW, Z.eqb_refl. cbn [bail_if negb mbind res_bind].
      rewrite (proj2 (Z.ltb_ge _ _)) by exact HW. cbn [bail_if mbind res_bind].
      rewrite scan_inputs_intro; [|exact HN|intros x _; apply not_elem_of_empty|exact HC]. cbn [mbind res_bind].
      rewrite (proj2 (check_all_Ok check_output outputs)) by (eapply Forall_impl; [exact HOk|]; intros o Ho; apply Ho).
      cbn [mbind res_bind]. unfold check_values. rewrite S1, S2. cbn [ok_or mbind res_bind].
      rewrite (proj2 (Z.leb_gt _ _)) by lia. reflexivity.
    + apply check_coins_Ok. intros x Hx. apply list_elem_of_fmap in Hx as (i & -> & Hi).
      rewrite Forall_forall in HCo. apply HCo, Hi.
    + split; assumption.
  - cbn [fee tx]. rewrite S1, S2. cbn [default from_option id]. unfold sat_sub. lia.
Qed.

Lemma consolidate_structure_2 inputs outputs :
  consolidate_structure 2 inputs outputs = Ok () <->
  length inputs <> 1%nat /\ consolidate_structure 1 inputs outputs = Ok ().
Proof.
  destruct (decide (length inputs = 1%nat)) as [E|E].
  - split; [|tauto]. destruct inputs as [|i [|j l]]; discriminate.
  - rewrite consolidate_structure_min by exact E. tauto.
Qed.

(** [Consolidate] with a single input: validated, never applied. *)
Definition single_consolidate (tx : Transaction) : bool :=
  match tx with Consolidate inputs _ _ _ => Nat.eqb (length inputs) 1 | _ => false end.

Lemma apply_spend_eq tx s : is_spend tx = true -> single_consolidate tx = false ->
  apply_tx tx s = after (validate_tx s tx) (run_spend tx) s.
Proof.
  intros HS HC. destruct tx as [|inputs ws outputs salt|inputs w outputs salt]; [discriminate| |].
  - apply apply_reveal_eq.
  - apply apply_consolidate_eq. apply Nat.eqb_neq. exact HC.
Qed.

Lemma apply_single_consolidate tx s : single_consolidate tx = true ->
  apply_tx tx s = (Err TooFewInputs, s).
Proof.
  destruct tx as [| |[|i [|j l]] w outputs salt]; try discriminate. intros _. reflexivity.
Qed.

Lemma after_Ok {S} (r : res TxError ()) (k : S -> res TxError () * S) s s' :
  after r k s = (Ok (), s') <-> r = Ok () /\ k s = (Ok (), s').
Proof. destruct r as [[]|e|]; cbn [after]; split; try tauto; try (intros [E _]; discriminate E); discriminate. Qed.

Lemma apply_spend_Ok tx s s' : is_spend tx = true ->
  apply_tx tx s = (Ok (), s') <->
  single_consolidate tx = false /\ validate_tx s tx = Ok () /\ run_spend tx s = (Ok (), s').
Proof.
  intros HS. destruct (single_consolidate tx) eqn:HC.
  - rewrite apply_single_consolidate by exact HC. split; [discriminate|]. intros [? _]. discriminate.
  - rewrite apply_spend_eq, after_Ok by assumption. tauto.
Qed.

Lemma check_coins_release expected (s : State A) inputs :
  check_all (check_coin (release_commitment expected s)) inputs = check_all (check_coin s) inputs.
Proof.
  assert (E : st_coins (release_commitment expected s) = st_coins s)
    by (unfold release_commitment; destruct (_ <? _); reflexivity).
  assert (F : forall i, check_coin (release_commitment expected s) i = check_coin s i)
    by (intros i; unfold check_coin; rewrite E; reflexivity).
  induction inputs as [|i l IH]; [reflexivity|]. cbn [check_all]. rewrite IH, F. reflexivity.
Qed.

Lemma no_sig_spend_Ok tx s s' : is_spend tx = true ->
  apply_no_sig tx s = (Ok (), s') <->
  structure 2 tx = Ok () /\ check_commitment (commitment_of tx) s = Ok ()
  /\ check_all (check_coin s) (tx_inputs tx) = Ok () /\ run_bare tx s = (Ok (), s').
Proof.
  intros HS. destruct tx as [|inputs ws outputs salt|inputs w outputs salt]; [discriminate| |];
    unfold commitment_of, run_bare, commitment_of;
    cbn [apply_transaction_no_sig_check structure tx_inputs tx_outputs tx_salt input_coin_ids];
    open_tx; rewrite st_reads_bind; (case_match eqn:E1; [|split; [discriminate|intros [? _]; congruence]..]);
    cbv zeta; rewrite st_reads_bind;
    (destruct (check_commitment _ s) as [[]|e|] eqn:E2;
      [|split; [discriminate|intros (_ & ? & _); congruence]..]);
    rewrite st_modify_bind, st_reads_bind, check_coins_release;
    (destruct (check_all (check_coin s) inputs) as [[]|e|] eqn:E3;
      [|split; [discriminate|intros (_ & _ & ? & _); congruence]..]);
    destruct a; rewrite st_modify_bind; tauto.
Qed.

Lemma verify_sigs_Ok tx height cs ibc : is_spend tx = true ->
  verify_sigs tx height cs ibc = Ok () ->
  (commitment_of tx ∈ sa_set cs \/ commitment_of tx ∈ ibc)
  /\ match tx with
     | Reveal inputs witnesses outputs _ =>
         Forall (fun p => verify_input usize_bits p.1 p.2 (commitment_of tx) height outputs = true)
           (zip inputs witnesses)
     | _ => authorised height tx
     end.
Proof.
  intros HS E. assert (EC : forall c, negb (sa_contains c cs) && negb (bool_decide (c ∈ ibc)) = false ->
    c ∈ sa_set cs \/ c ∈ ibc).
  { intros c E1. rewrite sa_contains_set in E1. apply andb_false_iff in E1 as [E1|E1];
      apply negb_false_iff, bool_decide_eq_true in E1; auto. }
  destruct tx as [|inputs ws outputs salt|inputs w outputs salt]; [discriminate| |]; cbn in E.
  - repeat ok_step. split; [apply EC; assumption|].
    match goal with X : check_all _ _ = _ |- _ => apply check_all_Ok in X; rename X into EF end.
    eapply Forall_impl; [exact EF|]. intros p Ep. apply bail_if_Ok, negb_false_iff in Ep. exact Ep.
  - destruct inputs as [|i l]; [discriminate|]. repeat ok_step. split; [apply EC; assumption|].
    exists i, l. split; [reflexivity|].
    match goal with X : check_all _ _ = _ |- _ => apply check_all_Ok in X; rename X into EF end.
    split.
    + eapply Forall_impl; [exact EF|]. intros p Ep. unfold same_address in Ep.
      apply bail_if_Ok, negb_false_iff, bool_decide_eq_true in Ep. exact Ep.
    + match goal with X : negb _ = false |- _ => apply negb_false_iff in X; exact X end.
Qed.

Lemma verify_sigs_intro tx height cs ibc : is_spend tx = true ->
  commitment_of tx ∈ sa_set cs \/ commitment_of tx ∈ ibc -> authorised height tx ->
  verify_sigs tx height cs ibc = Ok ().
Proof.
  intros HS HC HA.
  assert (EC : negb (sa_contains (commitment_of tx) cs) && negb (bool_decide (commitment_of tx ∈ ibc)) = false).
  { rewrite sa_contains_set. apply andb_false_iff. destruct HC as [HC|HC]; [left|right];
      rewrite bool_decide_true by exact HC; reflexivity. }
  destruct tx as [|inputs ws outputs salt|inputs w outputs salt]; [discriminate| |];
    unfold commitment_of in *; cbn in *.
  - destruct HA as [_ HA]. rewrite EC. cbn.
    apply check_all_Ok. eapply Forall_impl; [exact HA|]. intros p Ep.
    apply bail_if_Ok, negb_false_iff. exact Ep.
  - destruct HA as (f & r & -> & HA & HV). rewrite EC. cbn [bail_if].
    apply res_bind_Ok. exists (). split; [reflexivity|]. apply res_bind_Ok. exists (). split.
    + apply check_all_Ok. eapply Forall_impl; [exact HA|]. intros p Ep. unfold same_address.
      rewrite bool_decide_true by exact Ep. reflexivity.
    + apply bail_if_Ok, negb_false_iff. exact HV.
Qed.

(** ** No panic *)

Lemma check_all_safe {E B} (f : B -> res E ()) l : (forall x, f x <> Panic) -> check_all f l <> Panic.
Proof. intros Hf. induction l as [|x l IH]; cbn [check_all]; [discriminate|]. apply bind_safe; [apply Hf|intros _ _; exact IH]. Qed.

Lemma scan_inputs_safe a seen inputs : scan_inputs a seen inputs <> Panic.
Proof.
  revert seen; induction inputs as [|i l IH]; intros seen; cbn [scan_inputs]; [discriminate|].
  apply bind_safe; [destruct a; [apply bail_if_safe|discriminate]|]. intros _ _.
  repeat (apply bind_safe; [apply bail_if_safe|]; intros _ _). apply IH.
Qed.

Lemma check_output_safe o : check_output o <> Panic.
Proof.
  unfold check_output. apply bind_safe; [destruct (_ =? 0); apply bail_if_safe|]. intros _ _.
  destruct o; try discriminate. apply bail_if_safe.
Qed.

Lemma check_values_safe inputs outputs : check_values inputs outputs <> Panic.
Proof. unfold check_values. repeat safe_step. Qed.

#[local] Hint Resolve scan_inputs_safe check_output_safe check_values_safe check_all_safe : safe.

Lemma structure_safe m tx : 1 <= m -> structure m tx <> Panic.
Proof.
  intros Hm. destruct tx as [|inputs ws outputs salt|inputs w outputs salt]; cbn [structure]; [discriminate| |].
  - unfold reveal_structure. cbv zeta. repeat safe_step.
  - unfold consolidate_structure. do 4 (apply bind_safe; [apply bail_if_safe|]; intros ? ?).
    repeat ok_step. destruct inputs as [|i l].
    + match goal with X : (len [] <? m) = false |- _ => apply Z.ltb_ge in X; unfold len in X; simpl in X end. lia.
    + repeat safe_step.
Qed.

Lemma check_commitment_safe expected (s : State A) : check_commitment expected s <> Panic.
Proof. unfold check_commitment. apply bind_safe; [apply bail_if_safe|]. intros _ _. case_match; [apply bail_if_safe|discriminate]. Qed.

Lemma validate_commit_pow_safe c n (s : State A) : validate_commit_pow fast_mining c n s <> Panic.
Proof.
  unfold validate_commit_pow, evaluate_commit_pow. destruct (unpack_spam_nonce n) as [t a]. cbv zeta.
  repeat case_match; repeat safe_step.
Qed.

Lemma validate_safe s tx : validate_tx s tx <> Panic.
Proof.
  pose proof (structure_safe 1 tx ltac:(lia)) as HS.
  destruct tx as [c n|inputs ws outputs salt|inputs w outputs salt]; cbn [validate_transaction structure] in *; open_tx.
  - apply bind_safe; [apply validate_commit_pow_safe|]. intros. apply bail_if_safe.
  - apply bind_safe; [exact HS|]. intros _ _. cbv zeta.
    apply bind_safe; [apply check_commitment_safe|]. intros _ _. apply check_all_safe. intros p.
    unfold check_spend, check_coin. repeat safe_step.
  - apply bind_safe; [exact HS|]. intros [] E. cbv zeta.
    apply bind_safe; [apply check_commitment_safe|]. intros _ _.
    apply bind_safe; [apply check_all_safe; intros; apply bail_if_safe|]. intros _ _.
    destruct (consolidate_structure_address _ _ _ E) as (f & r & -> & _). apply bail_if_safe.
Qed.

End Facts.

(** * Properties *)

Section Properties.
Context `{Blake3}.
Context (fast_mining : bool) (usize_bits : Z).
Context (witnesses_size : list Witness -> option Z).
Context {A : Type} `{!SetAccumulator A} `{!SetAccumulatorLaws A}.

Abbreviation apply_tx := (apply_transaction fast_mining usize_bits witnesses_size).
Abbreviation apply_no_sig := (apply_transaction_no_sig_check fast_mining usize_bits witnesses_size).
Abbreviation validate_tx := (validate_transaction fast_mining usize_bits witnesses_size).
Abbreviation verify_sigs := (verify_transaction_sigs usize_bits).

(** The amounts of a transaction are machine words. *)
Definition tx_wf (tx : Transaction) : Prop :=
  Forall (fun i => in_u 64 (in_value i)) (tx_inputs tx)
  /\ Forall (fun o => in_u 64 (output_value o)) (tx_outputs tx).

Lemma structure_Ok tx m : is_spend tx = true -> tx_wf tx -> structure witnesses_size m tx = Ok () ->
  NoDup (input_coin_ids tx)
  /\ sumZ (map output_value (tx_outputs tx)) + fee tx = sumZ (map in_value (tx_inputs tx))
  /\ 0 < fee tx
  /\ Forall (fun i => in_commitment i <> None -> in_value i = 0) (tx_inputs tx)
  /\ Forall (fun o => check_output o = Ok ()) (tx_outputs tx).
Proof.
  intros HS [HI HO] E.
  assert (G : exists a, scan_inputs a ∅ (tx_inputs tx) = Ok () /\ check_values (tx_inputs tx) (tx_outputs tx) = Ok ()
              /\ check_all check_output (tx_outputs tx) = Ok ()).
  { destruct tx as [|inputs ws outputs salt|inputs w outputs salt]; [discriminate| |]; cbn in *.
    - unfold reveal_structure in E. repeat ok_step. eauto.
    - unfold consolidate_structure in E. repeat ok_step. destruct inputs; [discriminate|]. repeat ok_step. eauto. }
  destruct G as (a & E1 & E2 & E3). apply scan_inputs_Ok in E1 as (N1 & _ & N3 & _).
  apply check_values_Ok in E2;
    [|eapply Forall_impl; [exact HI|]; intros ? X; apply X
     |eapply Forall_impl; [exact HO|]; intros ? X; apply X].
  assert (EF : fee tx = sumZ (map in_value (tx_inputs tx)) - sumZ (map output_value (tx_outputs tx))).
  { assert (FN : forall l : list Z, Forall (in_u 64) l -> sumZ l < 2 ^ 64 -> checked_sum 64 0 l = Some (sumZ l)).
    { intros l HL HB. apply checked_sum_Some; [eapply Forall_impl; [exact HL|]; intros ? X; apply X|unfold umax; lia|].
      unfold umax. lia. }
    destruct tx; [discriminate| |]; cbn [fee tx_inputs tx_outputs] in *;
      rewrite !FN by (try (apply Forall_map; assumption); lia); cbn [default from_option id];
      unfold sat_sub; lia. }
  assert (EI : input_coin_ids tx = map input_coin_id (tx_inputs tx)) by (destruct tx; reflexivity).
  rewrite EI, EF. split; [exact N1|]. split; [lia|]. split; [lia|]. split; [exact N3|].
  apply check_all_Ok. exact E3.
Qed.

(** C4: applying a Reveal or a Consolidate that succeeds spends existing, pairwise
    different coins with authorised witnesses under a live commitment, pays a
    positive fee, creates pairwise different fresh coins, and changes exactly
    the coin set, the commitment set (before the replay fix), the burned keys
    (from V4 on) and the mirstat, as [Batch::header] replays it. *)
Theorem apply_transaction_spends tx s s' :
  is_spend tx = true -> tx_wf tx -> apply_tx tx s = (Ok (), s') ->
  let C := sa_set (st_coins s) in
  let C' := C ∖ list_to_set (input_coin_ids tx) in
  (NoDup (input_coin_ids tx) /\ forall x, x ∈ input_coin_ids tx -> x ∈ C)
  /\ (NoDup (output_coin_ids tx) /\ forall x, x ∈ output_coin_ids tx -> x ∉ C')
  /\ sa_set (st_coins s') = list_to_set (output_coin_ids tx) ∪ C'
  /\ (commitment_of tx ∈ sa_set (st_commitments s)
      /\ forall h, st_commitment_heights s !! commitment_of tx = Some h ->
         st_height s - h <= COMMITMENT_TTL)
  /\ sa_set (st_commitments s')
     = (if st_height s <? COMMIT_REPLAY_FIX_ACTIVATION_HEIGHT
        then sa_set (st_commitments s) ∖ {[commitment_of tx]} else sa_set (st_commitments s))
  /\ authorised usize_bits (st_height s) tx
  /\ (sumZ (map output_value (tx_outputs tx)) + fee tx = sumZ (map in_value (tx_inputs tx))
      /\ 0 < fee tx)
  /\ (st_height s < V4_ACTIVATION_HEIGHT -> st_burned_wots s' = st_burned_wots s)
  /\ s' = mkState (replay_tx (st_mirstat s) tx) (st_coins s') (st_commitments s') (st_depth s)
       (st_target s) (st_height s) (st_timestamp s)
       (if st_height s <? COMMIT_REPLAY_FIX_ACTIVATION_HEIGHT
        then delete (commitment_of tx) (st_commitment_heights s) else st_commitment_heights s)
       (st_expirations s) (st_chain_mmr s) (st_header_hash s) (st_burned_wots s').
Proof.
  intros HS HW E. cbv zeta. apply apply_spend_Ok in E as (_ & EV & ER); [|exact HS].
  apply validate_spend_Ok in EV as (V1 & V2 & V3 & V4); [|exact HS].
  apply structure_Ok in V1 as (N1 & N2 & N3 & _ & _); try assumption.
  apply check_commitment_Ok in V2. rewrite check_coins_Ok in V3.
  assert (EI : input_coin_ids tx = map input_coin_id (tx_inputs tx)) by (destruct tx; reflexivity).
  destruct (run_spend_bare tx s HS) as (b & EB & B1 & _).
  destruct (run_bare tx s) as [r s1] eqn:E1. rewrite EB in ER. injection ER as -> <-.
  destruct (run_bare_eq _ _ _ _ E1) as (c & cs & hs & m & -> & X1 & X2 & _ & _ & X3).
  destruct X3 as [(_ & Y1 & Y2 & Y3 & Y4)|(? & _)]; [|discriminate].
  rewrite <- EI in V3. cbn [set_burned st_coins st_commitments set_mirstat set_coins set_commitments
    st_burned_wots].
  rewrite <- X2, <- (Y4 HS). repeat (split; [solve [assumption|split; assumption|auto]|]). reflexivity.
Qed.

(** C13: [apply_transaction] is atomic on errors: whatever the transaction, it does
    not abort, and when it returns an error other than "duplicate coin created"
    the state is untouched. *)
Theorem apply_transaction_atomic tx s :
  fst (apply_transaction fast_mining usize_bits witnesses_size tx s) <> Panic
  /\ forall e s', apply_transaction fast_mining usize_bits witnesses_size tx s = (Err e, s') -> e <> DuplicateCoinCreated -> s' = s.
Proof.
  destruct (is_spend tx) eqn:HS.
  - destruct (single_consolidate tx) eqn:HC.
    { rewrite apply_single_consolidate by exact HC. split; [discriminate|].
      intros e s' [= <- <-]. reflexivity. }
    rewrite apply_spend_eq by assumption. destruct (validate_tx s tx) as [[]|e|] eqn:EV; cbn [after].
    + destruct (run_spend_bare tx s HS) as (b & -> & _). destruct (run_bare tx s) as [r s1] eqn:E1.
      destruct (run_bare_eq _ _ _ _ E1) as (c & cs & hs & m & _ & _ & _ & _ & _ & [(-> & _)|(-> & _)]);
        (split; [discriminate|]); intros ? ? [= <- <-]; congruence.
    + split; [discriminate|]. intros ? ? [= <- <-]. reflexivity.
    + exfalso. apply (validate_safe _ _ _ s tx EV).
  - destruct tx as [cm n| |]; try discriminate HS. cbn [apply_transaction]; open_tx.
    rewrite st_reads_bind. destruct (validate_commit_pow _ cm n s) as [[]|e|] eqn:EV.
    + unfold mbind, st_bind, insert_commitment.
      pose proof (sa_insert_new cm (v2_of s) (st_commitments s)) as EN.
      destruct (decide (cm ∈ sa_set (st_commitments s))) as [Hc|Hc].
      * rewrite sa_insert_present by exact Hc. split; [discriminate|].
        intros e s' [= <- <-] _. destruct s; reflexivity.
      * rewrite bool_decide_false in EN by exact Hc.
        destruct (sa_insert cm _ _) as [f c']. cbn in EN. subst f. split; discriminate.
    + split; [discriminate|]. intros ? ? [= <- <-]. reflexivity.
    + exfalso. apply (validate_commit_pow_safe fast_mining cm n s EV).
Qed.


(** C14: [validate_transaction] decides [apply_transaction]: a transaction it refuses
    is refused with the same error and leaves the state alone; a transaction it
    accepts is applied, unless a coin it creates exists already or is created
    twice (validation does not look at the created coins).  A Consolidate with
    one input is the exception: it may be validated, but is never applied. *)
Theorem validate_transaction_decides tx s :
  if single_consolidate tx then apply_tx tx s = (Err TooFewInputs, s)
  else
    (forall e, validate_tx s tx = Err e -> apply_tx tx s = (Err e, s))
    /\ (validate_tx s tx = Ok () ->
        fst (apply_tx tx s)
        = if bool_decide (NoDup (output_coin_ids tx)
              /\ Forall (fun x => x ∉ sa_set (st_coins s) ∖ list_to_set (input_coin_ids tx))
                   (output_coin_ids tx))
          then Ok () else Err DuplicateCoinCreated).
Proof.
  destruct (single_consolidate tx) eqn:HC; [apply apply_single_consolidate, HC|].
  destruct (is_spend tx) eqn:HS.
  - rewrite apply_spend_eq by assumption. split; [intros e ->; reflexivity|]. intros ->. cbn [after].
    destruct (run_spend_bare tx s HS) as (b & -> & _). destruct (run_bare tx s) as [r s1] eqn:E1.
    destruct (run_bare_eq _ _ _ _ E1) as (c & cs & hs & m & _ & _ & _ & _ & _ & HR). cbn [fst].
    destruct HR as [(-> & Y1 & Y2 & _)|(-> & HN)].
    + rewrite bool_decide_true; [reflexivity|]. split; [exact Y1|]. apply Forall_forall, Y2.
    + rewrite bool_decide_false; [reflexivity|]. intros [Y1 Y2]. apply HN. split; [exact Y1|].
      apply Forall_forall, Y2.
  - destruct tx as [cm n| |]; try discriminate HS. cbn [apply_transaction validate_transaction output_coin_ids]; open_tx.
    rewrite st_reads_bind. rewrite bool_decide_true by (split; constructor).
    destruct (validate_commit_pow _ cm n s) as [[]|e|]; [|split; [intros e' [= ->]|]; easy..].
    rewrite sa_contains_set. unfold mbind, st_bind, insert_commitment. cbn [res_bind bail_if].
    destruct (decide (cm ∈ sa_set (st_commitments s))) as [Hc|Hc].
    + rewrite bool_decide_true by exact Hc. rewrite sa_insert_present by exact Hc.
      split; [|discriminate]. intros e [= <-]. destruct s; reflexivity.
    + rewrite bool_decide_false by exact Hc. split; [discriminate|]. intros _.
      pose proof (sa_insert_new cm (v2_of s) (st_commitments s)) as EN.
      rewrite bool_decide_false in EN by exact Hc.
      destruct (sa_insert cm _ _) as [f c']. cbn in EN. subst f. reflexivity.
Qed.

(** C15: applying a spend without its signature checks agrees with applying it: the
    checked application succeeds exactly when the unchecked one does and the
    signature pass accepts the transaction, and the two states differ only in
    the set of burned keys, which the unchecked one never updates (before V4
    they are equal). *)
Theorem no_sig_check_agrees tx s :
  is_spend tx = true ->
  (forall s1, apply_tx tx s = (Ok (), s1) ->
     (forall in_block, verify_sigs tx (st_height s) (st_commitments s) in_block = Ok ())
     /\ exists s2, apply_no_sig tx s = (Ok (), s2)
        /\ s1 = set_burned (st_burned_wots s1) s2 /\ st_burned_wots s2 = st_burned_wots s
        /\ (st_height s < V4_ACTIVATION_HEIGHT -> s1 = s2))
  /\ (forall s2, apply_no_sig tx s = (Ok (), s2) ->
        verify_sigs tx (st_height s) (st_commitments s) ∅ = Ok () ->
        exists s1, apply_tx tx s = (Ok (), s1)).
Proof.
  intros HS. destruct (run_spend_bare tx s HS) as (b & EB & B1 & _). split.
  - intros s1 E. apply apply_spend_Ok in E as (HC & EV & ER); [|exact HS].
    apply validate_spend_Ok in EV as (V1 & V2 & V3 & V4); [|exact HS]. split.
    { intros ib. apply check_commitment_Ok in V2 as [V2 _]. eapply verify_sigs_intro; eauto. }
    rewrite EB in ER. destruct (run_bare tx s) as [r s2] eqn:E1. injection ER as -> <-.
    exists s2.
    destruct (run_bare_eq _ _ _ _ E1) as (c & cs & hs & m & E2 & _).
    assert (EB2 : st_burned_wots s2 = st_burned_wots s) by (rewrite E2; reflexivity).
    split.
    { apply no_sig_spend_Ok; [exact HS|]. split; [|split; [exact V2|split; [exact V3|exact E1]]].
      destruct tx as [|inputs ws outputs salt|inputs w outputs salt]; try exact V1.
      cbn [structure]. apply consolidate_structure_2. split; [|exact V1]. apply Nat.eqb_neq. exact HC. }
    split; [reflexivity|]. split; [exact EB2|]. intros Hh. rewrite B1, <- EB2 by exact Hh.
    destruct s2; reflexivity.
  - intros s2 E EVS. apply no_sig_spend_Ok in E as (V1 & V2 & V3 & E1); [|exact HS].
    rewrite E1 in EB. exists (set_burned b s2). apply apply_spend_Ok; [exact HS|].
    pose proof (verify_sigs_Ok _ _ _ _ _ HS EVS) as [_ HA].
    assert (G : single_consolidate tx = false /\ structure witnesses_size 1 tx = Ok () /\ authorised usize_bits (st_height s) tx).
    { destruct tx as [|inputs ws outputs salt|inputs w outputs salt]; [discriminate| |]; cbn [structure] in *.
      - split; [reflexivity|]. split; [exact V1|]. split; [|exact HA]. eapply reveal_structure_lengths, V1.
      - apply consolidate_structure_2 in V1 as [N V1]. split; [apply Nat.eqb_neq, N|]. auto. }
    destruct G as (G1 & G2 & G3). split; [exact G1|]. split; [|exact EB].
    apply validate_spend_Ok; auto.
Qed.

(** ** Mining a commit *)

Lemma mine_loop_finds zeros req fuel : forall n n0,
  0 <= n <= n0 -> n0 < 2 ^ 32 -> req <= zeros n0 -> n0 - n < Z.of_nat fuel ->
  exists k, mine_loop fuel zeros req n = Some k /\ n <= k <= n0 /\ req <= zeros k.
Proof.
  induction fuel as [|fuel IH]; intros n n0 Hn H0 Hz Hf; [lia|]. cbn [mine_loop].
  destruct (Z.leb_spec req (zeros n)) as [Hr|Hr]; [exists n; split; [reflexivity|lia]|].
  assert (n <> n0) by (intros ->; lia).
  unfold wrap. rewrite Z.mod_small by lia.
  destruct (IH (n + 1) n0) as (k & E & ? & ?); try lia. exists k. split; [exact E|lia].
Qed.

Lemma unpack_pack n h : in_u 32 n -> in_u 32 h -> unpack_spam_nonce (pack_spam_nonce n h) = (h, n).
Proof.
  intros Hn Hh. unfold unpack_spam_nonce, pack_spam_nonce, wrap.
  assert (E : Z.lor (Z.shiftl h 32) n = h * 2 ^ 32 + n).
  { rewrite <- Z.shiftl_mul_pow2 by lia. symmetry. apply Z.add_nocarry_lor.
    apply Z.bits_inj'. intros k Hk. rewrite Z.land_spec, Z.bits_0.
    destruct (Z.ltb_spec k 32); [rewrite Z.shiftl_spec_low by lia; reflexivity|].
    rewrite <- (Z.mod_small n (2 ^ 32)) by exact Hn. rewrite Z.mod_pow2_bits_high by lia.
    apply andb_false_r. }
  rewrite E. unfold in_u in *. rewrite Z.shiftr_div_pow2 by lia.
  change 4294967295 with (Z.ones 32). rewrite Z.land_ones by lia. f_equal.
  - rewrite Z.div_add_l, Z.div_small, Z.add_0_r by lia. apply Z.mod_small; lia.
  - rewrite Z.add_comm, !Z.mod_add by lia. rewrite (Z.mod_small n) by lia. apply Z.mod_small; lia.
Qed.

(** A commit mined at height [h] passes the consensus check for the whole
    proof-of-work window.  If some 32-bit nonce reaches the required number of
    zero bits, [mine_pow] stops with a packed nonce, and after the replay fix
    every state whose chain MMR keeps the block hash the commit is anchored to,
    at most [COMMIT_POW_WINDOW] blocks after the anchor, evaluates it to at least
    the required work. *)
Lemma mine_pow_accepted fuel c required h header_hash n0 :
  COMMIT_REPLAY_FIX_ACTIVATION_HEIGHT <= h < 2 ^ 32 ->
  MIN_COMMIT_POW_BITS fast_mining <= required ->
  0 <= n0 < 2 ^ 32 -> required <= anchored_zeros header_hash c n0 -> n0 < Z.of_nat fuel ->
  exists nonce, mine_pow fuel c required h header_hash = Some nonce
  /\ forall s : State A, h <= st_height s <= h - 1 + COMMIT_POW_WINDOW ->
     mmr_get (st_chain_mmr s) (mmr_size (Z.to_nat (h - 1))) = Some header_hash ->
     exists z, evaluate_commit_pow fast_mining c nonce s = Ok z /\ required <= z.
Proof.
  intros Hh Hm Hn0 Hz Hf. unfold COMMIT_REPLAY_FIX_ACTIVATION_HEIGHT in *.
  destruct (mine_loop_finds (anchored_zeros header_hash c) required fuel 0 n0) as (k & E & Hk & Hk2);
    try lia.
  unfold mine_pow, COMMIT_REPLAY_FIX_ACTIVATION_HEIGHT. rewrite (proj2 (Z.leb_le _ _)) by lia.
  rewrite E. eexists. split; [reflexivity|]. intros s Hs Hg.
  assert (EA : wrap 32 (sat_sub h 1) = h - 1).
  { unfold wrap, sat_sub. rewrite Z.max_r by lia. apply Z.mod_small. lia. }
  unfold evaluate_commit_pow. rewrite EA, unpack_pack by (split; lia).
  unfold COMMIT_REPLAY_FIX_ACTIVATION_HEIGHT. rewrite (proj2 (Z.leb_le _ _)) by lia.
  rewrite (proj2 (Z.eqb_neq _ _)) by lia. cbn [bail_if].
  assert (EW : (COMMIT_POW_WINDOW <? sat_sub (st_height s) (h - 1)) = false)
    by (apply Z.ltb_ge; unfold sat_sub; lia).
  rewrite EW, (proj2 (Z.leb_gt _ _)) by lia. rewrite Hg.
  cbn -[anchored_zeros MIN_COMMIT_POW_BITS]. rewrite (proj2 (Z.ltb_ge _ _)) by lia.
  eexists. split; [reflexivity|exact Hk2].
Qed.

End Properties.

(** * Concrete inputs *)

Definition demo_input : InputReveal := {|
  in_predicate := Script (push_data [] [x01]); in_value := 4; in_salt := zero_arr 32; in_commitment := None
|}.

Definition demo_output (salt : hash32) : OutputData := Standard (zero_arr 32) 2 salt.

Definition demo_tx (outs : list OutputData) : Transaction :=
  Reveal [demo_input] [ScriptInputs []] outs (zero_arr 32).

Definition demo_state `{Blake3} (tx : Transaction) (height : Z) : State (gset hash32) := {|
  st_mirstat := zero_arr 32; st_coins := {[input_coin_id demo_input]};
  st_commitments := {[commitment_of tx]}; st_depth := 0; st_target := zero_arr 32;
  st_height := height; st_timestamp := 0; st_commitment_heights := {[commitment_of tx := 5]};
  st_expirations := ∅; st_chain_mmr := mmr_new; st_header_hash := zero_arr 32; st_burned_wots := ∅
|}.

#[local] Instance demo_acc `{Blake3} : SetAccumulator (gset hash32) := set_accumulator.

Definition demo_size (ws : list Witness) : option Z := Some 16.

Lemma fst_Ok {S E} (x : res E () * S) : fst x = Ok () -> exists s', x = (Ok (), s').
Proof. destruct x as [r s]. cbn. intros ->. eauto. Qed.

Lemma apply_transaction_spends_witness :
  let H := toy_blake3 in
  let tx := demo_tx [demo_output (zero_arr 32)] in
  let s := demo_state tx 6 in
  exists s', apply_transaction false 64 demo_size tx s = (Ok (), s')
  /\ st_coins s' = list_to_set (output_coin_ids tx) ∪ st_coins s ∖ list_to_set (input_coin_ids tx).
Proof.
  intros H tx s.
  destruct (fst_Ok (apply_transaction false 64 demo_size tx s)) as [s' E]; [vm_compute; reflexivity|].
  exists s'. split; [exact E|].
  exact (proj1 (proj2 (proj2 (@apply_transaction_spends toy_blake3 false 64 demo_size (gset hash32)
    set_accumulator set_accumulator_laws tx s s' eq_refl
    ltac:(split; repeat constructor; vm_compute; discriminate) E)))).
Defined.

Lemma no_sig_check_agrees_witness :
  let H := toy_blake3 in
  let tx := demo_tx [demo_output (zero_arr 32)] in
  let s := demo_state tx 6 in
  exists s1, apply_transaction false 64 demo_size tx s = (Ok (), s1).
Proof.
  intros H tx s.
  destruct (fst_Ok (apply_transaction_no_sig_check false 64 demo_size tx s)) as [s2 E];
    [vm_compute; reflexivity|].
  apply (proj2 (@no_sig_check_agrees toy_blake3 false 64 demo_size (gset hash32)
    set_accumulator set_accumulator_laws tx s eq_refl) s2 E).
  vm_compute. reflexivity.
Defined.

Lemma mine_pow_accepted_witness :
  let H : Blake3 := fun _ => zero_arr 32 in
  let c := arr_of 32 [x07] in
  exists nonce, mine_pow 1 c 24 110000 c = Some nonce
  /\ forall pos, pos = mmr_size (Z.to_nat 109999) ->
     exists z, evaluate_commit_pow false c nonce
       (mkState c (∅ : gset hash32) ∅ 0 c 110500 0 ∅ ∅ (mkMmr (replicate (S pos) c) 0) c ∅) = Ok z
       /\ 24 <= z.
Proof.
  intros H c.
  destruct (@mine_pow_accepted H false (gset hash32) 1 c 24 110000 c 0) as (nonce & E & F);
    [vm_compute; split; [discriminate|reflexivity]|discriminate|lia
    |vm_compute; discriminate|reflexivity|].
  exists nonce. split; [exact E|]. intros pos Hp. apply F; cbn [st_height st_chain_mmr].
  - unfold COMMIT_POW_WINDOW. lia.
  - change (Z.to_nat (110000 - 1)) with (Z.to_nat 109999). rewrite <- Hp.
    unfold mmr_get. cbn [nodes]. apply lookup_replicate_2. lia.
Defined.

(** The one error after a mutation: two equal outputs.  The input coin is gone. *)
Lemma duplicate_coin_error_mutates :
  let H := toy_blake3 in
  let tx := demo_tx [Standard (zero_arr 32) 1 (zero_arr 32); Standard (zero_arr 32) 1 (zero_arr 32)] in
  let s := demo_state tx 6 in
  let '(r, s') := apply_transaction false 64 demo_size tx s in
  r = Err DuplicateCoinCreated
  /\ bool_decide (input_coin_id demo_input ∈ st_coins s) = true
  /\ bool_decide (input_coin_id demo_input ∈ st_coins s') = false.
Proof. vm_compute. auto. Qed.

(** Validation accepts a Consolidate with one input, which is never applied. *)
Lemma single_consolidate_validates :
  let H := toy_blake3 in
  let tx := Consolidate [demo_input] (ScriptInputs []) [demo_output (zero_arr 32)] (zero_arr 32) in
  let s := demo_state tx 6 in
  validate_transaction false 64 demo_size s tx = Ok ()
  /\ fst (apply_transaction false 64 demo_size tx s) = Err TooFewInputs.
Proof. vm_compute. auto. Qed.

(** The unchecked application releases the commitment before it looks at the coins:
    when a coin is missing, the commitment is already gone. *)
Lemma no_sig_error_mutates :
  let H := toy_blake3 in
  let tx := demo_tx [demo_output (zero_arr 32)] in
  let s := set_coins ∅ (demo_state tx 6) in
  let '(r, s') := apply_transaction_no_sig_check false 64 demo_size tx s in
  r = Err CoinNotFound /\ bool_decide (commitment_of tx ∈ st_commitments s') = false.
Proof. vm_compute. auto. Qed.
