(* ===== verification/Difficulty.v ===== *)
(** Difficulty, work, timestamps and sequential work: the pure parts of
    [src/core/state.rs] and [src/core/extension.rs], with the genesis constants of
    [src/core/types.rs].

    The clock is the argument [current_time]; a [U256] is a [Z]. *)
From Stdlib Require Import Strings.String.
From S2P Require Import Prelude Types Transaction.

#[local] Open Scope Z_scope.

(** * Genesis constants *)

Definition BITCOIN_BLOCK_HASH : bytes :=
  bstr "000000000000000000018f5ad5625d43356136c2e50c6dc18967a90a18f0af2e".
Definition BITCOIN_BLOCK_HEIGHT : Z := 938708.
Definition BITCOIN_BLOCK_TIME : Z := 1772274770.

Definition GENESIS_TARGET : hash32 := arr_of 32 ([x00; x11] ++ replicate 30 xff).

(** * Difficulty *)

(** [as i64]. *)
Definition s64 (z : Z) : Z := (z + 2 ^ 63) mod 2 ^ 64 - 2 ^ 63.
Definition sat64 (z : Z) : Z := Z.max (- 2 ^ 63) (Z.min (2 ^ 63 - 1) z).

(** The 16.16 fixed-point approximation of [2^frac], with [0 <= frac < 65536]:
    every product is below 2^60. *)
Definition asert_factor (frac : Z) : Z :=
  let factor := 65536 in
  let factor := factor + Z.shiftr (frac * 45426) 16 in
  let factor := factor + Z.shiftr (frac * frac * 15746) 32 in
  factor + Z.shiftr (frac * frac * frac * 3643) 48.

Definition CEILING : Z := 2 ^ 256 - 1.

(** Steps 2 to 5: from the drift to the target as an integer. *)
Definition asert_target (drift : Z) : Z :=
  let exponent := Z.quot (sat64 (drift * 65536)) ASERT_HALF_LIFE in
  let shifts := Z.shiftr exponent 16 in
  let frac := Z.land exponent 65535 in
  let f := asert_factor frac in
  let base := 65536 in
  let g := be_val GENESIS_TARGET in
  let target := g / base * f + g mod base * f / base in
  let target :=
    if 0 <? shifts then
      let s := Z.min shifts 255 in
      let headroom := Z.shiftr CEILING s in
      if headroom <? target then CEILING else Z.shiftl target s
    else if shifts <? 0 then Z.shiftr target (Z.min (- shifts) 255)
    else target in
  if CEILING <? target then CEILING else if target =? 0 then 1 else target.

Definition asert_drift (height timestamp : Z) : Z :=
  let ideal_time := s64 (s64 height * TARGET_BLOCK_TIME) in
  let actual_time := sat64 (s64 timestamp - BITCOIN_BLOCK_TIME) in
  s64 (actual_time - ideal_time).

Definition calculate_target (height timestamp : Z) : hash32 :=
  if height =? 0 then GENESIS_TARGET
  else arr_of 32 (be_bytes 32 (asert_target (asert_drift height timestamp))).

Definition calculate_work (target : hash32) : Z :=
  let t := be_val target in
  if t =? 0 then 0
  else
    let w := (2 ^ 256 - 1) / t in
    if umax 128 <? w then umax 128
    else
      let lo := wrap 64 w in
      let hi := wrap 64 (Z.shiftr w 64) in
      Z.lor (wrap 128 (Z.shiftl hi 64)) lo.

(** * Timestamps *)

Inductive BatchError : Type :=
  | ParentMismatch | HeaderMismatch | TargetMismatch
  | OrderingViolation | DuplicateConsolidate | TooManyReveals | TooManyCommits
  | TimestampInFuture | TimestampNotAfterMedian | TimestampNotAfterLast
  | TooManyBatchInputs | TooManyBatchOutputs
  | TxError_ (e : TxError) | FeeOverflow | RewardOverflow
  | DuplicateCoinbaseId | ZeroCoinbase | CoinbaseDenomination | CoinbaseOverflow | CoinbaseTotal
  | StateRootMismatch | TargetNotMet | WorkFailed | IntegrityFailure | DuplicateCoinbaseCoin.

Definition validate_timestamp (new_timestamp : Z) (previous_timestamps : list Z)
    (current_time height : Z) : res BatchError () :=
  let max_future_time :=
    if TIMEWARP_FIX_ACTIVATION_HEIGHT <=? height then 15 * 60 else 10 * 60 * 60 in
  _ ← bail_if (wrap 64 (current_time + max_future_time) <? new_timestamp) TimestampInFuture;
  if Nat.leb MEDIAN_TIME_PAST_WINDOW (List.length previous_timestamps) then
    let recent_timestamps :=
      merge_sort Z.le (take MEDIAN_TIME_PAST_WINDOW (rev previous_timestamps)) in
    median ← unwrap (recent_timestamps !! (MEDIAN_TIME_PAST_WINDOW / 2)%nat);
    bail_if (new_timestamp <=? median) TimestampNotAfterMedian
  else
    match last previous_timestamps with
    | Some last_ts => bail_if (new_timestamp <=? last_ts) TimestampNotAfterLast
    | None => Ok ()
    end.

(** * Sequential work *)

#[export] Instance Extension_eq_dec : EqDecision Extension.
Proof. solve_decision. Defined.

Section Extension.
Context `{Blake3}.
Context (fast_mining : bool).

Definition create_extension (mirstat : hash32) (nonce : Z) : Extension :=
  let x := blake3 (mirstat ++ le_bytes 8 nonce) in
  {| ext_nonce := nonce;
     ext_final_hash := Nat.iter (EXTENSION_ITERATIONS fast_mining) (fun x : hash32 => blake3 x) x |}.

Definition verify_extension (mirstat : hash32) (ext : Extension) (target : hash32)
    : res BatchError () :=
  _ ← bail_if (negb (bytes_ltb (ext_final_hash ext) target)) TargetNotMet;
  bail_if (negb (bool_decide (ext_final_hash (create_extension mirstat (ext_nonce ext))
                              = ext_final_hash ext))) WorkFailed.

End Extension.


(** * The target as a function of the drift *)

Lemma asert_factor_mono a b : 0 <= a <= b -> asert_factor a <= asert_factor b.
Proof.
  intros Hab. unfold asert_factor. rewrite !Z.shiftr_div_pow2 by lia.
  assert (H2 : a * a <= b * b) by nia. assert (H3 : a * a * a <= b * b * b) by nia.
  repeat apply Z.add_le_mono; try (apply Z.div_le_mono; [lia|]); lia.
Qed.

Lemma asert_factor_range f : 0 <= f < 65536 -> 65536 <= asert_factor f < 131072.
Proof.
  intros Hf. pose proof (asert_factor_mono 0 f ltac:(lia)) as L.
  pose proof (asert_factor_mono f 65535 ltac:(lia)) as U.
  change (asert_factor 0) with 65536 in L. change (asert_factor 65535) with 130348 in U. lia.
Qed.

(** The genesis target scaled by [2^(f/65536)]. *)
Definition scaled (f : Z) : Z :=
  be_val GENESIS_TARGET / 65536 * asert_factor f
  + be_val GENESIS_TARGET mod 65536 * asert_factor f / 65536.

Lemma genesis_target_val : be_val GENESIS_TARGET = 18 * 2 ^ 240 - 1.
Proof. vm_compute. reflexivity. Qed.

Lemma scaled_mono a b : 0 <= a <= b -> scaled a <= scaled b.
Proof.
  intros Hab. pose proof (asert_factor_mono a b Hab). unfold scaled.
  pose proof (Z.mod_pos_bound (be_val GENESIS_TARGET) 65536 ltac:(lia)).
  pose proof (be_val_range GENESIS_TARGET).
  assert (0 <= be_val GENESIS_TARGET / 65536) by (apply Z.div_pos; lia).
  apply Z.add_le_mono; [nia|]. apply Z.div_le_mono; nia.
Qed.

Lemma scaled_0 : scaled 0 = be_val GENESIS_TARGET.
Proof.
  unfold scaled. change (asert_factor 0) with 65536. rewrite Z.div_mul by lia.
  rewrite Z.mul_comm. symmetry. apply Z.div_mod. lia.
Qed.

Lemma scaled_range f : 0 <= f < 65536 ->
  be_val GENESIS_TARGET <= scaled f <= 2 * be_val GENESIS_TARGET.
Proof.
  intros Hf. rewrite <- scaled_0 at 1. split; [apply scaled_mono; lia|].
  pose proof (asert_factor_range f Hf). unfold scaled.
  set (g := be_val GENESIS_TARGET). pose proof (be_val_range GENESIS_TARGET). fold g in H0.
  assert (0 <= g / 65536) by (apply Z.div_pos; lia).
  pose proof (Z.mod_pos_bound g 65536 ltac:(lia)). pose proof (Z.div_mod g 65536 ltac:(lia)).
  assert (g mod 65536 * asert_factor f / 65536 <= 2 * (g mod 65536))
    by (apply Z.div_le_upper_bound; nia).
  nia.
Qed.

(** The target for the fixed-point exponent [e]. *)
Definition exp_target (e : Z) : Z :=
  let v := scaled (e mod 65536) in
  let x := e / 65536 in
  Z.max 1 (Z.min CEILING (if 0 <=? x then v * 2 ^ x else v / 2 ^ (- x))).

Lemma shift_cap x : 255 <= x -> CEILING < be_val GENESIS_TARGET * 2 ^ x.
Proof.
  intros Hx. rewrite genesis_target_val. unfold CEILING.
  pose proof (Z.pow_le_mono_r 2 255 x ltac:(lia) Hx).
  apply Z.lt_le_trans with ((18 * 2 ^ 240 - 1) * 2 ^ 255); [vm_compute; reflexivity|].
  apply Z.mul_le_mono_nonneg_l; lia.
Qed.

Lemma asert_target_exp drift :
  asert_target drift = exp_target (Z.quot (sat64 (drift * 65536)) ASERT_HALF_LIFE).
Proof.
  unfold asert_target, exp_target. cbv zeta. set (e := Z.quot _ _).
  rewrite Z.shiftr_div_pow2 by lia. change (2 ^ 16) with 65536.
  change 65535 with (Z.ones 16). rewrite Z.land_ones by lia. change (2 ^ 16) with 65536.
  fold (scaled (e mod 65536)).
  pose proof (scaled_range (e mod 65536) ltac:(apply Z.mod_pos_bound; lia)) as HV.
  rewrite genesis_target_val in HV. set (v := scaled (e mod 65536)) in *. set (x := e / 65536).
  assert (HC : 2 * (18 * 2 ^ 240 - 1) < CEILING) by (vm_compute; reflexivity).
  assert (HF : forall z, 0 <= z -> (if CEILING <? z then CEILING else if z =? 0 then 1 else z)
               = Z.max 1 (Z.min CEILING z)).
  { intros z Hz. unfold CEILING. destruct (Z.ltb_spec (2 ^ 256 - 1) z), (Z.eqb_spec z 0); lia. }
  destruct (Z.ltb_spec 0 x) as [Hx|Hx].
  - rewrite (proj2 (Z.leb_le 0 x)) by lia. rewrite Z.shiftr_div_pow2, Z.shiftl_mul_pow2 by lia.
    pose proof (Z.pow_pos_nonneg 2 (Z.min x 255) ltac:(lia) ltac:(lia)) as HP.
    assert (HE : v * 2 ^ x <= CEILING -> Z.min x 255 = x).
    { intros HL. destruct (Z.leb_spec 255 x) as [Hc|Hc]; [|lia].
      pose proof (shift_cap x Hc) as HS. rewrite genesis_target_val in HS.
      pose proof (Z.mul_le_mono_nonneg_r _ _ (2 ^ x) ltac:(apply Z.pow_nonneg; lia) (proj1 HV)). lia. }
    assert (HG : CEILING < v * 2 ^ x -> CEILING < v * 2 ^ Z.min x 255).
    { intros HL. destruct (Z.leb_spec 255 x) as [Hc|Hc]; [|rewrite Z.min_l by lia; exact HL].
      rewrite Z.min_r by lia. pose proof (shift_cap 255 ltac:(lia)) as HS.
      rewrite genesis_target_val in HS.
      apply Z.lt_le_trans with (1 := HS). apply Z.mul_le_mono_nonneg_r; [apply Z.pow_nonneg; lia|lia]. }
    destruct (Z.ltb_spec (CEILING / 2 ^ Z.min x 255) v) as [HL|HL].
    + assert (CEILING < v * 2 ^ x).
      { destruct (Z.leb_spec (v * 2 ^ x) CEILING) as [Q|Q]; [|exact Q]. rewrite (HE Q) in HL, HP.
        exfalso. assert (v <= CEILING / 2 ^ x) by (apply Z.div_le_lower_bound; lia). lia. }
      rewrite HF by (vm_compute; discriminate). rewrite Z.min_id, Z.min_l by lia. reflexivity.
    + assert (v * 2 ^ Z.min x 255 <= CEILING).
      { pose proof (Z.mul_div_le CEILING (2 ^ Z.min x 255) HP). nia. }
      destruct (Z.leb_spec (v * 2 ^ x) CEILING) as [Q|Q]; [|specialize (HG Q); lia].
      rewrite (HE Q) in *. apply HF. apply Z.mul_nonneg_nonneg; lia.
  - destruct (Z.ltb_spec x 0) as [Hn|Hn].
    + rewrite (proj2 (Z.leb_gt 0 x)) by lia. rewrite Z.shiftr_div_pow2 by lia.
      assert (HS : forall s, 0 <= s -> 0 <= v / 2 ^ s <= CEILING).
      { intros s Hs. pose proof (Z.pow_pos_nonneg 2 s ltac:(lia) Hs). split; [apply Z.div_pos; lia|].
        apply Z.div_le_upper_bound; nia. }
      assert (HE : v / 2 ^ Z.min (- x) 255 = v / 2 ^ (- x)).
      { destruct (Z.leb_spec (- x) 255) as [?|?]; [f_equal; f_equal; lia|].
        rewrite Z.min_r by lia.
        assert (v < 2 ^ 255) by (eapply Z.le_lt_trans; [apply HV|vm_compute; reflexivity]).
        rewrite !Z.div_small; [reflexivity| |lia].
        split; [lia|]. eapply Z.lt_le_trans; [eassumption|]. apply Z.pow_le_mono_r; lia. }
      rewrite HE. apply HF, HS. lia.
    + replace x with 0 by lia. cbn [Z.leb Z.compare]. rewrite Z.pow_0_r, Z.mul_1_r. apply HF. lia.
Qed.

Lemma pow2_succ x : 0 <= x -> 2 ^ (x + 1) = 2 * 2 ^ x.
Proof. intros Hx. rewrite Z.pow_add_r by lia. lia. Qed.

Lemma clamp_mono a b : a <= b -> Z.max 1 (Z.min CEILING a) <= Z.max 1 (Z.min CEILING b).
Proof. lia. Qed.

Lemma exp_target_step e : exp_target e <= exp_target (e + 1).
Proof.
  unfold exp_target. cbv zeta. apply clamp_mono.
  pose proof (Z.mod_pos_bound e 65536 ltac:(lia)) as HM. pose proof (Z.div_mod e 65536 ltac:(lia)) as HD.
  pose proof (scaled_range (e mod 65536) HM) as HV. rewrite genesis_target_val in HV.
  destruct (Z.eqb_spec (e mod 65536) 65535) as [Em|Em].
  - assert (E1 : (e + 1) mod 65536 = 0) by (Z.div_mod_to_equations; lia).
    assert (E2 : (e + 1) / 65536 = e / 65536 + 1) by (Z.div_mod_to_equations; lia).
    rewrite E1, E2, scaled_0, genesis_target_val. set (v := scaled _) in *. set (x := e / 65536).
    destruct (Z.leb_spec 0 x), (Z.leb_spec 0 (x + 1)); try lia.
    + rewrite pow2_succ by lia. pose proof (Z.pow_nonneg 2 x ltac:(lia)).
      transitivity (2 * (18 * 2 ^ 240 - 1) * 2 ^ x); [apply Z.mul_le_mono_nonneg_r; lia|lia].
    + replace x with (-1) by lia. change (2 ^ (-1 + 1)) with 1. change (2 ^ (- -1)) with 2.
      apply Z.div_le_upper_bound; lia.
    + replace (- x) with (- (x + 1) + 1) by lia. rewrite pow2_succ by lia.
      pose proof (Z.pow_pos_nonneg 2 (- (x + 1)) ltac:(lia) ltac:(lia)).
      rewrite <- Z.div_div by lia. apply Z.div_le_mono; [lia|]. apply Z.div_le_upper_bound; lia.
  - assert (E1 : (e + 1) mod 65536 = e mod 65536 + 1) by (Z.div_mod_to_equations; lia).
    assert (E2 : (e + 1) / 65536 = e / 65536) by (Z.div_mod_to_equations; lia).
    rewrite E1, E2. pose proof (scaled_mono (e mod 65536) (e mod 65536 + 1) ltac:(lia)) as HL.
    set (x := e / 65536). destruct (Z.leb_spec 0 x).
    + apply Z.mul_le_mono_nonneg_r; [apply Z.pow_nonneg; lia|exact HL].
    + apply Z.div_le_mono; [apply Z.pow_pos_nonneg; lia|exact HL].
Qed.

Lemma exp_target_mono a b : a <= b -> exp_target a <= exp_target b.
Proof.
  intros Hab. replace b with (a + (b - a)) by lia.
  assert (Hd : 0 <= b - a) by lia. revert Hd. generalize (b - a). apply natlike_ind.
  - rewrite Z.add_0_r. reflexivity.
  - intros d _ IH. replace (a + Z.succ d) with (a + d + 1) by lia.
    etransitivity; [exact IH|apply exp_target_step].
Qed.

Lemma exp_target_range e : 1 <= exp_target e <= CEILING.
Proof.
  unfold exp_target. cbv zeta. set (z := (if 0 <=? e / 65536 then _ else _) : Z).
  assert (1 <= CEILING) by (vm_compute; discriminate). lia.
Qed.

Lemma exp_target_double e : 0 <= e -> exp_target (e + 65536) = Z.min CEILING (2 * exp_target e).
Proof.
  intros He. unfold exp_target. cbv zeta.
  replace (e + 65536) with (e + 1 * 65536) by lia. rewrite Z.mod_add, Z.div_add by lia.
  assert (0 <= e / 65536) by (apply Z.div_pos; lia).
  rewrite !(proj2 (Z.leb_le 0 _)), pow2_succ by lia.
  pose proof (scaled_range (e mod 65536) ltac:(apply Z.mod_pos_bound; lia)) as HV.
  rewrite genesis_target_val in HV. set (v := scaled _) in *. set (x := e / 65536) in *.
  pose proof (Z.pow_pos_nonneg 2 x ltac:(lia) ltac:(lia)).
  assert (1 <= v * 2 ^ x) by nia. assert (1 <= CEILING) by (vm_compute; discriminate). lia.
Qed.

Lemma exp_target_halve e : e <= 0 -> exp_target (e - 65536) = Z.max 1 (exp_target e / 2).
Proof.
  intros He. unfold exp_target. cbv zeta.
  replace (e - 65536) with (e + (-1) * 65536) by lia. rewrite Z.mod_add, Z.div_add by lia.
  pose proof (scaled_range (e mod 65536) ltac:(apply Z.mod_pos_bound; lia)) as HV.
  rewrite genesis_target_val in HV. set (v := scaled _) in *.
  assert (HX : e / 65536 <= 0) by (Z.div_mod_to_equations; lia). set (x := e / 65536) in *.
  rewrite (proj2 (Z.leb_gt 0 (x + -1))) by lia.
  assert (HC : 2 * (18 * 2 ^ 240 - 1) < CEILING) by (vm_compute; reflexivity).
  assert (HE : v / 2 ^ (- (x + -1)) = v / 2 ^ (- x) / 2).
  { replace (- (x + -1)) with (- x + 1) by lia. rewrite pow2_succ, Z.mul_comm, Z.div_div by lia.
    reflexivity. }
  assert (HF : (if 0 <=? x then v * 2 ^ x else v / 2 ^ (- x)) = v / 2 ^ (- x)).
  { destruct (Z.leb_spec 0 x); [|reflexivity]. replace x with 0 by lia. cbn. rewrite Z.div_1_r. lia. }
  rewrite HE, HF. pose proof (Z.pow_pos_nonneg 2 (- x) ltac:(lia) ltac:(lia)).
  assert (0 <= v / 2 ^ (- x) <= v)
    by (split; [apply Z.div_pos; lia|apply Z.div_le_upper_bound; nia]).
  set (w := v / 2 ^ (- x)) in *. rewrite !(Z.min_r CEILING) by (Z.div_mod_to_equations; lia).
  destruct (Z.max_spec 1 w) as [[? ->]|[? ->]]; [reflexivity|].
  change (1 / 2) with 0. Z.div_mod_to_equations; lia.
Qed.

Lemma be_val_target v : 1 <= v <= CEILING -> be_val (arr_of 32 (be_bytes 32 v)) = v.
Proof.
  intros Hv. rewrite arr_of_id by apply length_be_bytes. apply be_val_small.
  unfold CEILING in Hv. change (8 * Z.of_nat 32) with 256. lia.
Qed.

Lemma s64_small z : - 2 ^ 63 <= z < 2 ^ 63 -> s64 z = z.
Proof. intros Hz. unfold s64. rewrite Z.mod_small by lia. lia. Qed.

Lemma asert_drift_small h t : 0 <= h < 2 ^ 56 -> 0 <= t < 2 ^ 63 ->
  asert_drift h t = t - BITCOIN_BLOCK_TIME - 60 * h.
Proof.
  intros Hh Ht. unfold asert_drift, sat64, TARGET_BLOCK_TIME, BITCOIN_BLOCK_TIME.
  rewrite (s64_small h), (s64_small t), (s64_small (h * 60)) by lia. rewrite s64_small by lia. lia.
Qed.

(** The exponent that the code computes from a drift. *)
Definition drift_exponent (drift : Z) : Z := Z.quot (sat64 (drift * 65536)) ASERT_HALF_LIFE.

Lemma drift_exponent_mono a b : a <= b -> drift_exponent a <= drift_exponent b.
Proof. intros Hab. apply Z.quot_le_mono; [reflexivity|]. unfold sat64. lia. Qed.

Lemma calculate_target_val h t : 0 < h < 2 ^ 56 -> 0 <= t < 2 ^ 63 ->
  be_val (calculate_target h t) = exp_target (drift_exponent (t - BITCOIN_BLOCK_TIME - 60 * h)).
Proof.
  intros Hh Ht. unfold calculate_target. rewrite (proj2 (Z.eqb_neq _ _)) by lia.
  rewrite asert_drift_small, asert_target_exp by lia. apply be_val_target, exp_target_range.
Qed.

Lemma calculate_target_range h t : 1 <= be_val (calculate_target h t) <= CEILING.
Proof.
  unfold calculate_target. destruct (h =? 0).
  - vm_compute. split; discriminate.
  - rewrite asert_target_exp, be_val_target; apply exp_target_range.
Qed.

(** * Properties *)

(** The target never leaves [1 .. 2^256 - 1]; a later timestamp never lowers it
    and a greater height never raises it. *)
Lemma calculate_target_monotone :
  (forall h t, 1 <= be_val (calculate_target h t) <= 2 ^ 256 - 1)
  /\ (forall h t1 t2, 0 <= h < 2 ^ 56 -> 0 <= t1 <= t2 -> t2 < 2 ^ 63 ->
        be_val (calculate_target h t1) <= be_val (calculate_target h t2))
  /\ (forall h1 h2 t, 0 < h1 <= h2 -> h2 < 2 ^ 56 -> 0 <= t < 2 ^ 63 ->
        be_val (calculate_target h2 t) <= be_val (calculate_target h1 t)).
Proof.
  split; [|split].
  - exact calculate_target_range.
  - intros h t1 t2 Hh Ht1 Ht2. destruct (Z.eqb_spec h 0) as [->|Hz]; [reflexivity|].
    rewrite !calculate_target_val by lia. apply exp_target_mono, drift_exponent_mono. lia.
  - intros h1 h2 t Hh Hh2 Ht. rewrite !calculate_target_val by lia.
    apply exp_target_mono, drift_exponent_mono. lia.
Qed.

(** ASERT: on schedule the target is the genesis target; each half-life (four
    hours) of further delay doubles it, up to the ceiling, and each half-life of
    further advance halves it, rounding down to no less than 1. *)
Lemma asert_half_life h t :
  0 < h < 2 ^ 40 -> 0 <= t < 2 ^ 45 ->
  let ideal := BITCOIN_BLOCK_TIME + TARGET_BLOCK_TIME * h in
  let target := be_val (calculate_target h t) in
  (t = ideal -> target = be_val GENESIS_TARGET)
  /\ (ideal <= t ->
      be_val (calculate_target h (t + ASERT_HALF_LIFE)) = Z.min (2 ^ 256 - 1) (2 * target))
  /\ (ASERT_HALF_LIFE <= t <= ideal ->
      be_val (calculate_target h (t - ASERT_HALF_LIFE)) = Z.max 1 (target / 2)).
Proof.
  intros Hh Ht. cbv zeta. unfold ASERT_HALF_LIFE, TARGET_BLOCK_TIME. split; [|split]; intros E;
    rewrite !calculate_target_val by (unfold BITCOIN_BLOCK_TIME in *; lia).
  - subst t. replace (_ - _ - _) with 0 by lia. reflexivity.
  - rewrite <- exp_target_double.
    + f_equal. unfold drift_exponent, sat64, ASERT_HALF_LIFE.
      unfold BITCOIN_BLOCK_TIME in *.
      rewrite !Z.min_r, !Z.max_r by lia. Z.quot_rem_to_equations; lia.
    + unfold drift_exponent, sat64. apply Z.quot_pos; [lia|reflexivity].
  - rewrite <- exp_target_halve.
    + f_equal. unfold drift_exponent, sat64, ASERT_HALF_LIFE. unfold BITCOIN_BLOCK_TIME in *.
      rewrite !Z.min_r, !Z.max_r by lia.
      Z.quot_rem_to_equations; lia.
    + unfold drift_exponent, sat64, ASERT_HALF_LIFE. unfold BITCOIN_BLOCK_TIME in *.
      rewrite !Z.min_r, !Z.max_r by lia. Z.quot_rem_to_equations; lia.
Qed.

(** The [k]-th element of a sorted list is below [v] exactly when more than [k]
    elements are. *)
Lemma sorted_rank (l : list Z) : StronglySorted Z.le l -> forall k m v, l !! k = Some m ->
  (m < v <-> (k < List.length (filter (fun t => (t < v)%Z) l))%nat).
Proof.
  induction 1 as [|a l HS IH HA]; intros k m v; [discriminate|].
  assert (HB : forall x, x ∈ l -> a <= x) by (apply Forall_forall, HA).
  rewrite filter_cons. destruct k as [|k]; simpl lookup.
  - intros [= ->]. case_decide as HD; cbn [List.length]; [split; [lia|auto]|]. split; [lia|].
    intros HL. destruct (filter _ l) as [|x r] eqn:EF; [simpl in HL; lia|].
    assert (HX : x ∈ filter (fun t => t < v) l) by (rewrite EF; left).
    apply list_elem_of_filter in HX as [? HX]. specialize (HB x HX). lia.
  - intros E. specialize (IH k m v E). pose proof (HB m (list_elem_of_lookup_2 _ _ _ E)).
    case_decide as HD; cbn [List.length]; rewrite IH; [lia|]. split; [|lia].
    intros HL. apply IH in HL. lia.
Qed.

Lemma validate_timestamp_safe new prev now height : validate_timestamp new prev now height <> Panic.
Proof.
  unfold validate_timestamp, MEDIAN_TIME_PAST_WINDOW. apply bind_safe; [apply bail_if_safe|]. intros _ _.
  destruct (Nat.leb_spec 11 (List.length prev)) as [HL|HL].
  - destruct (lookup_lt_is_Some_2 (merge_sort Z.le (take 11 (rev prev))) (11 / 2)) as [m ->].
    { rewrite merge_sort_Permutation, length_take, length_rev, Nat.min_l by lia.
      apply Nat.div_lt; lia. }
    apply bail_if_safe.
  - destruct (last prev); [apply bail_if_safe|discriminate].
Qed.

(** The specification of [validate_timestamp]: it never aborts, and accepts a
    timestamp exactly when it is not too far in the future and either more than
    half of the last eleven timestamps are strictly smaller, or, with fewer than
    eleven predecessors, the last one is. *)
Lemma validate_timestamp_spec new prev now height :
  0 <= now < 2 ^ 63 ->
  validate_timestamp new prev now height <> Panic
  /\ (validate_timestamp new prev now height = Ok () <->
      new <= now + (if TIMEWARP_FIX_ACTIVATION_HEIGHT <=? height then 900 else 36000)
      /\ if decide (11 <= List.length prev)%nat
         then (6 <= List.length (filter (fun t => (t < new)%Z) (drop (List.length prev - 11) prev)))%nat
         else forall l, last prev = Some l -> l < new).
Proof.
  intros Hn. unfold validate_timestamp, MEDIAN_TIME_PAST_WINDOW. cbv zeta. unfold wrap.
  change (15 * 60) with 900. change (10 * 60 * 60) with 36000.
  set (f := if TIMEWARP_FIX_ACTIVATION_HEIGHT <=? height then 900 else 36000).
  assert (Hf : 0 <= f <= 36000) by (unfold f; case_match; lia).
  rewrite Z.mod_small by lia.
  destruct (Z.ltb_spec (now + f) new) as [HL|HL]; cbn [bail_if mbind res_bind].
  { split; [discriminate|]. split; [discriminate|]. lia. }
  case_decide as HD.
  - rewrite (proj2 (Nat.leb_le _ _)) by exact HD.
    set (r := take 11 (rev prev)). assert (EP : r ≡ₚ drop (List.length prev - 11) prev).
    { unfold r. rewrite List.firstn_rev. symmetry. apply Permutation_rev. }
    assert (EL : List.length (merge_sort Z.le r) = 11%nat).
    { rewrite merge_sort_Permutation, EP, length_drop. lia. }
    change (11 / 2)%nat with 5%nat.
    destruct (lookup_lt_is_Some_2 (merge_sort Z.le r) 5) as [m Em]; [lia|]. rewrite Em.
    cbn [unwrap mbind res_bind]. split; [apply bail_if_safe|]. rewrite bail_if_Ok, Z.leb_gt.
    rewrite (sorted_rank _ (StronglySorted_merge_sort Z.le r) 5 m new Em).
    rewrite (merge_sort_Permutation Z.le r), EP. intuition lia.
  - rewrite (proj2 (Nat.leb_gt _ _)) by lia. destruct (last prev) as [l|].
    + split; [apply bail_if_safe|]. rewrite bail_if_Ok, Z.leb_gt. split.
      * intros ?. split; [lia|]. intros ? [= <-]. lia.
      * intros [_ HA]. apply HA. reflexivity.
    + split; [discriminate|]. split; [|reflexivity]. intros _. split; [lia|discriminate].
Qed.

(** [calculate_work] is the expected number of hashes [(2^256 - 1) / target],
    saturated at [2^128 - 1]; it is at least 1 for every target the difficulty
    rule produces, and a lower target never carries less work. *)
Lemma calculate_work_spec (target : hash32) :
  calculate_work target
  = (if be_val target =? 0 then 0 else Z.min (2 ^ 128 - 1) ((2 ^ 256 - 1) / be_val target))
  /\ (forall h t, 1 <= calculate_work (calculate_target h t) < 2 ^ 128)
  /\ (forall easier : hash32, 0 < be_val target <= be_val easier ->
      calculate_work easier <= calculate_work target).
Proof.
  assert (EW : forall tg : hash32, calculate_work tg
    = if be_val tg =? 0 then 0 else Z.min (2 ^ 128 - 1) ((2 ^ 256 - 1) / be_val tg)).
  { intros tg. unfold calculate_work, umax. pose proof (arr_be_val_range tg) as HR.
    destruct (Z.eqb_spec (be_val tg) 0) as [|HZ]; [reflexivity|].
    set (w := (2 ^ 256 - 1) / be_val tg). assert (0 <= w) by (apply Z.div_pos; lia).
    destruct (Z.ltb_spec (2 ^ 128 - 1) w); [lia|]. rewrite Z.min_r by lia.
    unfold wrap. rewrite Z.shiftr_div_pow2, Z.shiftl_mul_pow2 by lia.
    assert (w / 2 ^ 64 < 2 ^ 64) by (apply Z.div_lt_upper_bound; lia).
    assert (0 <= w / 2 ^ 64) by (apply Z.div_pos; lia).
    rewrite (Z.mod_small (w / 2 ^ 64)) by lia. rewrite Z.mod_small by lia.
    rewrite <- Z.shiftl_mul_pow2 by lia. rewrite <- Z.land_ones by lia.
    apply Z.bits_inj'. intros n Hn. rewrite Z.lor_spec, Z.land_spec, Z.shiftl_spec by lia.
    rewrite <- Z.shiftr_div_pow2 by lia. destruct (Z.ltb_spec n 64).
    - rewrite (Z.testbit_neg_r _ (n - 64)) by lia. rewrite Z.ones_spec_low by lia.
      apply andb_true_r.
    - rewrite Z.shiftr_spec by lia. rewrite Z.ones_spec_high by lia.
      rewrite andb_false_r, orb_false_r. f_equal. lia. }
  split; [apply EW|]. split.
  - intros h t. rewrite EW. pose proof (calculate_target_range h t) as HR. unfold CEILING in HR.
    rewrite (proj2 (Z.eqb_neq _ _)) by lia.
    assert (1 <= (2 ^ 256 - 1) / be_val (calculate_target h t)) by (apply Z.div_le_lower_bound; lia).
    lia.
  - intros easier HE. rewrite !EW, !(proj2 (Z.eqb_neq _ _)) by lia.
    assert ((2 ^ 256 - 1) / be_val easier <= (2 ^ 256 - 1) / be_val target)
      by (apply Z.div_le_compat_l; lia). lia.
Qed.

(** Sequential work: [verify_extension] accepts exactly the extensions that
    [create_extension] makes for the same midstate and nonce whose final hash is
    below the target, as 256-bit integers; the target is checked first. *)
Lemma verify_extension_spec `{Blake3} fast_mining (mirstat : hash32) ext (target : hash32) :
  verify_extension fast_mining mirstat ext target
  = (if be_val (ext_final_hash ext) <? be_val target then
       if bool_decide (ext = create_extension fast_mining mirstat (ext_nonce ext))
       then Ok () else Err WorkFailed
     else Err TargetNotMet).
Proof.
  unfold verify_extension. rewrite bytes_ltb_be_val by (rewrite !arr_length; reflexivity).
  destruct (_ <? _); [|reflexivity]. cbn [negb bail_if mbind res_bind].
  set (x := create_extension fast_mining mirstat (ext_nonce ext)).
  assert (EN : ext_nonce x = ext_nonce ext) by reflexivity.
  assert (ED : ext_final_hash x = ext_final_hash ext <-> ext = x).
  { split; [|intros <-; reflexivity]. destruct ext, x. cbn in *. congruence. }
  rewrite (bool_decide_ext _ _ ED). case_bool_decide; reflexivity.
Qed.

(** * Concrete inputs *)

Lemma calculate_target_monotone_witness :
  let t := BITCOIN_BLOCK_TIME in
  be_val (calculate_target 10 t) <= be_val (calculate_target 10 (t + 100000))
  /\ be_val (calculate_target 500 t) <= be_val (calculate_target 10 t).
Proof.
  intros t. destruct calculate_target_monotone as (_ & F & G). split.
  - apply F; unfold t, BITCOIN_BLOCK_TIME; lia.
  - apply G; unfold t, BITCOIN_BLOCK_TIME; lia.
Defined.

Lemma asert_half_life_witness :
  be_val (calculate_target 10 (BITCOIN_BLOCK_TIME + 600)) = be_val GENESIS_TARGET.
Proof.
  refine (proj1 (asert_half_life 10 (BITCOIN_BLOCK_TIME + 600) _ _) eq_refl);
    unfold BITCOIN_BLOCK_TIME; lia.
Defined.

Lemma validate_timestamp_spec_witness :
  validate_timestamp 7 [1; 9; 2; 8; 3; 7; 4; 6; 5; 5; 5] 100 300000 = Ok ().
Proof.
  apply (validate_timestamp_spec 7 [1; 9; 2; 8; 3; 7; 4; 6; 5; 5; 5] 100 300000); [lia|].
  vm_compute. split; [discriminate|lia].
Defined.

Lemma calculate_work_spec_witness :
  calculate_work (arr_of 32 (be_bytes 32 (2 ^ 250))) <= calculate_work (arr_of 32 (be_bytes 32 (2 ^ 200))).
Proof.
  apply (calculate_work_spec (arr_of 32 (be_bytes 32 (2 ^ 200)))). vm_compute. split; [reflexivity|discriminate].
Defined.
