(* ===== verification/State.v ===== *)
(** Blocks and the chain state: [src/core/state.rs], with [State::genesis] and
    [State::header] of [src/core/types.rs].

    The clock is the argument [now]; [usize] values are below 2^64 and modelled
    as [Z].  [heights_order] is the iteration order of the commitment-height hash
    map, which Rust leaves unspecified. *)
From Stdlib Require Import Strings.String.
From S2P Require Import Prelude Types Wots Mss Mmr Smt Transaction Difficulty.

#[local] Open Scope Z_scope.

(** * Genesis *)

Definition genesis_coinbase : list CoinbaseOutput := [
  {| cb_address := arr_of 32 (bstr "Harvest Now, Decrypt Later: The "); cb_value := 536870912;
     cb_salt := arr_of 32 (bstr "Quantum Era's Encryption Challen") |};
  {| cb_address := arr_of 32 (bstr "ge (Published Feb 24, 2026, by R"); cb_value := 536870912;
     cb_salt := arr_of 32 (bstr "BC Disruptors)") |} ].

Definition genesis `{Blake3} {A} `{!SetAccumulator A} : State A :=
  let anchor := hash BITCOIN_BLOCK_HASH in
  let initial_mirstat := hash_concat anchor (le_bytes 8 BITCOIN_BLOCK_HEIGHT) in
  {| st_mirstat := initial_mirstat; st_coins := sa_new; st_commitments := sa_new; st_depth := 0;
     st_target := GENESIS_TARGET; st_height := 0; st_timestamp := BITCOIN_BLOCK_TIME;
     st_commitment_heights := ∅; st_expirations := ∅; st_chain_mmr := mmr_new;
     st_header_hash := initial_mirstat; st_burned_wots := sa_new |}.

Definition adjust_difficulty {A} (s : State A) : hash32 :=
  calculate_target (st_height s) (st_timestamp s).

(** * Applying a block *)

(** What the ordering pass collects. *)
Record Prepass : Type := mkPrepass {
  seen_non_commit : bool;
  in_block_commits : gset hash32;
  commit_count : Z;
  reveal_count : Z;
  consolidated_addresses : gset hash32
}.

Definition Oracle : Type := gmap hash32 hash32.

Section Prepasses.
Context `{Blake3}.

Fixpoint prepass (txs : list Transaction) (p : Prepass) : res BatchError Prepass :=
  match txs with
  | [] => Ok p
  | tx :: txs =>
      p ← match tx with
          | Commit commitment _ =>
              if seen_non_commit p then Err OrderingViolation
              else Ok (mkPrepass false ({[commitment]} ∪ in_block_commits p)
                         (commit_count p + 1) (reveal_count p) (consolidated_addresses p))
          | Reveal _ _ _ _ =>
              Ok (mkPrepass true (in_block_commits p) (commit_count p) (reveal_count p + 1)
                    (consolidated_addresses p))
          | Consolidate inputs _ _ _ =>
              match inputs with
              | [] => Ok (mkPrepass true (in_block_commits p) (commit_count p)
                            (reveal_count p + 1) (consolidated_addresses p))
              | i :: _ =>
                  let addr := predicate_address (in_predicate i) in
                  if bool_decide (addr ∈ consolidated_addresses p) then Err DuplicateConsolidate
                  else Ok (mkPrepass true (in_block_commits p) (commit_count p)
                             (reveal_count p + 1) ({[addr]} ∪ consolidated_addresses p))
              end
          end;
      prepass txs p
  end.

Definition prepass_checks (txs : list Transaction) : res BatchError Prepass :=
  p ← prepass txs (mkPrepass false ∅ 0 0 ∅);
  _ ← bail_if (MAX_BATCH_REVEALS <? reveal_count p) TooManyReveals;
  _ ← bail_if (MAX_BATCH_COMMITS <? commit_count p) TooManyCommits;
  Ok p.

(** The one-time keys spent by the block, with the commitment that spends them;
    a reuse is only logged. *)
Definition oracle_insert (commitment : hash32) (oracle : Oracle) (p : InputReveal * Witness)
    : Oracle :=
  match burned_key p.1 p.2 with
  | Some k => <[k := commitment]> oracle
  | None => oracle
  end.

Definition record_tx (oracle : Oracle) (tx : Transaction) : Oracle :=
  match tx with
  | Commit _ _ => oracle
  | Reveal inputs witnesses outputs salt =>
      foldl (oracle_insert (tx_commitment inputs outputs salt)) oracle (zip inputs witnesses)
  | Consolidate inputs witness outputs salt =>
      match inputs with
      | [] => oracle
      | i :: _ => oracle_insert (tx_commitment inputs outputs salt) oracle (i, witness)
      end
  end.

Definition record_oracle (txs : list Transaction) (oracle : Oracle) : Oracle :=
  foldl record_tx oracle txs.

Definition tx_load (tx : Transaction) : Z * Z :=
  match tx with
  | Commit _ _ => (0, 0)
  | Reveal inputs _ outputs _ => (len inputs, len outputs)
  | Consolidate _ _ outputs _ => (1, len outputs)
  end.

Definition check_load (txs : list Transaction) : res BatchError () :=
  let total_inputs := sumZ (map (fun tx => (tx_load tx).1) txs) in
  let total_outputs := sumZ (map (fun tx => (tx_load tx).2) txs) in
  _ ← bail_if (MAX_BATCH_INPUTS <? total_inputs) TooManyBatchInputs;
  bail_if (MAX_BATCH_OUTPUTS <? total_outputs) TooManyBatchOutputs.

(** ** Coinbase *)

Fixpoint scan_coinbase (seen : gset hash32) (cbs : list CoinbaseOutput) : res BatchError () :=
  match cbs with
  | [] => Ok ()
  | cb :: cbs =>
      _ ← bail_if (bool_decide (coinbase_coin_id cb ∈ seen)) DuplicateCoinbaseId;
      scan_coinbase ({[coinbase_coin_id cb]} ∪ seen) cbs
  end.

Fixpoint coinbase_sum (cbs : list CoinbaseOutput) (total : Z) : res BatchError Z :=
  match cbs with
  | [] => Ok total
  | cb :: cbs =>
      _ ← bail_if (cb_value cb =? 0) ZeroCoinbase;
      _ ← bail_if (negb (is_pow2 (cb_value cb))) CoinbaseDenomination;
      total ← ok_or CoinbaseOverflow (checked_add 64 total (cb_value cb));
      coinbase_sum cbs total
  end.

Definition check_coinbase (height total_fees : Z) (cbs : list CoinbaseOutput) : res BatchError () :=
  allowed_value ← ok_or RewardOverflow (checked_add 64 (block_reward height) total_fees);
  _ ← scan_coinbase ∅ cbs;
  coinbase_total ← coinbase_sum cbs 0;
  bail_if (negb (coinbase_total =? allowed_value)) CoinbaseTotal.

End Prepasses.

Section ApplyBatch.
Context `{Blake3}.
Context (fast_mining : bool) (usize_bits : Z).
Context (witnesses_size : list Witness -> option Z).
Context {A : Type} `{!SetAccumulator A}.
Context (heights_order : gmap hash32 Z -> list (hash32 * Z)).

Definition check_linkage (batch : Batch) (s : State A) : res BatchError () :=
  _ ← bail_if (negb (bool_decide (b_prev_mirstat batch = st_mirstat s))) ParentMismatch;
  _ ← bail_if (negb (bool_decide (b_prev_header_hash batch = st_header_hash s))) HeaderMismatch;
  bail_if (negb (bool_decide (b_target batch = st_target s))) TargetMismatch.

Definition lift_tx {B} (m : ST (State A) TxError B) : ST (State A) BatchError B := fun s =>
  match m s with
  | (Ok a, s) => (Ok a, s)
  | (Err e, s) => (Err (TxError_ e), s)
  | (Panic, s) => (Panic, s)
  end.

Definition lift_res {E B} (f : E -> BatchError) (m : res E B) : res BatchError B :=
  match m with Ok a => Ok a | Err e => Err (f e) | Panic => Panic end.

(** The parallel pass: the error returned is that of some failing transaction;
    here the first. *)
Definition verify_all (p : Prepass) (txs : list Transaction) (s : State A) : res BatchError () :=
  check_all (fun tx => lift_res TxError_
    (verify_transaction_sigs usize_bits tx (st_height s) (st_commitments s) (in_block_commits p))) txs.

Fixpoint apply_txs (txs : list Transaction) (total_fees : Z) : ST (State A) BatchError Z :=
  match txs with
  | [] => mret total_fees
  | tx :: txs =>
      total_fees ← reads (fun _ => ok_or FeeOverflow (checked_add 64 total_fees (fee tx)));
      _ ← lift_tx (apply_transaction_no_sig_check fast_mining usize_bits witnesses_size tx);
      apply_txs txs total_fees
  end.

(** The chain MMR never aborts on a reachable state. *)
Definition mmr_res {B} (m : res MmrError B) : res BatchError B :=
  match m with Ok a => Ok a | _ => Panic end.

Definition insert_coins (v2 : bool) (cs : A) (ids : list hash32) : A :=
  foldl (fun cs c => (sa_insert c v2 cs).2) cs ids.

Definition expected_state_root (s : State A) (coinbase_ids : list hash32) : res BatchError hash32 :=
  let v2 := v2_of s in
  let temp_state_coins := insert_coins v2 (st_coins s) coinbase_ids in
  let smt_root := hash_concat (sa_root v2 temp_state_coins) (sa_root v2 (st_commitments s)) in
  mmr_res (mmr_root (st_chain_mmr s) v2) ≫= fun mmr : hash32 =>
  let r := hash_concat smt_root mmr in
  Ok (if V4_ACTIVATION_HEIGHT <=? st_height s
      then hash_concat r (sa_root v2 (st_burned_wots s)) else r).

Definition future_mirstat (batch : Batch) (s : State A) : hash32 :=
  let m := foldl (fun (m : hash32) c => hash_concat m (arr_list c)) (st_mirstat s)
             (map coinbase_coin_id (b_coinbase batch)) in
  hash_concat m (b_state_root batch).

Definition mining_target (batch : Batch) (s : State A) : hash32 :=
  compute_header_hash {|
    h_height := st_height s; h_prev_header_hash := st_header_hash s;
    h_prev_mirstat := st_mirstat s; h_post_tx_mirstat := future_mirstat batch s;
    h_extension := b_extension batch; h_timestamp := b_timestamp batch;
    h_target := b_target batch; h_state_root := b_state_root batch |}.

Definition check_work (batch : Batch) (preverified_hash : option hash32) (s : State A)
    : res BatchError () :=
  match preverified_hash with
  | None => verify_extension fast_mining (mining_target batch s) (b_extension batch) (b_target batch)
  | Some expected_hash =>
      bail_if (negb (bool_decide (mining_target batch s = expected_hash))) IntegrityFailure
  end.

(** [if !state.coins.insert(..) { bail!("Duplicate coinbase coin") }]. *)
Definition add_coinbase (c : hash32) : ST (State A) BatchError () := fun s =>
  let '(fresh, coins) := sa_insert c (v2_of s) (st_coins s) in
  (if fresh then Ok () else Err DuplicateCoinbaseCoin, set_coins coins s).

Definition block_weight (height commits : Z) (target : hash32) : Z :=
  let block_work := calculate_work target in
  if COMMIT_WEIGHT_ACTIVATION_HEIGHT <=? height
  then sat_add 128 block_work (wrap 128 (commits * 16777216)) else block_work.

(** The commitments to drop once the height has been advanced. *)
Definition expired_keys (height : Z) (commitment_heights : gmap hash32 Z)
    (expirations : gmap Z (list hash32)) : list hash32 :=
  if height <? V2_ACTIVATION_HEIGHT + COMMITMENT_TTL then
    map fst (filter (fun e : hash32 * Z => COMMITMENT_TTL < sat_sub height e.2)
               (heights_order commitment_heights))
  else
    default [] (expirations !! sat_sub height (COMMITMENT_TTL + 1)).

(** [v2] is the hashing mode captured before the height was advanced. *)
Definition collect_garbage (v2 : bool) (s : State A) : State A :=
  let keys := expired_keys (st_height s) (st_commitment_heights s) (st_expirations s) in
  let s :=
    set_commitments (foldl (fun cs k => (sa_remove k v2 cs).2) (st_commitments s) keys)
      (foldl (fun m k => delete k m) (st_commitment_heights s) keys) s in
  if st_height s <? V2_ACTIVATION_HEIGHT + COMMITMENT_TTL then s
  else set_expirations (delete (sat_sub (st_height s) (COMMITMENT_TTL + 1)) (st_expirations s)) s.

(** The rebuild of the caches at the V2 activation. *)
Definition activate_v2 (s : State A) : State A :=
  if st_height s =? V2_ACTIVATION_HEIGHT
  then set_coins (sa_rebuild true (st_coins s))
         (set_commitments (sa_rebuild true (st_commitments s)) (st_commitment_heights s) s)
  else s.

(** Step 7: everything but the coins, before the rebuild and the garbage collection. *)
Definition advance (batch : Batch) (commits : Z) (mirstat : hash32) (mmr : MerkleMountainRange)
    (s : State A) : State A := {|
  st_mirstat := mirstat; st_coins := st_coins s; st_commitments := st_commitments s;
  st_depth := wrap 128 (st_depth s + block_weight (st_height s) commits (b_target batch));
  st_target := st_target s; st_height := wrap 64 (st_height s + 1); st_timestamp := b_timestamp batch;
  st_commitment_heights := st_commitment_heights s; st_expirations := st_expirations s;
  st_chain_mmr := mmr; st_header_hash := ext_final_hash (b_extension batch);
  st_burned_wots := st_burned_wots s |}.

Definition finalize (batch : Batch) (commits : Z) (mirstat : hash32) : ST (State A) BatchError () :=
  mmr ← reads (fun s => mmr_res (mmr_append (ext_final_hash (b_extension batch)) (v2_of s) (st_chain_mmr s)));
  modify (fun s =>
    collect_garbage (v2_of s) (activate_v2 (advance batch commits mirstat mmr.2 s))).

(** From the transactions on, everything that reads or changes the state. *)
Definition apply_body (batch : Batch) (preverified_hash : option hash32) (skip_signatures : bool)
    (p : Prepass) : ST (State A) BatchError () :=
  _ ← reads (fun s => if skip_signatures then Ok () else verify_all p (b_transactions batch) s);
  total_fees ← apply_txs (b_transactions batch) 0;
  _ ← reads (fun s => check_coinbase (st_height s) total_fees (b_coinbase batch));
  let coinbase_ids := map coinbase_coin_id (b_coinbase batch) in
  root ← reads (fun s => expected_state_root s coinbase_ids);
  _ ← reads (fun _ => bail_if (negb (bool_decide (b_state_root batch = root))) StateRootMismatch);
  mirstat ← reads (fun s => Ok (future_mirstat batch s));
  _ ← reads (check_work batch preverified_hash);
  _ ← st_each add_coinbase coinbase_ids;
  finalize batch (commit_count p) mirstat.

(** The state and the oracle are both updated in place; the oracle is recorded
    before the block is known to be valid. *)
Definition apply_batch_internal (now : Z) (batch : Batch) (previous_timestamps : list Z)
    (preverified_hash : option hash32) (skip_signatures : bool)
    : ST (State A * Oracle) BatchError () := fun '(s, oracle) =>
  match
    _ ← check_linkage batch s;
    p ← prepass_checks (b_transactions batch);
    _ ← validate_timestamp (b_timestamp batch) previous_timestamps now (st_height s);
    Ok p
  with
  | Ok p =>
      let oracle := record_oracle (b_transactions batch) oracle in
      match check_load (b_transactions batch) with
      | Ok _ =>
          let '(r, s) := apply_body batch preverified_hash skip_signatures p s in (r, (s, oracle))
      | Err e => (Err e, (s, oracle))
      | Panic => (Panic, (s, oracle))
      end
  | Err e => (Err e, (s, oracle))
  | Panic => (Panic, (s, oracle))
  end.

Definition apply_batch (now : Z) (batch : Batch) (previous_timestamps : list Z) :=
  apply_batch_internal now batch previous_timestamps None false.

Definition apply_batch_skip_pow (now : Z) (batch : Batch) (previous_timestamps : list Z)
    (verified_mining_hash : hash32) :=
  apply_batch_internal now batch previous_timestamps (Some verified_mining_hash) false.

Definition apply_batch_trusted (now : Z) (batch : Batch) (previous_timestamps : list Z)
    (verified_mining_hash : hash32) :=
  apply_batch_internal now batch previous_timestamps (Some verified_mining_hash) true.

(** [State::header]. *)
Definition state_header (s : State A) : res BatchError BatchHeader :=
  let v2 := v2_of s in
  let smt_root := hash_concat (sa_root v2 (st_coins s)) (sa_root v2 (st_commitments s)) in
  mmr_res (mmr_root (st_chain_mmr s) v2) ≫= fun mmr : hash32 =>
  Ok {| h_height := st_height s; h_prev_mirstat := zero_arr 32;
        h_post_tx_mirstat := st_mirstat s;
        h_extension := {| ext_nonce := 0; ext_final_hash := st_header_hash s |};
        h_timestamp := st_timestamp s; h_target := st_target s;
        h_state_root := hash_concat smt_root mmr; h_prev_header_hash := zero_arr 32 |}.

(** Fork choice: [true] for the first state. *)
Definition choose_best_state (a b : State A) : State A :=
  if st_depth b <? st_depth a then a
  else if st_depth a <? st_depth b then b
  else if bytes_ltb (st_mirstat a) (st_mirstat b) then a else b.

End ApplyBatch.

(** * Effects *)

(** ** What a transaction does to each part of the state *)

Section Abstract.
Context `{Blake3}.

Definition coins_after (C : gset hash32) (tx : Transaction) : gset hash32 :=
  list_to_set (output_coin_ids tx) ∪ C ∖ list_to_set (input_coin_ids tx).

Definition commitments_after (height : Z) (C : gset hash32) (tx : Transaction) : gset hash32 :=
  match tx with
  | Commit c _ => {[c]} ∪ C
  | _ => if height <? COMMIT_REPLAY_FIX_ACTIVATION_HEIGHT then C ∖ {[commitment_of tx]} else C
  end.

Definition heights_after (height : Z) (m : gmap hash32 Z) (tx : Transaction) : gmap hash32 Z :=
  match tx with
  | Commit c _ => <[c := height]> m
  | _ => if height <? COMMIT_REPLAY_FIX_ACTIVATION_HEIGHT then delete (commitment_of tx) m else m
  end.

Definition expirations_after (height : Z) (e : gmap Z (list hash32)) (tx : Transaction)
    : gmap Z (list hash32) :=
  match tx with
  | Commit c _ => <[height := default [] (e !! height) ++ [c]]> e
  | _ => e
  end.

(** The commits of a list of transactions. *)
Definition commits_of (txs : list Transaction) : list hash32 :=
  omap (fun tx => match tx with Commit c _ => Some c | _ => None end) txs.

End Abstract.

Section Effects.
Context `{Blake3}.
Context (fast_mining : bool) (usize_bits : Z).
Context (witnesses_size : list Witness -> option Z).
Context {A : Type} `{!SetAccumulator A} `{!SetAccumulatorLaws A}.

Abbreviation apply_no_sig := (apply_transaction_no_sig_check fast_mining usize_bits witnesses_size).

(** The fields that application leaves alone. *)
Definition same_frame (s s' : State A) : Prop :=
  st_depth s' = st_depth s /\ st_target s' = st_target s /\ st_height s' = st_height s
  /\ st_timestamp s' = st_timestamp s /\ st_chain_mmr s' = st_chain_mmr s
  /\ st_header_hash s' = st_header_hash s /\ st_burned_wots s' = st_burned_wots s.

Definition wf_kept (s s' : State A) : Prop :=
  (sa_wf (v2_of s) (st_coins s) -> sa_wf (v2_of s) (st_coins s'))
  /\ (sa_wf (v2_of s) (st_commitments s) -> sa_wf (v2_of s) (st_commitments s')).

Record tx_effect (tx : Transaction) (s s' : State A) : Prop := mkTxEffect {
  te_mirstat : st_mirstat s' = replay_tx (st_mirstat s) tx;
  te_coins : sa_set (st_coins s') = coins_after (sa_set (st_coins s)) tx;
  te_spent : forall x, x ∈ input_coin_ids tx -> x ∈ sa_set (st_coins s);
  te_created : NoDup (output_coin_ids tx)
    /\ forall x, x ∈ output_coin_ids tx -> x ∉ sa_set (st_coins s) ∖ list_to_set (input_coin_ids tx);
  te_structure : is_spend tx = true ->
    structure witnesses_size 2 tx = Ok ()
    /\ commitment_of tx ∈ sa_set (st_commitments s)
    /\ forall h, st_commitment_heights s !! commitment_of tx = Some h -> st_height s - h <= COMMITMENT_TTL;
  te_commit : forall c n, tx = Commit c n ->
    (c ∉ sa_set (st_commitments s)) /\ validate_commit_pow fast_mining c n s = Ok ();
  te_commitments : sa_set (st_commitments s')
    = commitments_after (st_height s) (sa_set (st_commitments s)) tx;
  te_heights : st_commitment_heights s' = heights_after (st_height s) (st_commitment_heights s) tx;
  te_expirations : st_expirations s' = expirations_after (st_height s) (st_expirations s) tx;
  te_frame : same_frame s s';
  te_wf : wf_kept s s'
}.

Lemma no_sig_effect tx s s' : apply_no_sig tx s = (Ok (), s') -> tx_effect tx s s'.
Proof.
  intros E. destruct (is_spend tx) eqn:HS.
  - apply no_sig_spend_Ok in E as (E1 & E2 & E3 & E4); [|exact HS].
    apply check_commitment_Ok in E2. rewrite check_coins_Ok in E3.
    assert (EI : input_coin_ids tx = map input_coin_id (tx_inputs tx)) by (destruct tx; reflexivity).
    destruct (run_bare_eq _ _ _ _ E4) as (c & cs & hs & m & -> & X1 & X2 & X3 & X4 & X5).
    destruct X5 as [(_ & Y1 & Y2 & Y3 & Y4)|(? & _)]; [|discriminate].
    split; cbn; try assumption; try tauto.
    + rewrite EI. exact E3.
    + intros c0 n ->. discriminate HS.
    + rewrite X1. destruct tx; [discriminate|reflexivity..].
    + rewrite X2. destruct tx; [discriminate|reflexivity..].
    + destruct tx; [discriminate|reflexivity..].
    + repeat split.
    + split; auto.
  - destruct tx as [cm n| |]; try discriminate HS.
    cbn [apply_transaction_no_sig_check apply_transaction] in E. open_tx.
    rewrite st_reads_bind in E.
    destruct (validate_commit_pow fast_mining cm n s) as [[]|e|] eqn:EV; try discriminate.
    unfold mbind, st_bind, insert_commitment in E.
    pose proof (sa_insert_new cm (v2_of s) (st_commitments s)) as EN.
    pose proof (sa_insert_set cm (v2_of s) (st_commitments s)) as ES.
    pose proof (sa_insert_wf cm (v2_of s) (st_commitments s)) as EW.
    destruct (sa_insert cm _ _) as [f c']. cbn in EN, ES, EW. subst f.
    case_bool_decide as Hc; [discriminate|]. injection E as <-.
    split; cbn; try reflexivity; try assumption.
    + unfold coins_after. cbn. set_solver.
    + intros x Hx. inversion Hx.
    + split; [constructor|]. intros x Hx. inversion Hx.
    + discriminate.
    + intros c0 n0 [= <- <-]. split; assumption.
    + repeat split.
    + split; auto.
Qed.

(** ** All the transactions of a block *)

Lemma same_frame_trans s1 s2 s3 : same_frame s1 s2 -> same_frame s2 s3 -> same_frame s1 s3.
Proof. unfold same_frame. intuition congruence. Qed.

Lemma wf_kept_trans s1 s2 s3 :
  st_height s2 = st_height s1 -> wf_kept s1 s2 -> wf_kept s2 s3 -> wf_kept s1 s3.
Proof. unfold wf_kept, v2_of. intros ->. tauto. Qed.

Abbreviation apply_all := (apply_txs fast_mining usize_bits witnesses_size).

Lemma apply_txs_cons tx txs f0 s f s' :
  apply_all (tx :: txs) f0 s = (Ok f, s') <->
  exists s1, checked_add 64 f0 (fee tx) = Some (f0 + fee tx)
  /\ apply_no_sig tx s = (Ok (), s1) /\ apply_all txs (f0 + fee tx) s1 = (Ok f, s').
Proof.
  cbn [apply_txs]. rewrite st_reads_bind. unfold checked_add. destruct (_ <=? _) eqn:EL; cbn [ok_or].
  - unfold mbind, st_bind, lift_tx. destruct (apply_no_sig tx s) as [[[]|e|] s1] eqn:E1.
    + split; [eauto|]. intros (s2 & _ & [= <-] & E). exact E.
    + split; [discriminate|]. intros (s2 & _ & E & _). discriminate.
    + split; [discriminate|]. intros (s2 & _ & E & _). discriminate.
  - split; [discriminate|]. intros (s2 & E & _). discriminate.
Qed.

(** The states between the transactions. *)
Inductive txs_run : list Transaction -> State A -> State A -> Prop :=
  | run_nil s : txs_run [] s s
  | run_cons tx txs s s1 s' :
      tx_effect tx s s1 -> txs_run txs s1 s' -> txs_run (tx :: txs) s s'.

Lemma apply_txs_run txs : forall f0 s f s',
  apply_all txs f0 s = (Ok f, s') -> txs_run txs s s' /\ f = f0 + sumZ (map fee txs).
Proof.
  induction txs as [|tx txs IH]; intros f0 s f s' E.
  - injection E as <- <-. split; [constructor|cbn; lia].
  - apply apply_txs_cons in E as (s1 & _ & E1 & E2). destruct (IH _ _ _ _ E2) as [R ->].
    split; [econstructor; [eapply no_sig_effect, E1|exact R]|]. cbn. fold (sumZ (map fee txs)). lia.
Qed.

Lemma txs_run_frame txs s s' : txs_run txs s s' -> same_frame s s' /\ wf_kept s s'.
Proof.
  induction 1 as [s|tx txs s s1 s' TE R [IH1 IH2]]; [repeat split; auto|].
  pose proof (te_frame _ _ _ TE) as F. split; [eapply same_frame_trans; eassumption|].
  eapply wf_kept_trans; [apply F|apply TE|exact IH2].
Qed.

Lemma txs_run_fold txs s s' : txs_run txs s s' ->
  st_mirstat s' = foldl replay_tx (st_mirstat s) txs
  /\ sa_set (st_coins s') = foldl coins_after (sa_set (st_coins s)) txs
  /\ sa_set (st_commitments s') = foldl (commitments_after (st_height s)) (sa_set (st_commitments s)) txs
  /\ st_commitment_heights s' = foldl (heights_after (st_height s)) (st_commitment_heights s) txs
  /\ st_expirations s' = foldl (expirations_after (st_height s)) (st_expirations s) txs.
Proof.
  induction 1 as [s|tx txs s s1 s' TE R IH]; [auto|]. cbn [foldl].
  assert (EH : st_height s1 = st_height s) by apply TE.
  destruct TE as [<- <- _ _ _ _ <- <- <- _ _]. rewrite EH in IH. exact IH.
Qed.

(** A coin that disappears is an input of some transaction. *)
Lemma txs_run_spent txs s s' x : txs_run txs s s' ->
  x ∈ sa_set (st_coins s) -> x ∉ sa_set (st_coins s') ->
  exists tx, tx ∈ txs /\ is_spend tx = true /\ x ∈ input_coin_ids tx
  /\ structure witnesses_size 2 tx = Ok ().
Proof.
  induction 1 as [s|tx txs s s0 s' TE R IH]; intros Hx Hx1; [contradiction|].
  destruct (decide (x ∈ sa_set (st_coins s0))) as [Hi|Hi].
  - destruct (IH Hi Hx1) as (t & T1 & T2). exists t. split; [right; exact T1|exact T2].
  - exists tx. rewrite (te_coins _ _ _ TE) in Hi. unfold coins_after in Hi.
    assert (HI : x ∈ input_coin_ids tx).
    { destruct (decide (x ∈ input_coin_ids tx)) as [|N]; [assumption|]. exfalso. apply Hi.
      apply elem_of_union_r, elem_of_difference. split; [exact Hx|].
      rewrite elem_of_list_to_set. exact N. }
    assert (HS : is_spend tx = true) by (destruct tx; [inversion HI|reflexivity..]).
    split; [left|]. split; [exact HS|]. split; [exact HI|]. apply (te_structure _ _ _ TE HS).
Qed.

(** ** Ordering pass *)

Lemma no_commits txs : commits_of txs = [] -> Forall (fun tx => is_spend tx = true) txs.
Proof.
  induction txs as [|tx txs IH]; [constructor|]. destruct tx; cbn; [discriminate|..];
    (intros HE; constructor; [reflexivity|apply IH, HE]).
Qed.

Lemma prepass_spec txs : forall p p', prepass txs p = Ok p' ->
  commit_count p' = commit_count p + len (commits_of txs)
  /\ reveal_count p' = reveal_count p + len (filter (fun tx => is_spend tx = true) txs)
  /\ in_block_commits p' = list_to_set (commits_of txs) ∪ in_block_commits p
  /\ (seen_non_commit p = true -> commits_of txs = [])
  /\ exists k, Forall (fun tx => is_spend tx = false) (take k txs)
       /\ Forall (fun tx => is_spend tx = true) (drop k txs).
Proof.
  unfold len. induction txs as [|tx txs IH]; intros p p' E; cbn [prepass] in E.
  - injection E as <-. cbn. rewrite !Z.add_0_r, union_empty_l_L.
    repeat (split; [auto|]). exists 0%nat. split; constructor.
  - apply res_bind_Ok in E as (p1 & E1 & E2). destruct (IH _ _ E2) as (I1 & I2 & I3 & I4 & k & I5 & I6).
    rewrite filter_cons. cbn [commits_of omap list_omap]. fold (commits_of txs).
    destruct tx as [c n|inputs ws outs salt|inputs w outs salt].
    + destruct (seen_non_commit p) eqn:ES; [discriminate|]. injection E1 as <-.
      cbn [commit_count reveal_count in_block_commits seen_non_commit] in *.
      rewrite decide_False by discriminate. rewrite I1, I2, I3. cbn [List.length list_to_set].
      split; [lia|]. split; [lia|]. split; [|split; [discriminate|]].
      * rewrite (union_assoc_L _ {[c]}), (union_comm_L _ {[c]}). reflexivity.
      * exists (S k). split; [constructor; [reflexivity|exact I5]|exact I6].
    + injection E1 as <-. cbn [commit_count reveal_count in_block_commits seen_non_commit] in *.
      rewrite decide_True by reflexivity. cbn [List.length]. rewrite (I4 eq_refl) in *.
      split; [lia|]. split; [lia|]. split; [exact I3|]. split; [auto|].
      exists 0%nat. split; [constructor|]. constructor; [reflexivity|].
      apply no_commits, I4. reflexivity.
    + assert (E3 : p1 = mkPrepass true (in_block_commits p) (commit_count p) (reveal_count p + 1)
                     (consolidated_addresses p1)).
      { destruct inputs; [|destruct (bool_decide _); [discriminate|]]; injection E1 as <-; reflexivity. }
      rewrite E3 in I1, I2, I3, I4. cbn [commit_count reveal_count in_block_commits seen_non_commit] in *.
      rewrite decide_True by reflexivity. cbn [List.length]. rewrite (I4 eq_refl) in *.
      split; [lia|]. split; [lia|]. split; [exact I3|]. split; [auto|].
      exists 0%nat. split; [constructor|]. constructor; [reflexivity|].
      apply no_commits, I4. reflexivity.
Qed.

Lemma prepass_checks_spec txs p : prepass_checks txs = Ok p ->
  commit_count p = len (commits_of txs) /\ in_block_commits p = list_to_set (commits_of txs)
  /\ len (commits_of txs) <= MAX_BATCH_COMMITS
  /\ len (filter (fun tx => is_spend tx = true) txs) <= MAX_BATCH_REVEALS
  /\ exists k, Forall (fun tx => is_spend tx = false) (take k txs)
       /\ Forall (fun tx => is_spend tx = true) (drop k txs).
Proof.
  unfold prepass_checks. intros E. apply res_bind_Ok in E as (q & E & E1). repeat ok_step. subst q.
  apply prepass_spec in E as (I1 & I2 & I3 & _ & I5). cbn [commit_count reveal_count in_block_commits] in *.
  rewrite union_empty_r_L in I3. repeat match goal with X : (_ <? _) = false |- _ => apply Z.ltb_ge in X end.
  split; [lia|]. split; [exact I3|]. split; [lia|]. split; [lia|exact I5].
Qed.

Context (heights_order : gmap hash32 Z -> list (hash32 * Z)).

(** ** The whole block *)

Abbreviation apply_block := (apply_batch_internal fast_mining usize_bits witnesses_size heights_order).

(** The state between the transactions and the finalisation, with the coinbase
    coins added. *)
Definition with_coinbase (batch : Batch) (s : State A) : State A :=
  set_coins (insert_coins (v2_of s) (st_coins s) (map coinbase_coin_id (b_coinbase batch))) s.

(** The checks and intermediate results of an accepted block. *)
Record accepted (now : Z) (batch : Batch) (prev : list Z) (pre : option hash32) (skip : bool)
    (s s1 : State A) (p : Prepass) (fees : Z) (m : MerkleMountainRange) : Prop := mkAccepted {
  ac_linkage : check_linkage batch s = Ok ();
  ac_prepass : prepass_checks (b_transactions batch) = Ok p;
  ac_timestamp : validate_timestamp (b_timestamp batch) prev now (st_height s) = Ok ();
  ac_load : check_load (b_transactions batch) = Ok ();
  ac_sigs : skip = false -> verify_all usize_bits p (b_transactions batch) s = Ok ();
  ac_txs : apply_txs fast_mining usize_bits witnesses_size (b_transactions batch) 0 s = (Ok fees, s1);
  ac_coinbase : check_coinbase (st_height s1) fees (b_coinbase batch) = Ok ();
  ac_root : expected_state_root s1 (map coinbase_coin_id (b_coinbase batch)) = Ok (b_state_root batch);
  ac_work : check_work fast_mining batch pre s1 = Ok ();
  ac_fresh : NoDup (map coinbase_coin_id (b_coinbase batch))
    /\ forall x, x ∈ map coinbase_coin_id (b_coinbase batch) -> x ∉ sa_set (st_coins s1);
  ac_mmr : exists pos, mmr_append (ext_final_hash (b_extension batch)) (v2_of s1) (st_chain_mmr s1) = Ok (pos, m)
}.

Lemma insert_coins_set v2 ids : forall cs : A,
  sa_set (insert_coins v2 cs ids) = list_to_set ids ∪ sa_set cs.
Proof.
  induction ids as [|c ids IH]; intros cs; unfold insert_coins; cbn [foldl list_to_set].
  - symmetry. apply union_empty_l_L.
  - fold (insert_coins v2 (sa_insert c v2 cs).2 ids). rewrite IH, sa_insert_set.
    change (list_to_set (c :: ids)) with ({[c]} ∪ list_to_set ids : gset hash32).
    rewrite (union_comm_L {[c]} (list_to_set ids)), union_assoc_L. reflexivity.
Qed.

Lemma insert_coins_wf v2 ids : forall cs : A, sa_wf v2 cs -> sa_wf v2 (insert_coins v2 cs ids).
Proof.
  induction ids as [|c ids IH]; intros cs Hw; [exact Hw|]. apply IH, sa_insert_wf, Hw.
Qed.

Lemma add_coinbase_Ok ids : forall s s' : State A,
  st_each add_coinbase ids s = (Ok (), s') <->
  (NoDup ids /\ forall x, x ∈ ids -> x ∉ sa_set (st_coins s))
  /\ s' = set_coins (insert_coins (v2_of s) (st_coins s) ids) s.
Proof.
  induction ids as [|c ids IH]; intros s s'; cbn [st_each].
  - split; [intros [= <-]|intros [_ ->]]; [|destruct s; reflexivity].
    split; [split; [constructor|intros x Hx; inversion Hx]|destruct s; reflexivity].
  - unfold mbind, st_bind. unfold add_coinbase at 1.
    pose proof (sa_insert_new c (v2_of s) (st_coins s)) as EN.
    pose proof (sa_insert_set c (v2_of s) (st_coins s)) as ES.
    change (insert_coins (v2_of s) (st_coins s) (c :: ids))
      with (insert_coins (v2_of s) (sa_insert c (v2_of s) (st_coins s)).2 ids).
    destruct (sa_insert c (v2_of s) (st_coins s)) as [fresh c1]. cbn [fst snd] in *. subst fresh.
    case_bool_decide as Hc; cbn [negb].
    + split; [discriminate|]. intros [[_ HF] _]. exfalso. apply (HF c); [left|exact Hc].
    + rewrite IH. cbn [set_coins st_coins]. rewrite ES, NoDup_cons. unfold v2_of; cbn [st_height].
      split.
      * intros [[ND HF] ->]. split; [|reflexivity]. split.
        -- split; [|exact ND]. intros Hx. apply (HF c Hx). set_solver.
        -- intros x [->|Hx]%elem_of_cons; [exact Hc|]. specialize (HF x Hx). set_solver.
      * intros [[[Hx ND] HF] ->]. split; [|reflexivity]. split; [exact ND|].
        intros x Hx' [->%elem_of_singleton|Hi]%elem_of_union; [contradiction|].
        apply (HF x); [right; exact Hx'|exact Hi].
Qed.

Lemma st_pure_bind {S E X Y} (f : S -> res E X) (k : X -> ST S E Y) s y s' :
  (reads f ≫= k) s = (Ok y, s') <-> exists x, f s = Ok x /\ k x s = (Ok y, s').
Proof.
  rewrite st_reads_bind. destruct (f s) as [x|e|]; split; try discriminate;
    try (intros (? & ? & ?); discriminate).
  - eauto.
  - intros (x' & [= ->] & HE). exact HE.
Qed.

Lemma apply_batch_Ok now batch prev pre skip s o s' o' :
  apply_block now batch prev pre skip (s, o) = (Ok (), (s', o')) <->
  exists s1 p fees m, accepted now batch prev pre skip s s1 p fees m
  /\ s' = collect_garbage heights_order (v2_of s)
            (activate_v2 (advance batch (commit_count p) (future_mirstat batch s1) m (with_coinbase batch s1)))
  /\ o' = record_oracle (b_transactions batch) o.
Proof.
  unfold apply_batch_internal. split.
  - intros E. destruct (_ ≫= _) as [p|e|] eqn:E1; try discriminate. repeat ok_step. subst.
    destruct (check_load _) as [[]|e|] eqn:E2; try discriminate.
    destruct (apply_body _ _ _ _ _ _ _ _ _) as [r s2] eqn:E3. injection E as -> -> <-.
    unfold apply_body in E3.
    apply st_pure_bind in E3 as ([] & HS & E3). apply st_bind_Ok in E3 as (fees & s1 & ET & E3).
    apply st_pure_bind in E3 as ([] & HC & E3). apply st_pure_bind in E3 as (root & HR & E3).
    apply st_pure_bind in E3 as ([] & HB & E3). apply st_pure_bind in E3 as (mi & [= <-] & E3).
    apply st_pure_bind in E3 as ([] & HK & E3). apply st_bind_Ok in E3 as ([] & s3 & EA & E3).
    apply add_coinbase_Ok in EA as [HF ->]. unfold finalize in E3.
    apply st_pure_bind in E3 as ([pos m] & HM & [= <-]).
    apply bail_if_Ok, negb_false_iff, bool_decide_eq_true in HB. subst root.
    destruct (txs_run_frame _ _ _ (proj1 (apply_txs_run _ _ _ _ _ ET))) as [HFr _].
    assert (EV : v2_of s1 = v2_of s) by (unfold v2_of; f_equal; apply HFr).
    exists s1, p, fees, m. split; [split|split].
    all: try assumption.
    + intros ->. exact HS.
    + unfold mmr_res in HM. change (v2_of (set_coins _ s1)) with (v2_of s1) in HM.
      cbn [set_coins st_chain_mmr] in HM.
      destruct (mmr_append _ _ _) as [x|e|]; try discriminate. injection HM as ->. eauto.
    + change (v2_of (set_coins _ s1)) with (v2_of s1). rewrite EV. unfold with_coinbase. rewrite EV. reflexivity.
    + reflexivity.
  - intros (s1 & p & fees & m & [L P T LD SG TX CB RT WK FR (pos & MM)] & -> & ->).
    rewrite L. cbn [mbind res_bind]. rewrite P. cbn [mbind res_bind]. rewrite T. cbn [mbind res_bind].
    rewrite LD. destruct (txs_run_frame _ _ _ (proj1 (apply_txs_run _ _ _ _ _ TX))) as [HFr _].
    assert (EV : v2_of s1 = v2_of s) by (unfold v2_of; f_equal; apply HFr).
    match goal with |- (let '(r, s0) := ?x in _) = _ => assert (EX : x = (Ok (),
      collect_garbage heights_order (v2_of s)
        (activate_v2 (advance batch (commit_count p) (future_mirstat batch s1) m (with_coinbase batch s1)))));
      [|rewrite EX; reflexivity] end.
    unfold apply_body. apply st_pure_bind. exists (). split; [destruct skip; auto|].
    apply st_bind_Ok. exists fees, s1. split; [exact TX|].
    apply st_pure_bind. exists (). split; [exact CB|].
    apply st_pure_bind. exists (b_state_root batch). split; [exact RT|].
    apply st_pure_bind. exists (). split; [rewrite bool_decide_true; reflexivity|].
    apply st_pure_bind. eexists. split; [reflexivity|].
    apply st_pure_bind. exists (). split; [exact WK|].
    apply st_bind_Ok. exists (), (with_coinbase batch s1). split; [apply add_coinbase_Ok; auto|].
    unfold finalize. apply st_pure_bind. exists (pos, m). split.
    + change (v2_of (with_coinbase batch s1)) with (v2_of s1). cbn [st_chain_mmr with_coinbase set_coins].
      rewrite MM. reflexivity.
    + unfold modify. cbn [snd]. do 2 f_equal. unfold with_coinbase, v2_of in *. cbn [set_coins st_height].
      exact EV.
Qed.

(** ** Garbage collection *)

Lemma delete_all_lookup (ks : list hash32) (c : hash32) : forall m : gmap hash32 Z,
  foldl (fun m k => delete k m) m ks !! c = if decide (c ∈ ks) then None else m !! c.
Proof.
  induction ks as [|k ks IH]; intros m; cbn [foldl]; [reflexivity|]. rewrite IH.
  destruct (decide (c ∈ ks)) as [Hc|Hc]; [rewrite decide_True by (right; exact Hc); reflexivity|].
  destruct (decide (c = k)) as [->|NE].
  - rewrite decide_True by left. apply lookup_delete_eq.
  - rewrite decide_False by (intros [->|?]%elem_of_cons; contradiction). apply lookup_delete_ne. congruence.
Qed.

Lemma remove_all_set v2 (ks : list hash32) : forall cs : A,
  sa_set (foldl (fun cs k => (sa_remove k v2 cs).2) cs ks) = sa_set cs ∖ list_to_set ks
  /\ (sa_wf v2 cs -> sa_wf v2 (foldl (fun cs k => (sa_remove k v2 cs).2) cs ks)).
Proof.
  induction ks as [|k ks IH]; intros cs; cbn [foldl].
  - split; [|auto]. cbn. apply leibniz_equiv. set_solver.
  - destruct (IH (sa_remove k v2 cs).2) as [E W]. split.
    + rewrite E, sa_remove_set. change (list_to_set (k :: ks)) with ({[k]} ∪ list_to_set ks : gset hash32).
      apply leibniz_equiv. set_solver.
    + intros Hw. apply W, sa_remove_wf, Hw.
Qed.

Abbreviation expired_of s :=
  (expired_keys heights_order (st_height s) (st_commitment_heights s) (st_expirations s)).

Lemma collect_garbage_eq v2 (s : State A) :
  exists cs hs es, collect_garbage heights_order v2 s = set_expirations es (set_commitments cs hs s)
  /\ sa_set cs = sa_set (st_commitments s) ∖ list_to_set (expired_of s)
  /\ (sa_wf v2 (st_commitments s) -> sa_wf v2 cs)
  /\ (forall c, hs !! c = if decide (c ∈ expired_of s) then None
                          else st_commitment_heights s !! c)
  /\ es = (if st_height s <? V2_ACTIVATION_HEIGHT + COMMITMENT_TTL then st_expirations s
           else delete (sat_sub (st_height s) (COMMITMENT_TTL + 1)) (st_expirations s))
  /\ (expired_of s = [] -> cs = st_commitments s).
Proof.
  destruct (remove_all_set v2 (expired_of s) (st_commitments s)) as [E W].
  unfold collect_garbage. set (ks := expired_of s) in *. cbv zeta.
  exists (foldl (fun cs k => (sa_remove k v2 cs).2) (st_commitments s) ks),
    (foldl (fun m k => delete k m) (st_commitment_heights s) ks),
    (if st_height s <? V2_ACTIVATION_HEIGHT + COMMITMENT_TTL then st_expirations s
     else delete (sat_sub (st_height s) (COMMITMENT_TTL + 1)) (st_expirations s)).
  split; [|split; [exact E|split; [exact W|split; [intros c; exact (delete_all_lookup ks c _)|split; [reflexivity|]]]]];
    [|intros ->; reflexivity].
  cbn [set_commitments st_height]. destruct (_ <? _); reflexivity.
Qed.

Lemma activate_v2_eq (s : State A) :
  exists c cs, activate_v2 s = set_coins c (set_commitments cs (st_commitment_heights s) s)
  /\ sa_set c = sa_set (st_coins s) /\ sa_set cs = sa_set (st_commitments s)
  /\ (st_height s = V2_ACTIVATION_HEIGHT -> sa_wf true c /\ sa_wf true cs)
  /\ (st_height s <> V2_ACTIVATION_HEIGHT -> c = st_coins s /\ cs = st_commitments s).
Proof.
  unfold activate_v2. destruct (Z.eqb_spec (st_height s) V2_ACTIVATION_HEIGHT) as [EH|EH].
  - do 2 eexists. split; [reflexivity|]. rewrite !sa_rebuild_set.
    split; [reflexivity|]. split; [reflexivity|]. split; [|congruence].
    intros _. split; apply sa_rebuild_wf.
  - exists (st_coins s), (st_commitments s). split; [destruct s; reflexivity|].
    split; [reflexivity|]. split; [reflexivity|]. split; [congruence|auto].
Qed.

(** ** The state after a block *)

Record block_result (batch : Batch) (s s1 s' : State A) (m : MerkleMountainRange) : Prop := mkBlockResult {
  br_height : st_height s' = wrap 64 (st_height s + 1);
  br_header : st_header_hash s' = ext_final_hash (b_extension batch);
  br_timestamp : st_timestamp s' = b_timestamp batch;
  br_mirstat : st_mirstat s' = future_mirstat batch s1;
  br_depth : st_depth s' = wrap 128 (st_depth s
    + block_weight (st_height s) (len (commits_of (b_transactions batch))) (b_target batch));
  br_target : st_target s' = st_target s;
  br_burned : st_burned_wots s' = st_burned_wots s;
  br_mmr : st_chain_mmr s' = m;
  br_coins : sa_set (st_coins s')
    = list_to_set (map coinbase_coin_id (b_coinbase batch)) ∪ sa_set (st_coins s1);
  br_commitments : sa_set (st_commitments s') = sa_set (st_commitments s1)
    ∖ list_to_set (expired_keys heights_order (wrap 64 (st_height s + 1)) (st_commitment_heights s1) (st_expirations s1));
  br_heights : forall c, st_commitment_heights s' !! c
    = if decide (c ∈ expired_keys heights_order (wrap 64 (st_height s + 1)) (st_commitment_heights s1) (st_expirations s1))
      then None else st_commitment_heights s1 !! c;
  br_expirations : st_expirations s'
    = (if wrap 64 (st_height s + 1) <? V2_ACTIVATION_HEIGHT + COMMITMENT_TTL then st_expirations s1
       else delete (sat_sub (wrap 64 (st_height s + 1)) (COMMITMENT_TTL + 1)) (st_expirations s1));
  br_coins_wf : sa_wf (v2_of s) (st_coins s) ->
    if wrap 64 (st_height s + 1) =? V2_ACTIVATION_HEIGHT
    then sa_wf true (st_coins s') else sa_wf (v2_of s) (st_coins s');
  br_commitments_wf : sa_wf (v2_of s) (st_commitments s) ->
    wrap 64 (st_height s + 1) <> V2_ACTIVATION_HEIGHT -> sa_wf (v2_of s) (st_commitments s');
  br_commitments_v2 : wrap 64 (st_height s + 1) = V2_ACTIVATION_HEIGHT ->
    expired_keys heights_order (wrap 64 (st_height s + 1)) (st_commitment_heights s1) (st_expirations s1) = [] ->
    sa_wf true (st_commitments s')
}.

Lemma accepted_run now batch prev pre skip s s1 p fees m :
  accepted now batch prev pre skip s s1 p fees m ->
  txs_run (b_transactions batch) s s1 /\ same_frame s s1 /\ wf_kept s s1
  /\ fees = sumZ (map fee (b_transactions batch)).
Proof.
  intros AC. destruct (apply_txs_run _ _ _ _ _ (ac_txs _ _ _ _ _ _ _ _ _ _ AC)) as [R ->].
  destruct (txs_run_frame _ _ _ R) as [F W]. auto.
Qed.

Lemma accepted_result now batch prev pre skip s s1 p fees m :
  accepted now batch prev pre skip s s1 p fees m ->
  block_result batch s s1
    (collect_garbage heights_order (v2_of s)
      (activate_v2 (advance batch (commit_count p) (future_mirstat batch s1) m (with_coinbase batch s1)))) m.
Proof.
  intros AC. destruct (accepted_run _ _ _ _ _ _ _ _ _ _ AC) as (R & (F1 & F2 & F3 & F4 & F5 & F6 & F7) & [W1 W2] & _).
  destruct (prepass_checks_spec _ _ (ac_prepass _ _ _ _ _ _ _ _ _ _ AC)) as (P1 & _).
  assert (EV : v2_of s1 = v2_of s) by (unfold v2_of; rewrite F3; reflexivity).
  set (s2 := advance _ _ _ _ _).
  destruct (activate_v2_eq s2) as (c & cs & EA & EA1 & EA2 & EA3 & EA4). rewrite EA.
  destruct (collect_garbage_eq (v2_of s) (set_coins c (set_commitments cs (st_commitment_heights s2) s2)))
    as (cs' & hs' & es' & EB & EB1 & EB2 & EB3 & EB4 & EB5).
  rewrite EB. clear EA EB. unfold s2, with_coinbase in *.
  cbn [set_expirations set_commitments set_coins advance st_height st_header_hash st_timestamp st_mirstat
    st_depth st_target st_burned_wots st_coins st_commitments st_commitment_heights st_chain_mmr
    st_expirations] in *.
  rewrite ?F3, ?F1, ?P1, ?EV in *.
  split; cbn [set_expirations set_commitments set_coins advance st_height st_header_hash st_timestamp st_mirstat
    st_depth st_target st_burned_wots st_coins st_commitments st_commitment_heights st_chain_mmr
    st_expirations]; try assumption; try reflexivity; try congruence.
  - rewrite EA1. apply insert_coins_set.
  - intros Hw. destruct (Z.eqb_spec (wrap 64 (st_height s + 1)) V2_ACTIVATION_HEIGHT) as [EH|EH].
    + apply EA3, EH.
    + rewrite (proj1 (EA4 EH)). apply insert_coins_wf, W1, Hw.
  - intros Hw EH. apply EB2. rewrite (proj2 (EA4 EH)). apply W2, Hw.
  - intros EH EX. rewrite (EB5 EX). apply EA3, EH.
Qed.

(** ** The state root *)

(** The root that a block commits to, on sets. *)
Definition state_commitment (height : Z) (coins commitments burned : gset hash32) (mmr : hash32)
    : hash32 :=
  let v2 := is_v2_at height in
  let r := hash_concat (hash_concat (smt_root v2 coins) (smt_root v2 commitments)) mmr in
  if V4_ACTIVATION_HEIGHT <=? height then hash_concat r (smt_root v2 burned) else r.

Lemma expected_state_root_sets (s : State A) ids root :
  sa_wf (v2_of s) (st_coins s) -> sa_wf (v2_of s) (st_commitments s) ->
  sa_wf (v2_of s) (st_burned_wots s) ->
  expected_state_root s ids = Ok root ->
  exists mmr, mmr_root (st_chain_mmr s) (v2_of s) = Ok mmr
  /\ root = state_commitment (st_height s) (list_to_set ids ∪ sa_set (st_coins s))
              (sa_set (st_commitments s)) (sa_set (st_burned_wots s)) mmr.
Proof.
  intros W1 W2 W3 E. unfold expected_state_root in E. apply res_bind_Ok in E as (mmr & E & [= <-]).
  unfold mmr_res in E. destruct (mmr_root _ _) as [x|e|]; try discriminate. injection E as ->.
  exists mmr. split; [reflexivity|]. unfold state_commitment. fold (v2_of s).
  rewrite !sa_root_set, insert_coins_set by (try apply insert_coins_wf; assumption).
  reflexivity.
Qed.

(** ** Absence of aborts *)

Lemma st_bind_safe {S E X Y} (m : ST S E X) (f : X -> ST S E Y) s :
  (m s).1 <> Panic -> (forall x s1, m s = (Ok x, s1) -> (f x s1).1 <> Panic) -> ((m ≫= f) s).1 <> Panic.
Proof.
  unfold mbind, st_bind. destruct (m s) as [[x|e|] s1]; cbn [fst]; intros HM HF; [|discriminate|congruence].
  apply (HF x s1). reflexivity.
Qed.

Lemma st_each_safe {S E X} (f : X -> ST S E ()) l : (forall x s, (f x s).1 <> Panic) ->
  forall s, (st_each f l s).1 <> Panic.
Proof.
  intros HF. induction l as [|x l IH]; intros s; cbn [st_each]; [discriminate|].
  apply st_bind_safe; [apply HF|]. intros _ s1 _. apply IH.
Qed.

Lemma no_sig_safe tx s : (apply_no_sig tx s).1 <> Panic.
Proof.
  assert (HR : forall (f : State A -> res TxError ()) (k : () -> ST (State A) TxError ()) s0,
    f s0 <> Panic -> (forall s1, (k () s1).1 <> Panic) -> ((reads f ≫= k) s0).1 <> Panic).
  { intros f k s0 H1 H2. apply st_bind_safe; [exact H1|]. intros [] s1 _. apply H2. }
  assert (HC : forall o s0, (create_output (A := A) o s0).1 <> Panic).
  { intros o s0. unfold create_output. destruct (output_coin_id o); [|discriminate].
    destruct (sa_insert _ _ _) as [[] c]; discriminate. }
  assert (HF : forall inputs outs salt s0,
    ((_ ← reads (fun s => check_all (check_coin s) inputs);
      _ ← modify (fun s => foldl remove_coin s (map input_coin_id inputs));
      _ ← st_each create_output outs; modify (absorb inputs outs salt)) s0).1 <> @Panic TxError ()).
  { intros inputs outs salt s0. apply HR.
    - apply check_all_safe. intros x. apply bail_if_safe.
    - intros s1. rewrite st_modify_bind. apply st_bind_safe; [apply st_each_safe, HC|]. discriminate. }
  destruct tx as [c n|inputs ws outs salt|inputs w outs salt]; cbn [apply_transaction_no_sig_check apply_transaction]; open_tx.
  - apply HR; [apply validate_commit_pow_safe|]. intros s1. apply st_bind_safe; [|discriminate].
    unfold insert_commitment. destruct (sa_insert _ _ _) as [[] x]; discriminate.
  - apply HR; [apply (structure_safe witnesses_size 2 (Reveal inputs ws outs salt)); lia|]. intros s1.
    apply HR; [apply check_commitment_safe|]. intros s2. rewrite st_modify_bind. apply HF.
  - apply HR; [apply (structure_safe witnesses_size 2 (Consolidate inputs w outs salt)); lia|]. intros s1.
    apply HR; [apply check_commitment_safe|]. intros s2. rewrite st_modify_bind. apply HF.
Qed.

Lemma apply_txs_safe txs : forall f s, (apply_txs fast_mining usize_bits witnesses_size txs f s).1 <> Panic.
Proof.
  induction txs as [|tx txs IH]; intros f s; cbn [apply_txs]; [discriminate|].
  apply st_bind_safe; [apply ok_or_safe|]. intros f1 s1 _. apply st_bind_safe; [|intros; apply IH].
  unfold lift_tx. pose proof (no_sig_safe tx s1) as HS.
  destruct (apply_no_sig tx s1) as [[[]|e|] s2]; try discriminate. contradiction.
Qed.

Lemma prepass_checks_safe txs : prepass_checks txs <> Panic.
Proof.
  assert (HP : forall p, prepass txs p <> Panic).
  { induction txs as [|tx txs IH]; intros p; cbn [prepass]; [discriminate|].
    apply bind_safe; [|intros; apply IH].
    destruct tx as [| |[|]]; repeat case_match; discriminate. }
  unfold prepass_checks. apply bind_safe; [apply HP|]. intros p _. repeat safe_step.
Qed.

Lemma verify_all_safe p txs (s : State A) : verify_all usize_bits p txs s <> Panic.
Proof.
  assert (HV : forall tx, verify_transaction_sigs usize_bits tx (st_height s) (st_commitments s) (in_block_commits p) <> Panic).
  { intros [c n|inputs ws outs salt|inputs w outs salt]; cbn [verify_transaction_sigs]; [discriminate|..].
    - apply bind_safe; [apply bail_if_safe|]. intros _ _. apply check_all_safe. intros x. apply bail_if_safe.
    - destruct inputs as [|i l]; [discriminate|]. apply bind_safe; [apply bail_if_safe|]. intros _ _.
      apply bind_safe; [|intros; apply bail_if_safe]. apply check_all_safe. intros x. apply bail_if_safe. }
  unfold verify_all. induction txs as [|tx txs IH]; cbn [check_all]; [discriminate|].
  apply bind_safe; [|intros; exact IH]. specialize (HV tx). unfold lift_res. case_match; congruence.
Qed.

Lemma check_coinbase_safe h f cbs : check_coinbase h f cbs <> Panic.
Proof.
  unfold check_coinbase. apply bind_safe; [apply ok_or_safe|]. intros a _.
  assert (H1 : forall seen, scan_coinbase seen cbs <> Panic).
  { induction cbs as [|cb cbs IH]; intros seen; cbn [scan_coinbase]; [discriminate|].
    apply bind_safe; [apply bail_if_safe|]. intros _ _. apply IH. }
  assert (H2 : forall t, coinbase_sum cbs t <> Panic).
  { clear H1. induction cbs as [|cb cbs IH]; intros t; cbn [coinbase_sum]; [discriminate|].
    repeat (apply bind_safe; [apply bail_if_safe|]; intros _ _).
    apply bind_safe; [apply ok_or_safe|]. intros u _. apply IH. }
  apply bind_safe; [apply H1|]. intros _ _. apply bind_safe; [apply H2|]. intros t _. apply bail_if_safe.
Qed.

(** A block never aborts on a state whose chain MMR has the layout of a range. *)
Lemma apply_batch_safe now batch prev pre skip s o xs : mmr_shape xs (st_chain_mmr s) ->
  (apply_block now batch prev pre skip (s, o)).1 <> Panic.
Proof.
  intros HM. unfold apply_batch_internal.
  match goal with |- (match ?x with _ => _ end).1 <> _ => assert (H1 : x <> Panic);
    [|destruct x as [p|e|]; [|discriminate|congruence]] end.
  { apply bind_safe; [unfold check_linkage; repeat safe_step|]. intros _ _.
    apply bind_safe; [apply prepass_checks_safe|]. intros p _.
    apply bind_safe; [apply validate_timestamp_safe|]. discriminate. }
  match goal with |- (match ?x with _ => _ end).1 <> _ => assert (H2 : x <> Panic);
    [unfold check_load; repeat safe_step|destruct x as [[]|e|]; [|discriminate|congruence]] end.
  match goal with |- (let '(r, s0) := ?x in _).1 <> _ => assert (H3 : x.1 <> Panic);
    [|destruct x as [r s1]; exact H3] end.
  unfold apply_body. apply st_bind_safe; [cbn [reads fst]; destruct skip; [discriminate|apply verify_all_safe]|].
  intros [] s0 [= _ <-]. apply st_bind_safe; [apply apply_txs_safe|]. intros fees s1 ET.
  assert (HM1 : mmr_shape xs (st_chain_mmr s1)).
  { destruct (txs_run_frame _ _ _ (proj1 (apply_txs_run _ _ _ _ _ ET))) as [(_ & _ & _ & _ & -> & _) _]. exact HM. }
  apply st_bind_safe; [apply check_coinbase_safe|]. intros _ s2 [= _ <-].
  apply st_bind_safe.
  { cbn [reads fst]. unfold expected_state_root. destruct (mmr_root_shape _ _ (v2_of s1) HM1) as [r ->]. discriminate. }
  intros root s2 [= _ <-]. apply st_bind_safe; [apply bail_if_safe|]. intros _ s2 [= _ <-].
  apply st_bind_safe; [discriminate|]. intros mi s2 [= _ <-].
  apply st_bind_safe.
  { cbn [reads fst]. unfold check_work, verify_extension. destruct pre; repeat safe_step. }
  intros _ s2 [= _ <-]. apply st_bind_safe.
  { apply st_each_safe. intros c s2. unfold add_coinbase. destruct (sa_insert _ _ _) as [[] ?]; discriminate. }
  intros [] s2 EC. apply add_coinbase_Ok in EC as [_ ->]. unfold finalize.
  apply st_bind_safe; [|discriminate]. cbn [reads fst set_coins st_chain_mmr].
  destruct (mmr_append_shape xs _ (ext_final_hash (b_extension batch)) (v2_of (set_coins (insert_coins (v2_of s1) (st_coins s1) (map coinbase_coin_id (b_coinbase batch))) s1)) HM1) as (m' & -> & _).
  discriminate.
Qed.

(** ** Headers *)

Lemma coinbase_fold (cbs : list CoinbaseOutput) : forall m : hash32,
  foldl (fun (m : hash32) c => hash_concat m (arr_list c)) m (map coinbase_coin_id cbs)
  = foldl (fun (m : hash32) cb => hash_concat m (coinbase_coin_id cb)) m cbs.
Proof. induction cbs as [|cb cbs IH]; intros m; [reflexivity|]. apply IH. Qed.

(** The header that is mined is the one [Batch::header] rebuilds. *)
Lemma future_mirstat_header now batch prev pre skip s s1 p fees m :
  accepted now batch prev pre skip s s1 p fees m -> b_state_root batch <> zero_arr 32 ->
  future_mirstat batch s1 = h_post_tx_mirstat (batch_header batch)
  /\ mining_target batch s1 = compute_header_hash (batch_header batch).
Proof.
  intros [L _ _ _ _ TX _ _ _ _ _] HR. unfold check_linkage in L. repeat ok_step.
  repeat match goal with X : negb _ = false |- _ => apply negb_false_iff, bool_decide_eq_true in X end.
  pose proof (proj1 (apply_txs_run _ _ _ _ _ TX)) as R.
  destruct (txs_run_fold _ _ _ R) as (EM & _). destruct (txs_run_frame _ _ _ R) as [EF _].
  assert (E1 : future_mirstat batch s1 = h_post_tx_mirstat (batch_header batch)).
  { unfold future_mirstat, batch_header. cbn [h_post_tx_mirstat].
    rewrite bool_decide_false by exact HR. rewrite coinbase_fold, EM. congruence. }
  split; [exact E1|]. unfold mining_target, compute_header_hash.
  cbn [h_prev_header_hash h_post_tx_mirstat h_state_root h_timestamp h_target]. rewrite E1.
  unfold batch_header. cbn [h_prev_header_hash h_post_tx_mirstat h_state_root h_timestamp h_target].
  do 2 f_equal. destruct EF as (_ & _ & _ & _ & _ & EH & _). congruence.
Qed.

End Effects.

(** * Properties *)

Section Properties.
Context `{Blake3}.
Context (fast_mining : bool) (usize_bits : Z).
Context (witnesses_size : list Witness -> option Z).
Context {A : Type} `{!SetAccumulator A} `{!SetAccumulatorLaws A}.
Context (heights_order : gmap hash32 Z -> list (hash32 * Z)).

(** C2: what an accepted block does to each field of the state.  With [txs] the
    transactions and [ids] the coinbase coin ids: the height advances by one, the
    header hash and timestamp become those of the block, the weight of the block
    is added to the depth, the target and the burned keys stay; the coin and
    commitment accumulators hold, as sets, what running the transactions in order
    gives, with the fresh coinbase coins added and the expired commitments
    dropped; the commitment heights lose exactly the expired commitments; the
    expiration index is that of the run, less the one height that has expired
    once the collection runs on its schedule; and the final hash is appended to
    the chain MMR.  If moreover the block names a state root (not the all-zero
    one, which [Batch::header] does not hash), the mirstat becomes the one of the
    header that [Batch::header] rebuilds, and the proof of work, or the caller's
    pre-verified hash, is about exactly that header. *)
Theorem apply_batch_effect now batch prev pre skip s o s' o' :
  apply_batch_internal fast_mining usize_bits witnesses_size heights_order now batch prev pre skip (s, o)
  = (Ok (), (s', o')) ->
  let txs := b_transactions batch in
  let h := st_height s in
  let ids := map coinbase_coin_id (b_coinbase batch) in
  let hs := foldl (heights_after h) (st_commitment_heights s) txs in
  let es := foldl (expirations_after h) (st_expirations s) txs in
  let expired := expired_keys heights_order (wrap 64 (h + 1)) hs es in
  (st_height s' = wrap 64 (h + 1)
   /\ st_header_hash s' = ext_final_hash (b_extension batch)
   /\ st_timestamp s' = b_timestamp batch
   /\ st_depth s' = wrap 128 (st_depth s + block_weight h (len (commits_of txs)) (b_target batch))
   /\ st_target s' = st_target s /\ st_burned_wots s' = st_burned_wots s)
  /\ sa_set (st_coins s') = list_to_set ids ∪ foldl coins_after (sa_set (st_coins s)) txs
  /\ (NoDup ids /\ forall x, x ∈ ids -> x ∉ foldl coins_after (sa_set (st_coins s)) txs)
  /\ sa_set (st_commitments s')
     = foldl (commitments_after h) (sa_set (st_commitments s)) txs ∖ list_to_set expired
  /\ (forall c, st_commitment_heights s' !! c = if decide (c ∈ expired) then None else hs !! c)
  /\ st_expirations s'
     = (if wrap 64 (h + 1) <? V2_ACTIVATION_HEIGHT + COMMITMENT_TTL then es
        else delete (sat_sub (wrap 64 (h + 1)) (COMMITMENT_TTL + 1)) es)
  /\ (exists pos, mmr_append (ext_final_hash (b_extension batch)) (v2_of s) (st_chain_mmr s)
                  = Ok (pos, st_chain_mmr s'))
  /\ (b_state_root batch <> zero_arr 32 ->
      st_mirstat s' = h_post_tx_mirstat (batch_header batch)
      /\ match pre with
         | None => verify_extension fast_mining (compute_header_hash (batch_header batch))
                     (b_extension batch) (st_target s) = Ok ()
         | Some x => x = compute_header_hash (batch_header batch)
         end).
Proof.
  intros E. cbv zeta. destruct (proj1 (apply_batch_Ok _ _ _ _ _ _ _ _ _ _ _ _ _) E) as (s1 & p & fees & m & AC & ES & _).
  destruct (accepted_run _ _ _ _ _ _ _ _ _ _ _ _ _ AC) as (R & (_ & _ & F3 & _ & F5 & _) & _ & _).
  pose proof (accepted_result _ _ _ heights_order _ _ _ _ _ _ _ _ _ _ AC) as BR. rewrite <- ES in BR.
  pose proof (future_mirstat_header _ _ _ _ _ _ _ _ _ _ _ _ _ AC) as HDR.
  destruct AC as [L P _ _ _ TX _ _ WK FR (pos & MM)].
  destruct (txs_run_fold _ _ _ _ _ R) as (_ & EC & ECM & EH & EE).
  destruct BR as [B1 B2 B3 B4 B5 B6 B7 B8 B9 B10 B11 B12 _ _ _].
  assert (ET : b_target batch = st_target s).
  { unfold check_linkage in L. repeat ok_step.
    repeat match goal with X : negb _ = false |- _ => apply negb_false_iff, bool_decide_eq_true in X end.
    assumption. }
  unfold v2_of in MM. rewrite F3, F5 in MM.
  rewrite EC in B9, FR. rewrite EH, EE in B10, B11. rewrite ECM in B10. rewrite EE in B12.
  split; [repeat split; auto|]. split; [exact B9|]. split; [exact FR|].
  split; [exact B10|]. split; [exact B11|]. split; [exact B12|]. split; [subst m; eauto|].
  intros HR. destruct (HDR HR) as [EF EG]. rewrite EF in B4. split; [exact B4|].
  unfold check_work in WK. rewrite EG in WK. destruct pre as [x|].
  - apply bail_if_Ok, negb_false_iff, bool_decide_eq_true in WK. auto.
  - rewrite <- ET. exact WK.
Qed.

(** C3: nothing is spent without authority.  A block whose signatures are checked
    lists its commits before its spends; every coin that leaves the coin set is
    an input of one of the block's spends, authorised by its script at the
    block's height, and that spend's commitment was in the state or is committed
    in this block. *)
Theorem apply_batch_authorised now batch prev pre s o s' o' :
  apply_batch_internal fast_mining usize_bits witnesses_size heights_order now batch prev pre false (s, o)
  = (Ok (), (s', o')) ->
  (exists k, Forall (fun tx => is_spend tx = false) (take k (b_transactions batch))
     /\ Forall (fun tx => is_spend tx = true) (drop k (b_transactions batch)))
  /\ forall x, x ∈ sa_set (st_coins s) -> x ∉ sa_set (st_coins s') ->
     exists tx, tx ∈ b_transactions batch /\ is_spend tx = true /\ x ∈ input_coin_ids tx
     /\ authorised usize_bits (st_height s) tx
     /\ (commitment_of tx ∈ sa_set (st_commitments s)
         \/ commitment_of tx ∈ commits_of (b_transactions batch)).
Proof.
  intros E. destruct (proj1 (apply_batch_Ok _ _ _ _ _ _ _ _ _ _ _ _ _) E) as (s1 & p & fees & m & AC & ES & _).
  pose proof (accepted_run _ _ _ _ _ _ _ _ _ _ _ _ _ AC) as (R & _).
  pose proof (br_coins _ _ _ _ _ _ (accepted_result _ _ _ heights_order _ _ _ _ _ _ _ _ _ _ AC)) as HC.
  rewrite <- ES in HC. destruct AC as [_ P _ _ SG _ _ _ _ _ _]. specialize (SG eq_refl).
  apply prepass_checks_spec in P as (_ & PC & _ & _ & PO). split; [exact PO|].
  intros x Hx Hx'.
  assert (Hx1 : x ∉ sa_set (st_coins s1)) by (rewrite HC in Hx'; intros ?; apply Hx'; apply elem_of_union; auto).
  unfold verify_all in SG. apply check_all_Ok in SG.
  destruct (txs_run_spent _ _ _ _ _ _ R Hx Hx1) as (tx & T1 & T2 & T3 & T4). exists tx. split; [exact T1|]. split; [exact T2|].
  split; [exact T3|]. rewrite Forall_forall in SG. specialize (SG tx T1).
  unfold lift_res in SG. destruct (verify_transaction_sigs _ _ _ _ _) as [[]|e|] eqn:EV; try discriminate.
  destruct (verify_sigs_Ok _ _ _ _ _ T2 EV) as [V1 V2]. rewrite PC, elem_of_list_to_set in V1.
  split; [|exact V1]. destruct tx as [|inputs ws outs salt|]; [discriminate| |exact V2].
  split; [|exact V2]. cbn [structure] in T4. eapply reveal_structure_lengths, T4.
Qed.

(** Fork choice does not depend on the order in which the two states are
    compared, and preferring the better of two states is associative: the winner
    among any three is the one of greatest depth, then of least mirstat.  Only
    states that agree on both can be told apart by the order. *)
Lemma choose_best_state_order (a b c : State A) :
  let key (s : State A) := (st_depth s, st_mirstat s) in
  let best := choose_best_state a b in
  (best = a \/ best = b)
  /\ st_depth best = Z.max (st_depth a) (st_depth b)
  /\ key (choose_best_state a b) = key (choose_best_state b a)
  /\ key (choose_best_state a (choose_best_state b c)) = key (choose_best_state (choose_best_state a b) c)
  /\ (st_depth a = st_depth b -> be_val (st_mirstat best) = Z.min (be_val (st_mirstat a)) (be_val (st_mirstat b))).
Proof.
  assert (BL : forall x y : State A, bytes_ltb (st_mirstat x) (st_mirstat y)
    = (be_val (st_mirstat x) <? be_val (st_mirstat y)))
    by (intros; apply bytes_ltb_be_val; rewrite !arr_length; reflexivity).
  assert (EQ : forall x y : State A, be_val (st_mirstat x) = be_val (st_mirstat y) -> st_mirstat x = st_mirstat y)
    by (intros x y; apply arr_be_val_inj).
  cbv zeta. unfold choose_best_state. rewrite ?BL. split; [|split; [|split; [|split]]].
  - repeat case_match; auto.
  - repeat case_match; lia.
  - repeat case_match; try reflexivity; try lia; f_equal; try lia; apply EQ; lia.
  - repeat (case_match; rewrite ?BL in * ); try reflexivity; try lia; f_equal; try lia; apply EQ; lia.
  - intros ED. repeat case_match; lia.
Qed.

End Properties.

(** * Concrete inputs

    The first block of a chain in which every hash is the same: its values,
    checks and state root can then be computed. *)

Definition one_hash : hash32 := arr_of 32 [x01].
Definition const_blake3 : Blake3 := fun _ => one_hash.

Definition demo_block : Batch := {|
  b_prev_mirstat := one_hash; b_transactions := []; b_extension := {| ext_nonce := 0; ext_final_hash := zero_arr 32 |};
  b_coinbase := [{| cb_address := zero_arr 32; cb_value := INITIAL_REWARD; cb_salt := zero_arr 32 |}];
  b_timestamp := BITCOIN_BLOCK_TIME + 60; b_target := GENESIS_TARGET; b_state_root := one_hash;
  b_prev_header_hash := one_hash
|}.

Definition demo_heights (m : gmap hash32 Z) : list (hash32 * Z) := map_to_list m.

Lemma demo_heights_ok m : demo_heights m ≡ₚ map_to_list m.
Proof. reflexivity. Qed.

#[local] Instance demo_laws : @SetAccumulatorLaws (gset hash32) const_blake3 (@demo_acc const_blake3) :=
  @set_accumulator_laws const_blake3.

Section Demo.
#[local] Existing Instance const_blake3.
#[local] Existing Instance demo_acc.

Lemma demo_block_Ok skip o : exists s' o',
  apply_batch_internal false 64 demo_size demo_heights BITCOIN_BLOCK_TIME demo_block [] (Some one_hash) skip
    (genesis (A := gset hash32), o) = (Ok (), (s', o')).
Proof.
  do 2 eexists. apply (proj2 (apply_batch_Ok _ _ _ _ _ _ _ _ _ _ _ _ _)).
  exists genesis, (mkPrepass false ∅ 0 0 ∅), 0, (mkMmr [zero_arr 32] 1).
  split; [|split; reflexivity]. split; try reflexivity.
  - split; [apply NoDup_singleton|]. intros x _. apply not_elem_of_empty.
  - exists 0%nat. reflexivity.
Qed.

End Demo.

Lemma apply_batch_effect_witness :
  let H := const_blake3 in
  exists s' : State (gset hash32), st_height s' = 1 /\ st_mirstat s' = h_post_tx_mirstat (batch_header demo_block)
  /\ st_depth s' = block_weight 0 0 GENESIS_TARGET.
Proof.
  intros H. destruct (demo_block_Ok true ∅) as (s' & o' & E). exists s'.
  destruct (@apply_batch_effect const_blake3 false 64 demo_size _ demo_acc demo_laws demo_heights _ demo_block
    _ _ _ _ _ _ _ E) as ((E1 & _ & _ & E5 & _) & _ & _ & _ & _ & _ & _ & HR).
  split; [exact E1|]. split; [exact (proj1 (HR ltac:(discriminate)))|]. rewrite E5. vm_compute. reflexivity.
Defined.

(** A block that spends a coin, with the change of the spend and two coinbase coins. *)
Section Spend.
#[local] Existing Instance tail_blake3.
#[local] Instance spend_acc : SetAccumulator (gset hash32) := set_accumulator.
#[local] Instance spend_laws : SetAccumulatorLaws (gset hash32) := set_accumulator_laws.

Definition spend_tx : Transaction := demo_tx [demo_output (arr_of 32 [x03])].
Definition spend_before : State (gset hash32) := demo_state spend_tx 6.
Definition spend_after : State (gset hash32) := (apply_txs false 64 demo_size [spend_tx] 0 spend_before).2.
Definition spend_coinbase : list CoinbaseOutput :=
  [{| cb_address := zero_arr 32; cb_value := INITIAL_REWARD; cb_salt := arr_of 32 [x01] |};
   {| cb_address := zero_arr 32; cb_value := 2; cb_salt := arr_of 32 [x02] |}].
Definition spend_root : hash32 :=
  match expected_state_root spend_after (map coinbase_coin_id spend_coinbase) with Ok r => r | _ => zero_arr 32 end.
Definition spend_block : Batch := {|
  b_prev_mirstat := zero_arr 32; b_transactions := [spend_tx]; b_extension := {| ext_nonce := 0; ext_final_hash := zero_arr 32 |};
  b_coinbase := spend_coinbase; b_timestamp := 60; b_target := zero_arr 32; b_state_root := spend_root;
  b_prev_header_hash := zero_arr 32
|}.

Lemma spend_root_Ok : expected_state_root spend_after (map coinbase_coin_id spend_coinbase) = Ok spend_root.
Proof.
  unfold spend_root. assert (E : exists r, expected_state_root spend_after (map coinbase_coin_id spend_coinbase) = Ok r).
  { unfold expected_state_root. assert (EM : mmr_root (st_chain_mmr spend_after) (v2_of spend_after) = Ok (zero_arr 32)) by (vm_compute; reflexivity).
    rewrite EM. eexists. reflexivity. }
  destruct E as [r ->]. reflexivity.
Qed.

Lemma spend_accepted : exists p, accepted false 64 demo_size 60 spend_block [] (Some (mining_target spend_block spend_after)) false
  spend_before spend_after p 2 (mkMmr [zero_arr 32] 1).
Proof.
  destruct (prepass_checks (b_transactions spend_block)) as [p| |] eqn:EP; [|vm_compute in EP; discriminate..]. exists p.
  constructor; [vm_compute; reflexivity|exact EP|vm_compute; reflexivity|vm_compute; reflexivity| | |vm_compute; reflexivity|exact spend_root_Ok| | |].
  - intros _. assert (Ep : p = match prepass_checks (b_transactions spend_block) with Ok p => p | _ => p end) by (rewrite EP; reflexivity).
    rewrite Ep. vm_compute. reflexivity.
  - assert (E1 : (apply_txs false 64 demo_size [spend_tx] 0 spend_before).1 = Ok 2) by (vm_compute; reflexivity).
    unfold spend_after. change (b_transactions spend_block) with [spend_tx]. revert E1.
    destruct (apply_txs false 64 demo_size [spend_tx] 0 spend_before) as [r s1]. cbn. intros ->. reflexivity.
  - unfold check_work. rewrite bool_decide_true by reflexivity. reflexivity.
  - split; [eapply bool_decide_eq_true_1; vm_compute; reflexivity|].
    assert (HF : Forall (fun x => (bool_decide (x ∉ sa_set (st_coins spend_after))) = true) (map coinbase_coin_id spend_coinbase)).
    { repeat constructor; vm_compute; reflexivity. }
    rewrite Forall_forall in HF. intros x Hx. exact (proj1 (bool_decide_eq_true _) (HF x Hx)).
  - exists 0%nat. vm_compute. reflexivity.
Qed.

(** The block spends the coin: it is gone afterwards. *)
Lemma spend_block_Ok : exists s' o', apply_batch_internal false 64 demo_size demo_heights 60 spend_block []
    (Some (mining_target spend_block spend_after)) false (spend_before, ∅) = (Ok (), (s', o'))
  /\ input_coin_id demo_input ∉ sa_set (st_coins s').
Proof.
  destruct spend_accepted as [p AC]. do 2 eexists. split.
  - apply (proj2 (apply_batch_Ok _ _ _ _ _ _ _ _ _ _ _ _ _)). exists spend_after, p, 2, (mkMmr [zero_arr 32] 1).
    split; [exact AC|split; reflexivity].
  - rewrite (br_coins _ _ _ _ _ _ (accepted_result _ _ _ demo_heights _ _ _ _ _ _ _ _ _ _ AC)).
    eapply bool_decide_eq_true_1. vm_compute. reflexivity.
Qed.
End Spend.

Lemma apply_batch_authorised_witness :
  let H := tail_blake3 in
  exists (s' : State (gset hash32)) o', @apply_batch_internal H false 64 demo_size _ spend_acc demo_heights
    60 spend_block [] (Some (mining_target spend_block spend_after)) false (spend_before, ∅) = (Ok (), (s', o'))
  /\ (@input_coin_id H demo_input ∈ st_coins spend_before) /\ (@input_coin_id H demo_input ∉ st_coins s')
  /\ exists tx, tx ∈ b_transactions spend_block /\ is_spend tx = true /\ (@input_coin_id H demo_input ∈ @input_coin_ids H tx)
     /\ @authorised H 64 6 tx.
Proof.
  intros H. destruct spend_block_Ok as (s' & o' & E & HN). exists s', o'. split; [exact E|].
  assert (HI : @input_coin_id H demo_input ∈ st_coins spend_before) by (apply elem_of_singleton; reflexivity).
  split; [exact HI|]. split; [exact HN|].
  destruct (@apply_batch_authorised H false 64 demo_size _ spend_acc spend_laws demo_heights _ spend_block
    _ _ _ _ _ _ E) as [_ HX].
  destruct (HX _ HI HN) as (tx & T1 & T2 & T3 & T4 & _). exists tx. split; [exact T1|]. split; [exact T2|]. split; [exact T3|exact T4].
Defined.
