(* ===== verification/Chain.v ===== *)
(** Chains of blocks: the states reachable from [State::genesis] by
    [apply_batch_*] followed by [state.target = adjust_difficulty(&state)], the
    replay of stored blocks ([Syncer::rebuild_state_to] of [src/sync.rs]), and the
    invariants of every reachable state. *)
From S2P Require Import Prelude Types Wots Mss Mmr Smt Transaction Difficulty State.

#[local] Open Scope Z_scope.

Definition DIFFICULTY_LOOKBACK : nat := 60.

Definition set_target {A} (t : hash32) (s : State A) : State A :=
  mkState (st_mirstat s) (st_coins s) (st_commitments s) (st_depth s) t (st_height s)
    (st_timestamp s) (st_commitment_heights s) (st_expirations s) (st_chain_mmr s)
    (st_header_hash s) (st_burned_wots s).

(** [state.target = adjust_difficulty(&state)]. *)
Definition retarget {A} (s : State A) : State A := set_target (adjust_difficulty s) s.

Section Chains.
Context `{Blake3}.
Context (fast_mining : bool) (usize_bits : Z).
Context (witnesses_size : list Witness -> option Z).
Context {A : Type} `{!SetAccumulator A}.
Context (heights_order : gmap hash32 Z -> list (hash32 * Z)).

Abbreviation apply_block := (apply_batch_internal fast_mining usize_bits witnesses_size heights_order).

(** ** Replay from disk *)

Inductive RebuildError : Type :=
  | StorageError
  | MissingBatch (h : Z)
  | BatchError_ (e : BatchError).

(** [storage.load_batch] is the parameter [load]; [clock h] is the time at which
    the block of height [h] is replayed. *)
Context (load : Z -> res RebuildError (option Batch)) (clock : Z -> Z).

(** [push_back], then [pop_front] when the window is exceeded. *)
Definition push_recent (ts : Z) (recent : list Z) : list Z :=
  let recent := recent ++ [ts] in
  if Nat.ltb DIFFICULTY_LOOKBACK (length recent) then tail recent else recent.

Fixpoint rebuild_loop (n : nat) (h : Z) (state : State A) (recent_headers : list Z)
    : res RebuildError (State A) :=
  match n with
  | O => Ok state
  | S n =>
      stored ← load h;
      batch ← ok_or (MissingBatch h) stored;
      match apply_batch fast_mining usize_bits witnesses_size heights_order (clock h) batch
              recent_headers (state, ∅) with
      | (Ok _, (state, _)) =>
          rebuild_loop n (h + 1) (retarget state) (push_recent (b_timestamp batch) recent_headers)
      | (Err e, _) => Err (BatchError_ e)
      | (Panic, _) => Panic
      end
  end.

Definition rebuild_state_to (target : nat) : res RebuildError (State A) :=
  rebuild_loop target 0 genesis [].

(** ** Reachable states *)

Inductive chain : list Batch -> State A -> Prop :=
  | chain_genesis : chain [] genesis
  | chain_block bs s now batch prev pre skip o s' o' :
      chain bs s ->
      apply_block now batch prev pre skip (s, o) = (Ok (), (s', o')) ->
      chain (bs ++ [batch]) (retarget s').

Lemma rebuild_loop_chain n : forall h bs s recent s',
  chain bs s -> rebuild_loop n h s recent = Ok s' ->
  exists bs', chain (bs ++ bs') s' /\ length bs' = n
  /\ forall i b, bs' !! i = Some b -> load (h + Z.of_nat i) = Ok (Some b).
Proof.
  induction n as [|n IH]; intros h bs s recent s' HC E; cbn [rebuild_loop] in E.
  - injection E as <-. exists []. rewrite app_nil_r. split; [exact HC|]. split; [reflexivity|].
    intros i b Hb. discriminate Hb.
  - apply res_bind_Ok in E as (stored & EL & E). apply res_bind_Ok in E as (batch & ES & E).
    apply ok_or_Ok in ES. subst stored.
    destruct (apply_batch _ _ _ _ _ _ _ _) as [[[]|e|] [s1 o1]] eqn:EA; try discriminate.
    destruct (IH _ _ _ _ _ (chain_block _ _ _ _ _ _ _ _ _ _ HC EA) E) as (bs' & C' & L' & F').
    exists (batch :: bs'). rewrite <- app_assoc in C'. split; [exact C'|].
    split; [cbn; lia|]. intros [|i] b Hb.
    + injection Hb as <-. rewrite Z.add_0_r. exact EL.
    + cbn in Hb. replace (h + Z.of_nat (S i)) with (h + 1 + Z.of_nat i) by lia. apply F', Hb.
Qed.

End Chains.

(** * The commitment index *)

(** Commitment set, heights and expiration index at height [H], with commitments
    recorded below [M]: the heights index exactly the live commitments, every live
    commitment is listed under its height, and none is older than its lifetime. *)
Definition commit_inv (H M : Z) (C : gset hash32) (hs : gmap hash32 Z) (es : gmap Z (list hash32)) : Prop :=
  (forall c, c ∈ C <-> is_Some (hs !! c))
  /\ forall c h, hs !! c = Some h ->
     0 <= h < M /\ H - h <= COMMITMENT_TTL /\ c ∈ default [] (es !! h).

Section CommitIndex.
Context `{Blake3}.

(** The invariant only relaxes when commitments of height [h] may follow. *)
Lemma commit_inv_mono h C hs es : commit_inv h h C hs es -> commit_inv h (h + 1) C hs es.
Proof.
  intros [J1 J2]. split; [exact J1|]. intros c k E. destruct (J2 c k E) as (? & ? & ?). split; [lia|auto].
Qed.

Lemma commit_inv_tx h C hs es tx : 0 <= h ->
  commit_inv h (h + 1) C hs es ->
  commit_inv h (h + 1) (commitments_after h C tx) (heights_after h hs tx) (expirations_after h es tx).
Proof.
  intros Hh [I1 I2]. assert (HD : forall k, commit_inv h (h + 1) (C ∖ {[k]}) (delete k hs) es).
  { intros k. split.
    - intros c. rewrite elem_of_difference, elem_of_singleton, I1.
      destruct (decide (c = k)) as [->|NE].
      + rewrite lookup_delete_eq. split; [tauto|]. intros [? ?]. discriminate.
      + rewrite lookup_delete_ne by congruence. tauto.
    - intros c h0 E. apply lookup_delete_Some in E as [_ E]. apply I2, E. }
  destruct tx as [c n|inputs ws outs salt|inputs w outs salt];
    cbn [commitments_after heights_after expirations_after];
    [|destruct (_ <? _); [apply HD|split; assumption]..].
  split.
  - intros x. rewrite elem_of_union, elem_of_singleton, I1. destruct (decide (x = c)) as [->|NE].
    + rewrite lookup_insert_eq. split; [eauto|auto].
    + rewrite lookup_insert_ne by congruence. tauto.
  - intros x h0 E. apply lookup_insert_Some in E as [[<- <-]|[NE E]].
    + rewrite lookup_insert_eq. cbn [default from_option id]. unfold COMMITMENT_TTL.
      split; [lia|]. split; [lia|]. apply elem_of_app. right. left.
    + destruct (I2 x h0 E) as (J1 & J2 & J3). split; [exact J1|]. split; [exact J2|].
      destruct (decide (h0 = h)) as [->|NH].
      * rewrite lookup_insert_eq. cbn [default from_option id]. apply elem_of_app. left. exact J3.
      * rewrite lookup_insert_ne by congruence. exact J3.
Qed.

(** The index after a block lists its commits, in order, under its height. *)
Lemma expirations_after_txs h txs k : forall es,
  default [] (foldl (expirations_after h) es txs !! k)
  = default [] (es !! k) ++ (if decide (k = h) then commits_of txs else []).
Proof.
  induction txs as [|tx txs IH]; intros es.
  - cbn. case_decide; rewrite app_nil_r; reflexivity.
  - cbn [foldl]. rewrite IH. destruct tx as [c n|inputs ws outs salt|inputs w outs salt];
      cbn [expirations_after]; [|reflexivity..].
    case_decide as E; [subst k|rewrite lookup_insert_ne by congruence; reflexivity].
    rewrite lookup_insert_eq. cbn [default from_option id]. rewrite <- app_assoc. reflexivity.
Qed.

Lemma commit_inv_txs h txs : 0 <= h -> forall C hs es, commit_inv h (h + 1) C hs es ->
  commit_inv h (h + 1) (foldl (commitments_after h) C txs) (foldl (heights_after h) hs txs)
    (foldl (expirations_after h) es txs).
Proof.
  intros Hh. induction txs as [|tx txs IH]; intros C hs es I; [exact I|]. cbn [foldl].
  apply IH, commit_inv_tx; assumption.
Qed.

Context (heights_order : gmap hash32 Z -> list (hash32 * Z)).
Context (heights_order_ok : forall m, heights_order m ≡ₚ map_to_list m).

(** The collection after the height has advanced drops every commitment that is
    too old, and only commitments listed as such. *)
Lemma expired_old h C hs es c h0 : 0 <= h -> commit_inv h (h + 1) C hs es -> hs !! c = Some h0 ->
  h + 1 - h0 > COMMITMENT_TTL -> c ∈ expired_keys heights_order (h + 1) hs es.
Proof.
  intros Hh [I1 I2] E HO. destruct (I2 c h0 E) as (J1 & J2 & J3). unfold expired_keys, sat_sub.
  destruct (_ <? _).
  - apply list_elem_of_fmap. exists (c, h0). split; [reflexivity|]. apply list_elem_of_filter.
    split; [cbn [snd]; lia|]. rewrite heights_order_ok. apply elem_of_map_to_list, E.
  - replace (Z.max 0 (h + 1 - (COMMITMENT_TTL + 1))) with h0 by lia. exact J3.
Qed.

Lemma commit_inv_collect h C hs es hs' : 0 <= h -> commit_inv h (h + 1) C hs es ->
  let ex := expired_keys heights_order (h + 1) hs es in
  (forall c, hs' !! c = if decide (c ∈ ex) then None else hs !! c) ->
  commit_inv (h + 1) (h + 1) (C ∖ list_to_set ex) hs'
    (if h + 1 <? V2_ACTIVATION_HEIGHT + COMMITMENT_TTL then es
     else delete (sat_sub (h + 1) (COMMITMENT_TTL + 1)) es).
Proof.
  intros Hh I ex HE. pose proof I as [I1 I2]. split.
  - intros c. rewrite elem_of_difference, elem_of_list_to_set, I1, HE. case_decide as HD.
    + split; [tauto|]. intros [? ?]. discriminate.
    + tauto.
  - intros c h0 E. rewrite HE in E. case_decide as HD; [discriminate|].
    destruct (I2 c h0 E) as (J1 & J2 & J3).
    assert (HA : h + 1 - h0 <= COMMITMENT_TTL).
    { destruct (Z.leb_spec (h + 1 - h0) COMMITMENT_TTL) as [|HG]; [assumption|]. exfalso.
      apply HD. eapply expired_old; try eassumption. lia. }
    split; [lia|]. split; [exact HA|].
    destruct (Z.ltb_spec (h + 1) (V2_ACTIVATION_HEIGHT + COMMITMENT_TTL)); [exact J3|].
    rewrite lookup_delete_ne by (unfold sat_sub, V2_ACTIVATION_HEIGHT, COMMITMENT_TTL in *; lia). exact J3.
Qed.

End CommitIndex.

(** * Invariants of every reachable state *)

Section Invariant.
Context `{Blake3}.
Context (fast_mining : bool) (usize_bits : Z).
Context (witnesses_size : list Witness -> option Z).
Context {A : Type} `{!SetAccumulator A} `{!SetAccumulatorLaws A}.
Context (heights_order : gmap hash32 Z -> list (hash32 * Z)).
Context (heights_order_ok : forall m, heights_order m ≡ₚ map_to_list m).

Definition final_hash (b : Batch) : hash32 := ext_final_hash (b_extension b).

Record chain_inv (bs : list Batch) (s : State A) : Prop := mkChainInv {
  ci_height : st_height s = Z.of_nat (length bs);
  ci_mmr : mmr_shape (map final_hash bs) (st_chain_mmr s);
  ci_burned : st_burned_wots s = sa_new;
  ci_coins_wf : sa_wf (v2_of s) (st_coins s);
  ci_commitments_wf : st_height s < V2_ACTIVATION_HEIGHT -> sa_wf false (st_commitments s);
  ci_commit : commit_inv (st_height s) (st_height s) (sa_set (st_commitments s)) (st_commitment_heights s)
                (st_expirations s);
  ci_header : match last bs with
              | Some b => st_header_hash s = final_hash b /\ st_timestamp s = b_timestamp b
                          /\ st_target s = calculate_target (st_height s) (b_timestamp b)
              | None => st_target s = GENESIS_TARGET
              end
}.

Lemma genesis_inv : chain_inv [] genesis.
Proof.
  split; try reflexivity.
  - apply mmr_new_shape.
  - apply sa_new_wf.
  - intros _. apply sa_new_wf.
  - split.
    + intros c. cbn [genesis st_commitments st_commitment_heights]. rewrite sa_new_set, lookup_empty.
      split; [set_solver|]. intros [? ?]. discriminate.
    + intros c h E. cbn [genesis st_commitment_heights] in E. rewrite lookup_empty in E. discriminate.
Qed.

Lemma is_v2_at_next h : h + 1 <> V2_ACTIVATION_HEIGHT -> is_v2_at (h + 1) = is_v2_at h.
Proof. unfold is_v2_at. intros HN. destruct (Z.leb_spec V2_ACTIVATION_HEIGHT h), (Z.leb_spec V2_ACTIVATION_HEIGHT (h + 1)); lia. Qed.

Lemma chain_inv_step now batch prev pre skip bs s s1 p fees m :
  Z.of_nat (length bs) + 1 < 2 ^ 64 ->
  chain_inv bs s ->
  accepted fast_mining usize_bits witnesses_size now batch prev pre skip s s1 p fees m ->
  forall s', block_result heights_order batch s s1 s' m -> chain_inv (bs ++ [batch]) (retarget s').
Proof.
  intros HB I AC s' BR.
  destruct (accepted_run _ _ _ _ _ _ _ _ _ _ _ _ _ AC) as (R & (F1 & F2 & F3 & F4 & F5 & F6 & F7) & _ & _).
  destruct (txs_run_fold _ _ _ _ _ R) as (_ & _ & EC & EH & EE).
  destruct I as [I1 I2 I3 I4 I5 I6 I7]. destruct BR as [B1 B2 B3 B4 B5 B6 B7 B8 B9 B10 B11 B12 B13 B14 _].
  assert (HW : wrap 64 (st_height s + 1) = st_height s + 1) by (unfold wrap; apply Z.mod_small; lia).
  rewrite HW in *. assert (H0 : 0 <= st_height s) by lia.
  assert (HL : length (bs ++ [batch]) = S (length bs)) by (rewrite length_app; cbn; lia).
  split; unfold retarget, set_target, v2_of;
    cbn [st_height st_chain_mmr st_burned_wots st_coins st_commitments st_commitment_heights st_expirations
      st_header_hash st_timestamp st_target].
  - rewrite HL. lia.
  - destruct AC as [_ _ _ _ _ _ _ _ _ _ (pos & MM)]. rewrite map_app, B8. cbn [map].
    rewrite F5 in MM. destruct (mmr_append_shape _ _ (final_hash batch) (v2_of s1) I2) as (m' & EM & SM).
    unfold final_hash at 1 in EM. rewrite MM in EM. injection EM as _ ->. exact SM.
  - congruence.
  - specialize (B13 I4). rewrite B1. destruct (Z.eqb_spec (st_height s + 1) V2_ACTIVATION_HEIGHT) as [EQ|NE].
    + rewrite EQ. exact B13.
    + rewrite is_v2_at_next by exact NE. exact B13.
  - intros HV. rewrite B1 in HV. assert (EF : v2_of s = false) by (unfold v2_of, is_v2_at; apply Z.leb_gt; lia).
    rewrite <- EF. apply B14; [rewrite EF; apply I5; lia|lia].
  - rewrite B1, B10, B12. apply commit_inv_collect; [exact heights_order_ok|exact H0| |exact B11].
    rewrite EC, EH, EE. apply commit_inv_txs; [exact H0|]. apply commit_inv_mono, I6.
  - rewrite last_snoc. split; [exact B2|]. split; [exact B3|].
    unfold adjust_difficulty. rewrite B3. reflexivity.
Qed.

Abbreviation Chain := (chain fast_mining usize_bits witnesses_size heights_order).

Lemma chain_chain_inv bs s : Z.of_nat (length bs) < 2 ^ 64 -> Chain bs s -> chain_inv bs s.
Proof.
  intros HB HC. induction HC as [|bs s now batch prev pre skip o s' o' HC IH E]; [apply genesis_inv|].
  rewrite length_app in HB. cbn in HB.
  destruct (proj1 (apply_batch_Ok _ _ _ _ _ _ _ _ _ _ _ _ _) E) as (s1 & p & fees & m & AC & ES & _).
  eapply chain_inv_step; [|apply IH; lia|exact AC|]; [lia|].
  rewrite ES. eapply accepted_result, AC.
Qed.

End Invariant.

(** * Properties *)

Section Properties.
Context `{Blake3}.
Context (fast_mining : bool) (usize_bits : Z).
Context (witnesses_size : list Witness -> option Z).
Context {A : Type} `{!SetAccumulator A} `{!SetAccumulatorLaws A}.
Context (heights_order : gmap hash32 Z -> list (hash32 * Z)).

Abbreviation Chain := (chain fast_mining usize_bits witnesses_size heights_order).

(** The commits of the block of height [h]. *)
Definition commits_at (bs : list Batch) (h : Z) : list hash32 :=
  default [] (b ← bs !! Z.to_nat h; Some (commits_of (b_transactions b))).

(** The height [h] has been collected at height [H]: the collection removes one
    height per block, from the block of height [V2_ACTIVATION_HEIGHT + COMMITMENT_TTL]
    on. *)
Definition collected (H h : Z) : Prop := V2_ACTIVATION_HEIGHT - 1 <= h /\ h + COMMITMENT_TTL < H.

#[local] Instance collected_dec H0 h : Decision (collected H0 h).
Proof. unfold collected. apply _. Defined.

Lemma expirations_exact bs s :
  (forall m, heights_order m ≡ₚ map_to_list m) ->
  Z.of_nat (length bs) < 2 ^ 64 -> chain fast_mining usize_bits witnesses_size heights_order bs s ->
  forall h, 0 <= h -> default [] (st_expirations s !! h)
    = if decide (collected (st_height s) h) then [] else commits_at bs h.
Proof.
  intros HO HB HC. induction HC as [|bs s now batch prev pre skip o s' o' HC IH E]; intros h Hh.
  { unfold commits_at. rewrite lookup_nil. cbn. case_decide; reflexivity. }
  rewrite length_app in HB. cbn in HB.
  assert (HB' : Z.of_nat (length bs) < 2 ^ 64) by lia.
  pose proof (chain_chain_inv _ _ _ _ HO _ _ HB' HC) as I. pose proof (ci_height _ _ I) as EL. specialize (IH HB').
  destruct (proj1 (apply_batch_Ok _ _ _ _ _ _ _ _ _ _ _ _ _) E) as (s1 & p & fees & m & AC & ES & _).
  destruct (accepted_run _ _ _ _ _ _ _ _ _ _ _ _ _ AC) as (R & _).
  pose proof (accepted_result _ _ _ heights_order _ _ _ _ _ _ _ _ _ _ AC) as BR. rewrite <- ES in BR.
  destruct (txs_run_fold _ _ _ _ _ R) as (_ & _ & _ & _ & EE).
  pose proof (br_expirations _ _ _ _ _ _ BR) as BE. pose proof (br_height _ _ _ _ _ _ BR) as BH.
  rewrite wrap_id in BE, BH by lia.
  cbn [retarget set_target st_expirations st_height]. rewrite BE, BH.
  assert (EX : default [] (st_expirations s1 !! h)
    = if decide (collected (st_height s) h) then [] else commits_at (bs ++ [batch]) h).
  { rewrite EE, expirations_after_txs, IH by exact Hh. unfold commits_at.
    assert (HX : Z.to_nat h = length bs <-> h = st_height s) by lia.
    destruct (decide (h = st_height s)) as [->|NE].
    - rewrite !decide_False by (unfold collected, COMMITMENT_TTL; lia).
      rewrite EL, Nat2Z.id, lookup_ge_None_2, list_lookup_middle by reflexivity || lia. reflexivity.
    - rewrite app_nil_r. case_decide; [reflexivity|]. f_equal. f_equal.
      destruct (decide (Z.to_nat h < length bs)%nat) as [HL|HL]; [rewrite lookup_app_l by lia; reflexivity|].
      rewrite !lookup_ge_None_2; [reflexivity| |lia]. rewrite length_app. cbn. lia. }
  destruct (Z.ltb_spec (st_height s + 1) (V2_ACTIVATION_HEIGHT + COMMITMENT_TTL)) as [HV|HV].
  - rewrite EX. unfold collected, COMMITMENT_TTL in *. rewrite !decide_False by lia. reflexivity.
  - destruct (decide (h = st_height s - COMMITMENT_TTL)) as [->|NE].
    + rewrite decide_True by (unfold collected, COMMITMENT_TTL in *; lia).
      replace (sat_sub (st_height s + 1) (COMMITMENT_TTL + 1)) with (st_height s - COMMITMENT_TTL)
        by (unfold sat_sub, V2_ACTIVATION_HEIGHT, COMMITMENT_TTL in *; lia).
      rewrite lookup_delete_eq. reflexivity.
    + rewrite lookup_delete_ne by (unfold sat_sub, V2_ACTIVATION_HEIGHT, COMMITMENT_TTL in *; lia). rewrite EX.
      apply decide_ext. unfold collected. lia.
Qed.


Lemma chain_links bs s : Chain bs s -> Z.of_nat (length bs) < 2 ^ 64 ->
  (forall m, heights_order m ≡ₚ map_to_list m) ->
  forall i b b', bs !! i = Some b -> bs !! S i = Some b' ->
  b_prev_header_hash b' = final_hash b
  /\ b_target b' = calculate_target (Z.of_nat (S i)) (b_timestamp b).
Proof.
  intros HC HB HO. induction HC as [|bs s now batch prev pre skip o s' o' HC IH E]; intros i b b' Hi Hj;
    [discriminate|].
  rewrite length_app in HB. cbn in HB.
  assert (HB' : Z.of_nat (length bs) < 2 ^ 64) by lia.
  pose proof (chain_chain_inv _ _ _ _ HO _ _ HB' HC) as I.
  apply lookup_app_Some in Hj as [Hj|[Hj1 Hj2]].
  - eapply IH; [lia| |exact Hj]. apply lookup_lt_Some in Hj as HL.
    rewrite lookup_app_l in Hi by lia. exact Hi.
  - apply list_lookup_singleton_Some in Hj2 as [Hj2 <-].
    assert (EL : length bs = S i) by (apply lookup_lt_Some in Hi; rewrite length_app in Hi; cbn in Hi; lia).
    rewrite lookup_app_l in Hi by lia.
    assert (ELast : last bs = Some b).
    { rewrite last_lookup, EL. exact Hi. }
    pose proof (ci_header _ _ I) as IH'. rewrite ELast, (ci_height _ _ I), EL in IH'.
    destruct IH' as (J1 & _ & J3).
    destruct (proj1 (apply_batch_Ok _ _ _ _ _ _ _ _ _ _ _ _ _) E) as (s1 & p & fees & m & AC & _).
    pose proof (ac_linkage _ _ _ _ _ _ _ _ _ _ _ _ _ AC) as L. unfold check_linkage in L. repeat ok_step.
    repeat match goal with X : negb _ = false |- _ => apply negb_false_iff, bool_decide_eq_true in X end.
    split; congruence.
Qed.

(** C6: the shape of a chain.  The height of a reachable state is the number of its
    blocks; each block links to the final hash of the one before and carries the
    ASERT target of its height and its parent's timestamp; and the chain MMR, in
    whatever mixture of hashing modes it was built, keeps the final hash of the
    block of height [i] at position [mmr_size i], where the commit proof of work
    looks for its anchor. *)
Theorem chain_linked bs s :
  (forall m, heights_order m ≡ₚ map_to_list m) ->
  Z.of_nat (length bs) < 2 ^ 64 -> chain fast_mining usize_bits witnesses_size heights_order bs s ->
  st_height s = Z.of_nat (length bs)
  /\ (forall i b b', bs !! i = Some b -> bs !! S i = Some b' ->
      b_prev_header_hash b' = final_hash b
      /\ b_target b' = calculate_target (Z.of_nat (S i)) (b_timestamp b))
  /\ (forall b, last bs = Some b ->
      st_header_hash s = final_hash b
      /\ st_target s = calculate_target (st_height s) (b_timestamp b))
  /\ mmr_size_of (st_chain_mmr s) = mmr_size (length bs)
  /\ forall i b, bs !! i = Some b -> mmr_get (st_chain_mmr s) (mmr_size i) = Some (final_hash b).
Proof.
  intros HO HB HC. pose proof (chain_chain_inv _ _ _ _ HO _ _ HB HC) as I.
  destruct (ci_mmr _ _ I) as (M1 & _ & M3). rewrite length_map in M1.
  split; [apply (ci_height _ _ I)|]. split; [apply (chain_links _ _ HC HB HO)|]. split.
  - intros b Hb. pose proof (ci_header _ _ I) as J. rewrite Hb in J. tauto.
  - split; [exact M1|]. intros i b Hi. apply M3. rewrite list_lookup_fmap, Hi. reflexivity.
Qed.

(** C12: applying a block never aborts on a reachable state, whatever the block, the
    clock, the timestamps and the entry point. *)
Theorem apply_batch_never_aborts bs s now batch prev pre skip o :
  (forall m, heights_order m ≡ₚ map_to_list m) ->
  Z.of_nat (length bs) < 2 ^ 64 -> chain fast_mining usize_bits witnesses_size heights_order bs s ->
  (apply_batch_internal fast_mining usize_bits witnesses_size heights_order now batch prev pre skip (s, o)).1
  <> Panic.
Proof.
  intros HO HB HC. eapply apply_batch_safe; [exact _|].
  exact (ci_mmr _ _ (chain_chain_inv _ _ _ _ HO _ _ HB HC)).
Qed.

(** The commitment accumulator is consistent right after the block that activates
    V2.  [apply_batch] rebuilds it there in the new hashing mode and then removes
    the expired commitments in the old one, so this fails when a commitment expires
    in just that block. *)
Definition clean_activation (bs : list Batch) : Prop := forall bs1 s1,
  Chain bs1 s1 -> bs1 `prefix_of` bs -> Z.of_nat (length bs1) = V2_ACTIVATION_HEIGHT ->
  sa_wf true (st_commitments s1).

(** It holds of every chain whose block [V2_ACTIVATION_HEIGHT - 1 - COMMITMENT_TTL]
    has no commit. *)
Lemma clean_activation_quiet bs :
  (forall m, heights_order m ≡ₚ map_to_list m) ->
  commits_at bs (V2_ACTIVATION_HEIGHT - 1 - COMMITMENT_TTL) = [] -> clean_activation bs.
Proof.
  intros HO HQ bs1 s1 HC HP HL.
  destruct HC as [|bs0 s now batch prev pre skip o s' o' HC E]; [discriminate HL|].
  rewrite length_app in HL. cbn [length] in HL.
  assert (HB : Z.of_nat (length bs0) < 2 ^ 64) by (unfold V2_ACTIVATION_HEIGHT in HL; lia).
  pose proof (chain_chain_inv _ _ _ _ HO _ _ HB HC) as I. pose proof (ci_height _ _ I) as EL.
  pose proof (expirations_exact _ _ HO HB HC) as EX.
  destruct (proj1 (apply_batch_Ok _ _ _ _ _ _ _ _ _ _ _ _ _) E) as (s1 & p & fees & m & AC & ES & _).
  destruct (accepted_run _ _ _ _ _ _ _ _ _ _ _ _ _ AC) as (R & _).
  pose proof (accepted_result _ _ _ heights_order _ _ _ _ _ _ _ _ _ _ AC) as BR. rewrite <- ES in BR.
  destruct (txs_run_fold _ _ _ _ _ R) as (_ & _ & _ & EH & EE).
  assert (HW : wrap 64 (st_height s + 1) = V2_ACTIVATION_HEIGHT) by (unfold V2_ACTIVATION_HEIGHT in *; rewrite wrap_id; lia).
  apply (br_commitments_v2 _ _ _ _ _ _ BR HW).
  assert (H0 : 0 <= st_height s) by lia.
  pose proof (commit_inv_txs (st_height s) (b_transactions batch) H0 _ _ _
    (commit_inv_mono _ _ _ _ (ci_commit _ _ I))) as [_ I2]. rewrite <- EH, <- EE in I2.
  rewrite HW. unfold expired_keys. rewrite (proj2 (Z.ltb_lt _ _)) by (unfold V2_ACTIVATION_HEIGHT, COMMITMENT_TTL; lia).
  destruct (filter _ _) as [|[c h] l] eqn:EF; [reflexivity|].
  assert (HIN : (c, h) ∈ (c, h) :: l) by left. rewrite <- EF in HIN.
  apply list_elem_of_filter in HIN as [HT HIN]. cbn [snd] in HT.
  rewrite HO in HIN. apply elem_of_map_to_list in HIN. destruct (I2 c h HIN) as (J1 & J2 & J3).
  assert (h = V2_ACTIVATION_HEIGHT - 1 - COMMITMENT_TTL) as -> by (unfold sat_sub in HT; lia).
  rewrite EE, expirations_after_txs, EX in J3 by lia.
  rewrite !decide_False in J3 by (unfold collected, V2_ACTIVATION_HEIGHT, COMMITMENT_TTL in *; lia).
  rewrite app_nil_r in J3. destruct HP as [k ->]. rewrite <- app_assoc in HQ. unfold commits_at in *.
  rewrite lookup_app_l in HQ by (unfold V2_ACTIVATION_HEIGHT, COMMITMENT_TTL in *; lia).
  rewrite HQ in J3. apply not_elem_of_nil in J3. destruct J3.
Qed.

(** The commitment accumulator is then consistent in every later state. *)
Lemma chain_commitments_wf bs s :
  (forall m, heights_order m ≡ₚ map_to_list m) ->
  Z.of_nat (length bs) < 2 ^ 64 -> chain fast_mining usize_bits witnesses_size heights_order bs s ->
  clean_activation bs -> sa_wf (v2_of s) (st_commitments s).
Proof.
  intros HO HB HC. induction HC as [|bs s now batch prev pre skip o s' o' HC IH E]; intros CA; [apply sa_new_wf|].
  pose proof (chain_block fast_mining usize_bits witnesses_size heights_order _ _ _ _ _ _ _ _ _ _ HC E) as HC'.
  pose proof (ci_height _ _ (chain_chain_inv _ _ _ _ HO _ _ HB HC')) as EL'.
  rewrite length_app in HB, EL'. cbn [length] in HB, EL'. assert (HB' : Z.of_nat (length bs) < 2 ^ 64) by lia.
  pose proof (ci_height _ _ (chain_chain_inv _ _ _ _ HO _ _ HB' HC)) as EL.
  assert (CA' : clean_activation bs).
  { intros bs1 s1 C1 P1. apply CA; [exact C1|]. etrans; [exact P1|]. apply prefix_app_r. reflexivity. }
  specialize (IH HB' CA').
  destruct (decide (st_height (retarget s') = V2_ACTIVATION_HEIGHT)) as [EV|NV].
  { unfold v2_of. rewrite EV. apply (CA _ _ HC'); [reflexivity|]. rewrite length_app. cbn [length]. lia. }
  destruct (proj1 (apply_batch_Ok _ _ _ _ _ _ _ _ _ _ _ _ _) E) as (s1 & p & fees & m & AC & ES & _).
  pose proof (accepted_result _ _ _ heights_order _ _ _ _ _ _ _ _ _ _ AC) as BR. rewrite <- ES in BR.
  pose proof (br_commitments_wf _ _ _ _ _ _ BR IH) as W. rewrite wrap_id in W by lia.
  replace (v2_of (retarget s')) with (v2_of s); [apply W; lia|].
  unfold v2_of. rewrite EL', Nat2Z.inj_add, <- EL. symmetry. apply is_v2_at_next. lia.
Qed.

(** C7: what a state root commits to.  The state root of a block accepted on a
    reachable state is the commitment to the coin set that results from the
    block, the commitment set after its transactions and the chain so far, each
    hashed by its reference tree; from V4 on it also commits to the burned keys,
    which on every reachable state are the empty set.  From V2 on this holds on a
    chain that left the commitment accumulator consistent at the V2 activation,
    as [clean_activation] says, which the collection of that one block can break;
    before V2 there is no such condition. *)
Theorem state_root_commits bs s now batch prev pre skip o s' o' :
  (forall m, heights_order m ≡ₚ map_to_list m) ->
  Z.of_nat (length bs) < 2 ^ 64 -> chain fast_mining usize_bits witnesses_size heights_order bs s ->
  clean_activation bs ->
  apply_batch_internal fast_mining usize_bits witnesses_size heights_order now batch prev pre skip (s, o)
  = (Ok (), (s', o')) ->
  exists mmr, mmr_root (st_chain_mmr s) (v2_of s) = Ok mmr
  /\ b_state_root batch
     = state_commitment (Z.of_nat (length bs)) (sa_set (st_coins s'))
         (foldl (commitments_after (st_height s)) (sa_set (st_commitments s)) (b_transactions batch)) ∅ mmr.
Proof.
  intros HO HB HC CA E. pose proof (chain_chain_inv _ _ _ _ HO _ _ HB HC) as I.
  destruct (proj1 (apply_batch_Ok _ _ _ _ _ _ _ _ _ _ _ _ _) E) as (s1 & p & fees & m & AC & ES & _).
  pose proof (accepted_result _ _ _ heights_order _ _ _ _ _ _ _ _ _ _ AC) as BR. rewrite <- ES in BR.
  destruct (accepted_run _ _ _ _ _ _ _ _ _ _ _ _ _ AC) as (R & (_ & _ & F3 & _ & F5 & _ & F7) & [W1 W2] & _).
  destruct (txs_run_fold _ _ _ _ _ R) as (_ & _ & EC & _ & _).
  assert (EV : v2_of s1 = v2_of s) by (unfold v2_of; rewrite F3; reflexivity).
  pose proof (chain_commitments_wf _ _ HO HB HC CA) as WC.
  pose proof (ac_root _ _ _ _ _ _ _ _ _ _ _ _ _ AC) as RT.
  apply expected_state_root_sets in RT as (mmr & EM & ->);
    [|rewrite EV; first [apply W1, (ci_coins_wf _ _ I)|apply W2, WC|rewrite F7, (ci_burned _ _ I); apply sa_new_wf]..].
  rewrite EV, F5 in EM. exists mmr. split; [exact EM|].
  rewrite (br_coins _ _ _ _ _ _ BR), EC, F7, (ci_burned _ _ I), sa_new_set, F3, (ci_height _ _ I). reflexivity.
Qed.

(** C16: replaying stored blocks: [rebuild_state_to] returns a state reachable through
    exactly the stored blocks of heights [0 .. target - 1], and when the storage
    does not abort neither does it. *)
Theorem rebuild_state_to_chain load clock target :
  (forall m, heights_order m ≡ₚ map_to_list m) -> Z.of_nat target < 2 ^ 64 ->
  (forall s, rebuild_state_to fast_mining usize_bits witnesses_size heights_order load clock target = Ok s ->
     exists bs, chain fast_mining usize_bits witnesses_size heights_order bs s /\ length bs = target
     /\ forall i b, bs !! i = Some b -> load (Z.of_nat i) = Ok (Some b))
  /\ ((forall h, load h <> Panic) ->
      rebuild_state_to fast_mining usize_bits witnesses_size heights_order load clock target <> Panic).
Proof.
  intros HO HT. split.
  - intros s E. destruct (rebuild_loop_chain _ _ _ _ _ _ _ _ _ _ _ _ (chain_genesis _ _ _ _) E) as (bs & C & L & F).
    exists bs. split; [exact C|]. split; [exact L|]. exact F.
  - intros HL. unfold rebuild_state_to.
    assert (G : forall n h bs s recent, Chain bs s -> Z.of_nat (length bs) + Z.of_nat n < 2 ^ 64 ->
      rebuild_loop fast_mining usize_bits witnesses_size heights_order load clock n h s recent <> Panic).
    { induction n as [|n IH]; intros h bs s recent C HB; cbn [rebuild_loop]; [discriminate|].
      assert (HB' : Z.of_nat (length bs) < 2 ^ 64) by lia.
      apply bind_safe; [apply HL|]. intros stored _. apply bind_safe; [apply ok_or_safe|]. intros batch _.
      pose proof (apply_batch_safe fast_mining usize_bits witnesses_size heights_order (clock h) batch recent None false
        s ∅ _ (ci_mmr _ _ (chain_chain_inv _ _ _ _ HO _ _ HB' C))) as HS.
      unfold apply_batch. destruct (apply_batch_internal _ _ _ _ _ _ _ _ _ _) as [[[]|e|] [s1 o1]] eqn:EA;
        [|discriminate|contradiction].
      apply (IH _ _ _ _ (chain_block _ _ _ _ _ _ _ _ _ _ _ _ _ _ C EA)).
      rewrite length_app. cbn. lia. }
    apply (G _ _ [] genesis []); [constructor|cbn; lia].
Qed.

End Properties.

(** * Concrete inputs *)

Section Demo.
#[local] Existing Instance const_blake3.
#[local] Existing Instance demo_acc.
#[local] Existing Instance demo_laws.

Definition Demo_chain := chain (A := gset hash32) false 64 demo_size demo_heights.

Lemma demo_chain : exists s, Demo_chain [demo_block] s.
Proof.
  destruct (demo_block_Ok true ∅) as (s' & o' & E). exists (retarget s').
  exact (chain_block _ _ _ _ [] genesis _ _ _ _ _ _ _ _ (chain_genesis _ _ _ _) E).
Qed.

End Demo.


Lemma chain_linked_witness :
  let H := const_blake3 in
  exists s, Demo_chain [demo_block] s /\ mmr_get (st_chain_mmr s) 0 = Some (zero_arr 32).
Proof.
  intros H. destruct demo_chain as [s HC]. exists s. split; [exact HC|].
  destruct (@chain_linked const_blake3 false 64 demo_size _ demo_acc demo_laws demo_heights [demo_block] s
    demo_heights_ok ltac:(reflexivity) HC) as (_ & _ & _ & _ & F).
  exact (F 0%nat demo_block eq_refl).
Defined.

Lemma apply_batch_never_aborts_witness :
  let H := const_blake3 in
  exists s, Demo_chain [demo_block] s
  /\ (@apply_batch_internal const_blake3 false 64 demo_size _ demo_acc demo_heights 0 demo_block [] None false (s, ∅)).1
     <> Panic.
Proof.
  intros H. destruct demo_chain as [s HC]. exists s. split; [exact HC|].
  exact (@apply_batch_never_aborts const_blake3 false 64 demo_size _ demo_acc demo_laws demo_heights [demo_block] s
    0 demo_block [] None false ∅ demo_heights_ok ltac:(reflexivity) HC).
Defined.

Lemma state_root_commits_witness :
  let H := const_blake3 in
  exists mmr : hash32, mmr_root mmr_new false = Ok mmr /\ exists C : gset hash32,
  b_state_root demo_block = state_commitment 0 C ∅ ∅ mmr.
Proof.
  intros H. destruct (demo_block_Ok false ∅) as (s' & o' & E).
  destruct (@state_root_commits const_blake3 false 64 demo_size _ demo_acc demo_laws demo_heights []
    (@genesis const_blake3 _ demo_acc) _ demo_block _ _ _ _ _ _ demo_heights_ok ltac:(reflexivity) (chain_genesis _ _ _ _)
    (clean_activation_quiet _ _ _ _ [] demo_heights_ok eq_refl) E) as (mmr & EM & ER).
  exists mmr. split; [exact EM|]. exists (st_coins s'). exact ER.
Defined.

(** A block that meets the target by its own work, when every hash is a small one. *)
Definition low_hash : hash32 := arr_of 32 [x00; x01].
Definition low_blake3 : Blake3 := fun _ => low_hash.
Definition mined_block : Batch := {|
  b_prev_mirstat := low_hash; b_transactions := []; b_extension := {| ext_nonce := 0; ext_final_hash := low_hash |};
  b_coinbase := [{| cb_address := zero_arr 32; cb_value := INITIAL_REWARD; cb_salt := zero_arr 32 |}];
  b_timestamp := BITCOIN_BLOCK_TIME + 60; b_target := GENESIS_TARGET; b_state_root := low_hash;
  b_prev_header_hash := low_hash
|}.

Section Mined.
#[local] Existing Instance low_blake3.
#[local] Instance low_acc : SetAccumulator (gset hash32) := set_accumulator.
#[local] Instance low_laws : SetAccumulatorLaws (gset hash32) := set_accumulator_laws.
Lemma mined_block_Ok : exists s' o',
  apply_batch_internal true 64 demo_size demo_heights BITCOIN_BLOCK_TIME mined_block [] None false
    (genesis (A := gset hash32), ∅) = (Ok (), (s', o')).
Proof.
  do 2 eexists. apply (proj2 (apply_batch_Ok _ _ _ _ _ _ _ _ _ _ _ _ _)).
  exists genesis, (mkPrepass false ∅ 0 0 ∅), 0, (mkMmr [low_hash] 1).
  split; [|split; reflexivity]. split; try reflexivity.
  - split; [apply NoDup_singleton|]. intros x _. apply not_elem_of_empty.
  - exists 0%nat. reflexivity.
Qed.

Lemma mined_block_rebuilt : exists s,
  rebuild_state_to true 64 demo_size demo_heights (fun h => Ok (if h =? 0 then Some mined_block else None))
    (fun _ => BITCOIN_BLOCK_TIME) 1 = Ok (s : State (gset hash32)).
Proof.
  destruct mined_block_Ok as (s' & o' & E). exists (retarget s').
  unfold rebuild_state_to. cbn [rebuild_loop]. cbn [Z.eqb mbind res_bind ok_or]. unfold apply_batch. rewrite E. reflexivity.
Qed.

End Mined.

Lemma rebuild_state_to_chain_witness :
  let H := low_blake3 in
  let load := fun h => Ok (if h =? 0 then Some mined_block else None) in
  exists s, @rebuild_state_to H true 64 demo_size _ low_acc demo_heights load (fun _ => BITCOIN_BLOCK_TIME) 1 = Ok s
  /\ @chain H true 64 demo_size _ low_acc demo_heights [mined_block] s.
Proof.
  intros H load. destruct mined_block_rebuilt as [s ER]. exists s. split; [exact ER|].
  destruct (@rebuild_state_to_chain low_blake3 true 64 demo_size _ low_acc low_laws demo_heights load (fun _ => BITCOIN_BLOCK_TIME) 1
    demo_heights_ok ltac:(reflexivity)) as [HC _].
  destruct (HC _ ER) as (bs & C & L & F).
  destruct bs as [|b [|? ?]]; try discriminate L. specialize (F 0%nat b eq_refl). injection F as <-. exact C.
Defined.
