(* ===== verification/Supply.v ===== *)
(** The money supply: the value recorded in the coin set of a reachable state is
    the issuance schedule of [block_reward] less what has been burned in
    [DataBurn] outputs.

    A coin id is a hash, so the value of a coin is read off its preimage: [K] is
    a finite list of coin preimages on which the hash has no collision. *)
From S2P Require Import Prelude Types Wots Mss Mmr Smt Transaction Difficulty State Chain.

#[local] Open Scope Z_scope.

(** ** Preimages of coin ids *)

(** The value field of the preimage of a plain coin; the preimage of a
    confidential coin is longer and counts for nothing. *)
Definition preimage_value (p : bytes) : Z :=
  if Nat.eqb (length p) 72 then le_val (take 8 (drop 32 p)) else 0.

Definition coin_preimage (address : hash32) (value : Z) (salt : hash32) : bytes :=
  address ++ le_bytes 8 value ++ salt.

Section Supply.
Context `{Blake3}.

Definition input_preimage (i : InputReveal) : bytes :=
  match in_commitment i with
  | Some c => confidential_preimage (predicate_address (in_predicate i)) c (in_salt i)
  | None => coin_preimage (predicate_address (in_predicate i)) (in_value i) (in_salt i)
  end.

Definition output_preimage (o : OutputData) : option bytes :=
  match o with
  | Standard address value salt => Some (coin_preimage address value salt)
  | Confidential address commitment salt => Some (confidential_preimage address commitment salt)
  | DataBurn _ _ => None
  end.

Definition coinbase_preimage (cb : CoinbaseOutput) : bytes :=
  coin_preimage (cb_address cb) (cb_value cb) (cb_salt cb).

Definition tx_preimages (tx : Transaction) : list bytes :=
  map input_preimage (tx_inputs tx) ++ omap output_preimage (tx_outputs tx).

Definition block_preimages (b : Batch) : list bytes :=
  mjoin (map tx_preimages (b_transactions b)) ++ map coinbase_preimage (b_coinbase b).

(** The value of a coin id, through the preimages [K]. *)
Definition coin_value (K : list bytes) (id : hash32) : Z :=
  match List.find (fun p => bool_decide (blake3 p = id)) K with
  | Some p => preimage_value p
  | None => 0
  end.

Definition supply (K : list bytes) (C : gset hash32) : Z := sumZ (map (coin_value K) (elements C)).

(** Burned in one transaction, one block. *)
Definition output_burned (o : OutputData) : Z :=
  match o with DataBurn _ v => v | _ => 0 end.
Definition tx_burned (tx : Transaction) : Z := sumZ (map output_burned (tx_outputs tx)).
Definition block_burned (b : Batch) : Z := sumZ (map tx_burned (b_transactions b)).

(** The amounts of a block are machine words. *)
Definition block_wf (b : Batch) : Prop :=
  Forall tx_wf (b_transactions b) /\ Forall (fun cb => in_u 64 (cb_value cb)) (b_coinbase b).

(** ** Sums over coin sets *)

Lemma supply_union K X Y : X ## Y -> supply K (X ∪ Y) = supply K X + supply K Y.
Proof.
  intros D. unfold supply. rewrite <- sumZ_app, <- map_app. apply sumZ_perm, Permutation_map.
  apply elements_disj_union, D.
Qed.

Lemma supply_list K (l : list hash32) : NoDup l -> supply K (list_to_set l) = sumZ (map (coin_value K) l).
Proof. intros ND. unfold supply. apply sumZ_perm, Permutation_map, elements_list_to_set, ND. Qed.

Lemma supply_minus K X Y : Y ⊆ X -> supply K (X ∖ Y) = supply K X - supply K Y.
Proof.
  intros HS. assert (E : supply K X = supply K ((X ∖ Y) ∪ Y)).
  { f_equal. apply leibniz_equiv. intros x. rewrite elem_of_union, elem_of_difference.
    destruct (decide (x ∈ Y)) as [Hy|Hy]; [|tauto]. split; [auto|]. intros _. apply HS, Hy. }
  rewrite E, supply_union by (intros x [_ ?]%elem_of_difference ?; contradiction). lia.
Qed.

(** ** Values of coins *)

Context (K : list bytes) (CF : collision_free (fun p => p ∈ K)).

Lemma coin_value_preimage p : p ∈ K -> coin_value K (blake3 p) = preimage_value p.
Proof.
  intros Hp. unfold coin_value. destruct (List.find _ K) as [q|] eqn:EF.
  - apply List.find_some in EF as [Hq EQ]. apply bool_decide_eq_true in EQ.
    f_equal. apply CF; [apply list_elem_of_In, Hq|exact Hp|exact EQ].
  - exfalso. pose proof (List.find_none _ _ EF p (proj1 (list_elem_of_In _ _) Hp)) as HN.
    cbv beta in HN. rewrite bool_decide_true in HN by reflexivity. discriminate.
Qed.

Lemma coin_preimage_value (a s : hash32) v : in_u 64 v -> preimage_value (coin_preimage a v s) = v.
Proof.
  intros Hv. unfold preimage_value, coin_preimage.
  rewrite !length_app, !arr_length, length_le_bytes. cbn [Nat.add Nat.eqb].
  rewrite drop_app_length' by (rewrite arr_length; reflexivity).
  rewrite take_app_length' by (rewrite length_le_bytes; reflexivity).
  apply le_val_small. exact Hv.
Qed.

Lemma confidential_value (a c s : hash32) : preimage_value (confidential_preimage a c s) = 0.
Proof.
  unfold preimage_value, confidential_preimage. rewrite !length_app, !arr_length. reflexivity.
Qed.

Lemma input_value i : in_u 64 (in_value i) -> (in_commitment i <> None -> in_value i = 0) ->
  input_preimage i ∈ K -> coin_value K (input_coin_id i) = in_value i.
Proof.
  intros Hv Hc HK. unfold input_preimage in HK. unfold input_coin_id, compute_coin_id.
  destruct (in_commitment i) as [c|].
  - rewrite coin_value_preimage by exact HK. rewrite confidential_value, Hc; [reflexivity|discriminate].
  - unfold coin_preimage in HK. rewrite coin_value_preimage by exact HK. apply (coin_preimage_value _ _ _ Hv).
Qed.

Lemma outputs_value outs : Forall (fun o => in_u 64 (output_value o)) outs ->
  (forall p, p ∈ omap output_preimage outs -> p ∈ K) ->
  sumZ (map (coin_value K) (omap output_coin_id outs)) + sumZ (map output_burned outs)
  = sumZ (map output_value outs).
Proof.
  induction 1 as [|o outs Hv HF IH]; intros HK; [reflexivity|].
  assert (IH' := IH (fun p Hp => HK p ltac:(cbn; destruct (output_preimage o); [right|]; exact Hp))).
  unfold sumZ in *. destruct o as [a v s|a c s|pl v];
    cbn [map foldr omap list_omap output_coin_id output_burned output_value] in *; cycle 2; [lia|..].
  - unfold compute_coin_id. rewrite coin_value_preimage by (apply HK; left).
    change (preimage_value _) with (preimage_value (coin_preimage a v s)).
    rewrite (coin_preimage_value _ _ _ Hv). lia.
  - rewrite coin_value_preimage by (apply HK; left). rewrite confidential_value. lia.
Qed.

(** ** Conservation *)

Context (fast_mining : bool) (usize_bits : Z).
Context (witnesses_size : list Witness -> option Z).
Context {A : Type} `{!SetAccumulator A} `{!SetAccumulatorLaws A}.
Context (heights_order : gmap hash32 Z -> list (hash32 * Z)).

Lemma tx_preimages_in tx : (forall p, p ∈ tx_preimages tx -> p ∈ K) ->
  Forall (fun i => input_preimage i ∈ K) (tx_inputs tx)
  /\ forall p, p ∈ omap output_preimage (tx_outputs tx) -> p ∈ K.
Proof.
  intros HK. split.
  - apply Forall_forall. intros i Hi. apply HK, elem_of_app. left. apply list_elem_of_fmap. eauto.
  - intros p Hp. apply HK, elem_of_app. right. exact Hp.
Qed.

Lemma inputs_value inputs : Forall (fun i => in_u 64 (in_value i)) inputs ->
  Forall (fun i => in_commitment i <> None -> in_value i = 0) inputs ->
  Forall (fun i => input_preimage i ∈ K) inputs ->
  map (coin_value K) (map input_coin_id inputs) = map in_value inputs.
Proof.
  induction inputs as [|i l IH]; [reflexivity|]. rewrite !Forall_cons. intros [V1 V2] [C1 C2] [P1 P2].
  cbn. rewrite (input_value i V1 C1 P1), (IH V2 C2 P2). reflexivity.
Qed.

(** A transaction destroys its fee and what it burns. *)
Lemma tx_conserves tx (s s' : State A) : tx_wf tx -> (forall p, p ∈ tx_preimages tx -> p ∈ K) ->
  tx_effect fast_mining witnesses_size tx s s' ->
  supply K (sa_set (st_coins s')) + fee tx + tx_burned tx = supply K (sa_set (st_coins s)).
Proof.
  intros HW HK TE. destruct TE as [_ EC ES [N1 N2] ET _ _ _ _ _ _]. rewrite EC. unfold coins_after.
  apply tx_preimages_in in HK as [K1 K2]. pose proof HW as [W1 W2].
  destruct (is_spend tx) eqn:HS.
  - destruct (ET eq_refl) as [HT _].
    destruct (structure_Ok _ _ _ HS HW HT) as (S1 & S2 & _ & S4 & _).
    rewrite supply_union by (intros x; rewrite elem_of_list_to_set; apply N2).
    rewrite supply_minus by (intros x; rewrite elem_of_list_to_set; apply ES).
    rewrite !supply_list by assumption.
    assert (EI : input_coin_ids tx = map input_coin_id (tx_inputs tx)) by (destruct tx; reflexivity).
    assert (EO : output_coin_ids tx = omap output_coin_id (tx_outputs tx)) by (destruct tx; reflexivity).
    rewrite EI, EO, (inputs_value _ W1 S4 K1). pose proof (outputs_value _ W2 K2) as HO.
    unfold tx_burned. lia.
  - destruct tx as [c n| |]; try discriminate HS. cbn.
    rewrite difference_empty_L, union_empty_l_L. lia.
Qed.

Lemma txs_conserve txs s s' : Forall tx_wf txs ->
  (forall p, p ∈ mjoin (map tx_preimages txs) -> p ∈ K) ->
  txs_run fast_mining witnesses_size txs s s' ->
  supply K (sa_set (st_coins s')) + sumZ (map fee txs) + sumZ (map tx_burned txs)
  = supply K (sa_set (st_coins s)).
Proof.
  intros HW HK R. induction R as [s|tx txs s s1 s' TE R IH]; [cbn; lia|].
  apply Forall_cons in HW as [W1 W2]. cbn [map mjoin list_join] in HK.
  pose proof (tx_conserves tx s s1 W1 (fun p Hp => HK p (proj2 (elem_of_app _ _ _) (or_introl Hp))) TE).
  specialize (IH W2 (fun p Hp => HK p (proj2 (elem_of_app _ _ _) (or_intror Hp)))).
  unfold sumZ in *. cbn [map foldr]. lia.
Qed.

Lemma coinbase_sum_Ok cbs : forall t0 t, coinbase_sum cbs t0 = Ok t -> t = t0 + sumZ (map cb_value cbs).
Proof.
  induction cbs as [|cb cbs IH]; intros t0 t E; cbn [coinbase_sum] in E.
  - injection E as <-. cbn. lia.
  - repeat ok_step. match goal with X : checked_add _ _ _ = _ |- _ => apply checked_add_Some in X as [-> _] end.
    match goal with X : coinbase_sum _ _ = _ |- _ => rewrite (IH _ _ X) end.
    unfold sumZ. cbn [map foldr]. lia.
Qed.

Lemma check_coinbase_Ok h fees cbs : check_coinbase h fees cbs = Ok () ->
  sumZ (map cb_value cbs) = block_reward h + fees.
Proof.
  intros E. unfold check_coinbase in E. repeat ok_step.
  match goal with X : checked_add _ _ _ = _ |- _ => apply checked_add_Some in X as [-> _] end.
  match goal with X : coinbase_sum _ _ = _ |- _ => apply coinbase_sum_Ok in X end.
  match goal with X : negb _ = false |- _ => apply negb_false_iff, Z.eqb_eq in X end. lia.
Qed.

Lemma coinbase_value cbs : Forall (fun cb => in_u 64 (cb_value cb)) cbs ->
  (forall p, p ∈ map coinbase_preimage cbs -> p ∈ K) ->
  map (coin_value K) (map coinbase_coin_id cbs) = map cb_value cbs.
Proof.
  induction 1 as [|cb cbs Hv HF IH]; intros HK; [reflexivity|]. cbn [map].
  rewrite IH by (intros p Hp; apply HK; right; exact Hp). f_equal.
  unfold coinbase_coin_id, compute_coin_id. change (_ ++ le_bytes 8 (cb_value cb) ++ _) with (coinbase_preimage cb).
  rewrite coin_value_preimage by (apply HK; left). apply (coin_preimage_value _ _ _ Hv).
Qed.

(** A block issues its reward; fees only change hands. *)
Lemma block_conserves now batch prev pre skip s s1 p fees m s' :
  block_wf batch -> (forall p, p ∈ block_preimages batch -> p ∈ K) ->
  accepted fast_mining usize_bits witnesses_size now batch prev pre skip s s1 p fees m ->
  block_result heights_order batch s s1 s' m ->
  supply K (sa_set (st_coins s')) + block_burned batch
  = supply K (sa_set (st_coins s)) + block_reward (st_height s).
Proof.
  intros [W1 W2] HK AC BR.
  destruct (accepted_run _ _ _ _ _ _ _ _ _ _ _ _ _ AC) as (R & (_ & _ & F3 & _) & _ & EF).
  pose proof (txs_conserve _ _ _ W1 (fun p Hp => HK p (proj2 (elem_of_app _ _ _) (or_introl Hp))) R) as HT.
  pose proof (ac_coinbase _ _ _ _ _ _ _ _ _ _ _ _ _ AC) as HC. apply check_coinbase_Ok in HC. rewrite F3 in HC.
  destruct (ac_fresh _ _ _ _ _ _ _ _ _ _ _ _ _ AC) as [N1 N2].
  rewrite (br_coins _ _ _ _ _ _ BR), supply_union, supply_list by
    (try assumption; intros x; rewrite elem_of_list_to_set; apply N2).
  rewrite (coinbase_value _ W2 (fun p Hp => HK p (proj2 (elem_of_app _ _ _) (or_intror Hp)))).
  unfold block_burned. lia.
Qed.

End Supply.

(** * The issuance schedule *)

Section Schedule.
Context `{Blake3}.
Context (fast_mining : bool) (usize_bits : Z).
Context (witnesses_size : list Witness -> option Z).
Context {A : Type} `{!SetAccumulator A} `{!SetAccumulatorLaws A}.
Context (heights_order : gmap hash32 Z -> list (hash32 * Z)).

Definition issued (n : nat) : Z := sumZ (map (fun h => block_reward (Z.of_nat h)) (seq 0 n)).

Lemma issued_S n : issued (S n) = issued n + block_reward (Z.of_nat n).
Proof. unfold issued. rewrite seq_S, map_app, sumZ_app. cbn. lia. Qed.

Lemma chain_supply K bs s :
  collision_free (fun p => p ∈ K) ->
  (forall m, heights_order m ≡ₚ map_to_list m) ->
  chain fast_mining usize_bits witnesses_size heights_order bs s ->
  Z.of_nat (length bs) < 2 ^ 64 -> Forall block_wf bs ->
  (forall p, p ∈ mjoin (map block_preimages bs) -> p ∈ K) ->
  supply K (sa_set (st_coins s)) + sumZ (map block_burned bs) = issued (length bs).
Proof.
  intros CF HO HC. induction HC as [|bs s now batch prev pre skip o s' o' HC IH E]; intros HB HW HK.
  - cbn [genesis st_coins]. rewrite sa_new_set. unfold supply. rewrite elements_empty. reflexivity.
  - apply Forall_app in HW as [W1 W2]. apply Forall_inv in W2.
    rewrite length_app in HB. cbn [length] in HB. assert (HB' : Z.of_nat (length bs) < 2 ^ 64) by lia.
    rewrite map_app, join_app in HK.
    specialize (IH HB' W1 (fun p Hp => HK p (proj2 (elem_of_app _ _ _) (or_introl Hp)))).
    destruct (proj1 (apply_batch_Ok _ _ _ _ _ _ _ _ _ _ _ _ _) E) as (s1 & p & fees & m & AC & ES & _).
    pose proof (accepted_result _ _ _ heights_order _ _ _ _ _ _ _ _ _ _ AC) as BR. rewrite <- ES in BR.
    pose proof (block_conserves K CF fast_mining usize_bits witnesses_size heights_order _ _ _ _ _ _ _ _ _ _ _ W2
      (fun q Hq => HK q (proj2 (elem_of_app _ _ _) (or_intror (proj2 (elem_of_app _ [] _) (or_introl Hq))))) AC BR) as HS.
    rewrite (ci_height _ _ (chain_chain_inv _ _ _ _ HO _ _ HB' HC)) in HS.
    rewrite length_app, Nat.add_1_r, issued_S, map_app, sumZ_app. cbn [map sumZ foldr].
    change (st_coins (retarget s')) with (st_coins s'). lia.
Qed.

(** C1: conservation of money.  In every state reached from genesis the value of the
    coin set plus everything burned so far is exactly the sum of the block
    rewards of the chain's heights: no block, fee, consolidation, confidential
    coin or coinbase creates or destroys value otherwise.  The hash need only be
    collision-free on the coin preimages of the chain itself. *)
Theorem supply_schedule bs s :
  (forall m, heights_order m ≡ₚ map_to_list m) ->
  Z.of_nat (length bs) < 2 ^ 64 -> chain fast_mining usize_bits witnesses_size heights_order bs s ->
  Forall block_wf bs ->
  let K := mjoin (map block_preimages bs) in
  collision_free (fun p => p ∈ K) ->
  supply K (sa_set (st_coins s)) + sumZ (map block_burned bs)
  = sumZ (map (fun h => block_reward (Z.of_nat h)) (seq 0 (length bs))).
Proof. intros HO HB HC HW K CF. apply (chain_supply K); auto. Qed.

End Schedule.

Lemma supply_schedule_witness :
  let H := const_blake3 in
  exists s, Demo_chain [demo_block] s
  /\ supply (block_preimages demo_block ++ [])
       (sa_set (SetAccumulator0 := demo_acc) (SetAccumulatorLaws := demo_laws) (st_coins s)) + 0 = INITIAL_REWARD.
Proof.
  intros H. destruct demo_chain as [s HC]. exists s. split; [exact HC|].
  refine (@supply_schedule const_blake3 false 64 demo_size _ demo_acc demo_laws demo_heights [demo_block] s
    demo_heights_ok eq_refl HC _ _).
  - repeat constructor; unfold in_u; vm_compute; discriminate || reflexivity.
  - intros x y Hx Hy _. apply list_elem_of_singleton in Hx, Hy. congruence.
Defined.
