(* ===== verification/Mempool.v ===== *)
(** The mempool: [src/mempool.rs].

    Its hash maps are [gmap]s, its [BTreeSet] indices sets of pairs iterated in
    ascending order.  [bincode::serialized_size] is the parameter [tx_size], the
    floating-point congestion curve [calculate_required_pow] the parameter
    [required_pow], the clock the argument [now]. *)
From S2P Require Import Prelude Types Wots Mss Mmr Smt Transaction.

#[local] Open Scope Z_scope.

Definition MAX_MEMPOOL_REVEALS : Z := 9000.
Definition MAX_PENDING_COMMITS : Z := 1000.
Definition MAX_MEMPOOL_BYTES : Z := 100000000.
Definition MIN_FEE_PER_KB : Z := 10.
Definition FEE_RATE_SCALE : Z := 1024.

Record MempoolTx : Type := mkMempoolTx {
  mt_tx : Transaction;
  mt_size : Z;
  mt_received : Z
}.

Record Mempool : Type := mkMempool {
  mp_commits : gmap hash32 (Transaction * Z);
  mp_commits_by_pow : gset (Z * hash32);
  mp_reveals : gmap hash32 MempoolTx;
  mp_reveals_by_fee : gset (Z * hash32);
  mp_txs_by_input : gmap hash32 hash32;
  mp_reveal_bytes : Z
}.

Definition mempool_new : Mempool := mkMempool ∅ ∅ ∅ ∅ ∅ 0.

Inductive MempoolError : Type :=
  | CommitRejected (e : TxError) | PoolBusy | AlreadyPending | CommitsFull
  | AddressSpent | FeeRateTooLow | RbfRejected | PoolFull | NothingEvictable.

(** ** Priority indices *)

(** The order of [(u64, [u8; 32])]. *)
Definition prio_le (a b : Z * hash32) : Prop := a.1 < b.1 \/ a.1 = b.1 /\ be_val a.2 <= be_val b.2.

#[export] Instance prio_le_dec : RelDecision prio_le.
Proof. intros a b. unfold prio_le. apply _. Defined.

(** [index.iter()], ascending. *)
Definition prio_list (s : gset (Z * hash32)) : list (Z * hash32) := merge_sort prio_le (elements s).

Section MempoolOps.
Context `{Blake3}.
Context (fast_mining : bool) (usize_bits : Z).
Context (witnesses_size : list Witness -> option Z) (tx_size : Transaction -> Z).
Context (required_pow : nat -> Z).
Context {A : Type} `{!SetAccumulator A}.

Definition tx_id_preimage (tx : Transaction) : bytes :=
  match tx with
  | Commit _ _ => []
  | Reveal inputs _ outputs salt =>
      x01 :: concat_hashes (map input_coin_id inputs)
          ++ concat_hashes (map hash_for_commitment outputs) ++ salt
  | Consolidate inputs _ outputs salt =>
      x02 :: concat_hashes (map input_coin_id inputs)
          ++ concat_hashes (map hash_for_commitment outputs) ++ salt
  end.

Definition get_tx_id (tx : Transaction) : hash32 :=
  match tx with
  | Commit commitment _ => commitment
  | _ => blake3 (tx_id_preimage tx)
  end.

Definition compute_fee_rate (fee tx_bytes : Z) : Z :=
  if tx_bytes =? 0 then 0 else wrap 64 (fee * FEE_RATE_SCALE / tx_bytes).

Definition entry_rate (e : MempoolTx) : Z := compute_fee_rate (fee (mt_tx e)) (mt_size e).

(** ** Removal and insertion of a reveal *)

Definition remove_reveal_internal (m : Mempool) (id : hash32) : Mempool :=
  match mp_reveals m !! id with
  | Some e =>
      mkMempool (mp_commits m) (mp_commits_by_pow m) (delete id (mp_reveals m))
        (mp_reveals_by_fee m ∖ {[(entry_rate e, id)]})
        (foldl (fun t input => delete input t) (mp_txs_by_input m) (input_coin_ids (mt_tx e)))
        (sat_sub (mp_reveal_bytes m) (mt_size e))
  | None => m
  end.

Definition insert_reveal (now : Z) (tx : Transaction) (m : Mempool) : Mempool :=
  let tx_bytes := tx_size tx in
  let tx_id := get_tx_id tx in
  mkMempool (mp_commits m) (mp_commits_by_pow m)
    (<[tx_id := mkMempoolTx tx tx_bytes now]> (mp_reveals m))
    ({[(compute_fee_rate (fee tx) tx_bytes, tx_id)]} ∪ mp_reveals_by_fee m)
    (foldl (fun t input => <[input := tx_id]> t) (mp_txs_by_input m) (input_coin_ids tx))
    (wrap 64 (mp_reveal_bytes m + tx_bytes)).

Definition remove_commit (c : hash32) (m : Mempool) : Mempool :=
  match mp_commits m !! c with
  | Some _ =>
      mkMempool (delete c (mp_commits m)) (filter (fun p : Z * hash32 => p.2 <> c) (mp_commits_by_pow m))
        (mp_reveals m) (mp_reveals_by_fee m) (mp_txs_by_input m) (mp_reveal_bytes m)
  | None => m
  end.

Definition insert_commit (now zeros commitment_nonce : Z) (commitment : hash32) (m : Mempool) : Mempool :=
  mkMempool (<[commitment := (Commit commitment commitment_nonce, now)]> (mp_commits m))
    ({[(zeros, commitment)]} ∪ mp_commits_by_pow m)
    (mp_reveals m) (mp_reveals_by_fee m) (mp_txs_by_input m) (mp_reveal_bytes m).

(** ** Admission *)

Definition add_commit (now : Z) (commitment : hash32) (spam_nonce : Z) (state : State A)
    : ST Mempool MempoolError () := fun m =>
  match evaluate_commit_pow fast_mining commitment spam_nonce state with
  | Err e => (Err (CommitRejected e), m)
  | Panic => (Panic, m)
  | Ok actual_zeros =>
      if actual_zeros <? required_pow (size (mp_commits m)) then (Err PoolBusy, m)
      else if bool_decide (is_Some (mp_commits m !! commitment)) then (Err AlreadyPending, m)
      else if MAX_PENDING_COMMITS <=? Z.of_nat (size (mp_commits m)) then
        match prio_list (mp_commits_by_pow m) with
        | [] => (Ok (), insert_commit now actual_zeros spam_nonce commitment m)
        | (lowest_pow, lowest_comm) :: _ =>
            if lowest_pow <? actual_zeros then
              let m := mkMempool (delete lowest_comm (mp_commits m))
                         (mp_commits_by_pow m ∖ {[(lowest_pow, lowest_comm)]})
                         (mp_reveals m) (mp_reveals_by_fee m) (mp_txs_by_input m) (mp_reveal_bytes m) in
              (Ok (), insert_commit now actual_zeros spam_nonce commitment m)
            else (Err CommitsFull, m)
        end
      else (Ok (), insert_commit now actual_zeros spam_nonce commitment m)
  end.

(** The one-time key behind the single witness of a Consolidate; [inputs[0]]
    aborts when there is no input.  The parser of signatures itself never aborts
    ([Mss.mss_from_bytes_total]), so its other outcomes are its errors. *)
Definition consolidate_key (inputs : list InputReveal) (w : Witness) : res MempoolError (option hash32) :=
  match w with
  | ScriptInputs [] => Ok None
  | ScriptInputs (sig :: _) =>
      match inputs with
      | i :: _ => Ok (burned_key i w)
      | [] =>
          if Nat.eqb (length sig) SIG_SIZE then Panic
          else Ok (match mss_from_bytes sig with Ok mss_sig => Some (wots_pk mss_sig) | _ => None end)
      end
  end.

Definition check_spent (oracle : gmap hash32 hash32) (this_commitment : hash32) (key : option hash32)
    : res MempoolError () :=
  match key with
  | Some k =>
      match oracle !! k with
      | Some prior => bail_if (negb (bool_decide (prior = this_commitment))) AddressSpent
      | None => Ok ()
      end
  | None => Ok ()
  end.

Definition check_reuse (oracle : gmap hash32 hash32) (tx : Transaction) : res MempoolError () :=
  if bool_decide (oracle = ∅) then Ok ()
  else
    match tx with
    | Commit _ _ => Ok ()
    | Reveal inputs witnesses outputs salt =>
        check_all (fun p : InputReveal * Witness =>
          check_spent oracle (tx_commitment inputs outputs salt) (burned_key p.1 p.2)) (zip inputs witnesses)
    | Consolidate inputs witness outputs salt =>
        key ← consolidate_key inputs witness;
        check_spent oracle (tx_commitment inputs outputs salt) key
    end.

(** The pending reveals that spend one of the inputs, without repetition. *)
Definition conflicts (m : Mempool) (inputs : list hash32) : list hash32 :=
  foldl (fun found input =>
    match mp_txs_by_input m !! input with
    | Some existing_id => if bool_decide (existing_id ∈ found) then found else found ++ [existing_id]
    | None => found
    end) [] inputs.

(** The simulated byte and entry counts once the conflicts are gone. *)
Fixpoint outbid (reveals : gmap hash32 MempoolTx) (fee_rate : Z) (ids : list hash32) (bytes len : Z)
    : res MempoolError (Z * Z) :=
  match ids with
  | [] => Ok (bytes, len)
  | cid :: ids =>
      match reveals !! cid with
      | Some existing =>
          if fee_rate <=? entry_rate existing then Err RbfRejected
          else outbid reveals fee_rate ids (sat_sub bytes (mt_size existing)) (sat_sub len 1)
      | None => outbid reveals fee_rate ids bytes len
      end
  end.

Fixpoint evict_loop (fee_iter : list (Z * hash32)) (reveals : gmap hash32 MempoolTx)
    (fee_rate tx_bytes bytes len : Z) (to_evict : list hash32) : res MempoolError (list hash32) :=
  if (MAX_MEMPOOL_REVEALS <? len + 1) || (MAX_MEMPOOL_BYTES <? wrap 64 (bytes + tx_bytes)) then
    match fee_iter with
    | [] => Err NothingEvictable
    | (lowest_rate, lowest_id) :: fee_iter =>
        if bool_decide (lowest_id ∈ to_evict) then
          evict_loop fee_iter reveals fee_rate tx_bytes bytes len to_evict
        else if lowest_rate <? fee_rate then
          match reveals !! lowest_id with
          | Some existing =>
              evict_loop fee_iter reveals fee_rate tx_bytes (sat_sub bytes (mt_size existing))
                (sat_sub len 1) (to_evict ++ [lowest_id])
          | None => evict_loop fee_iter reveals fee_rate tx_bytes bytes len to_evict
          end
        else Err PoolFull
    end
  else Ok to_evict.

(** What a new reveal displaces. *)
Definition displaced (oracle : gmap hash32 hash32) (tx : Transaction) (m : Mempool)
    : res MempoolError (list hash32) :=
  let tx_bytes := tx_size tx in
  _ ← check_reuse oracle tx;
  _ ← bail_if (fee tx * FEE_RATE_SCALE <? MIN_FEE_PER_KB * tx_bytes) FeeRateTooLow;
  let conflicting_txs := conflicts m (input_coin_ids tx) in
  let fee_rate := compute_fee_rate (fee tx) tx_bytes in
  sim ← outbid (mp_reveals m) fee_rate conflicting_txs (mp_reveal_bytes m) (Z.of_nat (size (mp_reveals m)));
  evict_loop (prio_list (mp_reveals_by_fee m)) (mp_reveals m) fee_rate tx_bytes sim.1 sim.2 conflicting_txs.

Definition add_reveal (now : Z) (tx : Transaction) (oracle : gmap hash32 hash32)
    : ST Mempool MempoolError () := fun m =>
  match displaced oracle tx m with
  | Ok to_evict => (Ok (), insert_reveal now tx (foldl remove_reveal_internal m to_evict))
  | Err e => (Err e, m)
  | Panic => (Panic, m)
  end.

Definition add (now : Z) (tx : Transaction) (state : State A) (oracle : gmap hash32 hash32)
    : ST Mempool MempoolError () :=
  match tx with
  | Commit commitment spam_nonce => add_commit now commitment spam_nonce state
  | _ => add_reveal now tx oracle
  end.

(** ** Pruning *)

Definition expired_reveal (state : State A) (tx : Transaction) : bool :=
  match tx with
  | Commit _ _ => false
  | _ =>
      match st_commitment_heights state !! commitment_of tx with
      | Some height => COMMITMENT_TTL <? sat_sub (st_height state) height
      | None => true
      end
  end.

(** A reveal that exposes a key burned by the new block. *)
Definition reuses_key (burned : list hash32) (tx : Transaction) : bool :=
  existsb (fun p : InputReveal * Witness =>
    match burned_key p.1 p.2 with Some k => bool_decide (k ∈ burned) | None => false end) (spend_pairs tx).

(** The ids of the reveals that satisfy [f]; the order of iteration over the map
    does not matter for the removals that follow. *)
Definition reveals_where (f : Transaction -> bool) (m : Mempool) : list hash32 :=
  map fst (filter (fun e : hash32 * MempoolTx => f (mt_tx e.2) = true) (map_to_list (mp_reveals m))).

Definition remove_spender (m : Mempool) (coin : hash32) : Mempool :=
  match mp_txs_by_input m !! coin with
  | Some tx_id =>
      remove_reveal_internal
        (mkMempool (mp_commits m) (mp_commits_by_pow m) (mp_reveals m) (mp_reveals_by_fee m)
           (delete coin (mp_txs_by_input m)) (mp_reveal_bytes m)) tx_id
  | None => m
  end.

Definition prune_on_new_block (state : State A) (newly_spent_inputs newly_mined_commits
    newly_burned_addresses : list hash32) (m : Mempool) : Mempool :=
  let m := foldl remove_spender m newly_spent_inputs in
  let m := foldl (fun m c => remove_commit c m) m newly_mined_commits in
  let m := foldl remove_reveal_internal m (reveals_where (reuses_key newly_burned_addresses) m) in
  foldl remove_reveal_internal m (reveals_where (expired_reveal state) m).

Definition dead_commit (state : State A) (tx : Transaction) : bool :=
  match tx with
  | Commit commitment spam_nonce => negb (is_ok (evaluate_commit_pow fast_mining commitment spam_nonce state))
  | _ => false
  end.

Definition dead_reveal (state : State A) (tx : Transaction) : bool :=
  match tx with
  | Commit _ _ => true
  | _ =>
      existsb (fun i => negb (sa_contains (input_coin_id i) (st_coins state))) (tx_inputs tx)
      || negb (sa_contains (commitment_of tx) (st_commitments state))
      || expired_reveal state tx
  end.

Definition prune_invalid (state : State A) (m : Mempool) : Mempool :=
  let dead := map fst (filter (fun e : hash32 * (Transaction * Z) => dead_commit state e.2.1 = true)
                         (map_to_list (mp_commits m))) in
  let m := foldl (fun m c => remove_commit c m) m dead in
  foldl remove_reveal_internal m (reveals_where (dead_reveal state) m).

(** ** Restoring after a reorganisation *)

Definition already_present (m : Mempool) (tx : Transaction) : bool :=
  match tx with
  | Commit commitment _ => bool_decide (is_Some (mp_commits m !! commitment))
  | _ => existsb (fun i => bool_decide (is_Some (mp_txs_by_input m !! i))) (input_coin_ids tx)
  end.

(** One transaction; the flag tells whether it counts as restored. *)
Definition restore (now : Z) (state : State A) (m : Mempool) (tx : Transaction) : bool * Mempool :=
  if negb (is_ok (validate_transaction fast_mining usize_bits witnesses_size state tx)) then (false, m)
  else if already_present m tx then (false, m)
  else
    match tx with
    | Commit commitment spam_nonce =>
        match evaluate_commit_pow fast_mining commitment spam_nonce state with
        | Ok zeros => (true, insert_commit now zeros spam_nonce commitment m)
        | _ => (true, m)
        end
    | _ => (true, insert_reveal now tx m)
    end.

Definition re_add (now : Z) (txs : list Transaction) (state : State A) (m : Mempool) : Mempool :=
  let '(restored, m) := foldl (fun acc tx =>
    let '(r, m) := restore now state acc.2 tx in (acc.1 || r, m)) (false, m) txs in
  if restored then prune_invalid state m else m.

(** ** Reading in priority order *)

Definition transactions_split (m : Mempool) : list Transaction * list Transaction :=
  (omap (fun p : Z * hash32 => fst <$> mp_commits m !! p.2) (rev (prio_list (mp_commits_by_pow m))),
   omap (fun p : Z * hash32 => mt_tx <$> mp_reveals m !! p.2) (rev (prio_list (mp_reveals_by_fee m)))).

Definition transactions (m : Mempool) : list Transaction :=
  let '(commits, reveals) := transactions_split m in reveals ++ commits.

(** [while drained.len() < max]: the best reveals, then the best commits. *)
Fixpoint drain_reveals (max : nat) (m : Mempool) : res MempoolError (list Transaction * Mempool) :=
  match max with
  | O => Ok ([], m)
  | S max =>
      match last (prio_list (mp_reveals_by_fee m)) with
      | None => Ok ([], m)
      | Some (rate, id) =>
          e ← unwrap (mp_reveals m !! id);
          '(txs, m) ← drain_reveals max
            (mkMempool (mp_commits m) (mp_commits_by_pow m) (delete id (mp_reveals m))
               (mp_reveals_by_fee m ∖ {[(rate, id)]})
               (foldl (fun t input => delete input t) (mp_txs_by_input m) (input_coin_ids (mt_tx e)))
               (sat_sub (mp_reveal_bytes m) (mt_size e)));
          Ok (mt_tx e :: txs, m)
      end
  end.

Fixpoint drain_commits (max : nat) (m : Mempool) : res MempoolError (list Transaction * Mempool) :=
  match max with
  | O => Ok ([], m)
  | S max =>
      match last (prio_list (mp_commits_by_pow m)) with
      | None => Ok ([], m)
      | Some (pow, comm) =>
          e ← unwrap (mp_commits m !! comm);
          '(txs, m) ← drain_commits max
            (mkMempool (delete comm (mp_commits m)) (mp_commits_by_pow m ∖ {[(pow, comm)]})
               (mp_reveals m) (mp_reveals_by_fee m) (mp_txs_by_input m) (mp_reveal_bytes m));
          Ok (e.1 :: txs, m)
      end
  end.

Definition drain (max : nat) (m : Mempool) : res MempoolError (list Transaction * Mempool) :=
  '(reveals, m) ← drain_reveals max m;
  '(commits, m) ← drain_commits (max - length reveals) m;
  Ok (reveals ++ commits, m).

End MempoolOps.

(** * Priority lists *)

#[export] Instance prio_le_total : Total prio_le.
Proof. intros [a x] [b y]. unfold prio_le. cbn. lia. Qed.

#[export] Instance prio_le_trans : Transitive prio_le.
Proof. intros [a x] [b y] [c z]. unfold prio_le. cbn. lia. Qed.

#[export] Instance prio_le_antisymm : AntiSymm (=) prio_le.
Proof.
  intros [a x] [b y]. unfold prio_le. cbn. intros H1 H2. f_equal; [lia|]. apply arr_be_val_inj. lia.
Qed.

Lemma prio_list_perm s : prio_list s ≡ₚ elements s.
Proof. apply merge_sort_Permutation. Qed.

Lemma elem_of_prio_list s x : x ∈ prio_list s <-> x ∈ s.
Proof. rewrite prio_list_perm. apply elem_of_elements. Qed.

Lemma prio_list_sorted s : StronglySorted prio_le (prio_list s).
Proof. apply StronglySorted_merge_sort; apply _. Qed.

Lemma prio_list_NoDup s : NoDup (prio_list s).
Proof. rewrite prio_list_perm. apply NoDup_elements. Qed.

(** Removing the greatest entry removes the last one. *)
Lemma prio_list_snoc s l x : prio_list s = l ++ [x] -> prio_list (s ∖ {[x]}) = l.
Proof.
  intros E. pose proof (prio_list_sorted s) as HS. pose proof (prio_list_NoDup s) as HN.
  rewrite E in HS, HN. apply NoDup_app in HN as (N1 & N2 & _).
  apply (StronglySorted_unique prio_le); [apply prio_list_sorted| |].
  - apply StronglySorted_app_1_l in HS. exact HS.
  - apply NoDup_Permutation; [apply prio_list_NoDup|exact N1|]. intros y.
    rewrite elem_of_prio_list, elem_of_difference, elem_of_singleton, <- elem_of_prio_list, E, elem_of_app,
      list_elem_of_singleton. split; [tauto|]. intros Hy. split; [auto|]. intros ->. apply (N2 x Hy). left.
Qed.

(** * The invariant *)

Section MempoolInv.
Context `{Blake3}.

Definition total_size (rs : gmap hash32 MempoolTx) : Z :=
  sumZ (map (fun e : hash32 * MempoolTx => mt_size e.2) (map_to_list rs)).

Record mp_inv (m : Mempool) : Prop := mkMpInv {
  mi_fee : forall r id, (r, id) ∈ mp_reveals_by_fee m
    <-> exists e, mp_reveals m !! id = Some e /\ r = entry_rate e;
  mi_inputs : forall coin id, mp_txs_by_input m !! coin = Some id
    <-> exists e, mp_reveals m !! id = Some e /\ coin ∈ input_coin_ids (mt_tx e);
  mi_bytes : mp_reveal_bytes m = total_size (mp_reveals m);
  mi_entry : forall id e, mp_reveals m !! id = Some e ->
    0 <= mt_size e /\ id = get_tx_id (mt_tx e) /\ is_spend (mt_tx e) = true /\ input_coin_ids (mt_tx e) <> [];
  mi_pow : forall c, is_Some (mp_commits m !! c) <-> exists z, (z, c) ∈ mp_commits_by_pow m;
  mi_pow_once : forall z z' c, (z, c) ∈ mp_commits_by_pow m -> (z', c) ∈ mp_commits_by_pow m -> z = z';
  mi_commit : forall c e, mp_commits m !! c = Some e -> exists n, e.1 = Commit c n
}.

Lemma mempool_new_inv : mp_inv mempool_new.
Proof.
  split; cbn [mempool_new mp_reveals_by_fee mp_reveals mp_txs_by_input mp_reveal_bytes mp_commits mp_commits_by_pow].
  - intros r id. rewrite lookup_empty. split; [set_solver|]. intros (e & E & _). discriminate.
  - intros c id. rewrite !lookup_empty. split; [discriminate|]. intros (e & E & _). discriminate.
  - unfold total_size. rewrite map_to_list_empty. reflexivity.
  - intros id e E. rewrite lookup_empty in E. discriminate.
  - intros c. rewrite lookup_empty. split; [intros [? ?]; discriminate|]. intros [z Hz]. set_solver.
  - set_solver.
  - intros c e E. rewrite lookup_empty in E. discriminate.
Qed.

(** ** Sizes *)

Lemma total_size_insert rs id e : rs !! id = None -> total_size (<[id := e]> rs) = mt_size e + total_size rs.
Proof.
  intros E. unfold total_size. rewrite (sumZ_perm _ _ (Permutation_map _ (map_to_list_insert _ _ _ E))).
  reflexivity.
Qed.

Lemma total_size_delete rs id e : rs !! id = Some e -> total_size (delete id rs) = total_size rs - mt_size e.
Proof.
  intros E. rewrite <- (insert_delete_id rs id e) at 2 by exact E.
  rewrite total_size_insert by apply lookup_delete_eq. lia.
Qed.

Lemma delete_list_lookup {V} (ks : list hash32) (c : hash32) : forall t : gmap hash32 V,
  foldl (fun t k => delete k t) t ks !! c = if decide (c ∈ ks) then None else t !! c.
Proof.
  induction ks as [|k ks IH]; intros t; cbn [foldl]; [reflexivity|]. rewrite IH.
  destruct (decide (c ∈ ks)) as [Hc|Hc]; [rewrite decide_True by (right; exact Hc); reflexivity|].
  destruct (decide (c = k)) as [->|NE].
  - rewrite decide_True by left. apply lookup_delete_eq.
  - rewrite decide_False by (intros [->|?]%elem_of_cons; contradiction). apply lookup_delete_ne. congruence.
Qed.

Lemma insert_list_lookup {V} (v : V) (ks : list hash32) (c : hash32) : forall t : gmap hash32 V,
  foldl (fun t k => <[k := v]> t) t ks !! c = if decide (c ∈ ks) then Some v else t !! c.
Proof.
  induction ks as [|k ks IH]; intros t; cbn [foldl]; [reflexivity|]. rewrite IH.
  destruct (decide (c ∈ ks)) as [Hc|Hc]; [rewrite decide_True by (right; exact Hc); reflexivity|].
  destruct (decide (c = k)) as [->|NE].
  - rewrite decide_True by left. apply lookup_insert_eq.
  - rewrite decide_False by (intros [->|?]%elem_of_cons; contradiction). apply lookup_insert_ne. congruence.
Qed.

(** ** Removing and inserting reveals *)

Lemma sat_sub_exact a b : 0 <= b <= a -> sat_sub a b = a - b.
Proof. unfold sat_sub. lia. Qed.

Lemma total_size_ge rs id e : (forall i x, rs !! i = Some x -> 0 <= mt_size x) -> rs !! id = Some e ->
  mt_size e <= total_size rs.
Proof.
  intros HP E. rewrite <- (insert_delete_id rs id e) by exact E.
  rewrite total_size_insert by apply lookup_delete_eq.
  enough (0 <= total_size (delete id rs)) by lia. unfold total_size. apply sumZ_nonneg, Forall_map, Forall_forall.
  intros [i x] Hx. apply elem_of_map_to_list, lookup_delete_Some in Hx as [_ Hx]. apply (HP i x Hx).
Qed.

Lemma remove_reveal_inv m id : mp_inv m -> mp_inv (remove_reveal_internal m id).
Proof.
  intros I. unfold remove_reveal_internal. destruct (mp_reveals m !! id) as [e|] eqn:E; [|exact I].
  destruct I as [I1 I2 I3 I4 I5 I6 I7].
  split; cbn [mp_reveals_by_fee mp_reveals mp_txs_by_input mp_reveal_bytes mp_commits mp_commits_by_pow]; try assumption.
  - intros r i. rewrite elem_of_difference, elem_of_singleton, I1. split.
    + intros [(e' & E' & ->) HN]. exists e'. split; [|reflexivity].
      rewrite lookup_delete_ne; [exact E'|]. intros ->. apply HN. congruence.
    + intros (e' & E' & ->). apply lookup_delete_Some in E' as [HN E']. split; [eauto|].
      intros [= _ ->]. contradiction.
  - intros coin i. rewrite delete_list_lookup. case_decide as HD.
    + split; [discriminate|]. intros (e' & E' & Hc). exfalso. apply lookup_delete_Some in E' as [HN E'].
      assert (X1 : mp_txs_by_input m !! coin = Some id) by (apply I2; eauto).
      assert (X2 : mp_txs_by_input m !! coin = Some i) by (apply I2; eauto). congruence.
    + rewrite I2. split; intros (e' & E' & Hc); exists e'; (split; [|exact Hc]).
      * rewrite lookup_delete_ne; [exact E'|]. intros ->. congruence.
      * apply lookup_delete_Some in E'. tauto.
  - rewrite (total_size_delete _ _ _ E), I3. apply sat_sub_exact.
    split; [apply (I4 _ _ E)|]. apply (total_size_ge _ id); [|exact E]. intros i x Hx. apply (I4 i x Hx).
  - intros i e' E'. apply lookup_delete_Some in E' as [_ E']. apply I4, E'.
Qed.

Lemma remove_reveal_lookup m id i :
  mp_reveals (remove_reveal_internal m id) !! i = if decide (i = id) then None else mp_reveals m !! i.
Proof.
  unfold remove_reveal_internal. destruct (mp_reveals m !! id) as [e|] eqn:E; cbn [mp_reveals].
  - case_decide as HD; [subst i; apply lookup_delete_eq|apply lookup_delete_ne; congruence].
  - case_decide as HD; [congruence|reflexivity].
Qed.

Lemma remove_reveals_inv ids : forall m, mp_inv m -> mp_inv (foldl remove_reveal_internal m ids).
Proof. induction ids as [|id ids IH]; intros m I; [exact I|]. apply IH, remove_reveal_inv, I. Qed.

Lemma remove_reveals_lookup ids i : forall m,
  mp_reveals (foldl remove_reveal_internal m ids) !! i
  = if decide (i ∈ ids) then None else mp_reveals m !! i.
Proof.
  induction ids as [|id ids IH]; intros m; cbn [foldl]; [reflexivity|].
  rewrite IH, remove_reveal_lookup. repeat case_decide; try reflexivity; set_solver.
Qed.

Lemma remove_reveals_commits ids : forall m,
  mp_commits (foldl remove_reveal_internal m ids) = mp_commits m
  /\ mp_commits_by_pow (foldl remove_reveal_internal m ids) = mp_commits_by_pow m.
Proof.
  induction ids as [|id ids IH]; intros m; cbn [foldl]; [auto|]. destruct (IH (remove_reveal_internal m id)) as [-> ->].
  unfold remove_reveal_internal. case_match; auto.
Qed.

Context (tx_size : Transaction -> Z).

Lemma insert_reveal_inv now tx m : mp_inv m ->
  is_spend tx = true -> input_coin_ids tx <> [] -> 0 <= tx_size tx -> mp_reveal_bytes m + tx_size tx < 2 ^ 64 ->
  mp_reveals m !! get_tx_id tx = None ->
  (forall coin, coin ∈ input_coin_ids tx -> mp_txs_by_input m !! coin = None) ->
  mp_inv (insert_reveal tx_size now tx m).
Proof.
  intros [I1 I2 I3 I4 I5 I6 I7] HS HN HZ HB HF HC. unfold insert_reveal. cbv zeta. set (id := get_tx_id tx) in *.
  set (e := mkMempoolTx tx (tx_size tx) now).
  split; cbn [mp_reveals_by_fee mp_reveals mp_txs_by_input mp_reveal_bytes mp_commits mp_commits_by_pow]; try assumption.
  - intros r i. rewrite elem_of_union, elem_of_singleton, I1. split.
    + intros [[= -> ->]|(e' & E' & ->)].
      * exists e. rewrite lookup_insert_eq. split; reflexivity.
      * exists e'. rewrite lookup_insert_ne by congruence. auto.
    + intros (e' & E' & ->). apply lookup_insert_Some in E' as [[<- <-]|[_ E']]; [left; reflexivity|].
      right. eauto.
  - intros coin i. rewrite insert_list_lookup. case_decide as HD.
    + split.
      * intros [= <-]. exists e. rewrite lookup_insert_eq. auto.
      * intros (e' & E' & Hc). apply lookup_insert_Some in E' as [[<- <-]|[_ E']]; [reflexivity|].
        exfalso. specialize (HC coin HD). rewrite (proj2 (I2 coin i)) in HC by eauto. discriminate.
    + rewrite I2. split; intros (e' & E' & Hc); exists e'; (split; [|exact Hc]).
      * rewrite lookup_insert_ne by congruence. exact E'.
      * apply lookup_insert_Some in E' as [[<- <-]|[_ E']]; [contradiction|exact E'].
  - rewrite total_size_insert, <- I3 by exact HF. cbn [mt_size e]. unfold wrap.
    rewrite Z.mod_small; [lia|]. split; [|lia]. apply Z.add_nonneg_nonneg; [|exact HZ].
    rewrite I3. unfold total_size. apply sumZ_nonneg, Forall_map, Forall_forall.
    intros [i x] Hx. apply elem_of_map_to_list in Hx. apply (I4 i x Hx).
  - intros i e' E'. apply lookup_insert_Some in E' as [[<- <-]|[_ E']]; [auto|apply I4, E'].
Qed.

(** ** Commits *)

Lemma remove_commit_inv c m : mp_inv m -> mp_inv (remove_commit c m).
Proof.
  intros I. unfold remove_commit. destruct (mp_commits m !! c) as [e|] eqn:E; [|exact I].
  destruct I as [I1 I2 I3 I4 I5 I6 I7].
  split; cbn [mp_reveals_by_fee mp_reveals mp_txs_by_input mp_reveal_bytes mp_commits mp_commits_by_pow]; try assumption.
  - intros c'. destruct (decide (c' = c)) as [->|NE].
    + rewrite lookup_delete_eq. split; [intros [? ?]; discriminate|].
      intros [z [Hz _]%elem_of_filter]. cbn in Hz. congruence.
    + rewrite lookup_delete_ne, I5 by congruence. split; intros [z Hz]; exists z.
      * apply elem_of_filter. auto.
      * apply elem_of_filter in Hz. tauto.
  - intros z z' c' [_ Hz]%elem_of_filter [_ Hz']%elem_of_filter. eapply I6; eassumption.
  - intros c' e' E'. apply lookup_delete_Some in E' as [_ E']. apply (I7 c' e' E').
Qed.

Lemma remove_commits_inv cs : forall m, mp_inv m -> mp_inv (foldl (fun m c => remove_commit c m) m cs).
Proof. induction cs as [|c cs IH]; intros m I; [exact I|]. apply IH, remove_commit_inv, I. Qed.

Lemma insert_commit_inv now z n c m : mp_inv m -> mp_commits m !! c = None ->
  mp_inv (insert_commit now z n c m).
Proof.
  intros [I1 I2 I3 I4 I5 I6 I7] HN.
  assert (HF : forall z', (z', c) ∉ mp_commits_by_pow m).
  { intros z' Hz. destruct (proj2 (I5 c) (ex_intro _ z' Hz)) as [? ?]. congruence. }
  split; cbn [insert_commit mp_reveals_by_fee mp_reveals mp_txs_by_input mp_reveal_bytes mp_commits mp_commits_by_pow];
    try assumption.
  - intros c'. destruct (decide (c' = c)) as [->|NE].
    + rewrite lookup_insert_eq. split; [|eauto]. intros _. exists z. apply elem_of_union_l, elem_of_singleton. reflexivity.
    + rewrite lookup_insert_ne, I5 by congruence. split; intros [z' Hz]; exists z'.
      * apply elem_of_union_r, Hz.
      * apply elem_of_union in Hz as [[= _ ->]%elem_of_singleton|Hz]; [contradiction|exact Hz].
  - intros z1 z2 c' H1 H2. apply elem_of_union in H1, H2. rewrite !elem_of_singleton in H1, H2.
    destruct H1 as [H1|H1], H2 as [H2|H2]; simplify_eq; try reflexivity;
      try (exfalso; eapply HF; eassumption). eapply I6; eassumption.
  - intros c' e' E'. apply lookup_insert_Some in E' as [[<- <-]|[_ E']]; [exists n; reflexivity|apply (I7 c' e' E')].
Qed.

Lemma evict_commit_inv z c m : mp_inv m -> (z, c) ∈ mp_commits_by_pow m ->
  mp_inv (mkMempool (delete c (mp_commits m)) (mp_commits_by_pow m ∖ {[(z, c)]})
            (mp_reveals m) (mp_reveals_by_fee m) (mp_txs_by_input m) (mp_reveal_bytes m)).
Proof.
  intros I Hz. assert (E : filter (fun p : Z * hash32 => p.2 <> c) (mp_commits_by_pow m) = mp_commits_by_pow m ∖ {[(z, c)]}).
  { apply leibniz_equiv. intros [z' c']. rewrite elem_of_filter, elem_of_difference, elem_of_singleton. cbn. split.
    - intros [HN Hc]. split; [exact Hc|]. intros [= _ ->]. contradiction.
    - intros [Hc HN]. split; [|exact Hc]. intros ->. apply HN. f_equal. eapply (mi_pow_once _ I); eassumption. }
  pose proof (remove_commit_inv c m I) as HR. unfold remove_commit in HR.
  destruct (proj2 (mi_pow _ I c) (ex_intro _ z Hz)) as [e Ee]. rewrite Ee, E in HR. exact HR.
Qed.

End MempoolInv.

(** * Admission of a reveal *)

Section Admission.
Context `{Blake3}.
Context (tx_size : Transaction -> Z).

(** The entries and bytes left once [ids] are gone. *)
Definition left_after (m : Mempool) (ids : list hash32) (bytes len : Z) : Prop :=
  NoDup ids /\ Forall (fun id => is_Some (mp_reveals m !! id)) ids
  /\ len = Z.of_nat (size (mp_reveals (foldl remove_reveal_internal m ids)))
  /\ bytes = mp_reveal_bytes (foldl remove_reveal_internal m ids).

Lemma left_after_snoc m ids bytes len id e : mp_inv m -> left_after m ids bytes len ->
  id ∉ ids -> mp_reveals m !! id = Some e ->
  left_after m (ids ++ [id]) (sat_sub bytes (mt_size e)) (sat_sub len 1).
Proof.
  intros I (N & F & -> & ->) Hid E. unfold left_after. rewrite foldl_app. cbn [foldl].
  set (m1 := foldl remove_reveal_internal m ids).
  assert (E1 : mp_reveals m1 !! id = Some e)
    by (unfold m1; rewrite remove_reveals_lookup, decide_False by exact Hid; exact E).
  split; [apply NoDup_app; split; [exact N|split; [|apply NoDup_singleton]]|].
  { intros x Hx Hy. apply list_elem_of_singleton in Hy as ->. contradiction. }
  split; [apply Forall_app; split; [exact F|]; constructor; [eauto|constructor]|].
  unfold remove_reveal_internal. rewrite E1. cbn [mp_reveals mp_reveal_bytes]. split; [|reflexivity].
  rewrite map_size_delete, E1. pose proof (map_size_ne_0_lookup_2 (mp_reveals m1) id ltac:(eauto)).
  unfold sat_sub. cbn. lia.
Qed.

Lemma conflicts_spec m inputs : mp_inv m ->
  NoDup (conflicts m inputs)
  /\ (forall id, id ∈ conflicts m inputs <-> exists coin, coin ∈ inputs /\ mp_txs_by_input m !! coin = Some id).
Proof.
  intros I. unfold conflicts.
  assert (G : forall found, NoDup found ->
    let r := foldl (fun found input => match mp_txs_by_input m !! input with
      | Some existing_id => if bool_decide (existing_id ∈ found) then found else found ++ [existing_id]
      | None => found end) found inputs in
    NoDup r /\ forall id, id ∈ r <-> id ∈ found \/ exists coin, coin ∈ inputs /\ mp_txs_by_input m !! coin = Some id).
  { induction inputs as [|i inputs IH]; intros found ND; cbn [foldl]; cbv zeta in *.
    - split; [exact ND|]. intros id. split; [auto|]. intros [?|(c & Hc & _)]; [assumption|inversion Hc].
    - destruct (mp_txs_by_input m !! i) as [x|] eqn:Ex; [destruct (decide (x ∈ found)) as [Hx|Hx]|].
      + rewrite bool_decide_true by exact Hx. destruct (IH found ND) as [R1 R2]. split; [exact R1|].
        intros id. rewrite R2. setoid_rewrite elem_of_cons. naive_solver.
      + rewrite bool_decide_false by exact Hx.
        destruct (IH (found ++ [x])) as [R1 R2].
        { apply NoDup_app. split; [exact ND|]. split; [|apply NoDup_singleton].
          intros y Hy Hz. apply list_elem_of_singleton in Hz as ->. contradiction. }
        split; [exact R1|]. intros id. rewrite R2. setoid_rewrite elem_of_cons.
        rewrite elem_of_app, list_elem_of_singleton. naive_solver.
      + destruct (IH found ND) as [R1 R2]. split; [exact R1|].
        intros id. rewrite R2. setoid_rewrite elem_of_cons. naive_solver. }
  destruct (G [] (NoDup_nil_2)) as [R1 R2]. split; [exact R1|]. intros id. rewrite R2.
  split; [intros [Hi|?]; [inversion Hi|assumption]|auto].
Qed.

Definition cheaper (m : Mempool) (rate : Z) (id : hash32) : Prop :=
  exists e, mp_reveals m !! id = Some e /\ entry_rate e < rate.

Lemma outbid_spec m rate ids : mp_inv m -> forall done bytes len b l,
  left_after m done bytes len -> NoDup (done ++ ids) -> Forall (fun id => is_Some (mp_reveals m !! id)) ids ->
  outbid (mp_reveals m) rate ids bytes len = Ok (b, l) ->
  left_after m (done ++ ids) b l /\ Forall (cheaper m rate) ids.
Proof.
  intros I. induction ids as [|id ids IH]; intros done bytes len b l L N F E; cbn [outbid] in E.
  - injection E as <- <-. rewrite app_nil_r. auto.
  - apply Forall_cons in F as [[e Ee] F]. rewrite Ee in E.
    destruct (Z.leb_spec rate (entry_rate e)) as [HL|HL]; [discriminate|].
    assert (Hid : id ∉ done).
    { apply NoDup_app in N as (_ & N & _). intros Hd. apply (N id Hd). left. }
    replace (done ++ id :: ids) with ((done ++ [id]) ++ ids) in * by (rewrite <- app_assoc; reflexivity).
    destruct (IH _ _ _ _ _ (left_after_snoc _ _ _ _ _ _ I L Hid Ee) N F E) as [R1 R2].
    split; [exact R1|]. constructor; [exists e; auto|exact R2].
Qed.

Lemma outbid_safe rs rate ids : forall b l, outbid rs rate ids b l <> Panic.
Proof. induction ids as [|id ids IH]; intros b l; cbn [outbid]; repeat case_match; try discriminate; apply IH. Qed.

Definition over_capacity (bytes len tx_bytes : Z) : bool :=
  (MAX_MEMPOOL_REVEALS <? len + 1) || (MAX_MEMPOOL_BYTES <? wrap 64 (bytes + tx_bytes)).

Lemma evict_loop_spec m rate tx_bytes iter : mp_inv m ->
  Forall (fun p => p ∈ mp_reveals_by_fee m) iter ->
  forall done bytes len r, left_after m done bytes len ->
  evict_loop iter (mp_reveals m) rate tx_bytes bytes len done = Ok r ->
  exists more b l, r = done ++ more /\ left_after m r b l /\ over_capacity b l tx_bytes = false
  /\ Forall (cheaper m rate) more /\ (over_capacity bytes len tx_bytes = false -> more = []).
Proof.
  intros I. induction iter as [|[lr lid] iter IH]; intros HF done bytes len r L E; cbn [evict_loop] in E;
    fold (over_capacity bytes len tx_bytes) in E; destruct (over_capacity bytes len tx_bytes) eqn:EO;
    try discriminate;
    try (injection E as <-; exists [], bytes, len; rewrite app_nil_r; auto).
  apply Forall_cons in HF as [HI HF].
  case_bool_decide as HD.
  { destruct (IH HF _ _ _ _ L E) as (more & b & l & -> & R1 & R2 & R3 & R4). exists more, b, l.
    repeat (split; [assumption||reflexivity|]). discriminate. }
  destruct (Z.ltb_spec lr rate) as [HL|HL]; [|discriminate].
  apply (mi_fee _ I) in HI as (e & Ee & ->). rewrite Ee in E.
  destruct (IH HF _ _ _ _ (left_after_snoc _ _ _ _ _ _ I L HD Ee) E) as (more & b & l & -> & R1 & R2 & R3 & R4).
  exists (lid :: more), b, l. rewrite <- app_assoc in *. split; [reflexivity|]. split; [exact R1|].
  split; [exact R2|]. split; [|discriminate]. constructor; [exists e; auto|exact R3].
Qed.

Lemma evict_loop_safe rs rate tb iter : forall b l d, evict_loop iter rs rate tb b l d <> Panic.
Proof. induction iter as [|[lr lid] iter IH]; intros b l d; cbn [evict_loop]; repeat case_match; try discriminate; apply IH. Qed.

Lemma check_reuse_safe oracle tx : (tx_inputs tx = [] -> oracle = ∅) -> check_reuse oracle tx <> Panic.
Proof.
  intros HN. unfold check_reuse. case_bool_decide as HO; [discriminate|].
  assert (HC : forall c k, check_spent oracle c k <> Panic).
  { intros c k. unfold check_spent. repeat case_match; try discriminate. apply bail_if_safe. }
  destruct tx as [c n|inputs ws outs salt|inputs w outs salt]; [discriminate|apply check_all_safe; intros; apply HC|].
  apply bind_safe; [|intros; apply HC]. destruct w as [[|sig l]]; [discriminate|].
  destruct inputs; [|discriminate]. exfalso. apply HO, HN. reflexivity.
Qed.

(** Everything that is displaced is outbid, and only conflicting reveals are
    displaced while there is room. *)
Lemma displaced_spec oracle tx m r : mp_inv m -> displaced tx_size oracle tx m = Ok r ->
  exists b l, left_after m r b l /\ over_capacity b l (tx_size tx) = false
  /\ Forall (cheaper m (compute_fee_rate (fee tx) (tx_size tx))) r
  /\ (forall coin id, coin ∈ input_coin_ids tx -> mp_txs_by_input m !! coin = Some id -> id ∈ r).
Proof.
  intros I E. unfold displaced in E. cbv zeta in E. repeat ok_step.
  destruct (conflicts_spec m (input_coin_ids tx) I) as [C1 C2].
  match goal with X : outbid _ _ _ _ _ = Ok _ |- _ => rename X into EO end.
  match goal with X : evict_loop _ _ _ _ _ _ _ = Ok _ |- _ => rename X into EE end.
  assert (F : Forall (fun id => is_Some (mp_reveals m !! id)) (conflicts m (input_coin_ids tx))).
  { apply Forall_forall. intros id Hid. apply C2 in Hid as (coin & _ & Hc).
    apply (mi_inputs _ I) in Hc as (e & Ee & _). eauto. }
  assert (L0 : left_after m [] (mp_reveal_bytes m) (Z.of_nat (size (mp_reveals m))))
    by (split; [constructor|]; split; [constructor|]; split; reflexivity).
  destruct (outbid_spec m _ _ I [] _ _ _ _ L0 C1 F EO) as [L1 F1]. cbn [app] in L1.
  assert (HF : Forall (fun p => p ∈ mp_reveals_by_fee m) (prio_list (mp_reveals_by_fee m)))
    by (apply Forall_forall; intros p; apply elem_of_prio_list).
  destruct (evict_loop_spec m _ _ _ I HF _ _ _ _ L1 EE) as (more & b & l & -> & R1 & R2 & R3 & R4).
  exists b, l. split; [exact R1|]. split; [exact R2|]. split; [apply Forall_app; auto|].
  intros coin id Hc HX. apply elem_of_app. left. apply C2. eauto.
Qed.

(** ** Content ids *)

(** The preimages of the ids of the pool's reveals and of [tx]. *)
Definition pool_preimages (m : Mempool) (tx : Transaction) (p : bytes) : Prop :=
  p = tx_id_preimage tx \/ exists id e, mp_reveals m !! id = Some e /\ p = tx_id_preimage (mt_tx e).

(** Two spends with the same id share their first input. *)
Lemma same_id_shares tx1 tx2 : is_spend tx1 = true -> is_spend tx2 = true ->
  input_coin_ids tx1 <> [] -> input_coin_ids tx2 <> [] -> tx_id_preimage tx1 = tx_id_preimage tx2 ->
  exists coin, coin ∈ input_coin_ids tx1 /\ coin ∈ input_coin_ids tx2.
Proof.
  assert (HP : forall tx i l, is_spend tx = true -> input_coin_ids tx = i :: l ->
    exists b rest, tx_id_preimage tx = b :: arr_list i ++ rest).
  { intros tx i l HS E. destruct tx as [|inputs ws outs salt|inputs w outs salt]; [discriminate|..];
      cbn [tx_id_preimage input_coin_ids] in *; rewrite E; unfold concat_hashes; cbn [fmap list_fmap mjoin list_join];
      rewrite <- app_assoc; eauto. }
  intros S1 S2 N1 N2 E.
  destruct (input_coin_ids tx1) as [|i1 l1] eqn:E1; [congruence|].
  destruct (input_coin_ids tx2) as [|i2 l2] eqn:E2; [congruence|].
  destruct (HP _ _ _ S1 E1) as (b1 & r1 & P1). destruct (HP _ _ _ S2 E2) as (b2 & r2 & P2).
  rewrite P1, P2 in E. injection E as _ E.
  apply app_inj_1 in E as [E _]; [|rewrite !arr_length; reflexivity].
  apply arr_eq in E as ->. exists i2. split; left.
Qed.

(** Once the displaced reveals are gone, the inputs of [tx] are free and its id is new. *)
Lemma displaced_fresh oracle tx m r : mp_inv m -> displaced tx_size oracle tx m = Ok r ->
  is_spend tx = true -> input_coin_ids tx <> [] -> collision_free (pool_preimages m tx) ->
  mp_reveals (foldl remove_reveal_internal m r) !! get_tx_id tx = None
  /\ forall coin, coin ∈ input_coin_ids tx -> mp_txs_by_input (foldl remove_reveal_internal m r) !! coin = None.
Proof.
  intros I E HS HN CF. destruct (displaced_spec _ _ _ _ I E) as (b & l & L & _ & _ & HC).
  pose proof (remove_reveals_inv r m I) as I'. set (m' := foldl remove_reveal_internal m r) in *.
  assert (HI : forall coin, coin ∈ input_coin_ids tx -> mp_txs_by_input m' !! coin = None).
  { intros coin Hc. destruct (mp_txs_by_input m' !! coin) as [id|] eqn:Ei; [|reflexivity]. exfalso.
    apply (mi_inputs _ I') in Ei as (e & Ee & He). unfold m' in Ee. rewrite remove_reveals_lookup in Ee.
    case_decide as HD; [discriminate|]. apply HD, (HC coin id Hc), (mi_inputs _ I). eauto. }
  split; [|exact HI].
  destruct (mp_reveals m' !! get_tx_id tx) as [e|] eqn:Ee; [|reflexivity]. exfalso.
  pose proof (mi_entry _ I' _ _ Ee) as (_ & Eid & Es & En).
  assert (EP : tx_id_preimage tx = tx_id_preimage (mt_tx e)).
  { apply CF; [left; reflexivity| |].
    - right. exists (get_tx_id tx), e. split; [|reflexivity]. unfold m' in Ee. rewrite remove_reveals_lookup in Ee.
      case_decide; [discriminate|exact Ee].
    - unfold get_tx_id in Eid. destruct tx; [discriminate| |]; destruct (mt_tx e); try discriminate; exact Eid. }
  destruct (same_id_shares _ _ HS Es HN En EP) as (coin & H1 & H2).
  specialize (HI coin H1). rewrite (proj2 (mi_inputs _ I' coin (get_tx_id tx))) in HI by eauto. discriminate.
Qed.

Lemma displaced_inv oracle tx m r now : mp_inv m -> displaced tx_size oracle tx m = Ok r ->
  is_spend tx = true -> input_coin_ids tx <> [] -> collision_free (pool_preimages m tx) ->
  0 <= tx_size tx -> mp_reveal_bytes m + tx_size tx < 2 ^ 64 ->
  mp_inv (insert_reveal tx_size now tx (foldl remove_reveal_internal m r)).
Proof.
  intros I E HS HN CF HZ HB. destruct (displaced_fresh _ _ _ _ I E HS HN CF) as [F1 F2].
  pose proof (remove_reveals_inv r m I) as I'.
  assert (HLE : mp_reveal_bytes (foldl remove_reveal_internal m r) <= mp_reveal_bytes m).
  { clear -I. revert m I. induction r as [|id r IH]; intros m I; cbn [foldl]; [lia|].
    etransitivity; [apply IH, remove_reveal_inv, I|]. unfold remove_reveal_internal.
    destruct (mp_reveals m !! id) as [e|] eqn:Ee; [|lia]. cbn [mp_reveal_bytes]. unfold sat_sub.
    pose proof (mi_entry _ I _ _ Ee) as (? & _). rewrite (mi_bytes _ I).
    pose proof (total_size_ge (mp_reveals m) id e (fun i x Hx => proj1 (mi_entry _ I i x Hx)) Ee). lia. }
  apply insert_reveal_inv; try assumption. lia.
Qed.

End Admission.

(** * Draining *)

Section Draining.
Context `{Blake3}.

Definition reveal_txs (m : Mempool) : list Transaction :=
  omap (fun p : Z * hash32 => mt_tx <$> mp_reveals m !! p.2) (rev (prio_list (mp_reveals_by_fee m))).
Definition commit_txs (m : Mempool) : list Transaction :=
  omap (fun p : Z * hash32 => fst <$> mp_commits m !! p.2) (rev (prio_list (mp_commits_by_pow m))).

Lemma omap_ext_in {X Y} (f g : X -> option Y) (l : list X) : (forall x, x ∈ l -> f x = g x) -> omap f l = omap g l.
Proof.
  induction l as [|x l IH]; intros HE; [reflexivity|]. cbn. rewrite (HE x) by left.
  rewrite IH by (intros y Hy; apply HE; right; exact Hy). reflexivity.
Qed.

(** Taking the best reveal. *)
Lemma pop_reveal m l r id : mp_inv m -> prio_list (mp_reveals_by_fee m) = l ++ [(r, id)] ->
  exists e, mp_reveals m !! id = Some e /\ r = entry_rate e
  /\ reveal_txs m = mt_tx e :: reveal_txs (remove_reveal_internal m id)
  /\ prio_list (mp_reveals_by_fee (remove_reveal_internal m id)) = l.
Proof.
  intros I E. assert (Hin : (r, id) ∈ mp_reveals_by_fee m)
    by (apply elem_of_prio_list; rewrite E; apply elem_of_app; right; left).
  apply (mi_fee _ I) in Hin as (e & Ee & ->). exists e. split; [exact Ee|]. split; [reflexivity|].
  unfold remove_reveal_internal, reveal_txs. rewrite Ee. cbn [mp_reveals mp_reveals_by_fee].
  rewrite (prio_list_snoc _ _ _ E). split; [|reflexivity].
  rewrite E, rev_unit. cbn [omap list_omap snd]. rewrite Ee. cbn [fmap option_fmap option_map]. f_equal.
  apply omap_ext_in. intros [r' i] Hi. cbn [snd]. rewrite lookup_delete_ne; [reflexivity|].
  intros <-. apply list_elem_of_In, in_rev, list_elem_of_In in Hi.
  assert (Hr : (r', id) ∈ mp_reveals_by_fee m) by (apply elem_of_prio_list; rewrite E; apply elem_of_app; auto).
  apply (mi_fee _ I) in Hr as (e' & Ee' & ->). assert (e' = e) as -> by congruence.
  pose proof (prio_list_NoDup (mp_reveals_by_fee m)) as ND. rewrite E in ND.
  apply NoDup_app in ND as (_ & ND & _). apply (ND _ Hi). left.
Qed.

Lemma drain_reveals_spec n : forall m, mp_inv m ->
  exists m', drain_reveals n m = Ok (take n (reveal_txs m), m') /\ mp_inv m' /\ commit_txs m' = commit_txs m.
Proof.
  induction n as [|n IH]; intros m I; cbn [drain_reveals].
  - exists m. rewrite take_0. auto.
  - destruct (last (prio_list (mp_reveals_by_fee m))) as [[r id]|] eqn:EL.
    + apply last_Some in EL as [l EL]. destruct (pop_reveal m l r id I EL) as (e & Ee & -> & ET & _).
      rewrite Ee. cbn [unwrap mbind res_bind].
      match goal with |- context [drain_reveals n ?m1] =>
        replace m1 with (remove_reveal_internal m id) by (unfold remove_reveal_internal; rewrite Ee; reflexivity) end.
      destruct (IH _ (remove_reveal_inv m id I)) as (m' & E' & I' & C'). rewrite E'. cbn [mbind res_bind].
      exists m'. rewrite ET. split; [reflexivity|]. split; [exact I'|]. rewrite C'.
      unfold remove_reveal_internal. rewrite Ee. reflexivity.
    + apply last_None in EL. exists m. unfold reveal_txs. rewrite EL. auto.
Qed.

Lemma drain_commits_spec n : forall m, mp_inv m ->
  exists m', drain_commits n m = Ok (take n (commit_txs m), m') /\ mp_inv m'.
Proof.
  induction n as [|n IH]; intros m I; cbn [drain_commits].
  - exists m. rewrite take_0. auto.
  - destruct (last (prio_list (mp_commits_by_pow m))) as [[z c]|] eqn:EL.
    + apply last_Some in EL as [l EL].
      assert (Hz : (z, c) ∈ mp_commits_by_pow m)
        by (apply elem_of_prio_list; rewrite EL; apply elem_of_app; right; left).
      destruct (proj2 (mi_pow _ I c) (ex_intro _ z Hz)) as [e Ee]. rewrite Ee. cbn [unwrap mbind res_bind].
      destruct (IH _ (evict_commit_inv z c m I Hz)) as (m' & E' & I'). rewrite E'. cbn [mbind res_bind].
      exists m'. split; [|exact I']. unfold commit_txs. cbn [mp_commits mp_commits_by_pow].
      rewrite (prio_list_snoc _ _ _ EL), EL, rev_unit. cbn [omap list_omap snd]. rewrite Ee.
      cbn [fmap option_fmap option_map take]. do 4 f_equal. apply omap_ext_in. intros [z' c'] Hc. cbn [snd].
      rewrite lookup_delete_ne; [reflexivity|]. intros <-. apply list_elem_of_In, in_rev, list_elem_of_In in Hc.
      assert (Hz' : (z', c) ∈ mp_commits_by_pow m) by (apply elem_of_prio_list; rewrite EL; apply elem_of_app; auto).
      rewrite (mi_pow_once _ I _ _ _ Hz' Hz) in Hc.
      pose proof (prio_list_NoDup (mp_commits_by_pow m)) as ND. rewrite EL in ND.
      apply NoDup_app in ND as (_ & ND & _). apply (ND _ Hc). left.
    + apply last_None in EL. exists m. unfold commit_txs. rewrite EL. auto.
Qed.

Lemma drain_spec n m : mp_inv m ->
  exists m', drain n m = Ok (take n (transactions m), m') /\ mp_inv m'.
Proof.
  intros I. unfold drain. destruct (drain_reveals_spec n m I) as (m1 & -> & I1 & C1). cbn [mbind res_bind].
  destruct (drain_commits_spec (n - length (take n (reveal_txs m))) m1 I1) as (m2 & E2 & I2).
  rewrite E2. cbn [mbind res_bind]. exists m2. split; [|exact I2]. do 2 f_equal. rewrite C1.
  change (transactions m) with (reveal_txs m ++ commit_txs m). rewrite take_app. f_equal.
  f_equal. rewrite length_take. lia.
Qed.

End Draining.

(** * Properties *)

Section Properties.
Context `{Blake3}.
Context (fast_mining : bool) (usize_bits : Z).
Context (witnesses_size : list Witness -> option Z) (tx_size : Transaction -> Z).
Context (required_pow : nat -> Z).
Context {A : Type} `{!SetAccumulator A}.

Abbreviation add_tx := (add fast_mining tx_size required_pow).
Abbreviation re_add_txs := (re_add fast_mining usize_bits witnesses_size tx_size).

(** Transactions whose ids do not collide with the pool's, and which fit in the
    byte counter. *)
Definition admissible (m : Mempool) (txs : list Transaction) : Prop :=
  collision_free (fun p => (exists tx, tx ∈ txs /\ p = tx_id_preimage tx)
                           \/ exists id e, mp_reveals m !! id = Some e /\ p = tx_id_preimage (mt_tx e))
  /\ Forall (fun tx => is_spend tx = true -> input_coin_ids tx <> []) txs
  /\ Forall (fun tx => 0 <= tx_size tx) txs
  /\ mp_reveal_bytes m + sumZ (map tx_size txs) < 2 ^ 64.

Lemma add_commit_inv now c n (st : State A) m : mp_inv m ->
  mp_inv (add_commit fast_mining required_pow now c n st m).2.
Proof.
  intros I. unfold add_commit. destruct (evaluate_commit_pow _ _ _ _) as [z|e|]; try exact I.
  destruct (_ <? _); [exact I|]. case_bool_decide as HN; [exact I|].
  assert (EN : mp_commits m !! c = None) by (destruct (mp_commits m !! c); [exfalso; eauto|reflexivity]).
  destruct (_ <=? _); [|apply insert_commit_inv; assumption].
  destruct (prio_list (mp_commits_by_pow m)) as [|[lp lc] rest] eqn:EP; [apply insert_commit_inv; assumption|].
  destruct (lp <? z); [|exact I]. apply insert_commit_inv.
  - apply evict_commit_inv; [exact I|]. apply elem_of_prio_list. rewrite EP. left.
  - cbn [mp_commits]. apply lookup_delete_None. auto.
Qed.

Lemma add_inv now tx (st : State A) oracle m : mp_inv m -> admissible m [tx] -> mp_inv (add_tx now tx st oracle m).2.
Proof.
  intros I (CF & HN & HZ & HB). destruct (is_spend tx) eqn:HS.
  - assert (EA : add_tx now tx st oracle m = add_reveal tx_size now tx oracle m) by (destruct tx; [discriminate|reflexivity..]).
    rewrite EA. unfold add_reveal. destruct (displaced tx_size oracle tx m) as [r|e|] eqn:ED; try exact I. cbn [snd].
    apply (displaced_inv tx_size oracle); try assumption.
    + apply Forall_inv in HN. auto.
    + eapply collision_free_mono; [|exact CF]. intros p [->|HP]; [left; exists tx; split; [left|reflexivity]|right; exact HP].
    + apply Forall_inv in HZ. exact HZ.
    + cbn in HB. lia.
  - destruct tx; [|discriminate..]. apply add_commit_inv, I.
Qed.

Lemma validated_inputs (st : State A) tx : is_spend tx = true ->
  is_ok (validate_transaction fast_mining usize_bits witnesses_size st tx) = true -> input_coin_ids tx <> [].
Proof.
  intros HS. destruct tx as [|inputs ws outs salt|inputs w outs salt]; [discriminate|..];
    cbn [validate_transaction input_coin_ids]; open_tx; (destruct inputs; [discriminate|]); discriminate.
Qed.

Lemma restore_inv now (st : State A) m tx Q : mp_inv m -> collision_free Q ->
  Q (tx_id_preimage tx) -> (forall id e, mp_reveals m !! id = Some e -> Q (tx_id_preimage (mt_tx e))) ->
  0 <= tx_size tx -> mp_reveal_bytes m + tx_size tx < 2 ^ 64 ->
  let m' := (restore fast_mining usize_bits witnesses_size tx_size now st m tx).2 in
  mp_inv m' /\ (forall id e, mp_reveals m' !! id = Some e -> Q (tx_id_preimage (mt_tx e)))
  /\ mp_reveal_bytes m' <= mp_reveal_bytes m + tx_size tx.
Proof.
  intros I CF HQ HM HZ HB. unfold restore.
  destruct (is_ok _) eqn:EV; cbn [negb]; [|cbn; split; [exact I|]; split; [exact HM|lia]].
  destruct (already_present m tx) eqn:EA; [cbn; split; [exact I|]; split; [exact HM|lia]|].
  destruct (is_spend tx) eqn:HS.
  - assert (EM : (match tx with
      | Commit c n => match evaluate_commit_pow fast_mining c n st with Ok z => (true, insert_commit now z n c m) | _ => (true, m) end
      | _ => (true, insert_reveal tx_size now tx m) end) = (true, insert_reveal tx_size now tx m))
      by (destruct tx; [discriminate|reflexivity..]).
    rewrite EM. clear EM. cbn [snd]. pose proof (validated_inputs st tx HS EV) as HN.
    assert (HC : forall coin, coin ∈ input_coin_ids tx -> mp_txs_by_input m !! coin = None).
    { intros coin Hc. destruct (mp_txs_by_input m !! coin) as [x|] eqn:Ex; [|reflexivity]. exfalso.
      assert (ET : existsb (fun i => bool_decide (is_Some (mp_txs_by_input m !! i))) (input_coin_ids tx) = true).
      { apply existsb_exists. exists coin. split; [apply list_elem_of_In, Hc|]. apply bool_decide_eq_true. eauto. }
      destruct tx; [discriminate|..]; cbn [already_present] in EA; congruence. }
    split; [apply insert_reveal_inv; try assumption|].
    + destruct (mp_reveals m !! get_tx_id tx) as [e|] eqn:Ee; [|reflexivity]. exfalso.
      pose proof (mi_entry _ I _ _ Ee) as (_ & Eid & Es & En).
      assert (EP : tx_id_preimage tx = tx_id_preimage (mt_tx e)).
      { apply CF; [exact HQ|apply (HM _ _ Ee)|].
        unfold get_tx_id in Eid. destruct tx; [discriminate| |]; destruct (mt_tx e); try discriminate; exact Eid. }
      destruct (same_id_shares _ _ HS Es HN En EP) as (coin & H1 & H2).
      specialize (HC coin H1). rewrite (proj2 (mi_inputs _ I coin (get_tx_id tx))) in HC by eauto. discriminate.
    + cbn [insert_reveal mp_reveals mp_reveal_bytes]. split.
      * intros id e E. apply lookup_insert_Some in E as [[<- <-]|[_ E]]; [exact HQ|apply (HM _ _ E)].
      * unfold wrap. pose proof (mi_bytes _ I). apply Z.mod_le; [|lia].
        assert (0 <= total_size (mp_reveals m)); [|lia]. unfold total_size. apply sumZ_nonneg, Forall_map, Forall_forall.
        intros [i x] Hx. apply elem_of_map_to_list in Hx. apply (mi_entry _ I i x Hx).
  - destruct tx as [c n| |]; [|discriminate..]. destruct (evaluate_commit_pow _ _ _ _) as [z|e|];
      cbn [snd]; try (split; [exact I|]; split; [exact HM|lia]).
    split; [|split; [exact HM|cbn [insert_commit mp_reveal_bytes]; lia]]. apply insert_commit_inv; [exact I|].
    cbn [already_present] in EA. apply bool_decide_eq_false in EA. destruct (mp_commits m !! c); [exfalso; eauto|reflexivity].
Qed.

Lemma prune_invalid_inv (st : State A) m : mp_inv m -> mp_inv (prune_invalid fast_mining st m).
Proof. intros I. unfold prune_invalid. apply remove_reveals_inv, remove_commits_inv, I. Qed.

Lemma re_add_inv now txs (st : State A) m : mp_inv m -> admissible m txs -> mp_inv (re_add_txs now txs st m).
Proof.
  intros I (CF & _ & HZ & HB). unfold re_add.
  assert (G : forall b m1, mp_inv m1 -> mp_reveal_bytes m1 + sumZ (map tx_size txs) < 2 ^ 64 ->
    (forall id e, mp_reveals m1 !! id = Some e -> (exists tx, tx ∈ txs /\ tx_id_preimage (mt_tx e) = tx_id_preimage tx)
       \/ exists id' e', mp_reveals m !! id' = Some e' /\ tx_id_preimage (mt_tx e) = tx_id_preimage (mt_tx e')) ->
    mp_inv (foldl (fun acc tx => let '(r, m2) := restore fast_mining usize_bits witnesses_size tx_size now st acc.2 tx in
       (acc.1 || r, m2)) (b, m1) txs).2).
  { set (Q := fun p => (exists tx, tx ∈ txs /\ p = tx_id_preimage tx)
                \/ exists id' e', mp_reveals m !! id' = Some e' /\ p = tx_id_preimage (mt_tx e')) in CF.
    assert (HQ : Forall (fun tx => Q (tx_id_preimage tx)) txs)
      by (apply Forall_forall; intros tx Hx; left; eauto).
    change (forall b m1, mp_inv m1 -> mp_reveal_bytes m1 + sumZ (map tx_size txs) < 2 ^ 64 ->
      (forall id e, mp_reveals m1 !! id = Some e -> Q (tx_id_preimage (mt_tx e))) ->
      mp_inv (foldl (fun acc tx => let '(r, m2) := restore fast_mining usize_bits witnesses_size tx_size now st acc.2 tx in
       (acc.1 || r, m2)) (b, m1) txs).2).
    clearbody Q. clear HB. induction txs as [|tx txs IH]; intros b m1 I1 B1 H1; [exact I1|].
    apply Forall_cons in HZ as [Z1 Z2]. apply Forall_cons in HQ as [Q1 Q2]. unfold sumZ in B1. cbn [map foldr] in B1.
    fold (sumZ (map tx_size txs)) in B1.
    assert (0 <= sumZ (map tx_size txs)) by (apply sumZ_nonneg, Forall_map; exact Z2).
    cbn [foldl snd].
    destruct (restore_inv now st m1 tx Q I1 CF Q1 H1 Z1 ltac:(lia)) as (J1 & J2 & J3).
    destruct (restore _ _ _ _ _ _ m1 tx) as [r m2]. cbn [snd] in *. apply IH; try assumption. lia. }
  specialize (G false m I HB (fun id e E => or_intror (ex_intro _ id (ex_intro _ e (conj E eq_refl))))).
  destruct (foldl _ _ _) as [[] m']; [apply prune_invalid_inv, G|exact G].
Qed.

Lemma prune_block_inv (st : State A) a b c m : mp_inv m -> mp_inv (prune_on_new_block st a b c m).
Proof.
  intros I. unfold prune_on_new_block. do 2 apply remove_reveals_inv. apply remove_commits_inv.
  revert m I. induction a as [|coin a IH]; intros m I; [exact I|]. cbn [foldl]. apply IH.
  unfold remove_spender. destruct (mp_txs_by_input m !! coin) as [id|] eqn:Ei; [|exact I].
  pose proof (remove_reveal_inv m id I) as IR. apply (mi_inputs _ I) in Ei as (e & Ee & Hc).
  unfold remove_reveal_internal in *. cbn [mp_reveals]. rewrite Ee in *.
  assert (ED : forall (l : list hash32) (t : gmap hash32 hash32), coin ∈ l ->
    foldl (fun t input => delete input t) (delete coin t) l = foldl (fun t input => delete input t) t l).
  { intros l t Hl. apply map_eq. intros x. rewrite !delete_list_lookup. case_decide as HD; [reflexivity|].
    apply lookup_delete_ne. intros ->. contradiction. }
  cbn [mp_commits mp_commits_by_pow mp_reveals_by_fee mp_txs_by_input mp_reveal_bytes].
  rewrite ED by exact Hc. exact IR.
Qed.

(** C36: the mempool's maps and priority indices stay consistent: in the empty pool
    and after any admission, restoration after a reorganisation, block, pruning
    or draining, the fee index lists every reveal once at its fee rate, the input
    index maps exactly the inputs of the pending reveals to the one reveal that
    spends them (so no two pending reveals conflict), the byte counter is the
    total size, every commit has one entry in the proof-of-work index; and
    [drain] never aborts and returns the first transactions of the priority
    order that [transactions] reports. *)
Theorem mempool_consistent m :
  mp_inv mempool_new
  /\ (mp_inv m ->
      (forall now tx (st : State A) oracle, admissible m [tx] ->
         mp_inv (add fast_mining tx_size required_pow now tx st oracle m).2)
      /\ (forall now txs (st : State A), admissible m txs ->
         mp_inv (re_add fast_mining usize_bits witnesses_size tx_size now txs st m))
      /\ (forall (st : State A) spent mined burned, mp_inv (prune_on_new_block st spent mined burned m))
      /\ (forall st : State A, mp_inv (prune_invalid fast_mining st m))
      /\ forall n, exists m', drain n m = Ok (take n (transactions m), m') /\ mp_inv m').
Proof.
  split; [apply mempool_new_inv|]. intros I.
  split; [intros; apply add_inv; assumption|]. split; [intros; apply re_add_inv; assumption|].
  split; [intros; apply prune_block_inv, I|]. split; [intros; apply prune_invalid_inv, I|].
  intros n. apply drain_spec, I.
Qed.

(** C37: admission of a reveal.  A refusal leaves the pool alone and nothing aborts.
    An accepted reveal pays the minimum fee rate and is in the pool; the pool is
    within its limits of entries and bytes; every other reveal is still there
    unless its fee rate is strictly below the newcomer's; and no other pending
    reveal spends any of its inputs. *)
Theorem mempool_add_reveal now tx (st : State A) oracle m :
  mp_inv m -> is_spend tx = true -> admissible m [tx] ->
  let '(r, m') := add fast_mining tx_size required_pow now tx st oracle m in
  r <> Panic /\ (forall e, r = Err e -> m' = m)
  /\ (r = Ok () ->
      MIN_FEE_PER_KB * tx_size tx <= fee tx * FEE_RATE_SCALE
      /\ mp_reveals m' !! get_tx_id tx = Some (mkMempoolTx tx (tx_size tx) now)
      /\ Z.of_nat (size (mp_reveals m')) <= MAX_MEMPOOL_REVEALS
      /\ mp_reveal_bytes m' <= MAX_MEMPOOL_BYTES
      /\ (forall id e, mp_reveals m !! id = Some e ->
          mp_reveals m' !! id = Some e \/ entry_rate e < compute_fee_rate (fee tx) (tx_size tx))
      /\ forall id e coin, mp_reveals m' !! id = Some e -> coin ∈ input_coin_ids (mt_tx e) ->
          coin ∈ input_coin_ids tx -> id = get_tx_id tx).
Proof.
  intros I HS HA. pose proof (add_inv now tx st oracle m I HA) as I'.
  assert (EA : add_tx now tx st oracle m = add_reveal tx_size now tx oracle m) by (destruct tx; [discriminate|reflexivity..]).
  rewrite EA in *. clear EA. unfold add_reveal in *. destruct HA as (CF & HN & HZ & HB). apply Forall_inv in HN, HZ.
  specialize (HN HS). destruct (displaced tx_size oracle tx m) as [r|e|] eqn:ED; cbn [snd] in *.
  - split; [discriminate|]. split; [discriminate|]. intros _.
    destruct (displaced_spec _ _ _ _ _ I ED) as (b & l & (_ & _ & EL & EB) & EO & HF & _).
    set (m1 := foldl remove_reveal_internal m r) in *.
    assert (CF' : collision_free (pool_preimages m tx)).
    { eapply collision_free_mono; [|exact CF]. intros p [->|HP]; [left; exists tx; split; [left|reflexivity]|right; exact HP]. }
    destruct (displaced_fresh _ _ _ _ _ I ED HS HN CF') as [HX _]. fold m1 in HX.
    cbn [insert_reveal mp_reveals mp_reveal_bytes]. unfold over_capacity in EO. apply orb_false_iff in EO as [EO1 EO2].
    apply Z.ltb_ge in EO1, EO2.
    split. { unfold displaced in ED. cbv zeta in ED. repeat ok_step.
             match goal with X : (_ <? _) = false |- _ => apply Z.ltb_ge in X; exact X end. }
    split; [apply lookup_insert_eq|]. split.
    { rewrite map_size_insert, HX. cbn. lia. }
    split; [subst b; exact EO2|]. split.
    + intros id e Ee. destruct (decide (id ∈ r)) as [Hr|Hr].
      * right. rewrite Forall_forall in HF. destruct (HF id Hr) as (e' & Ee' & HL). congruence.
      * left. rewrite lookup_insert_ne.
        -- unfold m1. rewrite remove_reveals_lookup, decide_False by exact Hr. exact Ee.
        -- intros <-. unfold m1 in HX. rewrite remove_reveals_lookup, decide_False in HX by exact Hr. congruence.
    + intros id e coin Ee Hc Ht.
      assert (X1 : mp_txs_by_input (insert_reveal tx_size now tx m1) !! coin = Some id) by (apply (mi_inputs _ I'); eauto).
      cbn [insert_reveal mp_txs_by_input] in X1. rewrite insert_list_lookup, decide_True in X1 by exact Ht. congruence.
  - split; [discriminate|]. split; [reflexivity|]. discriminate.
  - exfalso. unfold displaced in ED. cbv zeta in ED. revert ED.
    apply bind_safe; [apply check_reuse_safe; intros EN; exfalso; apply HN; destruct tx; cbn in *; [discriminate|subst; reflexivity..]|].
    intros _ _. apply bind_safe; [apply bail_if_safe|]. intros _ _. apply bind_safe; [apply outbid_safe|].
    intros x _. apply evict_loop_safe.
Qed.

End Properties.

(** * Concrete inputs *)

Lemma demo_admissible `{Blake3} : admissible (fun _ => 100) mempool_new [demo_tx [demo_output (zero_arr 32)]].
Proof.
  split; [|split; [|split]].
  - assert (HE : forall id, mp_reveals mempool_new !! id = None) by (intros; apply lookup_empty).
    intros x y [(t & Ht & ->)|(id & e & E & _)]; [|rewrite HE in E; discriminate].
    intros [(t' & Ht' & ->)|(id & e & E & _)]; [|rewrite HE in E; discriminate].
    apply list_elem_of_singleton in Ht, Ht'. congruence.
  - constructor; [|constructor]. intros _. discriminate.
  - constructor; [lia|constructor].
  - cbn. lia.
Qed.

Lemma mempool_consistent_witness :
  let H := toy_blake3 in
  let tx := demo_tx [demo_output (zero_arr 32)] in
  mp_inv (add (A := gset hash32) false (fun _ => 100) (fun _ => 24) 7 tx (demo_state tx 6) ∅ mempool_new).2.
Proof.
  intros H tx.
  destruct (@mempool_consistent toy_blake3 false 64 demo_size (fun _ => 100) (fun _ => 24) (gset hash32)
    (@set_accumulator toy_blake3) mempool_new) as (I & F).
  apply (proj1 (F I)). apply demo_admissible.
Defined.

Lemma mempool_add_reveal_witness :
  let H := toy_blake3 in
  let tx := demo_tx [demo_output (zero_arr 32)] in
  exists m', add (A := gset hash32) false (fun _ => 100) (fun _ => 24) 7 tx (demo_state tx 6) ∅ mempool_new = (Ok (), m')
  /\ mp_reveals m' !! get_tx_id tx = Some (mkMempoolTx tx 100 7).
Proof.
  intros H tx.
  destruct (fst_Ok (add (A := gset hash32) false (fun _ => 100) (fun _ => 24) 7 tx (demo_state tx 6) ∅ mempool_new))
    as [m' E]; [vm_compute; reflexivity|].
  exists m'. split; [exact E|].
  pose proof (@mempool_add_reveal toy_blake3 false (fun _ => 100) (fun _ => 24) (gset hash32)
    7 tx (demo_state tx 6) ∅ mempool_new mempool_new_inv eq_refl demo_admissible) as F.
  change (@add toy_blake3) with (@add H) in F. rewrite E in F. apply F. reflexivity.
Defined.
