(* ===== verification/Miner.v ===== *)
(** Block production: the coinbase of [src/mining.rs], the block template of the
    node's own miner ([spawn_mining_task]) and the two-step template served to
    remote miners ([build_template_prefix], [finish_template]), all of
    [src/node.rs].

    [bincode::serialized_size] is the parameter [tx_size], the clock the
    argument [now], hexadecimal decoding the parameter [hex32]. *)
From Stdlib Require Import Strings.String.
From S2P Require Import Prelude Types Wots Mss Mmr Smt Transaction Difficulty State.

#[local] Open Scope Z_scope.

Definition MAX_BLOCK_BYTES : Z := 8000000.

(** * Coinbase *)

Section Coinbase.
Context `{Blake3}.

Definition coinbase_seed (mining_seed : hash32) (height index : Z) : hash32 :=
  let height_key := hash_concat mining_seed (le_bytes 8 height) in
  hash_concat height_key (le_bytes 8 index).

Definition coinbase_salt (mining_seed : hash32) (height index : Z) : hash32 :=
  let height_key := hash_concat mining_seed (le_bytes 8 height) in
  hash_concat height_key (le_bytes 8 (Z.lor index (2 ^ 63))).

Definition pool_salt (miner_addr : hash32) (height i : Z) : hash32 :=
  blake3 (bstr "pool_share" ++ miner_addr ++ le_bytes 8 height ++ le_bytes 8 i).

Definition coinbase_output (mining_seed : hash32) (height : Z) (pool_target : option (hash32 * hash32))
    (i : nat) (value : Z) : CoinbaseOutput :=
  match pool_target with
  | Some (pool_addr, miner_addr) =>
      {| cb_address := pool_addr; cb_value := value; cb_salt := pool_salt miner_addr height (Z.of_nat i) |}
  | None =>
      let seed := coinbase_seed mining_seed height (Z.of_nat i) in
      {| cb_address := compute_address (keygen seed); cb_value := value;
         cb_salt := coinbase_salt mining_seed height (Z.of_nat i) |}
  end.

Definition generate_coinbase (mining_seed : hash32) (height total_fees : Z)
    (pool_target : option (hash32 * hash32)) : list CoinbaseOutput :=
  let reward := block_reward height in
  let total_value := sat_add 64 reward total_fees in
  imap (coinbase_output mining_seed height pool_target) (decompose_value total_value).

End Coinbase.

(** * Selection *)

(** The local variables of the selection loops. *)
Record Selection (A : Type) : Type := mkSelection {
  sel_state : State A;
  sel_txs : list Transaction;
  sel_fees : Z;
  sel_inputs : Z;
  sel_outputs : Z;
  sel_consolidated : gset hash32;
  sel_bytes : Z;
  sel_keys : gset hash32
}.
Arguments mkSelection {A}.
Arguments sel_state {A}.
Arguments sel_txs {A}.
Arguments sel_fees {A}.
Arguments sel_inputs {A}.
Arguments sel_outputs {A}.
Arguments sel_consolidated {A}.
Arguments sel_bytes {A}.
Arguments sel_keys {A}.

Section Templates.
Context `{Blake3}.
Context (fast_mining : bool) (usize_bits : Z).
Context (witnesses_size : list Witness -> option Z) (tx_size : Transaction -> Z).
Context {A : Type} `{!SetAccumulator A}.

Abbreviation apply_tx := (apply_transaction fast_mining usize_bits witnesses_size).
Abbreviation apply_no_sig := (apply_transaction_no_sig_check fast_mining usize_bits witnesses_size).

Definition start_selection (s : State A) : Selection A := mkSelection s [] 0 0 0 ∅ 0 ∅.

(** The candidate state is updated in place: a failed application that has
    already changed it is not undone. *)
Definition with_candidate (s : State A) (sel : Selection A) : Selection A :=
  mkSelection s (sel_txs sel) (sel_fees sel) (sel_inputs sel) (sel_outputs sel)
    (sel_consolidated sel) (sel_bytes sel) (sel_keys sel).

(** A selected transaction; [add_fee] is the addition used for the fees. *)
Definition accept (add_fee : Z -> Z -> Z) (tx : Transaction) (keys : gset hash32) (sel : Selection A)
    : Selection A :=
  let '(inputs, outputs, consolidated) :=
    match tx with
    | Commit _ _ => (0, 0, ∅)
    | Reveal inputs _ outputs _ => (len inputs, len outputs, ∅)
    | Consolidate inputs _ outputs _ =>
        (1, len outputs,
         match inputs with [] => ∅ | i :: _ => {[predicate_address (in_predicate i)]} end)
    end in
  mkSelection (sel_state sel) (sel_txs sel ++ [tx]) (add_fee (sel_fees sel) (fee tx))
    (sel_inputs sel + inputs) (sel_outputs sel + outputs) (sel_consolidated sel ∪ consolidated)
    (wrap 64 (sel_bytes sel + tx_size tx)) (sel_keys sel ∪ keys).

Definition try_apply (apply : Transaction -> ST (State A) TxError ()) (add_fee : Z -> Z -> Z)
    (tx : Transaction) (keys : gset hash32) (sel : Selection A) : res BatchError (Selection A) :=
  match apply tx (sel_state sel) with
  | (Ok _, s) => Ok (accept add_fee tx keys (with_candidate s sel))
  | (Err _, s) => Ok (with_candidate s sel)
  | (Panic, _) => Panic
  end.

Definition too_big (tx : Transaction) (sel : Selection A) : bool :=
  MAX_BLOCK_BYTES <? wrap 64 (sel_bytes sel + tx_size tx).

Definition select_commit (add_fee : Z -> Z -> Z) (tx : Transaction) (sel : Selection A)
    : res BatchError (Selection A) :=
  if too_big tx sel then Ok sel else try_apply apply_tx add_fee tx ∅ sel.

(** The limits of a block: [None] for [continue]. *)
Definition fits (tx : Transaction) (sel : Selection A) : res BatchError bool :=
  match tx with
  | Commit _ _ => Ok false
  | Reveal inputs _ outputs _ =>
      Ok (negb (MAX_BATCH_INPUTS <? sel_inputs sel + len inputs)
          && negb (MAX_BATCH_OUTPUTS <? sel_outputs sel + len outputs))
  | Consolidate inputs _ outputs _ =>
      match inputs with
      | [] => Panic
      | i :: _ =>
          Ok (negb (bool_decide (predicate_address (in_predicate i) ∈ sel_consolidated sel))
              && negb (MAX_BATCH_INPUTS <? sel_inputs sel + 1)
              && negb (MAX_BATCH_OUTPUTS <? sel_outputs sel + len outputs))
      end
  end.

(** The node's own miner trusts the signatures checked on admission. *)
Definition select_reveal (tx : Transaction) (sel : Selection A) : res BatchError (Selection A) :=
  if too_big tx sel then Ok sel
  else
    ok ← fits tx sel;
    if ok : bool then try_apply apply_no_sig (sat_add 64) tx ∅ sel else Ok sel.

Fixpoint select_all (select : Transaction -> Selection A -> res BatchError (Selection A))
    (txs : list Transaction) (sel : Selection A) : res BatchError (Selection A) :=
  match txs with
  | [] => Ok sel
  | tx :: txs => sel ← select tx sel; select_all select txs sel
  end.

(** ** The node's own miner *)

Definition fold_coinbase (v2 : bool) (s : State A) (cb : CoinbaseOutput) : State A :=
  set_mirstat (hash_concat (st_mirstat s) (coinbase_coin_id cb))
    (set_coins (sa_insert (coinbase_coin_id cb) v2 (st_coins s)).2 s).

Definition template_root (v2 : bool) (height : Z) (s : State A) : res BatchError hash32 :=
  let smt_root := hash_concat (sa_root v2 (st_coins s)) (sa_root v2 (st_commitments s)) in
  mmr_res (mmr_root (st_chain_mmr s) v2) ≫= fun mmr : hash32 =>
  let r := hash_concat smt_root mmr in
  Ok (if V4_ACTIVATION_HEIGHT <=? height then hash_concat r (sa_root v2 (st_burned_wots s)) else r).

(** The batch to mine and the hash to grind on. *)
Definition seal (s candidate : State A) (txs : list Transaction) (coinbase : list CoinbaseOutput)
    (now : Z) : res BatchError (Batch * hash32) :=
  let v2 := v2_of s in
  let candidate := foldl (fold_coinbase v2) candidate coinbase in
  template_root v2 (st_height s) candidate ≫= fun state_root : hash32 =>
  let mirstat := hash_concat (st_mirstat candidate) state_root in
  let min_timestamp := wrap 64 (st_timestamp s + 1) in
  let actual_timestamp := Z.max now min_timestamp in
  let extension := {| ext_nonce := 0; ext_final_hash := zero_arr 32 |} in
  let candidate_header := {|
    h_height := st_height s; h_prev_mirstat := st_mirstat s; h_post_tx_mirstat := mirstat;
    h_extension := extension; h_timestamp := actual_timestamp; h_target := st_target s;
    h_state_root := state_root; h_prev_header_hash := st_header_hash s |} in
  let template := {|
    b_prev_mirstat := st_mirstat s; b_transactions := txs; b_extension := extension;
    b_coinbase := coinbase; b_timestamp := actual_timestamp; b_target := st_target s;
    b_state_root := state_root; b_prev_header_hash := st_header_hash s |} in
  Ok (template, compute_header_hash candidate_header).

Definition select_block (s : State A) (pending_commits pending_reveals : list Transaction)
    : res BatchError (Selection A) :=
  sel ← select_all (select_commit (sat_add 64)) (take (Z.to_nat MAX_BATCH_COMMITS) pending_commits)
          (start_selection s);
  select_all select_reveal (take (Z.to_nat MAX_BATCH_REVEALS) pending_reveals) sel.

Definition mining_template (s : State A) (pending_commits pending_reveals : list Transaction)
    (mining_seed : hash32) (pool_address : option (hash32 * hash32)) (now : Z)
    : res BatchError (Batch * hash32) :=
  sel ← select_block s pending_commits pending_reveals;
  let coinbase := generate_coinbase mining_seed (st_height s) (sel_fees sel) pool_address in
  seal s (sel_state sel) (sel_txs sel) coinbase now.

(** [template.extension = extension]. *)
Definition set_extension (ext : Extension) (b : Batch) : Batch :=
  mkBatch (b_prev_mirstat b) (b_transactions b) ext (b_coinbase b) (b_timestamp b) (b_target b)
    (b_state_root b) (b_prev_header_hash b).

(** ** The template for remote miners *)

(** The one-time keys of a reveal, unless one is already used in the block. *)
Fixpoint fresh_keys (used : gset hash32) (ps : list (InputReveal * Witness)) (keys : list hash32)
    : option (list hash32) :=
  match ps with
  | [] => Some keys
  | p :: ps =>
      match burned_key p.1 p.2 with
      | Some k => if bool_decide (k ∈ used) then None else fresh_keys used ps (keys ++ [k])
      | None => fresh_keys used ps keys
      end
  end.

Definition select_reveal_checked (tx : Transaction) (sel : Selection A) : res BatchError (Selection A) :=
  if too_big tx sel then Ok sel
  else
    ok ← fits tx sel;
    if ok : bool then
      match fresh_keys (sel_keys sel) (spend_pairs tx) [] with
      | Some keys => try_apply apply_tx (fun a b => wrap 64 (a + b)) tx (list_to_set keys) sel
      | None => Ok sel
      end
    else Ok sel.

Definition is_commit (tx : Transaction) : bool := negb (is_spend tx).

Definition build_template_prefix (s : State A) (mempool_txs : list Transaction)
    (bounty_txs : list (Transaction * Transaction)) : res BatchError (Selection A) :=
  let pending_commits := map fst bounty_txs ++ filter (fun tx => is_commit tx = true) mempool_txs in
  let pending_reveals := map snd bounty_txs ++ filter (fun tx => is_commit tx = false) mempool_txs in
  sel ← select_all (select_commit (fun a b => wrap 64 (a + b)))
          (take (Z.to_nat MAX_BATCH_COMMITS) pending_commits) (start_selection s);
  select_all select_reveal_checked (take (Z.to_nat MAX_BATCH_REVEALS) pending_reveals) sel.

Inductive TemplateError : Type :=
  | InvalidCoinbase
  | CoinbaseTotalMismatch (expected_total block_reward total_fees : Z)
  | TemplateAborted.

Context (hex32 : list byte -> option hash32).

(** A requested coinbase output: address and salt in hexadecimal. *)
Record CoinbaseRequest : Type := mkCoinbaseRequest {
  cr_address : list byte;
  cr_value : Z;
  cr_salt : list byte
}.

Fixpoint read_coinbase (reqs : list CoinbaseRequest) (total : Z)
    : res TemplateError (Z * list CoinbaseOutput) :=
  match reqs with
  | [] => Ok (total, [])
  | cb :: reqs =>
      match hex32 (cr_address cb), hex32 (cr_salt cb) with
      | Some address, Some salt =>
          _ ← bail_if ((cr_value cb =? 0) || negb (is_pow2 (cr_value cb))) InvalidCoinbase;
          '(total, coinbase) ← read_coinbase reqs (wrap 64 (total + cr_value cb));
          Ok (total, {| cb_address := address; cb_value := cr_value cb; cb_salt := salt |} :: coinbase)
      | _, _ => Err InvalidCoinbase
      end
  end.

Definition finish_template (s : State A) (prefix : Selection A) (reqs : list CoinbaseRequest) (now : Z)
    : res TemplateError (Batch * hash32) :=
  let reward := block_reward (st_height s) in
  let expected_total := wrap 64 (reward + sel_fees prefix) in
  '(coinbase_total, coinbase) ← read_coinbase reqs 0;
  _ ← bail_if (negb (coinbase_total =? expected_total))
        (CoinbaseTotalMismatch expected_total reward (sel_fees prefix));
  match seal s (sel_state prefix) (sel_txs prefix) coinbase now with
  | Ok r => Ok r
  | Err _ => Err TemplateAborted
  | Panic => Panic
  end.

End Templates.

(** * The node's own block is accepted *)

Section Accepted.
Context `{Blake3}.
Context (fast_mining : bool) (usize_bits : Z).
Context (witnesses_size : list Witness -> option Z) (tx_size : Transaction -> Z).
Context {A : Type} `{!SetAccumulator A} `{!SetAccumulatorLaws A}.

Abbreviation apply_no_sig := (apply_transaction_no_sig_check fast_mining usize_bits witnesses_size).
Abbreviation apply_all := (apply_txs fast_mining usize_bits witnesses_size).

(** ** A failed application changes nothing, when outputs are fresh *)

Definition fresh_outputs (s : State A) (tx : Transaction) : Prop :=
  NoDup (output_coin_ids tx) /\ forall x, x ∈ output_coin_ids tx -> x ∉ sa_set (st_coins s).

Lemma no_sig_spend_after tx (s : State A) : is_spend tx = true ->
  COMMIT_REPLAY_FIX_ACTIVATION_HEIGHT <= st_height s ->
  apply_no_sig tx s
  = after (_ ← structure witnesses_size 2 tx; _ ← check_commitment (commitment_of tx) s;
           check_all (check_coin s) (tx_inputs tx)) (run_bare tx) s.
Proof.
  intros HS Hh.
  assert (ER : forall c, release_commitment c s = s).
  { intros c. unfold release_commitment. rewrite (proj2 (Z.ltb_ge _ _)) by exact Hh. reflexivity. }
  destruct tx as [|inputs ws outputs salt|inputs w outputs salt]; [discriminate| |];
    unfold commitment_of;
    cbn [apply_transaction_no_sig_check structure tx_inputs tx_outputs tx_salt input_coin_ids];
    open_tx; rewrite st_reads_bind; (case_match; [|reflexivity..]); cbn [res_bind mbind]; cbv zeta;
    rewrite st_reads_bind; (case_match; [|reflexivity..]); cbn [res_bind mbind];
    rewrite st_modify_bind, ER, st_reads_bind; (case_match; [|reflexivity..]);
    destruct a, a0, a1; cbn [after]; rewrite st_modify_bind; unfold run_bare, commitment_of;
    rewrite ER; reflexivity.
Qed.

Lemma no_sig_clean tx (s s' : State A) e :
  COMMIT_REPLAY_FIX_ACTIVATION_HEIGHT <= st_height s -> fresh_outputs s tx ->
  apply_no_sig tx s = (Err e, s') -> s' = s.
Proof.
  intros Hh [N1 N2] E. destruct (is_spend tx) eqn:HS.
  - rewrite no_sig_spend_after in E by assumption. destruct (_ ≫= _) as [[]|e1|] in E; cbn [after] in E; [|congruence..].
    destruct (run_bare_eq _ _ _ _ E) as (c & cs & hs & m & _ & _ & _ & _ & _ & [(? & _)|(_ & HN)]); [discriminate|].
    exfalso. apply HN. split; [exact N1|]. intros x Hx Hc. apply elem_of_difference in Hc as [Hc _].
    apply (N2 x Hx Hc).
  - destruct tx as [c n| |]; try discriminate HS. cbn [apply_transaction_no_sig_check apply_transaction] in E.
    open_tx. rewrite st_reads_bind in E. destruct (validate_commit_pow _ c n s) as [[]|e1|]; [|congruence..].
    unfold mbind, st_bind, insert_commitment in E. destruct (decide (c ∈ sa_set (st_commitments s))) as [Hc|Hc].
    + rewrite sa_insert_present in E by exact Hc. injection E as _ <-. destruct s; reflexivity.
    + pose proof (sa_insert_new c (v2_of s) (st_commitments s)) as EN. rewrite bool_decide_false in EN by exact Hc.
      destruct (sa_insert c _ _) as [f c']. cbn in EN. subst f. discriminate.
Qed.

(** ** Appending one transaction to the block *)

Lemma apply_txs_snoc txs tx : forall f0 (s : State A) f s1 s2,
  apply_all txs f0 s = (Ok f, s1) -> f + fee tx <= umax 64 -> apply_no_sig tx s1 = (Ok (), s2) ->
  apply_all (txs ++ [tx]) f0 s = (Ok (f + fee tx), s2).
Proof.
  induction txs as [|t txs IH]; intros f0 s f s1 s2 E1 Hf E2.
  - injection E1 as -> ->. cbn [app]. apply apply_txs_cons. exists s2.
    split; [apply checked_add_Some; auto|]. split; [exact E2|reflexivity].
  - apply apply_txs_cons in E1 as (s0 & C1 & C2 & C3). cbn [app]. apply apply_txs_cons.
    exists s0. split; [exact C1|]. split; [exact C2|]. eapply IH; eassumption.
Qed.

Lemma prepass_app t1 t2 : forall p,
  prepass (t1 ++ t2) p = (p1 ← prepass t1 p; prepass t2 p1).
Proof.
  induction t1 as [|t t1 IH]; intros p; [reflexivity|]. cbn [app prepass].
  destruct (match t with Commit _ _ => _ | _ => _ end) as [q|e|]; [apply IH|reflexivity..].
Qed.

Definition no_prepass : Prepass := mkPrepass false ∅ 0 0 ∅.

(** What the selection loops maintain about the block they have built from the
    transactions [done] looked at so far. *)
Record sel_inv (s : State A) (done : list Transaction) (sel : Selection A) : Prop := mkSelInv {
  si_sub : sublist (sel_txs sel) done;
  si_run : apply_all (sel_txs sel) 0 s = (Ok (sel_fees sel), sel_state sel);
  si_prepass : exists p, prepass (sel_txs sel) no_prepass = Ok p
    /\ consolidated_addresses p = sel_consolidated sel
    /\ (Forall (fun tx => is_spend tx = false) done -> seen_non_commit p = false);
  si_inputs : sumZ (map (fun tx => (tx_load tx).1) (sel_txs sel)) = sel_inputs sel
    /\ sel_inputs sel <= MAX_BATCH_INPUTS;
  si_outputs : sumZ (map (fun tx => (tx_load tx).2) (sel_txs sel)) = sel_outputs sel
    /\ sel_outputs sel <= MAX_BATCH_OUTPUTS
}.

Lemma start_inv (s : State A) : sel_inv s [] (start_selection s).
Proof.
  split; cbn; [constructor|reflexivity| |split; [reflexivity|discriminate]..].
  exists no_prepass. auto.
Qed.

Lemma sel_inv_skip s done sel tx : sel_inv s done sel ->
  sel_inv s (done ++ [tx]) sel.
Proof.
  intros [I1 I2 (p & P1 & P2 & P3) I4 I5]. split; try assumption.
  - apply sublist_inserts_r, I1.
  - exists p. split; [exact P1|]. split; [exact P2|]. intros HF. apply P3. apply Forall_app in HF. apply HF.
Qed.

(** The transaction may follow the selected ones: a commit before every spend, a
    consolidation of an address not consolidated yet, within the limits. *)
Definition room (done : list Transaction) (sel : Selection A) (tx : Transaction) : Prop :=
  match tx with
  | Commit _ _ => Forall (fun tx => is_spend tx = false) done
  | Consolidate (i :: _) _ _ _ => predicate_address (in_predicate i) ∉ sel_consolidated sel
  | Consolidate [] _ _ _ => False
  | _ => True
  end
  /\ sel_inputs sel + (tx_load tx).1 <= MAX_BATCH_INPUTS
  /\ sel_outputs sel + (tx_load tx).2 <= MAX_BATCH_OUTPUTS.

(** A step that tries [tx] with [apply] keeps the invariant and does not abort. *)
Lemma try_apply_inv (apply : Transaction -> ST (State A) TxError ()) add_fee s done sel tx :
  sel_inv s done sel -> room done sel tx ->
  COMMIT_REPLAY_FIX_ACTIVATION_HEIGHT <= st_height (sel_state sel) -> fresh_outputs (sel_state sel) tx ->
  sel_fees sel + fee tx <= umax 64 -> add_fee (sel_fees sel) (fee tx) = sel_fees sel + fee tx ->
  apply tx (sel_state sel) = apply_no_sig tx (sel_state sel) ->
  exists sel', try_apply tx_size apply add_fee tx ∅ sel = Ok sel' /\ sel_inv s (done ++ [tx]) sel'.
Proof.
  intros HI (R1 & R2 & R3) Hh HF HB HA EA. unfold try_apply. rewrite EA.
  pose proof (no_sig_safe fast_mining usize_bits witnesses_size tx (sel_state sel)) as HS.
  destruct (apply_no_sig tx (sel_state sel)) as [[[]|e|] s1] eqn:E; [| |contradiction].
  - eexists. split; [reflexivity|]. destruct HI as [I1 I2 (p & P1 & P2 & P3) [I4 I5] [I6 I7]].
    assert (EX : exists q, prepass [tx] p = Ok q /\ consolidated_addresses q = sel_consolidated (accept tx_size add_fee tx ∅ (with_candidate s1 sel))
              /\ (is_spend tx = false -> seen_non_commit q = seen_non_commit p)).
    { destruct tx as [c n|inputs ws outputs salt|[|i inputs] w outputs salt]; cbn [prepass accept with_candidate sel_consolidated].
      - rewrite P3 by exact R1. eexists. split; [reflexivity|]. cbn.
        split; [rewrite P2; symmetry; apply union_empty_r_L|reflexivity].
      - eexists. split; [reflexivity|]. cbn. split; [rewrite P2; symmetry; apply union_empty_r_L|discriminate].
      - contradiction.
      - rewrite bool_decide_false by (rewrite P2; exact R1). eexists. split; [reflexivity|]. cbn.
        split; [rewrite P2; apply union_comm_L|discriminate]. }
    destruct EX as (q & Q1 & Q2 & Q3).
    assert (EL : sel_inputs (accept tx_size add_fee tx ∅ (with_candidate s1 sel)) = sel_inputs sel + (tx_load tx).1
              /\ sel_outputs (accept tx_size add_fee tx ∅ (with_candidate s1 sel)) = sel_outputs sel + (tx_load tx).2
              /\ sel_txs (accept tx_size add_fee tx ∅ (with_candidate s1 sel)) = sel_txs sel ++ [tx]
              /\ sel_fees (accept tx_size add_fee tx ∅ (with_candidate s1 sel)) = sel_fees sel + fee tx
              /\ sel_state (accept tx_size add_fee tx ∅ (with_candidate s1 sel)) = s1).
    { rewrite <- HA. destruct tx; repeat split; cbn; lia. }
    destruct EL as (EL1 & EL2 & EL3 & EL4 & EL5).
    split; rewrite ?EL1, ?EL2, ?EL3, ?EL4, ?EL5, ?map_app, ?sumZ_app; cbn [map sumZ foldr].
    + apply sublist_app; [exact I1|reflexivity].
    + eapply apply_txs_snoc; eassumption.
    + exists q. split; [rewrite prepass_app, P1; exact Q1|]. split; [exact Q2|].
      intros [F1 F2]%Forall_app. inversion F2 as [|? ? F3 _]. rewrite Q3 by exact F3. apply P3, F1.
    + rewrite I4. unfold sumZ. cbn. lia.
    + rewrite I6. unfold sumZ. cbn. lia.
  - eexists. split; [reflexivity|]. rewrite (no_sig_clean _ _ _ _ Hh HF E).
    replace (with_candidate (sel_state sel) sel) with sel by (destruct sel; reflexivity).
    apply sel_inv_skip, HI.
Qed.

(** ** The loops *)

Lemma txs_run_created txs (s s' : State A) x : txs_run fast_mining witnesses_size txs s s' ->
  x ∈ sa_set (st_coins s') -> x ∈ sa_set (st_coins s) \/ x ∈ concat (map output_coin_ids txs).
Proof.
  induction 1 as [s|tx txs s s1 s' TE R IH]; intros Hx; [auto|]. cbn [map concat].
  destruct (IH Hx) as [Hc|Hc]; [|right; apply elem_of_app; auto].
  rewrite (te_coins _ _ _ _ _ TE) in Hc. unfold coins_after in Hc.
  apply elem_of_union in Hc as [Hc|Hc].
  - rewrite elem_of_list_to_set in Hc. right. apply elem_of_app. auto.
  - apply elem_of_difference in Hc as [Hc _]. auto.
Qed.

Lemma fee_nonneg tx : 0 <= fee tx.
Proof. destruct tx; unfold fee, sat_sub; lia. Qed.

Lemma sublist_fees l k : sublist l k -> sumZ (map fee l) <= sumZ (map fee k).
Proof.
  unfold sumZ. induction 1 as [|x l k HL IH|x l k HL IH]; cbn; [lia|lia|].
  pose proof (fee_nonneg x). lia.
Qed.

Lemma sublist_concat (l k : list Transaction) x : sublist l k ->
  x ∈ concat (map output_coin_ids l) -> x ∈ concat (map output_coin_ids k).
Proof.
  induction 1 as [|y l k HL IH|y l k HL IH]; cbn [map concat]; rewrite ?elem_of_app; [auto| |auto].
  intros [Hy|Hl]; auto.
Qed.

(** The pending transactions: their fees add up, and the coins they create are new
    and pairwise different. *)
Record pending_ok (s : State A) (txs : list Transaction) : Prop := mkPendingOk {
  po_fees : sumZ (map fee txs) <= umax 64;
  po_nodup : NoDup (concat (map output_coin_ids txs));
  po_fresh : forall x, x ∈ concat (map output_coin_ids txs) -> x ∉ sa_set (st_coins s)
}.

Lemma next_fresh s done sel tx rest : sel_inv s done sel -> pending_ok s (done ++ tx :: rest) ->
  st_height (sel_state sel) = st_height s
  /\ fresh_outputs (sel_state sel) tx /\ sel_fees sel + fee tx <= umax 64.
Proof.
  intros [I1 I2 _ _ _] [P1 P2 P3]. destruct (apply_txs_run _ _ _ _ _ _ _ _ I2) as [R EF].
  destruct (txs_run_frame _ _ _ _ _ R) as [(_ & _ & Hh & _) _]. split; [exact Hh|].
  rewrite map_app, concat_app in P2, P3. cbn [map concat] in P2, P3.
  apply NoDup_app in P2 as (_ & D1 & D2). apply NoDup_app in D2 as (D2 & _ & _). split; [split|].
  - exact D2.
  - intros x Hx Hc. destruct (txs_run_created _ _ _ _ R Hc) as [Hs|Hs].
    + apply (P3 x); [rewrite !elem_of_app; auto|exact Hs].
    + apply (D1 x); [eapply sublist_concat; eassumption|]. apply elem_of_app. auto.
  - apply sublist_fees in I1. rewrite map_app, sumZ_app in P1.
    assert (0 <= sumZ (map fee rest)).
    { apply sumZ_nonneg, Forall_map, Forall_forall. intros t _. apply fee_nonneg. }
    revert P1. cbn [map]. unfold sumZ in *. cbn. lia.
Qed.

Definition step_ok (select : Transaction -> Selection A -> res BatchError (Selection A)) (s : State A)
    (txs : list Transaction) : Prop := forall done tx rest sel,
  txs = done ++ tx :: rest -> sel_inv s done sel ->
  exists sel', select tx sel = Ok sel' /\ sel_inv s (done ++ [tx]) sel'.

Lemma select_all_inv select s txs : forall rest done sel, step_ok select s (done ++ rest) ->
  sel_inv s done sel -> done ++ rest = txs ->
  exists sel', select_all select rest sel = Ok sel' /\ sel_inv s txs sel'.
Proof.
  induction rest as [|tx rest IH]; intros done sel HS HI <-.
  - exists sel. rewrite app_nil_r. auto.
  - destruct (HS done tx rest sel eq_refl HI) as (sel1 & E1 & I1).
    cbn [select_all]. rewrite E1. cbn [mbind res_bind].
    apply (IH (done ++ [tx])); rewrite <- ?app_assoc; auto.
Qed.

Lemma skip_inv s done sel tx : sel_inv s done sel ->
  exists sel', Ok (E := BatchError) sel = Ok sel' /\ sel_inv s (done ++ [tx]) sel'.
Proof. intros HI. exists sel. split; [reflexivity|]. apply sel_inv_skip, HI. Qed.

Lemma pending_ok_prefix s txs rest : pending_ok s (txs ++ rest) -> pending_ok s txs.
Proof.
  intros [P1 P2 P3]. rewrite map_app, ?concat_app in *. split.
  - rewrite sumZ_app in P1.
    assert (0 <= sumZ (map fee rest)); [|lia].
    apply sumZ_nonneg, Forall_map, Forall_forall. intros t _. apply fee_nonneg.
  - apply NoDup_app in P2. apply P2.
  - intros x Hx. apply P3, elem_of_app. auto.
Qed.

Lemma commit_step s cs : COMMIT_REPLAY_FIX_ACTIVATION_HEIGHT <= st_height s ->
  Forall (fun tx => is_spend tx = false) cs -> pending_ok s cs ->
  step_ok (select_commit fast_mining usize_bits witnesses_size tx_size (sat_add 64)) s cs.
Proof.
  intros Hh HC HP done tx rest sel -> HI. unfold select_commit.
  destruct (too_big _ _ _); [apply skip_inv, HI|].
  destruct (next_fresh _ _ _ _ _ HI HP) as (EH & HF & HB).
  apply Forall_app in HC as [HC1 HC2]. inversion HC2 as [|? ? HT _]. subst.
  destruct tx as [c n| |]; try discriminate HT.
  apply try_apply_inv; try assumption; [|lia| |reflexivity].
  - split; [exact HC1|]. pose proof (proj2 (si_inputs _ _ _ HI)). pose proof (proj2 (si_outputs _ _ _ HI)).
    cbn. lia.
  - unfold sat_add. lia.
Qed.

Lemma reveal_step s txs : COMMIT_REPLAY_FIX_ACTIVATION_HEIGHT <= st_height s ->
  Forall (authorised usize_bits (st_height s)) txs -> pending_ok s txs ->
  step_ok (select_reveal fast_mining usize_bits witnesses_size tx_size) s txs.
Proof.
  intros Hh HC HP done tx rest sel -> HI. unfold select_reveal.
  destruct (too_big _ _ _); [apply skip_inv, HI|].
  destruct (next_fresh _ _ _ _ _ HI HP) as (EH & HF & HB).
  apply Forall_app in HC as [_ HC]. inversion HC as [|? ? HT _]. subst.
  assert (HA : sat_add 64 (sel_fees sel) (fee tx) = sel_fees sel + fee tx) by (unfold sat_add; lia).
  destruct tx as [c n|inputs ws outs salt|inputs w outs salt]; cbn [fits mbind res_bind].
  - apply skip_inv, HI.
  - destruct (_ && _) eqn:EB; [|apply skip_inv, HI]. apply andb_true_iff in EB as [B1 B2].
    apply negb_true_iff, Z.ltb_ge in B1, B2. apply try_apply_inv; try assumption; [|lia|reflexivity].
    split; [exact I|]. cbn. lia.
  - destruct HT as (i & l & -> & _). cbn [mbind res_bind].
    destruct (_ && _) eqn:EB; [|apply skip_inv, HI]. apply andb_true_iff in EB as [B0 B2].
    apply andb_true_iff in B0 as [B0 B1].
    apply negb_true_iff, Z.ltb_ge in B1, B2. apply negb_true_iff, bool_decide_eq_false in B0.
    apply try_apply_inv; try assumption; [|lia|reflexivity].
    split; [exact B0|]. cbn [tx_load fst snd]. lia.
Qed.

(** ** The coinbase is the one that the block must pay *)

Lemma generate_coinbase_values seed h fees pool :
  map cb_value (generate_coinbase seed h fees pool) = decompose_value (sat_add 64 (block_reward h) fees).
Proof.
  unfold generate_coinbase. generalize (decompose_value (sat_add 64 (block_reward h) fees)) as l.
  assert (EV : forall i v, cb_value (coinbase_output seed h pool i v) = v) by (intros i v; destruct pool as [[]|]; reflexivity).
  generalize (coinbase_output seed h pool), EV. clear. intros f EV l. revert f EV.
  induction l as [|v l IH]; intros f EV; cbn; [reflexivity|]. rewrite EV. f_equal.
  apply (IH (f ∘ S)). intros i w. apply EV.
Qed.

Lemma scan_coinbase_intro cbs : forall seen, NoDup (map coinbase_coin_id cbs) ->
  (forall x, x ∈ map coinbase_coin_id cbs -> x ∉ seen) -> scan_coinbase seen cbs = Ok ().
Proof.
  induction cbs as [|cb cbs IH]; intros seen HN HD; cbn [scan_coinbase map]; [reflexivity|].
  apply NoDup_cons in HN as [N1 N2]. rewrite bool_decide_false by (apply HD; left). cbn [bail_if mbind res_bind].
  apply IH; [exact N2|]. intros x Hx [->%elem_of_singleton|Hs]%elem_of_union; [contradiction|].
  apply (HD x); [right; exact Hx|exact Hs].
Qed.

Lemma coinbase_sum_intro cbs : forall total,
  Forall (fun v => is_pow2 v = true) (map cb_value cbs) -> total + sumZ (map cb_value cbs) <= umax 64 ->
  coinbase_sum cbs total = Ok (total + sumZ (map cb_value cbs)).
Proof.
  unfold sumZ. induction cbs as [|cb cbs IH]; intros total HP HB; cbn [coinbase_sum map foldr] in *.
  - f_equal. lia.
  - inversion HP as [|? ? P1 P2]. subst.
    assert (HV : 0 < cb_value cb).
    { unfold is_pow2 in P1. apply andb_true_iff in P1 as [P1 _]. apply Z.ltb_lt, P1. }
    assert (HT : 0 <= sumZ (map cb_value cbs)).
    { apply sumZ_nonneg. eapply Forall_impl; [exact P2|]. intros v Hv. cbn in Hv. unfold is_pow2 in Hv.
      apply andb_true_iff in Hv as [Hv _]. apply Z.ltb_lt in Hv. lia. }
    unfold sumZ in HT. rewrite P1. destruct (Z.eqb_spec (cb_value cb) 0); [lia|]. cbn [bail_if negb mbind res_bind].
    rewrite (proj2 (checked_add_Some 64 total (cb_value cb) _)) by (split; [reflexivity|lia]).
    cbn [ok_or mbind res_bind]. rewrite IH; [f_equal; lia|exact P2|lia].
Qed.

Lemma check_coinbase_intro h fees cbs : block_reward h + fees <= umax 64 ->
  NoDup (map coinbase_coin_id cbs) -> Forall (fun v => is_pow2 v = true) (map cb_value cbs) ->
  sumZ (map cb_value cbs) = block_reward h + fees -> check_coinbase h fees cbs = Ok ().
Proof.
  intros HB HN HP ES. unfold check_coinbase. revert HB ES. generalize (block_reward h). intros r HB ES.
  rewrite (proj2 (checked_add_Some 64 r fees (r + fees)) (conj eq_refl HB)). cbn [ok_or mbind res_bind].
  rewrite scan_coinbase_intro by (auto; intros x _; apply not_elem_of_empty). cbn [mbind res_bind].
  rewrite coinbase_sum_intro by (auto; lia). cbn [mbind res_bind]. rewrite ES.
  destruct (Z.eqb_spec (0 + (r + fees)) (r + fees)); [reflexivity|lia].
Qed.

Lemma generate_coinbase_pays seed h fees pool : 0 <= block_reward h + fees <= umax 64 ->
  Forall (fun v => is_pow2 v = true) (map cb_value (generate_coinbase seed h fees pool))
  /\ sumZ (map cb_value (generate_coinbase seed h fees pool)) = block_reward h + fees.
Proof.
  intros HB. rewrite generate_coinbase_values. revert HB. generalize (block_reward h). intros r HB.
  assert (ES : sat_add 64 r fees = r + fees) by (unfold sat_add; lia). rewrite ES.
  assert (HU : in_u 64 (r + fees)) by (unfold in_u, umax in *; lia).
  split; [apply decompose_value_pow2, HU|apply decompose_value_sum, HU].
Qed.

(** ** Every selected transaction passes the signature pass *)

Lemma txs_run_committed txs (s s' : State A) tx : txs_run fast_mining witnesses_size txs s s' ->
  COMMIT_REPLAY_FIX_ACTIVATION_HEIGHT <= st_height s -> tx ∈ txs -> is_spend tx = true ->
  commitment_of tx ∈ sa_set (st_commitments s) \/ commitment_of tx ∈ commits_of txs.
Proof.
  induction 1 as [s|t txs s s1 s' TE R IH]; intros Hh Hx HS; [inversion Hx|].
  assert (EH : st_height s1 = st_height s) by apply TE.
  apply elem_of_cons in Hx as [->|Hx].
  - left. apply (te_structure _ _ _ _ _ TE HS).
  - destruct (IH ltac:(lia) Hx HS) as [Hc|Hc].
    + rewrite (te_commitments _ _ _ _ _ TE) in Hc. unfold commitments_after in Hc.
      rewrite (proj2 (Z.ltb_ge _ _)) in Hc by exact Hh. destruct t as [c n| |]; [|auto..].
      apply elem_of_union in Hc as [->%elem_of_singleton|Hc]; [right; left|auto].
    + right. unfold commits_of in *. cbn [omap list_omap]. destruct t; [right; exact Hc|exact Hc..].
Qed.

Lemma verify_all_intro p txs (s s' : State A) : txs_run fast_mining witnesses_size txs s s' ->
  COMMIT_REPLAY_FIX_ACTIVATION_HEIGHT <= st_height s ->
  Forall (authorised usize_bits (st_height s)) txs -> in_block_commits p = list_to_set (commits_of txs) ->
  verify_all usize_bits p txs s = Ok ().
Proof.
  intros R Hh HA EP. unfold verify_all. apply check_all_Ok, Forall_forall. intros tx Hx.
  unfold lift_res. destruct (is_spend tx) eqn:HS.
  - erewrite verify_sigs_intro; [reflexivity|exact HS| |rewrite Forall_forall in HA; apply HA, Hx].
    rewrite EP, elem_of_list_to_set. eapply txs_run_committed; eassumption.
  - destruct tx; [reflexivity|discriminate..].
Qed.

(** ** The selection as a whole *)

Lemma sublist_filter_length (f : Transaction -> bool) (l k : list Transaction) : sublist l k ->
  len (filter (fun tx => f tx = true) l) <= len (filter (fun tx => f tx = true) k).
Proof.
  unfold len. induction 1 as [|x l k HL IH|x l k HL IH]; rewrite ?filter_nil, ?filter_cons; [lia|..];
    destruct (decide (f x = true)); cbn [length] in *; lia.
Qed.

Lemma commits_of_filter txs : len (commits_of txs) = len (filter (fun tx => is_commit tx = true) txs).
Proof.
  unfold len. induction txs as [|tx txs IH]; [reflexivity|]. rewrite filter_cons.
  destruct tx; [rewrite decide_True by reflexivity|rewrite decide_False by discriminate; exact IH..].
  cbn [commits_of omap list_omap length]. fold (commits_of txs). lia.
Qed.

Lemma filter_bound (f : Transaction -> bool) (cs rs : list Transaction) n :
  Forall (fun tx => f tx = false) cs -> (length rs <= Z.to_nat n)%nat -> 0 <= n ->
  len (filter (fun tx => f tx = true) (cs ++ rs)) <= n.
Proof.
  intros HC HR Hn. rewrite filter_app.
  assert (E : filter (fun tx => f tx = true) cs = []).
  { induction HC as [|x l Hx _ IH]; [reflexivity|]. rewrite filter_cons, decide_False, IH by congruence. reflexivity. }
  rewrite E. cbn [app]. unfold len. pose proof (length_filter (fun tx => f tx = true) rs). lia.
Qed.

Lemma selection_prepass s cs rs sel : sel_inv s (cs ++ rs) sel ->
  Forall (fun tx => is_spend tx = false) cs -> Forall (fun tx => is_spend tx = true) rs ->
  (length cs <= Z.to_nat MAX_BATCH_COMMITS)%nat -> (length rs <= Z.to_nat MAX_BATCH_REVEALS)%nat ->
  exists p, prepass_checks (sel_txs sel) = Ok p /\ in_block_commits p = list_to_set (commits_of (sel_txs sel)).
Proof.
  intros [I1 _ (p & P1 & _) _ _] HC HR LC LR. destruct (prepass_spec _ _ _ P1) as (C1 & C2 & C3 & _).
  cbn [no_prepass commit_count reveal_count in_block_commits] in C1, C2, C3. exists p.
  rewrite union_empty_r_L in C3. split; [|exact C3].
  assert (B1 : reveal_count p <= MAX_BATCH_REVEALS).
  { rewrite C2. cbn. etransitivity; [apply (sublist_filter_length is_spend), I1|]. apply filter_bound; [exact HC|exact LR|discriminate]. }
  assert (B2 : commit_count p <= MAX_BATCH_COMMITS).
  { rewrite C1, commits_of_filter. cbn. etransitivity; [apply (sublist_filter_length is_commit), I1|].
    unfold len. rewrite (filter_Permutation _ _ _ (Permutation_app_comm cs rs)).
    apply (filter_bound is_commit rs cs); [|exact LC|discriminate].
    eapply Forall_impl; [exact HR|]. intros tx. cbn. unfold is_commit. intros ->. reflexivity. }
  unfold prepass_checks. fold no_prepass. rewrite P1. cbn [mbind res_bind].
  rewrite !(proj2 (Z.ltb_ge _ _)) by assumption. reflexivity.
Qed.

Lemma selection_inv s commits reveals :
  let cs := take (Z.to_nat MAX_BATCH_COMMITS) commits in
  let rs := take (Z.to_nat MAX_BATCH_REVEALS) reveals in
  COMMIT_REPLAY_FIX_ACTIVATION_HEIGHT <= st_height s ->
  Forall (fun tx => is_spend tx = false) cs -> Forall (authorised usize_bits (st_height s)) (cs ++ rs) ->
  pending_ok s (cs ++ rs) ->
  exists sel, select_block fast_mining usize_bits witnesses_size tx_size s commits reveals = Ok sel
  /\ sel_inv s (cs ++ rs) sel.
Proof.
  cbv zeta. intros Hh HC HA HP. unfold select_block.
  destruct (select_all_inv _ s _ _ [] (start_selection s)
    (commit_step s _ Hh HC (pending_ok_prefix _ _ _ HP)) (start_inv s) eq_refl) as (sel1 & E1 & I1).
  rewrite E1. cbn [mbind res_bind].
  apply (select_all_inv _ s _ _ _ sel1 (reveal_step s _ Hh HA HP) I1 eq_refl).
Qed.

(** ** Sealing *)

Lemma fold_coinbase_eq v2 cbs : forall s : State A,
  foldl (fold_coinbase v2) s cbs
  = set_mirstat (foldl (fun (m : hash32) c => hash_concat m (arr_list c)) (st_mirstat s) (map coinbase_coin_id cbs))
      (set_coins (insert_coins v2 (st_coins s) (map coinbase_coin_id cbs)) s).
Proof.
  induction cbs as [|cb cbs IH]; intros s; [destruct s; reflexivity|]. cbn [foldl map]. rewrite IH. reflexivity.
Qed.

Lemma seal_eq s s1 txs cbs now xs : same_frame s s1 -> mmr_shape xs (st_chain_mmr s) ->
  exists b mining_hash, seal s s1 txs cbs now = Ok (b, mining_hash)
  /\ expected_state_root s1 (map coinbase_coin_id cbs) = Ok (b_state_root b)
  /\ b_prev_mirstat b = st_mirstat s /\ b_prev_header_hash b = st_header_hash s /\ b_target b = st_target s
  /\ b_transactions b = txs /\ b_coinbase b = cbs
  /\ b_timestamp b = Z.max now (wrap 64 (st_timestamp s + 1))
  /\ forall ext, mining_target (set_extension ext b) s1 = mining_hash.
Proof.
  intros (F1 & F2 & F3 & F4 & F5 & F6 & F7) HM. unfold seal, template_root. rewrite fold_coinbase_eq.
  unfold expected_state_root. unfold v2_of. rewrite F3.
  cbn [set_mirstat set_coins st_coins st_commitments st_chain_mmr st_burned_wots st_mirstat].
  rewrite F5. destruct (mmr_root_shape _ _ (is_v2_at (st_height s)) HM) as [r ->].
  cbn [mmr_res mbind res_bind]. do 2 eexists. split; [reflexivity|].
  repeat (split; [reflexivity|]). intros ext. unfold mining_target, set_extension. 
  cbn [b_extension b_timestamp b_target b_state_root]. rewrite F3, F6. 
  unfold compute_header_hash. reflexivity.
Qed.

Lemma block_reward_pos h : 0 <= h -> 0 < block_reward h.
Proof. intros Hh. rewrite block_reward_shift by exact Hh. apply Z.pow_pos_nonneg; lia. Qed.

Lemma commits_inert cs : Forall (fun tx => is_spend tx = false) cs ->
  concat (map output_coin_ids cs) = [] /\ sumZ (map fee cs) = 0
  /\ forall h, Forall (authorised usize_bits h) cs.
Proof.
  unfold sumZ. induction 1 as [|tx cs HT _ (I1 & I2 & I3)]; [repeat constructor|].
  destruct tx; try discriminate HT. cbn [map concat foldr fee app output_coin_ids]. rewrite I1, I2.
  split; [reflexivity|]. split; [reflexivity|]. intros h. constructor; [exact I|apply I3].
Qed.

Lemma pending_ok_take s cs reveals n : Forall (fun tx => is_spend tx = false) cs ->
  pending_ok s reveals -> pending_ok s (cs ++ take n reveals).
Proof.
  intros HC HP. rewrite <- (take_drop n reveals) in HP. apply pending_ok_prefix in HP as [P1 P2 P3].
  destruct (commits_inert cs HC) as (C1 & C2 & _).
  split; rewrite map_app, ?concat_app, ?sumZ_app, ?C1, ?C2; assumption.
Qed.

(** The block that was selected and sealed is an accepted one. *)
Lemma selected_accepted s cs rs sel ext batch cbs p now prev xs :
  COMMIT_REPLAY_FIX_ACTIVATION_HEIGHT <= st_height s -> mmr_shape xs (st_chain_mmr s) ->
  Forall (authorised usize_bits (st_height s)) (cs ++ rs) -> sel_inv s (cs ++ rs) sel ->
  prepass_checks (sel_txs sel) = Ok p -> in_block_commits p = list_to_set (commits_of (sel_txs sel)) ->
  b_transactions batch = sel_txs sel -> b_coinbase batch = cbs ->
  check_linkage batch s = Ok () -> validate_timestamp (b_timestamp batch) prev now (st_height s) = Ok () ->
  check_coinbase (st_height s) (sel_fees sel) cbs = Ok () ->
  expected_state_root (sel_state sel) (map coinbase_coin_id cbs) = Ok (b_state_root batch) ->
  verify_extension fast_mining (mining_target (set_extension ext batch) (sel_state sel)) ext (b_target batch) = Ok () ->
  NoDup (map coinbase_coin_id cbs) ->
  (forall x, x ∈ map coinbase_coin_id cbs -> x ∉ sa_set (st_coins (sel_state sel))) ->
  exists m, accepted fast_mining usize_bits witnesses_size now (set_extension ext batch) prev None false
              s (sel_state sel) p (sel_fees sel) m.
Proof.
  intros Hh HM HA [I1 I2 _ I4 I5] HP HPC ET <- HL HT HC HE HW HN HF.
  destruct (apply_txs_run _ _ _ _ _ _ _ _ I2) as [R _].
  destruct (txs_run_frame _ _ _ _ _ R) as [(_ & _ & Eh & _ & Em & _) _]. rewrite <- Em in HM.
  destruct (mmr_append_shape xs _ (ext_final_hash ext) (v2_of (sel_state sel)) HM) as (m & EM & _).
  exists m. split; cbn [set_extension b_transactions b_coinbase b_timestamp b_state_root b_extension]; rewrite ?ET.
  - exact HL.
  - exact HP.
  - exact HT.
  - unfold check_load. destruct I4 as [-> I4], I5 as [-> I5].
    rewrite !(proj2 (Z.ltb_ge _ _)) by assumption. reflexivity.
  - intros _. eapply verify_all_intro; [exact R|exact Hh| |exact HPC].
    apply Forall_forall. intros tx Hx. rewrite Forall_forall in HA. apply HA.
    eapply sublist_submseteq, elem_of_submseteq in I1; eassumption.
  - exact I2.
  - rewrite Eh. exact HC.
  - exact HE.
  - exact HW.
  - split; assumption.
  - eauto.
Qed.

End Accepted.

Section Properties.
Context `{Blake3}.
Context (fast_mining : bool) (usize_bits : Z).
Context (witnesses_size : list Witness -> option Z) (tx_size : Transaction -> Z).
Context {A : Type} `{!SetAccumulator A} `{!SetAccumulatorLaws A}.
Context (heights_order : gmap hash32 Z -> list (hash32 * Z)).

(** C8: the node mines blocks that the node accepts.  From a state whose chain MMR is
    well formed, with pending commits and pending spends that were authorised on
    admission, whose fees do not overflow and whose outputs are new and pairwise
    different, the miner always builds a template; its transactions are pending
    ones in order, its coinbase pays the reward and their fees, and its timestamp
    follows that of the state; and if its coinbase ids are new, its timestamp is acceptable and
    the proof of work found for the returned mining hash meets the target, block
    application accepts the template with that proof, whatever the bytes of the
    transactions and whichever of them had to be left out. *)
Theorem mined_template_accepted (s : State A) commits reveals seed pool now now' prev ext xs oracle :
  COMMIT_REPLAY_FIX_ACTIVATION_HEIGHT <= st_height s -> mmr_shape xs (st_chain_mmr s) ->
  Forall (fun tx => is_spend tx = false) commits ->
  Forall (fun tx => is_spend tx = true /\ authorised usize_bits (st_height s) tx) reveals ->
  block_reward (st_height s) + sumZ (map fee reveals) <= umax 64 ->
  NoDup (concat (map output_coin_ids reveals)) ->
  (forall x, x ∈ concat (map output_coin_ids reveals) -> x ∉ sa_set (st_coins s)) ->
  exists batch mining_hash,
    mining_template fast_mining usize_bits witnesses_size tx_size s commits reveals seed pool now
    = Ok (batch, mining_hash)
    /\ sublist (b_transactions batch) (commits ++ reveals)
    /\ b_coinbase batch
       = generate_coinbase seed (st_height s) (sumZ (map fee (b_transactions batch))) pool
    /\ b_timestamp batch = Z.max now (wrap 64 (st_timestamp s + 1))
    /\ (NoDup (map coinbase_coin_id (b_coinbase batch)) ->
        (forall x, x ∈ map coinbase_coin_id (b_coinbase batch) ->
           (x ∉ sa_set (st_coins s)) /\ (x ∉ concat (map output_coin_ids reveals))) ->
        validate_timestamp (b_timestamp batch) prev now' (st_height s) = Ok () ->
        verify_extension fast_mining mining_hash ext (st_target s) = Ok () ->
        exists s', apply_batch fast_mining usize_bits witnesses_size heights_order now'
                     (set_extension ext batch) prev (s, oracle) = (Ok (), (s', record_oracle (b_transactions batch) oracle))).
Proof.
  intros Hh HM HC HR HB HN HF.
  set (cs := take (Z.to_nat MAX_BATCH_COMMITS) commits). set (rs := take (Z.to_nat MAX_BATCH_REVEALS) reveals).
  assert (SC : sublist cs commits) by apply sublist_take. assert (SR : sublist rs reveals) by apply sublist_take.
  assert (HC1 : Forall (fun tx => is_spend tx = false) cs) by (apply Forall_take, HC).
  assert (HR1 : Forall (fun tx => is_spend tx = true /\ authorised usize_bits (st_height s) tx) rs) by (apply Forall_take, HR).
  apply Forall_and in HR1 as [HR1 HA].
  assert (HR0 : 0 < block_reward (st_height s)) by (apply block_reward_pos; unfold COMMIT_REPLAY_FIX_ACTIVATION_HEIGHT in Hh; lia).
  assert (HP : pending_ok s (cs ++ rs)) by (apply (pending_ok_take usize_bits); [exact HC1|]; split; [lia|assumption..]).
  assert (HA1 : Forall (authorised usize_bits (st_height s)) (cs ++ rs)).
  { apply Forall_app. split; [apply (commits_inert usize_bits cs HC1)|exact HA]. }
  destruct (selection_inv fast_mining usize_bits witnesses_size tx_size s commits reveals Hh HC1 HA1 HP)
    as (sel & E1 & HI). fold cs rs in HI.
  destruct (selection_prepass _ _ _ s cs rs sel HI HC1 HR1 ltac:(unfold cs; rewrite length_take; lia) ltac:(unfold rs; rewrite length_take; lia))
    as (p & EP & EPC).
  destruct (apply_txs_run _ _ _ _ _ _ _ _ (si_run _ _ _ _ _ _ HI)) as [R EF].
  destruct (txs_run_frame _ _ _ _ _ R) as [HFr _].
  pose proof (si_sub _ _ _ _ _ _ HI) as HSub. clearbody cs rs.
  set (cbs := generate_coinbase seed (st_height s) (sel_fees sel) pool).
  destruct (seal_eq s (sel_state sel) (sel_txs sel) cbs now xs HFr HM) as (b & mh & E2 & ER & B1 & B2 & B3 & B4 & B5 & B6 & EM).
  exists b, mh. split; [unfold mining_template; rewrite E1; exact E2|].
  split; [rewrite B4; etransitivity; [exact HSub|apply sublist_app; assumption]|].
  rewrite B4, B5. split; [unfold cbs; rewrite EF; reflexivity|]. split; [exact B6|]. intros HN1 HF1 HT HW.
  assert (HFee : 0 <= sel_fees sel /\ block_reward (st_height s) + sel_fees sel <= umax 64).
  { apply sublist_fees in HSub, SR. rewrite map_app, sumZ_app in HSub.
    destruct (commits_inert usize_bits cs HC1) as (_ & EZ & _). rewrite EZ in HSub.
    split; [rewrite EF; assert (0 <= sumZ (map fee (sel_txs sel))); [|lia]; apply sumZ_nonneg, Forall_map, Forall_forall;
      intros t _; apply fee_nonneg|lia]. }
  destruct (generate_coinbase_pays seed (st_height s) (sel_fees sel) pool ltac:(lia)) as [G1 G2].
  destruct (selected_accepted _ _ _ s cs rs sel ext b cbs p now' prev xs Hh HM HA1 HI EP EPC B4 B5) as (m & AC).
  - unfold check_linkage. rewrite B1, B2, B3, !bool_decide_true by reflexivity. reflexivity.
  - exact HT.
  - apply check_coinbase_intro; [lia|exact HN1|exact G1|exact G2].
  - exact ER.
  - rewrite EM, B3. exact HW.
  - exact HN1.
  - intros x Hx Hc. destruct (HF1 x Hx) as [X1 X2]. destruct (txs_run_created _ _ _ _ _ _ R Hc) as [X|X]; [auto|].
    eapply sublist_concat in X; [|exact HSub]. rewrite map_app, concat_app in X.
    destruct (commits_inert usize_bits cs HC1) as (EZ & _). rewrite EZ in X. apply X2.
    eapply sublist_concat; [exact SR|exact X].
  - eexists. unfold apply_batch.
    rewrite <- B4. apply (proj2 (apply_batch_Ok _ _ _ _ _ _ _ _ _ _ _ _ _)).
    do 4 eexists. split; [exact AC|]. split; reflexivity.
Qed.

End Properties.

(** * Concrete inputs *)

#[local] Instance demo_laws : @SetAccumulatorLaws (gset hash32) const_blake3 (@demo_acc const_blake3) :=
  @set_accumulator_laws const_blake3.

Definition demo_parent : State (gset hash32) := {|
  st_mirstat := one_hash; st_coins := ∅; st_commitments := ∅; st_depth := 0;
  st_target := arr_of 32 (replicate 32 xff); st_height := 110000; st_timestamp := BITCOIN_BLOCK_TIME;
  st_commitment_heights := ∅; st_expirations := ∅; st_chain_mmr := mmr_new;
  st_header_hash := one_hash; st_burned_wots := ∅
|}.

Definition demo_work : Extension := {| ext_nonce := 0; ext_final_hash := one_hash |}.

Lemma mined_template_accepted_witness :
  let H := const_blake3 in
  exists batch mh s',
    @mining_template const_blake3 true 64 demo_size (fun _ => 100) _ demo_acc demo_parent [Commit one_hash 0] []
      one_hash None BITCOIN_BLOCK_TIME = Ok (batch, mh)
    /\ @apply_batch const_blake3 true 64 demo_size _ demo_acc demo_heights BITCOIN_BLOCK_TIME
         (set_extension demo_work batch) [] (demo_parent, ∅) = (Ok (), s').
Proof.
  intros H.
  destruct (@mined_template_accepted const_blake3 true 64 demo_size (fun _ => 100) _ demo_acc demo_laws demo_heights
    demo_parent [Commit one_hash 0] [] one_hash None BITCOIN_BLOCK_TIME BITCOIN_BLOCK_TIME [] demo_work [] ∅)
    as (batch & mh & E & ES & EC & ET & HA).
  - discriminate.
  - apply mmr_new_shape.
  - repeat constructor.
  - constructor.
  - vm_compute. discriminate.
  - constructor.
  - intros x Hx. inversion Hx.
  - assert (EF : sumZ (map fee (b_transactions batch)) = 0).
    { apply sublist_fees in ES. change (sumZ (map fee (b_transactions batch)) <= 0) in ES.
      assert (0 <= sumZ (map fee (b_transactions batch))); [|lia].
      apply sumZ_nonneg, Forall_map, Forall_forall. intros t _. apply fee_nonneg. }
    rewrite EF in EC.
    assert (EI : map (@coinbase_coin_id const_blake3) (b_coinbase batch) = [one_hash]) by (rewrite EC; reflexivity).
    rewrite EI, ET in HA. destruct HA as (s' & HA).
    + apply NoDup_singleton.
    + intros x _. split; apply not_elem_of_empty || (intros Hx; inversion Hx).
    + vm_compute. reflexivity.
    + reflexivity.
    + eauto 6.
Defined.

#[local] Existing Instance demo_acc.

(** Why the outputs must be pairwise different: a reveal with two equal outputs is
    valid, fails in the template after it has spent its input, and the candidate
    state is not restored, so the template's state root is not that of its
    transactions.  The node's own miner and the remote template agree on this. *)
Lemma template_poisoned :
  let H := toy_blake3 in
  let tx := demo_tx [Standard (zero_arr 32) 1 (zero_arr 32); Standard (zero_arr 32) 1 (zero_arr 32)] in
  let s := demo_state tx 6 in
  let poisoned (r : res BatchError (Selection (gset hash32))) := match r with
    | Ok sel => match sel_txs sel with [] => true | _ => false end
                && negb (bool_decide (input_coin_id demo_input ∈ st_coins (sel_state sel)))
    | _ => false end in
  validate_transaction false 64 demo_size s tx = Ok ()
  /\ bool_decide (input_coin_id demo_input ∈ st_coins s) = true
  /\ poisoned (select_block false 64 demo_size (fun _ => 100) s [] [tx]) = true
  /\ poisoned (build_template_prefix false 64 demo_size (fun _ => 100) s [tx] []) = true.
Proof. vm_compute. auto. Qed.
