(* ===== verification/Filter.v ===== *)
(** Compact block filters of [src/core/filter.rs]: the items of a block, hashed to a
    range, sorted and written as Golomb-Rice codes of their differences; and the
    client's matching, which decodes while it merges.

    A [HashSet] is a [gset] in any order, for the hashes are sorted.  Bit counts and
    positions are below 2^64 and modelled as [nat]. *)
From S2P Require Import Prelude Types.

#[local] Open Scope Z_scope.

Definition FPR_INVERSE : Z := 1000000.
Definition P : nat := 20.

(** * Bit streams *)

Record BitWriter : Type := mkBitWriter {
  buffer : bytes;
  current_byte : Z;
  bits_in_byte : nat
}.

Definition writer_new : BitWriter := mkBitWriter [] 0 0.

Definition write_bit (w : BitWriter) (bit : bool) : BitWriter :=
  let current := if bit then Z.lor (current_byte w) (Z.shiftl 1 (7 - Z.of_nat (bits_in_byte w)))
                 else current_byte w in
  let bits := S (bits_in_byte w) in
  if Nat.eqb bits 8 then mkBitWriter (buffer w ++ [b8 current]) 0 0
  else mkBitWriter (buffer w) current bits.

(** The bits [count - 1], ..., [0] of [value]. *)
Fixpoint write_bits (w : BitWriter) (value : Z) (count : nat) : BitWriter :=
  match count with
  | O => w
  | S count => write_bits (write_bit w (Z.land (Z.shiftr value (Z.of_nat count)) 1 =? 1)) value count
  end.

Definition into_bytes (w : BitWriter) : bytes :=
  if Nat.ltb 0 (bits_in_byte w) then buffer w ++ [b8 (current_byte w)] else buffer w.

Definition encode_golomb (w : BitWriter) (value : Z) : BitWriter :=
  let quotient := Z.shiftr value (Z.of_nat P) in
  let remainder := Z.land value (Z.shiftl 1 (Z.of_nat P) - 1) in
  let w := Nat.iter (Z.to_nat quotient) (fun w => write_bit w true) w in
  write_bits (write_bit w false) remainder P.

Record BitReader : Type := mkBitReader {
  data : bytes;
  byte_index : nat;
  bit_index : nat
}.

Definition reader_new (d : bytes) : BitReader := mkBitReader d 0 0.

Definition read_bit (r : BitReader) : option (bool * BitReader) :=
  match data r !! byte_index r with
  | None => None
  | Some b =>
      let bit := Z.land (Z.shiftr (bval b) (7 - Z.of_nat (bit_index r))) 1 =? 1 in
      let i := S (bit_index r) in
      Some (bit, if Nat.eqb i 8 then mkBitReader (data r) (S (byte_index r)) 0
                 else mkBitReader (data r) (byte_index r) i)
  end.

(** [value] is shifted left on a [u64]. *)
Fixpoint read_bits_loop (count : nat) (value : Z) (r : BitReader) : option (Z * BitReader) :=
  match count with
  | O => Some (value, r)
  | S count =>
      '(bit, r) ← read_bit r;
      read_bits_loop count (Z.lor (wrap 64 (Z.shiftl value 1)) (Z.b2z bit)) r
  end.

Definition read_bits (count : nat) (r : BitReader) : option (Z * BitReader) := read_bits_loop count 0 r.

(** The unary part: at most every remaining bit is read. *)
Fixpoint read_unary (fuel : nat) (quotient : Z) (r : BitReader) : option (Z * BitReader) :=
  match fuel with
  | O => None
  | S fuel =>
      '(bit, r) ← read_bit r;
      if bit : bool then read_unary fuel (wrap 64 (quotient + 1)) r else Some (quotient, r)
  end.

Definition remaining_bits (r : BitReader) : nat := 8 * length (data r) - (8 * byte_index r + bit_index r).

Definition decode_golomb (r : BitReader) : option (Z * BitReader) :=
  '(quotient, r) ← read_unary (S (remaining_bits r)) 0 r;
  '(remainder, r) ← read_bits P r;
  Some (Z.lor (wrap 64 (Z.shiftl quotient (Z.of_nat P))) remainder, r).

(** * Filters *)

Section Filters.
Context `{Blake3}.

Definition tx_items (tx : Transaction) : gset hash32 :=
  match tx with
  | Commit commitment _ => {[commitment]}
  | Reveal inputs _ outputs _ | Consolidate inputs _ outputs _ =>
      list_to_set (concat (map (fun i => [input_coin_id i; predicate_address (in_predicate i)]) inputs))
      ∪ list_to_set (concat (map (fun o =>
          match output_coin_id o with Some c => [c] | None => [] end ++ [output_address o]) outputs))
  end.

Definition items_in (batch : Batch) : gset hash32 :=
  ⋃ map tx_items (b_transactions batch)
  ∪ list_to_set (concat (map (fun cb => [coinbase_coin_id cb; cb_address cb]) (b_coinbase batch))).

(** [u64::from_le_bytes(hash_concat(key, item)[..8])]. *)
Definition item_raw (key item : hash32) : Z := le_val (take 8 (arr_list (hash_concat key item))).

(** [raw % modulus]: division by zero aborts. *)
Definition item_hash (key : hash32) (modulus : Z) (item : hash32) : res () Z :=
  if modulus =? 0 then Panic else Ok (item_raw key item mod modulus).

Fixpoint hash_items (key : hash32) (modulus : Z) (items : list hash32) : res () (list Z) :=
  match items with
  | [] => Ok []
  | i :: items => h ← item_hash key modulus i; hs ← hash_items key modulus items; Ok (h :: hs)
  end.

Fixpoint encode_deltas (w : BitWriter) (last : Z) (hashes : list Z) : BitWriter :=
  match hashes with
  | [] => w
  | h :: hashes => encode_deltas (encode_golomb w (wrap 64 (h - last))) h hashes
  end.

(** [CompactFilter::build]; the argument [order] lists the items. *)
Definition build_items (key : hash32) (order : list hash32) : res () bytes :=
  let n := Z.of_nat (length order) in
  if n =? 0 then Ok []
  else
    let modulus := wrap 64 (n * FPR_INVERSE) in
    hashes ← hash_items key modulus order;
    Ok (into_bytes (encode_deltas writer_new 0 (merge_sort Z.le hashes))).

Definition build (order : gset hash32 -> list hash32) (batch : Batch) : res () bytes :=
  build_items (ext_final_hash (b_extension batch)) (order (items_in batch)).

Fixpoint decode_loop (n : nat) (cumulative : Z) (r : BitReader) : list Z :=
  match n with
  | O => []
  | S n =>
      match decode_golomb r with
      | Some (delta, r) =>
          let c := wrap 64 (cumulative + delta) in c :: decode_loop n c r
      | None => []
      end
  end.

Definition decode_filter (d : bytes) (n : nat) : list Z :=
  match d, n with [], _ | _, O => [] | _, _ => decode_loop n 0 (reader_new d) end.

(** [Vec::dedup]: of equal neighbours the first is kept. *)
Fixpoint dedup (l : list Z) : list Z :=
  match l with
  | x :: (y :: _) as t => if x =? y then dedup t else x :: dedup t
  | _ => l
  end.

(** [while qi < len && query_hashes[qi] < cumulative { qi += 1 }]; [qs] is what is
    left of the queries from [qi] on. *)
Fixpoint skip_below (qs : list Z) (cumulative : Z) : list Z :=
  match qs with
  | [] => []
  | q :: t => if q <? cumulative then skip_below t cumulative else qs
  end.

Fixpoint match_loop (n : nat) (qs : list Z) (cumulative : Z) (r : BitReader) : bool :=
  match n, qs with
  | O, _ | _, [] => false
  | S n, _ =>
      match decode_golomb r with
      | Some (delta, r) =>
          let c := wrap 64 (cumulative + delta) in
          match skip_below qs c with
          | (q :: _) as qs => if q =? c then true else match_loop n qs c r
          | [] => match_loop n [] c r
          end
      | None => false
      end
  end.

Definition match_any (filter_data : bytes) (block_hash : hash32) (n : nat) (items : list hash32)
    : res () bool :=
  match filter_data, n, items with
  | [], _, _ | _, O, _ | _, _, [] => Ok false
  | _, _, _ =>
      let modulus := wrap 64 (Z.of_nat n * FPR_INVERSE) in
      hashes ← hash_items block_hash modulus items;
      Ok (match_loop n (dedup (merge_sort Z.le hashes)) 0 (reader_new filter_data))
  end.

End Filters.

(** * Bit streams as lists of booleans *)

Definition byte_bits (z : Z) : list bool :=
  [Z.testbit z 7; Z.testbit z 6; Z.testbit z 5; Z.testbit z 4;
   Z.testbit z 3; Z.testbit z 2; Z.testbit z 1; Z.testbit z 0].

Definition bytes_bits (d : bytes) : list bool := concat (map (fun b => byte_bits (bval b)) d).

Lemma bytes_bits_app d e : bytes_bits (d ++ e) = bytes_bits d ++ bytes_bits e.
Proof. unfold bytes_bits. rewrite map_app, concat_app. reflexivity. Qed.

Lemma bytes_bits_one z : 0 <= z < 256 -> bytes_bits [b8 z] = byte_bits z.
Proof. intros Hz. unfold bytes_bits. cbn [map concat]. rewrite bval_b8, Z.mod_small, app_nil_r by exact Hz. reflexivity. Qed.

Lemma length_bytes_bits d : length (bytes_bits d) = (8 * length d)%nat.
Proof. induction d as [|b d IH]; [reflexivity|]. unfold bytes_bits in *. cbn [map concat]. rewrite length_app, IH. cbn. lia. Qed.

(** The bits written so far; the unused bits of the current byte are zero. *)
Definition wbits (w : BitWriter) : list bool :=
  bytes_bits (buffer w) ++ take (bits_in_byte w) (byte_bits (current_byte w)).

Definition writer_ok (w : BitWriter) : Prop :=
  (bits_in_byte w < 8)%nat /\ 0 <= current_byte w < 256
  /\ drop (bits_in_byte w) (byte_bits (current_byte w)) = replicate (8 - bits_in_byte w) false.

Lemma set_bit_byte c k : (k < 8)%nat -> 0 <= c < 256 ->
  0 <= Z.lor c (Z.shiftl 1 (7 - Z.of_nat k)) < 256
  /\ byte_bits (Z.lor c (Z.shiftl 1 (7 - Z.of_nat k))) = <[k := true]> (byte_bits c).
Proof.
  intros Hk Hc. split.
  - split; [apply Z.lor_nonneg; split; [lia|apply Z.shiftl_nonneg; lia]|].
    assert (HL : forall a, 0 <= a -> Z.log2 a < 8 -> a < 256).
    { intros a Ha HL. destruct (Z.eq_dec a 0) as [->|Na]; [lia|]. apply (Z.log2_lt_pow2 a 8); lia. }
    assert (HS : Z.shiftl 1 (7 - Z.of_nat k) = 2 ^ (7 - Z.of_nat k)) by (rewrite Z.shiftl_mul_pow2 by lia; lia).
    apply HL; [apply Z.lor_nonneg; split; [lia|apply Z.shiftl_nonneg; lia]|].
    rewrite Z.log2_lor by (try apply Z.shiftl_nonneg; lia). rewrite HS, Z.log2_pow2 by lia.
    assert (Z.log2 c < 8); [|lia]. destruct (Z.eq_dec c 0) as [->|Nc]; [reflexivity|]. apply Z.log2_lt_pow2; lia.
  - unfold byte_bits. rewrite !Z.lor_spec. do 8 (destruct k as [|k]; [cbn; rewrite ?orb_false_r, ?orb_true_r; reflexivity|]). lia.
Qed.

Lemma write_bit_spec w b : writer_ok w ->
  writer_ok (write_bit w b) /\ wbits (write_bit w b) = wbits w ++ [b].
Proof.
  intros (Hk & Hc & HZ). unfold write_bit.
  set (c := if b then _ else _).
  assert (HB : 0 <= c < 256 /\ byte_bits c = <[bits_in_byte w := b]> (byte_bits (current_byte w))).
  { subst c. destruct b; [apply set_bit_byte; assumption|]. split; [exact Hc|]. symmetry. apply list_insert_id.
    rewrite <- (Nat.add_0_r (bits_in_byte w)), <- lookup_drop, HZ. apply lookup_replicate_2. lia. }
  destruct HB as [HB1 HB2]. clearbody c.
  assert (HT : take (S (bits_in_byte w)) (byte_bits c) = take (bits_in_byte w) (byte_bits (current_byte w)) ++ [b]).
  { rewrite HB2. erewrite take_S_r; [|apply list_lookup_insert_eq; exact Hk]. f_equal. apply take_insert_ge. lia. }
  assert (HD : drop (S (bits_in_byte w)) (byte_bits c) = replicate (8 - S (bits_in_byte w)) false).
  { rewrite HB2, drop_insert_lt by lia. rewrite <- Nat.add_1_r, <- drop_drop, HZ, drop_replicate. f_equal. lia. }
  destruct (Nat.eqb_spec (S (bits_in_byte w)) 8) as [E8|E8]; unfold wbits, writer_ok; cbn [buffer current_byte bits_in_byte].
  - split; [split; [lia|split; [lia|reflexivity]]|].
    rewrite bytes_bits_app, bytes_bits_one by exact HB1. cbn [take]. rewrite app_nil_r, <- app_assoc, <- HT, E8. reflexivity.
  - split; [split; [lia|split; [exact HB1|exact HD]]|]. rewrite HT, app_assoc. reflexivity.
Qed.

Lemma into_bytes_spec w : writer_ok w -> exists k, bytes_bits (into_bytes w) = wbits w ++ replicate k false.
Proof.
  intros (Hk & Hc & HZ). unfold into_bytes, wbits. destruct (Nat.ltb_spec 0 (bits_in_byte w)) as [HL|HL].
  - exists (8 - bits_in_byte w)%nat. rewrite bytes_bits_app, bytes_bits_one by exact Hc.
    rewrite <- app_assoc, <- HZ, take_drop. reflexivity.
  - exists 0%nat. replace (bits_in_byte w) with 0%nat by lia. cbn. rewrite !app_nil_r. reflexivity.
Qed.

(** The bits left to read. *)
Definition rbits (r : BitReader) : list bool := drop (8 * byte_index r + bit_index r) (bytes_bits (data r)).

Lemma lookup_bytes_bits d : forall i j, (j < 8)%nat ->
  bytes_bits d !! (8 * i + j)%nat = (fun b => Z.testbit (bval b) (7 - Z.of_nat j)) <$> d !! i.
Proof.
  induction d as [|b d IH]; intros i j Hj; [destruct i; reflexivity|].
  unfold bytes_bits. cbn [map concat]. fold (bytes_bits d). destruct i as [|i].
  - rewrite lookup_app_l by (cbn; lia). do 8 (destruct j as [|j]; [reflexivity|]). lia.
  - rewrite lookup_app_r by (cbn; lia). replace (8 * S i + j - length (byte_bits (bval b)))%nat with (8 * i + j)%nat by (cbn; lia).
    apply IH, Hj.
Qed.

Lemma read_bit_spec r : (bit_index r < 8)%nat ->
  match rbits r with
  | [] => read_bit r = None
  | b :: l => exists r', read_bit r = Some (b, r') /\ rbits r' = l /\ (bit_index r' < 8)%nat
  end.
Proof.
  intros Hj. pose proof (lookup_bytes_bits (data r) (byte_index r) (bit_index r) Hj) as HL.
  unfold rbits, read_bit. destruct (data r !! byte_index r) as [x|] eqn:Ex; cbn [fmap option_fmap option_map] in HL.
  - rewrite (drop_S _ _ _ HL). eexists. split; [|].
    + f_equal. f_equal. rewrite Z.land_comm. change 1 with (Z.ones 1) at 1. rewrite Z.land_comm, Z.land_ones by lia.
      change (2 ^ 1) with 2. rewrite <- Z.bit0_mod, Z.shiftr_spec, Z.add_0_l by lia. destruct (Z.testbit _ _); reflexivity.
    + destruct (Nat.eqb_spec (S (bit_index r)) 8) as [E8|E8]; cbn [data byte_index bit_index]; (split; [|lia]); f_equal; lia.
  - destruct (drop _ _) as [|b l] eqn:ED; [reflexivity|]. exfalso.
    assert (EL : bytes_bits (data r) !! (8 * byte_index r + bit_index r + 0)%nat = Some b) by (rewrite <- lookup_drop, ED; reflexivity).
    rewrite Nat.add_0_r in EL. congruence.
Qed.

(** * Golomb-Rice codes *)

(** The bits [n - 1], ..., [0] of [v]. *)
Fixpoint low_bits (n : nat) (v : Z) : list bool :=
  match n with O => [] | S n => Z.testbit v (Z.of_nat n) :: low_bits n v end.

Definition code (v : Z) : list bool :=
  replicate (Z.to_nat (Z.shiftr v (Z.of_nat P))) true ++ false :: low_bits P v.

Lemma land_1_testbit v k : 0 <= k -> (Z.land (Z.shiftr v k) 1 =? 1) = Z.testbit v k.
Proof.
  intros Hk. change 1 with (Z.ones 1) at 1. rewrite Z.land_ones by lia. change (2 ^ 1) with 2.
  rewrite <- Z.bit0_mod, Z.shiftr_spec, Z.add_0_l by lia. destruct (Z.testbit _ _); reflexivity.
Qed.

Lemma write_bits_spec n v : forall w, writer_ok w ->
  writer_ok (write_bits w v n) /\ wbits (write_bits w v n) = wbits w ++ low_bits n v.
Proof.
  induction n as [|n IH]; intros w Hw; cbn [write_bits low_bits]; [rewrite app_nil_r; auto|].
  destruct (write_bit_spec w (Z.land (Z.shiftr v (Z.of_nat n)) 1 =? 1) Hw) as [W1 W2].
  destruct (IH _ W1) as [V1 V2]. split; [exact V1|].
  rewrite V2, W2, land_1_testbit, <- app_assoc by lia. reflexivity.
Qed.

Lemma write_ones_spec n : forall w, writer_ok w ->
  writer_ok (Nat.iter n (fun w => write_bit w true) w)
  /\ wbits (Nat.iter n (fun w => write_bit w true) w) = wbits w ++ replicate n true.
Proof.
  induction n as [|n IH]; intros w Hw; [rewrite app_nil_r; auto|].
  destruct (IH w Hw) as [I1 I2]. change (Nat.iter (S n) ?f w) with (f (Nat.iter n f w)).
  destruct (write_bit_spec _ true I1) as [W1 W2]. split; [exact W1|].
  rewrite W2, I2, <- app_assoc, <- replicate_S_end. reflexivity.
Qed.

Lemma low_bits_mod n v : low_bits n (v mod 2 ^ Z.of_nat n) = low_bits n v.
Proof.
  assert (HG : forall k, (k <= n)%nat -> low_bits k (v mod 2 ^ Z.of_nat n) = low_bits k v).
  { induction k as [|k IH]; intros Hk; [reflexivity|]. cbn [low_bits]. rewrite IH by lia.
    rewrite Z.mod_pow2_bits_low by lia. reflexivity. }
  apply HG. lia.
Qed.

Lemma encode_golomb_spec w v : writer_ok w ->
  writer_ok (encode_golomb w v) /\ wbits (encode_golomb w v) = wbits w ++ code v.
Proof.
  intros Hw. unfold encode_golomb, code.
  destruct (write_ones_spec (Z.to_nat (Z.shiftr v (Z.of_nat P))) w Hw) as [W1 W2].
  destruct (write_bit_spec _ false W1) as [V1 V2].
  destruct (write_bits_spec P (Z.land v (Z.shiftl 1 (Z.of_nat P) - 1)) _ V1) as [U1 U2].
  split; [exact U1|]. rewrite U2, V2, W2, <- !app_assoc. do 2 f_equal. cbn [app]. f_equal.
  change (Z.shiftl 1 (Z.of_nat P) - 1) with (Z.ones (Z.of_nat P)). rewrite Z.land_ones by lia. apply low_bits_mod.
Qed.

(** ** Decoding *)

Lemma read_bit_cons r b l : (bit_index r < 8)%nat -> rbits r = b :: l ->
  exists r', read_bit r = Some (b, r') /\ rbits r' = l /\ (bit_index r' < 8)%nat.
Proof. intros Hr E. pose proof (read_bit_spec r Hr) as HS. rewrite E in HS. exact HS. Qed.

Lemma read_bits_spec n : forall v acc r l, (bit_index r < 8)%nat -> rbits r = low_bits n v ++ l ->
  0 <= acc -> (acc + 1) * 2 ^ Z.of_nat n <= 2 ^ 64 ->
  exists r', read_bits_loop n acc r = Some (acc * 2 ^ Z.of_nat n + v mod 2 ^ Z.of_nat n, r')
  /\ rbits r' = l /\ (bit_index r' < 8)%nat.
Proof.
  induction n as [|n IH]; intros v acc r l Hr E Ha HB; cbn [read_bits_loop low_bits app] in *.
  - exists r. rewrite Z.pow_0_r, Z.mod_1_r. split; [|auto]. do 2 f_equal. lia.
  - destruct (read_bit_cons r _ _ Hr E) as (r1 & -> & R1 & R2). cbn [mbind option_bind].
    pose proof (Z.pow_pos_nonneg 2 (Z.of_nat n) ltac:(lia) ltac:(lia)) as HP.
    rewrite Nat2Z.inj_succ, Z.pow_succ_r in HB by lia.
    set (t := Z.testbit v (Z.of_nat n)) in *.
    assert (E1 : Z.lor (wrap 64 (Z.shiftl acc 1)) (Z.b2z t) = 2 * acc + Z.b2z t).
    { unfold wrap. rewrite Z.shiftl_mul_pow2 by lia. change (2 ^ 1) with 2. rewrite Z.mod_small by nia.
      replace (acc * 2) with (2 * acc) by lia. rewrite <- Z.add_lor_land.
      assert (EL : Z.land (2 * acc) (Z.b2z t) = 0); [|rewrite EL; lia].
      destruct t; [|apply Z.land_0_r]. change (Z.b2z true) with (Z.ones 1). rewrite Z.land_ones by lia.
      change (2 ^ 1) with 2. rewrite Z.mul_comm. apply Z.mod_mul. lia. }
    rewrite E1. destruct (IH v (2 * acc + Z.b2z t) r1 l R2 R1) as (r2 & -> & R3 & R4);
      [destruct t; cbn; lia|destruct t; cbn [Z.b2z]; nia|].
    exists r2. split; [|auto]. do 2 f_equal. rewrite Nat2Z.inj_succ, Z.pow_succ_r by lia.
    assert (EM : v mod (2 * 2 ^ Z.of_nat n) = v mod 2 ^ Z.of_nat n + 2 ^ Z.of_nat n * Z.b2z t).
    { rewrite Z.mul_comm, Z.rem_mul_r by lia. subst t. rewrite Z.testbit_spec' by lia. reflexivity. }
    rewrite EM. lia.
Qed.

Lemma read_unary_spec q : forall fuel acc r l, (bit_index r < 8)%nat ->
  rbits r = replicate q true ++ false :: l -> (q < fuel)%nat -> 0 <= acc -> acc + Z.of_nat q < 2 ^ 64 ->
  exists r', read_unary fuel acc r = Some (acc + Z.of_nat q, r') /\ rbits r' = l /\ (bit_index r' < 8)%nat.
Proof.
  induction q as [|q IH]; intros fuel acc r l Hr E Hf Ha HB; (destruct fuel as [|fuel]; [lia|]);
    cbn [replicate app] in E; destruct (read_bit_cons r _ _ Hr E) as (r1 & E1 & R1 & R2);
    cbn [read_unary]; rewrite E1; cbn [mbind option_bind].
  - exists r1. split; [|auto]. do 2 f_equal. lia.
  - unfold wrap. rewrite Z.mod_small by lia.
    destruct (IH fuel (acc + 1) r1 l R2 R1 ltac:(lia) ltac:(lia) ltac:(lia)) as (r2 & -> & R3 & R4).
    exists r2. split; [|auto]. do 2 f_equal. lia.
Qed.

Lemma length_rbits r : length (rbits r) = remaining_bits r.
Proof. unfold rbits, remaining_bits. rewrite length_drop, length_bytes_bits. reflexivity. Qed.

(** Decoding inverts encoding, whatever follows. *)
Lemma decode_golomb_code r v l : (bit_index r < 8)%nat -> rbits r = code v ++ l -> in_u 64 v ->
  exists r', decode_golomb r = Some (v, r') /\ rbits r' = l /\ (bit_index r' < 8)%nat.
Proof.
  intros Hr E Hv. unfold in_u in Hv. unfold code in E. rewrite <- app_assoc in E. cbn [app] in E.
  assert (HQ : Z.of_nat (Z.to_nat (Z.shiftr v (Z.of_nat P))) = v / 2 ^ 20).
  { rewrite Z.shiftr_div_pow2 by lia. change (Z.of_nat P) with 20. rewrite Z2Nat.id; [reflexivity|]. apply Z.div_pos; lia. }
  assert (HB : v / 2 ^ 20 * 2 ^ 20 <= v) by (rewrite Z.mul_comm; apply Z.mul_div_le; lia).
  unfold decode_golomb.
  destruct (read_unary_spec _ (S (remaining_bits r)) 0 r _ Hr E) as (r1 & -> & R1 & R2).
  - rewrite <- length_rbits, E, length_app, length_replicate. lia.
  - lia.
  - rewrite HQ. assert (v / 2 ^ 20 <= v) by (apply Z.div_le_upper_bound; lia). lia.
  - cbn [mbind option_bind]. unfold read_bits.
    destruct (read_bits_spec P v 0 r1 l R2 R1 ltac:(lia)) as (r2 & -> & R3 & R4); [vm_compute; discriminate|].
    cbn [mbind option_bind]. exists r2. split; [|auto]. do 2 f_equal. rewrite Z.mul_0_l, !Z.add_0_l, HQ.
    unfold wrap. rewrite Z.shiftl_mul_pow2 by lia. change (Z.of_nat P) with 20.
    rewrite (Z.mod_small (v / 2 ^ 20 * 2 ^ 20)) by (pose proof (Z.div_pos v (2 ^ 20)); lia).
    assert (EL : Z.land (v / 2 ^ 20 * 2 ^ 20) (v mod 2 ^ 20) = 0).
    { rewrite <- Z.shiftl_mul_pow2 by lia. apply Z.bits_inj'. intros i Hi. rewrite Z.land_spec, Z.bits_0.
      destruct (Z.ltb_spec i 20); [rewrite Z.shiftl_spec_low by lia; reflexivity|].
      rewrite Z.mod_pow2_bits_high by lia. apply andb_false_r. }
    pose proof (Z.add_lor_land (v / 2 ^ 20 * 2 ^ 20) (v mod 2 ^ 20)) as EA. rewrite EL in EA.
    pose proof (Z.div_mod v (2 ^ 20) ltac:(lia)). lia.
Qed.

(** * Filters *)

(** The codes of the differences of an ascending list. *)
Fixpoint delta_codes (last : Z) (hs : list Z) : list bool :=
  match hs with [] => [] | h :: hs => code (h - last) ++ delta_codes h hs end.

(** An ascending list of machine words that starts at [last]. *)
Definition ascending (last : Z) (hs : list Z) : Prop :=
  0 <= last /\ StronglySorted Z.le (last :: hs) /\ Forall (fun h => h < 2 ^ 64) hs.

Lemma ascending_cons last h hs : ascending last (h :: hs) ->
  0 <= last <= h /\ h < 2 ^ 64 /\ ascending h hs /\ Forall (Z.le h) hs.
Proof.
  intros (H0 & HS & HB). apply StronglySorted_inv in HS as [HS HF]. inversion HF. inversion HB. subst.
  split; [lia|]. split; [assumption|]. split; [split; [lia|split; assumption]|].
  apply StronglySorted_inv in HS. apply HS.
Qed.

Lemma encode_deltas_spec hs : forall w last, writer_ok w -> ascending last hs ->
  writer_ok (encode_deltas w last hs) /\ wbits (encode_deltas w last hs) = wbits w ++ delta_codes last hs.
Proof.
  induction hs as [|h hs IH]; intros w last Hw HA; cbn [encode_deltas delta_codes]; [rewrite app_nil_r; auto|].
  apply ascending_cons in HA as (H1 & H2 & HA & _).
  assert (EW : wrap 64 (h - last) = h - last) by (unfold wrap; apply Z.mod_small; lia). rewrite EW.
  destruct (encode_golomb_spec w (h - last) Hw) as [W1 W2]. destruct (IH _ h W1 HA) as [V1 V2].
  split; [exact V1|]. rewrite V2, W2, <- app_assoc. reflexivity.
Qed.

Lemma decode_loop_spec hs : forall last r l, (bit_index r < 8)%nat -> ascending last hs ->
  rbits r = delta_codes last hs ++ l -> decode_loop (length hs) last r = hs.
Proof.
  induction hs as [|h hs IH]; intros last r l Hr HA E; cbn [length decode_loop delta_codes] in *; [reflexivity|].
  apply ascending_cons in HA as (H1 & H2 & HA & _). rewrite <- app_assoc in E.
  destruct (decode_golomb_code r (h - last) _ Hr E ltac:(unfold in_u; lia)) as (r' & -> & R1 & R2).
  cbv zeta. unfold wrap. rewrite Z.mod_small by lia. replace (last + (h - last)) with h by lia.
  f_equal. apply (IH h r' l R2 HA R1).
Qed.

Lemma skip_below_spec qs c : StronglySorted Z.le qs ->
  skip_below qs c = filter (fun q => c <= q) qs.
Proof.
  induction 1 as [|q qs HS IH HF]; [reflexivity|]. cbn [skip_below]. rewrite filter_cons.
  destruct (Z.ltb_spec q c) as [Hq|Hq].
  - rewrite decide_False by lia. exact IH.
  - rewrite decide_True by lia. f_equal. symmetry. clear IH HS.
    induction HF as [|x l Hx _ IH]; [reflexivity|]. rewrite filter_cons, decide_True by lia. f_equal. exact IH.
Qed.

Lemma filter_sorted (f : Z -> Prop) `{forall x, Decision (f x)} qs :
  StronglySorted Z.le qs -> StronglySorted Z.le (filter f qs).
Proof.
  induction 1 as [|q qs HS IH HF]; [constructor|]. rewrite filter_cons. destruct (decide (f q)); [|exact IH].
  constructor; [exact IH|]. apply Forall_forall. intros x Hx. apply list_elem_of_filter in Hx as [_ Hx].
  rewrite Forall_forall in HF. apply HF, Hx.
Qed.

(** The merge finds a common element exactly when there is one. *)
Lemma match_loop_spec hs : forall qs last r l, (bit_index r < 8)%nat -> ascending last hs ->
  StronglySorted Z.le qs -> rbits r = delta_codes last hs ++ l ->
  match_loop (length hs) qs last r = bool_decide (Exists (fun q => q ∈ hs) qs).
Proof.
  induction hs as [|h hs IH]; intros qs last r l Hr HA HQ E; cbn [length delta_codes] in *.
  - rewrite bool_decide_false; [reflexivity|]. intros HE. apply Exists_exists in HE as (q & _ & Hq). inversion Hq.
  - apply ascending_cons in HA as (H1 & H2 & HA & HF). rewrite <- app_assoc in E.
    destruct (decode_golomb_code r (h - last) _ Hr E ltac:(unfold in_u; lia)) as (r' & ED & R1 & R2).
    cbn [match_loop]. destruct qs as [|q0 qs0]; [rewrite bool_decide_false; [reflexivity|]; intros HE; inversion HE|].
    rewrite ED. cbv zeta. unfold wrap. rewrite Z.mod_small by lia. replace (last + (h - last)) with h by lia.
    rewrite skip_below_spec by exact HQ. set (qs := q0 :: qs0) in *.
    assert (HS := filter_sorted (fun q => h <= q) qs HQ).
    assert (HE : Exists (fun q => q ∈ h :: hs) qs <-> Exists (fun q => q ∈ h :: hs) (filter (fun q => h <= q) qs)).
    { rewrite !Exists_exists. split; intros (q & Q1 & Q2); exists q.
      - split; [|exact Q2]. apply list_elem_of_filter. split; [|exact Q1].
        apply elem_of_cons in Q2 as [->|Q2]; [lia|]. rewrite Forall_forall in HF. apply HF, Q2.
      - apply list_elem_of_filter in Q1 as [_ Q1]. auto. }
    rewrite (bool_decide_ext _ _ HE). destruct (filter (fun q => h <= q) qs) as [|q fs] eqn:EF.
    + rewrite (IH [] h r' l R2 HA ltac:(constructor) R1), !bool_decide_false; [reflexivity| |]; intros X; inversion X.
    + assert (Hq : h <= q) by (assert (X : q ∈ filter (fun q => h <= q) qs) by (rewrite EF; left); apply list_elem_of_filter in X; apply X).
      destruct (Z.eqb_spec q h) as [->|NE].
      * rewrite bool_decide_true; [reflexivity|]. left. left.
      * rewrite (IH _ h r' l R2 HA HS R1). apply bool_decide_ext. rewrite !Exists_exists.
        apply StronglySorted_inv in HS as [_ HF2]. rewrite Forall_forall in HF2.
        split; intros (x & X1 & X2); exists x; (split; [exact X1|]); [right; exact X2|].
        apply elem_of_cons in X2 as [->|X2]; [|exact X2]. exfalso.
        apply elem_of_cons in X1 as [->|X1]; [congruence|]. specialize (HF2 h X1). lia.
Qed.

Lemma dedup_spec l : StronglySorted Z.le l ->
  StronglySorted Z.le (dedup l) /\ forall x, x ∈ dedup l <-> x ∈ l.
Proof.
  induction 1 as [|x l HS [I1 I2] HF]; [split; [constructor|reflexivity]|]. destruct l as [|y l].
  - split; [repeat constructor|reflexivity].
  - cbn [dedup]. fold (dedup (y :: l)). destruct (Z.eqb_spec x y) as [->|NE].
    + split; [exact I1|]. intros z. rewrite I2, !elem_of_cons. tauto.
    + split; [|intros z; rewrite !elem_of_cons, I2, !elem_of_cons; reflexivity].
      constructor; [exact I1|]. apply Forall_forall. intros z Hz. apply I2 in Hz.
      rewrite Forall_forall in HF. apply HF, Hz.
Qed.

Section Matching.
Context `{Blake3}.

Lemma hash_items_Ok key m items : m <> 0 ->
  hash_items key m items = Ok (map (fun i => item_raw key i mod m) items).
Proof.
  intros Hm. induction items as [|i items IH]; [reflexivity|]. cbn [hash_items map]. unfold item_hash.
  rewrite (proj2 (Z.eqb_neq m 0)) by exact Hm. cbn [mbind res_bind]. rewrite IH. reflexivity.
Qed.

Lemma sorted_hashes_ascending key m (items : list hash32) : 0 < m <= 2 ^ 64 ->
  ascending 0 (merge_sort Z.le (map (fun i => item_raw key i mod m) items)).
Proof.
  intros Hm. set (l := map _ items).
  assert (HR : forall h, h ∈ merge_sort Z.le l -> 0 <= h < m).
  { intros h Hh. rewrite merge_sort_Permutation in Hh. subst l. apply list_elem_of_fmap in Hh as (i & -> & _).
    apply Z.mod_pos_bound. lia. }
  split; [lia|]. split.
  - constructor; [apply StronglySorted_merge_sort; apply _|]. apply Forall_forall. intros h Hh. apply HR in Hh. lia.
  - apply Forall_forall. intros h Hh. apply HR in Hh. lia.
Qed.

(** What is encoded is read back, and the merge decides whether a query hash occurs. *)
Lemma filter_stream hs : ascending 0 hs ->
  let d := into_bytes (encode_deltas writer_new 0 hs) in
  decode_loop (length hs) 0 (reader_new d) = hs
  /\ forall qs, StronglySorted Z.le qs ->
     match_loop (length hs) qs 0 (reader_new d) = bool_decide (Exists (fun q => q ∈ hs) qs).
Proof.
  intros HA. cbv zeta.
  assert (HW : writer_ok writer_new) by (split; [cbn; lia|split; [cbn; lia|reflexivity]]).
  destruct (encode_deltas_spec hs writer_new 0 HW HA) as [W1 W2]. destruct (into_bytes_spec _ W1) as (k & EK).
  rewrite W2 in EK. cbn [wbits writer_new buffer bits_in_byte take bytes_bits map concat app] in EK.
  assert (ER : rbits (reader_new (into_bytes (encode_deltas writer_new 0 hs))) = delta_codes 0 hs ++ replicate k false)
    by (unfold rbits, reader_new; cbn [data byte_index bit_index]; exact EK).
  split; [|intros qs HQ]; [eapply decode_loop_spec|eapply match_loop_spec]; eauto; cbn; lia.
Qed.

Lemma encoded_nonempty h hs : ascending 0 (h :: hs) -> into_bytes (encode_deltas writer_new 0 (h :: hs)) <> [].
Proof.
  intros HA E.
  assert (HW : writer_ok writer_new) by (split; [cbn; lia|split; [cbn; lia|reflexivity]]).
  destruct (encode_deltas_spec (h :: hs) writer_new 0 HW HA) as [W1 W2]. destruct (into_bytes_spec _ W1) as (k & EK).
  rewrite W2, E in EK. cbn [wbits writer_new buffer bits_in_byte take bytes_bits map concat app delta_codes] in EK.
  unfold code in EK. apply (f_equal length) in EK. rewrite !length_app in EK. cbn in EK. lia.
Qed.

(** What a wallet looks for in a block: a commitment, a coin spent or created, the
    address of an input or output, or a coin or address of the coinbase. *)
Definition mentions (batch : Batch) (x : hash32) : Prop :=
  (exists tx, tx ∈ b_transactions batch
     /\ ((exists n, tx = Commit x n) \/ x ∈ input_coin_ids tx \/ x ∈ output_coin_ids tx
         \/ match tx with
            | Commit _ _ => False
            | Reveal inputs _ outputs _ | Consolidate inputs _ outputs _ =>
                (exists i, i ∈ inputs /\ x = predicate_address (in_predicate i))
                \/ (exists o, o ∈ outputs /\ x = output_address o)
            end))
  \/ exists cb, cb ∈ b_coinbase batch /\ (x = coinbase_coin_id cb \/ x = cb_address cb).

Lemma in_concat_map {X} (f : X -> list hash32) (l : list X) y x : y ∈ l -> x ∈ f y -> x ∈ concat (map f l).
Proof.
  induction l as [|z l IH]; intros Hy Hx; [inversion Hy|]. cbn [map concat]. rewrite elem_of_app.
  apply elem_of_cons in Hy as [->|Hy]; auto.
Qed.

Lemma items_in_mentions batch x : mentions batch x -> x ∈ items_in batch.
Proof.
  intros [(tx & Ht & Hx)|(cb & Hcb & Hx)]; unfold items_in.
  - apply elem_of_union_l, elem_of_union_list. exists (tx_items tx). split; [apply list_elem_of_fmap; eauto|].
    destruct Hx as [(n & ->)|Hx]; [apply elem_of_singleton; reflexivity|].
    destruct tx as [c n|inputs ws outputs salt|inputs w outputs salt];
      [destruct Hx as [Hx|[Hx|[]]]; inversion Hx| |];
      cbn [tx_items input_coin_ids output_coin_ids] in *; rewrite elem_of_union, !elem_of_list_to_set;
      (destruct Hx as [Hx|[Hx|[(i & Hi & ->)|(o & Ho & ->)]]];
       [left; apply list_elem_of_fmap in Hx as (i & -> & Hi); eapply in_concat_map; [exact Hi|left]
       |right; apply list_elem_of_omap in Hx as (o & Ho & Eo); eapply in_concat_map; [exact Ho|]; rewrite Eo; left
       |left; eapply in_concat_map; [exact Hi|right; left]
       |right; eapply in_concat_map; [exact Ho|]; apply elem_of_app; right; left]).
  - apply elem_of_union_r, elem_of_list_to_set. eapply in_concat_map; [exact Hcb|]. destruct Hx as [->| ->]; [left|right; left].
Qed.

Definition reduced (key : hash32) (n : nat) (x : hash32) : Z :=
  item_raw key x mod (Z.of_nat n * FPR_INVERSE).

Definition common (h : hash32 -> Z) (items l : list hash32) : Prop :=
  exists q x, q ∈ items /\ x ∈ l /\ h q = h x.

Lemma common_nil h items l : items = [] \/ l = [] -> false = true <-> common h items l.
Proof. intros HE. split; [discriminate|]. intros (q & x & Hq & Hx & _). destruct HE as [->| ->]; [inversion Hq|inversion Hx]. Qed.

Lemma merge_decides h items l hs : hs = merge_sort Z.le (map h l) ->
  bool_decide (Exists (fun q => q ∈ hs) (dedup (merge_sort Z.le (map h items)))) = true <-> common h items l.
Proof.
  intros ->. destruct (dedup_spec (merge_sort Z.le (map h items))) as [_ D2]; [apply StronglySorted_merge_sort; apply _|].
  rewrite bool_decide_eq_true, Exists_exists. setoid_rewrite D2. setoid_rewrite merge_sort_Permutation. split.
  - intros (z & Z1 & Z2). apply list_elem_of_fmap in Z1 as (q & -> & Hq). apply list_elem_of_fmap in Z2 as (x & Ex & Hx).
    exists q, x. auto.
  - intros (q & x & Hq & Hx & Ex). exists (h q). split; apply list_elem_of_fmap; [exists q; auto|exists x; auto].
Qed.

Lemma build_match key l : Z.of_nat (length l) * FPR_INVERSE < 2 ^ 64 ->
  exists d, build_items key l = Ok d
  /\ decode_filter d (length l) = merge_sort Z.le (map (reduced key (length l)) l)
  /\ forall items, exists b, match_any d key (length l) items = Ok b
     /\ (b = true <-> common (reduced key (length l)) items l).
Proof.
  intros HB. unfold build_items. destruct l as [|x0 l0].
  { exists []. split; [reflexivity|]. split; [reflexivity|]. intros items. exists false. split; [reflexivity|].
    apply common_nil. auto. }
  set (l := x0 :: l0) in *. set (m := Z.of_nat (length l) * FPR_INVERSE) in *.
  assert (Hm : 0 < m) by (unfold m, l, FPR_INVERSE; cbn [length]; lia).
  assert (EW : wrap 64 m = m) by (unfold wrap; apply Z.mod_small; lia).
  rewrite EW, hash_items_Ok by lia. cbn [mbind res_bind].
  change (map (fun i => item_raw key i mod m) l) with (map (reduced key (length l)) l).
  assert (HA : ascending 0 (merge_sort Z.le (map (reduced key (length l)) l))) by (apply sorted_hashes_ascending; lia).
  assert (HL : length (merge_sort Z.le (map (reduced key (length l)) l)) = length l)
    by (rewrite merge_sort_Permutation, length_map; reflexivity).
  destruct (filter_stream _ HA) as [F1 F2]. rewrite HL in F1, F2.
  set (hs := merge_sort Z.le (map (reduced key (length l)) l)) in *.
  assert (HD : into_bytes (encode_deltas writer_new 0 hs) <> []).
  { destruct hs as [|h0 hs0]; [discriminate HL|]. apply encoded_nonempty, HA. }
  exists (into_bytes (encode_deltas writer_new 0 hs)). split; [reflexivity|].
  destruct (into_bytes (encode_deltas writer_new 0 hs)) as [|d0 d'] eqn:Ed; [congruence|]. split; [exact F1|].
  intros items. destruct items as [|q0 items0]; [exists false; split; [reflexivity|apply common_nil; auto]|].
  unfold match_any. cbn [length l]. fold l. change (S (length l0)) with (length l). fold m.
  rewrite EW, hash_items_Ok by lia. cbn [mbind res_bind]. eexists. split; [reflexivity|].
  rewrite F2 by (apply dedup_spec, StronglySorted_merge_sort; apply _).
  apply (merge_decides (reduced key (length l)) (q0 :: items0) l hs eq_refl).
Qed.

(** C33: a compact filter never misses.  For a block of fewer than 2^64 / 10^6 items,
    whatever the order in which the hash set is iterated: building the filter
    succeeds; decoding it gives the sorted item hashes; and matching it, with the
    block's own hash and item count, succeeds on every query list and answers yes
    exactly when some query has the same reduced hash as some item — in particular
    whenever a query is a commitment, coin or address that the block mentions. *)
Theorem filter_exact order batch :
  (forall s : gset hash32, order s ≡ₚ elements s) ->
  Z.of_nat (size (items_in batch)) * FPR_INVERSE < 2 ^ 64 ->
  let key := ext_final_hash (b_extension batch) in
  let n := size (items_in batch) in
  exists d, build order batch = Ok d
  /\ decode_filter d n = merge_sort Z.le (map (reduced key n) (order (items_in batch)))
  /\ forall items, exists b, match_any d key n items = Ok b
     /\ (b = true <-> exists q x, q ∈ items /\ x ∈ items_in batch /\ reduced key n q = reduced key n x)
     /\ ((exists q, q ∈ items /\ mentions batch q) -> b = true).
Proof.
  intros HO HB key n.
  assert (HN : length (order (items_in batch)) = n) by (rewrite HO; reflexivity).
  assert (HI : forall x, x ∈ order (items_in batch) <-> x ∈ items_in batch) by (intros x; rewrite HO; apply elem_of_elements).
  destruct (build_match key (order (items_in batch))) as (d & E1 & E2 & E3); [rewrite HN; exact HB|].
  rewrite HN in E2, E3. exists d. split; [exact E1|]. split; [exact E2|].
  intros items. destruct (E3 items) as (b & B1 & B2). exists b. split; [exact B1|].
  assert (HC : b = true <-> exists q x, q ∈ items /\ x ∈ items_in batch /\ reduced key n q = reduced key n x).
  { rewrite B2. unfold common. setoid_rewrite HI. reflexivity. }
  split; [exact HC|]. intros (q & Q1 & Q2). apply HC. exists q, q. split; [exact Q1|].
  split; [apply items_in_mentions, Q2|reflexivity].
Qed.

(** A count whose product with the false-positive rate is a multiple of 2^64 makes
    the reduction divide by zero: matching aborts, on any non-empty filter and
    query.  The count comes from the server. *)
Lemma match_any_aborts d0 d key n q items : n <> 0%nat -> wrap 64 (Z.of_nat n * FPR_INVERSE) = 0 ->
  match_any (d0 :: d) key n (q :: items) = Panic.
Proof.
  intros Hn HW. unfold match_any. destruct n as [|n]; [congruence|]. rewrite HW. reflexivity.
Qed.

Lemma match_any_aborts_count : wrap 64 (2 ^ 58 * FPR_INVERSE) = 0.
Proof. reflexivity. Qed.

End Matching.

(** * Concrete inputs *)

Lemma filter_exact_witness :
  let H := toy_blake3 in
  let x := arr_of 32 [x07] in
  let b := {| b_prev_mirstat := x; b_transactions := [Commit x 0]; b_extension := {| ext_nonce := 0; ext_final_hash := x |};
              b_coinbase := []; b_timestamp := 0; b_target := x; b_state_root := x; b_prev_header_hash := x |} in
  exists d, build elements b = Ok d /\ match_any d x 1 [x] = Ok true.
Proof.
  intros H x b.
  destruct (@filter_exact toy_blake3 elements b) as (d & E1 & _ & E3); [reflexivity|vm_compute; reflexivity|].
  exists d. split; [exact E1|]. destruct (E3 [x]) as (r & R1 & _ & R2).
  rewrite R2 in R1; [exact R1|]. exists x. split; [left|]. left. exists (Commit x 0). split; [left|]. left. exists 0. reflexivity.
Defined.
