(* ===== verification/Wire.v ===== *)
(** Fixed-width fields of the wire formats: how a value is written, how it is read
    back, and the laws that make a sequence of reads invert a sequence of writes.
    The channel messages ([ChannelWire], little-endian, absolute offsets) and the
    order announcements ([Dex], big-endian, a cursor) are read through them. *)
From S2P Require Import Prelude.

#[local] Open Scope Z_scope.

(** A field of [width] bytes: [put] writes a well-formed value, [get] reads exactly
    [width] bytes and may refuse them. *)
Record field (A : Type) : Type := mkField {
  width : nat;
  put : A -> bytes;
  get : bytes -> option A;
  fits : A -> Prop
}.
Arguments mkField {A}.
Arguments width {A}.
Arguments put {A}.
Arguments get {A}.
Arguments fits {A}.

Class FieldLaws {A} (f : field A) : Prop := {
  width_pos : (0 < width f)%nat;
  put_length a : length (put f a) = width f;
  get_put a : fits f a -> get f (put f a) = Some a;
  put_get l a : length l = width f -> get f l = Some a -> fits f a /\ put f a = l
}.

(** [to_le_bytes]/[from_le_bytes], [to_be_bytes]/[from_be_bytes] and byte arrays. *)
Definition le (n : nat) : field Z :=
  mkField n (le_bytes n) (fun l => Some (le_val l)) (fun z => 0 <= z < 2 ^ (8 * Z.of_nat n)).
Definition be (n : nat) : field Z :=
  mkField n (be_bytes n) (fun l => Some (be_val l)) (fun z => 0 <= z < 2 ^ (8 * Z.of_nat n)).
Definition raw (n : nat) : field (arr n) := mkField n arr_list (try_arr n) (fun _ => True).

#[export] Instance le_laws n : FieldLaws (le (S n)).
Proof.
  split; unfold le; cbn [put get fits width].
  - lia.
  - intros a. apply length_le_bytes.
  - intros a Ha. rewrite le_val_small by exact Ha. reflexivity.
  - intros l a HL [= <-]. rewrite <- HL. split; [apply le_val_range|apply le_bytes_le_val].
Qed.

#[export] Instance be_laws n : FieldLaws (be (S n)).
Proof.
  split; unfold be; cbn [put get fits width].
  - lia.
  - intros a. unfold be_bytes. rewrite length_reverse. apply length_le_bytes.
  - intros a Ha. unfold be_val, be_bytes. rewrite reverse_involutive, le_val_small by exact Ha. reflexivity.
  - intros l a HL [= <-]. unfold be_val, be_bytes. rewrite <- (length_reverse l) in HL. rewrite <- HL.
    split; [apply le_val_range|]. rewrite le_bytes_le_val. apply reverse_involutive.
Qed.

#[export] Instance raw_laws n : FieldLaws (raw (S n)).
Proof.
  split; unfold raw; cbn [put get fits width].
  - lia.
  - intros a. apply arr_length.
  - intros a _. apply try_arr_list.
  - intros l a _ E. split; [exact I|]. apply try_arr_Some, E.
Qed.

(** [b[o..o + width]] converted to the field: slicing outside the message aborts. *)
Definition read {A} (f : field A) (b : bytes) (o : nat) : res () A :=
  s ← slice b o (o + width f);
  ok_or () (get f s).

(** The cursor of [dex.rs]: [b.get(o..o + n)?], which refuses a short message. *)
Definition take_bytes (b : bytes) (o n : nat) : option (bytes * nat) :=
  if Nat.leb (o + n) (length b) then Some (firstn n (skipn o b), (o + n)%nat) else None.

Definition next {A} (f : field A) (b : bytes) (o : nat) : option (A * nat) :=
  '(s, o) ← take_bytes b o (width f);
  a ← get f s;
  Some (a, o).

Section Laws.
Context {A : Type} (f : field A) `{!FieldLaws f}.

Lemma drop_after (b x r : bytes) o : drop o b = x ++ r -> drop (o + length x) b = r.
Proof. intros E. rewrite <- drop_drop, E. apply drop_app_length. Qed.

Lemma field_slice (b : bytes) o a :
  (o + width f <= length b)%nat /\ get f (firstn (width f) (drop o b)) = Some a
  <-> fits f a /\ drop o b = put f a ++ drop (o + width f) b.
Proof.
  split.
  - intros [HB HG]. apply put_get in HG as [HF HP]; [|rewrite length_firstn, length_drop; lia].
    split; [exact HF|]. rewrite HP, <- drop_drop. symmetry. apply firstn_skipn.
  - intros [HF E]. pose proof (f_equal length E) as EL. rewrite length_app, put_length, !length_drop in EL.
    pose proof (width_pos (f := f)). split; [lia|].
    rewrite E, <- (put_length (f := f) a), firstn_app, Nat.sub_diag, firstn_all, firstn_O, app_nil_r. apply get_put, HF.
Qed.

Lemma read_Ok b o a : read f b o = Ok a <-> fits f a /\ drop o b = put f a ++ drop (o + width f) b.
Proof.
  rewrite <- field_slice. unfold read, slice. rewrite (proj2 (Nat.leb_le o _)) by lia. cbn [andb].
  destruct (Nat.leb_spec (o + width f) (length b)); cbn [mbind res_bind]; [|split; [discriminate|lia]].
  replace (o + width f - o)%nat with (width f) by lia. rewrite ok_or_Ok. tauto.
Qed.

Lemma read_safe b o : (o + width f <= length b)%nat -> read f b o <> Panic.
Proof. intros HL. unfold read. rewrite slice_Ok by lia. cbn [mbind res_bind]. apply ok_or_safe. Qed.

Lemma next_Some b o a o' :
  next f b o = Some (a, o') <-> fits f a /\ o' = (o + width f)%nat /\ drop o b = put f a ++ drop o' b.
Proof.
  unfold next, take_bytes. destruct (Nat.leb_spec (o + width f) (length b)) as [HL|HL]; cbn [mbind option_bind].
  - split.
    + destruct (get f _) as [a'|] eqn:E; [|discriminate]. intros [= -> <-].
      destruct (proj1 (field_slice b o a) (conj HL E)) as [HF HD]. auto.
    + intros (HF & -> & HD). rewrite (proj2 (proj2 (field_slice b o a) (conj HF HD))). reflexivity.
  - split; [discriminate|]. intros (HF & -> & HD). apply (conj HF) in HD. apply field_slice in HD. lia.
Qed.

(** Reading back what was just written. *)
Lemma read_put b o a r : drop o b = put f a ++ r -> fits f a -> read f b o = Ok a /\ drop (o + width f) b = r.
Proof.
  intros E HF. assert (ER : drop (o + width f) b = r) by (rewrite <- (put_length (f := f) a); apply (drop_after _ _ _ _ E)).
  split; [|exact ER]. apply read_Ok. rewrite ER. auto.
Qed.

Lemma next_put b o a r : drop o b = put f a ++ r -> fits f a ->
  next f b o = Some (a, (o + width f)%nat) /\ drop (o + width f) b = r.
Proof.
  intros E HF. assert (ER : drop (o + width f) b = r) by (rewrite <- (put_length (f := f) a); apply (drop_after _ _ _ _ E)).
  split; [|exact ER]. apply next_Some. rewrite ER. auto.
Qed.

End Laws.

(** ** Readers of a fixed size *)

(** [rd] at an offset accepts exactly the encodings [enc] of the values in [ok]. *)
Class Reads {A} (rd : bytes -> nat -> res () A) (enc : A -> bytes) (size : nat) (ok : A -> Prop) : Prop := {
  reads_Ok b o a : rd b o = Ok a <-> ok a /\ drop o b = enc a ++ drop (o + size) b;
  reads_safe b o : (o + size <= length b)%nat -> rd b o <> Panic;
  reads_size a : ok a -> length (enc a) = size
}.

#[export] Instance read_reads {A} (f : field A) `{!FieldLaws f} : Reads (read f) (put f) (width f) (fits f).
Proof. split; [apply read_Ok, _|apply read_safe|intros; apply put_length]. Qed.

(** [for _ in 0..n { v.push(rd(b, o)); o += size; }]. *)
Fixpoint read_many {A} (rd : bytes -> nat -> res () A) (size : nat) (b : bytes) (o n : nat) : res () (list A) :=
  match n with
  | O => Ok []
  | S n => a ← rd b o; rest ← read_many rd size b (o + size) n; Ok (a :: rest)
  end.

Section Readers.
Context {A : Type} (rd : bytes -> nat -> res () A) (enc : A -> bytes) (size : nat) (ok : A -> Prop).
Context `{!Reads rd enc size ok}.

Lemma enc_size a : ok a -> length (enc a) = size.
Proof. apply (reads_size (rd := rd)). Qed.

Lemma reads_put b o a r : drop o b = enc a ++ r -> ok a -> rd b o = Ok a /\ drop (o + size) b = r.
Proof.
  intros E HO. assert (ER : drop (o + size) b = r) by (rewrite <- (enc_size a HO); apply (drop_after _ _ _ _ E)).
  split; [|exact ER]. apply reads_Ok. rewrite ER. auto.
Qed.

Lemma read_many_Ok b n : forall o l,
  read_many rd size b o n = Ok l <->
  (length l = n /\ Forall ok l) /\ drop o b = concat (map enc l) ++ drop (o + n * size) b.
Proof.
  induction n as [|n IH]; intros o l; cbn [read_many].
  - rewrite Nat.add_0_r. split; [intros [= <-]; auto|]. intros [[HL _] _]. destruct l; [reflexivity|discriminate].
  - replace (o + S n * size)%nat with (o + size + n * size)%nat by lia. split.
    + intros E. repeat ok_step. subst l.
      match goal with X : rd _ _ = Ok _ |- _ => apply reads_Ok in X as [Ha Ea] end.
      match goal with X : read_many _ _ _ _ _ = Ok _ |- _ => apply IH in X as [[Hl Hf] El] end.
      split; [split; [cbn; lia|constructor; assumption]|]. cbn [map concat]. rewrite Ea, El, <- app_assoc. reflexivity.
    + intros [[HL HF] HE]. destruct l as [|a l]; [discriminate|]. inversion HF as [|? ? Ha Hl]; subst.
      cbn [map concat] in HE. rewrite <- app_assoc in HE. destruct (reads_put b o a _ HE Ha) as [R1 R2].
      rewrite R1. cbn [mbind res_bind].
      rewrite (proj2 (IH (o + size)%nat l)); [reflexivity|]. split; [|exact R2].
      split; [cbn in HL; lia|exact Hl].
Qed.

Lemma concat_size l : Forall ok l -> length (concat (map enc l)) = (length l * size)%nat.
Proof.
  induction 1 as [|a l Ha _ IH]; [reflexivity|]. cbn [map concat length]. rewrite length_app, (enc_size a Ha), IH. lia.
Qed.

#[export] Instance read_many_reads n :
  Reads (fun b o => read_many rd size b o n) (fun l => concat (map enc l)) (n * size)
    (fun l => length l = n /\ Forall ok l).
Proof.
  split; [intros; apply read_many_Ok| |intros l [<- Hl]; apply concat_size, Hl].
  intros b. induction n as [|n IH]; intros o HL; cbn [read_many]; [discriminate|].
  apply bind_safe; [apply (reads_safe (enc := enc) (size := size) (ok := ok)); lia|]. intros a _.
  apply bind_safe; [apply IH; lia|]. intros; apply Ok_safe.
Qed.

Lemma read_many_put b o l r : drop o b = concat (map enc l) ++ r -> Forall ok l ->
  read_many rd size b o (length l) = Ok l /\ drop (o + length l * size) b = r.
Proof.
  intros E HF. assert (ER : drop (o + length l * size) b = r) by (rewrite <- (concat_size l HF); apply (drop_after _ _ _ _ E)).
  split; [|exact ER]. apply read_many_Ok. rewrite ER. auto.
Qed.

End Readers.

Lemma read_many_safe {A} (rd : bytes -> nat -> res () A) enc size ok `{!Reads rd enc size ok} b o n :
  (o + n * size <= length b)%nat -> read_many rd size b o n <> Panic.
Proof. apply (reads_safe (rd := fun b o => read_many rd size b o n)). Qed.

(** Open the successful reads of a decoder, and run a decoder over what was written. *)
Ltac reads_in :=
  repeat ok_step;
  repeat match goal with
  | X : read ?f _ _ = Ok _ |- _ => apply (read_Ok f) in X as [? ?]
  | X : read_many ?rd _ _ _ _ = Ok _ |- _ => apply (read_many_Ok rd _ _ _) in X as [[? ?] ?]
  end.

(** Offsets are compared as numbers: [o + 8 + 32] is [o + 40]. *)
Ltac offsets := cbn [width le be raw] in *; lia.

Ltac read_next :=
  match goal with
  | E : drop ?o ?b = put ?f ?a ++ _ |- context [read ?f ?b ?o'] =>
      replace (read f b o') with (read f b o) by (f_equal; offsets);
      let R := fresh in
      destruct (read_put f b o a _ E) as [R ?]; [solve [assumption | exact I | auto]|]; clear E; rewrite R; clear R;
      cbn [mbind res_bind]
  end.

(** Assemble what the reads saw into one piece of the message. *)
Ltac read_chain :=
  rewrite <- ?app_assoc;
  repeat match goal with
  | E : drop ?o ?b = _ ++ _ |- drop ?o' ?b = _ ++ _ =>
      replace (drop o' b) with (drop o b) by (f_equal; offsets); rewrite E; clear E; f_equal
  end;
  f_equal; offsets.

(** No read of a decoder leaves the message. *)
Ltac reads_are_safe :=
  repeat first
    [ apply (read_safe _); offsets
    | apply bind_safe; [|intros ? ?]
    | solve [auto with safe] ].
