(* ===== verification/Channel.v ===== *)
(** Payment channels of [src/core/channel.rs]: the funding covenant, the
    deterministic channel states, and the reveals that close, refund or sweep a
    channel.  The wire formats are in [ChannelWire]. *)
From Stdlib Require Import Strings.String.
From S2P Require Import Prelude Bytecode Types Wots Mss Mmr Smt Script Instr Templates Transaction.

#[local] Open Scope Z_scope.

Definition CLOSE_FEE : Z := 2000.
Definition MAX_FUNDING_COINS : nat := 64.
Definition MAX_HTLCS : nat := 12.
Definition HOP_FEE : Z := 50.
Definition HTLC_MIN_HEADROOM : Z := 60.
Definition HTLC_HOP_DELTA : Z := 30.
Definition HTLC_MAX_PAST_EXPIRY : Z := 2880.

Record FundingCoin : Type := mkFundingCoin { fc_value : Z; fc_salt : hash32 }.

Record Htlc : Type := mkHtlc { amount : Z; timeout : Z; secret_hash : hash32 }.

Record HtlcCoin : Type := mkHtlcCoin {
  hc_coin_id : hash32;
  hc_address : hash32;
  hc_bytecode : bytes;
  hc_value : Z;
  hc_salt : hash32;
  hc_secret_hash : hash32;
  hc_timeout : Z
}.

Record BuiltState : Type := mkBuiltState {
  bs_commitment : hash32;
  bs_outputs : list OutputData;
  bs_salt : hash32;
  bs_fee : Z;
  bs_capacity : Z;
  bs_input_coin_ids : list hash32;
  bs_htlc_coins : list HtlcCoin;
  bs_nonce : Z;
  bs_attempt : Z
}.

Inductive ChannelError : Type :=
  | NoFunding | TooManyFundingCoins | FundingNotPowerOfTwo | DuplicateFundingCoin
  | CapacityOverflow | CapacityBelowFee | TooManyHtlcs | HtlcSumOverflow | BalanceOverflow
  | ConservationViolated | ZeroValueHtlc | NoOutputs
  | InputSetMismatch | MissingSignature.

(** * The covenant *)

Section Covenant.
Context `{Blake3}.

Definition covenant_bytes (sender_pk receiver_pk : hash32) (expiry : Z) : bytes :=
  let bc := push_op [] OP_IF in
  let bc := push_data bc receiver_pk in
  let bc := push_op bc OP_CHECKSIG in
  let bc := push_op bc OP_SWAP in
  let bc := push_data bc sender_pk in
  let bc := push_op bc OP_CHECKSIG in
  let bc := push_op bc OP_ADD in
  let bc := push_int bc 2 in
  let bc := push_op bc OP_GREATER_OR_EQUAL in
  let bc := push_op bc OP_VERIFY in
  let bc := push_op bc OP_ELSE in
  let bc := push_int bc expiry in
  let bc := push_op bc OP_CHECKTIMEVERIFY in
  let bc := push_data bc sender_pk in
  let bc := push_op bc OP_CHECKSIGVERIFY in
  let bc := push_op bc OP_ENDIF in
  push_int bc 1.

Definition channel_address (sender_pk receiver_pk : hash32) (expiry : Z) : hash32 :=
  hash (covenant_bytes sender_pk receiver_pk expiry).

(** * Funding *)

(** Coin id, value and salt of a funding coin. *)
Definition Funding : Type := (hash32 * Z * hash32)%type.

Definition by_id (a b : Funding) : Prop := arr_le a.1.1 b.1.1.
#[export] Instance by_id_dec : RelDecision by_id := fun a b => decide (arr_le a.1.1 b.1.1).

Fixpoint fund_coins (channel_addr : hash32) (funding : list FundingCoin) : res ChannelError (list Funding) :=
  match funding with
  | [] => Ok []
  | c :: funding =>
      _ ← bail_if (negb (is_pow2 (fc_value c))) FundingNotPowerOfTwo;
      out ← fund_coins channel_addr funding;
      Ok ((compute_coin_id channel_addr (fc_value c) (fc_salt c), fc_value c, fc_salt c) :: out)
  end.

(** [out.windows(2)] with two equal ids. *)
Fixpoint adjacent_ids (l : list Funding) : bool :=
  match l with
  | a :: ((b :: _) as t) => bool_decide (a.1.1 = b.1.1) || adjacent_ids t
  | _ => false
  end.

Definition sorted_funding (funding : list FundingCoin) (channel_addr : hash32)
    : res ChannelError (list Funding) :=
  _ ← bail_if (Nat.eqb (length funding) 0) NoFunding;
  _ ← bail_if (Nat.ltb MAX_FUNDING_COINS (length funding)) TooManyFundingCoins;
  out ← fund_coins channel_addr funding;
  let out := merge_sort by_id out in
  _ ← bail_if (adjacent_ids out) DuplicateFundingCoin;
  Ok out.

(** Indexing [0] aborts on an empty list, which [sorted_funding] never returns. *)
Definition channel_id (funding : list FundingCoin) (channel_addr : hash32) : res ChannelError hash32 :=
  sorted ← sorted_funding funding channel_addr;
  f ← unwrap (sorted !! 0%nat);
  Ok f.1.1.

(** * States *)

Definition derived_salt (channel_id : hash32) (nonce : Z) (tag : bytes) (i j : Z) : hash32 :=
  blake3 (bstr "qbolt_v2_out_salt" ++ channel_id ++ le_bytes 4 nonce ++ tag ++ le_bytes 4 i ++ le_bytes 4 j).

(** The coins that pay [amt] to [addr]. *)
Definition coin_outputs (addr : hash32) (salt : nat -> hash32) (amt : Z) : list OutputData :=
  imap (fun i denom => Standard addr denom (salt i)) (decompose_value amt).

Definition htlc_coins (channel_id sender_pk receiver_pk : hash32) (nonce : Z) (i : nat) (h : Htlc)
    : list HtlcCoin :=
  let script := compile_htlc (secret_hash h) receiver_pk (timeout h) sender_pk in
  let htlc_addr := hash script in
  imap (fun j denom =>
    let salt := derived_salt channel_id nonce (bstr "HTLC") (Z.of_nat i) (Z.of_nat j) in
    {| hc_coin_id := compute_coin_id htlc_addr denom salt; hc_address := htlc_addr; hc_bytecode := script;
       hc_value := denom; hc_salt := salt; hc_secret_hash := secret_hash h; hc_timeout := timeout h |})
    (decompose_value (amount h)).

Definition htlc_output (c : HtlcCoin) : OutputData := Standard (hc_address c) (hc_value c) (hc_salt c).

Definition build_state_core (channel_id sender_pk receiver_pk channel_addr : hash32)
    (funding : list FundingCoin) (sender_amt receiver_amt nonce : Z) (htlcs : list Htlc) (attempt : Z)
    (salt_domain : bytes) : res ChannelError BuiltState :=
  sorted ← sorted_funding funding channel_addr;
  capacity ← ok_or CapacityOverflow (checked_sum 64 0 (map (fun f : Funding => f.1.2) sorted));
  _ ← bail_if (capacity <=? CLOSE_FEE) CapacityBelowFee;
  _ ← bail_if (Nat.ltb MAX_HTLCS (length htlcs)) TooManyHtlcs;
  htlc_sum ← ok_or HtlcSumOverflow (checked_sum 64 0 (map amount htlcs));
  let distributable := capacity - CLOSE_FEE in
  spoken_for ← ok_or BalanceOverflow
    (v ← checked_add 64 sender_amt receiver_amt; checked_add 64 v htlc_sum);
  _ ← bail_if (negb (spoken_for =? distributable)) ConservationViolated;
  let recv_addr := compute_address receiver_pk in
  let send_addr := compute_address sender_pk in
  let recv := coin_outputs recv_addr (fun i => derived_salt channel_id nonce (bstr "RECV") (Z.of_nat i) 0) receiver_amt in
  let send := coin_outputs send_addr (fun i => derived_salt channel_id nonce (bstr "SEND") (Z.of_nat i) 0) sender_amt in
  _ ← bail_if (existsb (fun h => amount h =? 0) htlcs) ZeroValueHtlc;
  let coins := concat (imap (htlc_coins channel_id sender_pk receiver_pk nonce) htlcs) in
  let outputs := recv ++ send ++ map htlc_output coins in
  _ ← bail_if (Nat.eqb (length outputs) 0) NoOutputs;
  let tx_salt := blake3 (salt_domain ++ channel_id ++ le_bytes 4 nonce ++ le_bytes 4 attempt) in
  let input_coin_ids := map (fun f : Funding => f.1.1) sorted in
  Ok {| bs_commitment := compute_commitment input_coin_ids (map hash_for_commitment outputs) tx_salt;
        bs_outputs := outputs; bs_salt := tx_salt; bs_fee := CLOSE_FEE; bs_capacity := capacity;
        bs_input_coin_ids := input_coin_ids; bs_htlc_coins := coins; bs_nonce := nonce; bs_attempt := attempt |}.

Definition build_state (channel_id sender_pk receiver_pk : hash32) (expiry : Z) (funding : list FundingCoin)
    (sender_amt receiver_amt nonce : Z) (htlcs : list Htlc) (attempt : Z) : res ChannelError BuiltState :=
  let addr := channel_address sender_pk receiver_pk expiry in
  build_state_core channel_id sender_pk receiver_pk addr funding sender_amt receiver_amt nonce htlcs attempt
    (bstr "qbolt_close_v2").

(** [iter().sum()] of the capacity wraps. *)
Definition build_refund_state (channel_id sender_pk receiver_pk : hash32) (expiry : Z)
    (funding : list FundingCoin) (attempt : Z) : res ChannelError BuiltState :=
  let addr := channel_address sender_pk receiver_pk expiry in
  sorted ← sorted_funding funding addr;
  let capacity := wrap 64 (sumZ (map (fun f : Funding => f.1.2) sorted)) in
  _ ← bail_if (capacity <=? CLOSE_FEE) CapacityBelowFee;
  build_state_core channel_id sender_pk receiver_pk addr funding (capacity - CLOSE_FEE) 0 (umax 32) [] attempt
    (bstr "qbolt_refund_v2").

(** * Reveals *)

Definition reveal_core (covenant : bytes) (funding : list FundingCoin) (state : BuiltState)
    (witness_items : list bytes) : res ChannelError (list InputReveal * list Witness) :=
  let addr := hash covenant in
  sorted ← sorted_funding funding addr;
  _ ← bail_if (negb (bool_decide (map (fun f : Funding => f.1.1) sorted = bs_input_coin_ids state))) InputSetMismatch;
  let inputs := map (fun f : Funding => {| in_predicate := Types.Script covenant; in_value := f.1.2; in_salt := f.2;
                                            in_commitment := None |}) sorted in
  Ok (inputs, map (fun _ => ScriptInputs witness_items) inputs).

Definition close_reveal (sender_pk receiver_pk : hash32) (expiry : Z) (funding : list FundingCoin)
    (state : BuiltState) (sender_sig receiver_sig : bytes) : res ChannelError (list InputReveal * list Witness) :=
  _ ← bail_if (Nat.eqb (length sender_sig) 0 || Nat.eqb (length receiver_sig) 0) MissingSignature;
  let covenant := covenant_bytes sender_pk receiver_pk expiry in
  reveal_core covenant funding state [sender_sig; receiver_sig; [x01]].

Definition refund_reveal (sender_pk receiver_pk : hash32) (expiry : Z) (funding : list FundingCoin)
    (state : BuiltState) (sender_sig : bytes) : res ChannelError (list InputReveal * list Witness) :=
  _ ← bail_if (Nat.eqb (length sender_sig) 0) MissingSignature;
  let covenant := covenant_bytes sender_pk receiver_pk expiry in
  reveal_core covenant funding state [sender_sig; [x00]].

(** What a payee signs over an invoice, and a peer over a fresh address. *)
Definition invoice_commit (payee_pk h : hash32) (amount expiry : Z) (hints : list hash32) : hash32 :=
  blake3 (bstr "qbinv1" ++ payee_pk ++ h ++ le_bytes 8 amount ++ le_bytes 8 expiry
          ++ [b8 (Z.of_nat (length hints))] ++ concat_hashes hints).

Definition address_commit (responder_pk req_id address : hash32) (expiry : Z) : hash32 :=
  blake3 (bstr "mdsaddr1" ++ responder_pk ++ req_id ++ address ++ le_bytes 8 expiry).

Definition script_coin (bytecode : bytes) (value : Z) (salt : hash32) : InputReveal :=
  {| in_predicate := Types.Script bytecode; in_value := value; in_salt := salt; in_commitment := None |}.

Definition htlc_claim_input (bytecode : bytes) (value : Z) (salt : hash32) (receiver_sig : bytes) (secret : hash32)
    : InputReveal * Witness :=
  (script_coin bytecode value salt, ScriptInputs [receiver_sig; arr_list secret; [x01]]).

Definition htlc_timeout_input (bytecode : bytes) (value : Z) (salt : hash32) (sender_sig : bytes)
    : InputReveal * Witness :=
  (script_coin bytecode value salt, ScriptInputs [sender_sig; replicate 32 x00; [x00]]).

End Covenant.

(** * What satisfies the covenant *)

Definition i_channel (sender_pk receiver_pk : hash32) (expiry : Z) : list instr :=
  [Op OP_IF; Push receiver_pk; Op OP_CHECKSIG; Op OP_SWAP; Push sender_pk; Op OP_CHECKSIG; Op OP_ADD;
   Push (from_u64 2); Op OP_GREATER_OR_EQUAL; Op OP_VERIFY; Op OP_ELSE; Push (from_u64 expiry);
   Op OP_CHECKTIMEVERIFY; Push sender_pk; Op OP_CHECKSIGVERIFY; Op OP_ENDIF; Push (from_u64 1)].

Lemma covenant_asm s r e : covenant_bytes s r e = asm (i_channel s r e).
Proof.
  unfold covenant_bytes. cbv beta zeta. unfold push_int. rewrite ?push_data_asm, ?push_op_asm.
  unfold i_channel. cbn [app]. rewrite ?asm_cons, ?asm_nil, ?app_nil_r, <- ?app_assoc. reflexivity.
Qed.

Section Facts.
Context `{Blake3}.
Context (usize_bits : Z).

Lemma covenant_runs sender_pk receiver_pk expiry w ctx : in_u 64 expiry ->
  execute_script usize_bits (covenant_bytes sender_pk receiver_pk expiry) w ctx = Ok () <->
  Forall (fun x => (length x <= MAX_ITEM_SIZE)%nat) w
  /\ ((exists s r c, w = [s; r; c] /\ is_true c = true
         /\ sig_ok s (commitment ctx) sender_pk = true /\ sig_ok r (commitment ctx) receiver_pk = true)
      \/ (exists s c, w = [s; c] /\ is_true c = false /\ expiry <= ctx_height ctx
         /\ sig_ok s (commitment ctx) sender_pk = true)).
Proof.
  intros HE. rewrite covenant_asm, execute_small;
    [|cbn [i_channel forallb instr_small]; rewrite ?arr32_small, ?from_u64_small; reflexivity
     |reflexivity|apply Nat.leb_le; reflexivity].
  unfold i_channel. witness_shape w; wp_simpl; try wrong_shape; destruct (is_true l) eqn:HC; wp_simpl; wp_norm.
  - split; [intros HW; hyps; contradiction|intros [_ [HW|HW]]; hyps; simplify_eq; congruence].
  - split; [intros [HF HW]; hyps; split; [facts|]; right; exists l0, l; auto|].
    intros [HF [HW|HW]]; hyps; simplify_eq. facts.
  - destruct (sig_ok l0 _ receiver_pk) eqn:ER, (sig_ok l1 _ sender_pk) eqn:ES;
      (split; [intros [HF HW]; hyps;
               try (match goal with E : (_ <=? _) = true |- _ => vm_compute in E; discriminate E end)
              |intros [HF [HW|HW]]; hyps; simplify_eq; try congruence]).
    + split; [facts|]. left. exists l1, l0, l. auto.
    + split; [facts|]. closed_facts.
  - split; [intros HW; hyps; discriminate|intros [_ [HW|HW]]; hyps; simplify_eq; congruence].
Qed.

(** * Funding *)

Definition fund_coin (channel_addr : hash32) (c : FundingCoin) : Funding :=
  (compute_coin_id channel_addr (fc_value c) (fc_salt c), fc_value c, fc_salt c).

Lemma fund_coins_eq addr funding :
  fund_coins addr funding
  = if forallb (fun c => is_pow2 (fc_value c)) funding then Ok (map (fund_coin addr) funding)
    else Err FundingNotPowerOfTwo.
Proof.
  induction funding as [|c l IH]; [reflexivity|]. cbn [fund_coins forallb map]. rewrite IH.
  destruct (is_pow2 (fc_value c)); [|reflexivity]. destruct (forallb _ l); reflexivity.
Qed.

#[local] Instance by_id_total : Total by_id.
Proof. intros a b. apply (total arr_le). Qed.
#[local] Instance by_id_trans : Transitive by_id.
Proof. intros a b c Hab Hbc. unfold by_id in *. etransitivity; eassumption. Qed.

Abbreviation ids l := (map (fun f : Funding => f.1.1) l).

Lemma adjacent_NoDup l : StronglySorted by_id l -> adjacent_ids l = negb (bool_decide (NoDup (ids l))).
Proof.
  induction 1 as [|a l HS IH HF]; [rewrite bool_decide_true by constructor; reflexivity|].
  destruct l as [|b t]; [rewrite bool_decide_true by apply NoDup_singleton; reflexivity|].
  change (adjacent_ids (a :: b :: t)) with (bool_decide (a.1.1 = b.1.1) || adjacent_ids (b :: t)).
  rewrite IH. destruct (decide (a.1.1 = b.1.1)) as [E|E].
  - rewrite (bool_decide_true (a.1.1 = b.1.1) E), (bool_decide_false (NoDup (ids (a :: b :: t)))); [reflexivity|].
    intros HN. apply NoDup_cons in HN as [HN _]. apply HN. rewrite E. left.
  - rewrite (bool_decide_false (a.1.1 = b.1.1) E). cbn [orb]. f_equal. apply bool_decide_ext.
    cbn [map]. rewrite (NoDup_cons a.1.1). split; [|tauto]. intros HN. split; [|exact HN].
    intros Ha. change (a.1.1 ∈ ids (b :: t)) in Ha. apply list_elem_of_fmap in Ha as (x & Ex & Hx).
    apply elem_of_cons in Hx as [->|Hx]; [contradiction|].
    apply E. inversion HF as [|? ? H1 _]. subst. apply StronglySorted_inv in HS as [_ HS].
    rewrite Forall_forall in HS. specialize (HS x Hx). unfold by_id in *. rewrite <- Ex in HS.
    apply arr_le_antisym; assumption.
Qed.

Lemma sorted_adjacent l : adjacent_ids (merge_sort by_id l) = negb (bool_decide (NoDup (ids l))).
Proof.
  rewrite adjacent_NoDup by (apply StronglySorted_merge_sort; apply _). f_equal. apply bool_decide_ext.
  assert (HP : ids (merge_sort by_id l) ≡ₚ ids l) by (apply Permutation_map, merge_sort_Permutation).
  rewrite HP. reflexivity.
Qed.

(** Sorting coins with different ids has one result. *)
Lemma merge_sort_perm l k : l ≡ₚ k -> NoDup (ids l) -> merge_sort by_id l = merge_sort by_id k.
Proof.
  intros HP HN. apply (StronglySorted_unique_strong by_id).
  - intros x y Hx Hy Hxy Hyx. rewrite merge_sort_Permutation in Hx, Hy. rewrite <- HP in Hy.
    assert (E : x.1.1 = y.1.1) by (apply arr_le_antisym; assumption).
    apply list_elem_of_lookup in Hx as (i & Hi). apply list_elem_of_lookup in Hy as (j & Hj).
    assert (i = j); [|congruence]. eapply (NoDup_lookup (ids l) i j (x.1.1) HN); rewrite list_lookup_fmap.
    + rewrite Hi. reflexivity.
    + rewrite Hj. cbn. congruence.
  - apply StronglySorted_merge_sort; apply _.
  - apply StronglySorted_merge_sort; apply _.
  - rewrite !merge_sort_Permutation. exact HP.
Qed.

(** The order in which the funding coins are listed does not matter. *)
Lemma sorted_funding_perm funding funding' addr : funding ≡ₚ funding' ->
  sorted_funding funding addr = sorted_funding funding' addr.
Proof.
  intros HP. unfold sorted_funding. rewrite (Permutation_length HP), !fund_coins_eq.
  assert (EF : forallb (fun c => is_pow2 (fc_value c)) funding = forallb (fun c => is_pow2 (fc_value c)) funding').
  { apply eq_true_iff_eq. rewrite !forallb_forall. setoid_rewrite <- list_elem_of_In. setoid_rewrite HP. reflexivity. }
  rewrite EF. apply res_bind_ext. intros [] _. apply res_bind_ext. intros [] _.
  destruct (forallb _ funding'); [|reflexivity]. cbn [mbind res_bind]. cbv zeta.
  assert (HPM : map (fund_coin addr) funding ≡ₚ map (fund_coin addr) funding') by (apply Permutation_map, HP).
  rewrite !sorted_adjacent.
  assert (EN : bool_decide (NoDup (ids (map (fund_coin addr) funding))) = bool_decide (NoDup (ids (map (fund_coin addr) funding')))).
  { apply bool_decide_ext. apply (Permutation_map (fun f : Funding => f.1.1)) in HPM. rewrite HPM. reflexivity. }
  rewrite EN. destruct (decide (NoDup (ids (map (fund_coin addr) funding')))) as [HN|HN];
    [|rewrite bool_decide_false by exact HN; reflexivity].
  rewrite (merge_sort_perm _ _ HPM); [reflexivity|].
  apply (Permutation_map (fun f : Funding => f.1.1)) in HPM. rewrite HPM. exact HN.
Qed.

Lemma sorted_funding_Ok funding addr sorted : sorted_funding funding addr = Ok sorted ->
  sorted ≡ₚ map (fund_coin addr) funding /\ NoDup (ids sorted)
  /\ Forall (fun c => is_pow2 (fc_value c) = true) funding /\ (1 <= length funding <= MAX_FUNDING_COINS)%nat.
Proof.
  unfold sorted_funding. rewrite fund_coins_eq. intros E. repeat ok_step.
  destruct (forallb _ funding) eqn:EF; [|discriminate]. repeat ok_step. subst.
  match goal with X : adjacent_ids _ = false |- _ =>
    rewrite adjacent_NoDup in X by (apply StronglySorted_merge_sort; apply _); apply negb_false_iff, bool_decide_eq_true in X end.
  split; [apply merge_sort_Permutation|]. split; [assumption|]. split.
  - apply Forall_forall. intros c Hc. rewrite forallb_forall in EF. apply EF, list_elem_of_In, Hc.
  - match goal with X : Nat.eqb _ _ = false, Y : Nat.ltb _ _ = false |- _ => apply Nat.eqb_neq in X; apply Nat.ltb_ge in Y end. lia.
Qed.

(** * States conserve the capacity *)

Definition coin_ok (o : OutputData) : Prop := check_output o = Ok () /\ 0 <= output_value o.

Lemma standard_ok addr v salt : is_pow2 v = true -> coin_ok (Standard addr v salt).
Proof.
  intros HP. assert (HV : 0 < v) by (unfold is_pow2 in HP; apply andb_true_iff in HP as [HP _]; apply Z.ltb_lt, HP).
  split; [|cbn; lia]. unfold check_output. cbn [output_value].
  destruct (Z.eqb_spec v 0); [lia|]. rewrite HP. reflexivity.
Qed.

Lemma imap_map {X Y Z} (f : nat -> X -> Y) (g : Y -> Z) (h : X -> Z) (l : list X) :
  (forall i x, g (f i x) = h x) -> map g (imap f l) = map h l.
Proof.
  intros E. revert f E. induction l as [|x l IH]; intros f E; cbn; [reflexivity|]. rewrite E. f_equal.
  apply IH. intros i y. apply E.
Qed.

Lemma coin_outputs_ok addr salt amt : in_u 64 amt ->
  Forall coin_ok (coin_outputs addr salt amt) /\ sumZ (map output_value (coin_outputs addr salt amt)) = amt.
Proof.
  intros HA. unfold coin_outputs. split.
  - apply Forall_forall. intros o Ho. apply elem_of_lookup_imap in Ho as (i & d & -> & Hd).
    apply standard_ok. pose proof (decompose_value_pow2 amt HA) as HF. rewrite Forall_forall in HF.
    apply HF. eapply list_elem_of_lookup_2, Hd.
  - rewrite (imap_map _ output_value id) by reflexivity. rewrite map_id. apply decompose_value_sum, HA.
Qed.

Lemma htlc_coins_ok cid s r nonce i h : in_u 64 (amount h) ->
  Forall coin_ok (map htlc_output (htlc_coins cid s r nonce i h))
  /\ sumZ (map output_value (map htlc_output (htlc_coins cid s r nonce i h))) = amount h.
Proof.
  intros HA. unfold htlc_coins. split.
  - apply Forall_map, Forall_forall. intros c Hc. apply elem_of_lookup_imap in Hc as (j & d & -> & Hd).
    apply standard_ok. pose proof (decompose_value_pow2 (amount h) HA) as HF. rewrite Forall_forall in HF.
    apply HF. eapply list_elem_of_lookup_2, Hd.
  - rewrite map_map, (imap_map _ _ id) by reflexivity. rewrite map_id. apply decompose_value_sum, HA.
Qed.

Lemma all_htlc_coins_ok cid s r nonce htlcs : forall k, Forall (fun h => in_u 64 (amount h)) htlcs ->
  let coins := concat (imap (fun i => htlc_coins cid s r nonce (k + i)) htlcs) in
  Forall coin_ok (map htlc_output coins)
  /\ sumZ (map output_value (map htlc_output coins)) = sumZ (map amount htlcs).
Proof.
  induction htlcs as [|h l IH]; intros k HA; [split; [constructor|reflexivity]|].
  inversion HA as [|? ? H1 H2]; subst. cbv zeta. rewrite imap_cons. cbn [concat map].
  destruct (htlc_coins_ok cid s r nonce (k + 0) h H1) as [C1 C2]. destruct (IH (S k) H2) as [D1 D2].
  assert (EI : imap ((fun i => htlc_coins cid s r nonce (k + i)) ∘ S) l = imap (fun i => htlc_coins cid s r nonce (S k + i)) l).
  { apply imap_ext. intros i x _. unfold compose. rewrite Nat.add_succ_r. reflexivity. }
  rewrite EI, !map_app, sumZ_app, C2. cbv zeta in D1, D2. rewrite D2. split; [apply Forall_app; auto|reflexivity].
Qed.

(** A value makes at most 64 coins. *)
Lemma htlc_coins_count cid s r nonce htlcs : forall k, Forall (fun h => in_u 64 (amount h)) htlcs ->
  (length (concat (imap (fun i => htlc_coins cid s r nonce (k + i)) htlcs)) <= 64 * length htlcs)%nat.
Proof.
  induction htlcs as [|h l IH]; intros k HA; [reflexivity|].
  apply Forall_cons in HA as [H1 H2]. rewrite imap_cons. cbn [concat]. rewrite length_app. unfold htlc_coins at 1.
  rewrite length_imap. pose proof (length_decompose _ H1). specialize (IH (S k) H2).
  rewrite (imap_ext _ (fun i => htlc_coins cid s r nonce (S k + i))); [cbn [length]; lia|].
  intros i x _. unfold compose. rewrite Nat.add_succ_r. reflexivity.
Qed.

(** What a built state is: its outputs pay exactly the balances and the HTLCs, and
    add up to the capacity minus the fee; its commitment is that of the
    transaction spending the sorted funding coins. *)
Record built (addr : hash32) (funding : list FundingCoin) (sender_amt receiver_amt : Z) (htlcs : list Htlc)
    (st : BuiltState) : Prop := mkBuilt {
  bu_funding : exists sorted, sorted_funding funding addr = Ok sorted /\ bs_input_coin_ids st = ids sorted;
  bu_capacity : bs_capacity st = sumZ (map fc_value funding) /\ CLOSE_FEE < bs_capacity st <= umax 64;
  bu_outputs : Forall coin_ok (bs_outputs st) /\ bs_outputs st <> [];
  bu_sum : sumZ (map output_value (bs_outputs st)) + CLOSE_FEE = bs_capacity st;
  bu_split : sender_amt + receiver_amt + sumZ (map amount htlcs) + CLOSE_FEE = bs_capacity st;
  bu_commitment : bs_commitment st
    = compute_commitment (bs_input_coin_ids st) (map hash_for_commitment (bs_outputs st)) (bs_salt st);
  bu_count : (length (bs_outputs st) <= 64 * (2 + length htlcs))%nat
}.

Lemma build_state_core_Ok cid s r addr funding sa ra nonce htlcs attempt dom st :
  in_u 64 sa -> in_u 64 ra -> Forall (fun c => 0 <= fc_value c) funding -> Forall (fun h => in_u 64 (amount h)) htlcs ->
  build_state_core cid s r addr funding sa ra nonce htlcs attempt dom = Ok st ->
  built addr funding sa ra htlcs st.
Proof.
  intros HS HR HF HH E. unfold build_state_core in E. repeat ok_step. subst st.
  match goal with X : sorted_funding _ _ = Ok ?l |- _ => rename X into ES; rename l into sorted end.
  destruct (sorted_funding_Ok _ _ _ ES) as (HP & _).
  assert (EV : map (fun f : Funding => f.1.2) sorted ≡ₚ map fc_value funding).
  { rewrite HP, map_map. reflexivity. }
  assert (HFS : Forall (Z.le 0) (map (fun f : Funding => f.1.2) sorted)) by (rewrite EV; apply Forall_map, HF).
  match goal with X : checked_sum 64 0 (map _ sorted) = Some _ |- _ =>
    apply checked_sum_Some in X as [-> BC]; [|exact HFS|unfold umax; lia] end.
  rewrite (sumZ_perm _ _ EV) in *. rewrite Z.add_0_l in *.
  assert (HHS : Forall (Z.le 0) (map amount htlcs)).
  { apply Forall_map. eapply Forall_impl; [exact HH|]. intros h Hh. apply Hh. }
  match goal with X : checked_sum 64 0 (map amount _) = Some _ |- _ =>
    apply checked_sum_Some in X as [-> BH]; [|exact HHS|unfold umax; lia] end.
  match goal with X : (_ ≫= _) = Some _ |- _ => apply bind_Some in X as (v & V1 & V2) end.
  apply checked_add_Some in V1 as [-> V1], V2 as [-> V2].
  repeat match goal with X : negb _ = false |- _ => apply negb_false_iff, Z.eqb_eq in X
                       | X : (_ <=? _) = false |- _ => apply Z.leb_gt in X end.
  destruct (coin_outputs_ok (compute_address r) (fun i => derived_salt cid nonce (bstr "RECV") (Z.of_nat i) 0) ra HR) as [R1 R2].
  destruct (coin_outputs_ok (compute_address s) (fun i => derived_salt cid nonce (bstr "SEND") (Z.of_nat i) 0) sa HS) as [S1 S2].
  destruct (all_htlc_coins_ok cid s r nonce htlcs 0 HH) as [T1 T2].
  change (fun i => htlc_coins cid s r nonce (0 + i)) with (htlc_coins cid s r nonce) in T1, T2.
  split; cbn [bs_capacity bs_outputs bs_input_coin_ids bs_commitment bs_salt].
  - eauto.
  - split; [reflexivity|lia].
  - split; [apply Forall_app; split; [exact R1|apply Forall_app; split; [exact S1|exact T1]]|].
    match goal with X : Nat.eqb _ 0 = false |- _ => apply Nat.eqb_neq in X; intros E0; apply X; rewrite E0; reflexivity end.
  - rewrite !map_app, !sumZ_app, R2, S2. rewrite T2. lia.
  - lia.
  - reflexivity.
  - pose proof (htlc_coins_count cid s r nonce htlcs 0 HH) as TC.
    change (fun i => htlc_coins cid s r nonce (0 + i)) with (htlc_coins cid s r nonce) in TC.
    rewrite !length_app, length_map. unfold coin_outputs. rewrite !length_imap.
    pose proof (length_decompose _ HR). pose proof (length_decompose _ HS). lia.
Qed.

End Facts.

(** * Reveals are valid transactions *)

Section Reveals.
Context `{Blake3}.
Context (fast_mining : bool) (usize_bits : Z).
Context (witnesses_size : list Witness -> option Z).
Context {A : Type} `{!SetAccumulator A} `{!SetAccumulatorLaws A}.

Lemma reveal_inputs sorted covenant funding : sorted ≡ₚ map (fund_coin (hash covenant)) funding ->
  let inputs := map (fun f : Funding => script_coin covenant f.1.2 f.2) sorted in
  map input_coin_id inputs = map (fun f : Funding => f.1.1) sorted
  /\ sumZ (map in_value inputs) = sumZ (map fc_value funding)
  /\ (Forall (fun c => 0 <= fc_value c) funding -> Forall (fun i => 0 <= in_value i) inputs)
  /\ forall x, x ∈ map input_coin_id inputs -> exists c, c ∈ funding /\ x = compute_coin_id (hash covenant) (fc_value c) (fc_salt c).
Proof.
  intros HP inputs.
  assert (HE : Forall (fun f : Funding => exists c, c ∈ funding /\ f = fund_coin (hash covenant) c) sorted).
  { rewrite HP. apply Forall_forall. intros f Hf. apply list_elem_of_fmap in Hf as (c & -> & Hc). eauto. }
  assert (EI : map input_coin_id inputs = map (fun f : Funding => f.1.1) sorted).
  { unfold inputs. rewrite map_map. apply map_ext_Forall. eapply Forall_impl; [exact HE|]. intros f (c & _ & ->). reflexivity. }
  split; [exact EI|]. split; [|split].
  - unfold inputs. rewrite map_map. apply sumZ_perm. cbn [script_coin in_value]. rewrite HP, map_map. reflexivity.
  - intros HF. unfold inputs. apply Forall_map. eapply Forall_impl; [exact HE|]. intros f (c & Hc & ->).
    rewrite Forall_forall in HF. apply (HF c Hc).
  - intros x Hx. rewrite EI in Hx. apply list_elem_of_fmap in Hx as (f & -> & Hf). rewrite Forall_forall in HE.
    destruct (HE f Hf) as (c & Hc & ->). exists c. auto.
Qed.

Lemma reveal_validates covenant funding sa ra htlcs st items (s : State A) :
  built (hash covenant) funding sa ra htlcs st -> Forall (fun c => 0 <= fc_value c) funding ->
  (forall ctx, commitment ctx = bs_commitment st -> ctx_height ctx = st_height s ->
     execute_script usize_bits covenant items ctx = Ok ()) ->
  len (bs_outputs st) <= MAX_TX_OUTPUTS ->
  (forall ws, (length ws <= MAX_FUNDING_COINS)%nat -> Forall (fun w => w = ScriptInputs items) ws ->
     default (umax 64) (witnesses_size ws) <= MAX_SIGNATURE_SIZE * MAX_TX_INPUTS) ->
  check_commitment (bs_commitment st) s = Ok () ->
  (forall c, c ∈ funding -> compute_coin_id (hash covenant) (fc_value c) (fc_salt c) ∈ sa_set (st_coins s)) ->
  exists inputs ws, reveal_core covenant funding st items = Ok (inputs, ws)
  /\ let tx := Reveal inputs ws (bs_outputs st) (bs_salt st) in
     validate_transaction fast_mining usize_bits witnesses_size s tx = Ok () /\ fee tx = CLOSE_FEE.
Proof.
  intros [(sorted & ES & EI) [EC BC] [HO HO0] EO _ ECm _] HF HX HL HW HK HCo.
  destruct (sorted_funding_Ok _ _ _ ES) as (HP & HN & HPow & HLen).
  destruct (reveal_inputs sorted covenant funding HP) as (R1 & R2 & R3 & R4). specialize (R3 HF).
  set (inputs := map (fun f : Funding => script_coin covenant f.1.2 f.2) sorted) in *.
  exists inputs, (map (fun _ => ScriptInputs items) inputs).
  assert (HLi : length inputs = length funding).
  { unfold inputs. rewrite length_map, (Permutation_length HP), length_map. reflexivity. }
  assert (HOv : Forall (fun o => check_output o = Ok () /\ 0 <= output_value o) (bs_outputs st))
    by (eapply Forall_impl; [exact HO|]; intros o Ho; split; apply Ho).
  split; [unfold reveal_core; rewrite ES; cbn [mbind res_bind]; rewrite EI, bool_decide_true by reflexivity; reflexivity|].
  assert (EX : tx_commitment inputs (bs_outputs st) (bs_salt st) = bs_commitment st).
  { unfold tx_commitment. rewrite R1, ECm, EI. reflexivity. }
  replace CLOSE_FEE with (sumZ (map in_value inputs) - sumZ (map output_value (bs_outputs st))) by (rewrite R2; lia).
  apply (reveal_valid_intro fast_mining usize_bits witnesses_size); rewrite ?EX; try assumption.
  - intros E. rewrite E in HLi. cbn in HLi. lia.
  - unfold len, MAX_FUNDING_COINS, MAX_TX_INPUTS in *. lia.
  - apply length_map.
  - apply HW; [rewrite length_map; lia|apply Forall_map, Forall_forall; reflexivity].
  - rewrite R1. exact HN.
  - apply Forall_map, Forall_forall. left. reflexivity.
  - rewrite R2. unfold CLOSE_FEE in *. lia.
  - apply Forall_forall. intros x Hx. destruct (R4 (input_coin_id x)) as (c & Hc & ->); [apply list_elem_of_fmap_2, Hx|].
    apply HCo, Hc.
  - apply Forall_forall. intros [i w] Hp.
    pose proof (elem_of_zip_l _ _ _ _ Hp) as Hi. pose proof (elem_of_zip_r _ _ _ _ Hp) as Hw'. unfold inputs in Hi.
    apply list_elem_of_fmap in Hi as (f & -> & _). apply list_elem_of_fmap in Hw' as (? & -> & _).
    unfold verify_input, verify_predicate. cbn [fst snd script_coin in_predicate]. rewrite HX; reflexivity.
Qed.

(** What [bincode] makes of at most 64 equal witnesses of at most three items: eight
    bytes of length for each list and item, which is far below the limit. *)
Definition witness_sizes_fit : Prop := forall items ws,
  (length items <= 3)%nat -> Forall (fun x => (length x <= MAX_ITEM_SIZE)%nat) items ->
  (length ws <= MAX_FUNDING_COINS)%nat -> Forall (fun w => w = ScriptInputs items) ws ->
  default (umax 64) (witnesses_size ws) <= MAX_SIGNATURE_SIZE * MAX_TX_INPUTS.

(** The state under which the reveal of [st] is tried. *)
Definition revealable (addr : hash32) (funding : list FundingCoin) (st : BuiltState) (s : State A) : Prop :=
  check_commitment (bs_commitment st) s = Ok ()
  /\ (forall c, c ∈ funding -> compute_coin_id addr (fc_value c) (fc_salt c) ∈ sa_set (st_coins s)).

(** A valid transaction that pays the fee of a close. *)
Definition valid_reveal (st : BuiltState) (s : State A) (r : res ChannelError (list InputReveal * list Witness)) : Prop :=
  exists inputs ws, r = Ok (inputs, ws)
  /\ let tx := Reveal inputs ws (bs_outputs st) (bs_salt st) in
     validate_transaction fast_mining usize_bits witnesses_size s tx = Ok () /\ fee tx = CLOSE_FEE.

Lemma witness_valid sender_pk receiver_pk expiry funding sa ra htlcs st items (s : State A) :
  in_u 64 expiry -> witness_sizes_fit -> Forall (fun c => 0 <= fc_value c) funding ->
  built (channel_address sender_pk receiver_pk expiry) funding sa ra htlcs st ->
  revealable (channel_address sender_pk receiver_pk expiry) funding st s -> len (bs_outputs st) <= MAX_TX_OUTPUTS ->
  (length items <= 3)%nat ->
  (forall ctx, commitment ctx = bs_commitment st -> ctx_height ctx = st_height s ->
     Forall (fun x => (length x <= MAX_ITEM_SIZE)%nat) items
     /\ execute_script usize_bits (covenant_bytes sender_pk receiver_pk expiry) items ctx = Ok ()) ->
  valid_reveal st s (reveal_core (covenant_bytes sender_pk receiver_pk expiry) funding st items).
Proof.
  intros HE HW HF HB (K1 & K2) K3 HI HX.
  set (ctx0 := {| commitment := bs_commitment st; ctx_height := st_height s; Script.outputs := [];
                  Script.input_value := 0; Script.input_state := None; this_address := zero_arr 32 |}).
  destruct (HX ctx0 eq_refl eq_refl) as [HS _].
  eapply reveal_validates; eauto. intros ctx C1 C2. apply HX; assumption.
Qed.

Lemma build_refund_state_Ok cid sender_pk receiver_pk expiry funding attempt st :
  Forall (fun c => 0 <= fc_value c) funding ->
  build_refund_state cid sender_pk receiver_pk expiry funding attempt = Ok st ->
  exists sa, built (channel_address sender_pk receiver_pk expiry) funding sa 0 [] st.
Proof.
  intros HF E. unfold build_refund_state in E. repeat ok_step.
  match goal with X : (_ <=? _) = false |- _ => apply Z.leb_gt in X end.
  eexists. eapply build_state_core_Ok; [| | | |eassumption]; try assumption; try constructor; try lia.
  eapply Z.le_lt_trans; [|apply Z.mod_pos_bound; reflexivity]. apply Z.le_sub_nonneg. discriminate.
Qed.

(** C38: a channel settles.  A close state that can be built pays exactly the balances
    and HTLCs out of the funding, less the close fee, and does not depend on the
    order in which the funding coins are listed.  If its outputs fit in a transaction
    ([MAX_TX_OUTPUTS]; two HTLCs always fit, but the builder does not check it, see
    [unclosable_state]), then with the signatures of both parties on its commitment,
    and the commitment live and the coins unspent on chain, the close reveal is a
    valid transaction with exactly that fee.  A refund state always fits, and from
    the expiry on the sender's signature alone makes its refund reveal valid.  The
    signatures are of at most [MAX_ITEM_SIZE] bytes and the serialised witnesses fit
    the limit as [witness_sizes_fit] says. *)
Theorem channel_settles cid sender_pk receiver_pk expiry funding sa ra nonce htlcs attempt st (s : State A) :
  in_u 64 expiry -> in_u 64 sa -> in_u 64 ra -> Forall (fun c => 0 <= fc_value c) funding ->
  Forall (fun h => in_u 64 (amount h)) htlcs -> witness_sizes_fit ->
  build_state cid sender_pk receiver_pk expiry funding sa ra nonce htlcs attempt = Ok st ->
  let addr := channel_address sender_pk receiver_pk expiry in
  let small x := (1 <= length x <= MAX_ITEM_SIZE)%nat in
  sumZ (map output_value (bs_outputs st)) + CLOSE_FEE = sumZ (map fc_value funding)
  /\ sa + ra + sumZ (map amount htlcs) + CLOSE_FEE = sumZ (map fc_value funding)
  /\ (forall funding', funding' ≡ₚ funding ->
        build_state cid sender_pk receiver_pk expiry funding' sa ra nonce htlcs attempt = Ok st)
  /\ ((length htlcs <= 2)%nat -> len (bs_outputs st) <= MAX_TX_OUTPUTS)
  /\ (forall sender_sig receiver_sig, small sender_sig -> small receiver_sig -> revealable addr funding st s ->
        len (bs_outputs st) <= MAX_TX_OUTPUTS ->
        sig_ok sender_sig (bs_commitment st) sender_pk = true ->
        sig_ok receiver_sig (bs_commitment st) receiver_pk = true ->
        valid_reveal st s (close_reveal sender_pk receiver_pk expiry funding st sender_sig receiver_sig))
  /\ (forall k st' sender_sig, small sender_sig ->
        build_refund_state cid sender_pk receiver_pk expiry funding k = Ok st' -> revealable addr funding st' s ->
        expiry <= st_height s -> sig_ok sender_sig (bs_commitment st') sender_pk = true ->
        valid_reveal st' s (refund_reveal sender_pk receiver_pk expiry funding st' sender_sig)).
Proof.
  intros HE HS HR HF HH HW E addr small.
  assert (HB : built addr funding sa ra htlcs st) by (eapply build_state_core_Ok; [..|exact E]; assumption).
  pose proof HB as [U1 [U2 U2'] U3 U4 U5 U6 U7]. rewrite U2 in U4, U5.
  split; [exact U4|]. split; [exact U5|]. split; [|split; [|split]].
  - intros funding' HP. rewrite <- E. unfold build_state, build_state_core.
    rewrite (sorted_funding_perm _ _ _ HP). reflexivity.
  - intros HL. unfold len, MAX_TX_OUTPUTS. lia.
  - intros ss rs HSS HRS HV HL S1 S2. unfold close_reveal, small in *.
    destruct (Nat.eqb_spec (length ss) 0); [lia|]. destruct (Nat.eqb_spec (length rs) 0); [lia|].
    cbn [orb bail_if mbind res_bind]. eapply witness_valid; try eassumption; [cbn; lia|].
    intros ctx C1 C2.
    assert (HI : Forall (fun x => (length x <= MAX_ITEM_SIZE)%nat) [ss; rs; [x01]]) by (repeat apply Forall_cons_2; try apply Forall_nil_2; unfold MAX_ITEM_SIZE in *; cbn; lia).
    split; [exact HI|]. apply covenant_runs; [exact HE|]. split; [exact HI|]. left. exists ss, rs, [x01]. rewrite C1. auto.
  - intros k st' ss HSS E' HV HX S1. destruct (build_refund_state_Ok _ _ _ _ _ _ _ HF E') as (sa' & HB').
    pose proof (bu_count _ _ _ _ _ _ HB') as HL. cbn [length] in HL.
    assert (HL' : len (bs_outputs st') <= MAX_TX_OUTPUTS) by (unfold len, MAX_TX_OUTPUTS; lia).
    unfold refund_reveal, small in *. destruct (Nat.eqb_spec (length ss) 0); [lia|].
    cbn [bail_if mbind res_bind]. eapply witness_valid; try eassumption; [cbn; lia|].
    intros ctx C1 C2.
    assert (HI : Forall (fun x => (length x <= MAX_ITEM_SIZE)%nat) [ss; [x00]]) by (repeat apply Forall_cons_2; try apply Forall_nil_2; unfold MAX_ITEM_SIZE in *; cbn; lia).
    split; [exact HI|]. apply covenant_runs; [exact HE|]. split; [exact HI|]. right. exists ss, [x00]. rewrite C1, C2. auto.
Qed.

Lemma too_many_outputs inputs ws outs salt (s : State A) : MAX_TX_OUTPUTS < len outs ->
  validate_transaction fast_mining usize_bits witnesses_size s (Reveal inputs ws outs salt) <> Ok ().
Proof.
  intros HL E. apply validate_spend_Ok in E as [E _]; [|reflexivity].
  cbn [structure] in E. unfold reveal_structure in E. repeat ok_step.
  match goal with X : (MAX_TX_OUTPUTS <? len outs) = false |- _ => apply Z.ltb_ge in X; lia end.
Qed.

End Reveals.

(** * Concrete channels *)

(** The encoding of witnesses by 8-byte lengths, a tag of 4 bytes and the items. *)
Definition demo_witness_size (w : Witness) : Z :=
  match w with
  | ScriptInputs items => 12 + sumZ (map (fun x => 8 + Z.of_nat (length x)) items)
  end.

Definition demo_witnesses_size (ws : list Witness) : option Z := Some (8 + sumZ (map demo_witness_size ws)).

Lemma demo_sizes_fit : witness_sizes_fit demo_witnesses_size.
Proof.
  intros items ws HI HS HL HW. cbn [demo_witnesses_size default from_option id].
  assert (HB : forall w, w = ScriptInputs items -> demo_witness_size w <= 12 + 3 * (8 + 1536)).
  { intros w ->. unfold demo_witness_size. unfold MAX_ITEM_SIZE in HS.
    destruct items as [|a [|b [|c [|]]]]; cbn [length] in HI; [..|lia];
      rewrite ?Forall_cons in HS; cbn in *; lia. }
  assert (HT : sumZ (map demo_witness_size ws) <= (12 + 3 * (8 + 1536)) * Z.of_nat (length ws)).
  { clear HL. induction HW as [|w l Hw HW IH]; [reflexivity|]. change (sumZ (map demo_witness_size (w :: l))) with (demo_witness_size w + sumZ (map demo_witness_size l)).
    specialize (HB w Hw). cbn [length]. lia. }
  unfold MAX_FUNDING_COINS in HL. unfold MAX_SIGNATURE_SIZE, MAX_TX_INPUTS. lia.
Qed.

Definition demo_sender : hash32 := arr_of 32 [x01].
Definition demo_receiver : hash32 := arr_of 32 [x02].
Definition demo_funding : list FundingCoin := [mkFundingCoin 4096 (zero_arr 32); mkFundingCoin 1024 (arr_of 32 [x03])].

(** The commitment is live and the funding unspent. *)
Definition demo_chain_state `{Blake3} (st : BuiltState) : State (gset hash32) := {|
  st_mirstat := zero_arr 32; st_coins := list_to_set (bs_input_coin_ids st);
  st_commitments := {[bs_commitment st]}; st_depth := 0; st_target := zero_arr 32;
  st_height := 6; st_timestamp := 0; st_commitment_heights := {[bs_commitment st := 5]};
  st_expirations := ∅; st_chain_mmr := mmr_new; st_header_hash := zero_arr 32; st_burned_wots := ∅
|}.

Lemma channel_settles_witness :
  let H := tail_blake3 in
  let htlc := mkHtlc 12 500 (zero_arr 32) in
  exists st, build_state (zero_arr 32) (same x02) (same x03) 1000 demo_funding 3000 108 7 [htlc] 0 = Ok st
  /\ build_state (zero_arr 32) (same x02) (same x03) 1000 (rev demo_funding) 3000 108 7 [htlc] 0 = Ok st
  /\ @valid_reveal H false 64 demo_witnesses_size (gset hash32) set_accumulator st (demo_chain_state st)
       (close_reveal (same x02) (same x03) 1000 demo_funding st (demo_signature x02) (demo_signature x03)).
Proof.
  intros H htlc.
  destruct (build_state (zero_arr 32) (same x02) (same x03) 1000 demo_funding 3000 108 7 [htlc] 0)
    as [st| |] eqn:E; [|vm_compute in E; discriminate..].
  exists st. split; [reflexivity|].
  assert (HS : forall b, (1 <= length (demo_signature b) <= MAX_ITEM_SIZE)%nat).
  { intros b. unfold demo_signature. rewrite length_sig_to_bytes by reflexivity. split; apply Nat.leb_le; reflexivity. }
  destruct (@channel_settles tail_blake3 false 64 demo_witnesses_size (gset hash32) set_accumulator
    set_accumulator_laws (zero_arr 32) (same x02) (same x03) 1000 demo_funding 3000 108 7 [htlc] 0 st
    (demo_chain_state st)) as (_ & _ & E2 & E3 & E4 & _).
  - unfold in_u; lia.
  - unfold in_u; lia.
  - unfold in_u; lia.
  - repeat constructor; discriminate.
  - repeat constructor; unfold in_u; cbn; lia.
  - apply demo_sizes_fit.
  - exact E.
  - split; [apply E2, Permutation_sym, Permutation_rev|]. apply E4; [apply HS..| |apply E3; cbn; lia| |].
    + split.
      * unfold check_commitment, demo_chain_state. cbn. rewrite bool_decide_true by (apply elem_of_singleton; reflexivity).
        rewrite lookup_singleton_eq. reflexivity.
      * intros c Hc. change (compute_coin_id (channel_address (same x02) (same x03) 1000) (fc_value c) (fc_salt c)
          ∈ (list_to_set (bs_input_coin_ids st) : gset hash32)).
        apply elem_of_list_to_set. injection E as <-. cbn [bs_input_coin_ids].
        repeat (apply elem_of_cons in Hc as [-> | Hc]; [apply (bool_decide_unpack _); vm_compute; exact I|]). inversion Hc.
    + apply same_signs. repeat (left || right).
    + apply same_signs. repeat (left || right).
Defined.

Definition closable (r : res ChannelError BuiltState) : bool :=
  match r with Ok st => len (bs_outputs st) <=? MAX_TX_OUTPUTS | _ => true end.

(** A state within every limit of the builder, twelve HTLCs included, whose close
    reveal no node accepts in any state: the denominations of the HTLCs alone make
    more than [MAX_TX_OUTPUTS] outputs. *)
Lemma unclosable_state :
  let H := tail_blake3 in
  exists st,
    build_state (zero_arr 32) demo_sender demo_receiver 1000 [mkFundingCoin (2 ^ 26) (zero_arr 32)]
      (2 ^ 26 - CLOSE_FEE - 12 * (2 ^ 22 - 1)) 0 7 (replicate 12 (mkHtlc (2 ^ 22 - 1) 500 (zero_arr 32))) 0 = Ok st
  /\ forall A (SA : SetAccumulator A) (SL : SetAccumulatorLaws A) fast_mining usize_bits witnesses_size inputs ws
       (s : State A),
       validate_transaction fast_mining usize_bits witnesses_size s
         (Reveal inputs ws (bs_outputs st) (bs_salt st)) <> Ok ().
Proof.
  intros H.
  assert (EC : closable (build_state (zero_arr 32) demo_sender demo_receiver 1000 [mkFundingCoin (2 ^ 26) (zero_arr 32)]
    (2 ^ 26 - CLOSE_FEE - 12 * (2 ^ 22 - 1)) 0 7 (replicate 12 (mkHtlc (2 ^ 22 - 1) 500 (zero_arr 32))) 0) = false)
    by (lazy; reflexivity).
  destruct (build_state _ _ _ _ _ _ _ _ _ _) as [st| |]; try discriminate EC.
  exists st. split; [reflexivity|]. intros A SA SL fm ub wsz inputs ws s. apply too_many_outputs.
  apply Z.leb_gt, EC.
Qed.
