(* ===== verification/ChannelWire.v ===== *)
(** The messages of a payment channel: the [wire] module of [src/core/channel.rs].
    Every decoder accepts exactly what its encoder writes, and none aborts. *)
From S2P Require Import Prelude Types Channel Wire.

#[local] Open Scope Z_scope.

Definition VERSION : Z := 2.
Definition MAX_HINTS : nat := 2.

Abbreviation u8 := (le 1).
Abbreviation u32 := (le 4).
Abbreviation u64 := (le 8).
Abbreviation id32 := (raw 32).

(** [b.len() < min || b[0] != VERSION]. *)
Definition check_header (b : bytes) (min : nat) : res () () :=
  _ ← bail_if (Nat.ltb (length b) min) ();
  v ← read u8 b 0;
  bail_if (negb (v =? VERSION)) ().

(** ** OPEN *)

Definition put_coin (c : FundingCoin) : bytes := put u64 (fc_value c) ++ put id32 (fc_salt c).

Definition pack_open (expiry : Z) (funding : list FundingCoin) (sig0 : bytes) : bytes :=
  put u8 VERSION ++ put u64 expiry ++ put u8 (Z.of_nat (length funding)) ++ concat (map put_coin funding) ++ sig0.

Definition read_coin (b : bytes) (o : nat) : res () FundingCoin :=
  value ← read u64 b o;
  salt ← read id32 b (o + 8);
  Ok (mkFundingCoin value salt).

Definition unpack_open (b : bytes) : res () (Z * list FundingCoin * bytes) :=
  _ ← check_header b 10;
  expiry ← read u64 b 1;
  n ← read u8 b 9;
  let n := Z.to_nat n in
  _ ← bail_if (Nat.ltb (length b) (10 + n * 40)) ();
  funding ← read_many read_coin 40 b 10 n;
  Ok (expiry, funding, drop (10 + n * 40) b).

(** ** STATE *)

Record StateWire : Type := mkStateWire {
  sw_nonce : Z; sw_sender_amt : Z; sw_receiver_amt : Z; sw_htlcs : list Htlc; sw_sig : bytes
}.

Definition put_htlc (h : Htlc) : bytes := put u64 (amount h) ++ put u64 (timeout h) ++ put id32 (secret_hash h).

Definition pack_state (st : StateWire) : bytes :=
  put u8 VERSION ++ put u32 (sw_nonce st) ++ put u64 (sw_sender_amt st) ++ put u64 (sw_receiver_amt st)
  ++ put u8 (Z.of_nat (length (sw_htlcs st))) ++ concat (map put_htlc (sw_htlcs st)) ++ sw_sig st.

Definition read_htlc (b : bytes) (o : nat) : res () Htlc :=
  amount ← read u64 b o;
  timeout ← read u64 b (o + 8);
  secret_hash ← read id32 b (o + 16);
  Ok (mkHtlc amount timeout secret_hash).

Definition unpack_state (b : bytes) : res () StateWire :=
  _ ← check_header b 22;
  nonce ← read u32 b 1;
  sender_amt ← read u64 b 5;
  receiver_amt ← read u64 b 13;
  n ← read u8 b 21;
  let n := Z.to_nat n in
  _ ← bail_if (Nat.ltb MAX_HTLCS n || Nat.ltb (length b) (22 + n * 48)) ();
  htlcs ← read_many read_htlc 48 b 22 n;
  Ok (mkStateWire nonce sender_amt receiver_amt htlcs (drop (22 + n * 48) b)).

(** ** INVOICE *)

Record InvoiceWire : Type := mkInvoiceWire {
  iw_amount : Z; iw_expiry : Z; iw_hash : hash32; iw_hints : list hash32; iw_sig : bytes
}.

Definition pack_invoice (i : InvoiceWire) : bytes :=
  put u8 VERSION ++ put u64 (iw_amount i) ++ put u64 (iw_expiry i) ++ put id32 (iw_hash i)
  ++ put u8 (Z.of_nat (length (iw_hints i))) ++ concat (map (put id32) (iw_hints i)) ++ iw_sig i.

Definition unpack_invoice (b : bytes) : res () InvoiceWire :=
  _ ← check_header b 50;
  amount ← read u64 b 1;
  expiry ← read u64 b 9;
  hash ← read id32 b 17;
  n ← read u8 b 49;
  let n := Z.to_nat n in
  _ ← bail_if (Nat.ltb MAX_HINTS n || Nat.ltb (length b) (50 + n * 32)) ();
  hints ← read_many (read id32) 32 b 50 n;
  Ok (mkInvoiceWire amount expiry hash hints (drop (50 + n * 32) b)).

(** ** ADDRESS, HUB and the small payloads *)

Definition pack_address (address : hash32) (expiry : Z) (sig : bytes) : bytes :=
  put u8 VERSION ++ put u64 expiry ++ put id32 address ++ sig.

Definition unpack_address (b : bytes) : res () (hash32 * Z * bytes) :=
  _ ← check_header b 41;
  expiry ← read u64 b 1;
  address ← read id32 b 9;
  Ok (address, expiry, drop 41 b).

Definition pack_hub (outbound min_capacity hop_fee : Z) : bytes :=
  put u8 VERSION ++ put u64 outbound ++ put u64 min_capacity ++ put u64 hop_fee.

Definition unpack_hub (b : bytes) : res () (Z * Z * Z) :=
  _ ← check_header b 25;
  outbound ← read u64 b 1;
  min_capacity ← read u64 b 9;
  hop_fee ← read u64 b 17;
  Ok (outbound, min_capacity, hop_fee).

Definition pack_u32 (n : Z) (extra : bytes) : bytes := put u8 VERSION ++ put u32 n ++ extra.

Definition unpack_u32 (b : bytes) : res () (Z * bytes) :=
  _ ← check_header b 5;
  n ← read u32 b 1;
  Ok (n, drop 5 b).

(** * Exactness *)

Definition coin_fits (c : FundingCoin) : Prop := in_u 64 (fc_value c).
Definition htlc_fits (h : Htlc) : Prop := in_u 64 (amount h) /\ in_u 64 (timeout h).

#[local] Arguments put : simpl never.
#[local] Arguments read : simpl never.

#[export] Instance read_coin_reads : Reads read_coin put_coin 40 coin_fits.
Proof.
  split; unfold read_coin, put_coin.
  - intros b o [v s]. cbn [fc_value fc_salt]. rewrite <- app_assoc. split.
    + intros E. reads_in. simplify_eq. split; [assumption|]. read_chain.
    + intros [HF E]. do 2 read_next. reflexivity.
  - intros b o HL. reads_are_safe.
  - intros c _. rewrite length_app, !put_length. reflexivity.
Qed.

#[export] Instance read_htlc_reads : Reads read_htlc put_htlc 48 htlc_fits.
Proof.
  split; unfold read_htlc, put_htlc.
  - intros b o [v t s]. cbn [amount timeout secret_hash]. rewrite <- !app_assoc. split.
    + intros E. reads_in. simplify_eq. split; [split; assumption|]. read_chain.
    + intros [[HF HT] E]. cbn [amount timeout] in *. do 3 read_next. reflexivity.
  - intros b o HL. reads_are_safe.
  - intros c _. rewrite !length_app, !put_length. reflexivity.
Qed.

(** The header of a message: its version byte, and enough bytes for the fields. *)
Lemma check_header_Ok b min : (1 <= min)%nat ->
  check_header b min = Ok () <-> (min <= length b)%nat /\ drop 0 b = put u8 VERSION ++ drop 1 b.
Proof.
  intros HM. unfold check_header. destruct (Nat.ltb_spec (length b) min) as [HL|HL]; cbn [bail_if mbind res_bind];
    [split; [discriminate|lia]|]. split.
  - intros E. reads_in. match goal with X : negb _ = false |- _ => apply negb_false_iff, Z.eqb_eq in X; subst end.
    split; [exact HL|]. assumption.
  - intros [_ E].
    assert (HV : fits u8 VERSION) by (unfold VERSION; cbn; lia). read_next. reflexivity.
Qed.

Lemma check_header_safe b min : (1 <= min)%nat -> check_header b min <> Panic.
Proof.
  intros HM. unfold check_header. apply bind_safe; [apply bail_if_safe|]. intros [] E.
  apply bail_if_Ok, Nat.ltb_ge in E. reads_are_safe.
Qed.

#[local] Hint Resolve check_header_safe : safe.

(** A decoder that reads everything after the version byte. *)
Ltac decoder_in :=
  intros E; reads_in; simplify_eq;
  match goal with X : check_header _ _ = Ok _ |- _ => apply check_header_Ok in X as [? ?]; [|lia] end.

(** The length byte of a list, which [as u8] truncates. *)
Lemma count_byte n : 0 <= n < 2 ^ (8 * Z.of_nat 1) -> Z.of_nat (Z.to_nat n) = n.
Proof. intros. apply Z2Nat.id. lia. Qed.

Lemma count_fits {A} (l : list A) : (length l < 256)%nat -> fits u8 (Z.of_nat (length l)).
Proof. cbn. lia. Qed.

Lemma check_header_put b min r : (1 <= min <= length b)%nat -> drop 0 b = put u8 VERSION ++ r ->
  check_header b min = Ok () /\ drop 1 b = r.
Proof.
  intros HM E. assert (ER : drop 1 b = r) by apply (drop_after _ _ _ _ E).
  split; [|exact ER]. apply check_header_Ok; [lia|]. rewrite ER. split; [lia|exact E].
Qed.

(** Decode a message given as [E : b = header ++ fields]. *)
Ltac open_header E n :=
  let EL := fresh "EL" in let R := fresh in let E1 := fresh "E1" in
  pose proof (f_equal length E) as EL; rewrite ?length_app, ?put_length in EL; cbn [width le raw] in EL;
  match type of E with ?b = _ =>
    assert (R : (1 <= n <= length b)%nat) by lia; apply (check_header_put b n _ R) in E as [E1 E] end;
  clear R; rewrite E1; cbn [mbind res_bind].

(** Decode the list, whose [Reads] instance is [RI] and whose items fit by [HF], and the rest. *)
Ltac read_list RI HF :=
  rewrite ?Nat2Z.id;
  match goal with X : drop _ ?b = concat _ ++ _ |- _ =>
    let X1 := fresh in let X2 := fresh in
    pose proof (f_equal length X) as X2;
    rewrite length_drop, length_app, (concat_size (Reads0 := RI) _ _ _ _ _ HF) in X2;
    eapply (read_many_put (Reads0 := RI) _ _ _ _) in X as [X1 X]; [|exact HF];
    rewrite (proj2 (Nat.ltb_ge _ _)) by offsets; cbn [bail_if orb mbind res_bind];
    cbn [width le raw Nat.add] in *; rewrite X1; cbn [mbind res_bind]; rewrite X
  end.

(** The message that a decoder accepted, put together again. *)
Ltac message b :=
  repeat match goal with
  | X : fits u8 ?n |- _ => pose proof (count_byte n X); cbn in X
  | X : (_ || _) = false |- _ => apply orb_false_iff in X as [?%Nat.ltb_ge ?%Nat.ltb_ge]
  end;
  change b with (drop 0 b) at 1;
  try match goal with X : length _ = Z.to_nat ?n, Y : Z.of_nat (Z.to_nat ?n) = _ |- _ => rewrite X, Y end;
  read_chain.

Lemma unpack_open_Ok b e funding sig :
  unpack_open b = Ok (e, funding, sig) <->
  b = pack_open e funding sig /\ in_u 64 e /\ (length funding < 256)%nat /\ Forall coin_fits funding.
Proof.
  unfold unpack_open, pack_open. split.
  - decoder_in. split; [message b|]. cbn in *. repeat split; (assumption || lia).
  - intros (E & HE & HN & HF). pose proof (count_fits funding HN) as HC.
    open_header E 10%nat. do 2 read_next. read_list read_coin_reads HF. reflexivity.
Qed.

Definition state_fits (st : StateWire) : Prop :=
  in_u 32 (sw_nonce st) /\ in_u 64 (sw_sender_amt st) /\ in_u 64 (sw_receiver_amt st)
  /\ (length (sw_htlcs st) <= MAX_HTLCS)%nat /\ Forall htlc_fits (sw_htlcs st).

Lemma unpack_state_Ok b st : unpack_state b = Ok st <-> b = pack_state st /\ state_fits st.
Proof.
  destruct st as [n s r l sig]. unfold unpack_state, pack_state, state_fits.
  cbn [sw_nonce sw_sender_amt sw_receiver_amt sw_htlcs sw_sig]. split.
  - decoder_in. split; [message b|].
    match goal with X : (_ || _) = false |- _ => apply orb_false_iff in X as [?%Nat.ltb_ge _] end.
    cbn in *. repeat split; (assumption || lia).
  - intros (E & HN & HS & HR & HL & HF). assert (HC : fits u8 (Z.of_nat (length l))) by (apply count_fits; unfold MAX_HTLCS in HL; lia).
    open_header E 22%nat. do 4 read_next. rewrite Nat2Z.id, (proj2 (Nat.ltb_ge MAX_HTLCS _) HL).
    read_list read_htlc_reads HF. reflexivity.
Qed.

Definition invoice_fits (i : InvoiceWire) : Prop :=
  in_u 64 (iw_amount i) /\ in_u 64 (iw_expiry i) /\ (length (iw_hints i) <= MAX_HINTS)%nat.

Lemma unpack_invoice_Ok b i : unpack_invoice b = Ok i <-> b = pack_invoice i /\ invoice_fits i.
Proof.
  destruct i as [a e h l sig]. unfold unpack_invoice, pack_invoice, invoice_fits.
  cbn [iw_amount iw_expiry iw_hash iw_hints iw_sig]. split.
  - decoder_in. split; [message b|].
    match goal with X : (_ || _) = false |- _ => apply orb_false_iff in X as [?%Nat.ltb_ge _] end.
    cbn in *. repeat split; (assumption || lia).
  - intros (E & HA & HE & HL). assert (HC : fits u8 (Z.of_nat (length l))) by (apply count_fits; unfold MAX_HINTS in HL; lia).
    assert (HF : Forall (fits id32) l) by (apply Forall_forall; intros; exact I).
    open_header E 50%nat. do 4 read_next. rewrite Nat2Z.id, (proj2 (Nat.ltb_ge MAX_HINTS _) HL).
    read_list (read_reads id32) HF. reflexivity.
Qed.

Lemma unpack_address_Ok b address e sig :
  unpack_address b = Ok (address, e, sig) <-> b = pack_address address e sig /\ in_u 64 e.
Proof.
  unfold unpack_address, pack_address. split.
  - decoder_in. split; [message b|assumption].
  - intros [E HE]. open_header E 41%nat. do 2 read_next. cbn [width le raw Nat.add] in *. simplify_eq. reflexivity.
Qed.

(** Trailing bytes are ignored here alone. *)
Lemma unpack_hub_Ok b o m f :
  unpack_hub b = Ok (o, m, f) <->
  (exists rest, b = pack_hub o m f ++ rest) /\ in_u 64 o /\ in_u 64 m /\ in_u 64 f.
Proof.
  unfold unpack_hub, pack_hub. split.
  - decoder_in. split; [exists (drop 25 b); message b|split; [|split]; assumption].
  - intros [[rest E] (HO & HM & HF)]. rewrite <- !app_assoc in E. open_header E 25%nat. do 3 read_next. reflexivity.
Qed.

Lemma unpack_u32_Ok b n extra : unpack_u32 b = Ok (n, extra) <-> b = pack_u32 n extra /\ in_u 32 n.
Proof.
  unfold unpack_u32, pack_u32. split.
  - decoder_in. split; [message b|assumption].
  - intros [E HN]. open_header E 5%nat. read_next. cbn [width le raw Nat.add] in *. simplify_eq. reflexivity.
Qed.

Definition safe_decoder {A} (unpack : bytes -> res () A) : Prop := forall b, unpack b <> Panic.

Ltac decoder_safe :=
  intros b;
  repeat first
    [ match goal with
      | X : check_header _ _ = Ok ?u |- _ => destruct u; apply check_header_Ok in X as [? _]; [|lia]
      | X : bail_if _ _ = Ok _ |- _ => apply bail_if_Ok in X
      | X : (_ || _) = false |- _ => apply orb_false_iff in X as [_ X]
      | X : Nat.ltb _ _ = false |- _ => apply Nat.ltb_ge in X
      end
    | apply (read_safe _); offsets
    | apply (read_many_safe _ _ _ _); offsets
    | apply check_header_safe; lia
    | apply bind_safe; [|intros ? ?]
    | solve [auto with safe] ].

Lemma unpack_open_safe : safe_decoder unpack_open.
Proof. unfold unpack_open. decoder_safe. Qed.

(** C39: every channel message is decoded exactly: a decoder returns a value precisely
    on the bytes its encoder writes for that value, with all integers in range and
    the lists within their limits ([unpack_hub] alone ignores bytes that follow),
    and no input of any length makes a decoder index outside it. *)
Theorem channel_wire_exact :
  (forall b e funding sig, unpack_open b = Ok (e, funding, sig) <->
     b = pack_open e funding sig /\ in_u 64 e /\ (length funding < 256)%nat /\ Forall coin_fits funding)
  /\ (forall b st, unpack_state b = Ok st <-> b = pack_state st /\ state_fits st)
  /\ (forall b i, unpack_invoice b = Ok i <-> b = pack_invoice i /\ invoice_fits i)
  /\ (forall b address e sig, unpack_address b = Ok (address, e, sig) <->
        b = pack_address address e sig /\ in_u 64 e)
  /\ (forall b o m f, unpack_hub b = Ok (o, m, f) <->
        (exists rest, b = pack_hub o m f ++ rest) /\ in_u 64 o /\ in_u 64 m /\ in_u 64 f)
  /\ (forall b n extra, unpack_u32 b = Ok (n, extra) <-> b = pack_u32 n extra /\ in_u 32 n)
  /\ safe_decoder unpack_open /\ safe_decoder unpack_state /\ safe_decoder unpack_invoice
  /\ safe_decoder unpack_address /\ safe_decoder unpack_hub /\ safe_decoder unpack_u32.
Proof.
  split; [apply unpack_open_Ok|]. split; [apply unpack_state_Ok|]. split; [apply unpack_invoice_Ok|].
  split; [apply unpack_address_Ok|]. split; [apply unpack_hub_Ok|]. split; [apply unpack_u32_Ok|].
  split; [apply unpack_open_safe|].
  unfold unpack_state, unpack_invoice, unpack_address, unpack_hub, unpack_u32.
  repeat split; decoder_safe.
Qed.
