(* ===== verification/Dex.v ===== *)
(** Order announcements of [src/core/dex.rs]: their encoding, their fragments and
    reassembly, and the inputs that spend a limit order.  Every integer is
    big-endian and every decoder reads through a cursor. *)
From Stdlib Require Import Strings.String.
From S2P Require Import Prelude Bytecode Types Script Instr Templates Wire.

#[local] Open Scope Z_scope.

Definition ANN_MAGIC : arr 4 := arr_of 4 (bstr "MDXA").
Definition FRAG_MAGIC : arr 4 := arr_of 4 (bstr "MDXF").
Definition TAKER_MAGIC : arr 4 := arr_of 4 (bstr "MDXT").
Definition ANN_VER : Z := 1.
Definition TAKER_VER : Z := 1.
Definition FRAG_HEADER_BYTES : nat := 12.
Definition FRAG_PAYLOAD_BYTES : nat := MAX_BURN_DATA_SIZE - FRAG_HEADER_BYTES.

Inductive DexError : Type :=
  | NotPowerOfTwo | UnitCountOutOfRange | TooManyFragments | WrongPreimage | ExceedsMaxClaim | MissingRefundSig.

Record AnnUnit : Type := mkAnnUnit { u_secret_hash : hash32; u_salt : hash32; u_value : Z; u_wei_amount : Z }.

Record MakerAnnouncement : Type := mkMaker {
  maker_evm_addr : arr 20;
  maker_mds_pk : hash32;
  m_timeout_height : Z;
  m_group_id : arr 6;
  units : list AnnUnit
}.

Record TakerAnnouncement : Type := mkTaker {
  taker_mds_pk : hash32;
  t_secret_hash : hash32;
  t_salt : hash32;
  receiver_addr : hash32;
  t_timeout_height : Z;
  t_value : Z;
  t_wei_amount : Z
}.

Abbreviation u8 := (be 1).
Abbreviation u64 := (be 8).
Abbreviation u128 := (be 16).
Abbreviation id32 := (raw 32).

Fixpoint pos_trailing_zeros (p : positive) : Z :=
  match p with xO p => 1 + pos_trailing_zeros p | _ => 0 end.

Definition trailing_zeros (v : Z) : Z :=
  match v with Zpos p => pos_trailing_zeros p | _ => 64 end.

Definition log2_exact (v : Z) : res DexError Z :=
  _ ← bail_if (negb (is_pow2 v)) NotPowerOfTwo;
  Ok (trailing_zeros v).

(** [if c { return None }]. *)
Definition require (c : bool) : option () := if c then Some () else None.

(** ** Maker orders *)

Fixpoint encode_units (l : list AnnUnit) : res DexError bytes :=
  match l with
  | [] => Ok []
  | u :: l =>
      e ← log2_exact (u_value u);
      out ← encode_units l;
      Ok (u_secret_hash u ++ u_salt u ++ put u8 e ++ put u128 (u_wei_amount u) ++ out)
  end.

Definition encode_maker (m : MakerAnnouncement) : res DexError bytes :=
  let n := Z.of_nat (length (units m)) in
  _ ← bail_if ((n =? 0) || (255 <? n)) UnitCountOutOfRange;
  out ← encode_units (units m);
  Ok (ANN_MAGIC ++ put u8 ANN_VER ++ maker_evm_addr m ++ maker_mds_pk m ++ put u64 (m_timeout_height m)
      ++ m_group_id m ++ put u8 n ++ out).

Definition decode_unit (b : bytes) (o : nat) : option (AnnUnit * nat) :=
  '(secret_hash, o) ← next id32 b o;
  '(salt, o) ← next id32 b o;
  '(exp, o) ← next u8 b o;
  _ ← require (exp <? 64);
  '(wei_amount, o) ← next u128 b o;
  Some (mkAnnUnit secret_hash salt (2 ^ exp) wei_amount, o).

Fixpoint decode_units (b : bytes) (o n : nat) : option (list AnnUnit * nat) :=
  match n with
  | O => Some ([], o)
  | S n =>
      '(u, o) ← decode_unit b o;
      '(l, o) ← decode_units b o n;
      Some (u :: l, o)
  end.

Definition decode_maker (b : bytes) : option MakerAnnouncement :=
  '(magic, o) ← next (raw 4) b 0;
  _ ← require (bool_decide (magic = ANN_MAGIC));
  '(ver, o) ← next u8 b o;
  _ ← require (ver =? ANN_VER);
  '(evm, o) ← next (raw 20) b o;
  '(pk, o) ← next id32 b o;
  '(timeout_height, o) ← next u64 b o;
  '(group_id, o) ← next (raw 6) b o;
  '(n, o) ← next u8 b o;
  _ ← require (negb (n =? 0));
  '(units, _) ← decode_units b o (Z.to_nat n);
  Some (mkMaker evm pk timeout_height group_id units).

(** [u128] and [u64] sums, which wrap. *)
Definition total_wei (m : MakerAnnouncement) : Z := wrap 128 (sumZ (map u_wei_amount (units m))).
Definition total_value (m : MakerAnnouncement) : Z := wrap 64 (sumZ (map u_value (units m))).

(** ** Taker locks *)

Definition encode_taker (t : TakerAnnouncement) : res DexError bytes :=
  e ← log2_exact (t_value t);
  Ok (TAKER_MAGIC ++ put u8 TAKER_VER ++ taker_mds_pk t ++ t_secret_hash t ++ t_salt t ++ receiver_addr t
      ++ put u64 (t_timeout_height t) ++ put u8 e ++ put u128 (t_wei_amount t)).

Definition decode_taker (b : bytes) : option TakerAnnouncement :=
  '(magic, o) ← next (raw 4) b 0;
  _ ← require (bool_decide (magic = TAKER_MAGIC));
  '(ver, o) ← next u8 b o;
  _ ← require (ver =? TAKER_VER);
  '(pk, o) ← next id32 b o;
  '(secret_hash, o) ← next id32 b o;
  '(salt, o) ← next id32 b o;
  '(receiver, o) ← next id32 b o;
  '(timeout_height, o) ← next u64 b o;
  '(exp, o) ← next u8 b o;
  _ ← require (exp <? 64);
  '(wei_amount, _) ← next u128 b o;
  Some (mkTaker pk secret_hash salt receiver timeout_height (2 ^ exp) wei_amount).

(** ** Fragments *)

Definition div_ceil (a b : nat) : nat := (a + b - 1) / b.

Fixpoint fragments_from (body group_id : bytes) (total : nat) (ix : list nat) : res DexError (list bytes) :=
  match ix with
  | [] => Ok []
  | i :: ix =>
      let lo := (i * FRAG_PAYLOAD_BYTES)%nat in
      let hi := Nat.min ((i + 1) * FRAG_PAYLOAD_BYTES) (length body) in
      chunk ← slice body lo hi;
      out ← fragments_from body group_id total ix;
      Ok ((FRAG_MAGIC ++ group_id ++ [b8 (Z.of_nat i)] ++ [b8 (Z.of_nat total)] ++ chunk) :: out)
  end.

Definition fragment (body : bytes) (group_id : arr 6) : res DexError (list bytes) :=
  let total := Nat.max 1 (div_ceil (length body) FRAG_PAYLOAD_BYTES) in
  _ ← bail_if (Nat.ltb 255 total) TooManyFragments;
  fragments_from body group_id total (seq 0 total).

Record Fragment : Type := mkFragment { f_group_id : arr 6; f_idx : Z; f_total : Z; f_chunk : bytes }.

(** The length is at least 13 when the slices and bytes are read. *)
Definition parse_fragment (b : bytes) : res () Fragment :=
  _ ← bail_if (Nat.leb (length b) FRAG_HEADER_BYTES) ();
  magic ← read (raw 4) b 0;
  _ ← bail_if (negb (bool_decide (magic = FRAG_MAGIC))) ();
  group_id ← read (raw 6) b 4;
  idx ← read u8 b 10;
  total ← read u8 b 11;
  _ ← bail_if ((total =? 0) || (total <=? idx)) ();
  Ok (mkFragment group_id idx total (drop FRAG_HEADER_BYTES b)).

Definition Group : Type := (arr 6 * Z)%type.
Abbreviation FragmentPool := (gmap Group (list (option bytes))).

Definition pool_new : FragmentPool := ∅.
Definition pending (pool : FragmentPool) : nat := size pool.
Definition pool_clear (pool : FragmentPool) : FragmentPool := ∅.

(** Indexing outside the slots aborts. *)
Definition pool_add (pool : FragmentPool) (f : Fragment) : res () (option bytes * FragmentPool) :=
  let key := (f_group_id f, f_total f) in
  let slots := default (replicate (Z.to_nat (f_total f)) None) (pool !! key) in
  if Nat.ltb (Z.to_nat (f_idx f)) (length slots) then
    let slots := <[Z.to_nat (f_idx f) := Some (f_chunk f)]> slots in
    if existsb (fun s => bool_decide (s = None)) slots then Ok (None, <[key := slots]> pool)
    else Ok (Some (concat (map (default []) slots)), delete key pool)
  else Panic.

Inductive Announcement : Type := Maker (m : MakerAnnouncement) | Taker (t : TakerAnnouncement).

Definition ingest (payload : bytes) (pool : FragmentPool) : res () (option Announcement * FragmentPool) :=
  match decode_taker payload with
  | Some t => Ok (Some (Taker t), pool)
  | None =>
  match decode_maker payload with
  | Some m => Ok (Some (Maker m), pool)
  | None =>
  match parse_fragment payload with
  | Panic => Panic
  | Err _ => Ok (None, pool)
  | Ok f =>
      '(body, pool) ← pool_add pool f;
      match body with
      | None => Ok (None, pool)
      | Some body =>
          match decode_maker body with
          | Some m => Ok (Some (Maker m), pool)
          | None => Ok (Taker <$> decode_taker body, pool)
          end
      end
  end end end.

(** Ingest a series of payloads, collecting what each yields. *)
Fixpoint ingest_all (payloads : list bytes) (pool : FragmentPool)
    : res () (list (option Announcement) * FragmentPool) :=
  match payloads with
  | [] => Ok ([], pool)
  | p :: payloads =>
      '(a, pool) ← ingest p pool;
      '(l, pool) ← ingest_all payloads pool;
      Ok (a :: l, pool)
  end.

(** ** Spending a limit order *)

Section Spending.
Context `{Blake3}.

Definition limit_order_address (secret_hash : hash32) (max_claim timeout_height : Z) (refund_pk : hash32) : hash32 :=
  hash (compile_limit_order_covenant secret_hash max_claim timeout_height refund_pk).

Definition script_input (bytecode : bytes) (value : Z) (salt : hash32) : InputReveal :=
  {| in_predicate := Types.Script bytecode; in_value := value; in_salt := salt; in_commitment := None |}.

Definition limit_claim_input (secret_hash : hash32) (max_claim timeout_height : Z) (refund_pk : hash32)
    (value : Z) (salt preimage : hash32) : res DexError (InputReveal * Witness) :=
  _ ← bail_if (negb (bool_decide (hash preimage = secret_hash))) WrongPreimage;
  _ ← bail_if (max_claim <? value) ExceedsMaxClaim;
  let bytecode := compile_limit_order_covenant secret_hash max_claim timeout_height refund_pk in
  Ok (script_input bytecode value salt, ScriptInputs [arr_list preimage; [x01]]).

Definition limit_reclaim_input (secret_hash : hash32) (max_claim timeout_height : Z) (refund_pk : hash32)
    (value : Z) (salt : hash32) (refund_sig : bytes) : res DexError (InputReveal * Witness) :=
  _ ← bail_if (Nat.eqb (length refund_sig) 0) MissingRefundSig;
  let bytecode := compile_limit_order_covenant secret_hash max_claim timeout_height refund_pk in
  Ok (script_input bytecode value salt, ScriptInputs [refund_sig; replicate 32 x00; [x00]]).

End Spending.

(** * Codecs *)

Definition unit_fits (u : AnnUnit) : Prop := is_pow2 (u_value u) = true /\ in_u 64 (u_value u) /\ in_u 128 (u_wei_amount u).

Definition maker_fits (m : MakerAnnouncement) : Prop :=
  in_u 64 (m_timeout_height m) /\ (1 <= length (units m) <= 255)%nat /\ Forall unit_fits (units m).

Definition taker_fits (t : TakerAnnouncement) : Prop :=
  in_u 64 (t_timeout_height t) /\ is_pow2 (t_value t) = true /\ in_u 64 (t_value t) /\ in_u 128 (t_wei_amount t).

(** What the encoders write, when they write. *)
Definition unit_bytes (u : AnnUnit) : bytes :=
  put id32 (u_secret_hash u) ++ put id32 (u_salt u) ++ put u8 (trailing_zeros (u_value u)) ++ put u128 (u_wei_amount u).

Definition maker_bytes (m : MakerAnnouncement) : bytes :=
  put (raw 4) ANN_MAGIC ++ put u8 ANN_VER ++ put (raw 20) (maker_evm_addr m) ++ put id32 (maker_mds_pk m)
  ++ put u64 (m_timeout_height m) ++ put (raw 6) (m_group_id m) ++ put u8 (Z.of_nat (length (units m)))
  ++ concat (map unit_bytes (units m)).

Definition taker_bytes (t : TakerAnnouncement) : bytes :=
  put (raw 4) TAKER_MAGIC ++ put u8 TAKER_VER ++ put id32 (taker_mds_pk t) ++ put id32 (t_secret_hash t)
  ++ put id32 (t_salt t) ++ put id32 (receiver_addr t) ++ put u64 (t_timeout_height t)
  ++ put u8 (trailing_zeros (t_value t)) ++ put u128 (t_wei_amount t).

Lemma pow2_exists v : is_pow2 v = true -> exists k, 0 <= k /\ v = 2 ^ k.
Proof.
  unfold is_pow2. intros [HV%Z.ltb_lt HL%Z.eqb_eq]%andb_true_iff. exists (Z.log2 v).
  split; [apply Z.log2_nonneg|]. destruct (Z.log2_spec v HV) as [L1 L2].
  destruct (Z.eq_dec v (2 ^ Z.log2 v)) as [E|E]; [exact E|]. exfalso.
  assert (EL : Z.log2 (v - 1) = Z.log2 v) by (apply Z.log2_unique; [apply Z.log2_nonneg|lia]).
  assert (HP : 0 < 2 ^ Z.log2 v) by (apply Z.pow_pos_nonneg; [lia|apply Z.log2_nonneg]).
  pose proof (Z.bit_log2 v HV) as B1. pose proof (Z.bit_log2 (v - 1) ltac:(lia)) as B2. rewrite EL in B2.
  assert (B : Z.testbit (Z.land v (v - 1)) (Z.log2 v) = true) by (rewrite Z.land_spec, B1, B2; reflexivity).
  rewrite HL, Z.bits_0 in B. discriminate.
Qed.

Lemma trailing_zeros_pow k : 0 <= k -> trailing_zeros (2 ^ k) = k.
Proof.
  intros Hk. revert k Hk. apply natlike_ind; [reflexivity|]. intros k Hk IH.
  rewrite Z.pow_succ_r by exact Hk. destruct (2 ^ k) as [|p|p] eqn:E; cbn in IH; try (cbn; lia).
  change (1 + pos_trailing_zeros p = Z.succ k). lia.
Qed.

Lemma trailing_zeros_fits v : is_pow2 v = true -> in_u 64 v -> 0 <= trailing_zeros v < 64 /\ 2 ^ trailing_zeros v = v.
Proof.
  intros HP [_ HV]. destruct (pow2_exists v HP) as (k & Hk & ->). rewrite trailing_zeros_pow by exact Hk.
  split; [|reflexivity]. split; [exact Hk|]. apply (Z.pow_lt_mono_r_iff 2); lia.
Qed.

(** Open the successful steps of a cursor decoder, and run one over what was written. *)
Ltac next_in :=
  repeat match goal with
  | X : (_ ≫= _) = Some _ |- _ => apply bind_Some in X as (? & ? & ?)
  | X : require _ = Some _ |- _ => unfold require in X; case_match; [clear X|discriminate X]
  | X : bool_decide _ = true |- _ => apply bool_decide_eq_true in X; subst
  | X : (_ =? _) = true |- _ => apply Z.eqb_eq in X; subst
  | X : negb (_ =? _) = true |- _ => apply negb_true_iff, Z.eqb_neq in X
  | X : next ?f _ _ = Some _ |- _ => apply (next_Some f) in X as (? & ? & ?)
  | X : (let '(_, _) := ?p in _) = Some _ |- _ => destruct p
  | X : Some _ = Some _ |- _ => injection X as X
  end.

Ltac next_step :=
  match goal with
  | E : drop ?o ?b = put ?f ?a ++ _ |- context [next ?f ?b ?o] =>
      let R := fresh in
      destruct (next_put f b o a _ E) as [R ?]; [solve [assumption | exact I | auto]|]; clear E; rewrite R; clear R;
      cbn [mbind option_bind]
  end.

Lemma exponent_fits z : fits u8 z -> (z <? 64) = true ->
  is_pow2 (2 ^ z) = true /\ in_u 64 (2 ^ z) /\ trailing_zeros (2 ^ z) = z.
Proof.
  intros [HZ _] HL%Z.ltb_lt. split; [apply is_pow2_pow, HZ|]. split; [|apply trailing_zeros_pow, HZ].
  split; [apply Z.pow_nonneg; lia|apply Z.pow_lt_mono_r; lia].
Qed.

Lemma exponent_byte v : is_pow2 v = true -> in_u 64 v ->
  fits u8 (trailing_zeros v) /\ (trailing_zeros v <? 64) = true /\ 2 ^ trailing_zeros v = v.
Proof.
  intros HP HV. destruct (trailing_zeros_fits v HP HV) as [HT HE].
  split; [cbn; lia|]. split; [apply Z.ltb_lt; lia|exact HE].
Qed.

#[local] Arguments put : simpl never.

Lemma length_unit_bytes u : length (unit_bytes u) = 81%nat.
Proof. unfold unit_bytes. rewrite !length_app, !put_length. reflexivity. Qed.

Lemma decode_unit_Some b o u o' :
  decode_unit b o = Some (u, o') <->
  unit_fits u /\ o' = (o + 81)%nat /\ drop o b = unit_bytes u ++ drop o' b.
Proof.
  unfold decode_unit, unit_bytes. split.
  - intros E. next_in. simplify_eq. cbn [u_value u_wei_amount u_secret_hash u_salt].
    match goal with X : fits u8 ?z, Y : (?z <? 64) = true |- _ => destruct (exponent_fits z X Y) as (P1 & P2 & P3) end.
    split; [split; [exact P1|split; [exact P2|assumption]]|]. split; [offsets|]. rewrite P3. read_chain.
  - destruct u as [s t v w]. cbn [u_value u_wei_amount u_secret_hash u_salt]. intros ((P & HV & HW) & -> & E).
    cbn [u_value u_wei_amount] in *. destruct (exponent_byte v P HV) as (P1 & P2 & P3).
    rewrite <- !app_assoc in E. do 3 next_step. rewrite P2. cbn [require mbind option_bind].
    next_step. rewrite P3. do 2 f_equal. offsets.
Qed.

Lemma decode_units_Some b n : forall o l o',
  decode_units b o n = Some (l, o') <->
  length l = n /\ Forall unit_fits l /\ o' = (o + n * 81)%nat /\ drop o b = concat (map unit_bytes l) ++ drop o' b.
Proof.
  induction n as [|n IH]; intros o l o'; cbn [decode_units].
  - split; [intros [= <- <-]; repeat split; [constructor|lia]|].
    intros (HL & _ & -> & _). destruct l; [|discriminate]. do 2 f_equal. lia.
  - split.
    + intros E. next_in. simplify_eq.
      match goal with X : decode_unit _ _ = _ |- _ => apply decode_unit_Some in X as (Hu & -> & Eu) end.
      match goal with X : decode_units _ _ _ = _ |- _ => apply IH in X as (<- & Hl & -> & El) end.
      split; [reflexivity|]. split; [constructor; assumption|]. split; [lia|].
      cbn [map concat]. rewrite Eu, El, <- app_assoc. reflexivity.
    + intros (HL & HF & -> & E). destruct l as [|u l]; [discriminate|]. inversion HF as [|? ? Hu Hl]; subst.
      cbn [map concat] in E. rewrite <- app_assoc in E.
      assert (ED : drop (o + 81) b = concat (map unit_bytes l) ++ drop (o + S n * 81) b) 
        by (rewrite <- (length_unit_bytes u) at 1; apply drop_after, E).
      rewrite (proj2 (decode_unit_Some b o u (o + 81)%nat)) by (rewrite ED; auto). cbn [mbind option_bind].
      replace (o + S n * 81)%nat with (o + 81 + n * 81)%nat in * by lia.
      rewrite (proj2 (IH (o + 81)%nat l (o + 81 + n * 81)%nat)); [reflexivity|].
      split; [cbn in HL; lia|auto].
Qed.

(** Both encoders write the bytes above exactly for the values that fit; both decoders
    accept what starts with them and ignore what follows. *)
Lemma log2_exact_Ok v e : log2_exact v = Ok e <-> is_pow2 v = true /\ e = trailing_zeros v.
Proof.
  unfold log2_exact. destruct (is_pow2 v); cbn; split; [intros [= <-]; auto|intros [_ ->]; reflexivity|discriminate|].
  intros [? _]. discriminate.
Qed.

Lemma encode_units_Ok l out :
  encode_units l = Ok out <-> Forall (fun u => is_pow2 (u_value u) = true) l /\ out = concat (map unit_bytes l).
Proof.
  revert out. induction l as [|u l IH]; intros out; cbn [encode_units map concat].
  - split; [intros [= <-]; auto|intros [_ ->]; reflexivity].
  - rewrite res_bind_Ok. split.
    + intros (e & HE & E). apply log2_exact_Ok in HE as [HP ->]. repeat ok_step. subst out.
      match goal with X : encode_units _ = Ok _ |- _ => apply IH in X as [HF ->] end.
      split; [constructor; assumption|]. unfold unit_bytes at 2. rewrite <- !app_assoc. reflexivity.
    + intros [HF ->]. inversion HF as [|? ? HP Hl]; subst. exists (trailing_zeros (u_value u)).
      split; [apply log2_exact_Ok; auto|]. rewrite (proj2 (IH _) (conj Hl eq_refl)). cbn [mbind res_bind].
      unfold unit_bytes at 2. rewrite <- !app_assoc. reflexivity.
Qed.

Lemma encode_maker_bytes m : maker_fits m -> encode_maker m = Ok (maker_bytes m).
Proof.
  intros (_ & HL & HF). unfold encode_maker, maker_bytes.
  rewrite (proj2 (Z.eqb_neq _ _)), (proj2 (Z.ltb_ge _ _)) by lia. cbn [orb bail_if mbind res_bind].
  rewrite (proj2 (encode_units_Ok (units m) (concat (map unit_bytes (units m))))); [reflexivity|]. split; [|reflexivity].
  eapply Forall_impl; [exact HF|]. intros u Hu. apply Hu.
Qed.

Lemma encode_taker_bytes t : taker_fits t -> encode_taker t = Ok (taker_bytes t).
Proof.
  intros (_ & HP & _). unfold encode_taker. rewrite (proj2 (log2_exact_Ok _ _) (conj HP eq_refl)). reflexivity.
Qed.

Lemma magic_checked {n} (m : arr n) : bool_decide (m = m) = true.
Proof. apply bool_decide_true. reflexivity. Qed.

Lemma decode_maker_Some b m :
  decode_maker b = Some m <-> maker_fits m /\ exists rest, b = maker_bytes m ++ rest.
Proof.
  unfold decode_maker, maker_bytes. split.
  - intros E. next_in. simplify_eq.
    match goal with X : decode_units _ _ _ = _ |- _ => apply decode_units_Some in X as (HL & HF & -> & El) end.
    match goal with X : fits u8 ?n, Y : ?n <> 0 |- _ =>
      assert (HN : 0 < n < 256) by (cbn in X; lia); assert (EN : Z.of_nat (length l) = n) by lia end.
    cbn [maker_evm_addr maker_mds_pk m_timeout_height m_group_id units].
    split; [split; [assumption|split; [cbn [units]; lia|exact HF]]|].
    eexists. change b with (drop 0 b) at 1. rewrite EN. read_chain.
  - destruct m as [evm pk th gid l]. cbn [maker_evm_addr maker_mds_pk m_timeout_height m_group_id units].
    intros ((HT & HL & HF) & rest & E). cbn [m_timeout_height units] in *.
    change (drop 0 b = (put (raw 4) ANN_MAGIC ++ put u8 ANN_VER ++ put (raw 20) evm ++ put id32 pk ++ put u64 th
      ++ put (raw 6) gid ++ put u8 (Z.of_nat (length l)) ++ concat (map unit_bytes l)) ++ rest) in E.
    rewrite <- !app_assoc in E.
    assert (HV : fits u8 ANN_VER) by (unfold ANN_VER; cbn; lia).
    assert (HC : fits u8 (Z.of_nat (length l))) by (cbn; lia).
    next_step. rewrite magic_checked. cbn [require mbind option_bind]. do 6 next_step.
    rewrite (proj2 (Z.eqb_neq _ _)) by lia. cbn [negb require mbind option_bind]. rewrite Nat2Z.id.
    match goal with X : drop ?o b = _ |- _ =>
      rewrite (proj2 (decode_units_Some b (length l) o l (o + length l * 81)%nat)) end; [reflexivity|].
    split; [reflexivity|]. split; [exact HF|]. split; [reflexivity|].
    match goal with X : drop ?o b = _ |- _ =>
      rewrite X; f_equal; symmetry; replace (length l * 81)%nat with (length (concat (map unit_bytes l))); [apply drop_after, X|] end.
    clear. induction l as [|u l IH]; [reflexivity|]. cbn [map concat length]. rewrite length_app, length_unit_bytes, IH. lia.
Qed.

Lemma decode_taker_Some b t :
  decode_taker b = Some t <-> taker_fits t /\ exists rest, b = taker_bytes t ++ rest.
Proof.
  unfold decode_taker, taker_bytes. split.
  - intros E. next_in. simplify_eq.
    match goal with X : fits u8 ?z, Y : (?z <? 64) = true |- _ => destruct (exponent_fits z X Y) as (P1 & P2 & P3) end.
    unfold taker_fits. cbn [taker_mds_pk t_secret_hash t_salt receiver_addr t_timeout_height t_value t_wei_amount].
    split; [split; [assumption|split; [exact P1|split; [exact P2|assumption]]]|].
    eexists. change b with (drop 0 b) at 1. rewrite P3. read_chain.
  - destruct t as [pk h s r th v w]. unfold taker_fits.
    cbn [taker_mds_pk t_secret_hash t_salt receiver_addr t_timeout_height t_value t_wei_amount].
    intros ((HT & HP & HV & HW) & rest & E). destruct (exponent_byte v HP HV) as (P1 & P2 & P3).
    rewrite <- !app_assoc in E. assert (HR : fits u8 TAKER_VER) by (unfold TAKER_VER; cbn; lia).
    match type of E with _ = ?m => change (drop 0 b = m) in E end.
    next_step. rewrite magic_checked. cbn [require mbind option_bind]. do 7 next_step.
    rewrite P2. cbn [require mbind option_bind]. next_step. rewrite P3. reflexivity.
Qed.

(** * Fragments *)

Definition fragment_bytes (group_id : arr 6) (total : nat) (chunk : bytes) (i : nat) : bytes :=
  put (raw 4) FRAG_MAGIC ++ put (raw 6) group_id ++ put u8 (Z.of_nat i) ++ put u8 (Z.of_nat total) ++ chunk.

Definition chunk (body : bytes) (i : nat) : bytes := take FRAG_PAYLOAD_BYTES (drop (i * FRAG_PAYLOAD_BYTES) body).

Definition fragment_count (body : bytes) : nat := Nat.max 1 (div_ceil (length body) FRAG_PAYLOAD_BYTES).

#[local] Arguments FRAG_PAYLOAD_BYTES : simpl never.
Lemma payload_68 : FRAG_PAYLOAD_BYTES = 68%nat.
Proof. reflexivity. Qed.

Lemma chunks_take body n : concat (map (chunk body) (seq 0 n)) = take (n * FRAG_PAYLOAD_BYTES) body.
Proof.
  induction n as [|n IH]; [reflexivity|]. rewrite seq_S, map_app, concat_app, IH. cbn [map concat Nat.add].
  rewrite app_nil_r. unfold chunk. replace (S n * FRAG_PAYLOAD_BYTES)%nat with (n * FRAG_PAYLOAD_BYTES + FRAG_PAYLOAD_BYTES)%nat by lia.
  rewrite <- (take_drop (n * FRAG_PAYLOAD_BYTES) (take (_ + _) body)), take_take, Nat.min_l by lia.
  f_equal. rewrite skipn_firstn_comm. f_equal. lia.
Qed.

Lemma fragment_count_bounds body :
  (length body <= fragment_count body * FRAG_PAYLOAD_BYTES)%nat
  /\ (forall i, (i < fragment_count body)%nat -> body <> [] -> (i * FRAG_PAYLOAD_BYTES < length body)%nat).
Proof.
  unfold fragment_count, div_ceil. rewrite payload_68.
  pose proof (Nat.div_mod_eq (length body + 68 - 1) 68) as HD.
  pose proof (Nat.mod_upper_bound (length body + 68 - 1) 68 ltac:(lia)) as HM.
  set (q := ((length body + 68 - 1) / 68)%nat) in *. split; [lia|].
  intros i Hi HB. assert (length body <> 0%nat) by (destruct body; [congruence|discriminate]). lia.
Qed.

Lemma fragments_from_Ok body group_id total ix :
  (forall i, i ∈ ix -> (i * FRAG_PAYLOAD_BYTES <= length body)%nat) ->
  fragments_from body (arr_list group_id) total ix
  = Ok (map (fun i => fragment_bytes group_id total (chunk body i) i) ix).
Proof.
  induction ix as [|i ix IH]; intros HI; [reflexivity|]. cbn [fragments_from map].
  assert (Hi : (i * FRAG_PAYLOAD_BYTES <= length body)%nat) by (apply HI; left).
  rewrite slice_Ok by lia. cbn [mbind res_bind]. rewrite IH by (intros j Hj; apply HI; right; exact Hj).
  cbn [mbind res_bind]. unfold fragment_bytes, chunk.
  match goal with |- Ok ((_ ++ _ ++ _ ++ _ ++ ?c) :: _) = Ok ((_ ++ _ ++ _ ++ _ ++ ?d) :: _) =>
    enough (E : c = d) by (rewrite E; reflexivity) end.
  rewrite payload_68 in *. destruct (Nat.le_gt_cases ((i + 1) * 68) (length body)) as [HB|HB].
  - f_equal. lia.
  - rewrite !take_ge; [reflexivity|rewrite length_drop; lia..].
Qed.

Lemma fragment_Ok body group_id : (fragment_count body <= 255)%nat ->
  fragment body group_id
  = Ok (map (fun i => fragment_bytes group_id (fragment_count body) (chunk body i) i) (seq 0 (fragment_count body))).
Proof.
  intros HC. unfold fragment. fold (fragment_count body). rewrite (proj2 (Nat.ltb_ge _ _) HC). cbn [bail_if mbind res_bind].
  apply fragments_from_Ok. intros i Hi. apply elem_of_seq in Hi as [_ Hi].
  destruct (decide (body = [])) as [->|HB]; [|apply Nat.lt_le_incl, (proj2 (fragment_count_bounds body)); [exact Hi|exact HB]].
  assert (E : fragment_count [] = 1%nat) by reflexivity. rewrite E in Hi. cbn. replace i with 0%nat by lia. lia.
Qed.

Lemma parse_fragment_bytes group_id total c i : (i < total <= 255)%nat -> c <> [] ->
  parse_fragment (fragment_bytes group_id total c i) = Ok (mkFragment group_id (Z.of_nat i) (Z.of_nat total) c).
Proof.
  intros HI HC. assert (0 < length c)%nat by (destruct c; [congruence|cbn; lia]).
  assert (H1 : fits u8 (Z.of_nat i)) by (cbn; lia). assert (H2 : fits u8 (Z.of_nat total)) by (cbn; lia).
  set (b := fragment_bytes group_id total c i).
  assert (E : drop 0 b = put (raw 4) FRAG_MAGIC ++ put (raw 6) group_id ++ put u8 (Z.of_nat i) ++ put u8 (Z.of_nat total) ++ c)
    by reflexivity.
  assert (EL : length b = (12 + length c)%nat) by (unfold b, fragment_bytes; rewrite !length_app, !put_length; reflexivity).
  unfold parse_fragment. rewrite EL, (proj2 (Nat.leb_gt _ _)) by (unfold FRAG_HEADER_BYTES; lia).
  cbn [bail_if mbind res_bind]. clearbody b. read_next. rewrite magic_checked. cbn [negb bail_if mbind res_bind].
  do 3 read_next. rewrite (proj2 (Z.eqb_neq _ _)), (proj2 (Z.leb_gt _ _)) by lia. cbn [orb bail_if mbind res_bind].
  match goal with X : drop _ b = c |- _ => rewrite <- X end. reflexivity.
Qed.

(** A fragment is no announcement: the magic differs. *)
Lemma fragment_not_announcement group_id total c i :
  decode_taker (fragment_bytes group_id total c i) = None
  /\ decode_maker (fragment_bytes group_id total c i) = None.
Proof.
  set (b := fragment_bytes group_id total c i).
  assert (E : drop 0 b = put (raw 4) FRAG_MAGIC ++ put (raw 6) group_id ++ put u8 (Z.of_nat i) ++ put u8 (Z.of_nat total) ++ c)
    by reflexivity.
  unfold decode_taker, decode_maker. split; next_step; reflexivity.
Qed.

(** * The pool *)

Section Reassembly.
Context (body : bytes) (group_id : arr 6) (pool0 : FragmentPool).

Let total : nat := fragment_count body.
Let key : Group := (group_id, Z.of_nat total).
Let chunks : list bytes := map (chunk body) (seq 0 total).

Definition slots_of (done : list nat) : list (option bytes) :=
  imap (fun i c => if bool_decide (i ∈ done) then Some c else None) chunks.

Lemma lookup_slots done i : (i < total)%nat ->
  slots_of done !! i = Some (if bool_decide (i ∈ done) then Some (chunk body i) else None).
Proof.
  intros HI. unfold slots_of, chunks. rewrite list_lookup_imap, list_lookup_fmap, lookup_seq_lt by exact HI. reflexivity.
Qed.

Lemma length_slots done : length (slots_of done) = total.
Proof. unfold slots_of, chunks. rewrite length_imap, length_map. apply length_seq. Qed.

Lemma slots_new : replicate total None = slots_of [].
Proof.
  apply list_eq. intros i. destruct (Nat.lt_ge_cases i total) as [HI|HI].
  - rewrite lookup_slots by exact HI. rewrite lookup_replicate_2 by exact HI. reflexivity.
  - rewrite !lookup_ge_None_2; [reflexivity|rewrite length_slots; exact HI|rewrite length_replicate; exact HI].
Qed.

Lemma slots_add done i : (i < total)%nat -> <[i := Some (chunk body i)]> (slots_of done) = slots_of (i :: done).
Proof.
  intros HI. apply list_eq. intros j. destruct (Nat.lt_ge_cases j total) as [HJ|HJ].
  - rewrite (lookup_slots (i :: done)) by exact HJ. destruct (decide (i = j)) as [->|HN].
    + rewrite list_lookup_insert_eq by (rewrite length_slots; exact HJ).
      rewrite bool_decide_true by left. reflexivity.
    + rewrite list_lookup_insert_ne, lookup_slots by (exact HN || exact HJ). f_equal.
      rewrite (bool_decide_ext (j ∈ i :: done) (j ∈ done)); [reflexivity|]. rewrite elem_of_cons. intuition congruence.
  - rewrite !lookup_ge_None_2; [reflexivity|rewrite length_slots; exact HJ|rewrite length_insert, length_slots; exact HJ].
Qed.

Lemma slots_full done : (forall i, (i < total)%nat -> i ∈ done) -> slots_of done = map Some chunks.
Proof.
  intros HD. apply list_eq. intros i. rewrite list_lookup_fmap.
  destruct (Nat.lt_ge_cases i total) as [HI|HI].
  - rewrite lookup_slots, bool_decide_true by auto. unfold chunks.
    rewrite list_lookup_fmap, lookup_seq_lt by exact HI. reflexivity.
  - rewrite lookup_ge_None_2 by (rewrite length_slots; exact HI). unfold chunks.
    rewrite lookup_ge_None_2; [reflexivity|]. rewrite length_map, length_seq. exact HI.
Qed.

Lemma body_of_slots done : (forall i, (i < total)%nat -> i ∈ done) ->
  existsb (fun s => bool_decide (s = None)) (slots_of done) = false
  /\ concat (map (default []) (slots_of done)) = body.
Proof.
  intros HD. rewrite slots_full by exact HD. split.
  - apply not_true_iff_false. rewrite existsb_exists. intros (s & Hs & E). apply bool_decide_eq_true in E as ->.
    apply in_map_iff in Hs as (? & ? & _). discriminate.
  - rewrite map_map. cbn [default from_option id]. rewrite map_id. unfold chunks. rewrite chunks_take.
    apply take_ge, fragment_count_bounds.
Qed.

Lemma missing_slot done i : (i < total)%nat -> i ∉ done ->
  existsb (fun s => bool_decide (s = None)) (slots_of done) = true.
Proof.
  intros HI HN. apply existsb_exists. exists None. split; [|reflexivity].
  apply list_elem_of_In, (list_elem_of_lookup_2 _ i). rewrite lookup_slots, bool_decide_false by assumption. reflexivity.
Qed.

(** The pool after the fragments [done], in any order: the group is there exactly
    while some are missing. *)
Definition pool_after (done : list nat) : FragmentPool :=
  match done with [] => pool0 | _ => <[key := slots_of done]> pool0 end.

Context (Hfresh : pool0 !! key = None) (Hcount : (total <= 255)%nat) (Hbody : body <> []).

Lemma group_slots done : default (replicate (Z.to_nat (Z.of_nat total)) None) (pool_after done !! key) = slots_of done.
Proof.
  rewrite Nat2Z.id. destruct done as [|j done]; cbn [pool_after].
  - rewrite Hfresh. apply slots_new.
  - rewrite lookup_insert_eq. reflexivity.
Qed.

Lemma pool_add_fragment done i : (i < total)%nat ->
  pool_add (pool_after done) (mkFragment group_id (Z.of_nat i) (Z.of_nat total) (chunk body i))
  = if existsb (fun s => bool_decide (s = None)) (slots_of (i :: done)) then Ok (None, pool_after (i :: done))
    else Ok (Some body, pool0).
Proof.
  intros HI. unfold pool_add. cbn [f_group_id f_total f_idx f_chunk]. fold key. rewrite group_slots, Nat2Z.id.
  rewrite (proj2 (Nat.ltb_lt _ _)) by (rewrite length_slots; exact HI). rewrite slots_add by exact HI.
  destruct (existsb _ _) eqn:EX.
  - destruct done as [|j done]; cbn [pool_after]; [reflexivity|]. rewrite insert_insert_eq. reflexivity.
  - assert (HF : forall j, (j < total)%nat -> j ∈ i :: done).
    { intros j HJ. destruct (decide (j ∈ i :: done)) as [Hj|Hj]; [exact Hj|].
      rewrite (missing_slot _ j HJ Hj) in EX. discriminate. }
    rewrite (proj2 (body_of_slots _ HF)). do 2 f_equal. destruct done as [|j done]; cbn [pool_after].
    + apply delete_id, Hfresh.
    + rewrite delete_insert_eq. apply delete_id, Hfresh.
Qed.

Lemma ingest_fragment done i : (i < total)%nat ->
  ingest (fragment_bytes group_id total (chunk body i) i) (pool_after done)
  = if existsb (fun s => bool_decide (s = None)) (slots_of (i :: done)) then Ok (None, pool_after (i :: done))
    else Ok (match decode_maker body with Some m => Some (Maker m) | None => Taker <$> decode_taker body end, pool0).
Proof.
  intros HI. unfold ingest. destruct (fragment_not_announcement group_id total (chunk body i) i) as [-> ->].
  rewrite parse_fragment_bytes; [|lia|].
  2: { intros EC. apply (f_equal length) in EC. unfold chunk in EC. rewrite length_take, length_drop, payload_68 in EC.
       pose proof (proj2 (fragment_count_bounds body) i HI Hbody) as HB. rewrite payload_68 in HB. change (@length byte []) with 0%nat in EC. clear - EC HB. lia. }
  rewrite pool_add_fragment by exact HI. destruct (existsb _ _); [reflexivity|].
  cbn [mbind res_bind]. destruct (decode_maker body); reflexivity.
Qed.

Lemma ingest_all_fragments todo : forall done,
  done ++ todo ≡ₚ seq 0 total -> todo <> [] ->
  ingest_all (map (fun i => fragment_bytes group_id total (chunk body i) i) todo) (pool_after done)
  = Ok (replicate (length todo - 1) None
        ++ [match decode_maker body with Some m => Some (Maker m) | None => Taker <$> decode_taker body end], pool0).
Proof.
  induction todo as [|i todo IH]; intros done HP HT; [congruence|]. cbn [map ingest_all].
  assert (HIn : forall j, j ∈ done ++ i :: todo <-> (j < total)%nat).
  { intros j. rewrite HP, elem_of_seq. lia. }
  assert (HND : NoDup (done ++ i :: todo)) by (rewrite HP; apply NoDup_seq).
  assert (HI : (i < total)%nat) by (apply HIn; rewrite elem_of_app; right; left).
  rewrite ingest_fragment by exact HI. destruct todo as [|k todo].
  - assert (HF : forall j, (j < total)%nat -> j ∈ i :: done).
    { intros j HJ. apply HIn in HJ. rewrite elem_of_app, list_elem_of_singleton in HJ. rewrite elem_of_cons. tauto. }
    rewrite (proj1 (body_of_slots _ HF)). reflexivity.
  - rewrite (missing_slot (i :: done) k).
    + cbn [mbind res_bind]. rewrite IH; [|rewrite <- HP; cbn; apply Permutation_middle|discriminate].
      cbn [mbind res_bind length Nat.sub]. rewrite Nat.sub_0_r. reflexivity.
    + apply HIn. rewrite elem_of_app. right; right; left.
    + apply NoDup_app in HND as (_ & HD & HN2). intros HK. apply elem_of_cons in HK as [->|HK].
      * apply NoDup_cons in HN2 as [HN2 _]. apply HN2. left.
      * apply (HD k HK). right. left.
Qed.

End Reassembly.

(** * Announcements *)

Definition MAX_PUBLISHED_UNITS : nat := 213.

Lemma length_units l : length (concat (map unit_bytes l)) = (length l * 81)%nat.
Proof.
  induction l as [|u l IH]; [reflexivity|]. cbn [map concat length]. rewrite length_app, length_unit_bytes, IH. lia.
Qed.

Lemma length_maker_bytes m : length (maker_bytes m) = (72 + length (units m) * 81)%nat.
Proof. unfold maker_bytes. rewrite !length_app, !put_length, length_units. reflexivity. Qed.

Lemma length_taker_bytes t : length (taker_bytes t) = 158%nat.
Proof. unfold taker_bytes. rewrite !length_app, !put_length. reflexivity. Qed.

Lemma fragment_count_small body n : (length body <= n * 68)%nat -> (1 <= n)%nat -> (fragment_count body <= n)%nat.
Proof.
  intros HL HN. unfold fragment_count, div_ceil. rewrite payload_68. apply Nat.max_lub; [exact HN|].
  apply Nat.lt_succ_r, Nat.Div0.div_lt_upper_bound. lia.
Qed.

Lemma length_fragment group_id total body i :
  (length (fragment_bytes group_id total (chunk body i) i) <= MAX_BURN_DATA_SIZE)%nat.
Proof.
  unfold fragment_bytes, chunk. rewrite !length_app, !put_length, length_take, payload_68.
  change (width u8) with 1%nat. cbn [width raw]. unfold MAX_BURN_DATA_SIZE. lia.
Qed.

(** What publishing [body] as burns, in one or several transactions and in any
    order, gives a scanner whose pool has no such group. *)
Definition republished (body : bytes) (group_id : arr 6) (a : Announcement) : Prop :=
  exists frags, fragment body group_id = Ok frags
  /\ Forall (fun f => (length f <= MAX_BURN_DATA_SIZE)%nat) frags
  /\ forall pool payloads, pool !! (group_id, Z.of_nat (length frags)) = None -> payloads ≡ₚ frags ->
       ingest_all payloads pool = Ok (replicate (length frags - 1) None ++ [Some a], pool).

Lemma republish body group_id a :
  (1 <= length body <= 255 * 68)%nat ->
  match decode_maker body with Some m => Some (Maker m) | None => Taker <$> decode_taker body end = Some a ->
  republished body group_id a.
Proof.
  intros HL HD. assert (HC : (fragment_count body <= 255)%nat) by (apply fragment_count_small; lia).
  eexists. split; [apply fragment_Ok, HC|]. split; [apply Forall_map, Forall_forall; intros i _; apply length_fragment|].
  intros pool payloads HF HP. rewrite length_map, length_seq in *.
  apply Permutation_map_inv in HP as (ix & -> & HP).
  assert (EN : length ix = fragment_count body) by (rewrite <- (Permutation_length HP); apply length_seq).
  pose proof (ingest_all_fragments body group_id pool HF HC) as HI. rewrite HD, <- EN in *.
  apply (HI ltac:(intros ->; cbn in HL; lia) ix []); [symmetry; exact HP|].
  intros ->. cbn in EN. unfold fragment_count in EN. lia.
Qed.

(** C40: an order announcement survives publication.  What decodes as a maker's or a
    taker's announcement is exactly what its encoder writes, with bytes that follow
    ignored; and the fragments of an announcement of at most 213 units (or of a
    taker's), each within the size of a burn, yield it from a pool that does not
    know their group exactly at the last of them, in whatever order they arrive,
    and leave the pool as it was. *)
Theorem announcement_recovered :
  (forall b m, decode_maker b = Some m <->
     maker_fits m /\ exists body rest, encode_maker m = Ok body /\ b = body ++ rest)
  /\ (forall b t, decode_taker b = Some t <->
     taker_fits t /\ exists body rest, encode_taker t = Ok body /\ b = body ++ rest)
  /\ (forall m, maker_fits m -> (length (units m) <= MAX_PUBLISHED_UNITS)%nat ->
       exists body, encode_maker m = Ok body /\ republished body (m_group_id m) (Maker m))
  /\ (forall t group_id, taker_fits t ->
       exists body, encode_taker t = Ok body /\ republished body group_id (Taker t)).
Proof.
  split; [|split; [|split]].
  - intros b m. rewrite decode_maker_Some. split; intros [HF HE]; (split; [exact HF|]).
    + destruct HE as [rest ->]. exists (maker_bytes m), rest. split; [apply encode_maker_bytes, HF|reflexivity].
    + destruct HE as (body & rest & HE & ->). rewrite (encode_maker_bytes m HF) in HE. injection HE as <-. eauto.
  - intros b t. rewrite decode_taker_Some. split; intros [HF HE]; (split; [exact HF|]).
    + destruct HE as [rest ->]. exists (taker_bytes t), rest. split; [apply encode_taker_bytes, HF|reflexivity].
    + destruct HE as (body & rest & HE & ->). rewrite (encode_taker_bytes t HF) in HE. injection HE as <-. eauto.
  - intros m HF HU. exists (maker_bytes m). split; [apply encode_maker_bytes, HF|].
    apply republish; [rewrite length_maker_bytes; unfold MAX_PUBLISHED_UNITS in HU; lia|].
    rewrite (proj2 (decode_maker_Some _ m)); [reflexivity|]. split; [exact HF|]. exists []. symmetry. apply app_nil_r.
  - intros t gid HF. exists (taker_bytes t). split; [apply encode_taker_bytes, HF|].
    apply republish; [rewrite length_taker_bytes; lia|].
    rewrite (proj2 (decode_taker_Some _ t)); [|split; [exact HF|]; exists []; symmetry; apply app_nil_r].
    destruct (decode_maker (taker_bytes t)) as [m|] eqn:EM; [|reflexivity].
    apply decode_maker_Some in EM as (_ & rest & EM). apply (f_equal (take 4)) in EM.
    unfold taker_bytes, maker_bytes in EM. cbn in EM. discriminate.
Qed.

(** The encoder takes up to 255 units, but more than 213 make more fragments than the
    format can number. *)
Lemma too_many_units_to_publish m : maker_fits m -> (MAX_PUBLISHED_UNITS < length (units m))%nat ->
  encode_maker m = Ok (maker_bytes m) /\ fragment (maker_bytes m) (m_group_id m) = Err TooManyFragments.
Proof.
  intros HF HU. split; [apply encode_maker_bytes, HF|]. unfold fragment. fold (fragment_count (maker_bytes m)).
  pose proof (proj1 (fragment_count_bounds (maker_bytes m))) as HB. rewrite length_maker_bytes, payload_68 in HB.
  unfold MAX_PUBLISHED_UNITS in HU. rewrite (proj2 (Nat.ltb_lt _ _)) by lia. reflexivity.
Qed.

Lemma announcement_recovered_witness :
  let m := mkMaker (zero_arr 20) (zero_arr 32) 250000 (zero_arr 6) [mkAnnUnit (zero_arr 32) (zero_arr 32) 1024 7] in
  exists body, encode_maker m = Ok body /\ republished body (zero_arr 6) (Maker m).
Proof.
  intros m. apply (proj1 (proj2 (proj2 announcement_recovered)) m).
  - unfold m. split; [split; [discriminate|reflexivity]|]. split; [cbn; lia|].
    repeat constructor; discriminate.
  - cbn. unfold MAX_PUBLISHED_UNITS. lia.
Defined.

(** * Spending a limit order *)

Section Orders.
Context `{Blake3}.
Context (usize_bits : Z).

(** The claim input runs in every transaction that pays no more to the covenant than
    leaves the sum in range; the reclaim input once the order has timed out. *)
Lemma limit_claim_runs secret_hash max_claim timeout (refund_pk : hash32) value salt preimage i w ctx s :
  in_u 64 timeout -> in_u 64 max_claim -> in_u 64 (input_value ctx) -> outputs_ok ctx -> input_value ctx = value ->
  paid_to ctx (this_address ctx) = Some s -> s + max_claim <= umax 64 -> 0 <= s ->
  limit_claim_input secret_hash max_claim timeout refund_pk value salt preimage = Ok (i, ScriptInputs w) ->
  execute_script usize_bits (compile_limit_order_covenant secret_hash max_claim timeout refund_pk) w ctx = Ok ().
Proof.
  intros HT HM HI HO <- HP HS H0 E. unfold limit_claim_input in E. repeat ok_step. subst.
  match goal with X : negb _ = false, Y : (_ <? _) = false |- _ =>
    apply negb_false_iff, bool_decide_eq_true in X; apply Z.ltb_ge in Y end.
  apply limit_order_runs; try assumption. left. exists (arr_list preimage), [x01].
  split; [reflexivity|]. split; [rewrite arr_length; unfold MAX_ITEM_SIZE; lia|].
  split; [unfold MAX_ITEM_SIZE; cbn; lia|]. split; [reflexivity|]. split; [assumption|].
  exists s. split; [exact HP|]. split; [exact HS|]. lia.
Qed.

Lemma limit_reclaim_runs secret_hash max_claim timeout (refund_pk : hash32) value salt sig i w ctx :
  in_u 64 timeout -> in_u 64 max_claim -> in_u 64 (input_value ctx) -> outputs_ok ctx ->
  timeout <= ctx_height ctx -> sig_ok sig (commitment ctx) refund_pk = true -> (length sig <= MAX_ITEM_SIZE)%nat ->
  limit_reclaim_input secret_hash max_claim timeout refund_pk value salt sig = Ok (i, ScriptInputs w) ->
  execute_script usize_bits (compile_limit_order_covenant secret_hash max_claim timeout refund_pk) w ctx = Ok ().
Proof.
  intros HT HM HI HO HL HS HG E. unfold limit_reclaim_input in E. repeat ok_step. subst.
  apply limit_order_runs; try assumption. right. exists sig, (replicate 32 x00), [x00].
  split; [reflexivity|]. split; [exact HG|]. unfold MAX_ITEM_SIZE.
  split; [cbn; lia|]. split; [cbn; lia|]. auto.
Qed.

End Orders.

(** * The pool keeps its shape *)

(** Every group has as many slots as it says, one of them still empty and one filled. *)
Definition group_ok (key : Group) (slots : list (option bytes)) : Prop :=
  1 <= key.2 < 256 /\ length slots = Z.to_nat key.2 /\ None ∈ slots /\ exists c, Some c ∈ slots.

Definition pool_ok (pool : FragmentPool) : Prop := map_Forall group_ok pool.

Lemma parse_fragment_safe b : parse_fragment b <> Panic.
Proof.
  unfold parse_fragment, FRAG_HEADER_BYTES. apply bind_safe; [apply bail_if_safe|]. intros [] E.
  apply bail_if_Ok, Nat.leb_gt in E. reads_are_safe.
Qed.

Lemma parse_fragment_range b f : parse_fragment b = Ok f -> 0 <= f_idx f < f_total f /\ 1 <= f_total f < 256.
Proof.
  unfold parse_fragment. intros E. reads_in. subst f. cbn [f_idx f_total].
  match goal with X : (_ || _) = false |- _ => apply orb_false_iff in X as [X%Z.eqb_neq Y%Z.leb_gt] end.
  cbn in *. lia.
Qed.

Lemma pool_add_ok pool f : pool_ok pool -> 0 <= f_idx f < f_total f -> 1 <= f_total f < 256 ->
  exists r pool', pool_add pool f = Ok (r, pool') /\ pool_ok pool'.
Proof.
  intros HP HI HT. unfold pool_add. set (key := (f_group_id f, f_total f)).
  set (slots := default _ (pool !! key)).
  assert (HL : length slots = Z.to_nat (f_total f)).
  { unfold slots. destruct (pool !! key) as [s|] eqn:EK; cbn [default from_option id].
    - apply HP in EK as (_ & EK & _). exact EK.
    - apply length_replicate. }
  rewrite (proj2 (Nat.ltb_lt _ _)) by lia. destruct (existsb _ _) eqn:EX.
  - do 2 eexists. split; [reflexivity|]. apply map_Forall_insert_2; [|exact HP].
    split; [exact HT|]. split; [rewrite length_insert; exact HL|]. split.
    + apply existsb_exists in EX as (s & Hs & Es). apply bool_decide_eq_true in Es as ->. apply list_elem_of_In, Hs.
    + exists (f_chunk f). apply (list_elem_of_lookup_2 _ (Z.to_nat (f_idx f))), list_lookup_insert_eq. lia.
  - do 2 eexists. split; [reflexivity|]. apply map_Forall_delete, HP.
Qed.

(** The fragment pool is well formed whatever is published: from a well-formed
    pool, such as the empty one, any sequence of payloads of any bytes is ingested
    without an abort, and the pool stays well formed, each group with exactly the
    slots it announces, at least one empty and one filled. *)
Lemma pool_well_formed payloads pool : pool_ok pool ->
  exists l pool', ingest_all payloads pool = Ok (l, pool') /\ length l = length payloads /\ pool_ok pool'.
Proof.
  revert pool. induction payloads as [|p payloads IH]; intros pool HP; cbn [ingest_all]; [eauto|].
  assert (HI : exists a pool', ingest p pool = Ok (a, pool') /\ pool_ok pool').
  { unfold ingest. destruct (decode_taker p); [eauto|]. destruct (decode_maker p); [eauto|].
    destruct (parse_fragment p) as [f| |] eqn:EF; [|eauto|apply parse_fragment_safe in EF; contradiction].
    destruct (parse_fragment_range _ _ EF) as [R1 R2]. destruct (pool_add_ok pool f HP R1 R2) as (r & pool' & -> & HP').
    cbn [mbind res_bind]. destruct r as [body|]; [destruct (decode_maker body)|]; eauto. }
  destruct HI as (a & pool' & -> & HP'). cbn [mbind res_bind]. destruct (IH pool' HP') as (l & pool'' & -> & HL & HP'').
  cbn [mbind res_bind]. exists (a :: l), pool''. split; [reflexivity|]. split; [cbn; lia|exact HP''].
Qed.

Lemma pool_well_formed_witness :
  exists l pool', ingest_all [[x01; x02]; fragment_bytes (zero_arr 6) 2 [x03] 1] pool_new = Ok (l, pool')
  /\ length l = 2%nat /\ pool_ok pool'.
Proof. apply (pool_well_formed [[x01; x02]; fragment_bytes (zero_arr 6) 2 [x03] 1] pool_new). apply map_Forall_empty. Defined.
