(* ===== verification/Wallet.v ===== *)
(** The wallet of [src/wallet/mod.rs] with the key derivation of
    [src/wallet/hd.rs]: its data, the crash-safe allocation of one-time keys, and the
    operations on keys and coins.  Coin selection is in [WalletSelect], spending in
    [WalletSpend].

    The wallet file is [w_disk]: [save] replaces it when the write succeeds and leaves
    it otherwise.  What the world decides is the class [WalletEnv], asked with a
    counter so that no two questions are the same: whether the lock file could be
    created, whether a write succeeded, random salts and seeds, shuffles, the iteration
    order of hash maps, the clock, and the checkpoint file of a key tree.  [w_handed] is a history variable: the one-time
    seeds derived and handed out so far, which no operation reads.  Encryption, labels
    and log messages are left out. *)
From Stdlib Require Import Strings.String.
From S2P Require Import Prelude Bytecode Types Wots Mss.

#[local] Open Scope Z_scope.

Record WalletKey : Type := mkWalletKey { k_seed : hash32; k_owner_pk : hash32; k_address : hash32 }.

Record LicenseMetadata : Type := mkLicense {
  issuer : hash32;
  fixed_royalty_fee : Z;
  min_height : Z;
  max_height : Z;
  archival_weight : Z;
  poaw_commitment : hash32;
  issuance_height : Z;
  nonce : arr 16
}.

Record WalletCoin : Type := mkWalletCoin {
  wc_seed : hash32;
  wc_owner_pk : hash32;
  wc_address : hash32;
  wc_value : Z;
  wc_salt : hash32;
  wc_coin_id : hash32;
  wots_signed : bool;
  wc_commitment : option hash32
}.

Record PendingCommit : Type := mkPending {
  pc_commitment : hash32;
  pc_salt : hash32;
  pc_input_coin_ids : list hash32;
  pc_outputs : list OutputData;
  pc_change_seeds : list (nat * hash32);
  pc_created_at : Z;
  pc_reveal_not_before : Z;
  pc_is_consolidate : bool
}.

Inductive HistoryKind : Type := Sent | Received | Mixed.

Record HistoryEntry : Type := mkHistory {
  hi_inputs : list hash32;
  hi_outputs : list hash32;
  hi_fee : Z;
  hi_timestamp : Z;
  hi_kind : HistoryKind
}.

Record WalletData : Type := mkWalletData {
  keys : list WalletKey;
  coins : list WalletCoin;
  mss_keys : list MssKeypair;
  pending : list PendingCommit;
  history : list HistoryEntry;
  wd_master_seed : option hash32;
  next_wots_index : Z;
  next_mss_index : Z;
  license_metadata : list (hash32 * LicenseMetadata)
}.

Definition wallet_empty (seed : option hash32) : WalletData := mkWalletData [] [] [] [] [] seed 0 0 [].

(** The wallet in memory, the coins known to be spent in this session, the file, and
    the number of questions asked of the environment. *)
Record World : Type := mkWorld {
  w_data : WalletData;
  known_spent : gset hash32;
  w_disk : WalletData;
  w_tick : nat;
  w_handed : list hash32
}.

Class WalletEnv : Type := {
  lock_free : nat -> bool;
  write_ok : nat -> bool;
  random : nat -> hash32;
  random64 : nat -> Z;
  shuffle : forall A, nat -> list A -> list A;
  group_order : nat -> list hash32 -> list hash32;
  mix_order : nat -> nat -> list Z -> list Z;
  clock : nat -> Z;
  checkpoint : nat -> hash32 -> option (list hash32)
}.
Arguments shuffle {_ A}.

(** [SliceRandom::shuffle] permutes, a hash map iterates over each key once, and a checkpoint file is one that an interrupted
    generation of the same tree left. *)
Class WalletEnvLaws `{Blake3} `{!WalletEnv} : Prop := {
  shuffle_perm A t (l : list A) : shuffle t l ≡ₚ l;
  group_order_perm t l : group_order t l ≡ₚ l;
  checkpoint_own t seed n : checkpoint_of seed n (checkpoint t seed)
}.

Inductive WalletError : Type :=
  | WalletLocked | WriteFailed | CoinAlreadyInWallet | KeyExhausted | AlreadySigned | KeyNotFound | CoinNotInWallet
  | CoSpendViolation | PendingNotFound | NotHd | HasSiblings | NoFeeCoin | MssFailed (e : MssError)
  | InsufficientFunds | InsufficientSpendable | Fragmented | AmountZero | FeeNotCovered | OutOfFuel.

Abbreviation WM := (ST World WalletError).

(** ** Field updates *)

Definition set_keys (l : list WalletKey) (d : WalletData) : WalletData :=
  mkWalletData l (coins d) (mss_keys d) (pending d) (history d) (wd_master_seed d) (next_wots_index d)
    (next_mss_index d) (license_metadata d).
Definition set_coins (l : list WalletCoin) (d : WalletData) : WalletData :=
  mkWalletData (keys d) l (mss_keys d) (pending d) (history d) (wd_master_seed d) (next_wots_index d)
    (next_mss_index d) (license_metadata d).
Definition set_mss (l : list MssKeypair) (d : WalletData) : WalletData :=
  mkWalletData (keys d) (coins d) l (pending d) (history d) (wd_master_seed d) (next_wots_index d)
    (next_mss_index d) (license_metadata d).
Definition set_pending (l : list PendingCommit) (d : WalletData) : WalletData :=
  mkWalletData (keys d) (coins d) (mss_keys d) l (history d) (wd_master_seed d) (next_wots_index d)
    (next_mss_index d) (license_metadata d).
Definition set_history (l : list HistoryEntry) (d : WalletData) : WalletData :=
  mkWalletData (keys d) (coins d) (mss_keys d) (pending d) l (wd_master_seed d) (next_wots_index d)
    (next_mss_index d) (license_metadata d).
Definition set_wots_index (i : Z) (d : WalletData) : WalletData :=
  mkWalletData (keys d) (coins d) (mss_keys d) (pending d) (history d) (wd_master_seed d) i
    (next_mss_index d) (license_metadata d).
Definition set_mss_index (i : Z) (d : WalletData) : WalletData :=
  mkWalletData (keys d) (coins d) (mss_keys d) (pending d) (history d) (wd_master_seed d) (next_wots_index d)
    i (license_metadata d).
Definition set_licenses (l : list (hash32 * LicenseMetadata)) (d : WalletData) : WalletData :=
  mkWalletData (keys d) (coins d) (mss_keys d) (pending d) (history d) (wd_master_seed d) (next_wots_index d)
    (next_mss_index d) l.

Definition on_data (f : WalletData -> WalletData) (w : World) : World :=
  mkWorld (f (w_data w)) (known_spent w) (w_disk w) (w_tick w) (w_handed w).

(** [self.data.x = ...]. *)
Definition update (f : WalletData -> WalletData) : WM () := modify (on_data f).
Definition data : WM WalletData := reads (fun w => Ok (w_data w)).
Definition fail_if (c : bool) (e : WalletError) : WM () := reads (fun _ => bail_if c e).
Definition fail {A} (e : WalletError) : WM A := reads (fun _ => Err e).

(** The next question to the environment. *)
Definition ask {A} (f : nat -> A) : WM A := fun w =>
  (Ok (f (w_tick w)), mkWorld (w_data w) (known_spent w) (w_disk w) (S (w_tick w)) (w_handed w)).

Section Wallet.
Context `{Blake3} `{!WalletEnv}.

(** ** The file and its lock *)

(** The guard is released on every return. *)
Definition acquire_lock : WM () :=
  free ← ask lock_free;
  fail_if (negb free) WalletLocked.

Definition save : WM () :=
  ok ← ask write_ok;
  _ ← fail_if (negb ok) WriteFailed;
  modify (fun w => mkWorld (w_data w) (known_spent w) (w_data w) (w_tick w) (w_handed w)).

(** A process that opens the file sees what was last written. *)
Definition open : WM () :=
  _ ← acquire_lock;
  modify (fun w => mkWorld (w_disk w) ∅ (w_disk w) (w_tick w) (w_handed w)).

(** ** Key derivation *)

Definition hd_wots_seed (master_seed : hash32) (index : Z) : hash32 :=
  blake3 (bstr "mirstat/wots/v1" ++ master_seed ++ le_bytes 8 index).
Definition hd_mss_seed (master_seed : hash32) (index : Z) : hash32 :=
  blake3 (bstr "mirstat/mss/v1" ++ master_seed ++ le_bytes 8 index).

Definition hand_out (seed : hash32) : WM () :=
  modify (fun w => mkWorld (w_data w) (known_spent w) (w_disk w) (w_tick w) (w_handed w ++ [seed])).

Definition allocate_next_wots_seed : WM hash32 :=
  _ ← acquire_lock;
  d ← data;
  match wd_master_seed d with
  | Some master =>
      let idx := next_wots_index d in
      _ ← update (set_wots_index (wrap 64 (idx + 1)));
      let seed := hd_wots_seed master idx in
      _ ← save;
      _ ← hand_out seed;
      mret seed
  | None => ask random
  end.

Definition allocate_next_mss_seed : WM hash32 :=
  _ ← acquire_lock;
  d ← data;
  match wd_master_seed d with
  | Some master =>
      let idx := next_mss_index d in
      _ ← update (set_mss_index (wrap 64 (idx + 1)));
      let seed := hd_mss_seed master idx in
      _ ← save;
      mret seed
  | None => ask random
  end.

(** ** Keys *)

Definition new_key (seed : hash32) : WalletKey :=
  let owner_pk := keygen seed in
  {| k_seed := seed; k_owner_pk := owner_pk; k_address := compute_address owner_pk |}.

Definition push_key (k : WalletKey) (d : WalletData) : WalletData := set_keys (keys d ++ [k]) d.

Definition generate_key : WM hash32 :=
  seed ← allocate_next_wots_seed;
  let k := new_key seed in
  _ ← update (push_key k);
  _ ← save;
  mret (k_address k).

Definition lift_mss {A} (m : res MssError A) : res WalletError A :=
  match m with Ok a => Ok a | Err e => Err (MssFailed e) | Panic => Panic end.

Definition generate_mss (height : nat) : WM hash32 :=
  seed ← allocate_next_mss_seed;
  saved ← ask checkpoint;
  keypair ← reads (fun _ => lift_mss (mss_keygen (saved seed) seed height));
  let address := compute_address (master_pk keypair) in
  _ ← update (fun d => set_mss (mss_keys d ++ [keypair]) d);
  _ ← save;
  mret address.

Definition restore_generate_keys (count : nat) : WM () :=
  d ← data;
  _ ← fail_if (negb (bool_decide (is_Some (wd_master_seed d)))) NotHd;
  _ ← times count (seed ← allocate_next_wots_seed; update (push_key (new_key seed)));
  save.

Definition mss_address (k : MssKeypair) : hash32 := compute_address (master_pk k).

(** Sorted and without repetition. *)
Definition watched_addresses (d : WalletData) : list hash32 :=
  merge_sort arr_le (remove_dups (map k_address (keys d) ++ map mss_address (mss_keys d))).

(** ** Coins *)

Definition find_coin (d : WalletData) (coin_id : hash32) : option WalletCoin :=
  snd <$> list_find (fun c => wc_coin_id c = coin_id) (coins d).

Definition find_mss (d : WalletData) (pk : hash32) : option MssKeypair :=
  snd <$> list_find (fun k => master_pk k = pk) (mss_keys d).

Definition has_coin (d : WalletData) (coin_id : hash32) : bool :=
  existsb (fun c => bool_decide (wc_coin_id c = coin_id)) (coins d).

Definition is_mss_address (d : WalletData) (a : hash32) : bool :=
  existsb (fun k => bool_decide (mss_address k = a)) (mss_keys d).

Definition coin_count (d : WalletData) : nat := length (coins d).
Definition total_value (d : WalletData) : Z := wrap 64 (sumZ (map wc_value (coins d))).

Definition wots_siblings (d : WalletData) (coin_id : hash32) : list hash32 :=
  match find_coin d coin_id with
  | None => []
  | Some coin =>
      if is_mss_address d (wc_address coin) then []
      else map wc_coin_id (filter (fun c => wc_address c = wc_address coin /\ wc_coin_id c <> coin_id) (coins d))
  end.

Definition scanned_coin_id (address : hash32) (value : Z) (salt : hash32) (commitment : option hash32) : hash32 :=
  match commitment with
  | Some c => blake3 (bstr "CONFIDENTIAL" ++ address ++ c ++ salt)
  | None => compute_coin_id address value salt
  end.

Definition push_coin (c : WalletCoin) (d : WalletData) : WalletData := set_coins (coins d ++ [c]) d.

(** [None]: already known, not ours, or at an address whose one-time key has signed. *)
Definition import_scanned (address : hash32) (value : Z) (salt : hash32) (commitment : option hash32)
    (d : WalletData) : option hash32 * WalletData :=
  let coin_id := scanned_coin_id address value salt commitment in
  let coin seed owner_pk commitment :=
    {| wc_seed := seed; wc_owner_pk := owner_pk; wc_address := address; wc_value := value; wc_salt := salt;
       wc_coin_id := coin_id; wots_signed := false; wc_commitment := commitment |} in
  if has_coin d coin_id then (None, d)
  else match list_find (fun k => k_address k = address) (keys d) with
  | Some (pos, k) =>
      (Some coin_id, push_coin (coin (k_seed k) (k_owner_pk k) commitment) (set_keys (delete pos (keys d)) d))
  | None =>
  match list_find (fun k => mss_address k = address) (mss_keys d) with
  | Some (_, k) => (Some coin_id, push_coin (coin (master_seed k) (master_pk k) commitment) d)
  | None =>
  match list_find (fun c => wc_address c = address) (coins d) with
  | Some (_, existing) =>
      if negb (is_mss_address d address) && wots_signed existing then (None, d)
      else (Some coin_id, push_coin (coin (wc_seed existing) (wc_owner_pk existing) (wc_commitment existing)) d)
  | None => (None, d)
  end end end.

Definition import_coin (seed : hash32) (value : Z) (salt : hash32) : WM hash32 :=
  let owner_pk := keygen seed in
  let address := compute_address owner_pk in
  let coin_id := compute_coin_id address value salt in
  d ← data;
  _ ← fail_if (has_coin d coin_id) CoinAlreadyInWallet;
  _ ← update (push_coin {| wc_seed := seed; wc_owner_pk := owner_pk; wc_address := address; wc_value := value;
                           wc_salt := salt; wc_coin_id := coin_id; wots_signed := false; wc_commitment := None |});
  _ ← update (fun d => set_keys (filter (fun k => k_address k <> address) (keys d)) d);
  _ ← save;
  mret coin_id.

Definition abandon_coins_at_address (address : hash32) : WM nat :=
  d ← data;
  let kept := filter (fun c => wc_address c <> address) (coins d) in
  let removed := (length (coins d) - length kept)%nat in
  _ ← update (set_coins kept);
  _ ← (if Nat.ltb 0 removed then save else mret ());
  mret removed.

(** ** Licenses *)

Definition store_license_metadata (coin_id : hash32) (m : LicenseMetadata) : WM () :=
  _ ← acquire_lock;
  _ ← update (fun d => set_licenses (filter (fun p => p.1 <> coin_id) (license_metadata d) ++ [(coin_id, m)]) d);
  save.

Definition get_license_metadata (d : WalletData) (coin_id : hash32) : option LicenseMetadata :=
  (fun p => p.2.2) <$> list_find (fun p => p.1 = coin_id) (license_metadata d).

Definition rekey_license_metadata (old_key new_coin_id : hash32) : WM () :=
  d ← data;
  match list_find (fun p => p.1 = old_key) (license_metadata d) with
  | Some (pos, (_, m)) =>
      _ ← update (set_licenses (delete pos (license_metadata d) ++ [(new_coin_id, m)]));
      save
  | None => mret ()
  end.

Definition build_pruning_license_covenant (issuer : hash32) (fixed_royalty_fee : Z) : bytes :=
  let bc := push_op [] OP_THIS_ADDRESS in
  let bc := push_int bc 0 in
  let bc := push_op bc OP_OUTPUT_ADDRESS in
  let bc := push_op bc OP_EQUALVERIFY in
  let bc := push_data bc issuer in
  let bc := push_op bc OP_SUM_TO_ADDR in
  let bc := push_int bc fixed_royalty_fee in
  let bc := push_op bc OP_GREATER_OR_EQUAL in
  let bc := push_op bc OP_VERIFY in
  let bc := push_data bc issuer in
  let bc := push_op bc OP_CHECKSIGVERIFY in
  push_int bc 1.

Definition mark_spent (ids : list hash32) (w : World) : World :=
  mkWorld (w_data w) (known_spent w ∪ list_to_set ids) (w_disk w) (w_tick w) (w_handed w).
Definition clear_spent_marks (w : World) : World := mkWorld (w_data w) ∅ (w_disk w) (w_tick w) (w_handed w).

Definition record_received (coin_ids : list hash32) (block_timestamp : Z) (d : WalletData) : WalletData :=
  match coin_ids with
  | [] => d
  | _ => set_history (history d ++ [mkHistory [] coin_ids 0 block_timestamp Received]) d
  end.

End Wallet.

(** * Invariants of the operations *)

#[export] Instance keeps_data I : Keeps I data.
Proof. intros w Hw. exact Hw. Qed.
#[export] Instance keeps_fail_if I c e : Keeps I (fail_if c e).
Proof. intros w Hw. exact Hw. Qed.
#[export] Instance keeps_fail I {A} e : Keeps I (fail e : WM A).
Proof. intros w Hw. exact Hw. Qed.
Lemma keeps_ask_bind I {A B} (f : nat -> A) (k : A -> WM B) :
  Keeps I (ask f) -> (forall t, Keeps I (k (f t))) -> Keeps I (ask f ≫= k).
Proof. intros Ha Hk w Hw. unfold mbind, st_bind, ask. apply Hk, (Ha w Hw). Qed.

(** An environment in which everything works. *)
Definition demo_env : WalletEnv := {|
  lock_free _ := true; write_ok _ := true; random t := arr_of 32 (be_bytes 4 (Z.of_nat t)); random64 _ := 0;
  shuffle _ _ l := l; group_order _ l := l; mix_order _ _ l := l; clock _ := 0; checkpoint _ _ := None
|}.

#[export] Instance demo_env_laws `{Blake3} : @WalletEnvLaws _ demo_env.
Proof. split; [reflexivity..|]. intros. exact I. Qed.
