(* ===== verification/WalletSelect.v ===== *)
(** Coin selection: [select_coins] of [src/wallet/mod.rs], against its contract: what
    it selects covers the target, fits in a transaction, and never splits the coins of
    a one-time address.

    [group_order] is the iteration order of the hash map of addresses and [mix i] the
    [i]-th shuffle; the contract holds for all of them. *)
From S2P Require Import Prelude Types Wots Mss Wallet.

#[local] Open Scope Z_scope.

Record Bundle : Type := mkBundle { bu_address : hash32; bu_coin_ids : list hash32; bu_total_value : Z }.

(** [slice::sort_by]: a stable sort. *)
Fixpoint insert_by {A} (leb : A -> A -> bool) (x : A) (l : list A) : list A :=
  match l with
  | [] => [x]
  | y :: l => if leb x y then x :: y :: l else y :: insert_by leb x l
  end.
Definition sort_by {A} (leb : A -> A -> bool) (l : list A) : list A := foldr (insert_by leb) [] l.

(** [Ord] on byte arrays and on [Option] of them. *)
Definition id_cmp (a b : hash32) : comparison :=
  if bytes_ltb a b then Lt else if bytes_ltb b a then Gt else Eq.
Definition first_cmp (a b : option hash32) : comparison :=
  match a, b with
  | None, None => Eq | None, Some _ => Lt | Some _, None => Gt
  | Some a, Some b => id_cmp a b
  end.

Definition then_with (a b : comparison) : comparison := match a with Eq => b | _ => a end.

(** By value per input, then by value, both descending; then by address and first coin. *)
Definition bundle_cmp (a b : Bundle) : comparison :=
  let n (x : Bundle) := Z.of_nat (length (bu_coin_ids x)) in
  let lhs := bu_total_value a * n b in
  let rhs := bu_total_value b * n a in
  then_with (rhs ?= lhs)
    (then_with (bu_total_value b ?= bu_total_value a)
       (then_with (id_cmp (bu_address a) (bu_address b)) (first_cmp (head (bu_coin_ids a)) (head (bu_coin_ids b))))).

Definition bundle_leb (a b : Bundle) : bool := match bundle_cmp a b with Gt => false | _ => true end.

Definition sat_sum (l : list Z) : Z := foldl (sat_add 64) 0 l.

Section Select.
Context `{Blake3}.
Context (group_order : list hash32 -> list hash32) (mix : nat -> list Z -> list Z).

(** The live coins of the wallet. *)
Definition available (d : WalletData) (live_coins : list hash32) : list WalletCoin :=
  filter (fun c => wc_coin_id c ∈ live_coins) (coins d).

Definition bundles (d : WalletData) (live_coins : list hash32) : list Bundle :=
  let live := available d live_coins in
  let reusable := filter (fun c => is_mss_address d (wc_address c) = true) live in
  let one_time := filter (fun c => is_mss_address d (wc_address c) = false) live in
  map (fun c => mkBundle (wc_address c) [wc_coin_id c] (wc_value c)) reusable
  ++ map (fun addr =>
            let group := filter (fun c => wc_address c = addr) one_time in
            mkBundle addr (map wc_coin_id group) (sat_sum (map wc_value group)))
       (group_order (remove_dups (map wc_address one_time))).

Definition fits_in_tx (b : Bundle) : bool := Z.of_nat (length (bu_coin_ids b)) <=? MAX_TX_INPUTS.

Definition count (l : list hash32) : Z := Z.of_nat (length l).

(** Take the bundles that fit, in order, until the target is met. *)
Fixpoint take_bundles (needed : Z) (bs : list Bundle) (selected : list hash32) (total : Z) : list hash32 * Z :=
  match bs with
  | [] => (selected, total)
  | b :: bs =>
      if needed <=? total then (selected, total)
      else if MAX_TX_INPUTS <? count selected + count (bu_coin_ids b) then take_bundles needed bs selected total
      else take_bundles needed bs (selected ++ bu_coin_ids b) (sat_add 64 total (bu_total_value b))
  end.

(** [candidates.pop()] for a denomination: the last of its bundles. *)
Fixpoint pop_denom (denom : Z) (l : list Bundle) : option (Bundle * list Bundle) :=
  match l with
  | [] => None
  | b :: l =>
      match pop_denom denom l with
      | Some (x, l) => Some (x, b :: l)
      | None => if bu_total_value b =? denom then Some (b, l) else None
      end
  end.

(** The first denomination that has a candidate. *)
Fixpoint pop_first (denoms : list Z) (l : list Bundle) : option (Bundle * list Bundle) :=
  match denoms with
  | [] => None
  | d :: denoms => match pop_denom d l with Some r => Some r | None => pop_first denoms l end
  end.

(** The merge loop: each round adds one coin, so [fuel] is the number of inputs left. *)
Fixpoint merge (fuel : nat) (i : nat) (needed : Z) (unselected : list Bundle) (selected : list hash32) (total : Z)
    : list hash32 :=
  match fuel with
  | O => selected
  | S fuel =>
      let change := total - needed in
      match pop_first (mix i (decompose_value change)) unselected with
      | Some (b, unselected) =>
          merge fuel (S i) needed unselected (selected ++ bu_coin_ids b) (sat_add 64 total (bu_total_value b))
      | None => selected
      end
  end.

Definition is_single (selected : list hash32) (b : Bundle) : bool :=
  match bu_coin_ids b with
  | [id] => negb (bool_decide (id ∈ selected))
  | _ => false
  end.

Definition select_coins (d : WalletData) (needed : Z) (live_coins : list hash32)
    : res WalletError (list hash32) :=
  let total_available := sat_sum (map wc_value (available d live_coins)) in
  let all := bundles d live_coins in
  let oversized_value := sat_sum (map bu_total_value (filter (fun b => fits_in_tx b = false) all)) in
  let sorted := sort_by bundle_leb (filter (fun b => fits_in_tx b = true) all) in
  let '(selected, total) := take_bundles needed sorted [] 0 in
  if total <? needed then
    let spendable := sat_sub total_available oversized_value in
    if spendable <? needed then
      Err (if 0 <? oversized_value then InsufficientSpendable else InsufficientFunds)
    else Err Fragmented
  else
    let unselected := filter (fun b => is_single selected b = true) sorted in
    Ok (merge (Z.to_nat (MAX_TX_INPUTS - count selected)) 0 needed unselected selected total).

End Select.

(** * Bundles are groups of coins *)

Section Contract.
Context `{Blake3}.
Context (group_order : list hash32 -> list hash32) (mix : nat -> list Z -> list Z).
Context (order_perm : forall l, group_order l ≡ₚ l).

Definition group : Type := (hash32 * list WalletCoin)%type.

Definition bundle_of (g : group) : Bundle := mkBundle g.1 (map wc_coin_id g.2) (sat_sum (map wc_value g.2)).

Definition groups (d : WalletData) (live : list hash32) : list group :=
  map (fun c => (wc_address c, [c])) (filter (fun c => is_mss_address d (wc_address c) = true) (available d live))
  ++ map (fun addr => (addr, filter (fun c => wc_address c = addr)
                              (filter (fun c => is_mss_address d (wc_address c) = false) (available d live))))
       (group_order (remove_dups (map wc_address
          (filter (fun c => is_mss_address d (wc_address c) = false) (available d live))))).

Definition members (gs : list group) : list WalletCoin := concat (map snd gs).
Definition worth (cs : list WalletCoin) : Z := sumZ (map wc_value cs).

Definition coins_u64 (d : WalletData) : Prop := Forall (fun c => in_u 64 (wc_value c)) (coins d).

Lemma sat_sum_from l : forall a, 0 <= a <= umax 64 -> Forall (in_u 64) l ->
  foldl (sat_add 64) a l = Z.min (a + sumZ l) (umax 64).
Proof.
  induction l as [|v l IH]; intros a Ha HF; cbn [foldl sumZ foldr]; [lia|].
  inversion HF as [|? ? [Hv1 Hv2] Hl]; subst. pose proof (sumZ_nonneg l) as HN.
  assert (0 <= sumZ l) by (apply HN; eapply Forall_impl; [exact Hl|]; intros x Hx; apply Hx).
  fold (sumZ l). unfold sat_add. rewrite IH; [lia|unfold umax in *; lia|exact Hl].
Qed.

Lemma sat_sum_eq l : Forall (in_u 64) l -> sat_sum l = Z.min (sumZ l) (umax 64).
Proof. intros HF. unfold sat_sum. rewrite sat_sum_from; [f_equal; lia|unfold umax; lia|exact HF]. Qed.

Lemma available_u64 d live : coins_u64 d -> Forall (in_u 64) (map wc_value (available d live)).
Proof.
  intros HU. apply Forall_map. apply Forall_forall. intros c Hc.
  apply list_elem_of_filter in Hc as [_ Hc]. unfold coins_u64 in HU. rewrite Forall_forall in HU. apply HU, Hc.
Qed.

Lemma bundles_groups d live : coins_u64 d -> bundles group_order d live = map bundle_of (groups d live).
Proof.
  intros HU. unfold bundles, groups. rewrite map_app, !map_map. f_equal.
  apply map_ext_in. intros c Hc. unfold bundle_of. cbn [fst snd map]. f_equal.
  apply list_elem_of_In, list_elem_of_filter in Hc as [_ Hc]. unfold available in Hc. apply list_elem_of_filter in Hc as [_ Hc].
  unfold coins_u64 in HU. rewrite Forall_forall in HU. destruct (HU c Hc) as [H1 H2].
  unfold sat_sum, sat_add, umax. cbn. lia.
Qed.

Lemma filter_split {A} (P : A -> bool) (l : list A) :
  filter (fun x => P x = true) l ++ filter (fun x => P x = false) l ≡ₚ l.
Proof.
  induction l as [|x l IH]; [reflexivity|]. rewrite !filter_cons. destruct (P x) eqn:EP.
  - rewrite decide_True, decide_False by congruence. cbn. constructor. exact IH.
  - rewrite decide_False, decide_True by congruence. rewrite <- Permutation_middle. constructor. exact IH.
Qed.

Lemma group_by_perm (l : list WalletCoin) (addrs : list hash32) :
  NoDup addrs -> (forall c, c ∈ l -> wc_address c ∈ addrs) ->
  concat (map (fun a => filter (fun c => wc_address c = a) l) addrs) ≡ₚ l.
Proof.
  revert l. induction addrs as [|a addrs IH]; intros l HN HI; cbn [map concat].
  - destruct l as [|c l]; [reflexivity|]. specialize (HI c ltac:(left)). inversion HI.
  - apply NoDup_cons in HN as [Ha HN].
    etransitivity; [|apply (filter_split (fun c => bool_decide (wc_address c = a)) l)].
    apply Permutation_app.
    + apply reflexive_eq, list_filter_iff. intros c. rewrite bool_decide_eq_true. reflexivity.
    + set (rest := filter (fun c => bool_decide (wc_address c = a) = false) l).
      rewrite <- (IH rest); [|exact HN|].
      * apply reflexive_eq. f_equal. apply map_ext_in. intros b Hb. apply list_elem_of_In in Hb.
        unfold rest. rewrite list_filter_filter. apply list_filter_iff. intros c.
        rewrite bool_decide_eq_false. split; [intros ->; split; congruence|tauto].
      * intros c Hc. unfold rest in Hc. apply list_elem_of_filter in Hc as [Hc1 Hc2].
        apply bool_decide_eq_false in Hc1. specialize (HI c Hc2). apply elem_of_cons in HI as [HI|HI]; [contradiction|exact HI].
Qed.

Lemma members_groups d live : members (groups d live) ≡ₚ available d live.
Proof.
  unfold members, groups. rewrite map_app, concat_app, !map_map. cbn [snd].
  etransitivity; [|apply (filter_split (fun c => is_mss_address d (wc_address c)) (available d live))].
  apply Permutation_app.
  - apply reflexive_eq. induction (filter _ (available d live)) as [|c l IH]; [reflexivity|]. cbn. rewrite IH. reflexivity.
  - apply group_by_perm.
    + rewrite order_perm. apply NoDup_remove_dups.
    + intros c Hc. rewrite order_perm, elem_of_remove_dups. apply list_elem_of_fmap_2, Hc.
Qed.

(** * What each stage keeps *)

Lemma members_app a b : members (a ++ b) = members a ++ members b.
Proof. unfold members. rewrite map_app, concat_app. reflexivity. Qed.

#[export] Instance members_perm : Proper (Permutation ==> Permutation) members.
Proof.
  induction 1 as [|g a b HP IH|g h a|a b c H1 IH1 H2 IH2]; [reflexivity| | |etransitivity; eassumption].
  - apply Permutation_app_head, IH.
  - unfold members. cbn [map concat]. rewrite !app_assoc. apply Permutation_app_tail, Permutation_app_comm.
Qed.

Lemma worth_app a b : worth (a ++ b) = worth a + worth b.
Proof. unfold worth. rewrite map_app. apply sumZ_app. Qed.

Lemma worth_perm a b : a ≡ₚ b -> worth a = worth b.
Proof. intros E. apply sumZ_perm, Permutation_map, E. Qed.

Definition group_u64 (g : group) : Prop := Forall (fun c => in_u 64 (wc_value c)) g.2.

Lemma bundle_total g : group_u64 g -> bu_total_value (bundle_of g) = Z.min (worth g.2) (umax 64).
Proof. intros HG. apply sat_sum_eq, Forall_map, HG. Qed.

Lemma worth_nonneg l : Forall (fun c => in_u 64 (wc_value c)) l -> 0 <= worth l.
Proof. intros HF. apply sumZ_nonneg, Forall_map. eapply Forall_impl; [exact HF|]. intros c Hc. apply Hc. Qed.

Lemma members_worth_nonneg gs : Forall group_u64 gs -> 0 <= worth (members gs).
Proof.
  intros HF. apply worth_nonneg. induction HF as [|g gs Hg HF IH]; [constructor|]. cbn. apply Forall_app. auto.
Qed.

(** The selection so far is that of the groups [gs], in a transaction's bounds. *)
Definition selection_of (gs : list group) (selected : list hash32) (total : Z) : Prop :=
  selected = map wc_coin_id (members gs) /\ total = Z.min (worth (members gs)) (umax 64)
  /\ count selected <= MAX_TX_INPUTS.

Lemma count_app a b : count (a ++ b) = count a + count b.
Proof. unfold count. rewrite length_app. lia. Qed.

Lemma selection_add gs g selected total : group_u64 g -> Forall group_u64 gs -> selection_of gs selected total ->
  count selected + count (bu_coin_ids (bundle_of g)) <= MAX_TX_INPUTS ->
  selection_of (gs ++ [g]) (selected ++ bu_coin_ids (bundle_of g)) (sat_add 64 total (bu_total_value (bundle_of g))).
Proof.
  intros HG HGS (E1 & E2 & E3) HC. rewrite <- count_app in HC. split; [|split; [|exact HC]].
  - rewrite E1, members_app. unfold members at 3. cbn [map concat]. rewrite app_nil_r, map_app. reflexivity.
  - rewrite bundle_total by exact HG. rewrite E2, members_app, worth_app. unfold members at 3. cbn [map concat].
    rewrite app_nil_r. pose proof (members_worth_nonneg gs HGS). pose proof (worth_nonneg g.2 HG).
    assert (0 <= umax 64) by (unfold umax; lia). unfold sat_add. lia.
Qed.

Lemma take_bundles_spec needed rest : forall gs selected total,
  Forall group_u64 rest -> Forall group_u64 gs -> selection_of gs selected total ->
  exists chosen left, rest ≡ₚ chosen ++ left
  /\ let r := take_bundles needed (map bundle_of rest) selected total in selection_of (gs ++ chosen) r.1 r.2.
Proof.
  induction rest as [|g rest IH]; intros gs selected total HR HG HS; cbn [map take_bundles].
  - exists [], []. split; [reflexivity|]. rewrite app_nil_r. exact HS.
  - inversion HR as [|? ? Hg Hrest]; subst. destruct (needed <=? total).
    + exists [], (g :: rest). split; [reflexivity|]. rewrite app_nil_r. exact HS.
    + destruct (Z.ltb_spec MAX_TX_INPUTS (count selected + count (bu_coin_ids (bundle_of g)))) as [HC|HC].
      * destruct (IH gs selected total Hrest HG HS) as (ch & lf & HP & HS'). exists ch, (g :: lf).
        split; [|exact HS']. rewrite HP. apply Permutation_middle.
      * destruct (IH (gs ++ [g]) _ _ Hrest ltac:(apply Forall_app; auto) (selection_add _ _ _ _ Hg HG HS HC)) as (ch & lf & HP & HS').
        exists (g :: ch), lf. split; [cbn; constructor; exact HP|]. rewrite <- app_assoc in HS'. exact HS'.
Qed.

Lemma pop_denom_Some denom l b rest : pop_denom denom l = Some (b, rest) -> l ≡ₚ b :: rest /\ bu_total_value b = denom.
Proof.
  revert b rest. induction l as [|x l IH]; intros b rest; cbn [pop_denom]; [discriminate|].
  destruct (pop_denom denom l) as [[y l']|] eqn:EP.
  - intros [= <- <-]. destruct (IH y l' eq_refl) as [HP HD]. split; [rewrite HP; constructor|exact HD].
  - destruct (Z.eqb_spec (bu_total_value x) denom) as [ED|]; [|discriminate]. intros [= <- <-]. auto.
Qed.

Lemma pop_first_Some denoms l b rest : pop_first denoms l = Some (b, rest) -> l ≡ₚ b :: rest.
Proof.
  induction denoms as [|d denoms IH]; cbn [pop_first]; [discriminate|].
  destruct (pop_denom d l) as [[y l']|] eqn:EP; [|exact IH]. intros [= <- <-]. apply (pop_denom_Some _ _ _ _ EP).
Qed.

Lemma merge_spec fuel : forall i needed unselected gs selected total,
  Forall group_u64 gs -> Forall (fun g => group_u64 g /\ length g.2 = 1%nat) unselected ->
  selection_of gs selected total -> Z.of_nat fuel = MAX_TX_INPUTS - count selected ->
  exists extra left, unselected ≡ₚ extra ++ left
  /\ exists total', selection_of (gs ++ extra) (merge mix fuel i needed (map bundle_of unselected) selected total) total'.
Proof.
  induction fuel as [|fuel IH]; intros i needed un gs selected total HG HU HS HF; cbn [merge].
  - exists [], un. split; [reflexivity|]. exists total. rewrite app_nil_r. exact HS.
  - destruct (pop_first _ _) as [[b rest]|] eqn:EP.
    2: { exists [], un. split; [reflexivity|]. exists total. rewrite app_nil_r. exact HS. }
    apply pop_first_Some, Permutation_sym, Permutation_map_inv in EP as (l & EL & HP).
    destruct l as [|g l]; [discriminate|]. cbn [map] in EL. injection EL as -> ->.
    pose proof HU as HU'. rewrite HP in HU'. inversion HU' as [|? ? [Hg Hlen] Hl]; subst.
    assert (HC : count (bu_coin_ids (bundle_of g)) = 1).
    { unfold count, bundle_of. cbn [bu_coin_ids]. rewrite length_map, Hlen. reflexivity. }
    destruct (IH (S i) needed l (gs ++ [g]) _ _ ltac:(apply Forall_app; auto) Hl
      (selection_add gs g selected total Hg HG HS ltac:(lia)) ltac:(rewrite count_app; lia))
      as (ex & lf & HP' & total' & HS').
    exists (g :: ex), lf. split; [rewrite HP; cbn; constructor; exact HP'|]. exists total'.
    rewrite <- app_assoc in HS'. exact HS'.
Qed.

(** With room for all the coins, the walk stops short only when it has taken them all. *)
Lemma take_bundles_all needed rest : forall gs selected total,
  Forall group_u64 rest -> Forall group_u64 gs -> selection_of gs selected total ->
  count selected + Z.of_nat (length (members rest)) <= MAX_TX_INPUTS ->
  let r := take_bundles needed (map bundle_of rest) selected total in
  needed <= r.2 \/ selection_of (gs ++ rest) r.1 r.2.
Proof.
  induction rest as [|g rest IH]; intros gs selected total HR HG HS HM; cbn [map take_bundles].
  - right. rewrite app_nil_r. exact HS.
  - inversion HR as [|? ? Hg Hrest]; subst. unfold members in HM. cbn [map concat] in HM. rewrite length_app in HM.
    fold (members rest) in HM. destruct (Z.leb_spec needed total) as [HN|HN]; [left; exact HN|].
    assert (HC : count (bu_coin_ids (bundle_of g)) = Z.of_nat (length g.2)).
    { unfold count, bundle_of. cbn [bu_coin_ids]. rewrite length_map. reflexivity. }
    destruct (Z.ltb_spec MAX_TX_INPUTS (count selected + count (bu_coin_ids (bundle_of g)))) as [HB|HB]; [lia|].
    destruct (IH (gs ++ [g]) _ _ Hrest ltac:(apply Forall_app; auto) (selection_add gs g selected total Hg HG HS HB)
      ltac:(rewrite count_app; lia)) as [HD|HD]; [left; exact HD|right]. rewrite <- app_assoc in HD. exact HD.
Qed.

(** ** The groups of a wallet *)

Definition whole (d : WalletData) (live : list hash32) (g : group) : Prop := forall c c',
  c ∈ g.2 -> is_mss_address d (wc_address c) = false ->
  c' ∈ available d live -> wc_address c' = wc_address c -> c' ∈ g.2.

Lemma groups_whole d live : Forall (whole d live) (groups d live).
Proof.
  unfold groups. apply Forall_app. split; apply Forall_map, Forall_forall.
  - intros c Hc a b Ha HM. apply list_elem_of_filter in Hc as [Hc _]. apply list_elem_of_singleton in Ha as ->. congruence.
  - intros addr _ a b Ha HM Hb HE. cbn [snd] in *. apply list_elem_of_filter in Ha as [Ha _].
    apply list_elem_of_filter. split; [congruence|]. apply list_elem_of_filter. split; [congruence|exact Hb].
Qed.

Lemma groups_u64 d live : coins_u64 d -> Forall group_u64 (groups d live).
Proof.
  intros HU. assert (HA : Forall (fun c => in_u 64 (wc_value c)) (members (groups d live))).
  { rewrite members_groups. apply Forall_map in HU. pose proof (available_u64 d live) as HX.
    apply Forall_map, HX. apply Forall_map, HU. }
  revert HA. induction (groups d live) as [|g gs IH]; [constructor|]. unfold members. cbn [map concat].
  rewrite Forall_app. intros [HA1 HA2]. constructor; [exact HA1|apply IH, HA2].
Qed.

Lemma insert_by_perm {A} leb (x : A) l : insert_by leb x l ≡ₚ x :: l.
Proof.
  induction l as [|y l IH]; cbn; [reflexivity|]. destruct (leb x y); [reflexivity|]. rewrite IH. constructor.
Qed.

Lemma sort_by_perm {A} leb (l : list A) : sort_by leb l ≡ₚ l.
Proof. induction l as [|x l IH]; [reflexivity|]. cbn. rewrite insert_by_perm. constructor. exact IH. Qed.

Lemma filter_map {A B} (f : A -> B) (P : B -> bool) v l :
  filter (fun b => P b = v) (map f l) = map f (filter (fun a => P (f a) = v) l).
Proof.
  induction l as [|a l IH]; [reflexivity|]. cbn [map]. rewrite !filter_cons.
  destruct (decide (P (f a) = v)); rewrite IH; reflexivity.
Qed.

(** The sorted bundles are those of the groups that fit. *)
Lemma sorted_groups d live : coins_u64 d ->
  exists fit, groups d live ≡ₚ fit ++ filter (fun g => fits_in_tx (bundle_of g) = false) (groups d live)
  /\ sort_by bundle_leb (filter (fun b => fits_in_tx b = true) (bundles group_order d live)) = map bundle_of fit.
Proof.
  intros HU. rewrite bundles_groups by exact HU.
  pose proof (sort_by_perm bundle_leb (filter (fun b => fits_in_tx b = true) (map bundle_of (groups d live)))) as HP.
  rewrite filter_map in *. apply Permutation_map_inv in HP as (fit & EF & HF).
  exists fit. split; [|exact EF]. rewrite <- HF. symmetry. apply filter_split.
Qed.

(** The candidates of the merge are groups of one coin that were not taken. *)
Lemma unselected_groups fit taken left selected total : selection_of taken selected total ->
  fit ≡ₚ taken ++ left -> Forall group_u64 left ->
  exists un rest, filter (fun b => is_single selected b = true) (map bundle_of fit) = map bundle_of un
  /\ left ≡ₚ un ++ rest /\ Forall (fun g => group_u64 g /\ length g.2 = 1%nat) un.
Proof.
  intros (ES & _) HP HL. rewrite filter_map.
  set (single := fun g => is_single selected (bundle_of g) = true).
  assert (E0 : filter single taken = []).
  { apply elem_of_nil_inv. intros g Hg. apply list_elem_of_filter in Hg as [HS HI].
    unfold single, is_single, bundle_of in HS. cbn [bu_coin_ids] in HS.
    destruct g.2 as [|c [|]] eqn:EG; cbn in HS; try discriminate.
    apply negb_true_iff, bool_decide_eq_false in HS. apply HS. rewrite ES. apply list_elem_of_fmap_2.
    unfold members. apply list_elem_of_In, in_concat. exists g.2. rewrite EG.
    split; [|left; reflexivity]. rewrite <- EG. apply in_map, list_elem_of_In, HI. }
  assert (HU : filter single fit ≡ₚ filter single left) by (rewrite HP, filter_app, E0; reflexivity).
  exists (filter single fit), (filter (fun g => is_single selected (bundle_of g) = false) left).
  split; [reflexivity|]. split; [rewrite HU; symmetry; apply filter_split|].
  rewrite HU. apply Forall_forall. intros g Hg. apply list_elem_of_filter in Hg as [HS HI]. rewrite Forall_forall in HL.
  split; [apply HL, HI|]. unfold single, is_single, bundle_of in HS. cbn [bu_coin_ids] in HS.
  destruct g.2 as [|c [|]]; cbn in HS; [discriminate|reflexivity|discriminate].
Qed.

Lemma selection_nil : selection_of [] [] 0.
Proof. split; [reflexivity|]. split; [reflexivity|]. unfold count, MAX_TX_INPUTS. cbn. lia. Qed.

(** The groups that a successful selection takes. *)
Lemma select_coins_groups d needed live selected : coins_u64 d ->
  select_coins group_order mix d needed live = Ok selected ->
  exists chosen left total, groups d live ≡ₚ chosen ++ left /\ selection_of chosen selected total /\ needed <= total.
Proof.
  intros HU E. destruct (sorted_groups d live HU) as (fit & HP & ES).
  pose proof (groups_u64 d live HU) as HG. rewrite HP in HG. apply Forall_app in HG as [HF _].
  destruct (take_bundles_spec needed fit [] [] 0 HF ltac:(constructor) selection_nil) as (taken & left & HP1 & HS).
  unfold select_coins in E. rewrite ES in E. cbv zeta in HS. cbn [app] in HS.
  destruct (take_bundles needed (map bundle_of fit) [] 0) as [sel tot]. cbn [fst snd] in HS.
  destruct (Z.ltb_spec tot needed) as [HT|HT]; [destruct (_ <? _) in E; discriminate|]. injection E as <-.
  rewrite HP1 in HF. apply Forall_app in HF as [HF1 HF2].
  destruct (unselected_groups fit taken left sel tot HS HP1 HF2) as (un & rest & -> & HP2 & HUn).
  destruct (merge_spec (Z.to_nat (MAX_TX_INPUTS - count sel)) 0 needed un taken sel tot HF1 HUn HS) as (ex & lf & HP3 & tot' & HS').
  { destruct HS as (_ & _ & HC). lia. }
  exists (taken ++ ex), (lf ++ rest ++ filter (fun g => fits_in_tx (bundle_of g) = false) (groups d live)), tot'.
  split; [|split; [exact HS'|]].
  - etransitivity; [exact HP|]. rewrite HP1, HP2, HP3, <- !app_assoc. reflexivity.
  - destruct HS as (_ & E1 & _), HS' as (_ & E2 & _). rewrite E2, members_app, worth_app. rewrite E1 in HT.
    rewrite HP2 in HF2. apply Forall_app in HF2 as [HF2 _]. rewrite HP3 in HF2. apply Forall_app in HF2 as [HF2 _].
    pose proof (members_worth_nonneg ex HF2). lia.
Qed.

(** ** The contract *)

Lemma select_coins_sound d needed live selected : coins_u64 d ->
  select_coins group_order mix d needed live = Ok selected ->
  exists chosen, selected = map wc_coin_id chosen /\ chosen ⊆+ available d live
  /\ needed <= worth chosen /\ count selected <= MAX_TX_INPUTS
  /\ (forall c c', c ∈ chosen -> is_mss_address d (wc_address c) = false ->
        c' ∈ available d live -> wc_address c' = wc_address c -> c' ∈ chosen).
Proof.
  intros HU E. destruct (select_coins_groups d needed live selected HU E) as (ch & lf & tot & HP & (ES & ET & EC) & HN).
  exists (members ch). split; [exact ES|]. split; [|split; [lia|split; [exact EC|]]].
  - rewrite <- (members_groups d live), HP, members_app. apply submseteq_inserts_r. reflexivity.
  - intros c c' Hc HM Hc' HA. unfold members in *. apply list_elem_of_In, in_concat in Hc as (l & Hl & Hc).
    apply in_map_iff in Hl as (g & <- & Hg). apply list_elem_of_In, in_concat. exists g.2.
    split; [apply in_map, Hg|]. apply list_elem_of_In. pose proof (groups_whole d live) as HW. rewrite HP in HW.
    apply Forall_app in HW as [HW _]. rewrite Forall_forall in HW. apply list_elem_of_In in Hg, Hc.
    apply (HW g Hg c c' Hc HM Hc' HA).
Qed.

Lemma select_coins_safe d needed live : select_coins group_order mix d needed live <> Panic.
Proof.
  unfold select_coins. destruct (take_bundles _ _ _ _) as [sel tot]. destruct (tot <? needed); [|discriminate].
  destruct (_ <? needed); discriminate.
Qed.

(** C23: what [select_coins] returns are the ids of some of the wallet's live coins,
    each taken once, worth at least the target, at most [MAX_TX_INPUTS] of them, and
    with every live coin of each one-time address it touches, so that no one-time key
    has to sign twice.  And it does not fail while the funds suffice and all the live
    coins fit in one transaction.  This holds for every order of the hash map and
    every shuffle. *)
Theorem select_coins_contract d needed live : coins_u64 d ->
  (forall selected, select_coins group_order mix d needed live = Ok selected ->
     exists chosen, selected = map wc_coin_id chosen /\ chosen ⊆+ available d live
     /\ needed <= worth chosen /\ count selected <= MAX_TX_INPUTS
     /\ (forall c c', c ∈ chosen -> is_mss_address d (wc_address c) = false ->
           c' ∈ available d live -> wc_address c' = wc_address c -> c' ∈ chosen))
  /\ (needed <= worth (available d live) <= umax 64 ->
      Z.of_nat (length (available d live)) <= MAX_TX_INPUTS ->
      exists selected, select_coins group_order mix d needed live = Ok selected).
Proof.
  intros HU. split.
  - intros selected. apply select_coins_sound, HU.
  - intros [HN HM] HL. destruct (sorted_groups d live HU) as (fit & HP & ES).
    pose proof (members_groups d live) as HMem. pose proof (groups_u64 d live HU) as HG.
    assert (EF : filter (fun g => fits_in_tx (bundle_of g) = false) (groups d live) = []).
    { apply elem_of_nil_inv. intros g Hg. apply list_elem_of_filter in Hg as [HB Hg]. unfold fits_in_tx in HB.
      apply Z.leb_gt in HB. unfold bundle_of in HB. cbn [bu_coin_ids] in HB. rewrite length_map in HB.
      assert (length g.2 <= length (available d live))%nat; [|lia]. rewrite <- HMem. unfold members.
      apply list_elem_of_In in Hg. clear -Hg. induction (groups d live) as [|x l IH]; [contradiction|]. cbn [map concat].
      rewrite length_app. destruct Hg as [->|Hg]; [lia|]. specialize (IH Hg). lia. }
    rewrite EF, app_nil_r in HP. rewrite HP in HG, HMem.
    destruct (take_bundles_all needed fit [] [] 0 HG ltac:(constructor) selection_nil) as [HD|HD].
    { rewrite HMem. exact HL. }
    all: unfold select_coins; rewrite ES; cbv zeta in HD; destruct (take_bundles needed (map bundle_of fit) [] 0) as [sel tot];
      cbn [fst snd app] in HD.
    + rewrite (proj2 (Z.ltb_ge _ _) HD). eauto.
    + destruct HD as (_ & ET & _). rewrite (worth_perm _ _ HMem) in ET. rewrite (proj2 (Z.ltb_ge tot needed)) by lia. eauto.
Qed.

End Contract.

Lemma select_coins_contract_witness :
  let H := toy_blake3 in
  let coin b v := mkWalletCoin (arr_of 32 [b]) (arr_of 32 [b]) (arr_of 32 [b]) v (arr_of 32 [b]) (arr_of 32 [b; b8 v]) false None in
  let d := set_coins [coin x01 8; coin x01 4; coin x02 16] (wallet_empty None) in
  exists selected, select_coins (fun l => l) (fun _ l => l) d 10 (map wc_coin_id (coins d)) = Ok selected.
Proof.
  intros H coin d.
  apply (proj2 (select_coins_contract (fun l => l) (fun _ l => l) (fun l => Permutation_refl l) d 10 (map wc_coin_id (coins d))
    ltac:(repeat constructor; discriminate))).
  - vm_compute. split; discriminate.
  - vm_compute. discriminate.
Defined.
