(* ===== verification/WalletSpend.v ===== *)
(** Spending from the wallet of [src/wallet/mod.rs]: building outputs, preparing a
    commit, signing its reveal, completing it, private sends and mixing.

    A pending commit is passed to the signing operations as the caller's copy of it, as
    in the source. *)
From S2P Require Import Prelude Types Wots Mss Wallet WalletSelect.

#[local] Open Scope Z_scope.

Section Spend.
Context `{Blake3} `{!WalletEnv}.

(** ** Signing keys *)

Definition mss_position (d : WalletData) (pk : hash32) : option nat :=
  fst <$> list_find (fun k => master_pk k = pk) (mss_keys d).

(** [&mut self.data.mss_keys[pos]]. *)
Definition on_mss {A} (pos : nat) (m : ST MssKeypair MssError A) : WM A := fun w =>
  match mss_keys (w_data w) !! pos with
  | Some k =>
      let '(r, k') := m k in
      (lift_mss r, on_data (fun d => set_mss (<[pos := k']> (mss_keys d)) d) w)
  | None => (Panic, w)
  end.

Definition check_remaining (pos : nat) : WM () := reads (fun w =>
  k ← unwrap (mss_keys (w_data w) !! pos);
  bail_if (remaining k =? 0) KeyExhausted).

Definition sign_mss (pos : nat) (commitment : hash32) : WM bytes :=
  _ ← check_remaining pos;
  sig ← on_mss pos (mss_sign commitment);
  mret (mss_to_bytes sig).

Definition sign_wots (seed commitment : hash32) : bytes := sig_to_bytes (sign seed commitment).

Definition flag_signed (c : WalletCoin) : WalletCoin :=
  mkWalletCoin (wc_seed c) (wc_owner_pk c) (wc_address c) (wc_value c) (wc_salt c) (wc_coin_id c) true (wc_commitment c).

(** All the coins of an address. *)
Definition mark_signed (addr : hash32) (d : WalletData) : WalletData :=
  set_coins (map (fun c => if bool_decide (wc_address c = addr) then flag_signed c else c) (coins d)) d.

Definition auto_sign (owner_pk commitment : hash32) : WM bytes :=
  d ← data;
  match mss_position d owner_pk with
  | Some pos => sig ← sign_mss pos commitment; _ ← save; mret sig
  | None =>
  match list_find (fun k => k_owner_pk k = owner_pk) (keys d) with
  | Some (_, key) => mret (sign_wots (k_seed key) commitment)
  | None =>
  match list_find (fun c => wc_owner_pk c = owner_pk) (coins d) with
  | Some (pos, coin) =>
      _ ← fail_if (wots_signed coin) AlreadySigned;
      let sig := sign_wots (wc_seed coin) commitment in
      _ ← update (fun d => set_coins (<[pos := flag_signed coin]> (coins d)) d);
      _ ← save;
      mret sig
  | None => fail KeyNotFound
  end end end.

(** ** Building outputs *)

Definition salted (address : hash32) (value : Z) : WM OutputData :=
  salt ← ask random;
  mret (Standard address value salt).

(** A key that is low on signatures starts a new tree. *)
Definition needs_rotation (d : WalletData) : bool :=
  existsb (fun k => (0 <? remaining k) && (remaining k <? 50)) (mss_keys d).

(** The change outputs from index [idx] on, with the seeds of the fresh ones. *)
Fixpoint change_outputs (new_mss : option hash32) (idx : nat) (denoms : list Z)
    : WM (list OutputData * list (nat * hash32)) :=
  match denoms with
  | [] => mret ([], [])
  | denom :: denoms =>
      '(address, seeds) ←
        match new_mss with
        | Some pk => mret (pk, [])
        | None => seed ← allocate_next_wots_seed; mret (compute_address (keygen seed), [(idx, seed)])
        end;
      out ← salted address denom;
      '(outs, rest) ← change_outputs new_mss (S idx) denoms;
      mret (out :: outs, seeds ++ rest)
  end.

(** [reverse_map[old_idx] = new_idx]. *)
Definition reverse_map (indices : list nat) : list nat :=
  foldl (fun rm p => <[p.2 := p.1]> rm) (replicate (length indices) 0%nat) (zip (seq 0 (length indices)) indices).

(** The outputs in the order of [indices], and where each change output went. *)
Definition reorder (indices : list nat) (outputs : list OutputData) (change_seeds : list (nat * hash32))
    : res WalletError (list OutputData * list (nat * hash32)) :=
  outs ← mapM (fun i => unwrap (outputs !! i)) indices;
  seeds ← mapM (fun p : nat * hash32 => i ← unwrap (reverse_map indices !! p.1); Ok (i, p.2)) change_seeds;
  Ok (outs, seeds).

Definition build_outputs (recipient_address : hash32) (recipient_denominations : list Z) (change_value : Z)
    : WM (list OutputData * list (nat * hash32)) :=
  recipients ← mapM (salted recipient_address) recipient_denominations;
  d ← data;
  new_mss ← (if needs_rotation d then pk ← generate_mss DEFAULT_HEIGHT; mret (Some pk) else mret None);
  '(change, seeds) ←
    (if 0 <? change_value
     then denoms ← ask (fun t => shuffle t (decompose_value change_value));
          change_outputs new_mss (length recipients) denoms
     else mret ([], []));
  let outputs := recipients ++ change in
  indices ← ask (fun t => shuffle t (seq 0 (length outputs)));
  reads (fun _ => reorder indices outputs seeds).

(** ** Commit and reveal *)

Definition check_owned (d : WalletData) (coin_id : hash32) : res WalletError () :=
  bail_if (bool_decide (find_coin d coin_id = None)) CoinNotInWallet.

(** A sibling outside the inputs is allowed only when it is known to be spent. *)
Definition check_siblings (w : World) (inputs : list hash32) (coin_id : hash32) : res WalletError () :=
  check_all (fun sib => bail_if (negb (bool_decide (sib ∈ known_spent w)) && negb (bool_decide (sib ∈ inputs)))
                          CoSpendViolation)
    (wots_siblings (w_data w) coin_id).

Definition prepare_commit (input_coin_ids : list hash32) (outputs : list OutputData)
    (change_seeds : list (nat * hash32)) (privacy_delay is_consolidate : bool) : WM (hash32 * hash32) :=
  _ ← reads (fun w => check_all (check_owned (w_data w)) input_coin_ids);
  _ ← reads (fun w => check_all (check_siblings w input_coin_ids) input_coin_ids);
  shuffled_inputs ← ask (fun t => shuffle t input_coin_ids);
  salt ← ask random;
  let commitment := compute_commitment shuffled_inputs (map hash_for_commitment outputs) salt in
  now ← ask clock;
  delay ← ask random64;
  let reveal_not_before :=
    if privacy_delay then wrap 64 (wrap 64 (now + 30) + delay mod 91) else wrap 64 (wrap 64 (now + 5) + delay mod 11) in
  _ ← update (fun d => set_pending (pending d ++
         [{| pc_commitment := commitment; pc_salt := salt; pc_input_coin_ids := shuffled_inputs; pc_outputs := outputs;
             pc_change_seeds := change_seeds; pc_created_at := now; pc_reveal_not_before := reveal_not_before;
             pc_is_consolidate := is_consolidate |}]) d);
  _ ← save;
  mret (commitment, salt).

Definition pending_commitment (p : PendingCommit) : hash32 :=
  compute_commitment (pc_input_coin_ids p) (map hash_for_commitment (pc_outputs p)) (pc_salt p).

(** A value of zero marks a state thread. *)
Definition reveal_of (wc : WalletCoin) : InputReveal := {|
  in_predicate := p2pk (wc_owner_pk wc); in_value := wc_value wc; in_salt := wc_salt wc;
  in_commitment := if wc_value wc =? 0 then wc_commitment wc else None
|}.

(** The signature of one input: a tree signs once per transaction. *)
Definition sign_owner (commitment : hash32) (wc : WalletCoin) (cache : gmap hash32 bytes)
    : WM (bytes * gmap hash32 bytes) :=
  d ← data;
  match mss_position d (wc_owner_pk wc) with
  | Some pos =>
      match cache !! wc_owner_pk wc with
      | Some sig => mret (sig, cache)
      | None => sig ← sign_mss pos commitment; mret (sig, <[wc_owner_pk wc := sig]> cache)
      end
  | None =>
      _ ← update (mark_signed (wc_address wc));
      mret (sign_wots (wc_seed wc) commitment, cache)
  end.

Fixpoint sign_inputs (commitment : hash32) (ids : list hash32) (cache : gmap hash32 bytes)
    : WM (list InputReveal * list Witness) :=
  match ids with
  | [] => mret ([], [])
  | coin_id :: ids =>
      d ← data;
      match find_coin d coin_id with
      | None => fail CoinNotInWallet
      | Some wc =>
          '(sig, cache) ← sign_owner commitment wc cache;
          '(inputs, witnesses) ← sign_inputs commitment ids cache;
          mret (reveal_of wc :: inputs, ScriptInputs [sig] :: witnesses)
      end
  end.

Definition sign_reveal (p : PendingCommit) : WM (list InputReveal * list Witness) :=
  r ← sign_inputs (pending_commitment p) (pc_input_coin_ids p) ∅;
  _ ← save;
  mret r.

Definition sign_consolidate (p : PendingCommit) : WM (list InputReveal * Witness) :=
  let commitment := pending_commitment p in
  inputs ← reads (fun w => mapM (fun id =>
             wc ← ok_or CoinNotInWallet (find_coin (w_data w) id);
             Ok {| in_predicate := p2pk (wc_owner_pk wc); in_value := wc_value wc; in_salt := wc_salt wc;
                   in_commitment := Some commitment |}) (pc_input_coin_ids p));
  first_coin ← reads (fun w => id ← unwrap (head (pc_input_coin_ids p)); unwrap (find_coin (w_data w) id));
  '(sig, _) ← sign_owner commitment first_coin ∅;
  _ ← save;
  mret (inputs, ScriptInputs [sig]).

Definition find_pending (d : WalletData) (commitment : hash32) : option PendingCommit :=
  snd <$> list_find (fun p => pc_commitment p = commitment) (pending d).

(** The change of a completed reveal.  The coin keeps the commitment of the
    transaction, which is not a state commitment. *)
Definition add_change (p : PendingCommit) (commitment : hash32) (change : nat * hash32) : WM () :=
  out ← reads (fun _ => unwrap (pc_outputs p !! change.1));
  match output_coin_id out with
  | None => mret ()
  | Some coin_id =>
      d ← data;
      if has_coin d coin_id then mret ()
      else update (push_coin {| wc_seed := change.2; wc_owner_pk := keygen change.2; wc_address := output_address out;
                                wc_value := output_value out; wc_salt := output_salt out; wc_coin_id := coin_id;
                                wots_signed := false; wc_commitment := Some commitment |})
  end.

Definition wrap_sum (l : list Z) : Z := wrap 64 (sumZ l).

Definition remove_coins (ids : list hash32) (d : WalletData) : WalletData :=
  set_coins (filter (fun c => wc_coin_id c ∉ ids) (coins d)) d.

Definition complete_reveal (commitment : hash32) : WM () :=
  p ← reads (fun w => ok_or PendingNotFound (find_pending (w_data w) commitment));
  let spent := pc_input_coin_ids p in
  d ← data;
  let in_sum := wrap_sum (map wc_value (omap (find_coin d) spent)) in
  let out_sum := wrap_sum (map output_value (pc_outputs p)) in
  let fee := sat_sub in_sum out_sum in
  _ ← update (remove_coins spent);
  _ ← st_each (add_change p commitment) (pc_change_seeds p);
  now ← ask clock;
  _ ← update (fun d => set_history (history d ++
         [mkHistory spent (omap output_coin_id (pc_outputs p)) fee now Sent]) d);
  _ ← update (fun d => set_pending (filter (fun p => pc_commitment p <> commitment) (pending d)) d);
  save.

(** ** Private sends *)

(** Largest first, until [needed] is covered. *)
Fixpoint take_coins (needed : Z) (cs : list WalletCoin) (selected : list hash32) (used : gset hash32) (total : Z)
    : list hash32 * gset hash32 * Z :=
  match cs with
  | [] => (selected, used, total)
  | c :: cs =>
      if needed <=? total then (selected, used, total)
      else take_coins needed cs (selected ++ [wc_coin_id c]) ({[wc_coin_id c]} ∪ used) (wrap 64 (total + wc_value c))
  end.

Definition one_time_addresses (d : WalletData) (selected : list hash32) : list hash32 :=
  map wc_address (filter (fun c => is_mss_address d (wc_address c) = false) (omap (find_coin d) selected)).

(** The live coins that share a one-time address with the selection. *)
Fixpoint add_siblings (live addrs : list hash32) (cs : list WalletCoin) (selected : list hash32)
    (used : gset hash32) (total : Z) : list hash32 * gset hash32 * Z :=
  match cs with
  | [] => (selected, used, total)
  | c :: cs =>
      let id := wc_coin_id c in
      if bool_decide (wc_address c ∈ addrs) && negb (bool_decide (id ∈ used)) && negb (bool_decide (id ∈ selected))
         && bool_decide (id ∈ live)
      then add_siblings live addrs cs (selected ++ [id]) ({[id]} ∪ used) (wrap 64 (total + wc_value c))
      else add_siblings live addrs cs selected used total
  end.

Definition by_value_desc (a b : WalletCoin) : bool := wc_value b <=? wc_value a.

Definition private_inputs (d : WalletData) (live : list hash32) (used : gset hash32) (denom : Z)
    : res WalletError (list hash32 * gset hash32 * Z) :=
  let needed := wrap 64 (denom + 10000) in
  let available := sort_by by_value_desc
        (filter (fun c => wc_coin_id c ∈ live /\ wc_coin_id c ∉ used) (coins d)) in
  let '(selected, used, total) := take_coins needed available [] used 0 in
  _ ← bail_if (total <? needed) InsufficientFunds;
  Ok (add_siblings live (one_time_addresses d selected) (coins d) selected used total).

Abbreviation SendPair := (list hash32 * list OutputData * list (nat * hash32))%type.

Definition private_pair (live : list hash32) (recipient_address : hash32) (used : gset hash32) (denom : Z)
    : WM (gset hash32 * SendPair) :=
  '(selected, used, total) ← reads (fun w => private_inputs (w_data w) live used denom);
  let change := wrap 64 (wrap 64 (total - denom) - 1) in
  out ← salted recipient_address denom;
  '(change_outs, seeds) ←
    (if 0 <? change then change_outputs None 1 (decompose_value change) else mret ([], []));
  mret (used, (selected, out :: change_outs, seeds)).

Fixpoint private_pairs (live : list hash32) (recipient_address : hash32) (used : gset hash32)
    (denominations : list Z) : WM (list SendPair) :=
  match denominations with
  | [] => mret []
  | denom :: denominations =>
      '(used, send) ← private_pair live recipient_address used denom;
      rest ← private_pairs live recipient_address used denominations;
      mret (send :: rest)
  end.

Definition plan_private_send (live_coins : list hash32) (recipient_address : hash32) (denominations : list Z)
    : WM (list SendPair) := private_pairs live_coins recipient_address ∅ denominations.

(** ** Mixing *)

(** The input of a mix keeps the coin's own commitment. *)
Definition mix_input (c : WalletCoin) : InputReveal := {|
  in_predicate := p2pk (wc_owner_pk c); in_value := wc_value c; in_salt := wc_salt c; in_commitment := wc_commitment c
|}.

Definition prepare_mix_registration (coin_id : hash32) : WM (InputReveal * OutputData * hash32) :=
  coin ← reads (fun w => ok_or CoinNotInWallet (find_coin (w_data w) coin_id));
  _ ← reads (fun w => bail_if (negb (Nat.eqb (length (wots_siblings (w_data w) coin_id)) 0)) HasSiblings);
  output_seed ← allocate_next_wots_seed;
  output ← salted (compute_address (keygen output_seed)) (wc_value coin);
  mret (mix_input coin, output, output_seed).

Definition prepare_mix_fee (d : WalletData) (live_coins : list hash32) : res WalletError (InputReveal * hash32) :=
  let unit_coin (c : WalletCoin) := wc_value c = 1 /\ wc_coin_id c ∈ live_coins in
  coin ← ok_or NoFeeCoin
    (match list_find (fun c => unit_coin c /\ wots_siblings d (wc_coin_id c) = []) (coins d) with
     | Some (_, c) => Some c
     | None => snd <$> list_find unit_coin (coins d)
     end);
  Ok (mix_input coin, wc_coin_id coin).

Definition sign_mix_input (coin_id commitment : hash32) : WM bytes :=
  coin ← reads (fun w => ok_or CoinNotInWallet (find_coin (w_data w) coin_id));
  d ← data;
  match mss_position d (wc_owner_pk coin) with
  | Some pos =>
      sig ← on_mss pos (mss_sign commitment);
      _ ← save;
      mret (mss_to_bytes sig)
  | None =>
      _ ← update (mark_signed (wc_address coin));
      _ ← save;
      mret (sign_wots (wc_seed coin) commitment)
  end.

Definition complete_mix (spent_coin_ids : list hash32) (output : OutputData) (output_seed : hash32) : WM () :=
  _ ← update (remove_coins spent_coin_ids);
  coin_id ← reads (fun _ => unwrap (output_coin_id output));
  _ ← update (fun d => if has_coin d coin_id then d else
         push_coin {| wc_seed := output_seed; wc_owner_pk := keygen output_seed; wc_address := output_address output;
                      wc_value := output_value output; wc_salt := output_salt output; wc_coin_id := coin_id;
                      wots_signed := false; wc_commitment := None |} d);
  now ← ask clock;
  _ ← update (fun d => set_history (history d ++ [mkHistory spent_coin_ids [coin_id] 0 now Mixed]) d);
  save.

End Spend.
