(* ===== verification/WalletSafe.v ===== *)
(** What the wallet guarantees over any sequence of operations, failed writes and
    restarts: a one-time seed is handed out once, and every coin stays spendable by the
    keys the wallet holds.  A restart is the operation [open], possible at any point:
    the wallet in memory is lost and the file is read again. *)
From Stdlib Require Import Strings.String.
From S2P Require Import Prelude Types Wots Mss Wallet WalletSelect WalletSpend.

#[local] Open Scope Z_scope.

(** * The operations as steps *)

(** The outputs that belong to the wallet are payable to the keys of their seeds. *)
Definition pays_to `{Blake3} (o : OutputData) (seed : hash32) : Prop :=
  exists v salt, o = Standard (compute_address (keygen seed)) v salt /\ 0 < v <= umax 64.

Definition seeds_match `{Blake3} (outs : list OutputData) (seeds : list (nat * hash32)) : Prop :=
  Forall (fun p => exists o, outs !! p.1 = Some o /\ pays_to o p.2) seeds.

(** What a scan of the chain reports: a value of zero comes with a state commitment and
    only then, and such an output is not at the address of a coin already held. *)
Definition scanned_ok `{Blake3} (d : WalletData) (address : hash32) (value : Z) (commitment : option hash32) : Prop :=
  in_u 64 value /\ (value = 0 <-> is_Some commitment)
  /\ (value = 0 -> address ∉ map wc_address (coins d)).

Section Steps.
Context `{Blake3} `{!WalletEnv}.

Inductive wallet_op (w : World) : forall {A}, WM A -> Prop :=
  | op_open : wallet_op w open
  | op_save : wallet_op w save
  | op_allocate : wallet_op w allocate_next_wots_seed
  | op_generate_key : wallet_op w generate_key
  | op_generate_mss h : wallet_op w (generate_mss h)
  | op_restore n : wallet_op w (restore_generate_keys n)
  | op_import_scanned a v s c : scanned_ok (w_data w) a v c ->
      wallet_op w (update (fun d => (import_scanned a v s c d).2))
  | op_import_coin seed v s : 0 < v <= umax 64 -> wallet_op w (import_coin seed v s)
  | op_abandon a : wallet_op w (abandon_coins_at_address a)
  | op_store_license id m : wallet_op w (store_license_metadata id m)
  | op_rekey_license a b : wallet_op w (rekey_license_metadata a b)
  | op_mark_spent ids : wallet_op w (modify (mark_spent ids))
  | op_clear_marks : wallet_op w (modify clear_spent_marks)
  | op_record ids t : wallet_op w (update (record_received ids t))
  | op_auto_sign pk c : wallet_op w (auto_sign pk c)
  | op_build_outputs a denoms change : wallet_op w (build_outputs a denoms change)
  | op_prepare ins outs seeds privacy consolidate : seeds_match outs seeds ->
      wallet_op w (prepare_commit ins outs seeds privacy consolidate)
  | op_sign_reveal p : wallet_op w (sign_reveal p)
  | op_sign_consolidate p : wallet_op w (sign_consolidate p)
  | op_complete c : wallet_op w (complete_reveal c)
  | op_private_send live a denoms : wallet_op w (plan_private_send live a denoms)
  | op_mix_registration id : wallet_op w (prepare_mix_registration id)
  | op_sign_mix id c : wallet_op w (sign_mix_input id c)
  | op_complete_mix spent out seed : pays_to out seed -> wallet_op w (complete_mix spent out seed).

Definition wallet_step (w w' : World) : Prop := exists A (m : WM A), wallet_op w m /\ w' = (m w).2.

Definition new_world (seed : option hash32) : World := mkWorld (wallet_empty seed) ∅ (wallet_empty seed) 0 [].

Lemma step_of {A} w (m : WM A) : wallet_op w m -> wallet_step w (m w).2.
Proof. intros Hm. exists A, m. auto. Qed.

(** An invariant that every operation keeps holds in every reachable world. *)
Lemma steps_keep (I : World -> Prop) w w' :
  (forall w A (m : WM A), wallet_op w m -> I w -> I (m w).2) -> I w -> rtc wallet_step w w' -> I w'.
Proof. intros HK HI. induction 1 as [|w w1 w2 (A & m & Hm & ->) _ IH]; [exact HI|]. apply IH, (HK w A m Hm), HI. Qed.

End Steps.

(** * One-time seeds are handed out once *)

Section Seeds.
Context `{Blake3} `{!WalletEnv}.
Context (master : hash32).

(** While the counter cannot have wrapped: the seeds handed out are those of increasing
    indices, all below the counter on disk. *)
Definition seeds_fresh (w : World) : Prop :=
  Z.of_nat (w_tick w) < 2 ^ 64 ->
  wd_master_seed (w_data w) = Some master /\ wd_master_seed (w_disk w) = Some master
  /\ 0 <= next_wots_index (w_disk w) <= next_wots_index (w_data w)
  /\ next_wots_index (w_data w) <= Z.of_nat (w_tick w)
  /\ exists idxs, w_handed w = map (hd_wots_seed master) idxs
     /\ Forall (fun i => 0 <= i < next_wots_index (w_disk w)) idxs /\ StronglySorted Z.lt idxs.

#[export] Instance seeds_ask {A} (f : nat -> A) : Keeps seeds_fresh (ask f).
Proof. intros w Hw HT. cbn in *. destruct (Hw ltac:(lia)) as (H1 & H2 & H3 & H4 & H5). repeat split; auto; lia. Qed.

Lemma seeds_update f :
  (forall d, next_wots_index (f d) = next_wots_index d /\ wd_master_seed (f d) = wd_master_seed d) ->
  Keeps seeds_fresh (update f).
Proof. intros Hf w Hw HT. cbn in *. destruct (Hf (w_data w)) as [-> ->]. apply Hw, HT. Qed.

#[export] Instance seeds_save : Keeps seeds_fresh save.
Proof.
  unfold save. apply keeps_bind; [apply _|]. intros ok. apply keeps_bind; [apply _|]. intros _ w Hw HT.
  cbn in *. destruct (Hw HT) as (H1 & H2 & H3 & H4 & idxs & E & H5 & H6). repeat split; auto; [lia..|].
  exists idxs. repeat split; auto. eapply Forall_impl; [exact H5|]. cbn. lia.
Qed.

#[export] Instance seeds_acquire : Keeps seeds_fresh acquire_lock.
Proof. unfold acquire_lock. keeps_tac. Qed.

#[export] Instance seeds_open : Keeps seeds_fresh open.
Proof.
  unfold open. apply keeps_bind; [apply _|]. intros _ w Hw HT. cbn in *.
  destruct (Hw HT) as (H1 & H2 & H3 & H4 & H5). repeat split; auto; lia.
Qed.

Lemma sorted_snoc (l : list Z) x : StronglySorted Z.lt l -> Forall (fun i => i < x) l -> StronglySorted Z.lt (l ++ [x]).
Proof.
  induction 1 as [|a l HS IH HF]; intros HX; cbn; [repeat constructor|].
  inversion HX as [|? ? Ha Hl]; subst. constructor; [apply IH, Hl|]. apply Forall_app. split; [exact HF|]. repeat constructor. exact Ha.
Qed.

(** The counter is on disk before the seed is returned. *)
#[export] Instance seeds_allocate : Keeps seeds_fresh allocate_next_wots_seed.
Proof.
  unfold allocate_next_wots_seed. apply keeps_bind; [apply _|]. intros _ w Hw.
  unfold mbind, st_bind, data, reads.
  destruct (wd_master_seed (w_data w)) as [m|] eqn:EM; [|apply seeds_ask, Hw].
  unfold save, ask, update, modify, fail_if, hand_out, on_data, mret, st_ret, mbind, st_bind, reads. cbn.
  destruct (write_ok (w_tick w)); cbn; intros HT; cbn in *;
    destruct (Hw ltac:(lia)) as (H1 & H2 & H3 & H4 & idxs & E & H5 & H6);
    unfold wrap; rewrite Z.mod_small by lia; (split; [congruence|]).
  - split; [congruence|]. split; [lia|]. split; [lia|].
    exists (idxs ++ [next_wots_index (w_data w)]). rewrite map_app, E. split; [|split].
    + cbn. congruence.
    + apply Forall_app. split; [eapply Forall_impl; [exact H5|]; cbn; lia|]. repeat constructor; lia.
    + apply sorted_snoc; [exact H6|]. eapply Forall_impl; [exact H5|]. cbn. lia.
  - split; [exact H2|]. split; [lia|]. split; [lia|]. eauto.
Qed.

Lemma seeds_modify f : (forall w, w_data (f w) = w_data w /\ w_disk (f w) = w_disk w /\ w_tick (f w) = w_tick w
    /\ w_handed (f w) = w_handed w) -> Keeps seeds_fresh (modify f : WM ()).
Proof. intros Hf w Hw. destruct (Hf w) as (E1 & E2 & E3 & E4). unfold seeds_fresh. cbn. rewrite E1, E2, E3, E4. exact Hw. Qed.

#[export] Instance seeds_on_mss {A} pos (m : ST MssKeypair MssError A) : Keeps seeds_fresh (on_mss pos m).
Proof.
  intros w Hw. unfold on_mss. destruct (_ !! pos); [|exact Hw]. destruct (m _). exact Hw.
Qed.

(** Updates that leave the counter and the master seed alone. *)
Ltac seeds_tac :=
  repeat (keeps_tac; try (apply seeds_update; intros ?; split; reflexivity)).

#[export] Instance seeds_allocate_mss : Keeps seeds_fresh allocate_next_mss_seed.
Proof. unfold allocate_next_mss_seed. seeds_tac. Qed.

#[export] Instance seeds_generate_mss h : Keeps seeds_fresh (generate_mss h).
Proof. unfold generate_mss. seeds_tac. Qed.

#[export] Instance seeds_sign_mss pos c : Keeps seeds_fresh (sign_mss pos c).
Proof. unfold sign_mss, check_remaining. seeds_tac. Qed.

#[export] Instance seeds_salted a v : Keeps seeds_fresh (salted a v).
Proof. unfold salted. seeds_tac. Qed.

#[export] Instance seeds_change new_mss denoms : forall idx, Keeps seeds_fresh (change_outputs new_mss idx denoms).
Proof. induction denoms as [|v denoms IH]; intros idx; cbn [change_outputs]; seeds_tac. Qed.

#[export] Instance seeds_sign_owner c wc cache : Keeps seeds_fresh (sign_owner c wc cache).
Proof. unfold sign_owner. seeds_tac. Qed.

#[export] Instance seeds_sign_inputs c ids : forall cache, Keeps seeds_fresh (sign_inputs c ids cache).
Proof. induction ids as [|id ids IH]; intros cache; cbn [sign_inputs]; seeds_tac. Qed.

#[export] Instance seeds_private_pairs live a denoms : forall used, Keeps seeds_fresh (private_pairs live a used denoms).
Proof. induction denoms as [|v denoms IH]; intros used; cbn [private_pairs]; unfold private_pair; seeds_tac. Qed.

#[export] Instance seeds_add_change p c x : Keeps seeds_fresh (add_change p c x).
Proof. unfold add_change. seeds_tac. Qed.

Lemma seeds_import a v s c : Keeps seeds_fresh (update (fun d => (import_scanned a v s c d).2)).
Proof.
  apply seeds_update. intros d. unfold import_scanned.
  repeat match goal with |- context [match ?x with _ => _ end] => destruct x end; split; reflexivity.
Qed.

(** Every operation keeps them. *)
Lemma ops_fresh w A (m : WM A) : wallet_op w m -> Keeps seeds_fresh m.
Proof.
  intros Hm. destruct Hm; try apply _; try apply seeds_import;
    unfold generate_key, restore_generate_keys, import_coin, abandon_coins_at_address, store_license_metadata,
      rekey_license_metadata, auto_sign, build_outputs, prepare_commit, sign_reveal, sign_consolidate, complete_reveal,
      plan_private_send, prepare_mix_registration, sign_mix_input, complete_mix; seeds_tac;
    try (apply seeds_modify; intros ?; repeat split; reflexivity);
    apply seeds_update; intros d; unfold record_received; repeat match goal with
      |- context [match ?x with _ => _ end] => destruct x end; split; reflexivity.
Qed.

End Seeds.

Section Unique.
Context `{Blake3} `{!WalletEnv}.

Definition wots_seed_preimage (master : hash32) (i : Z) : bytes := bstr "mirstat/wots/v1" ++ master ++ le_bytes 8 i.

Lemma wots_seed_preimage_inj master i j : in_u 64 i -> in_u 64 j ->
  wots_seed_preimage master i = wots_seed_preimage master j -> i = j.
Proof.
  unfold wots_seed_preimage. intros Hi Hj E. apply app_inv_head, app_inv_head in E.
  revert E. apply le_bytes_inj; [exact Hi|exact Hj].
Qed.

Lemma new_world_fresh master : seeds_fresh master (new_world (Some master)).
Proof. intros HT. cbn. repeat split; try lia. exists []. repeat constructor. Qed.

(** C20: a wallet never hands out a one-time seed twice, whatever the sequence of
    operations, with writes that fail and restarts at any point: the seeds handed out
    are those of strictly increasing indices, each below the counter already on disk,
    and so they are distinct if the hash does not collide on their preimages. *)
Theorem one_time_seeds_unique master w :
  rtc wallet_step (new_world (Some master)) w -> Z.of_nat (w_tick w) < 2 ^ 64 ->
  (exists idxs, w_handed w = map (hd_wots_seed master) idxs /\ StronglySorted Z.lt idxs
     /\ Forall (fun i => 0 <= i < next_wots_index (w_disk w)) idxs)
  /\ (collision_free (fun x => exists i, 0 <= i < next_wots_index (w_disk w) /\ x = wots_seed_preimage master i) ->
      NoDup (w_handed w)).
Proof.
  intros HR HT.
  assert (HI : seeds_fresh master w).
  { revert HR. apply steps_keep; [intros w0 A m Hm; apply (ops_fresh master w0 A m Hm)|apply new_world_fresh]. }
  destruct (HI HT) as (_ & _ & H1 & H2 & idxs & E & HB & HS). split; [eauto|]. intros HC. rewrite E.
  apply NoDup_fmap_2_strong; [|clear -HS; induction HS as [|i l HS IH HF]; constructor; [|exact IH]].
  - intros i j Hi Hj EH. rewrite Forall_forall in HB. pose proof (HB i Hi) as Bi. pose proof (HB j Hj) as Bj.
    apply wots_seed_preimage_inj with master; [unfold in_u; lia..|]. apply HC; [eauto..|]. exact EH.
  - intros Hi. rewrite Forall_forall in HF. specialize (HF i Hi). lia.
Qed.

End Unique.

(** * Every coin stays spendable by the keys of the wallet *)

(** Rules that keep the state at hand between a query and the update that relies on it. *)
Lemma keeps_then I {A B} (f : World -> res WalletError A) (k : A -> WM B) :
  (forall w a, I w -> f w = Ok a -> I (k a w).2) -> Keeps I (reads f ≫= k).
Proof.
  intros Hk w Hw. unfold mbind, st_bind, reads. destruct (f w) as [a|e|] eqn:E; cbn [snd]; [|exact Hw..].
  apply (Hk w a Hw E).
Qed.

Lemma run_update_bind (I : World -> Prop) {B} f (k : () -> WM B) w :
  I (on_data f w) -> Keeps I (k ()) -> I ((update f ≫= k) w).2.
Proof. intros HI Hk. apply Hk, HI. Qed.

Lemma run_fail_if_bind (I : World -> Prop) {B} c e (k : () -> WM B) w :
  I w -> (c = false -> I (k () w).2) -> I ((fail_if c e ≫= k) w).2.
Proof. intros HI Hk. unfold fail_if, mbind, st_bind, reads, bail_if. destruct c; [exact HI|apply Hk; reflexivity]. Qed.

Lemma keeps_each_in I {A} (f : A -> WM ()) l : (forall a, a ∈ l -> Keeps I (f a)) -> Keeps I (st_each f l).
Proof.
  induction l as [|a l IH]; intros Hf; cbn [st_each]; [apply _|].
  apply keeps_bind; [apply Hf; left|]. intros _. apply IH. intros b Hb. apply Hf. right. exact Hb.
Qed.

Lemma lookup_map {A B} (f : A -> B) l i : map f l !! i = f <$> l !! i.
Proof. apply list_lookup_fmap. Qed.

Lemma map_insert {A B} (f : A -> B) l i x : map f (<[i := x]> l) = <[i := f x]> (map f l).
Proof. apply list_fmap_insert. Qed.

Section Spendable.
Context `{HB : Blake3} `{WE : !WalletEnv} `{WL : !WalletEnvLaws}.

Definition key_ok (k : WalletKey) : Prop :=
  k_owner_pk k = keygen (k_seed k) /\ k_address k = compute_address (k_owner_pk k).

(** The wallet has the key of the coin, and the input it makes of the coin is that coin. *)
Definition coin_ok (trees : list hash32) (c : WalletCoin) : Prop :=
  (wc_owner_pk c ∈ trees \/ wc_owner_pk c = keygen (wc_seed c))
  /\ wc_address c = compute_address (wc_owner_pk c)
  /\ input_coin_id (reveal_of c) = wc_coin_id c
  /\ in_u 64 (wc_value c).

Definition tree_ok (k : MssKeypair) : Prop := kp_wf k /\ 0 <= next_leaf k.

Definition wallet_ok (d : WalletData) : Prop :=
  Forall key_ok (keys d)
  /\ Forall (coin_ok (map master_pk (mss_keys d))) (coins d)
  /\ NoDup (map wc_coin_id (coins d))
  /\ Forall tree_ok (mss_keys d)
  /\ Forall (fun p => seeds_match (pc_outputs p) (pc_change_seeds p)) (pending d).

Definition world_ok (w : World) : Prop := wallet_ok (w_data w) /\ wallet_ok (w_disk w).

(** ** Updates of the data *)

Lemma new_key_ok seed : key_ok (new_key seed).
Proof. split; reflexivity. Qed.

Lemma ok_push_key k d : key_ok k -> wallet_ok d -> wallet_ok (push_key k d).
Proof. intros Hk (H1 & H2). split; [|exact H2]. cbn. apply Forall_app. auto. Qed.

Lemma has_coin_false d id : has_coin d id = false -> id ∉ map wc_coin_id (coins d).
Proof.
  unfold has_coin. intros E Hid. apply list_elem_of_fmap in Hid as (c & -> & Hc).
  assert (existsb (fun x => bool_decide (wc_coin_id x = wc_coin_id c)) (coins d) = true); [|congruence].
  apply existsb_exists. exists c. split; [apply list_elem_of_In, Hc|]. apply bool_decide_true. reflexivity.
Qed.

Lemma ok_push_coin c d : coin_ok (map master_pk (mss_keys d)) c -> has_coin d (wc_coin_id c) = false ->
  wallet_ok d -> wallet_ok (push_coin c d).
Proof.
  intros Hc Hn (H1 & H2 & H3 & H4). split; [exact H1|]. cbn. split; [apply Forall_app; auto|]. split; [|exact H4].
  rewrite map_app. apply NoDup_app. split; [exact H3|]. split; [|apply NoDup_singleton].
  intros id Hid [->|Hx]%elem_of_cons; [|inversion Hx]. apply (has_coin_false _ _ Hn Hid).
Qed.

(** Fewer coins, or fewer keys. *)
Lemma ok_filter_coins (P : WalletCoin -> Prop) `{!forall c, Decision (P c)} d :
  wallet_ok d -> wallet_ok (set_coins (filter P (coins d)) d).
Proof.
  intros (H1 & H2 & H3 & H4). split; [exact H1|]. cbn. split; [|split; [|exact H4]].
  - apply Forall_forall. intros c Hc. apply list_elem_of_filter in Hc as [_ Hc]. rewrite Forall_forall in H2. apply H2, Hc.
  - clear H2. induction (coins d) as [|c l IH]; [constructor|]. cbn in H3. apply NoDup_cons in H3 as [N1 N2].
    rewrite filter_cons. destruct (decide (P c)); [|apply IH, N2]. cbn. apply NoDup_cons. split; [|apply IH, N2].
    intros Hx. apply N1. apply list_elem_of_fmap in Hx as (x & -> & Hx). apply list_elem_of_filter in Hx as [_ Hx].
    apply list_elem_of_fmap_2, Hx.
Qed.

Lemma ok_fewer_keys ks d : (forall k, k ∈ ks -> k ∈ keys d) -> wallet_ok d -> wallet_ok (set_keys ks d).
Proof.
  intros HI (H1 & H2). split; [|exact H2]. cbn. apply Forall_forall. intros k Hk. rewrite Forall_forall in H1. apply H1, HI, Hk.
Qed.

Lemma ok_fewer_pending ps d : (forall p, p ∈ ps -> p ∈ pending d) -> wallet_ok d -> wallet_ok (set_pending ps d).
Proof.
  intros HI (H1 & H2 & H3 & H4 & H5). repeat (split; [assumption|]). cbn. apply Forall_forall. intros p Hp.
  rewrite Forall_forall in H5. apply H5, HI, Hp.
Qed.

(** A flag changes no coin. *)
Lemma ok_same_coins cs d : length cs = length (coins d) ->
  (forall i c, cs !! i = Some c -> exists c0, coins d !! i = Some c0 /\ (c = c0 \/ c = flag_signed c0)) ->
  wallet_ok d -> wallet_ok (set_coins cs d).
Proof.
  intros HL HI (H1 & H2 & H3 & H4). split; [exact H1|]. cbn. split; [|split; [|exact H4]].
  - apply Forall_lookup. intros i c Hc. destruct (HI i c Hc) as (c0 & Hc0 & HE).
    rewrite Forall_lookup in H2. specialize (H2 i c0 Hc0). destruct HE as [-> | ->]; exact H2.
  - assert (E : map wc_coin_id cs = map wc_coin_id (coins d)); [|rewrite E; exact H3].
    apply list_eq. intros i. rewrite !lookup_map. destruct (cs !! i) as [c|] eqn:EC.
    + destruct (HI i c EC) as (c0 & -> & [-> | ->]); reflexivity.
    + apply lookup_ge_None in EC. rewrite (proj2 (lookup_ge_None (coins d) i)) by lia. reflexivity.
Qed.

Lemma ok_mark_signed a d : wallet_ok d -> wallet_ok (mark_signed a d).
Proof.
  apply ok_same_coins; [apply length_map|]. intros i c. unfold mark_signed in *; rewrite lookup_map.
  destruct (coins d !! i) as [c0|]; [|discriminate]. intros [= <-]. exists c0. split; [reflexivity|].
  destruct (bool_decide _); auto.
Qed.

Lemma ok_flag_at pos c d : coins d !! pos = Some c -> wallet_ok d ->
  wallet_ok (set_coins (<[pos := flag_signed c]> (coins d)) d).
Proof.
  intros Hp. apply ok_same_coins; [apply length_insert|]. intros i x Hx. destruct (decide (i = pos)) as [->|HN].
  - rewrite list_lookup_insert_eq in Hx by (eapply lookup_lt_Some, Hp). injection Hx as <-. eauto.
  - rewrite list_lookup_insert_ne in Hx by congruence. eauto.
Qed.

Lemma coin_ok_mono pks pks' c : (forall k, k ∈ pks -> k ∈ pks') -> coin_ok pks c -> coin_ok pks' c.
Proof. intros HI [[Hc|Hc] H1]; split; auto. Qed.

Lemma ok_add_tree k d : tree_ok k -> wallet_ok d -> wallet_ok (set_mss (mss_keys d ++ [k]) d).
Proof.
  intros Hk (H1 & H2 & H3 & H4 & H5). split; [exact H1|]. cbn. split; [|split; [exact H3|split; [|exact H5]]].
  - eapply Forall_impl; [exact H2|]. intros c. apply coin_ok_mono. intros x Hx. rewrite map_app. apply elem_of_app. left. exact Hx.
  - apply Forall_app. auto.
Qed.

(** Signing with a tree moves its next leaf only. *)
Lemma ok_set_tree pos k k' d : mss_keys d !! pos = Some k -> master_pk k' = master_pk k -> tree_ok k' ->
  wallet_ok d -> wallet_ok (set_mss (<[pos := k']> (mss_keys d)) d).
Proof.
  intros Hp HM Hk (H1 & H2 & H3 & H4 & H5). split; [exact H1|]. cbn.
  assert (E : map master_pk (<[pos := k']> (mss_keys d)) = map master_pk (mss_keys d)).
  { rewrite map_insert, HM. apply list_insert_id. rewrite lookup_map, Hp. reflexivity. }
  rewrite E. split; [exact H2|split; [exact H3|split; [|exact H5]]]. apply Forall_insert; assumption.
Qed.

Lemma mss_sign_next c k : (mss_sign c k).2 = k \/ (mss_sign c k).2 = set_next_leaf k (next_leaf k + 1).
Proof. unfold mss_sign. destruct (_ <=? _); [left|right]; reflexivity. Qed.

Lemma tree_ok_sign c k : tree_ok k -> tree_ok (mss_sign c k).2 /\ master_pk (mss_sign c k).2 = master_pk k.
Proof.
  intros [HK HN]. destruct (mss_sign_next c k) as [-> | ->]; [repeat split; auto; apply HK|].
  split; [split; [apply kp_wf_set_next_leaf, HK|cbn; lia]|reflexivity].
Qed.

(** ** Operations *)

Lemma ok_update f : (forall d, wallet_ok d -> wallet_ok (f d)) -> Keeps world_ok (update f).
Proof. intros Hf w [H1 H2]. split; [apply Hf, H1|exact H2]. Qed.

#[export] Instance ok_ask {A} (f : nat -> A) : Keeps world_ok (ask f).
Proof. intros w Hw. exact Hw. Qed.

#[export] Instance ok_save : Keeps world_ok save.
Proof.
  unfold save. apply keeps_bind; [apply _|]. intros ok. apply keeps_bind; [apply _|]. intros _ w [H1 H2].
  split; exact H1.
Qed.

#[export] Instance ok_acquire : Keeps world_ok acquire_lock.
Proof. unfold acquire_lock. keeps_tac. Qed.

#[export] Instance ok_open : Keeps world_ok open.
Proof. unfold open. apply keeps_bind; [apply _|]. intros _ w [H1 H2]. split; exact H2. Qed.

#[export] Instance ok_hand_out s : Keeps world_ok (hand_out s).
Proof. intros w Hw. exact Hw. Qed.

Ltac ok_tac := repeat (keeps_tac; try (apply ok_update; intros ? Hd; exact Hd)).

#[export] Instance ok_allocate : Keeps world_ok allocate_next_wots_seed.
Proof. unfold allocate_next_wots_seed. ok_tac. Qed.

#[export] Instance ok_allocate_mss : Keeps world_ok allocate_next_mss_seed.
Proof. unfold allocate_next_mss_seed. ok_tac. Qed.

#[export] Instance ok_push_new_key s : Keeps world_ok (update (push_key (new_key s))).
Proof. apply ok_update. intros d. apply ok_push_key, new_key_ok. Qed.

#[export] Instance ok_generate_key : Keeps world_ok generate_key.
Proof. unfold generate_key. ok_tac. Qed.

#[export] Instance ok_generate_mss h : Keeps world_ok (generate_mss h).
Proof.
  unfold generate_mss. apply keeps_bind; [apply _|]. intros seed. apply keeps_ask_bind; [apply _|]. intros t.
  apply keeps_reads_bind. intros _ k _ Hk.
  assert (HK : tree_ok k).
  { unfold lift_mss in Hk. destruct (mss_keygen _ seed h) as [k'|e|] eqn:E; try discriminate. injection Hk as <-.
    apply mss_keygen_wf in E as (E1 & E2 & _); [|apply checkpoint_own]. split; [exact E1|lia]. }
  ok_tac. apply ok_update. intros d. apply ok_add_tree, HK.
Qed.

#[export] Instance ok_salted a v : Keeps world_ok (salted a v).
Proof. unfold salted. ok_tac. Qed.

#[export] Instance ok_change new_mss denoms : forall idx, Keeps world_ok (change_outputs new_mss idx denoms).
Proof. induction denoms as [|v denoms IH]; intros idx; cbn [change_outputs]; ok_tac. Qed.

#[export] Instance ok_on_mss_sign pos c : Keeps world_ok (on_mss pos (mss_sign c)).
Proof.
  intros w [H1 H2]. unfold on_mss. destruct (mss_keys (w_data w) !! pos) as [k|] eqn:EK; [|split; assumption].
  destruct (mss_sign c k) as [r k'] eqn:ES. split; [|exact H2].
  assert (HK : tree_ok k) by (destruct H1 as (_ & _ & _ & H1 & _); rewrite Forall_lookup in H1; eapply H1, EK).
  pose proof (tree_ok_sign c k HK) as [T1 T2]. rewrite ES in T1, T2. apply (ok_set_tree pos k k' _ EK T2 T1 H1).
Qed.

#[export] Instance ok_sign_mss pos c : Keeps world_ok (sign_mss pos c).
Proof. unfold sign_mss, check_remaining. ok_tac. Qed.

#[export] Instance ok_mark a : Keeps world_ok (update (mark_signed a)).
Proof. apply ok_update. intros d. apply ok_mark_signed. Qed.

#[export] Instance ok_sign_owner c wc cache : Keeps world_ok (sign_owner c wc cache).
Proof. unfold sign_owner. ok_tac. Qed.

#[export] Instance ok_sign_inputs c ids : forall cache, Keeps world_ok (sign_inputs c ids cache).
Proof. induction ids as [|id ids IH]; intros cache; cbn [sign_inputs]; ok_tac. Qed.

#[export] Instance ok_private_pairs live a denoms : forall used, Keeps world_ok (private_pairs live a used denoms).
Proof. induction denoms as [|v denoms IH]; intros used; cbn [private_pairs]; unfold private_pair; ok_tac. Qed.

#[export] Instance ok_remove ids : Keeps world_ok (update (remove_coins ids)).
Proof. apply ok_update. intros d. apply ok_filter_coins. Qed.

(** A coin of the wallet's own outputs. *)
Lemma own_coin_ok pks o seed b c coin_id : pays_to o seed -> output_coin_id o = Some coin_id ->
  coin_ok pks (mkWalletCoin seed (keygen seed) (output_address o) (output_value o) (output_salt o) coin_id b c).
Proof.
  intros (v & salt & -> & Hv) [= <-]. split; [right; reflexivity|]. split; [reflexivity|].
  split; [|unfold in_u, umax in *; cbn; lia]. unfold input_coin_id, reveal_of.
  cbn [wc_owner_pk wc_value wc_salt wc_commitment in_commitment in_predicate in_value in_salt output_value output_salt].
  rewrite (proj2 (Z.eqb_neq v 0)) by lia. reflexivity.
Qed.

Lemma ok_add_change p c x : seeds_match (pc_outputs p) (pc_change_seeds p) -> x ∈ pc_change_seeds p ->
  Keeps world_ok (add_change p c x).
Proof.
  intros HM Hx. unfold seeds_match in HM. rewrite Forall_forall in HM. destruct (HM x Hx) as (o & Ho & HP).
  unfold add_change. apply keeps_reads_bind. intros _ o' _ E. rewrite Ho in E. injection E as <-.
  destruct (output_coin_id o) as [coin_id|] eqn:EC; [|apply _]. apply keeps_then. intros w d [H1 H2] [= <-].
  destruct (has_coin (w_data w) coin_id) eqn:EH; [split; assumption|].
  split; [|exact H2]. apply ok_push_coin; [|exact EH|exact H1]. apply own_coin_ok; assumption.
Qed.

#[export] Instance ok_complete c : Keeps world_ok (complete_reveal c).
Proof.
  unfold complete_reveal. apply keeps_reads_bind. intros w p [H1 _] HP.
  assert (HM : seeds_match (pc_outputs p) (pc_change_seeds p)).
  { destruct H1 as (_ & _ & _ & _ & H1). rewrite Forall_forall in H1. apply H1.
    unfold find_pending in HP. destruct (list_find _ (pending (w_data w))) as [[i q]|] eqn:EF; [|discriminate].
    injection HP as <-. apply list_find_Some in EF as (EF & _). eapply list_elem_of_lookup_2, EF. }
  apply keeps_bind; [apply _|intros d]. cbv zeta. apply keeps_bind; [apply ok_remove|intros _].
  apply keeps_bind; [|intros _].
  - apply keeps_each_in. intros x Hx. apply ok_add_change; assumption.
  - ok_tac. apply ok_update. clear. intros d. apply ok_fewer_pending. intros q Hq. apply list_elem_of_filter in Hq. apply Hq.
Qed.

#[export] Instance ok_auto_sign pk c : Keeps world_ok (auto_sign pk c).
Proof.
  unfold auto_sign. apply keeps_then. intros w d Hw [= <-].
  destruct (mss_position (w_data w) pk); [refine ((_ : Keeps world_ok _) w Hw); ok_tac|].
  destruct (list_find _ (keys (w_data w))) as [[]|]; [exact Hw|].
  destruct (list_find _ (coins (w_data w))) as [[pos coin]|] eqn:EF; [|exact Hw].
  apply run_fail_if_bind; [exact Hw|]. intros _. apply run_update_bind; [|ok_tac].
  destruct Hw as [H1 H2]. split; [|exact H2]. apply ok_flag_at; [|exact H1]. apply list_find_Some in EF. apply EF.
Qed.

Lemma scanned_coin_ok trees seed pk a v s c com b :
  (pk ∈ trees \/ pk = keygen seed) -> a = compute_address pk -> in_u 64 v -> (v = 0 <-> is_Some c) ->
  (v = 0 -> com = c) ->
  coin_ok trees (mkWalletCoin seed pk a v s (scanned_coin_id a v s c) b com).
Proof.
  intros HK -> HV HC HE. split; [exact HK|]. split; [reflexivity|]. split; [|exact HV].
  unfold input_coin_id, reveal_of, scanned_coin_id, confidential_preimage.
  cbn [wc_owner_pk wc_value wc_salt wc_commitment wc_coin_id in_commitment in_predicate in_value in_salt].
  destruct (Z.eqb_spec v 0) as [E|E].
  - rewrite (HE E). destruct (proj1 HC E) as [x ->]. reflexivity.
  - destruct c as [x|]; [|reflexivity]. destruct E. apply HC. eauto.
Qed.

Lemma ok_import a v s c d : scanned_ok d a v c -> wallet_ok d -> wallet_ok (import_scanned a v s c d).2.
Proof.
  intros (HV & HC & HA) Hd. unfold import_scanned. destruct (has_coin d _) eqn:EH; [exact Hd|].
  assert (Hd' := Hd). destruct Hd' as (H1 & H2 & H3 & H4 & _).
  destruct (list_find _ (keys d)) as [[pos k]|] eqn:EK.
  { apply list_find_Some in EK as (EK & EA & _). rewrite Forall_lookup in H1. destruct (H1 pos k EK) as [K1 K2].
    cbn [snd]. apply ok_push_coin; [|exact EH|apply ok_fewer_keys; [|exact Hd]].
    - apply scanned_coin_ok; auto. congruence.
    - intros x Hx. rewrite delete_take_drop in Hx. apply elem_of_app in Hx as [Hx|Hx].
      + apply (subseteq_take pos (keys d)), Hx.
      + apply (subseteq_drop (S pos) (keys d)), Hx. }
  destruct (list_find _ (mss_keys d)) as [[pos k]|] eqn:EM.
  { apply list_find_Some in EM as (EM & EA & _). cbn [snd]. apply ok_push_coin; [|exact EH|exact Hd].
    apply scanned_coin_ok; auto. left. apply list_elem_of_fmap_2. eapply list_elem_of_lookup_2, EM. }
  destruct (list_find _ (coins d)) as [[pos x]|] eqn:EX; [|exact Hd].
  destruct (negb _ && wots_signed x); [exact Hd|]. apply list_find_Some in EX as (EX & EA & _).
  cbn [snd]. apply ok_push_coin; [|exact EH|exact Hd].
  rewrite Forall_lookup in H2. destruct (H2 pos x EX) as (X1 & X2 & _). apply scanned_coin_ok; auto; [congruence|].
  intros E. destruct (HA E). rewrite <- EA. apply list_elem_of_fmap_2. eapply list_elem_of_lookup_2, EX.
Qed.

#[export] Instance ok_import_coin seed v s : 0 < v <= umax 64 -> Keeps world_ok (import_coin seed v s).
Proof.
  intros HV. unfold import_coin. apply keeps_then. intros w d Hw [= <-].
  apply run_fail_if_bind; [exact Hw|]. intros EH. apply run_update_bind.
  - destruct Hw as [H1 H2]. split; [|exact H2]. apply ok_push_coin; [|exact EH|exact H1].
    apply (scanned_coin_ok _ seed _ _ v s None None); auto.
    + unfold in_u, umax in *. lia.
    + split; [lia|]. intros [x Hx]. discriminate.
  - ok_tac. apply ok_update. intros d. apply ok_fewer_keys. intros k Hk. apply list_elem_of_filter in Hk. apply Hk.
Qed.

Lemma ok_prepare ins outs seeds p c : seeds_match outs seeds -> Keeps world_ok (prepare_commit ins outs seeds p c).
Proof.
  intros HM. unfold prepare_commit. ok_tac. apply ok_update. clear -HM. intros d (H1 & H2 & H3 & H4 & H5).
  repeat (split; [assumption|]). cbn. apply Forall_app. split; [exact H5|]. repeat constructor. exact HM.
Qed.

Lemma ok_complete_mix spent o seed : pays_to o seed -> Keeps world_ok (complete_mix spent o seed).
Proof.
  intros HP. unfold complete_mix. apply keeps_bind; [apply _|]. intros _. apply keeps_reads_bind.
  intros _ coin_id _ EC. destruct (output_coin_id o) as [i|] eqn:EO; [|discriminate]. injection EC as ->.
  ok_tac. apply ok_update. clear -HP EO. intros d Hd. destruct (has_coin d coin_id) eqn:EH; [exact Hd|].
  apply ok_push_coin; [|exact EH|exact Hd]. apply own_coin_ok; assumption.
Qed.

Lemma ok_licenses l d : wallet_ok d -> wallet_ok (set_licenses l d).
Proof. intros Hd. exact Hd. Qed.

(** Every operation keeps the wallet sound. *)
Lemma ops_ok w A (m : WM A) : wallet_op w m -> world_ok w -> world_ok (m w).2.
Proof.
  intros Hm Hw. destruct Hm as [| | | | | |a v s c HS|seed v s HV|a|id l|a b|ids| |ids t|pk c|a denoms change|
    ins outs seeds p c HM|p|p|c|live a denoms|id|id c|spent o seed HP];
    try exact Hw;
    try solve [refine ((_ : Keeps world_ok _) w Hw);
               unfold restore_generate_keys, store_license_metadata, rekey_license_metadata, build_outputs,
                 sign_reveal, sign_consolidate, plan_private_send, prepare_mix_registration, sign_mix_input; ok_tac].
  - destruct Hw as [H1 H2]. split; [|exact H2]. apply ok_import; assumption.
  - refine (ok_import_coin _ _ _ HV w Hw).
  - unfold abandon_coins_at_address. refine (keeps_then world_ok _ _ _ w Hw). clear w Hw. intros w d Hw [= <-].
    apply run_update_bind; [destruct Hw as [H1 H2]; split; [apply ok_filter_coins, H1|exact H2]|]. ok_tac.
  - refine (ok_update _ _ w Hw). intros d Hd. unfold record_received. destruct ids; exact Hd.
  - refine (ok_prepare _ _ _ _ _ HM w Hw).
  - refine (ok_complete_mix _ _ _ HP w Hw).
Qed.

Lemma wallet_ok_empty seed : wallet_ok (wallet_empty seed).
Proof. repeat split; constructor. Qed.

(** C22: every reachable wallet is sound, in memory and on disk: each coin's id is that
    of the input the wallet makes of it, its address is that of a key whose seed or tree
    the wallet holds, coin ids are unique, the key trees are Merkle trees of their own
    keys, and the change seeds of a pending commit are the keys of its outputs.  The
    operations are those of [wallet_op]: a scan imports an output with a state commitment
    only with that commitment and only away from the addresses of coins held
    ([scanned_ok]; for the others the code records an input that names another coin, see
    [sibling_state_lost]), a commit is prepared with the change seeds of its outputs, and
    the checkpoint of a key tree, if there is one, is of the tree's own seed
    ([checkpoint_own]; the code does not check it). *)
Theorem wallet_stays_sound seed w : rtc wallet_step (new_world seed) w -> wallet_ok (w_data w) /\ wallet_ok (w_disk w).
Proof.
  apply (steps_keep world_ok); [intros w0 A m; apply ops_ok|split; apply wallet_ok_empty].
Qed.

End Spendable.

(** * Concrete runs *)

(** Two seeds, with a restart between them. *)
Definition demo_run : World :=
  let w1 := (@allocate_next_wots_seed tail_blake3 demo_env (new_world (Some (zero_arr 32)))).2 in
  let w2 := (@open demo_env w1).2 in
  (@generate_key tail_blake3 demo_env w2).2.

Lemma demo_run_reachable : rtc (@wallet_step tail_blake3 demo_env) (new_world (Some (zero_arr 32))) demo_run.
Proof.
  unfold demo_run. cbv zeta.
  refine (rtc_l _ _ _ _ (step_of _ _ (op_allocate _)) _).
  refine (rtc_l _ _ _ _ (step_of _ _ (op_open _)) _).
  apply rtc_once. exact (step_of _ _ (op_generate_key _)).
Qed.

Lemma one_time_seeds_unique_witness : length (w_handed demo_run) = 2%nat /\ NoDup (w_handed demo_run).
Proof.
  split; [lazy; reflexivity|].
  apply (proj2 (@one_time_seeds_unique tail_blake3 demo_env (zero_arr 32) demo_run demo_run_reachable ltac:(lazy; reflexivity))).
  assert (EN : next_wots_index (w_disk demo_run) = 2) by (lazy; reflexivity). rewrite EN.
  intros x y (i & Hi & ->) (j & Hj & ->) E.
  assert (Ei : i = 0 \/ i = 1) by lia. assert (Ej : j = 0 \/ j = 1) by lia.
  destruct Ei as [-> | ->], Ej as [-> | ->]; try reflexivity; lazy in E; discriminate.
Defined.

(** A wallet with a coin, a key tree and a pending commit that pays change to itself. *)
Definition busy_coin : hash32 := @compute_coin_id const_blake3 (@compute_address const_blake3 (@keygen const_blake3 (zero_arr 32))) 8 (zero_arr 32).
Definition busy_change : hash32 := arr_of 32 [x09].
Definition busy_outputs : list OutputData :=
  [Standard (zero_arr 32) 4 (zero_arr 32); Standard (@compute_address const_blake3 (@keygen const_blake3 busy_change)) 2 (zero_arr 32)].

Definition busy_run : World :=
  let w1 := (@import_coin const_blake3 demo_env (zero_arr 32) 8 (zero_arr 32) (new_world None)).2 in
  let w2 := (@generate_mss const_blake3 demo_env 1 w1).2 in
  (@prepare_commit const_blake3 demo_env [busy_coin] busy_outputs [(1%nat, busy_change)] false false w2).2.

Lemma busy_run_reachable : rtc (@wallet_step const_blake3 demo_env) (new_world None) busy_run.
Proof.
  unfold busy_run. cbv zeta.
  refine (rtc_l _ _ _ _ (step_of _ _ (op_import_coin _ (zero_arr 32) 8 (zero_arr 32) _)) _); [split; [reflexivity|discriminate]|].
  refine (rtc_l _ _ _ _ (step_of _ _ (op_generate_mss _ 1)) _).
  apply rtc_once. refine (step_of _ _ (op_prepare _ [busy_coin] busy_outputs [(1%nat, busy_change)] false false _)).
  apply Forall_singleton. exists (Standard (@compute_address const_blake3 (@keygen const_blake3 busy_change)) 2 (zero_arr 32)).
  split; [reflexivity|]. exists 2, (zero_arr 32). split; [reflexivity|unfold umax; lia].
Qed.

Lemma wallet_stays_sound_witness :
  @wallet_ok const_blake3 (w_data busy_run) /\ @wallet_ok const_blake3 (w_disk busy_run)
  /\ length (coins (w_data busy_run)) = 1%nat /\ length (mss_keys (w_data busy_run)) = 1%nat /\ length (pending (w_disk busy_run)) = 1%nat.
Proof.
  pose proof (@wallet_stays_sound const_blake3 demo_env _ None busy_run busy_run_reachable) as [H1 H2].
  split; [exact H1|]. split; [exact H2|]. repeat split; vm_compute; reflexivity.
Defined.
