(* ===== verification/WalletReveal.v ===== *)
(** A send from the wallet's side: a commit that passes the co-spend gate leads to a
    reveal that validates on chain, signed once by each key it needs. *)
From S2P Require Import Prelude Bytecode Types Wots Mss Script Templates Smt Transaction Wallet WalletSelect WalletSpend WalletSafe.

#[local] Open Scope Z_scope.

(** * Signatures *)

Abbreviation short sig := (length sig <= 1280)%nat.

Section Signatures.
Context `{Blake3}.

Lemma sign_wots_ok seed m : short (sign_wots seed m) /\ sig_ok (sign_wots seed m) m (keygen seed) = true.
Proof.
  assert (HL : length (sign_wots seed m) = SIG_SIZE) by (apply length_sig_to_bytes, length_sign).
  split; [rewrite HL; apply Nat.leb_le; reflexivity|]. unfold sig_ok, verify_signature.
  rewrite arr_length, try_arr_list, HL, Nat.eqb_refl. cbn [negb Nat.eqb unwrap mbind res_bind].
  unfold sign_wots. rewrite sig_to_from_bytes by apply length_sign. apply verify_sign.
Qed.

Lemma sign_mss_ok s m pk : sig_wf s -> mss_verify s m pk = true ->
  short (mss_to_bytes s) /\ sig_ok (mss_to_bytes s) m pk = true.
Proof.
  intros HW HV.
  assert (HL : (length (mss_to_bytes s) = 44 + SIG_SIZE + 32 * length (auth_path s))%nat).
  { unfold mss_to_bytes. rewrite !length_app, (length_sig_to_bytes (wots_sig s)) by apply (swf_wots s HW).
    rewrite !length_le_bytes, arr_length, length_concat_hashes. lia. }
  pose proof (swf_path s HW) as HP. assert (ES : SIG_SIZE = 576%nat) by reflexivity. unfold MAX_HEIGHT in HP.
  split; [lia|]. unfold sig_ok, verify_signature. rewrite arr_length, try_arr_list, Nat.eqb_refl.
  cbn [negb unwrap mbind res_bind]. rewrite (proj2 (Nat.eqb_neq (length (mss_to_bytes s)) SIG_SIZE)) by lia.
  rewrite mss_from_to_bytes by exact HW. exact HV.
Qed.

(** A signature that opens the input's own lock. *)
Definition signed_input (m : hash32) (p : InputReveal * Witness) : Prop :=
  exists sig pk, p.2 = ScriptInputs [sig] /\ in_predicate p.1 = p2pk pk /\ short sig /\ sig_ok sig m pk = true.

Lemma signed_verifies usize_bits m h outs p : signed_input m p ->
  verify_input usize_bits p.1 p.2 m h outs = true.
Proof.
  intros (sig & pk & E1 & E2 & HL & HS). unfold verify_input, verify_predicate. rewrite E1, E2. unfold p2pk.
  rewrite (proj2 (p2pk_spec usize_bits pk [sig] _)); [reflexivity|].
  exists sig. split; [reflexivity|]. split; [unfold MAX_ITEM_SIZE; lia|exact HS].
Qed.

End Signatures.

(** * Signing the inputs *)

(** What signing does to the wallet: it sets flags of coins and moves leaves of trees. *)
Definition flagged_from (c c' : WalletCoin) : Prop := c' = c \/ c' = flag_signed c.

Record evolves (d d' : WalletData) : Prop := mk_evolves {
  ev_coins : Forall2 flagged_from (coins d) (coins d');
  ev_trees : map master_pk (mss_keys d') = map master_pk (mss_keys d)
}.

Definition all_signed_at (d : WalletData) (a : hash32) : Prop :=
  Forall (fun c => wc_address c = a -> wots_signed c = true) (coins d).

Lemma evolves_refl d : evolves d d.
Proof. split; [|reflexivity]. induction (coins d); constructor; [left; reflexivity|assumption]. Qed.

Lemma evolves_trans d1 d2 d3 : evolves d1 d2 -> evolves d2 d3 -> evolves d1 d3.
Proof.
  intros [C1 T1] [C2 T2]. split; [|congruence]. revert C2. generalize (coins d3).
  induction C1 as [|a b l l' Hab C1 IH]; intros l3 C2; inversion C2 as [|? c ? l4 Hbc C3]; subst; constructor; [|apply IH, C3].
  destruct Hab as [-> | ->], Hbc as [-> | ->]; [left|right|right|right]; reflexivity.
Qed.

Lemma evolves_signed d d' a : evolves d d' -> all_signed_at d a -> all_signed_at d' a.
Proof.
  intros [C _] HS. unfold all_signed_at in *. induction C as [|x y l l' Hxy C IH]; [constructor|].
  inversion HS as [|? ? Hx Hl]; subst. constructor; [|apply IH, Hl].
  destruct Hxy as [-> | ->]; [exact Hx|reflexivity].
Qed.

Lemma evolves_find d d' id wc : evolves d d' -> find_coin d id = Some wc ->
  exists wc', find_coin d' id = Some wc' /\ flagged_from wc wc'.
Proof.
  intros [C _]. unfold find_coin. induction C as [|x y l l' Hxy C IH]; [discriminate|].
  cbn [list_find]. assert (E : wc_coin_id y = wc_coin_id x) by (destruct Hxy as [-> | ->]; reflexivity). rewrite E.
  destruct (decide (wc_coin_id x = id)); [intros [= <-]; eauto|].
  destruct (list_find _ l) as [[i z]|], (list_find _ l') as [[j z']|]; cbn in *; try discriminate; auto.
Qed.

Lemma find_coin_Some d id wc : find_coin d id = Some wc -> wc ∈ coins d /\ wc_coin_id wc = id.
Proof.
  unfold find_coin. destruct (list_find _ (coins d)) as [[i c]|] eqn:E; [|discriminate]. intros [= <-].
  apply list_find_Some in E as (E & EI & _). split; [eapply list_elem_of_lookup_2, E|exact EI].
Qed.

Section Signing.
Context `{HB : Blake3} `{WE : !WalletEnv} `{WL : !WalletEnvLaws}.

(** Every tree that has not signed this commitment yet has a leaf left. *)
Record can_sign (w : World) (cache : gmap hash32 bytes) : Prop := mk_can_sign {
  cs_ok : world_ok w;
  cs_leaves : forall k, k ∈ mss_keys (w_data w) -> cache !! master_pk k = None -> next_leaf k < num_leaves (height k)
}.

Definition good_cache (m : hash32) (cache : gmap hash32 bytes) : Prop :=
  forall (pk : hash32) sig, cache !! pk = Some sig -> short sig /\ sig_ok sig m pk = true.

Lemma mss_position_Some d pk pos : mss_position d pk = Some pos ->
  exists k, mss_keys d !! pos = Some k /\ master_pk k = pk.
Proof.
  unfold mss_position. destruct (list_find _ (mss_keys d)) as [[i k]|] eqn:E; [|discriminate]. intros [= <-].
  apply list_find_Some in E as (E & EK & _). eauto.
Qed.

Lemma mss_position_None d pk : mss_position d pk = None -> pk ∉ map master_pk (mss_keys d).
Proof.
  unfold mss_position. destruct (list_find _ (mss_keys d)) as [[i k]|] eqn:E; [discriminate|]. intros _ Hpk.
  apply list_elem_of_fmap in Hpk as (k & -> & Hk). apply list_find_None in E. rewrite Forall_forall in E. apply (E k Hk). reflexivity.
Qed.

(** A tree with a leaf left signs. *)
Lemma sign_mss_spec pos m w k : mss_keys (w_data w) !! pos = Some k -> tree_ok k -> next_leaf k < num_leaves (height k) ->
  exists sig, sign_mss pos m w = (Ok sig, on_data (fun d => set_mss (<[pos := set_next_leaf k (next_leaf k + 1)]> (mss_keys d)) d) w)
  /\ short sig /\ sig_ok sig m (master_pk k) = true.
Proof.
  intros EK [HW H0] HL. destruct (mss_sign_fresh k m HW (conj H0 HL)) as (s & ES & EL & EP & EC & EV).
  assert (HM : num_leaves (height k) <= 2 ^ 20).
  { pose proof (kp_height k HW) as HH. rewrite num_leaves_nat by lia. rewrite Nat2Z.inj_pow. unfold MAX_HEIGHT in HH.
    apply Z.pow_le_mono_r; lia. }
  destruct (sign_mss_ok s m (master_pk k)) as [S1 S2]; [split; [unfold in_u; lia|exact EC|]|exact EV|].
  { rewrite EP. apply (kp_height k HW). }
  exists (mss_to_bytes s). split; [|split; assumption].
  unfold sign_mss, check_remaining, on_mss, mbind, st_bind, reads. rewrite EK. cbn [unwrap mbind res_bind].
  unfold remaining, wrap. rewrite Z.mod_small by lia. rewrite (proj2 (Z.eqb_neq _ _)) by lia.
  cbn [bail_if]. rewrite ES. reflexivity.
Qed.

Lemma evolves_mark d a : evolves d (mark_signed a d).
Proof.
  split; [|reflexivity]. cbn. induction (coins d) as [|c l IH]; constructor; [|exact IH].
  destruct (bool_decide _); [right|left]; reflexivity.
Qed.

Lemma mark_signed_all d a : all_signed_at (mark_signed a d) a.
Proof.
  unfold all_signed_at. cbn. apply Forall_map, Forall_forall. intros c _. destruct (decide (wc_address c = a)) as [E|E].
  - rewrite bool_decide_true by exact E. reflexivity.
  - rewrite bool_decide_false by exact E. contradiction.
Qed.

Lemma sign_owner_spec m wc cache w : can_sign w cache -> good_cache m cache ->
  wc ∈ coins (w_data w) ->
  exists sig cache' w', sign_owner m wc cache w = (Ok (sig, cache'), w')
  /\ short sig /\ sig_ok sig m (wc_owner_pk wc) = true
  /\ can_sign w' cache' /\ good_cache m cache' /\ evolves (w_data w) (w_data w')
  /\ (wc_owner_pk wc ∉ map master_pk (mss_keys (w_data w)) -> all_signed_at (w_data w') (wc_address wc)).
Proof.
  intros [HO HL] HC Hwc. pose proof (ok_sign_owner m wc cache w HO) as HO'.
  unfold sign_owner, data, mbind, st_bind, reads in *.
  destruct (mss_position (w_data w) (wc_owner_pk wc)) as [pos|] eqn:EP.
  - destruct (mss_position_Some _ _ _ EP) as (k & EK & EM). pose proof (list_elem_of_lookup_2 _ _ _ EK) as Hk.
    assert (HN : wc_owner_pk wc ∉ map master_pk (mss_keys (w_data w)) -> False).
    { intros HX. apply HX. rewrite <- EM. apply list_elem_of_fmap_2, Hk. }
    destruct (cache !! wc_owner_pk wc) as [sig|] eqn:EC.
    + exists sig, cache, w. split; [reflexivity|]. destruct (HC _ _ EC) as [S1 S2].
      repeat (split; [assumption || (split; assumption) || apply evolves_refl|]). intros HX. destruct (HN HX).
    + assert (HT : tree_ok k) by (destruct HO as [(_ & _ & _ & HO & _) _]; rewrite Forall_forall in HO; apply HO, Hk).
      destruct (sign_mss_spec pos m w k EK HT (HL k Hk ltac:(congruence))) as (sig & ES & S1 & S2). rewrite EM in S2.
      rewrite ES in HO' |- *. do 3 eexists. split; [reflexivity|].
      split; [exact S1|]. split; [exact S2|]. split; [split; [exact HO'|]|split; [|split; [split|]]].
      * intros x Hx HX. cbn in Hx. apply list_elem_of_lookup in Hx as [i Hx].
        destruct (decide (i = pos)) as [->|HI].
        { rewrite list_lookup_insert_eq in Hx by (eapply lookup_lt_Some, EK). injection Hx as <-. cbn in HX.
          rewrite EM, lookup_insert_eq in HX. discriminate. }
        rewrite list_lookup_insert_ne in Hx by congruence. apply HL; [eapply list_elem_of_lookup_2, Hx|].
        destruct (decide (master_pk x = wc_owner_pk wc)) as [E|E]; [rewrite E, lookup_insert_eq in HX; discriminate|].
        rewrite lookup_insert_ne in HX by congruence. exact HX.
      * intros pk b Hb. destruct (decide (pk = wc_owner_pk wc)) as [->|E].
        { rewrite lookup_insert_eq in Hb. injection Hb as <-. auto. }
        rewrite lookup_insert_ne in Hb by congruence. apply HC, Hb.
      * apply (ev_coins _ _ (evolves_refl (w_data w))).
      * cbn. rewrite map_insert. cbn. apply list_insert_id. rewrite lookup_map, EK. reflexivity.
      * intros HX. destruct (HN HX).
  - pose proof (mss_position_None _ _ EP) as HN. destruct HO as [HO1 HO2]. pose proof HO1 as (_ & HCo & _).
    rewrite Forall_forall in HCo. destruct (HCo wc Hwc) as ([HK|HK] & _); [contradiction|].
    do 3 eexists. split; [reflexivity|]. rewrite HK. destruct (sign_wots_ok (wc_seed wc) m) as [S1 S2].
    repeat (split; [assumption|]). split; [split; [exact HO'|exact HL]|]. split; [exact HC|].
    split; [apply evolves_mark|]. intros _. apply mark_signed_all.
Qed.

Lemma sign_inputs_spec m ids : forall cache w, can_sign w cache -> good_cache m cache ->
  (forall id, id ∈ ids -> is_Some (find_coin (w_data w) id)) ->
  exists ins wits w', sign_inputs m ids cache w = (Ok (ins, wits), w')
  /\ length wits = length ins /\ world_ok w' /\ evolves (w_data w) (w_data w')
  /\ Forall2 (fun id i => forall wc, find_coin (w_data w) id = Some wc -> i = reveal_of wc) ids ins
  /\ Forall (signed_input m) (zip ins wits)
  /\ (forall id wc, id ∈ ids -> find_coin (w_data w) id = Some wc ->
        wc_owner_pk wc ∉ map master_pk (mss_keys (w_data w)) -> all_signed_at (w_data w') (wc_address wc)).
Proof.
  induction ids as [|id ids IH]; intros cache w HS HC HF.
  - exists [], [], w. split; [reflexivity|]. split; [reflexivity|]. split; [apply HS|]. split; [apply evolves_refl|].
    repeat (split; [constructor|]). intros id wc Hid. inversion Hid.
  - destruct (HF id ltac:(left)) as [wc Ewc]. destruct (find_coin_Some _ _ _ Ewc) as [Hwc _].
    destruct (sign_owner_spec m wc cache w HS HC Hwc) as (sig & cache' & w1 & E1 & S1 & S2 & HS' & HC' & HE & HA).
    assert (HF' : forall x, x ∈ ids -> is_Some (find_coin (w_data w1) x)).
    { intros x Hx. destruct (HF x ltac:(right; exact Hx)) as [c Ec].
      destruct (evolves_find _ _ _ _ HE Ec) as (c' & -> & _). eauto. }
    destruct (IH cache' w1 HS' HC' HF') as (ins & wits & w2 & E2 & EL & HO & HE2 & HI & HZ & HA2).
    exists (reveal_of wc :: ins), (ScriptInputs [sig] :: wits), w2.
    split; [cbn [sign_inputs]; unfold data, mbind, st_bind, reads; rewrite Ewc, E1, E2; reflexivity|].
    split; [cbn; congruence|]. split; [exact HO|]. split; [eapply evolves_trans; eassumption|]. split; [|split].
    + constructor; [congruence|]. eapply Forall2_impl; [exact HI|]. intros x i Hi c Ec.
      destruct (evolves_find _ _ _ _ HE Ec) as (c' & Ec' & [-> | ->]); apply Hi in Ec'; exact Ec'.
    + cbn. constructor; [|exact HZ]. exists sig, (wc_owner_pk wc). auto.
    + intros x c Hx Ec HN. apply elem_of_cons in Hx as [->|Hx].
      * assert (c = wc) as -> by congruence. apply (evolves_signed _ _ _ HE2), HA, HN.
      * destruct (evolves_find _ _ _ _ HE Ec) as (c' & Ec' & Hc').
        assert (EA : wc_address c' = wc_address c /\ wc_owner_pk c' = wc_owner_pk c) by (destruct Hc' as [-> | ->]; auto).
        destruct EA as [<- EO]. apply (HA2 x c' Hx Ec'). rewrite EO, (ev_trees _ _ HE). exact HN.
Qed.

(** ** Preparing the commit *)

(** The gate: what is not in the inputs of the same one-time address is known to be spent. *)
Definition co_spend (w : World) (ins : list hash32) : Prop :=
  forall id sib, id ∈ ins -> sib ∈ wots_siblings (w_data w) id -> sib ∈ known_spent w \/ sib ∈ ins.

Definition owned (d : WalletData) (ins : list hash32) : Prop := forall id, id ∈ ins -> is_Some (find_coin d id).

Lemma check_owned_Ok d ins : check_all (check_owned d) ins = Ok () <-> owned d ins.
Proof.
  rewrite check_all_Ok, Forall_forall. unfold owned, check_owned.
  split; intros HF id Hid; specialize (HF id Hid).
  - apply bail_if_Ok, bool_decide_eq_false in HF. destruct (find_coin d id); [eauto|contradiction].
  - apply bail_if_Ok, bool_decide_eq_false. destruct HF as [x ->]. discriminate.
Qed.

Lemma check_siblings_Ok w ins : check_all (check_siblings w ins) ins = Ok () <-> co_spend w ins.
Proof.
  rewrite check_all_Ok, Forall_forall. unfold co_spend, check_siblings.
  split.
  - intros HF id sib Hid Hs. specialize (HF id Hid). rewrite check_all_Ok, Forall_forall in HF. specialize (HF sib Hs).
    apply bail_if_Ok, andb_false_iff in HF. rewrite !negb_false_iff, !bool_decide_eq_true in HF. exact HF.
  - intros HF id Hid. rewrite check_all_Ok, Forall_forall. intros sib Hs. apply bail_if_Ok, andb_false_iff.
    rewrite !negb_false_iff, !bool_decide_eq_true. apply (HF id sib Hid Hs).
Qed.

Lemma save_ok w : write_ok (w_tick w) = true ->
  save w = (Ok (), mkWorld (w_data w) (known_spent w) (w_data w) (S (w_tick w)) (w_handed w)).
Proof.
  intros HW. unfold save, ask, modify, fail_if, reads, mbind, st_bind. cbn. rewrite HW. reflexivity.
Qed.

(** When writes succeed the commit is prepared exactly if the gate lets it pass, and it
    is on disk. *)
Lemma prepare_commit_spec ins outs seeds privacy cons w : (forall t, write_ok t = true) ->
  match prepare_commit ins outs seeds privacy cons w with
  | (Ok (c, salt), w') => owned (w_data w) ins /\ co_spend w ins /\ w_disk w' = w_data w'
      /\ exists p, w_data w' = set_pending (pending (w_data w) ++ [p]) (w_data w)
         /\ pc_commitment p = c /\ pc_salt p = salt /\ pending_commitment p = c /\ pc_outputs p = outs
         /\ pc_change_seeds p = seeds /\ pc_is_consolidate p = cons /\ pc_input_coin_ids p ≡ₚ ins
  | (Err e, w') => w' = w /\ ~ (owned (w_data w) ins /\ co_spend w ins)
  | (Panic, _) => False
  end.
Proof.
  intros HW. unfold prepare_commit. cbv zeta. unfold mbind at 1, st_bind at 1, reads at 1.
  pose proof (check_owned_Ok (w_data w) ins) as HO.
  destruct (check_all (check_owned (w_data w)) ins) as [[]|e|] eqn:EO; [| |].
  2: { split; [reflexivity|]. intros [HX _]. apply HO in HX. discriminate. }
  2: { assert (HN : check_all (check_owned (w_data w)) ins <> Panic); [|congruence]. apply check_all_safe. intros x.
       unfold check_owned, bail_if. destruct (bool_decide _); discriminate. }
  unfold mbind at 1, st_bind at 1, reads at 1. pose proof (check_siblings_Ok w ins) as HS.
  destruct (check_all (check_siblings w ins) ins) as [[]|e|] eqn:ES.
  2: { split; [reflexivity|]. intros [_ HX]. apply HS in HX. discriminate. }
  2: { assert (HN : check_all (check_siblings w ins) ins <> Panic); [|congruence]. apply check_all_safe. intros x.
       apply check_all_safe. intros y. unfold bail_if. destruct (_ && _); discriminate. }
  unfold mbind, st_bind, ask, update, modify. rewrite save_ok by apply HW. cbn.
  split; [apply HO; reflexivity|]. split; [apply HS; reflexivity|]. split; [reflexivity|].
  eexists. split; [reflexivity|]. repeat (split; [reflexivity|]). apply shuffle_perm.
Qed.


(** The coins of the inputs. *)
Definition input_coins (d : WalletData) (ins : list hash32) : list WalletCoin := omap (find_coin d) ins.

Lemma input_coins_perm d a b : a ≡ₚ b -> input_coins d a ≡ₚ input_coins d b.
Proof. intros E. unfold input_coins. rewrite E. reflexivity. Qed.

(** The inputs made of owned coins are those coins. *)
Lemma inputs_are_coins d ids ins : wallet_ok d -> owned d ids ->
  Forall2 (fun id i => forall wc, find_coin d id = Some wc -> i = reveal_of wc) ids ins ->
  ins = map reveal_of (input_coins d ids) /\ map input_coin_id ins = ids
  /\ Forall (fun wc => in_u 64 (wc_value wc)) (input_coins d ids).
Proof.
  intros (_ & HC & _) HO HF. unfold input_coins. induction HF as [|id i ids ins Hi HF IH]; [auto|].
  destruct (HO id ltac:(left)) as [wc Ewc]. destruct IH as (IH1 & IH2 & IH3); [intros x Hx; apply HO; right; exact Hx|].
  destruct (find_coin_Some _ _ _ Ewc) as [Hwc EI]. rewrite Forall_forall in HC. destruct (HC wc Hwc) as (_ & _ & HI & HU).
  cbn. rewrite Ewc. rewrite (Hi wc Ewc). cbn. rewrite HI, EI, IH2, <- IH1. auto.
Qed.

End Signing.

(** * The reveal is valid *)

Section Valid.
Context `{HB : Blake3} `{WE : !WalletEnv} `{WL : !WalletEnvLaws}.
Context (fast_mining : bool) (usize_bits : Z).
Context (witnesses_size : list Witness -> option Z).
Context {A : Type} `{!SetAccumulator A} `{!SetAccumulatorLaws A}.

(** The encoding of as many short signatures as a reveal may have stays in its limit. *)
Definition short_witnesses_fit : Prop := forall ws, len ws <= MAX_TX_INPUTS ->
  Forall (fun w => exists sig, w = ScriptInputs [sig] /\ short sig) ws ->
  default (umax 64) (witnesses_size ws) <= MAX_SIGNATURE_SIZE * MAX_TX_INPUTS.

(** Outputs and inputs that consensus accepts, with something left for the fee. *)
Definition balanced (d : WalletData) (ins : list hash32) (outs : list OutputData) : Prop :=
  ins <> [] /\ outs <> [] /\ len ins <= MAX_TX_INPUTS /\ len outs <= MAX_TX_OUTPUTS
  /\ Forall (fun o => check_output o = Ok () /\ 0 <= output_value o) outs
  /\ sumZ (map output_value outs) < worth (input_coins d ins) <= umax 64.

(** The commit is live and the coins are unspent. *)
Definition on_chain (s : State A) (commitment : hash32) (ins : list hash32) : Prop :=
  check_commitment commitment s = Ok () /\ forall id, id ∈ ins -> id ∈ sa_set (st_coins s).

Lemma signed_reveal_valid d p inputs wits (s : State A) : wallet_ok d -> owned d (pc_input_coin_ids p) ->
  short_witnesses_fit -> NoDup (pc_input_coin_ids p) -> balanced d (pc_input_coin_ids p) (pc_outputs p) ->
  on_chain s (pending_commitment p) (pc_input_coin_ids p) -> length wits = length inputs ->
  Forall2 (fun id i => forall wc, find_coin d id = Some wc -> i = reveal_of wc) (pc_input_coin_ids p) inputs ->
  Forall (signed_input (pending_commitment p)) (zip inputs wits) ->
  let tx := Reveal inputs wits (pc_outputs p) (pc_salt p) in
  validate_transaction fast_mining usize_bits witnesses_size s tx = Ok ()
  /\ fee tx = worth (input_coins d (pc_input_coin_ids p)) - sumZ (map output_value (pc_outputs p)).
Proof.
  intros Hd HO HW HN (B1 & B2 & B3 & B4 & B5 & B6) [HK HC] HL HF HZ.
  destruct (inputs_are_coins d _ _ Hd HO HF) as (EI & EC & HU). pose proof (Forall2_length _ _ _ HF) as EL.
  assert (EV : sumZ (map in_value inputs) = worth (input_coins d (pc_input_coin_ids p))).
  { rewrite EI. unfold worth. rewrite map_map. reflexivity. }
  assert (EX : tx_commitment inputs (pc_outputs p) (pc_salt p) = pending_commitment p).
  { unfold tx_commitment. rewrite EC. reflexivity. }
  rewrite <- EV. apply (reveal_valid_intro fast_mining usize_bits witnesses_size); rewrite ?EX, ?EC, ?EV; try assumption.
  - intros E. rewrite E in EL. destruct (pc_input_coin_ids p); [congruence|discriminate].
  - unfold len in *. rewrite <- EL. exact B3.
  - apply HW; [unfold len in *; rewrite HL, <- EL; exact B3|]. clear -HZ HL. revert wits HZ HL.
    induction inputs as [|i l IH]; intros [|w wits] HZ HL; try discriminate; constructor.
    + inversion HZ as [|? ? (sig & pk & E & _ & S & _) _]; subst. exists sig. auto.
    + inversion HZ as [|? ? _ HZ']; subst. apply IH; [exact HZ'|]. cbn in HL. congruence.
  - rewrite EI. apply Forall_map, Forall_forall. intros wc _. cbn. destruct (Z.eqb_spec (wc_value wc) 0); auto.
  - rewrite EI. apply Forall_map. eapply Forall_impl; [exact HU|]. intros wc Hwc. apply Hwc.
  - apply Forall_forall. intros i Hi. apply HC. rewrite <- EC. apply list_elem_of_fmap_2, Hi.
  - eapply Forall_impl; [exact HZ|]. intros x. apply signed_verifies.
Qed.

(** C19: a send goes through.  In a sound wallet whose trees have leaves left and whose
    writes succeed, a commit on coins it owns that passes the co-spend gate is prepared
    and persisted; signing it then produces, with every one-time address it spends
    flagged as signed on disk, a reveal that is a valid transaction wherever the commit
    is live and the coins are unspent, and whose fee is the balance. *)
Theorem send_reveals ins outs seeds privacy w :
  world_ok w -> (forall t, write_ok t = true) ->
  (forall k, k ∈ mss_keys (w_data w) -> next_leaf k < num_leaves (height k)) ->
  short_witnesses_fit -> seeds_match outs seeds -> NoDup ins -> balanced (w_data w) ins outs ->
  owned (w_data w) ins -> co_spend w ins ->
  exists p w1 inputs wits w2,
    prepare_commit ins outs seeds privacy false w = (Ok (pc_commitment p, pc_salt p), w1)
    /\ pending (w_disk w1) = pending (w_data w) ++ [p] /\ pc_outputs p = outs
    /\ sign_reveal p w1 = (Ok (inputs, wits), w2)
    /\ (forall wc, wc ∈ input_coins (w_data w) ins -> wc_owner_pk wc ∉ map master_pk (mss_keys (w_data w)) ->
          all_signed_at (w_disk w2) (wc_address wc))
    /\ forall s : State A, on_chain s (pc_commitment p) ins ->
       let tx := Reveal inputs wits outs (pc_salt p) in
       validate_transaction fast_mining usize_bits witnesses_size s tx = Ok ()
       /\ fee tx = worth (input_coins (w_data w) ins) - sumZ (map output_value outs).
Proof.
  intros HO HWr HL HW HM HN HB' HOw HCo.
  pose proof (prepare_commit_spec ins outs seeds privacy false w HWr) as HP.
  pose proof (ok_prepare ins outs seeds privacy false HM w HO) as HO1.
  destruct (prepare_commit ins outs seeds privacy false w) as [[[c salt]|e|] w1]; cbn [snd] in *;
    [|destruct HP as [_ []]; auto|contradiction].
  destruct HP as (_ & _ & ED & p & E1 & <- & <- & EP & <- & _ & _ & HI).
  assert (HOw1 : owned (w_data w1) (pc_input_coin_ids p)).
  { rewrite E1. intros id Hid. apply HOw. rewrite <- HI. exact Hid. }
  assert (HS : can_sign w1 ∅) by (split; [exact HO1|rewrite E1; intros k Hk _; apply HL, Hk]).
  destruct (sign_inputs_spec (pending_commitment p) (pc_input_coin_ids p) ∅ w1 HS) as
    (inputs & wits & w2 & ES & E3 & HO2 & HE & HF & HZ & HA); [intros pk sig Hx; rewrite lookup_empty in Hx; discriminate|exact HOw1|].
  rewrite E1 in HF, HA. cbn [mss_keys set_pending] in HA.
  exists p, w1, inputs, wits. eexists. split; [reflexivity|]. split; [rewrite ED, E1; reflexivity|]. split; [reflexivity|].
  split; [unfold sign_reveal, mbind, st_bind; rewrite ES, save_ok by apply HWr; reflexivity|]. split.
  - cbn [w_disk]. intros wc Hwc HT. apply list_elem_of_omap in Hwc as (id & Hid & Ewc).
    apply (HA id wc); [rewrite HI; exact Hid|exact Ewc|exact HT].
  - intros s [HK HC]. rewrite <- (worth_perm _ _ (input_coins_perm (w_data w) _ _ HI)).
    apply signed_reveal_valid; try assumption.
    + apply HO.
    + intros id Hid. apply HOw. rewrite <- HI. exact Hid.
    + rewrite HI. exact HN.
    + destruct HB' as (B1 & B2 & B3 & B4 & B5 & B6). split; [intros E; rewrite E in HI; apply Permutation_nil in HI; congruence|].
      split; [exact B2|]. split; [unfold len in *; rewrite HI; exact B3|].
      rewrite (worth_perm _ _ (input_coins_perm (w_data w) _ _ HI)). auto.
    + rewrite EP. split; [exact HK|]. intros id Hid. apply HC. rewrite <- HI. exact Hid.
Qed.

End Valid.

(** * What the operations do not prevent *)

Section Limits.
Context `{HB : Blake3} `{WE : !WalletEnv} `{WL : !WalletEnvLaws}.

Lemma sign_reveal_spec p w : (forall t, write_ok t = true) -> can_sign w ∅ -> owned (w_data w) (pc_input_coin_ids p) ->
  exists inputs wits w', sign_reveal p w = (Ok (inputs, wits), w') /\ world_ok w' /\ evolves (w_data w) (w_data w')
  /\ length wits = length inputs /\ Forall (signed_input (pending_commitment p)) (zip inputs wits).
Proof.
  intros HWr HS HO.
  destruct (sign_inputs_spec (pending_commitment p) (pc_input_coin_ids p) ∅ w HS) as
    (inputs & wits & w2 & ES & E3 & HO2 & HE & _ & HZ & _); [intros pk sig Hx; rewrite lookup_empty in Hx; discriminate|exact HO|].
  exists inputs, wits. eexists. split; [unfold sign_reveal, mbind, st_bind; rewrite ES, save_ok by apply HWr; reflexivity|].
  split; [|auto]. split; apply HO2.
Qed.

(** Neither [prepare_commit] nor [sign_reveal] looks at [wots_signed] or at the other
    pending commits: any two pending commits on the same coins are both signed, so that
    the one-time key of a coin signs two commitments. *)
Lemma second_commit_signed p q w : (forall t, write_ok t = true) -> world_ok w -> mss_keys (w_data w) = [] ->
  owned (w_data w) (pc_input_coin_ids p) -> pc_input_coin_ids q ≡ₚ pc_input_coin_ids p ->
  exists inputs wits w1 inputs' wits' w2,
    sign_reveal p w = (Ok (inputs, wits), w1) /\ sign_reveal q w1 = (Ok (inputs', wits'), w2)
    /\ Forall (signed_input (pending_commitment p)) (zip inputs wits)
    /\ Forall (signed_input (pending_commitment q)) (zip inputs' wits').
Proof.
  intros HWr HW HM HO HP.
  destruct (sign_reveal_spec p w HWr) as (inputs & wits & w1 & E1 & HW1 & HE & _ & HZ); [|exact HO|].
  { split; [exact HW|]. rewrite HM. intros k Hk. inversion Hk. }
  destruct (sign_reveal_spec q w1 HWr) as (inputs' & wits' & w2 & E2 & _ & _ & _ & HZ'); [split; [exact HW1|]| |].
  - intros k Hk. pose proof (ev_trees _ _ HE) as HT. rewrite HM in HT. cbn in HT. apply map_eq_nil in HT.
    rewrite HT in Hk. inversion Hk.
  - intros id Hid. rewrite HP in Hid. destruct (HO id Hid) as [wc Ewc].
    destruct (evolves_find _ _ _ _ HE Ewc) as (wc' & -> & _). eauto.
  - exists inputs, wits, w1, inputs', wits', w2. auto.
Qed.

(** A key that has no coin yet signs any number of commitments, and stays unmarked. *)
Lemma auto_sign_unused pk m w i k : mss_position (w_data w) pk = None ->
  list_find (fun k => k_owner_pk k = pk) (keys (w_data w)) = Some (i, k) ->
  auto_sign pk m w = (Ok (sign_wots (k_seed k) m), w).
Proof. intros E1 E2. unfold auto_sign, data, mbind, st_bind, reads. rewrite E1, E2. reflexivity. Qed.

(** A second process that has the file open allocates from its own copy of the counter:
    when both write, both are given the same seed. *)
Lemma two_processes_same_seed d master disk known t t' h h' : (forall n, lock_free n = true) -> (forall n, write_ok n = true) ->
  wd_master_seed d = Some master ->
  let seed := hd_wots_seed master (next_wots_index d) in
  exists w1 w2, allocate_next_wots_seed (mkWorld d known disk t h) = (Ok seed, w1)
  /\ allocate_next_wots_seed (mkWorld d known (w_disk w1) t' h') = (Ok seed, w2).
Proof.
  intros HL HWr HM seed.
  assert (HA : forall known disk t h, exists w, allocate_next_wots_seed (mkWorld d known disk t h) = (Ok seed, w)).
  { intros k x n hs. unfold allocate_next_wots_seed, acquire_lock, ask, fail_if, reads, data, mbind, st_bind. cbn.
    rewrite HL. cbn. rewrite HM. unfold update, modify, mbind, st_bind, on_data. cbn. rewrite save_ok by apply HWr.
    eexists. reflexivity. }
  destruct (HA known disk t h) as [w1 E1]. destruct (HA known (w_disk w1) t' h') as [w2 E2]. eauto.
Qed.

(** The commitment that [complete_reveal] leaves in a change coin is read by the mix as
    a state commitment: the input of the mix is another coin. *)
Lemma change_cannot_mix seed v salt m b : 
  let o := Standard (compute_address (keygen seed)) v salt in
  let c := mkWalletCoin seed (keygen seed) (output_address o) v salt (compute_coin_id (output_address o) v salt) b (Some m) in
  collision_free (fun x => x ∈ [confidential_preimage (output_address o) m salt; output_address o ++ le_bytes 8 v ++ salt]) ->
  input_coin_id (mix_input c) <> wc_coin_id c.
Proof.
  intros o c HC E. apply HC in E; [|left|right; left].
  apply (f_equal length) in E. unfold confidential_preimage in E. rewrite !length_app, !length_le_bytes, !arr_length in E. discriminate.
Qed.

(** A state thread found at the address of a coin already held takes the commitment of
    that coin instead of its own: the input that the wallet makes of it is not the coin
    it found. *)
Lemma sibling_state_lost address salt commitment d pos existing : has_coin d (scanned_coin_id address 0 salt (Some commitment)) = false ->
  list_find (fun k => k_address k = address) (keys d) = None -> is_mss_address d address = false ->
  list_find (fun k => mss_address k = address) (mss_keys d) = None ->
  list_find (fun c => wc_address c = address) (coins d) = Some (pos, existing) -> wots_signed existing = false ->
  let d' := (import_scanned address 0 salt (Some commitment) d).2 in
  exists c, coins d' = coins d ++ [c] /\ wc_coin_id c = scanned_coin_id address 0 salt (Some commitment)
  /\ in_commitment (reveal_of c) = wc_commitment existing.
Proof.
  intros E1 E2 E3 E4 E5 E6. unfold import_scanned. rewrite E1, E2, E4, E5, E3, E6. cbn. eauto.
Qed.

End Limits.

(** * A concrete send *)

(** Witnesses cost the length of their items. *)
Definition demo_size (ws : list Witness) : option Z :=
  Some (sumZ (map (fun w => match w with ScriptInputs items => sumZ (map (fun x => Z.of_nat (length x)) items) end) ws)).

Lemma demo_size_fits : short_witnesses_fit demo_size.
Proof.
  intros ws HL HF. cbn [default from_option demo_size id].
  assert (HB : sumZ (map (fun w => match w with ScriptInputs items => sumZ (map (fun x => Z.of_nat (length x)) items) end) ws)
                 <= 1280 * Z.of_nat (length ws)).
  { clear HL. induction HF as [|w ws (sig & -> & HS) HF IH]; [reflexivity|]. cbn [map length sumZ foldr]. cbn [map sumZ foldr] in IH.
    unfold sumZ in *. cbn in *. lia. }
  unfold len, MAX_TX_INPUTS, MAX_SIGNATURE_SIZE in *. lia.
Qed.

Definition demo_world `{Blake3} : World := (@import_coin _ demo_env (zero_arr 32) 8 (zero_arr 32) (new_world None)).2.

Lemma send_reveals_witness :
  let H := const_blake3 in
  let w := @demo_world H in
  let ins := map wc_coin_id (coins (w_data w)) in
  exists p w1 inputs wits w2,
    @prepare_commit H demo_env ins [Standard (zero_arr 32) 4 (zero_arr 32)] [] false false w
      = (Ok (pc_commitment p, pc_salt p), w1)
    /\ @sign_reveal H demo_env p w1 = (Ok (inputs, wits), w2).
Proof.
  intros H w ins.
  assert (HW : @world_ok H w).
  { apply (@ops_ok H demo_env _ (new_world None)); [apply op_import_coin; unfold umax; lia|].
    split; apply wallet_ok_empty. }
  destruct (@send_reveals H demo_env _ false 64 demo_size (gset hash32) set_accumulator set_accumulator_laws ins [Standard (zero_arr 32) 4 (zero_arr 32)] []
    false w HW) as (p & w1 & inputs & wits & w2 & H1 & _ & _ & H2 & _).
  - reflexivity.
  - intros k Hk. inversion Hk.
  - apply demo_size_fits.
  - constructor.
  - apply NoDup_singleton.
  - repeat split; try discriminate. repeat apply Forall_cons_2; [split; [reflexivity|discriminate]|constructor].
  - intros id Hid. apply elem_of_cons in Hid as [->|Hid]; [|inversion Hid]. eexists. lazy. reflexivity.
  - intros id sib Hid Hs. apply elem_of_cons in Hid as [->|Hid]; [|inversion Hid]. lazy in Hs. inversion Hs.
  - exists p, w1, inputs, wits, w2. auto.
Defined.
