(* ===== verification/SendPlan.v ===== *)
(** Planning a send: the outputs of [build_outputs] in [src/wallet/mod.rs] and the fee
    loop of [crates/walletd/src/sendplan.rs]. *)
From S2P Require Import Prelude Types Wots Mss Transaction Wallet WalletSelect WalletSpend WalletSafe WalletReveal.

#[local] Open Scope Z_scope.

(** Ten units per KiB of the estimated size, and ten more.  The arithmetic is that of
    64-bit words. *)
Definition BYTES_PER_INPUT : Z := 1636.
Definition BYTES_PER_OUTPUT : Z := 100.
Definition BYTES_BASE : Z := 100.

Definition required_fee (inputs outputs : nat) : Z :=
  let est := wrap 64 (BYTES_BASE + Z.of_nat inputs * BYTES_PER_INPUT + Z.of_nat outputs * BYTES_PER_OUTPUT) in
  wrap 64 (est * 10) / 1024 + 10.

Record SendPlan : Type := mkSendPlan {
  sp_input_coin_ids : list hash32;
  sp_outputs : list OutputData;
  sp_change_seeds : list (nat * hash32);
  sp_in_sum : Z;
  sp_fee : Z;
  sp_amount : Z
}.

Section Plan.
Context `{HB : Blake3} `{WE : !WalletEnv}.

Definition select (needed : Z) (live_coins : list hash32) : WM (list hash32) :=
  d ← data;
  '(order, mix) ← ask (fun t => (group_order t, mix_order t));
  reads (fun _ => select_coins order mix d needed live_coins).

(** The outputs with fresh change, shuffled. *)
Definition lay_out (outputs : list OutputData) (change : Z) : WM (list OutputData * list (nat * hash32)) :=
  '(change_outs, seeds) ←
    (if 0 <? change then change_outputs None (length outputs) (decompose_value change) else mret ([], []));
  let outputs := outputs ++ change_outs in
  indices ← ask (fun t => shuffle t (seq 0 (length outputs)));
  reads (fun _ => reorder indices outputs seeds).

(** The loop: select for the amount and the fee so far, and stop when the selection also
    covers the fee that its own size implies.  [recipients] are the outputs to pay,
    [count] of them. *)
Fixpoint plan_loop (fuel : nat) (count : nat) (recipients : WM (list OutputData)) (live_coins : list hash32)
    (amount target_fee : Z) : WM SendPlan :=
  match fuel with
  | O => fail OutOfFuel
  | S fuel =>
      let needed := wrap 64 (amount + target_fee) in
      selected ← select needed live_coins;
      d ← data;
      let in_sum := wrap_sum (map wc_value (omap (find_coin d) selected)) in
      _ ← fail_if (in_sum <=? amount) FeeNotCovered;
      let change_guess := sat_sub in_sum needed in
      let fee := required_fee (length selected) (count + length (decompose_value change_guess)) in
      if wrap 64 (amount + fee) <=? in_sum then
        let change := wrap 64 (wrap 64 (in_sum - amount) - fee) in
        outputs ← recipients;
        '(outs, seeds) ← lay_out outputs change;
        mret {| sp_input_coin_ids := selected; sp_outputs := outs; sp_change_seeds := seeds; sp_in_sum := in_sum;
                sp_fee := fee; sp_amount := amount |}
      else plan_loop fuel count recipients live_coins amount fee
  end.

Definition plan_send (fuel : nat) (live_coins : list hash32) (dest : hash32) (amount : Z) : WM SendPlan :=
  _ ← fail_if (amount =? 0) AmountZero;
  plan_loop fuel (length (decompose_value amount)) (mapM (salted dest) (decompose_value amount)) live_coins amount 100.

Definition plan_fixed_outputs (fuel : nat) (live_coins : list hash32) (recipient : list OutputData) : WM SendPlan :=
  let amount := wrap_sum (map (fun o => match o with Standard _ value _ => value | _ => 0 end) recipient) in
  _ ← fail_if (amount =? 0) AmountZero;
  plan_loop fuel (length recipient) (mret recipient) live_coins amount 100.

End Plan.

(** * Reordering *)

Lemma reverse_fold_ne (l : list nat) : forall s (acc : list nat) (j : nat), j ∉ l ->
  foldl (fun rm p => <[p.2 := p.1]> rm) acc (zip (seq s (length l)) l) !! j = acc !! j.
Proof.
  induction l as [|x l IH]; intros s acc j Hj; cbn; [reflexivity|]. apply not_elem_of_cons in Hj as [Hx Hj].
  rewrite IH by exact Hj. apply list_lookup_insert_ne. congruence.
Qed.

Lemma reverse_fold (l : list nat) : forall s (acc : list nat) (i j : nat), NoDup l -> l !! i = Some j -> (j < length acc)%nat ->
  foldl (fun rm p => <[p.2 := p.1]> rm) acc (zip (seq s (length l)) l) !! j = Some (s + i)%nat.
Proof.
  induction l as [|x l IH]; intros s acc i j HN Hi Hj; [discriminate|]. apply NoDup_cons in HN as [Hx HN]. cbn.
  destruct i as [|i]; cbn in Hi.
  - injection Hi as ->. rewrite reverse_fold_ne by exact Hx. cbn. rewrite list_lookup_insert_eq by exact Hj. f_equal. lia.
  - rewrite (IH (S s) _ i j HN Hi) by (rewrite length_insert; exact Hj). f_equal. lia.
Qed.

Lemma reverse_map_lookup l i j : l ≡ₚ seq 0 (length l) -> l !! i = Some j -> reverse_map l !! j = Some i.
Proof.
  intros HP Hi. unfold reverse_map. rewrite (reverse_fold l 0 _ i j); [reflexivity|rewrite HP; apply NoDup_seq|exact Hi|].
  rewrite length_replicate. apply list_elem_of_lookup_2 in Hi. rewrite HP, elem_of_seq in Hi. lia.
Qed.

Lemma mapM_unwrap {E A B} (f : A -> option B) (l : list A) (ys : list B) :
  Forall2 (fun x y => f x = Some y) l ys -> mapM (fun x => unwrap (E := E) (f x)) l = Ok ys.
Proof. induction 1 as [|x y l ys Hx HF IH]; [reflexivity|]. cbn. rewrite Hx. cbn. rewrite IH. reflexivity. Qed.

Lemma omap_seq {A} (l : list A) : omap (fun i => l !! i) (seq 0 (length l)) = l.
Proof.
  assert (HG : forall s (pre : list A), length pre = s -> omap (fun i => (pre ++ l) !! i) (seq s (length l)) = l).
  { induction l as [|x l IH]; intros s pre HL; [reflexivity|]. cbn [length seq omap list_omap].
    rewrite lookup_app_r, HL, Nat.sub_diag by lia. cbn. f_equal.
    replace (pre ++ x :: l) with ((pre ++ [x]) ++ l) by (rewrite <- app_assoc; reflexivity).
    apply IH. rewrite length_app. cbn. lia. }
  apply (HG 0%nat []). reflexivity.
Qed.

(** Reordering permutes the outputs and keeps each seed with its output. *)
Lemma reorder_spec `{HB : Blake3} indices outputs seeds : indices ≡ₚ seq 0 (length outputs) -> seeds_match outputs seeds ->
  exists outs' seeds', reorder indices outputs seeds = Ok (outs', seeds') /\ outs' ≡ₚ outputs /\ seeds_match outs' seeds'
  /\ map snd seeds' = map snd seeds.
Proof.
  intros HP HM. assert (HL : length indices = length outputs) by (rewrite HP; apply length_seq).
  assert (HF : Forall2 (fun i y => outputs !! i = Some y) indices (omap (fun i => outputs !! i) indices)).
  { assert (HB' : Forall (fun i => (i < length outputs)%nat) indices).
    { rewrite HP. apply Forall_forall. intros i Hi. apply elem_of_seq in Hi. lia. }
    clear -HB'. induction HB' as [|i l Hi HB' IH]; [constructor|]. destruct (lookup_lt_is_Some_2 outputs i Hi) as [y Hy].
    cbn. rewrite Hy. constructor; [exact Hy|exact IH]. }
  assert (HS : exists seeds', mapM (fun p : nat * hash32 => i ← unwrap (reverse_map indices !! p.1); Ok (E := WalletError) (i, p.2)) seeds = Ok seeds'
             /\ seeds_match (omap (fun i => outputs !! i) indices) seeds' /\ map snd seeds' = map snd seeds).
  { induction HM as [|[old seed] seeds (o & Ho & HO) HM (seeds' & IH1 & IH2 & IH3)]; [exists []; repeat constructor|].
    cbn [fst snd] in *. assert (Hold : old ∈ indices).
    { rewrite HP. apply elem_of_seq. apply lookup_lt_Some in Ho. lia. }
    apply list_elem_of_lookup in Hold as [new Hnew]. exists ((new, seed) :: seeds'). cbn [mapM fst snd].
    rewrite (reverse_map_lookup indices new old) by (rewrite ?HL; assumption). cbn. cbn in IH1. rewrite IH1.
    split; [reflexivity|]. split; [|cbn; congruence]. constructor; [|exact IH2]. exists o. split; [|exact HO].
    destruct (Forall2_lookup_l _ _ _ _ _ HF Hnew) as (y & Hy & Ey). cbn. congruence. }
  destruct HS as (seeds' & E2 & HM'). exists (omap (fun i => outputs !! i) indices), seeds'.
  split; [|split; [|exact HM']].
  - unfold reorder. rewrite (mapM_unwrap (fun i => outputs !! i) indices _ HF). cbn [mbind res_bind]. rewrite E2. reflexivity.
  - rewrite HP. rewrite omap_seq. reflexivity.
Qed.

(** * How an operation ends *)

(** With a value and a world as [Q] says, or with an error of [E]; it does not panic. *)
Definition ends {A} (m : WM A) (E : WalletError -> Prop) (Q : A -> World -> Prop) (w : World) : Prop :=
  match m w with
  | (Ok a, w') => Q a w'
  | (Err e, _) => E e
  | (Panic, _) => False
  end.

Lemma ends_bind {A B} (m : WM A) (f : A -> WM B) E Q w :
  ends m E (fun a w' => ends (f a) E Q w') w -> ends (m ≫= f) E Q w.
Proof. unfold ends, mbind, st_bind. destruct (m w) as [[a|e|] w']; auto. Qed.

Lemma ends_mono {A} (m : WM A) (E E' : WalletError -> Prop) (Q Q' : A -> World -> Prop) w :
  (forall e, E e -> E' e) -> (forall a w', Q a w' -> Q' a w') -> ends m E Q w -> ends m E' Q' w.
Proof. intros HE HQ. unfold ends. destruct (m w) as [[a|e|] w']; auto. Qed.

(** The lock is held by another process, or the file cannot be written. *)
Definition io_error (e : WalletError) : Prop := e = WalletLocked \/ e = WriteFailed.

(** Time has passed, and no seed was handed out. *)
Definition quiet (w w' : World) : Prop :=
  w_data w' = w_data w /\ w_handed w' = w_handed w /\ (w_tick w <= w_tick w')%nat.

#[export] Instance quiet_preorder : PreOrder quiet.
Proof.
  split; [intros w; repeat split; lia|]. intros w1 w2 w3 (A1 & A2 & A3) (B1 & B2 & B3).
  split; [congruence|]. split; [congruence|lia].
Qed.

Section Outputs.
Context `{HB : Blake3} `{WE : !WalletEnv} `{WL : !WalletEnvLaws}.

(** [n] seeds from the counter value [idx] on. *)
Fixpoint wots_seeds (master : hash32) (idx : Z) (n : nat) : list hash32 :=
  match n with
  | O => []
  | S n => hd_wots_seed master idx :: wots_seeds master (wrap 64 (idx + 1)) n
  end.

(** The seeds are new: those of the next values of the counter, which moves past them,
    or the next draws of the generator when the wallet has no master seed. *)
Definition hands_out (w : World) (seeds : list hash32) (w' : World) : Prop :=
  wd_master_seed (w_data w') = wd_master_seed (w_data w) /\ (w_tick w <= w_tick w')%nat /\
  match wd_master_seed (w_data w) with
  | Some master =>
      seeds = wots_seeds master (next_wots_index (w_data w)) (length seeds)
      /\ w_handed w' = w_handed w ++ seeds
      /\ next_wots_index (w_data w') = Nat.iter (length seeds) (fun i => wrap 64 (i + 1)) (next_wots_index (w_data w))
  | None => exists ts, seeds = map random ts /\ StronglySorted lt ts
              /\ Forall (fun t => (w_tick w <= t < w_tick w')%nat) ts
  end.

Lemma hands_out_nil w w' : quiet w w' -> hands_out w [] w'.
Proof.
  intros (E1 & E2 & E3). unfold hands_out. rewrite E1. split; [reflexivity|]. split; [exact E3|].
  destruct (wd_master_seed _); [rewrite E2, app_nil_r; auto|]. exists []. repeat constructor.
Qed.

Lemma iter_shift {X} (f : X -> X) n x : Nat.iter n f (f x) = Nat.iter (S n) f x.
Proof. induction n as [|n IH]; [reflexivity|]. cbn in *. f_equal. exact IH. Qed.

Lemma hands_out_cons w s w1 w2 seeds w' :
  hands_out w [s] w1 -> quiet w1 w2 -> hands_out w2 seeds w' -> hands_out w (s :: seeds) w'.
Proof.
  intros (A1 & A2 & A3) (Q1 & Q2 & Q3) (B1 & B2 & B3). rewrite Q1 in *. split; [congruence|]. split; [lia|].
  rewrite A1 in B3. destruct (wd_master_seed (w_data w)) as [m|].
  - destruct A3 as (E1 & E2 & E3), B3 as (F1 & F2 & F3). cbn in E1, E3. injection E1 as E1. rewrite E3 in F1, F3.
    split; [cbn; congruence|]. split; [rewrite F2, Q2, E2, <- app_assoc; reflexivity|].
    rewrite F3. apply (iter_shift (fun i => wrap 64 (i + 1))).
  - destruct A3 as (ts & E1 & E2 & E3), B3 as (us & F1 & F2 & F3).
    destruct ts as [|t [|? ?]]; try discriminate. injection E1 as E1. apply Forall_cons in E3 as [E3 _].
    exists (t :: us). split; [cbn; congruence|]. split.
    + constructor; [exact F2|]. eapply Forall_impl; [exact F3|]. cbn. lia.
    + constructor; [lia|]. eapply Forall_impl; [exact F3|]. cbn. lia.
Qed.

Lemma hands_out_quiet w0 w seeds w' w1 : quiet w0 w -> hands_out w seeds w' -> quiet w' w1 -> hands_out w0 seeds w1.
Proof.
  intros (A1 & A2 & A3) (B1 & B2 & B3) (C1 & C2 & C3). rewrite A1 in *. split; [congruence|]. split; [lia|].
  destruct (wd_master_seed (w_data w0)).
  - rewrite C1, C2, <- A2. exact B3.
  - destruct B3 as (ts & E1 & E2 & E3). exists ts. split; [exact E1|]. split; [exact E2|].
    eapply Forall_impl; [exact E3|]. cbn. lia.
Qed.

Lemma ends_save E Q w : (forall e, io_error e -> E e) ->
  (forall w', quiet w w' -> Q () w') -> ends save E Q w.
Proof.
  intros HE HQ. unfold ends, save, ask, fail_if, modify, reads, mbind, st_bind. cbn.
  destruct (write_ok (w_tick w)); cbn; [apply HQ; repeat split; cbn; lia|apply HE; right; reflexivity].
Qed.

Lemma ends_acquire E Q w : (forall e, io_error e -> E e) ->
  (forall w', quiet w w' -> Q () w') -> ends acquire_lock E Q w.
Proof.
  intros HE HQ. unfold ends, acquire_lock, ask, fail_if, reads, mbind, st_bind. cbn.
  destruct (lock_free (w_tick w)); cbn; [apply HQ; repeat split; cbn; lia|apply HE; left; reflexivity].
Qed.

Lemma ends_allocate E Q w : (forall e, io_error e -> E e) ->
  (forall s w', hands_out w [s] w' -> Q s w') -> ends allocate_next_wots_seed E Q w.
Proof.
  intros HE HQ. unfold allocate_next_wots_seed. apply ends_bind, ends_acquire; [exact HE|]. intros w1 (E1 & E2 & E3).
  apply ends_bind. cbn. unfold ends at 1, data, reads. destruct (wd_master_seed (w_data w1)) as [m|] eqn:EM.
  - apply ends_bind. unfold ends at 1, update, modify. apply ends_bind, ends_save; [exact HE|]. intros w2 (F1 & F2 & F3).
    apply ends_bind. unfold ends at 1, hand_out, modify. unfold ends, mret, st_ret. apply HQ. unfold hands_out.
    cbn in *. rewrite F1, F2, <- E1, EM. cbn. rewrite E2. split; [exact EM|]. split; [lia|]. auto.
  - unfold ends, ask. apply HQ. unfold hands_out. cbn. rewrite <- E1, EM. split; [reflexivity|]. split; [lia|].
    exists [w_tick w1]. split; [reflexivity|]. split; [repeat constructor|]. repeat constructor; cbn; lia.
Qed.

Lemma mss_keygen_total saved seed h : (1 <= h <= MAX_HEIGHT)%nat -> exists k, mss_keygen saved seed h = Ok k.
Proof.
  intros Hh. unfold mss_keygen. rewrite (proj2 (Nat.eqb_neq h 0)), (proj2 (Nat.ltb_ge MAX_HEIGHT h)) by lia.
  cbn [bail_if orb mbind res_bind]. cbv zeta. destruct (load_checkpoint _ _ _) as [t c]. eauto.
Qed.

Lemma ends_generate_mss E Q w : (forall e, io_error e -> E e) ->
  (forall a w', is_mss_address (w_data w') a = true -> Q a w') -> ends (generate_mss DEFAULT_HEIGHT) E Q w.
Proof.
  intros HE HQ. unfold generate_mss, allocate_next_mss_seed.
  apply ends_bind, ends_bind, ends_acquire; [exact HE|]. intros w1 _. apply ends_bind. unfold ends at 1, data, reads.
  assert (HK : forall seed w', ends (saved ← ask checkpoint;
    keypair ← reads (fun _ => lift_mss (mss_keygen (saved seed) seed DEFAULT_HEIGHT));
    let address := compute_address (master_pk keypair) in
    _ ← update (fun d => set_mss (mss_keys d ++ [keypair]) d);
    _ ← save; mret address) E Q w').
  { intros seed w'. apply ends_bind. unfold ends at 1, ask. apply ends_bind. unfold ends at 1, reads.
    destruct (mss_keygen_total (checkpoint (w_tick w') seed) seed DEFAULT_HEIGHT) as [k ->]; [unfold DEFAULT_HEIGHT, MAX_HEIGHT; lia|].
    cbn [lift_mss]. apply ends_bind. unfold ends at 1, update, modify.
    apply ends_bind, ends_save; [exact HE|]. intros w2 [E2 _]. apply HQ. rewrite E2. unfold is_mss_address. cbn.
    rewrite existsb_app. apply orb_true_iff. right. cbn. rewrite bool_decide_true; reflexivity. }
  destruct (wd_master_seed (w_data w1)).
  - apply ends_bind. unfold ends at 1, update, modify. apply ends_bind, ends_save; [exact HE|]. intros w2 _. apply HK.
  - apply HK.
Qed.

(** Who can spend a change output. *)
Definition own_change (seeds : list (nat * hash32)) (o : OutputData) : Prop :=
  exists seed, seed ∈ map snd seeds /\ pays_to o seed.

Definition kept_by (seeds : list (nat * hash32)) (d : WalletData) (o : OutputData) : Prop :=
  own_change seeds o \/ is_mss_address d (output_address o) = true.

Definition positive (v : Z) : Prop := 0 < v <= umax 64.

Definition standard (o : OutputData) : Prop := exists a v s, o = Standard a v s.

Lemma standard_outputs outs : Forall standard outs -> Forall (fun d => is_pow2 d = true) (map output_value outs) ->
  Forall (fun o => check_output o = Ok () /\ 0 <= output_value o) outs.
Proof.
  intros HS HP. apply Forall_map in HP. apply Forall_forall. intros o Ho. rewrite Forall_forall in HS, HP.
  specialize (HP o Ho). cbn in HP. destruct (HS o Ho) as (a & v & s & ->). cbn in HP. pose proof HP as HP'.
  apply andb_true_iff in HP' as [HV _]. apply Z.ltb_lt in HV. unfold check_output. cbn [output_value].
  rewrite (proj2 (Z.eqb_neq v 0)), HP by lia. split; [reflexivity|lia].
Qed.

Lemma change_outputs_spec E new_mss denoms : (forall e, io_error e -> E e) -> Forall positive denoms -> forall idx w,
  (forall a, new_mss = Some a -> is_mss_address (w_data w) a = true) ->
  ends (change_outputs new_mss idx denoms) E (fun r w' =>
    map output_value r.1 = denoms /\ Forall standard r.1
    /\ Forall (fun o => own_change r.2 o \/ new_mss = Some (output_address o)) r.1
    /\ (forall a, new_mss = Some a -> is_mss_address (w_data w') a = true)
    /\ (forall pre, length pre = idx -> seeds_match (pre ++ r.1) r.2)
    /\ (new_mss = None -> Forall2 pays_to r.1 (map snd r.2) /\ hands_out w (map snd r.2) w')) w.
Proof.
  intros HE. induction 1 as [|v denoms Hv HF IH]; intros idx w HA; cbn [change_outputs].
  - split; [reflexivity|]. split; [constructor|]. split; [constructor|]. split; [exact HA|]. split; [intros pre _; constructor|].
    intros _. split; [constructor|]. apply hands_out_nil. reflexivity.
  - apply ends_bind. destruct new_mss as [a|].
    + apply ends_bind. unfold salted. apply ends_bind. unfold ends at 1, ask. apply ends_bind.
      eapply ends_mono; [intros e He; exact He| |apply IH; cbn; exact HA].
      intros [outs seeds] w' (E1 & ES & E2 & E3 & E4 & _). cbn [fst snd] in *. split; [cbn; congruence|].
      split; [constructor; [do 3 eexists; reflexivity|exact ES]|]. split; [constructor; [right; reflexivity|exact E2]|]. split; [exact E3|].
      split; [|discriminate].
      intros pre HL. cbn [app]. specialize (E4 (pre ++ [Standard a v (random (w_tick w))])). rewrite <- app_assoc in E4.
      apply E4. rewrite length_app. cbn. lia.
    + apply ends_bind, ends_allocate; [exact HE|]. intros seed w1 HH. apply ends_bind. unfold salted. apply ends_bind.
      unfold ends at 1, ask. apply ends_bind.
      eapply ends_mono; [intros e He; exact He| |apply IH; discriminate].
      intros [outs seeds] w' (E1 & ES & E2 & E3 & E4 & E5). cbn [fst snd] in *. destruct (E5 eq_refl) as [E6 E7].
      set (o := Standard (compute_address (keygen seed)) v (random (w_tick w1))).
      assert (HO : pays_to o seed) by (do 2 eexists; split; [reflexivity|exact Hv]).
      split; [cbn; congruence|]. split; [constructor; [do 3 eexists; reflexivity|exact ES]|].
      split; [|split; [discriminate|split; [|intros _; split]]].
      * constructor; [left; exists seed; split; [left|exact HO]|].
        eapply Forall_impl; [exact E2|]. intros x [(s & Hs & Hx)|Hx]; [left; exists s; split; [right; exact Hs|exact Hx]|right; exact Hx].
      * intros pre HL. cbn [app]. constructor.
        { exists o. split; [|exact HO]. cbn. rewrite lookup_app_r, HL, Nat.sub_diag by lia. reflexivity. }
        specialize (E4 (pre ++ [o])). rewrite <- app_assoc in E4. apply E4. rewrite length_app. cbn. lia.
      * constructor; [exact HO|exact E6].
      * eapply hands_out_cons; [exact HH| |exact E7]. repeat split; cbn; lia.
Qed.

Lemma recipients_spec E a denoms w :
  ends (mapM (salted a) denoms) E (fun outs w' => quiet w w' /\ map output_value outs = denoms
    /\ Forall standard outs /\ Forall (fun o => output_address o = a) outs) w.
Proof.
  revert w. induction denoms as [|v denoms IH]; intros w; [repeat constructor; reflexivity|]. cbn [mapM].
  apply ends_bind. unfold salted at 1. apply ends_bind. unfold ends at 1, ask. apply ends_bind.
  eapply ends_mono; [intros e He; exact He| |apply IH]. intros outs w' (E1 & E2 & ES & E3).
  split; [etrans; [|exact E1]; repeat split; cbn; lia|]. split; [cbn; congruence|]. split; constructor; [do 3 eexists; reflexivity|exact ES|reflexivity|exact E3].
Qed.

Lemma decompose_positive v : in_u 64 v -> Forall positive (decompose_value v).
Proof.
  intros Hv. pose proof (decompose_value_pow2 v Hv) as HP. pose proof (decompose_value_range v Hv) as HR.
  rewrite !Forall_forall in *. intros d Hd. specialize (HP d Hd). specialize (HR d Hd).
  apply andb_true_iff in HP as [HP _]. apply Z.ltb_lt in HP. unfold positive, in_u, umax in *. lia.
Qed.

Lemma seeds_match_nil outs : seeds_match outs [].
Proof. constructor. Qed.

(** The outputs of a send pay the recipient the denominations asked for and nothing
    else, and what is left is kept: the change outputs add up to the change, and each is
    payable to a one-time key whose seed is returned with its index after the shuffle, or
    to a tree in the wallet.  It fails only if the file is locked or cannot be written. *)
Lemma build_outputs_contract a denoms change w : in_u 64 change ->
  match build_outputs a denoms change w with
  | (Ok (outs, seeds), w') => seeds_match outs seeds /\ exists paid kept, outs ≡ₚ paid ++ kept
      /\ map output_value paid = denoms /\ Forall (fun o => output_address o = a) paid
      /\ sumZ (map output_value kept) = change /\ Forall (kept_by seeds (w_data w')) kept
  | (Err e, _) => io_error e
  | (Panic, _) => False
  end.
Proof.
  intros HC.
  enough (HE : ends (build_outputs a denoms change) io_error (fun r w' => seeds_match r.1 r.2 /\ exists paid kept,
      r.1 ≡ₚ paid ++ kept /\ map output_value paid = denoms /\ Forall (fun o => output_address o = a) paid
      /\ sumZ (map output_value kept) = change /\ Forall (kept_by r.2 (w_data w')) kept) w).
  { unfold ends in HE. destruct (build_outputs a denoms change w) as [[[outs seeds]|e|] w']; exact HE. }
  unfold build_outputs. apply ends_bind.
  eapply ends_mono; [intros e He; exact He| |apply recipients_spec]. intros paid w1 (_ & P1 & _ & P2).
  apply ends_bind. unfold ends at 1, data, reads. apply ends_bind.
  assert (HN : forall Q : option hash32 -> World -> Prop,
    (forall o w', (forall a', o = Some a' -> is_mss_address (w_data w') a' = true) -> Q o w') ->
    ends (if needs_rotation (w_data w1) then pk ← generate_mss DEFAULT_HEIGHT; mret (Some pk) else mret None) io_error Q w1).
  { intros Q HQ. destruct (needs_rotation _); [|apply HQ; discriminate].
    apply ends_bind, ends_generate_mss; [auto|]. intros pk w' HM. apply HQ. intros a' [= <-]. exact HM. }
  apply HN. clear HN. intros new_mss w2 HA. apply ends_bind.
  assert (HK : forall Q : list OutputData * list (nat * hash32) -> World -> Prop,
    (forall kept seeds w', sumZ (map output_value kept) = change -> Forall (kept_by seeds (w_data w')) kept ->
       seeds_match (paid ++ kept) seeds -> Q (kept, seeds) w') ->
    ends (if 0 <? change
          then denoms ← ask (fun t => shuffle t (decompose_value change)); change_outputs new_mss (length paid) denoms
          else mret ([], [])) io_error Q w2).
  { intros Q HQ. destruct (Z.ltb_spec 0 change).
    - apply ends_bind. unfold ends at 1, ask. set (ds := shuffle _ (decompose_value change)).
      assert (HP : ds ≡ₚ decompose_value change) by apply shuffle_perm.
      eapply ends_mono; [intros e He; exact He| |apply (change_outputs_spec io_error new_mss ds)].
      + intros [kept seeds] w' (E1 & _ & E2 & E3 & E4). cbn [fst snd] in *. apply HQ; [|eapply Forall_impl; [exact E2|]; intros o [Ho|Ho]; [left|right; apply E3]; exact Ho|apply E4; reflexivity].
        rewrite E1, (sumZ_perm _ _ HP). apply decompose_value_sum, HC.
      + auto.
      + rewrite HP. apply decompose_positive, HC.
      + exact HA.
    - apply HQ; [unfold in_u in HC; cbn; lia|constructor|constructor]. }
  apply HK. clear HK. intros kept seeds w3 K1 K2 K3. apply ends_bind. unfold ends at 1, ask. unfold ends, reads.
  destruct (reorder_spec (shuffle (w_tick w3) (seq 0 (length (paid ++ kept)))) (paid ++ kept) seeds) as
    (outs & seeds' & -> & O1 & O2 & O3); [apply shuffle_perm|exact K3|]. cbn [fst snd w_data].
  split; [exact O2|]. exists paid, kept. repeat (split; [assumption|]).
  eapply Forall_impl; [exact K2|]. intros o. unfold kept_by, own_change. rewrite O3. auto.
Qed.

End Outputs.

(** * The fee loop *)

(** The most that a transaction of 256 inputs and as many outputs can need. *)
Definition max_fee (count : nat) : Z := required_fee 256 (count + 64).

Lemma required_fee_small ins outs : (ins <= 256)%nat -> Z.of_nat outs < 2 ^ 33 ->
  required_fee ins outs = (100 + Z.of_nat ins * 1636 + Z.of_nat outs * 100) * 10 / 1024 + 10.
Proof.
  intros H1 H2. unfold required_fee, BYTES_BASE, BYTES_PER_INPUT, BYTES_PER_OUTPUT, wrap. cbv zeta.
  rewrite (Z.mod_small (100 + _ + _)) by lia. rewrite Z.mod_small by lia. reflexivity.
Qed.

Lemma required_fee_bounds ins outs count : (ins <= 256)%nat -> (outs <= count + 64)%nat -> Z.of_nat count < 2 ^ 32 ->
  10 <= required_fee ins outs <= max_fee count /\ 100 <= max_fee count < 2 ^ 40.
Proof. intros H1 H2 H3. unfold max_fee. rewrite (required_fee_small ins outs), (required_fee_small 256 (count + 64)) by lia.
  Z.to_euclidean_division_equations. lia.
Qed.

Section Planning.
Context `{HB : Blake3} `{WE : !WalletEnv} `{WL : !WalletEnvLaws}.

Lemma find_own d c : NoDup (map wc_coin_id (coins d)) -> c ∈ coins d -> find_coin d (wc_coin_id c) = Some c.
Proof.
  unfold find_coin. induction (coins d) as [|x l IH]; intros HN Hc; [inversion Hc|].
  cbn in HN |- *. apply NoDup_cons in HN as [N1 N2]. apply elem_of_cons in Hc as [->|Hc].
  - rewrite decide_True by reflexivity. reflexivity.
  - rewrite decide_False by (intros E; apply N1; rewrite E; apply list_elem_of_fmap_2, Hc).
    specialize (IH N2 Hc). destruct (list_find _ l) as [[i y]|]; [exact IH|discriminate].
Qed.

Lemma input_coins_own d cs : NoDup (map wc_coin_id (coins d)) -> (forall c, c ∈ cs -> c ∈ coins d) ->
  input_coins d (map wc_coin_id cs) = cs.
Proof.
  intros HN. induction cs as [|c l IH]; intros HI; [reflexivity|]. unfold input_coins in *. cbn [map omap list_omap].
  rewrite find_own by (auto; apply HI; left). rewrite IH; [reflexivity|]. intros x Hx. apply HI. right. exact Hx.
Qed.

Lemma worth_chosen d live chosen : coins_u64 d -> chosen ⊆+ available d live -> 0 <= worth chosen <= worth (coins d).
Proof.
  intros HU HS. assert (HS' : chosen ⊆+ coins d).
  { etransitivity; [exact HS|]. apply sublist_submseteq. unfold available. apply sublist_filter. }
  apply submseteq_Permutation in HS' as (rest & HP). rewrite (worth_perm _ _ HP), worth_app.
  unfold coins_u64 in HU. rewrite HP in HU. apply Forall_app in HU as [U1 U2].
  pose proof (worth_nonneg chosen U1). pose proof (worth_nonneg rest U2). lia.
Qed.

(** What a selection of the wallet gives. *)
Record selected_for (d : WalletData) (live : list hash32) (needed : Z) (ids : list hash32) : Prop := mk_selected {
  sel_owned : owned d ids;
  sel_nodup : NoDup ids;
  sel_live : forall id, id ∈ ids -> id ∈ live;
  sel_len : Z.of_nat (length ids) <= MAX_TX_INPUTS;
  sel_worth : needed <= worth (input_coins d ids) <= worth (coins d);
  sel_siblings : forall id sib, id ∈ ids -> sib ∈ wots_siblings d id -> sib ∈ live -> sib ∈ ids
}.

Lemma select_spec needed live w E Q : wallet_ok (w_data w) ->
  (forall e, e <> OutOfFuel -> E e) ->
  (forall ids w', quiet w w' -> selected_for (w_data w) live needed ids -> Q ids w') ->
  ends (select needed live) E Q w.
Proof.
  intros Hok HE HQ. unfold select. apply ends_bind. unfold ends at 1, data, reads. apply ends_bind. unfold ends at 1, ask.
  unfold ends, reads. cbn [fst snd w_data].
  assert (HU : coins_u64 (w_data w)).
  { destruct Hok as (_ & HC & _). eapply Forall_impl; [exact HC|]. intros c Hc. apply Hc. }
  destruct (select_coins (group_order (w_tick w)) (mix_order (w_tick w)) (w_data w) needed live) as [ids|e|] eqn:ES.
  - apply HQ; [repeat split; cbn; lia|].
    destruct (select_coins_sound _ _ ltac:(apply group_order_perm) _ _ _ _ HU ES) as (chosen & -> & H1 & H2 & H3 & H4).
    destruct Hok as (_ & HC & HN & _).
    assert (HI : forall c, c ∈ chosen -> c ∈ available (w_data w) live) by (intros c Hc; eapply elem_of_submseteq; eassumption).
    assert (HI' : forall c, c ∈ chosen -> c ∈ coins (w_data w)).
    { intros c Hc. specialize (HI c Hc). apply list_elem_of_filter in HI. apply HI. }
    assert (HL : forall c, c ∈ chosen -> wc_coin_id c ∈ live).
    { intros c Hc. specialize (HI c Hc). apply list_elem_of_filter in HI. apply HI. }
    split.
    + intros id Hid. apply list_elem_of_fmap in Hid as (c & -> & Hc). rewrite (find_own _ c HN (HI' c Hc)). eauto.
    + assert (HS : chosen ⊆+ coins (w_data w)).
      { etransitivity; [exact H1|]. apply sublist_submseteq, sublist_filter. }
      apply submseteq_Permutation in HS as (rest & HP). rewrite HP, map_app in HN. apply NoDup_app in HN. apply HN.
    + intros id Hid. apply list_elem_of_fmap in Hid as (c & -> & Hc). apply HL, Hc.
    + unfold count in H3. rewrite length_map in *. exact H3.
    + rewrite (input_coins_own _ _ HN HI'). split; [exact H2|]. apply (worth_chosen _ live); assumption.
    + intros id sib Hid Hs Hl. apply list_elem_of_fmap in Hid as (c & -> & Hc). unfold wots_siblings in Hs.
      rewrite (find_own _ c HN (HI' c Hc)) in Hs. destruct (is_mss_address (w_data w) (wc_address c)) eqn:EM; [inversion Hs|].
      apply list_elem_of_fmap in Hs as (c' & -> & Hc'). apply list_elem_of_filter in Hc' as [[EA _] Hc'].
      apply list_elem_of_fmap_2. apply (H4 c c' Hc EM); [|exact EA].
      apply list_elem_of_filter. split; [exact Hl|exact Hc'].
  - apply HE. intros ->. clear -ES. unfold select_coins in ES. destruct (take_bundles _ _ _ _) as [sel tot].
    destruct (tot <? needed); [|discriminate]. destruct (_ <? needed); [|discriminate]. destruct (0 <? _); discriminate.
  - apply (select_coins_safe _ _ _ _ _ ES).
Qed.

(** What a plan made from world [w], which left [w'], promises: the selection covers the
    payment and the fee, the outputs are those of the recipients and the change, each
    change output pays a one-time key of its own, whose seed was handed out during this
    call, the seeds are listed with the outputs they own, and the transaction that the
    plan describes balances. *)
Record plan_for (w w' : World) (live : list hash32) (paid_as : list OutputData -> Prop) (amount : Z)
    (p : SendPlan) : Prop := mk_plan_for {
  pl_amount : sp_amount p = amount;
  pl_selected : selected_for (w_data w) live amount (sp_input_coin_ids p);
  pl_in_sum : sp_in_sum p = worth (input_coins (w_data w) (sp_input_coin_ids p));
  pl_fee : 10 <= sp_fee p /\ sumZ (map output_value (sp_outputs p)) + sp_fee p = sp_in_sum p;
  pl_outputs : exists paid kept, sp_outputs p ≡ₚ paid ++ kept /\ paid_as paid
    /\ Forall2 pays_to kept (map snd (sp_change_seeds p));
  pl_fresh : hands_out w (map snd (sp_change_seeds p)) w';
  pl_seeds : seeds_match (sp_outputs p) (sp_change_seeds p);
  pl_balanced : balanced (w_data w) (sp_input_coin_ids p) (sp_outputs p)
}.

(** Outputs that consensus accepts and that add up. *)
Definition pays_amount (amount : Z) (count : nat) (outs : list OutputData) : Prop :=
  length outs = count /\ sumZ (map output_value outs) = amount
  /\ Forall (fun o => check_output o = Ok () /\ 0 <= output_value o) outs.

(** The outputs once the fee is settled. *)
Lemma lay_out_spec paid change E Q w : (forall e, e <> OutOfFuel -> E e) -> in_u 64 change ->
  (forall outs seeds w' kept, outs ≡ₚ paid ++ kept -> sumZ (map output_value kept) = change ->
     (length kept <= 64)%nat -> Forall2 pays_to kept (map snd seeds) -> hands_out w (map snd seeds) w' ->
     seeds_match outs seeds ->
     Forall (fun o => check_output o = Ok () /\ 0 <= output_value o) kept -> Q (outs, seeds) w') ->
  ends (lay_out paid change) E Q w.
Proof.
  intros HE HC HQ. unfold lay_out. apply ends_bind.
  assert (HIO : forall e, io_error e -> E e) by (intros e [-> | ->]; apply HE; discriminate).
  assert (HK : forall Q : list OutputData * list (nat * hash32) -> World -> Prop,
    (forall kept seeds w', sumZ (map output_value kept) = change -> (length kept <= 64)%nat ->
       Forall2 pays_to kept (map snd seeds) -> hands_out w (map snd seeds) w' -> seeds_match (paid ++ kept) seeds ->
       Forall (fun o => check_output o = Ok () /\ 0 <= output_value o) kept -> Q (kept, seeds) w') ->
    ends (if 0 <? change then change_outputs None (length paid) (decompose_value change) else mret ([], [])) E Q w).
  { intros Q' HQ'. destruct (Z.ltb_spec 0 change).
    - eapply ends_mono; [intros e He; exact He| |apply (change_outputs_spec E None (decompose_value change))].
      + intros [kept seeds] w' (E1 & ES & _ & _ & E4 & E5). cbn [fst snd] in *. destruct (E5 eq_refl). apply HQ'; auto.
        * rewrite E1. apply decompose_value_sum, HC.
        * rewrite <- (length_map output_value kept), E1. apply length_decompose, HC.
        * apply standard_outputs; [exact ES|]. rewrite E1. apply decompose_value_pow2, HC.
      + exact HIO.
      + apply decompose_positive, HC.
      + discriminate.
    - unfold in_u in HC. apply HQ'; [cbn; lia|cbn; lia|constructor|apply hands_out_nil; reflexivity|constructor..]. }
  apply HK. clear HK. intros kept seeds w1 K1 K2 K3 KH K4 K5. cbv zeta. apply ends_bind. unfold ends at 1, ask.
  unfold ends, reads.
  destruct (reorder_spec (shuffle (w_tick w1) (seq 0 (length (paid ++ kept)))) (paid ++ kept) seeds) as
    (outs & seeds' & -> & O1 & O2 & O3); [apply shuffle_perm|exact K4|].
  apply (HQ outs seeds' _ kept); try assumption; rewrite O3; [exact K3|].
  eapply hands_out_quiet; [reflexivity|exact KH|]. repeat split; cbn; lia.
Qed.

(** The loop ends: each round that does not settle raises the fee, which is bounded. *)
Lemma plan_loop_spec paid_as count recipients live amount E fuel :
  (forall E w, ends recipients E (fun outs w' => quiet w w' /\ pays_amount amount count outs /\ paid_as outs) w) ->
  (forall e, e <> OutOfFuel -> E e) -> (1 <= count <= 192)%nat -> in_u 64 amount ->
  forall target_fee w, wallet_ok (w_data w) -> worth (coins (w_data w)) < 2 ^ 63 ->
  0 <= target_fee <= max_fee count -> max_fee count < target_fee + Z.of_nat fuel ->
  ends (plan_loop fuel count recipients live amount target_fee) E (fun p w' => plan_for w w' live paid_as amount p) w.
Proof.
  intros HR HE HC HA. induction fuel as [|fuel IH]; intros target_fee w Hok HW HT HF; [lia|]. cbn [plan_loop]. cbv zeta.
  destruct (required_fee_bounds 256 0 count) as [_ HM]; [lia..|].
  apply ends_bind, select_spec; [exact Hok|exact HE|]. intros ids w1 EQ HS. pose proof EQ as [E1 _]. apply ends_bind. unfold ends at 1, data, reads.
  rewrite E1. fold (input_coins (w_data w) ids). unfold wrap_sum. fold (worth (input_coins (w_data w) ids)).
  pose proof (sel_worth _ _ _ _ HS) as [S1 S2]. set (total := worth (input_coins (w_data w) ids)) in *.
  assert (S0 : 0 <= total).
  { destruct Hok as (_ & HCo & _). apply worth_nonneg. apply Forall_forall. intros c Hc. rewrite Forall_forall in HCo.
    apply list_elem_of_omap in Hc as (id & _ & Hf). apply find_coin_Some in Hf as [Hf _]. apply (HCo c Hf). }
  assert (HWr : forall x, 0 <= x < 2 ^ 64 -> wrap 64 x = x) by (intros x Hx; apply Z.mod_small, Hx).
  rewrite (HWr total) by lia. apply ends_bind. unfold ends at 1, fail_if, reads, bail_if.
  destruct (Z.leb_spec total amount) as [HL|HL]; [apply HE; discriminate|].
  unfold in_u, umax in HA. rewrite (HWr (amount + target_fee)) in S1 |- * by lia.
  set (fee := required_fee _ _).
  assert (HG : in_u 64 (sat_sub total (amount + target_fee))) by (unfold in_u, sat_sub; lia).
  destruct (required_fee_bounds (length ids) (count + length (decompose_value (sat_sub total (amount + target_fee)))) count) as [HFe _].
  { pose proof (sel_len _ _ _ _ HS) as HLen. unfold MAX_TX_INPUTS in HLen. lia. }
  { pose proof (length_decompose _ HG). lia. }
  { lia. }
  fold fee in HFe. rewrite (HWr (amount + fee)) by lia.
  destruct (Z.leb_spec (amount + fee) total) as [HB'|HB'].
  2: { eapply ends_mono; [intros e He; exact He| |apply (IH fee w1)]; rewrite ?E1; auto; [|lia..].
    intros p w' [P1 P2 P3 P4 P5 P6 P7 P8]. rewrite E1 in *. split; auto.
    eapply hands_out_quiet; [exact EQ|exact P6|reflexivity]. }
  apply ends_bind. eapply ends_mono; [intros e He; exact He| |apply HR]. intros paid w2 (E2 & (P1 & P2 & P3) & P4).
  rewrite (HWr (total - amount)), (HWr (total - amount - fee)) by lia.
  apply ends_bind, lay_out_spec; [exact HE|unfold in_u; lia|].
  intros outs seeds w3 kept O1 O2 O3 O4 OH O5 O6. unfold ends, mret, st_ret.
  assert (EV : sumZ (map output_value outs) = total - fee).
  { rewrite (sumZ_perm _ _ (Permutation_map output_value O1)), map_app, sumZ_app, O2, P2. lia. }
  split; cbn [sp_amount sp_input_coin_ids sp_in_sum sp_fee sp_outputs sp_change_seeds]; auto.
  - destruct HS. split; auto. split; [lia|apply S2].
  - split; [lia|]. rewrite EV. lia.
  - eauto.
  - eapply hands_out_quiet; [etrans; [exact EQ|exact E2]|exact OH|reflexivity].
  - split; [intros ->; cbn in S0; unfold total in HL; cbn in HL; lia|].
    split; [intros ->; apply Permutation_length in O1; rewrite length_app in O1; cbn in O1; lia|].
    split; [exact (sel_len _ _ _ _ HS)|]. split.
    + unfold len, MAX_TX_OUTPUTS. rewrite (Permutation_length O1), length_app. lia.
    + split; [rewrite O1; apply Forall_app; auto|]. fold total. rewrite EV. unfold umax. lia.
Qed.

Lemma fee_fuel count : (count <= 64)%nat -> max_fee count <= 4225.
Proof. intros HC. unfold max_fee. rewrite required_fee_small by lia. Z.to_euclidean_division_equations. lia. Qed.

(** C24: planning a send ends, within 4200 rounds of raising the fee, because each round
    that does not settle needs a larger fee and the fee is bounded.  The plan it returns
    pays the recipient exactly the amount in powers of two, spends distinct live coins
    of the wallet together with their live one-time siblings, and keeps the rest as
    change, each change output payable to a fresh key of its own: their seeds, in order,
    are those of the next values of the wallet's counter, which moves past them (or the
    next draws of the generator, in a wallet without a master seed).  The outputs and
    the fee add up to the inputs: it is a transaction that balances. *)
Theorem plan_send_settles fuel live dest amount w : (4200 <= fuel)%nat ->
  wallet_ok (w_data w) -> worth (coins (w_data w)) < 2 ^ 63 -> in_u 64 amount ->
  match plan_send fuel live dest amount w with
  | (Ok p, w') => plan_for w w' live
      (fun paid => map output_value paid = decompose_value amount /\ Forall (fun o => output_address o = dest) paid) amount p
  | (Err e, _) => e <> OutOfFuel
  | (Panic, _) => False
  end.
Proof.
  intros HF Hok HW HA.
  enough (HE : ends (plan_send fuel live dest amount) (fun e => e <> OutOfFuel) (fun p w' => plan_for w w' live
      (fun paid => map output_value paid = decompose_value amount /\ Forall (fun o => output_address o = dest) paid) amount p) w).
  { unfold ends in HE. destruct (plan_send fuel live dest amount w) as [[p|e|] w']; exact HE. }
  unfold plan_send. apply ends_bind. unfold ends at 1, fail_if, reads, bail_if.
  destruct (Z.eqb_spec amount 0) as [E0|E0]; [discriminate|].
  pose proof (length_decompose amount HA) as HL. pose proof (fee_fuel _ HL) as HM.
  assert (H1 : (1 <= length (decompose_value amount))%nat).
  { pose proof (decompose_value_sum amount HA) as HS. destruct (decompose_value amount); [cbn in HS; lia|cbn; lia]. }
  destruct (required_fee_bounds 256 0 (length (decompose_value amount))) as [_ HB']; [lia..|].
  apply plan_loop_spec; auto; [|lia..].
  intros E w1. eapply ends_mono; [intros e He; exact He| |apply recipients_spec].
  intros outs w2 (E1 & E2 & E3 & E4). split; [exact E1|]. split; [|auto]. split; [|split].
  - rewrite <- E2, length_map. reflexivity.
  - rewrite E2. apply decompose_value_sum, HA.
  - apply standard_outputs; [exact E3|]. rewrite E2. apply decompose_value_pow2, HA.
Qed.

(** The same with fixed outputs, such as those that fund a channel. *)
Lemma plan_fixed_outputs_settles fuel live recipient w : (4400 <= fuel)%nat ->
  wallet_ok (w_data w) -> worth (coins (w_data w)) < 2 ^ 63 -> (length recipient <= 192)%nat ->
  Forall standard recipient -> Forall (fun o => check_output o = Ok () /\ 0 <= output_value o) recipient ->
  sumZ (map output_value recipient) <= umax 64 ->
  match plan_fixed_outputs fuel live recipient w with
  | (Ok p, w') => plan_for w w' live (eq recipient) (sumZ (map output_value recipient)) p
  | (Err e, _) => e <> OutOfFuel
  | (Panic, _) => False
  end.
Proof.
  intros HF Hok HW HL HS HO HB'.
  assert (E : wrap_sum (map (fun o => match o with Standard _ value _ => value | _ => 0 end) recipient)
              = sumZ (map output_value recipient)).
  { assert (E : map (fun o => match o with Standard _ value _ => value | _ => 0 end) recipient = map output_value recipient).
    { clear -HS. induction HS as [|o l (a & v & s & ->) HS IH]; [reflexivity|]. cbn. rewrite IH. reflexivity. }
    rewrite E. apply Z.mod_small. unfold umax in HB'. split; [|lia]. apply sumZ_nonneg, Forall_map.
    eapply Forall_impl; [exact HO|]. intros o Ho. apply Ho. }
  enough (HE : ends (plan_fixed_outputs fuel live recipient) (fun e => e <> OutOfFuel)
      (fun p w' => plan_for w w' live (eq recipient) (sumZ (map output_value recipient)) p) w).
  { unfold ends in HE. destruct (plan_fixed_outputs fuel live recipient w) as [[p|e|] w']; exact HE. }
  unfold plan_fixed_outputs. rewrite E. cbv zeta. apply ends_bind. unfold ends at 1, fail_if, reads, bail_if.
  destruct (Z.eqb_spec (sumZ (map output_value recipient)) 0) as [E0|E0]; [discriminate|].
  assert (H1 : (1 <= length recipient)%nat) by (destruct recipient; [cbn in E0; lia|cbn; lia]).
  assert (HM : max_fee (length recipient) <= 4400).
  { unfold max_fee. rewrite required_fee_small by lia. Z.to_euclidean_division_equations. lia. }
  destruct (required_fee_bounds 256 0 (length recipient)) as [_ HB2]; [lia..|].
  apply plan_loop_spec; auto; [| |lia..].
  - intros E' w1. unfold ends, mret, st_ret. split; [reflexivity|]. split; [|reflexivity]. split; [reflexivity|]. auto.
  - split; [|unfold umax in HB'; lia]. apply sumZ_nonneg, Forall_map. eapply Forall_impl; [exact HO|]. intros o Ho. apply Ho.
Qed.

End Planning.

Lemma build_outputs_contract_witness :
  let H := const_blake3 in
  let r := @build_outputs H demo_env (zero_arr 32) [4; 1] 3 (new_world None) in
  is_ok r.1 = true /\ match r with
  | (Ok (outs, seeds), _) => exists paid kept, outs ≡ₚ paid ++ kept /\ sumZ (map output_value kept) = 3
  | (Err e, _) => io_error e
  | (Panic, _) => False
  end.
Proof.
  intros H r. split; [lazy; reflexivity|]. unfold r.
  pose proof (@build_outputs_contract H demo_env _ (zero_arr 32) [4; 1] 3 (new_world None)
    ltac:(split; reflexivity || discriminate)) as HC.
  destruct (build_outputs (zero_arr 32) [4; 1] 3 (new_world None)) as [[[outs seeds]|e|] w']; [|exact HC..].
  destruct HC as (_ & paid & kept & H1 & _ & _ & H2 & _). eauto.
Defined.

Definition rich_world `{Blake3} : World := (@import_coin _ demo_env (zero_arr 32) 1024 (zero_arr 32) (new_world None)).2.

Lemma plan_send_settles_witness :
  let H := const_blake3 in
  let w := @rich_world H in
  let r := @plan_send H demo_env 4200 (map wc_coin_id (coins (w_data w))) (zero_arr 32) 5 w in
  is_ok r.1 = true /\ match r with
  | (Ok p, _) => sp_amount p = 5 /\ sumZ (map output_value (sp_outputs p)) + sp_fee p = sp_in_sum p
  | (Err e, _) => e <> OutOfFuel
  | (Panic, _) => False
  end.
Proof.
  intros H w r. split; [lazy; reflexivity|]. unfold r.
  assert (HW : @world_ok H w).
  { apply (@ops_ok H demo_env _ (new_world None)); [apply op_import_coin; unfold umax; lia|].
    split; apply wallet_ok_empty. }
  pose proof (@plan_send_settles H demo_env _ 4200 (map wc_coin_id (coins (w_data w))) (zero_arr 32) 5 w ltac:(lia)
    (proj1 HW) ltac:(reflexivity) ltac:(split; discriminate || reflexivity)) as HC.
  destruct (plan_send 4200 (map wc_coin_id (coins (w_data w))) (zero_arr 32) 5 w) as [[p|e|] w']; [|exact HC..].
  destruct HC as [P1 _ P2 P3 _ _ _ _]. split; [exact P1|apply P3].
Defined.
