(* ===== verification/Mix.v ===== *)
(** Denomination-uniform mixes: the session of [src/wallet/coinjoin.rs] and the node's
    manager of sessions, [src/mix.rs].

    The hash maps from mix ids and from input indices are [gmap]s; the one operation
    whose result depends on their order, the listing of sessions, is left out with the
    text snapshots for RPC.  Random values and the clock are arguments. *)
From S2P Require Import Prelude Bytecode Types Script Transaction Wallet WalletSelect WalletSpend.

#[local] Open Scope Z_scope.

Definition MIN_MIX_PARTICIPANTS : nat := 2.
Definition MAX_MIX_PARTICIPANTS : nat := 16.

(** ** The fee of a mix *)

Definition estimated_mix_reveal_size (num_mix_participants : nat) : Z :=
  let total_inputs := Z.of_nat num_mix_participants + 1 in
  let total_outputs := Z.of_nat num_mix_participants in
  let per_input := 32 + 576 + 32 + 32 + 32 in
  let per_output := 64 + 32 + 32 + 32 in
  wrap 64 (256 + total_inputs * per_input + total_outputs * per_output).

Definition recommended_fee_for_mix (num_mix_participants : nat) : Z :=
  let bytes := estimated_mix_reveal_size num_mix_participants in
  if bytes =? 0 then 0 else wrap 64 ((bytes * 10 + 1024 - 1) / 1024).

(** * A session *)

Record MixRegistration : Type := mkRegistration { reg_input : InputReveal; reg_output : OutputData }.

Record MixProposal : Type := mkProposal {
  pr_inputs : list InputReveal;
  pr_outputs : list OutputData;
  pr_salt : hash32;
  pr_commitment : hash32
}.

Record MixSession : Type := mkSession {
  denomination : Z;
  min_participants : nat;
  mx_salt : hash32;
  registrations : list MixRegistration;
  fee_input : option InputReveal
}.

Inductive MixError : Type :=
  | BadDenomination | BurnForbidden | SessionFull | WrongValue | DuplicateMixInput | FeeAlreadySet | FeeReusesAddress
  | FeeTooSmall | TooFewParticipants | FeeNotSet | SignatureCount | SessionNotFound | TooManySessions | SessionExists
  | PeerBanned | WrongPhase | NoProposal | IndexOutOfRange | BadSignature | MissingSignature | CommitmentMismatch
  | OutputMissing | StillMining.

(** [Ord] on [Option]. *)
Definition opt_leb (a b : option hash32) : bool := match first_cmp a b with Gt => false | _ => true end.

Section Session.
Context `{Blake3}.

(** [MixSession::new] *)
Definition session_new (salt : hash32) (denom : Z) (min : nat) : res MixError MixSession :=
  _ ← bail_if ((denom =? 0) || negb (is_pow2 denom)) BadDenomination;
  Ok {| denomination := denom; min_participants := Nat.min (Nat.max min MIN_MIX_PARTICIPANTS) MAX_MIX_PARTICIPANTS;
        mx_salt := salt; registrations := []; fee_input := None |}.

Definition is_burn (o : OutputData) : bool := match o with DataBurn _ _ => true | _ => false end.

(** [MixSession::register] *)
Definition session_register (input : InputReveal) (output : OutputData) (s : MixSession) : res MixError MixSession :=
  _ ← bail_if (is_burn output) BurnForbidden;
  _ ← bail_if (Nat.leb MAX_MIX_PARTICIPANTS (length (registrations s))) SessionFull;
  _ ← bail_if (negb (in_value input =? denomination s)) WrongValue;
  _ ← bail_if (negb (output_value output =? denomination s)) WrongValue;
  let coin_id := input_coin_id input in
  _ ← bail_if (existsb (fun r => bool_decide (input_coin_id (reg_input r) = coin_id)) (registrations s)) DuplicateMixInput;
  Ok {| denomination := denomination s; min_participants := min_participants s; mx_salt := mx_salt s;
        registrations := registrations s ++ [mkRegistration input output]; fee_input := fee_input s |}.

Definition input_address (i : InputReveal) : hash32 := predicate_address (in_predicate i).

(** [MixSession::set_fee_input] *)
Definition session_set_fee (input : InputReveal) (s : MixSession) : res MixError MixSession :=
  _ ← bail_if (bool_decide (is_Some (fee_input s))) FeeAlreadySet;
  _ ← bail_if (existsb (fun r => bool_decide (input_address (reg_input r) = input_address input)) (registrations s)) FeeReusesAddress;
  _ ← bail_if (in_value input =? 0) FeeTooSmall;
  _ ← bail_if (in_value input <? recommended_fee_for_mix (length (registrations s))) FeeTooSmall;
  Ok {| denomination := denomination s; min_participants := min_participants s; mx_salt := mx_salt s;
        registrations := registrations s; fee_input := Some input |}.

Definition is_ready (s : MixSession) : bool :=
  Nat.leb (min_participants s) (length (registrations s)) && bool_decide (is_Some (fee_input s)).

(** Inputs by coin id with the fee last, and outputs by coin id. *)
Definition proposal (s : MixSession) : res MixError MixProposal :=
  _ ← bail_if (Nat.ltb (length (registrations s)) (min_participants s)) TooFewParticipants;
  fee ← ok_or FeeNotSet (fee_input s);
  _ ← bail_if (in_value fee <? recommended_fee_for_mix (length (registrations s))) FeeTooSmall;
  let mix_inputs := sort_by (fun a b => opt_leb (Some (input_coin_id a)) (Some (input_coin_id b))) (map reg_input (registrations s)) in
  let inputs := mix_inputs ++ [fee] in
  let outputs := sort_by (fun a b => opt_leb (output_coin_id a) (output_coin_id b)) (map reg_output (registrations s)) in
  let commitment := compute_commitment (map input_coin_id inputs) (map hash_for_commitment outputs) (mx_salt s) in
  Ok {| pr_inputs := inputs; pr_outputs := outputs; pr_salt := mx_salt s; pr_commitment := commitment |}.

Definition build_reveal (signatures : list bytes) (s : MixSession) : res MixError Transaction :=
  p ← proposal s;
  _ ← bail_if (negb (Nat.eqb (length signatures) (length (pr_inputs p)))) SignatureCount;
  Ok (Reveal (pr_inputs p) (map (fun sig => ScriptInputs [sig]) signatures) (pr_outputs p) (pr_salt p)).

(** What an observer takes for a mix. *)
Definition is_uniform_mix (tx : Transaction) : bool :=
  match tx with
  | Reveal inputs _ outputs _ =>
      match outputs with
      | [] => false
      | first :: _ =>
          let denom := output_value first in
          Nat.leb MIN_MIX_PARTICIPANTS (length outputs)
          && Nat.eqb (length inputs) (length outputs + 1)
          && negb ((denom =? 0) || negb (is_pow2 denom))
          && forallb (fun o => output_value o =? denom) outputs
          && Nat.leb (length outputs) (length (List.filter (fun i => in_value i =? denom) inputs))
          && (recommended_fee_for_mix (length outputs)
              <=? sat_sub (wrap_sum (map in_value inputs)) (wrap_sum (map output_value outputs)))
      end
  | _ => false
  end.

End Session.

(** * The manager *)

Abbreviation PeerId := bytes.

Definition MIX_SESSION_TIMEOUT : Z := 300.
Definition MAX_MIX_SESSIONS : nat := 16.
Definition MIX_JOIN_POW_BITS : Z := 30.

Inductive FailReason : Type := PeerDisconnected (p : PeerId) | SigningTimedOut | TxFailed.

Inductive MixPhase : Type := Collecting | Signing | CommitSubmitted | Complete | Failed (why : FailReason).

#[export] Instance FailReason_eq_dec : EqDecision FailReason.
Proof. solve_decision. Defined.
#[export] Instance MixPhase_eq_dec : EqDecision MixPhase.
Proof. solve_decision. Defined.

Record Participant : Type := mkParticipant { pa_peer : option PeerId; pa_coin_id : hash32 }.

Record NodeMixSession : Type := mkNodeSession {
  ns_session : MixSession;
  participants : list Participant;
  fee_participant : option Participant;
  ns_proposal : option MixProposal;
  signatures : gmap nat bytes;
  phase : MixPhase;
  phase_started_at : Z;
  ns_created_at : Z;
  is_coordinator : bool;
  coordinator_peer : option PeerId;
  local_outputs : list hash32
}.

Record MixManager : Type := mkManager { sessions : gmap hash32 NodeMixSession; banned_peers : gset PeerId }.

Definition manager_new : MixManager := mkManager ∅ ∅.

Definition with_phase (p : MixPhase) (started : Z) (ns : NodeMixSession) : NodeMixSession :=
  mkNodeSession (ns_session ns) (participants ns) (fee_participant ns) (ns_proposal ns) (signatures ns) p started
    (ns_created_at ns) (is_coordinator ns) (coordinator_peer ns) (local_outputs ns).
Definition with_proposal (pr : MixProposal) (p : MixPhase) (started : Z) (ns : NodeMixSession) : NodeMixSession :=
  mkNodeSession (ns_session ns) (participants ns) (fee_participant ns) (Some pr) (signatures ns) p started
    (ns_created_at ns) (is_coordinator ns) (coordinator_peer ns) (local_outputs ns).

Abbreviation MM := (ST MixManager MixError).

Definition get_session (mix_id : hash32) : MM NodeMixSession :=
  reads (fun m => ok_or SessionNotFound (sessions m !! mix_id)).
Definition put_session (mix_id : hash32) (ns : NodeMixSession) : MM () :=
  modify (fun m => mkManager (<[mix_id := ns]> (sessions m)) (banned_peers m)).
Definition require_that (c : bool) (e : MixError) : MM () := reads (fun _ => bail_if (negb c) e).

Definition check_not_banned (peer : option PeerId) : MM () := reads (fun m =>
  match peer with
  | Some p => bail_if (bool_decide (p ∈ banned_peers m)) PeerBanned
  | None => Ok ()
  end).

Section Manager.
Context `{Blake3}.
Context (usize_bits : Z).

(** ** Proof of work against floods of joins *)

Definition join_hash (mix_id coin_id : hash32) (peer_id : bytes) (nonce : Z) : hash32 :=
  hash (mix_id ++ coin_id ++ peer_id ++ le_bytes 8 nonce).

Definition verify_mix_join_pow (mix_id coin_id : hash32) (peer_id : bytes) (nonce required_pow : Z) : bool :=
  required_pow <=? count_leading_zeros (join_hash mix_id coin_id peer_id nonce).

(** The nonces from [n] on; there are 2^64 of them. *)
Fixpoint mine_join_from (fuel : nat) (mix_id coin_id : hash32) (peer_id : bytes) (required_pow n : Z) : option Z :=
  match fuel with
  | O => None
  | S fuel =>
      if verify_mix_join_pow mix_id coin_id peer_id n required_pow then Some n
      else mine_join_from fuel mix_id coin_id peer_id required_pow (n + 1)
  end.

Definition mine_mix_join_pow (fuel : nat) (mix_id coin_id : hash32) (peer_id : bytes) (required_pow : Z) : option Z :=
  mine_join_from fuel mix_id coin_id peer_id required_pow 0.

(** ** Sessions *)

Definition fresh_session (s : MixSession) (now : Z) (coordinator : option PeerId) : NodeMixSession :=
  mkNodeSession s [] None None ∅ Collecting now now (bool_decide (coordinator = None)) coordinator [].

Definition create_session (salt mix_id : hash32) (now : Z) (denom : Z) (min : nat) : MM hash32 :=
  _ ← reads (fun m => bail_if (Nat.leb MAX_MIX_SESSIONS (size (sessions m))) TooManySessions);
  s ← reads (fun _ => session_new salt denom min);
  _ ← put_session mix_id (fresh_session s now None);
  mret mix_id.

Definition create_joining_session (salt mix_id : hash32) (now : Z) (denom : Z) (coordinator : PeerId) : MM () :=
  _ ← reads (fun m => bail_if (bool_decide (is_Some (sessions m !! mix_id))) SessionExists);
  _ ← reads (fun m => bail_if (Nat.leb MAX_MIX_SESSIONS (size (sessions m))) TooManySessions);
  s ← reads (fun _ => session_new salt denom 2);
  put_session mix_id (fresh_session s now (Some coordinator)).

(** What the operations add to a session. *)
Definition added_participant (input : InputReveal) (output : OutputData) (peer : option PeerId) (s : MixSession)
    (ns : NodeMixSession) : NodeMixSession :=
  mkNodeSession s (participants ns ++ [mkParticipant peer (input_coin_id input)]) (fee_participant ns) (ns_proposal ns)
    (signatures ns) (phase ns) (phase_started_at ns) (ns_created_at ns) (is_coordinator ns) (coordinator_peer ns)
    (if bool_decide (peer = None) then local_outputs ns ++ [hash_for_commitment output] else local_outputs ns).

Definition added_fee (input : InputReveal) (peer : option PeerId) (s : MixSession) (ns : NodeMixSession) : NodeMixSession :=
  mkNodeSession s (participants ns) (Some (mkParticipant peer (input_coin_id input))) (ns_proposal ns)
    (signatures ns) (phase ns) (phase_started_at ns) (ns_created_at ns) (is_coordinator ns) (coordinator_peer ns)
    (local_outputs ns).

Definition added_signature (i : nat) (sig : bytes) (ns : NodeMixSession) : NodeMixSession :=
  mkNodeSession (ns_session ns) (participants ns) (fee_participant ns) (ns_proposal ns)
    (<[i := sig]> (signatures ns)) (phase ns) (phase_started_at ns) (ns_created_at ns)
    (is_coordinator ns) (coordinator_peer ns) (local_outputs ns).

Definition register (mix_id : hash32) (input : InputReveal) (output : OutputData) (peer : option PeerId) : MM () :=
  _ ← check_not_banned peer;
  ns ← get_session mix_id;
  _ ← require_that (bool_decide (phase ns = Collecting)) WrongPhase;
  s ← reads (fun _ => session_register input output (ns_session ns));
  put_session mix_id (added_participant input output peer s ns).

Definition set_fee_input (mix_id : hash32) (input : InputReveal) (peer : option PeerId) : MM () :=
  _ ← check_not_banned peer;
  ns ← get_session mix_id;
  _ ← require_that (bool_decide (phase ns = Collecting)) WrongPhase;
  s ← reads (fun _ => session_set_fee input (ns_session ns));
  put_session mix_id (added_fee input peer s ns).

Definition try_finalize (mix_id : hash32) (now : Z) : MM (option MixProposal) :=
  ns ← get_session mix_id;
  if negb (bool_decide (phase ns = Collecting)) || negb (is_ready (ns_session ns)) then mret None
  else
    pr ← reads (fun _ => proposal (ns_session ns));
    _ ← put_session mix_id (with_proposal pr Signing now ns);
    mret (Some pr).

(** [.is_ok()] of the run, which never aborts ([Instr.execute_script_total]). *)
Definition check_signature (pr : MixProposal) (input : InputReveal) (signature : bytes) (height : Z) : bool :=
  match in_predicate input with
  | Script bytecode =>
      let ctx := {| Script.commitment := pr_commitment pr; ctx_height := height; Script.outputs := pr_outputs pr;
                    Script.input_value := in_value input; Script.input_state := in_commitment input;
                    this_address := input_address input |} in
      is_ok (execute_script usize_bits bytecode [signature] ctx)
  end.

Definition ban (peer : option PeerId) : MM () := modify (fun m =>
  match peer with Some p => mkManager (sessions m) ({[p]} ∪ banned_peers m) | None => m end).

Definition add_signature (mix_id : hash32) (input_index : nat) (signature : bytes) (current_height : Z)
    (peer : option PeerId) : MM () :=
  ns ← get_session mix_id;
  _ ← require_that (bool_decide (phase ns = Signing)) WrongPhase;
  pr ← reads (fun _ => ok_or NoProposal (ns_proposal ns));
  match pr_inputs pr !! input_index with
  | None => reads (fun _ => Err IndexOutOfRange)
  | Some input =>
      if check_signature pr input signature current_height then
        put_session mix_id (added_signature input_index signature ns)
      else _ ← ban peer; reads (fun _ => Err BadSignature)
  end.

Definition try_build_transaction (mix_id : hash32) : MM (option Transaction) :=
  ns ← get_session mix_id;
  if negb (bool_decide (phase ns = Signing)) then mret None
  else
    pr ← reads (fun _ => ok_or NoProposal (ns_proposal ns));
    if negb (Nat.eqb (size (signatures ns)) (length (pr_inputs pr))) then mret None
    else
      sigs ← reads (fun _ => mapM (fun i => ok_or MissingSignature (signatures ns !! i)) (seq 0 (length (pr_inputs pr))));
      tx ← reads (fun _ => build_reveal sigs (ns_session ns));
      mret (Some tx).

Definition set_phase (mix_id : hash32) (p : MixPhase) : MM () := modify (fun m =>
  match sessions m !! mix_id with
  | Some ns => mkManager (<[mix_id := with_phase p (phase_started_at ns) ns]> (sessions m)) (banned_peers m)
  | None => m
  end).

Definition apply_remote_proposal (mix_id : hash32) (inputs : list InputReveal) (outputs : list OutputData)
    (salt commitment : hash32) : MM () :=
  ns ← get_session mix_id;
  let output_ids := map hash_for_commitment outputs in
  _ ← require_that (bool_decide (compute_commitment (map input_coin_id inputs) output_ids salt = commitment)) CommitmentMismatch;
  _ ← require_that (forallb (fun h => bool_decide (h ∈ output_ids)) (local_outputs ns)) OutputMissing;
  put_session mix_id (with_proposal (mkProposal inputs outputs salt commitment) Signing (phase_started_at ns) ns).

(** ** Peers *)

Definition is_final (p : MixPhase) : bool := match p with Complete | Failed _ => true | _ => false end.

Definition involves (peer : PeerId) (ns : NodeMixSession) : bool :=
  bool_decide (coordinator_peer ns = Some peer)
  || existsb (fun p => bool_decide (pa_peer p = Some peer)) (participants ns)
  || match fee_participant ns with Some p => bool_decide (pa_peer p = Some peer) | None => false end.

Definition handle_peer_disconnect (peer : PeerId) : MM () := modify (fun m =>
  mkManager ((fun ns => if negb (is_final (phase ns)) && involves peer ns
                        then with_phase (Failed (PeerDisconnected peer)) (phase_started_at ns) ns else ns) <$> sessions m)
    (banned_peers m)).

Definition remote_participants (m : MixManager) (mix_id : hash32) : list PeerId :=
  match sessions m !! mix_id with
  | None => []
  | Some ns =>
      let peers := omap pa_peer (participants ns) in
      match fee_participant ns with
      | Some {| pa_peer := Some peer |} => if bool_decide (peer ∈ peers) then peers else peers ++ [peer]
      | _ => peers
      end
  end.

Definition find_input_index (m : MixManager) (mix_id coin_id : hash32) : option nat :=
  ns ← sessions m !! mix_id;
  pr ← ns_proposal ns;
  fst <$> list_find (fun i => input_coin_id i = coin_id) (pr_inputs pr).

Definition get_session_info (m : MixManager) (mix_id : hash32) : option (bool * option PeerId) :=
  (fun ns => (is_coordinator ns, coordinator_peer ns)) <$> sessions m !! mix_id.

(** ** Clean-up *)

(** The peer that registered a coin. *)
Definition peer_of (ns : NodeMixSession) (coin_id : hash32) : option PeerId :=
  match list_find (fun p => pa_coin_id p = coin_id) (participants ns) with
  | Some (_, {| pa_peer := Some p |}) => Some p
  | _ =>
      match fee_participant ns with
      | Some p => if bool_decide (pa_coin_id p = coin_id) then pa_peer p else None
      | None => None
      end
  end.

Definition signing_timed_out (now : Z) (ns : NodeMixSession) : bool :=
  bool_decide (phase ns = Signing) && (60 <? sat_sub now (phase_started_at ns)).

(** The peers whose inputs are not signed. *)
Definition stalling_peers (ns : NodeMixSession) : list PeerId :=
  match ns_proposal ns with
  | Some pr =>
      omap (fun p : nat * InputReveal =>
              match signatures ns !! p.1 with Some _ => None | None => peer_of ns (input_coin_id p.2) end)
        (zip (seq 0 (length (pr_inputs pr))) (pr_inputs pr))
  | None => []
  end.

Definition time_out (now : Z) (ns : NodeMixSession) : NodeMixSession :=
  if signing_timed_out now ns then with_phase (Failed SigningTimedOut) now ns else ns.

Definition keep_session (now : Z) (ns : NodeMixSession) : bool :=
  if is_final (phase ns) then sat_sub now (phase_started_at ns) <? 30
  else sat_sub now (ns_created_at ns) <? MIX_SESSION_TIMEOUT.

(** [forget] is the one chance in 720 of clearing the bans. *)
Definition cleanup (now : Z) (forget : bool) : MM () := modify (fun m =>
  let bans := if forget then ∅ else banned_peers m in
  let stalled := map_fold (fun _ ns acc => if signing_timed_out now ns then list_to_set (stalling_peers ns) ∪ acc else acc)
                   (∅ : gset PeerId) (sessions m) in
  mkManager (filter (fun p => keep_session now p.2 = true) (time_out now <$> sessions m)) (stalled ∪ bans)).

End Manager.

(** * The node

    Calls of the local wallet and messages of peers, from [src/node.rs].  What a handler
    sends is its result; the search for a join nonce takes place between two critical
    sections, so the check for readiness that follows a local registration is a handler
    of its own, [announce_if_ready]. *)

Inductive MixOut : Type :=
  | OutAnnounce (mix_id : hash32) (denom : Z)
  | OutJoin (coordinator : PeerId) (mix_id : hash32) (input : InputReveal) (output : OutputData) (join_nonce : Z)
  | OutFee (coordinator : PeerId) (mix_id : hash32) (input : InputReveal) (join_nonce : Z)
  | OutSign (coordinator : PeerId) (mix_id : hash32) (input_index : nat) (signature : bytes)
  | OutProposal (peer : PeerId) (mix_id : hash32) (p : MixProposal)
  | OutCheckReady (mix_id : hash32)
  | OutSubmit (mix_id : hash32) (tx : Transaction).

Section Node.
Context `{Blake3}.
Context (usize_bits : Z).

Definition session_info (mix_id : hash32) : MM (bool * option PeerId) :=
  reads (fun m => ok_or SessionNotFound (get_session_info m mix_id)).

(** The node itself, and the steps its search for a nonce may take. *)
Context (local_peer : PeerId) (fuel : nat).

Definition mine_join (mix_id coin_id : hash32) : MM Z :=
  reads (fun _ => ok_or StillMining (mine_mix_join_pow fuel mix_id coin_id local_peer MIX_JOIN_POW_BITS)).

(** [if let Ok(Some(proposal)) = mgr.try_finalize(..)]: a proposal goes to every remote
    participant. *)
Definition announce_if_ready (mix_id : hash32) (now : Z) : MM (list MixOut) :=
  r ← attempt (try_finalize mix_id now);
  match r with
  | Some (Some p) => reads (fun m => Ok (map (fun peer => OutProposal peer mix_id p) (remote_participants m mix_id)))
  | _ => mret []
  end.

(** ** The local wallet *)

Definition mix_create (salt mix_id : hash32) (now denom : Z) (min : nat) : MM (list MixOut) :=
  id ← create_session salt mix_id now denom min;
  mret [OutAnnounce id denom].

Definition mix_register (mix_id : hash32) (input : InputReveal) (output : OutputData) : MM (list MixOut) :=
  '(is_coord, coord_peer) ← session_info mix_id;
  _ ← register mix_id input output None;
  if is_coord : bool then mret [OutCheckReady mix_id]
  else match coord_peer with
       | Some peer =>
           join_nonce ← mine_join mix_id (input_coin_id input);
           mret [OutJoin peer mix_id input output join_nonce]
       | None => mret []
       end.

Definition mix_set_fee (mix_id : hash32) (input : InputReveal) : MM (list MixOut) :=
  '(is_coord, coord_peer) ← session_info mix_id;
  _ ← set_fee_input mix_id input None;
  if is_coord : bool then mret [OutCheckReady mix_id]
  else match coord_peer with
       | Some peer =>
           join_nonce ← mine_join mix_id (input_coin_id input);
           mret [OutFee peer mix_id input join_nonce]
       | None => mret []
       end.

Definition mix_sign (mix_id : hash32) (input_index : nat) (signature : bytes) (current_height : Z) : MM (list MixOut) :=
  '(is_coord, coord_peer) ← session_info mix_id;
  _ ← add_signature usize_bits mix_id input_index signature current_height None;
  if is_coord : bool then
    tx ← try_build_transaction mix_id;
    match tx with
    | Some tx =>
        _ ← set_phase mix_id CommitSubmitted;
        mret [OutSubmit mix_id tx]
    | None => mret []
    end
  else match coord_peer with
       | Some peer => mret [OutSign peer mix_id input_index signature]
       | None => mret []
       end.

(** ** Messages of peers *)

Context (utxo : hash32 -> bool).

Definition on_mix_announce (from : PeerId) (salt mix_id : hash32) (now denom : Z) : MM (list MixOut) :=
  known ← reads (fun m => Ok (bool_decide (is_Some (get_session_info m mix_id))));
  if known : bool then mret [] else _ ← attempt (create_joining_session salt mix_id now denom from); mret [].

(** The coin is unspent and the nonce bound to the peer. *)
Definition join_admitted (from : PeerId) (mix_id : hash32) (input : InputReveal) (join_nonce : Z) : bool :=
  utxo (input_coin_id input) && verify_mix_join_pow mix_id (input_coin_id input) from join_nonce MIX_JOIN_POW_BITS.

Definition on_mix_join (from : PeerId) (mix_id : hash32) (input : InputReveal) (output : OutputData) (join_nonce now : Z)
  : MM (list MixOut) :=
  if negb (join_admitted from mix_id input join_nonce) then mret []
  else
    r ← attempt (register mix_id input output (Some from));
    match r with Some _ => announce_if_ready mix_id now | None => mret [] end.

Definition on_mix_fee (from : PeerId) (mix_id : hash32) (input : InputReveal) (join_nonce now : Z) : MM (list MixOut) :=
  if negb (join_admitted from mix_id input join_nonce) then mret []
  else
    r ← attempt (set_fee_input mix_id input (Some from));
    match r with Some _ => announce_if_ready mix_id now | None => mret [] end.

(** The sender of a proposal is not looked at. *)
Definition on_mix_proposal (mix_id : hash32) (inputs : list InputReveal) (outputs : list OutputData) (salt commitment : hash32)
  : MM (list MixOut) :=
  _ ← attempt (apply_remote_proposal mix_id inputs outputs salt commitment); mret [].

Definition on_mix_sign (from : PeerId) (mix_id : hash32) (input_index : nat) (signature : bytes) (height : Z) : MM (list MixOut) :=
  r ← attempt (add_signature usize_bits mix_id input_index signature height (Some from));
  match r with
  | None => mret []
  | Some _ =>
      tx ← attempt (try_build_transaction mix_id);
      match tx with
      | Some (Some tx) => _ ← set_phase mix_id CommitSubmitted; mret [OutSubmit mix_id tx]
      | _ => mret []
      end
  end.

End Node.

(** ** The transaction on its way to the chain *)

Record NodeMix : Type := mkNodeMix { nm_mgr : MixManager; pending_mix_reveals : gmap hash32 (hash32 * Transaction) }.

Abbreviation NM := (ST NodeMix MixError).

Definition on_mgr {A} (f : MM A) : NM A := fun s =>
  ((f (nm_mgr s)).1, mkNodeMix (f (nm_mgr s)).2 (pending_mix_reveals s)).
Definition set_reveals (f : gmap hash32 (hash32 * Transaction) -> gmap hash32 (hash32 * Transaction)) : NM () :=
  modify (fun s => mkNodeMix (nm_mgr s) (f (pending_mix_reveals s))).

Section Reveals.
Context `{Blake3}.

Definition mix_commitment (tx : Transaction) : option hash32 :=
  match tx with
  | Reveal inputs _ outputs salt | Consolidate inputs _ outputs salt => Some (tx_commitment inputs outputs salt)
  | Commit _ _ => None
  end.

(** [handle_mix_transaction] with what its callers do on an error; [accepted] is the
    answer to the commit it submits. *)
Definition submit_mix (mix_id : hash32) (tx : Transaction) (accepted : bool) : NM (list MixOut) :=
  match mix_commitment tx with
  | Some c =>
      if accepted then _ ← set_reveals <[c := (mix_id, tx)]>; mret []
      else _ ← on_mgr (set_phase mix_id (Failed TxFailed)); mret []
  | None => _ ← on_mgr (set_phase mix_id (Failed TxFailed)); mret []
  end.

(** The commits that have been mined, in the order of the hash map, [hash_order]; each
    reveal is submitted and [accept] is the answer. *)
Definition check_pending_mix_reveals (hash_order : list hash32 -> list hash32) (mined : hash32 -> bool)
    (accept : Transaction -> bool) : NM (list MixOut) :=
  pending ← reads (fun s => Ok (pending_mix_reveals s));
  let to_reveal := List.filter mined (hash_order (map fst (map_to_list pending))) in
  _ ← st_each (fun c =>
        here ← reads (fun s => Ok (pending_mix_reveals s !! c));
        match here with
        | Some (mix_id, tx) =>
            _ ← set_reveals (delete c);
            on_mgr (set_phase mix_id (if accept tx then Complete else Failed TxFailed))
        | None => mret ()
        end) to_reveal;
  mret [].

End Reveals.

(** ** A node in time *)

Inductive MixEvent : Type :=
  | EvCreate (salt mix_id : hash32) (now denom : Z) (min : nat)
  | EvRegister (mix_id : hash32) (input : InputReveal) (output : OutputData)
  | EvSetFee (mix_id : hash32) (input : InputReveal)
  | EvCheckReady (mix_id : hash32) (now : Z)
  | EvSign (mix_id : hash32) (input_index : nat) (signature : bytes) (height : Z)
  | EvAnnounce (from : PeerId) (salt mix_id : hash32) (now denom : Z)
  | EvJoin (utxo : hash32 -> bool) (from : PeerId) (mix_id : hash32) (input : InputReveal) (output : OutputData) (join_nonce now : Z)
  | EvFee (utxo : hash32 -> bool) (from : PeerId) (mix_id : hash32) (input : InputReveal) (join_nonce now : Z)
  | EvProposal (from : PeerId) (mix_id : hash32) (inputs : list InputReveal) (outputs : list OutputData) (salt commitment : hash32)
  | EvPeerSign (from : PeerId) (mix_id : hash32) (input_index : nat) (signature : bytes) (height : Z)
  | EvSubmit (mix_id : hash32) (tx : Transaction) (accepted : bool)
  | EvBlock (hash_order : list hash32 -> list hash32) (mined : hash32 -> bool) (accept : Transaction -> bool)
  | EvPeerGone (peer : PeerId)
  | EvCleanup (now : Z) (forget : bool).

Section Run.
Context `{Blake3}.
Context (usize_bits : Z) (local_peer : PeerId) (fuel : nat).

Definition handle_mix (e : MixEvent) : NM (list MixOut) :=
  match e with
  | EvCreate salt id now denom min => on_mgr (mix_create salt id now denom min)
  | EvRegister id input output => on_mgr (mix_register local_peer fuel id input output)
  | EvSetFee id input => on_mgr (mix_set_fee local_peer fuel id input)
  | EvCheckReady id now => on_mgr (announce_if_ready id now)
  | EvSign id i sig height => on_mgr (mix_sign usize_bits id i sig height)
  | EvAnnounce from salt id now denom => on_mgr (on_mix_announce from salt id now denom)
  | EvJoin utxo from id input output nonce now => on_mgr (on_mix_join utxo from id input output nonce now)
  | EvFee utxo from id input nonce now => on_mgr (on_mix_fee utxo from id input nonce now)
  | EvProposal _ id inputs outputs salt commitment => on_mgr (on_mix_proposal id inputs outputs salt commitment)
  | EvPeerSign from id i sig height => on_mgr (on_mix_sign usize_bits from id i sig height)
  | EvSubmit id tx accepted => submit_mix id tx accepted
  | EvBlock order mined accept => check_pending_mix_reveals order mined accept
  | EvPeerGone peer => on_mgr (_ ← handle_peer_disconnect peer; mret [])
  | EvCleanup now forget => on_mgr (_ ← cleanup now forget; mret [])
  end.

Definition node_mix_new : NodeMix := mkNodeMix manager_new ∅.

Definition mix_run (evs : list MixEvent) (s : NodeMix) : NodeMix := fold_left (fun s e => (handle_mix e s).2) evs s.

End Run.
