(* ===== verification/MixSafe.v ===== *)
(** What a mix guarantees: sessions move along a state machine whatever the peers send,
    a signature given to a proposal pays the signer's outputs, and the proposal does not
    depend on the order of registration. *)
From S2P Require Import Prelude Bytecode Types Wots Mss Script Templates Smt Transaction Wallet WalletSelect WalletSpend Mix.

#[local] Open Scope Z_scope.

(** * Sorting *)

Section Sorting.
Context {A : Type} (leb : A -> A -> bool).
Context (leb_total : forall x y, leb x y = true \/ leb y x = true).
Context (leb_trans : forall x y z, leb x y = true -> leb y z = true -> leb x z = true).

Lemma insert_by_sorted x l : StronglySorted (fun a b => leb a b = true) l ->
  StronglySorted (fun a b => leb a b = true) (insert_by leb x l).
Proof.
  induction 1 as [|y l HS IH HF]; cbn; [repeat constructor|]. destruct (leb x y) eqn:E.
  - constructor; [constructor; assumption|]. constructor; [exact E|].
    eapply Forall_impl; [exact HF|]. intros z Hz. apply (leb_trans x y z E Hz).
  - constructor; [exact IH|]. rewrite insert_by_perm. constructor; [|exact HF].
    destruct (leb_total x y); congruence.
Qed.

Lemma sort_by_sorted l : StronglySorted (fun a b => leb a b = true) (sort_by leb l).
Proof. induction l as [|x l IH]; cbn; [constructor|]. apply insert_by_sorted, IH. Qed.

(** The order of the input does not matter when ties are equal. *)
Lemma sort_by_canonical l k : l ≡ₚ k -> (forall x y, x ∈ l -> y ∈ l -> leb x y = true -> leb y x = true -> x = y) ->
  sort_by leb l = sort_by leb k.
Proof.
  intros HP HE. apply (StronglySorted_unique_strong (fun a b => leb a b = true)).
  - intros x y Hx Hy. rewrite sort_by_perm in Hx, Hy. rewrite <- HP in Hy. apply HE; assumption.
  - apply sort_by_sorted.
  - apply sort_by_sorted.
  - rewrite !sort_by_perm. exact HP.
Qed.

End Sorting.

Lemma opt_leb_total a b : opt_leb a b = true \/ opt_leb b a = true.
Proof.
  unfold opt_leb, first_cmp, id_cmp. destruct a as [a|], b as [b|]; auto.
  destruct (bytes_ltb a b), (bytes_ltb b a); auto.
Qed.

Lemma opt_leb_Some a b : opt_leb (Some a) (Some b) = true <-> arr_le a b.
Proof.
  unfold opt_leb, first_cmp, id_cmp, arr_le. destruct (bytes_ltb b a) eqn:E; destruct (bytes_ltb a b) eqn:E'; split; try congruence.
  intros _. exfalso. rewrite bytes_ltb_be_val in E by (rewrite !arr_length; reflexivity).
  rewrite bytes_ltb_be_val in E' by (rewrite !arr_length; reflexivity). lia.
Qed.

Lemma opt_leb_tr a b c : opt_leb a b = true -> opt_leb b c = true -> opt_leb a c = true.
Proof.
  destruct a as [a|], b as [b|], c as [c|]; try (cbn; congruence). rewrite !opt_leb_Some, !arr_le_be_val. lia.
Qed.

Lemma opt_leb_anti a b : opt_leb a b = true -> opt_leb b a = true -> a = b.
Proof.
  destruct a as [a|], b as [b|]; try (cbn; congruence). rewrite !opt_leb_Some. intros H1 H2. f_equal. apply arr_le_antisym; assumption.
Qed.

(** * The state machine of a session *)

Section Machine.
Context `{Blake3}.
Context (usize_bits : Z).

(** A proposal whose commitment is that of its own inputs and outputs. *)
Definition consistent (pr : MixProposal) : Prop :=
  tx_commitment (pr_inputs pr) (pr_outputs pr) (pr_salt pr) = pr_commitment pr.

Definition includes_locals (ns : NodeMixSession) (pr : MixProposal) : Prop :=
  Forall (fun h => h ∈ map hash_for_commitment (pr_outputs pr)) (local_outputs ns).

(** One step of a session; [foreign] tells whether proposals from outside are among them. *)
Inductive moves (foreign : Prop) (ns : NodeMixSession) : NodeMixSession -> Prop :=
  | mv_register input output peer s : phase ns = Collecting ->
      session_register input output (ns_session ns) = Ok s -> moves foreign ns (added_participant input output peer s ns)
  | mv_fee input peer s : phase ns = Collecting ->
      session_set_fee input (ns_session ns) = Ok s -> moves foreign ns (added_fee input peer s ns)
  | mv_finalize pr now : phase ns = Collecting -> proposal (ns_session ns) = Ok pr ->
      moves foreign ns (with_proposal pr Signing now ns)
  | mv_sign pr i input sig height : phase ns = Signing -> ns_proposal ns = Some pr -> pr_inputs pr !! i = Some input ->
      check_signature usize_bits pr input sig height = true -> moves foreign ns (added_signature i sig ns)
  | mv_phase p now : p <> Collecting -> p <> Signing -> moves foreign ns (with_phase p now ns)
  | mv_proposal pr now : foreign -> consistent pr -> includes_locals ns pr -> moves foreign ns (with_proposal pr Signing now ns).

Inductive opened : NodeMixSession -> Prop :=
  | opened_new salt denom min s now coord : session_new salt denom min = Ok s -> opened (fresh_session s now coord).

(** What one step of the manager does to its sessions: each one in the new map stood there
    before, moved by one step or not at all, or has just been opened. *)
Definition mstep (foreign : hash32 -> Prop) (m m' : MixManager) : Prop :=
  (forall id ns', sessions m' !! id = Some ns' ->
     opened ns' \/ exists ns, sessions m !! id = Some ns /\ (ns' = ns \/ moves (foreign id) ns ns'))
  /\ (size (sessions m') <= Nat.max MAX_MIX_SESSIONS (size (sessions m)))%nat.

Lemma mstep_refl foreign m : mstep foreign m m.
Proof. split; [|lia]. intros id ns E. right. eauto. Qed.

Lemma mstep_same foreign m m' : sessions m' = sessions m -> mstep foreign m m'.
Proof. intros E. unfold mstep. rewrite E. apply mstep_refl. Qed.

(** A step of one session. *)
Lemma mstep_move (foreign : hash32 -> Prop) m id ns ns' b : sessions m !! id = Some ns -> moves (foreign id) ns ns' ->
  mstep foreign m (mkManager (<[id := ns']> (sessions m)) b).
Proof.
  intros E HM. split; cbn [sessions].
  - intros id' x. rewrite lookup_insert. case_decide as HE; [|intros; right; eauto].
    intros [= <-]. subst. right. eauto.
  - rewrite map_size_insert_Some by eauto. lia.
Qed.

Lemma mstep_open (foreign : hash32 -> Prop) m id ns b : opened ns -> (size (sessions m) < MAX_MIX_SESSIONS)%nat ->
  mstep foreign m (mkManager (<[id := ns]> (sessions m)) b).
Proof.
  intros HO HS. split; cbn [sessions].
  - intros id' x. rewrite lookup_insert. case_decide as HE; [|intros; right; eauto]. intros [= <-]. auto.
  - rewrite map_size_insert. destruct (sessions m !! id); unfold Datatypes.id; lia.
Qed.

(** Every outcome of an operation is reached by steps. *)
Abbreviation steps_only foreign f := (forall m, mstep foreign m (f m).2).

Ltac open_op := unfold mbind, st_bind, reads, get_session, put_session, require_that, modify, mret, st_ret; cbn -[size Nat.leb bool_decide].

Lemma create_session_steps foreign salt id now denom min : steps_only foreign (create_session salt id now denom min).
Proof.
  intros m. unfold create_session. open_op. destruct (Nat.leb_spec MAX_MIX_SESSIONS (size (sessions m))); [apply mstep_refl|].
  cbn -[size Nat.leb bool_decide]. destruct (session_new salt denom min) as [s|e|] eqn:E; try apply mstep_refl.
  apply mstep_open; [|assumption]. econstructor. exact E.
Qed.

Lemma create_joining_steps foreign salt id now denom peer : steps_only foreign (create_joining_session salt id now denom peer).
Proof.
  intros m. unfold create_joining_session. open_op. case_bool_decide; [apply mstep_refl|]. cbn -[size Nat.leb bool_decide].
  destruct (Nat.leb_spec MAX_MIX_SESSIONS (size (sessions m))); [apply mstep_refl|].
  cbn -[size Nat.leb bool_decide]. destruct (session_new salt denom 2) as [s|e|] eqn:E; try apply mstep_refl.
  apply mstep_open; [|assumption]. econstructor. exact E.
Qed.

Lemma check_not_banned_pure peer m : (check_not_banned peer m).2 = m.
Proof. destruct peer; reflexivity. Qed.

Lemma register_steps (foreign : hash32 -> Prop) id input output peer : steps_only foreign (register id input output peer).
Proof.
  intros m. unfold register, mbind, st_bind. pose proof (check_not_banned_pure peer m) as EB.
  destruct (check_not_banned peer m) as [[u|e|] m1]; cbn [snd] in EB; subst m1; try apply mstep_refl.
  open_op. destruct (sessions m !! id) as [ns|] eqn:E; cbn -[size Nat.leb bool_decide]; [|apply mstep_refl].
  case_bool_decide as HP; cbn -[size Nat.leb bool_decide]; [|apply mstep_refl].
  destruct (session_register input output (ns_session ns)) as [s|e|] eqn:ES; try apply mstep_refl.
  eapply mstep_move; [exact E|]. apply mv_register; assumption.
Qed.

Lemma set_fee_steps (foreign : hash32 -> Prop) id input peer : steps_only foreign (set_fee_input id input peer).
Proof.
  intros m. unfold set_fee_input, mbind, st_bind. pose proof (check_not_banned_pure peer m) as EB.
  destruct (check_not_banned peer m) as [[u|e|] m1]; cbn [snd] in EB; subst m1; try apply mstep_refl.
  open_op. destruct (sessions m !! id) as [ns|] eqn:E; cbn -[size Nat.leb bool_decide]; [|apply mstep_refl].
  case_bool_decide as HP; cbn -[size Nat.leb bool_decide]; [|apply mstep_refl].
  destruct (session_set_fee input (ns_session ns)) as [s|e|] eqn:ES; try apply mstep_refl.
  eapply mstep_move; [exact E|]. apply mv_fee; assumption.
Qed.

Lemma finalize_steps (foreign : hash32 -> Prop) id now : steps_only foreign (try_finalize id now).
Proof.
  intros m. unfold try_finalize. open_op. destruct (sessions m !! id) as [ns|] eqn:E; cbn -[size Nat.leb bool_decide]; [|apply mstep_refl].
  case_bool_decide as HP; cbn -[size Nat.leb bool_decide]; [|apply mstep_refl]. destruct (is_ready (ns_session ns)); cbn -[size Nat.leb bool_decide]; [|apply mstep_refl].
  destruct (proposal (ns_session ns)) as [p|e|] eqn:EP; try apply mstep_refl.
  eapply mstep_move; [exact E|]. apply mv_finalize; assumption.
Qed.

Lemma ban_steps foreign peer : steps_only foreign (ban peer).
Proof. intros m. apply mstep_same. destruct peer; reflexivity. Qed.

Lemma add_signature_steps (foreign : hash32 -> Prop) id i sig h peer : steps_only foreign (add_signature usize_bits id i sig h peer).
Proof.
  intros m. unfold add_signature. open_op. destruct (sessions m !! id) as [ns|] eqn:E; cbn -[size Nat.leb bool_decide]; [|apply mstep_refl].
  case_bool_decide as HP; cbn -[size Nat.leb bool_decide]; [|apply mstep_refl]. destruct (ns_proposal ns) as [pr|] eqn:EP; cbn -[size Nat.leb bool_decide]; [|apply mstep_refl].
  destruct (pr_inputs pr !! i) as [input|] eqn:EI; [|apply mstep_refl].
  destruct (check_signature usize_bits pr input sig h) eqn:EC.
  - eapply mstep_move; [exact E|]. eapply mv_sign; eassumption.
  - apply ban_steps.
Qed.

Lemma build_pure id m : (try_build_transaction id m).2 = m.
Proof.
  unfold try_build_transaction. open_op. destruct (sessions m !! id) as [ns|]; cbn -[size Nat.leb bool_decide]; [|reflexivity].
  case_bool_decide; cbn -[size Nat.leb bool_decide]; [|reflexivity]. destruct (ns_proposal ns) as [pr|]; cbn -[size Nat.leb bool_decide]; [|reflexivity].
  destruct (Nat.eqb _ _); cbn -[size seq]; [|reflexivity].
  destruct (mapM _ _); cbn -[size Nat.leb bool_decide]; [|reflexivity..]. destruct (build_reveal _ _); reflexivity.
Qed.

Lemma set_phase_steps (foreign : hash32 -> Prop) id p : p <> Collecting -> p <> Signing -> steps_only foreign (set_phase id p).
Proof.
  intros H1 H2 m. unfold set_phase, modify. cbn. destruct (sessions m !! id) as [ns|] eqn:E; [|apply mstep_refl].
  eapply mstep_move; [exact E|]. apply mv_phase; assumption.
Qed.

Lemma remote_steps (foreign : hash32 -> Prop) id inputs outputs salt c : foreign id ->
  steps_only foreign (apply_remote_proposal id inputs outputs salt c).
Proof.
  intros HF m. unfold apply_remote_proposal. open_op. destruct (sessions m !! id) as [ns|] eqn:E; cbn -[size Nat.leb bool_decide]; [|apply mstep_refl].
  case_bool_decide as HC; cbn -[size Nat.leb bool_decide]; [|apply mstep_refl].
  destruct (forallb _ (local_outputs ns)) eqn:EL; cbn -[size Nat.leb bool_decide]; [|apply mstep_refl].
  eapply mstep_move; [exact E|]. apply mv_proposal; [exact HF|exact HC|].
  apply Forall_forall. intros h Hh. rewrite forallb_forall in EL. specialize (EL h (proj1 (list_elem_of_In _ _) Hh)).
  apply bool_decide_eq_true in EL. exact EL.
Qed.

(** Steps that act on every session at once. *)
Lemma mstep_map (foreign : hash32 -> Prop) m m' :
  (forall id ns', sessions m' !! id = Some ns' -> exists ns, sessions m !! id = Some ns /\ (ns' = ns \/ moves (foreign id) ns ns')) ->
  mstep foreign m m'.
Proof.
  intros HM. split; [eauto|]. rewrite <- !size_dom. apply Nat.le_trans with (size (dom (sessions m))); [|lia].
  apply subseteq_size. intros id. rewrite !elem_of_dom. intros [ns' E]. destruct (HM _ _ E) as (ns & E' & _). eauto.
Qed.

Lemma disconnect_steps foreign peer : steps_only foreign (handle_peer_disconnect peer).
Proof.
  intros m. apply mstep_map. cbn. intros id ns'. rewrite lookup_fmap. destruct (sessions m !! id) as [ns|]; [|discriminate].
  cbn. intros [= <-]. exists ns. split; [reflexivity|]. destruct (_ && _); [right|left; reflexivity].
  apply mv_phase; discriminate.
Qed.

Lemma cleanup_steps foreign now forget : steps_only foreign (cleanup now forget).
Proof.
  intros m. apply mstep_map. cbn. intros id ns' E. apply map_lookup_filter_Some in E as [E _]. revert E.
  rewrite lookup_fmap. destruct (sessions m !! id) as [ns|]; [|discriminate].
  cbn. intros [= <-]. exists ns. split; [reflexivity|]. unfold time_out. destruct (signing_timed_out now ns); [right|left; reflexivity].
  apply mv_phase; discriminate.
Qed.

End Machine.

(** * Every event of the node moves the sessions by steps *)

Section Events.
Context `{Blake3}.
Context (usize_bits : Z) (local_peer : PeerId) (fuel : nat) (foreign : hash32 -> Prop) (m0 : MixManager).

Abbreviation reached := (rtc (mstep usize_bits foreign) m0).
Abbreviation node_reached := (fun s : NodeMix => reached (nm_mgr s)).

Lemma mix_steps_keep {A} (f : MM A) : (forall m, mstep usize_bits foreign m (f m).2) -> Keeps reached f.
Proof. intros HF m Hm. eapply rtc_r; [exact Hm|apply HF]. Qed.

#[local] Instance k_create salt id now denom min : Keeps reached (create_session salt id now denom min).
Proof. apply mix_steps_keep, create_session_steps. Qed.
#[local] Instance k_joining salt id now denom peer : Keeps reached (create_joining_session salt id now denom peer).
Proof. apply mix_steps_keep, create_joining_steps. Qed.
#[local] Instance k_register id input output peer : Keeps reached (register id input output peer).
Proof. apply mix_steps_keep, register_steps. Qed.
#[local] Instance k_set_fee id input peer : Keeps reached (set_fee_input id input peer).
Proof. apply mix_steps_keep, set_fee_steps. Qed.
#[local] Instance k_finalize id now : Keeps reached (try_finalize id now).
Proof. apply mix_steps_keep, finalize_steps. Qed.
#[local] Instance k_add_signature id i sig h peer : Keeps reached (add_signature usize_bits id i sig h peer).
Proof. apply mix_steps_keep, add_signature_steps. Qed.
#[local] Instance k_build id : Keeps reached (try_build_transaction id).
Proof. intros m Hm. rewrite build_pure. exact Hm. Qed.
#[local] Instance k_gone peer : Keeps reached (handle_peer_disconnect peer).
Proof. apply mix_steps_keep, disconnect_steps. Qed.
#[local] Instance k_cleanup now forget : Keeps reached (cleanup now forget).
Proof. apply mix_steps_keep, cleanup_steps. Qed.
#[local] Instance k_submitted id : Keeps reached (set_phase id CommitSubmitted).
Proof. apply mix_steps_keep, set_phase_steps; discriminate. Qed.
#[local] Instance k_failed id why : Keeps reached (set_phase id (Failed why)).
Proof. apply mix_steps_keep, set_phase_steps; discriminate. Qed.
#[local] Instance k_settled id (b : bool) : Keeps reached (set_phase id (if b then Complete else Failed TxFailed)).
Proof. destruct b; apply mix_steps_keep, set_phase_steps; discriminate. Qed.

#[local] Instance k_on_mgr {A} (f : MM A) : Keeps reached f -> Keeps node_reached (on_mgr f).
Proof. intros Hf s Hs. apply (Hf (nm_mgr s) Hs). Qed.
#[local] Instance k_reveals f : Keeps node_reached (set_reveals f).
Proof. intros s Hs. exact Hs. Qed.

(** The sessions whose proposals an event may replace. *)
Definition admits (e : MixEvent) : Prop := match e with EvProposal _ id _ _ _ _ => foreign id | _ => True end.

Lemma handle_steps e : admits e -> Keeps node_reached (handle_mix usize_bits local_peer fuel e).
Proof.
  intros HA. destruct e; cbn [handle_mix]; try (apply k_on_mgr).
  9: { unfold on_mix_proposal. apply keeps_bind; [|intros; apply _]. apply keeps_attempt, mix_steps_keep, remote_steps, HA. }
  all: unfold mix_create, mix_register, mix_set_fee, announce_if_ready, mix_sign, on_mix_announce, on_mix_join, on_mix_fee,
    on_mix_sign, submit_mix, check_pending_mix_reveals, session_info, mine_join, announce_if_ready; keeps_tac.
Qed.

Lemma run_steps evs : Forall admits evs -> forall s, reached (nm_mgr s) -> reached (nm_mgr (mix_run usize_bits local_peer fuel evs s)).
Proof.
  induction 1 as [|e evs He HE IH]; intros s Hs; [exact Hs|]. cbn. apply IH. apply (handle_steps e He s Hs).
Qed.

End Events.

(** * Well-formed sessions *)

Section WellFormed.
Context `{Blake3}.
Context (usize_bits : Z).

Definition reg_coin (r : MixRegistration) : hash32 := input_coin_id (reg_input r).

Record session_wf (s : MixSession) : Prop := mk_session_wf {
  sw_denom : denomination s <> 0 /\ is_pow2 (denomination s) = true;
  sw_min : (MIN_MIX_PARTICIPANTS <= min_participants s <= MAX_MIX_PARTICIPANTS)%nat;
  sw_full : (length (registrations s) <= MAX_MIX_PARTICIPANTS)%nat;
  sw_values : Forall (fun r => in_value (reg_input r) = denomination s /\ output_value (reg_output r) = denomination s
                               /\ is_burn (reg_output r) = false) (registrations s);
  sw_coins : NoDup (map reg_coin (registrations s));
  sw_fee : forall f, fee_input s = Some f -> in_value f <> 0
}.

(** The outputs that the local wallet registered. *)
Definition local_hashes (ps : list Participant) (rs : list MixRegistration) : list hash32 :=
  omap (fun p : Participant * MixRegistration =>
    match pa_peer p.1 with None => Some (hash_for_commitment (reg_output p.2)) | Some _ => None end) (zip ps rs).

Record ns_wf (ns : NodeMixSession) : Prop := mk_ns_wf {
  nw_session : session_wf (ns_session ns);
  nw_participants : map pa_coin_id (participants ns) = map reg_coin (registrations (ns_session ns));
  nw_fee : pa_coin_id <$> fee_participant ns = input_coin_id <$> fee_input (ns_session ns);
  nw_local : local_outputs ns = local_hashes (participants ns) (registrations (ns_session ns));
  nw_collecting : phase ns = Collecting -> ns_proposal ns = None /\ signatures ns = ∅;
  nw_signing : phase ns = Signing -> is_Some (ns_proposal ns);
  nw_proposal : forall pr, ns_proposal ns = Some pr -> consistent pr /\ includes_locals ns pr
}.

Lemma session_new_wf salt denom min s : session_new salt denom min = Ok s -> session_wf s.
Proof.
  unfold session_new. destruct (denom =? 0) eqn:E1; [discriminate|]. destruct (is_pow2 denom) eqn:E2; [|discriminate].
  intros [= <-]. unfold MIN_MIX_PARTICIPANTS, MAX_MIX_PARTICIPANTS. split; cbn [denomination min_participants registrations fee_input length map].
  - split; [apply Z.eqb_neq; exact E1|exact E2].
  - unfold MIN_MIX_PARTICIPANTS, MAX_MIX_PARTICIPANTS. lia.
  - lia.
  - constructor.
  - constructor.
  - discriminate.
Qed.

(** What a registration that is accepted looks like. *)
Lemma session_register_Ok input output s s' : session_register input output s = Ok s' ->
  is_burn output = false /\ (length (registrations s) < MAX_MIX_PARTICIPANTS)%nat /\ in_value input = denomination s
  /\ output_value output = denomination s /\ ~ (input_coin_id input ∈ map reg_coin (registrations s))
  /\ denomination s' = denomination s /\ min_participants s' = min_participants s /\ mx_salt s' = mx_salt s
  /\ registrations s' = registrations s ++ [mkRegistration input output] /\ fee_input s' = fee_input s.
Proof.
  unfold session_register. intros E. repeat ok_step. subst s'. cbn.
  repeat match goal with X : negb _ = false |- _ => apply negb_false_iff in X | X : (_ =? _) = true |- _ => apply Z.eqb_eq in X
    | X : Nat.leb _ _ = false |- _ => apply Nat.leb_gt in X end.
  repeat (split; [assumption || reflexivity|]). split; [|repeat (split; [reflexivity|]); reflexivity].
  intros HI. apply list_elem_of_fmap in HI as (r & HE & Hr).
  match goal with X : existsb _ _ = false |- _ => rewrite <- not_true_iff_false, existsb_exists in X; apply X end.
  exists r. split; [apply list_elem_of_In, Hr|]. apply bool_decide_eq_true. symmetry. exact HE.
Qed.

Lemma session_set_fee_Ok input s s' : session_set_fee input s = Ok s' ->
  fee_input s = None /\ in_value input <> 0 /\ recommended_fee_for_mix (length (registrations s)) <= in_value input
  /\ Forall (fun r => input_address (reg_input r) <> input_address input) (registrations s)
  /\ denomination s' = denomination s /\ min_participants s' = min_participants s /\ mx_salt s' = mx_salt s
  /\ registrations s' = registrations s /\ fee_input s' = Some input.
Proof.
  unfold session_set_fee. intros E. repeat ok_step. subst s'. cbn.
  split; [match goal with X : bool_decide (is_Some _) = false |- _ => apply bool_decide_eq_false in X; apply eq_None_not_Some, X end|].
  split; [apply Z.eqb_neq; assumption|]. split; [apply Z.ltb_ge; assumption|]. split; [|auto].
  apply Forall_forall. intros r Hr HE.
  match goal with X : existsb _ _ = false |- _ => rewrite <- not_true_iff_false, existsb_exists in X; apply X end.
  exists r. split; [apply list_elem_of_In, Hr|]. apply bool_decide_eq_true, HE.
Qed.

Lemma session_register_wf input output s s' : session_wf s -> session_register input output s = Ok s' -> session_wf s'.
Proof.
  intros [D M F V C Fe] E. destruct (session_register_Ok _ _ _ _ E) as (E1 & E2 & E3 & E4 & E5 & E6 & E7 & E8 & E9 & E10).
  split; rewrite ?E6, ?E7, ?E9, ?E10; try assumption.
  - rewrite length_app. cbn. unfold MAX_MIX_PARTICIPANTS in *. lia.
  - apply Forall_app. split; [exact V|]. constructor; [|constructor]. cbn. auto.
  - rewrite map_app. apply NoDup_app. split; [exact C|]. split; [|apply NoDup_singleton].
    intros x Hx HX. apply list_elem_of_singleton in HX as ->. apply E5, Hx.
Qed.

Lemma session_set_fee_wf input s s' : session_wf s -> session_set_fee input s = Ok s' -> session_wf s'.
Proof.
  intros [D M F V C Fe] E. destruct (session_set_fee_Ok _ _ _ E) as (E1 & E2 & E3 & E4 & E5 & E6 & E7 & E8 & E9).
  split; rewrite ?E5, ?E6, ?E8, ?E9; try assumption. intros f [= <-]. exact E2.
Qed.

(** The proposal of a session: its inputs and outputs are those registered, and the
    donor, which comes last, covers the fee. *)
Lemma proposal_Ok s pr : proposal s = Ok pr ->
  exists mix fee, pr_inputs pr = mix ++ [fee] /\ fee_input s = Some fee /\ mix ≡ₚ map reg_input (registrations s)
  /\ pr_outputs pr ≡ₚ map reg_output (registrations s) /\ consistent pr
  /\ (min_participants s <= length (registrations s))%nat
  /\ recommended_fee_for_mix (length (registrations s)) <= in_value fee.
Proof.
  unfold proposal. intros E. repeat ok_step. subst pr. eexists _, _. split; [reflexivity|].
  split; [eassumption|]. split; [apply sort_by_perm|]. split; [apply sort_by_perm|]. split; [reflexivity|].
  split; [apply Nat.ltb_ge; assumption|apply Z.ltb_ge; assumption].
Qed.

Lemma local_hashes_elem ps rs h : h ∈ local_hashes ps rs -> h ∈ map hash_for_commitment (map reg_output rs).
Proof.
  unfold local_hashes. rewrite list_elem_of_omap. intros ([p r] & Hp & E). cbn in E. destruct (pa_peer p); [discriminate|].
  injection E as <-. apply elem_of_zip_r in Hp. do 2 apply list_elem_of_fmap_2. exact Hp.
Qed.

Lemma local_hashes_snoc ps rs p r : length ps = length rs -> local_hashes (ps ++ [p]) (rs ++ [r])
  = local_hashes ps rs ++ match pa_peer p with None => [hash_for_commitment (reg_output r)] | Some _ => [] end.
Proof.
  intros HL. unfold local_hashes. rewrite zip_with_app, omap_app by exact HL. cbn. destruct (pa_peer p); reflexivity.
Qed.

Lemma opened_wf ns : opened ns -> ns_wf ns.
Proof.
  destruct 1 as [salt denom min s now coord E]. pose proof (session_new_wf _ _ _ _ E) as HW.
  unfold session_new in E. repeat ok_step. subst s. split; cbn; try reflexivity; try assumption; try discriminate. auto.
Qed.

Lemma moves_wf foreign ns ns' : moves usize_bits foreign ns ns' -> ns_wf ns -> ns_wf ns'.
Proof.
  intros HM [W1 W2 W3 W4 W5 W6 W7].
  assert (HL : length (participants ns) = length (registrations (ns_session ns)))
    by (rewrite <- (length_map pa_coin_id), W2, length_map; reflexivity).
  destruct HM as [input output peer s HP E|input peer s HP E|pr now HP E|pr i input sig height HP E1 E2 E3|p now H1 H2|pr now HF HC HI].
  - destruct (session_register_Ok _ _ _ _ E) as (E1 & E2 & E3 & E4 & E5 & E6 & E7 & E8 & E9 & E10).
    destruct (W5 HP) as [HN HS]. split; cbn [added_participant ns_session participants fee_participant ns_proposal signatures phase local_outputs].
    + eapply session_register_wf; eassumption.
    + rewrite E9, !map_app, W2. reflexivity.
    + rewrite E10. exact W3.
    + rewrite E9, local_hashes_snoc by exact HL. cbn. rewrite W4. case_bool_decide as HB; destruct peer; try congruence.
      rewrite app_nil_r. reflexivity.
    + auto.
    + rewrite HP. discriminate.
    + rewrite HN. discriminate.
  - destruct (session_set_fee_Ok _ _ _ E) as (E1 & E2 & E3 & E4 & E5 & E6 & E7 & E8 & E9).
    destruct (W5 HP) as [HN HS]. split; cbn [added_fee ns_session participants fee_participant ns_proposal signatures phase local_outputs];
      rewrite ?E8, ?E9; try assumption.
    + eapply session_set_fee_wf; eassumption.
    + reflexivity.
  - split; cbn; try assumption; try discriminate; [eauto|]. intros pr' [= <-].
    destruct (proposal_Ok _ _ E) as (mix & fee & _ & _ & _ & HO & HC & _). split; [exact HC|].
    apply Forall_forall. intros h Hh. cbn in Hh. rewrite W4 in Hh. apply local_hashes_elem in Hh. rewrite HO. exact Hh.
  - split; cbn; try assumption. intros HX. congruence.
  - split; cbn; try assumption; congruence.
  - split; cbn; try assumption; try discriminate; [eauto|]. intros pr' [= <-]. auto.
Qed.

(** The manager's sessions are well formed and there are at most sixteen. *)
Definition manager_ok (m : MixManager) : Prop :=
  map_Forall (fun _ ns => ns_wf ns) (sessions m) /\ (size (sessions m) <= MAX_MIX_SESSIONS)%nat.

Lemma mstep_ok foreign m m' : mstep usize_bits foreign m m' -> manager_ok m -> manager_ok m'.
Proof.
  intros [HM HS] [HW HL]. split; [|lia]. intros id ns' E. destruct (HM _ _ E) as [HO|(ns & E' & HX)]; [apply opened_wf, HO|].
  specialize (HW _ _ E'). destruct HX as [-> |HX]; [exact HW|]. eapply moves_wf; eassumption.
Qed.

Lemma manager_new_ok : manager_ok manager_new.
Proof. split; [apply map_Forall_empty|]. unfold manager_new. cbn [sessions]. rewrite map_size_empty. lia. Qed.

Lemma run_ok local_peer fuel evs : manager_ok (nm_mgr (mix_run usize_bits local_peer fuel evs node_mix_new)).
Proof.
  assert (HR : rtc (mstep usize_bits (fun _ => True)) manager_new (nm_mgr (mix_run usize_bits local_peer fuel evs node_mix_new))).
  { apply run_steps; [|apply rtc_refl]. apply Forall_forall. intros [] _; exact I. }
  pose proof manager_new_ok as HW. induction HR as [|m1 m2 m3 HS HR IH]; [exact HW|]. apply IH. eapply mstep_ok; eassumption.
Qed.

End WellFormed.

(** * A session that no foreign proposal reaches *)

Section Honest.
Context `{Blake3}.
Context (usize_bits : Z).

(** The proposal is the session's own and every signature was checked against it. *)
Definition honest (ns : NodeMixSession) : Prop :=
  ns_wf ns
  /\ (forall pr, ns_proposal ns = Some pr -> proposal (ns_session ns) = Ok pr)
  /\ (forall i sig, signatures ns !! i = Some sig -> exists pr input height, ns_proposal ns = Some pr
        /\ pr_inputs pr !! i = Some input /\ check_signature usize_bits pr input sig height = true).

Lemma moves_honest foreign ns ns' : moves usize_bits foreign ns ns' -> ~ foreign -> honest ns -> honest ns'.
Proof.
  intros HM HF (W & HP & HS). split; [eapply moves_wf; eassumption|].
  destruct HM as [input output peer s HC E|input peer s HC E|pr now HC E|pr i input sig height HC E1 E2 E3|p now H1 H2|pr now HX _ _];
    try (destruct (nw_collecting _ W HC) as [HN HE]).
  - split; cbn; [rewrite HN; discriminate|exact HS].
  - split; cbn; [rewrite HN; discriminate|exact HS].
  - split; cbn; [congruence|]. rewrite HE. intros i sig. rewrite lookup_empty. discriminate.
  - split; cbn; [exact HP|]. intros j sig'. rewrite lookup_insert. case_decide as HJ; [|apply HS].
    intros [= <-]. subst j. eauto 8.
  - split; assumption.
  - destruct (HF HX).
Qed.

Lemma opened_honest ns : opened ns -> honest ns.
Proof.
  intros HO. split; [apply opened_wf, HO|]. destruct HO. split; cbn; [discriminate|]. intros i sig. rewrite lookup_empty. discriminate.
Qed.

(** No proposal for [id] arrives from outside. *)
Definition undisturbed (id : hash32) (evs : list MixEvent) : Prop :=
  Forall (fun e => match e with EvProposal _ id' _ _ _ _ => id' <> id | _ => True end) evs.

Lemma run_honest local_peer fuel id evs ns : undisturbed id evs ->
  sessions (nm_mgr (mix_run usize_bits local_peer fuel evs node_mix_new)) !! id = Some ns -> honest ns.
Proof.
  intros HU. assert (HR : rtc (mstep usize_bits (fun id' => id' <> id)) manager_new
    (nm_mgr (mix_run usize_bits local_peer fuel evs node_mix_new))) by (apply run_steps; [exact HU|apply rtc_refl]).
  assert (H0 : forall ns, sessions manager_new !! id = Some ns -> honest ns) by (intros x; cbn; rewrite lookup_empty; discriminate).
  revert H0 ns. induction HR as [m|m1 m2 m3 [HS _] HR IH]; intros H0; [exact H0|]. apply IH.
  intros ns E. destruct (HS _ _ E) as [HO|(x & E' & HX)]; [apply opened_honest, HO|]. specialize (H0 _ E').
  destruct HX as [-> |HX]; [exact H0|]. eapply moves_honest; [exact HX| |exact H0]. intros HN. apply HN. reflexivity.
Qed.

End Honest.

(** * A proposal pays those who sign it *)

Section Pays.
Context `{Blake3}.
Context (usize_bits : Z) (local_peer : PeerId) (fuel : nat).

(** The outputs the local wallet has registered in a session. *)
Definition own_outputs (ns : NodeMixSession) : list OutputData :=
  omap (fun p : Participant * MixRegistration => match pa_peer p.1 with None => Some (reg_output p.2) | Some _ => None end)
    (zip (participants ns) (registrations (ns_session ns))).

Lemma own_outputs_local ns : ns_wf ns -> local_outputs ns = map hash_for_commitment (own_outputs ns).
Proof.
  intros W. rewrite (nw_local _ W). unfold local_hashes, own_outputs.
  generalize (zip (participants ns) (registrations (ns_session ns))). induction l as [|[p r] l IH]; cbn; [reflexivity|].
  destruct (pa_peer p); cbn; [exact IH|]. rewrite IH. reflexivity.
Qed.

(** C26: whatever a node's peers send it, in whatever order, it holds at most sixteen mix
    sessions and each of them is well formed, and a signature given to a proposal pays
    the signer: every transaction with the commitment of a session's proposal has, for
    each output the local wallet registered there, an output with the same commitment
    hash; the hashes are those of the proposal, in its order. *)
Theorem mix_signature_pays_local evs id ns pr inputs outputs salt :
  let m := nm_mgr (mix_run usize_bits local_peer fuel evs node_mix_new) in
  sessions m !! id = Some ns -> ns_proposal ns = Some pr ->
  tx_commitment inputs outputs salt = pr_commitment pr ->
  len (pr_inputs pr) < 2 ^ 32 -> len (pr_outputs pr) < 2 ^ 32 -> len inputs < 2 ^ 32 -> len outputs < 2 ^ 32 ->
  collision_free (fun x => x ∈
    [commitment_preimage (map input_coin_id inputs) (map hash_for_commitment outputs) salt;
     commitment_preimage (map input_coin_id (pr_inputs pr)) (map hash_for_commitment (pr_outputs pr)) (pr_salt pr)]) ->
  ns_wf ns /\ (size (sessions m) <= MAX_MIX_SESSIONS)%nat
  /\ map hash_for_commitment outputs = map hash_for_commitment (pr_outputs pr)
  /\ map input_coin_id inputs = map input_coin_id (pr_inputs pr)
  /\ forall o, o ∈ own_outputs ns -> exists o', o' ∈ outputs /\ hash_for_commitment o' = hash_for_commitment o.
Proof.
  intros m EN EP EC L1 L2 L3 L4 CF. destruct (run_ok usize_bits local_peer fuel evs) as [HW HS].
  specialize (HW _ _ EN). split; [exact HW|]. split; [exact HS|]. destruct (nw_proposal _ HW _ EP) as [HC HI].
  rewrite <- HC in EC. unfold tx_commitment, compute_commitment in EC. apply CF in EC; [|set_solver..].
  apply commitment_preimage_inj in EC as (E1 & E2 & _); [|rewrite length_map; assumption..].
  split; [exact E2|]. split; [exact E1|]. intros o Ho. unfold includes_locals in HI.
  rewrite (own_outputs_local _ HW), Forall_forall in HI. specialize (HI _ (list_elem_of_fmap_2 _ _ _ Ho)).
  rewrite <- E2 in HI. apply list_elem_of_fmap in HI as (o' & E & Ho'). eauto.
Qed.

End Pays.

(** * Proposals are canonical *)

Section Canonical.
Context `{Blake3}.

Definition output_preimage (o : OutputData) : bytes :=
  match o with
  | Standard address value salt => address ++ le_bytes 8 value ++ salt
  | Confidential address commitment salt => confidential_preimage address commitment salt
  | DataBurn _ _ => []
  end.

(** The outputs of a mix are told apart by their coin ids. *)
Lemma mix_outputs_inj s o o' : session_wf s -> o ∈ map reg_output (registrations s) -> o' ∈ map reg_output (registrations s) ->
  collision_free (fun x => x ∈ map output_preimage (map reg_output (registrations s))) ->
  output_coin_id o = output_coin_id o' -> o = o'.
Proof.
  intros W Ho Ho' CF E. pose proof (sw_values _ W) as HV. rewrite Forall_forall in HV.
  assert (HX : forall x, x ∈ map reg_output (registrations s) -> exists a t, x = Standard a (denomination s) t).
  { intros x Hx. apply list_elem_of_fmap in Hx as (r & -> & Hr). destruct (HV r Hr) as (_ & E1 & E2). destruct (sw_denom _ W) as [D _].
    destruct (reg_output r) as [a v t|a c t|p v]; cbn in *; [subst; eauto|congruence|discriminate]. }
  destruct (HX o Ho) as (a & t & ->), (HX o' Ho') as (a' & t' & ->). cbn in E. injection E as E. apply CF in E.
  - apply app_inj_1 in E as [E1 E2]; [|rewrite !arr_length; reflexivity]. apply app_inv_head in E2.
    apply arr_eq in E1, E2. subst. reflexivity.
  - apply (list_elem_of_fmap_2 output_preimage) in Ho. exact Ho.
  - apply (list_elem_of_fmap_2 output_preimage) in Ho'. exact Ho'.
Qed.

(** The proposal of a mix does not depend on the order in which the participants
    registered: two sessions with the same registrations, donor and salt make the same
    proposal, or fail alike, so that whoever knows the registrations can check the
    proposal that is signed. *)
Lemma proposal_canonical s s' : session_wf s -> registrations s' ≡ₚ registrations s -> mx_salt s' = mx_salt s ->
  min_participants s' = min_participants s -> fee_input s' = fee_input s ->
  collision_free (fun x => x ∈ map output_preimage (map reg_output (registrations s))) ->
  proposal s' = proposal s.
Proof.
  intros W HP ES EM EF CF. unfold proposal. rewrite ES, EM, EF, (Permutation_length HP).
  assert (EI : sort_by (fun a b => opt_leb (Some (input_coin_id a)) (Some (input_coin_id b))) (map reg_input (registrations s'))
             = sort_by (fun a b => opt_leb (Some (input_coin_id a)) (Some (input_coin_id b))) (map reg_input (registrations s))).
  { apply sort_by_canonical.
    - intros x y. apply opt_leb_total.
    - intros x y z. apply opt_leb_tr.
    - apply Permutation_map, HP.
    - intros x y Hx Hy H1 H2. pose proof (opt_leb_anti _ _ H1 H2) as E. injection E as E. rewrite HP in Hx, Hy.
      apply list_elem_of_fmap in Hx as (r & -> & Hr), Hy as (r' & -> & Hr').
      f_equal. apply (NoDup_map_inj reg_coin (registrations s)); [apply W|assumption..]. }
  assert (EO : sort_by (fun a b => opt_leb (output_coin_id a) (output_coin_id b)) (map reg_output (registrations s'))
             = sort_by (fun a b => opt_leb (output_coin_id a) (output_coin_id b)) (map reg_output (registrations s))).
  { apply sort_by_canonical.
    - intros x y. apply opt_leb_total.
    - intros x y z. apply opt_leb_tr.
    - apply Permutation_map, HP.
    - intros x y Hx Hy H1 H2. rewrite HP in Hx, Hy. apply (mix_outputs_inj s); try assumption.
      apply opt_leb_anti; assumption. }
  rewrite EI, EO. reflexivity.
Qed.

End Canonical.

(** * A concrete mix *)

Definition demo_id : hash32 := arr_of 32 [x09].

(** Thirty-two times the same byte: under [tail_blake3] its own hash, hence a one-time
    key that the signature of as many chains of it opens. *)
Definition demo_input (b : byte) (value : Z) : InputReveal := mkInputReveal (p2pk (same b)) value (same b) None.
Definition demo_output (b : byte) : OutputData := Standard (same b) 8 (same b).

(** A session for 8 with two participants and a donor of 32. *)
Definition demo_mix : list MixEvent :=
  [EvCreate (same x01) demo_id 0 8 2; EvRegister demo_id (demo_input x03 8) (demo_output x04);
   EvRegister demo_id (demo_input x02 8) (demo_output x05); EvSetFee demo_id (demo_input x06 32); EvCheckReady demo_id 5].

Definition demo_run : MixManager := nm_mgr (@mix_run tail_blake3 64 [] 0 demo_mix node_mix_new).

Definition demo_proposal : MixProposal := mkProposal [demo_input x02 8; demo_input x03 8; demo_input x06 32]
  [demo_output x04; demo_output x05] (same x01)
  (@tx_commitment tail_blake3 [demo_input x02 8; demo_input x03 8; demo_input x06 32] [demo_output x04; demo_output x05] (same x01)).

Lemma demo_signing : exists ns, sessions demo_run !! demo_id = Some ns /\ phase ns = Signing /\ ns_proposal ns = Some demo_proposal.
Proof. eexists. split; [vm_compute; reflexivity|]. split; reflexivity. Qed.

Lemma mix_signature_pays_local_witness :
  let H := tail_blake3 in
  exists ns, sessions demo_run !! demo_id = Some ns
  /\ forall o, o ∈ own_outputs ns -> exists o', o' ∈ pr_outputs demo_proposal /\ @hash_for_commitment H o' = @hash_for_commitment H o.
Proof.
  intros H. destruct demo_signing as (ns & E1 & E2 & E3). exists ns. split; [exact E1|].
  eapply (@mix_signature_pays_local H 64 [] 0 demo_mix demo_id ns demo_proposal (pr_inputs demo_proposal) (pr_outputs demo_proposal) (pr_salt demo_proposal)).
  - exact E1.
  - exact E3.
  - reflexivity.
  - reflexivity.
  - reflexivity.
  - reflexivity.
  - reflexivity.
  - intros x y Hx Hy _. apply elem_of_cons in Hx, Hy. repeat rewrite list_elem_of_singleton in Hx, Hy. destruct Hx as [->| ->], Hy as [->| ->]; reflexivity.
Defined.

Definition demo_session (l : list MixRegistration) : MixSession := mkSession 8 2 (same x01) l (Some (demo_input x06 32)).
Definition demo_regs : list MixRegistration :=
  [mkRegistration (demo_input x03 8) (demo_output x04); mkRegistration (demo_input x02 8) (demo_output x05)].

Lemma proposal_canonical_witness :
  let H := tail_blake3 in
  proposal (demo_session (rev demo_regs)) = proposal (demo_session demo_regs) /\ is_ok (proposal (demo_session demo_regs)) = true.
Proof.
  intros H. split; [|reflexivity]. apply (@proposal_canonical H).
  - split; cbn [demo_session registrations fee_input denomination min_participants].
    + split; [discriminate|reflexivity].
    + split; apply Nat.leb_le; reflexivity.
    + apply Nat.leb_le. reflexivity.
    + repeat (apply Forall_cons_2; [repeat split|]). apply Forall_nil_2.
    + eapply bool_decide_eq_true_1. lazy. reflexivity.
    + intros f [= <-]. discriminate.
  - apply Permutation_sym, Permutation_rev.
  - reflexivity.
  - reflexivity.
  - reflexivity.
  - apply cf_check_sound. lazy. reflexivity.
Defined.
