(* ===== verification/MixDone.v ===== *)
(** A mix to the end: a session that no foreign proposal reaches ends, once its inputs
    are signed, in a valid and uniform reveal; and the limits of the design. *)
From S2P Require Import Prelude Bytecode Types Wots Mss Script Templates Smt Transaction Mempool Wallet WalletSelect WalletSpend Mix MixSafe.

#[local] Open Scope Z_scope.

(** * Fees *)

Lemma estimated_size n : (n <= MAX_MIX_PARTICIPANTS)%nat ->
  estimated_mix_reveal_size n = 960 + 864 * Z.of_nat n.
Proof.
  intros Hn. unfold estimated_mix_reveal_size, MAX_MIX_PARTICIPANTS in *. rewrite wrap_id; lia.
Qed.

(** The donor's fee carries a reveal up to the estimated size into the mempool. *)
Lemma recommended_fee_admits n : (n <= MAX_MIX_PARTICIPANTS)%nat ->
  MIN_FEE_PER_KB * estimated_mix_reveal_size n <= recommended_fee_for_mix n * FEE_RATE_SCALE /\ 0 < recommended_fee_for_mix n.
Proof.
  intros Hn. unfold recommended_fee_for_mix. rewrite estimated_size by exact Hn. unfold MAX_MIX_PARTICIPANTS, MIN_FEE_PER_KB, FEE_RATE_SCALE in *.
  rewrite (proj2 (Z.eqb_neq _ _)) by lia. cbv zeta.
  set (x := 960 + 864 * Z.of_nat n) in *.
  assert (HX : 960 <= x <= 14784) by (unfold x; lia).
  assert (HD : 0 <= (x * 10 + 1024 - 1) / 1024 < 1024) by (Z.to_euclidean_division_equations; lia).
  rewrite wrap_id by lia. Z.to_euclidean_division_equations; lia.
Qed.

Section Completes.
Context `{HB : Blake3}.
Context (fast_mining : bool) (usize_bits : Z) (local_peer : PeerId) (fuel : nat).
Context (witnesses_size : list Witness -> option Z).
Context {A : Type} `{!SetAccumulator A} `{!SetAccumulatorLaws A}.

Abbreviation fits sig := (length sig <= MAX_ITEM_SIZE)%nat.

(** A signature that opens a one-key lock. *)
Definition opens (m : hash32) (input : InputReveal) (sig : bytes) : Prop :=
  exists pk, in_predicate input = p2pk pk /\ fits sig /\ sig_ok sig m pk = true.

Lemma opens_checks pr input sig h : opens (pr_commitment pr) input sig -> check_signature usize_bits pr input sig h = true.
Proof.
  intros (pk & E & HL & HS). unfold check_signature. rewrite E. unfold p2pk. rewrite (proj2 (p2pk_spec usize_bits pk [sig] _)); [reflexivity|].
  exists sig. auto.
Qed.

Lemma checks_opens pr input sig h pk : in_predicate input = p2pk pk -> check_signature usize_bits pr input sig h = true ->
  opens (pr_commitment pr) input sig.
Proof.
  intros E HC. unfold check_signature in HC. rewrite E in HC. unfold p2pk in HC.
  destruct (execute_script usize_bits (compile_p2pk pk) [sig] _) as [[]|e|] eqn:EX; try discriminate.
  apply p2pk_spec in EX as (sig' & [= <-] & HL & HS). exists pk. auto.
Qed.

Lemma opens_verifies m h outs input sig : opens m input sig -> verify_input usize_bits input (ScriptInputs [sig]) m h outs = true.
Proof.
  intros (pk & E & HL & HS). unfold verify_input, verify_predicate. rewrite E. unfold p2pk.
  rewrite (proj2 (p2pk_spec usize_bits pk [sig] _)); [reflexivity|]. exists sig. auto.
Qed.

(** The encoding of at most seventeen one-signature witnesses stays in its limit. *)
Definition mix_witnesses_fit : Prop := forall sigs, (length sigs <= MAX_MIX_PARTICIPANTS + 1)%nat ->
  Forall (fun sig => fits sig) sigs ->
  default (umax 64) (witnesses_size (map (fun sig => ScriptInputs [sig]) sigs)) <= MAX_SIGNATURE_SIZE * MAX_TX_INPUTS.

(** ** Collecting signatures *)

(** A well-behaved session, waiting for signatures of [pr]. *)
Definition signing (pr : MixProposal) (s : MixSession) (id : hash32) (m : MixManager) (ns : NodeMixSession) : Prop :=
  sessions m !! id = Some ns /\ honest usize_bits ns /\ phase ns = Signing /\ ns_proposal ns = Some pr /\ ns_session ns = s.

Lemma add_signature_accepts pr s id m ns i input sig h peer : signing pr s id m ns -> pr_inputs pr !! i = Some input ->
  opens (pr_commitment pr) input sig ->
  add_signature usize_bits id i sig h peer m = (Ok (), mkManager (<[id := added_signature i sig ns]> (sessions m)) (banned_peers m)).
Proof.
  intros (E & _ & HP & EP & _) EI HO. unfold add_signature, mbind, st_bind, reads, get_session, require_that.
  cbn -[bool_decide]. rewrite E. cbn -[bool_decide]. rewrite HP, bool_decide_true by reflexivity. cbn -[bool_decide].
  rewrite EP. cbn -[bool_decide]. rewrite EI, (opens_checks _ _ _ _ HO). reflexivity.
Qed.

Lemma signing_added pr s id m ns i input sig h : signing pr s id m ns -> pr_inputs pr !! i = Some input ->
  check_signature usize_bits pr input sig h = true ->
  signing pr s id (mkManager (<[id := added_signature i sig ns]> (sessions m)) (banned_peers m)) (added_signature i sig ns).
Proof.
  intros (E & HH & HP & EP & ES) EI HC. split; [apply lookup_insert_eq|]. split; [|auto].
  apply (moves_honest usize_bits False ns); [|tauto|exact HH]. eapply mv_sign; eassumption.
Qed.

Definition sign_each (id : hash32) (h : Z) (l : list (nat * bytes)) : MM () :=
  st_each (fun p => add_signature usize_bits id p.1 p.2 h None) l.

Lemma sign_each_ends pr s id h l : Forall (fun p => exists input, pr_inputs pr !! p.1 = Some input /\ opens (pr_commitment pr) input p.2) l ->
  forall m ns, signing pr s id m ns -> exists m' ns', sign_each id h l m = (Ok (), m') /\ signing pr s id m' ns'
    /\ dom (signatures ns') = list_to_set (map fst l) ∪ dom (signatures ns).
Proof.
  unfold sign_each. induction 1 as [|[i sig] l (input & EI & HO) HF IH]; intros m ns HS.
  - exists m, ns. split; [reflexivity|]. split; [exact HS|]. symmetry. apply union_empty_l_L.
  - cbn [fst snd] in EI, HO.
    destruct (IH _ _ (signing_added _ _ _ _ _ _ _ sig h HS EI (opens_checks _ _ _ _ HO))) as (m' & ns' & E & HS' & ED).
    exists m', ns'. split; [|split; [exact HS'|]].
    + cbn [st_each fst snd]. unfold mbind, st_bind. rewrite (add_signature_accepts _ _ _ _ _ _ _ _ _ _ HS EI HO). exact E.
    + rewrite ED. cbn [added_signature signatures map fst]. rewrite dom_insert_L. cbn. rewrite (assoc_L union), (comm_L union {[i]}). reflexivity.
Qed.

(** ** The reveal that is built *)

Lemma mapM_lookup (sigs : gmap nat bytes) n k : (forall i, (k <= i < k + n)%nat -> is_Some (sigs !! i)) ->
  exists l, mapM (fun i => ok_or MissingSignature (sigs !! i)) (seq k n) = Ok l /\ length l = n
  /\ forall i sig, l !! i = Some sig -> sigs !! (k + i)%nat = Some sig.
Proof.
  revert k. induction n as [|n IH]; intros k HS; cbn [seq mapM].
  - exists []. split; [reflexivity|]. split; [reflexivity|]. intros i sig. discriminate.
  - destruct (HS k ltac:(lia)) as [x Ex]. destruct (IH (S k)) as (l & E & HL & HI); [intros i Hi; apply HS; lia|].
    exists (x :: l). rewrite Ex. cbn [ok_or mbind res_bind]. rewrite E. split; [reflexivity|]. split; [cbn; congruence|].
    intros [|i] sig; cbn; [intros [= <-]; rewrite Nat.add_0_r; exact Ex|]. intros Hs. rewrite <- (HI _ _ Hs). f_equal. lia.
Qed.

Lemma honest_complete ns pr : honest usize_bits ns -> ns_proposal ns = Some pr ->
  size (signatures ns) = length (pr_inputs pr) -> forall i, (i < length (pr_inputs pr))%nat -> is_Some (signatures ns !! i).
Proof.
  intros (_ & _ & HS) EP EL i Hi. rewrite <- elem_of_dom.
  assert (HD : dom (signatures ns) = set_seq 0 (length (pr_inputs pr))).
  { apply set_eq. apply set_subseteq_size_equiv.
    - intros j Hj. apply elem_of_dom in Hj as [sig E]. destruct (HS _ _ E) as (pr' & input & h & E1 & E2 & _).
      rewrite EP in E1. injection E1 as <-. apply elem_of_set_seq. apply lookup_lt_Some in E2. lia.
    - rewrite size_set_seq, size_dom. lia. }
  rewrite HD. apply elem_of_set_seq. lia.
Qed.

Lemma build_ends pr s id m ns : signing pr s id m ns -> size (signatures ns) = length (pr_inputs pr) ->
  exists sigs, try_build_transaction id m = (Ok (Some (Reveal (pr_inputs pr) (map (fun sig => ScriptInputs [sig]) sigs) (pr_outputs pr) (pr_salt pr))), m)
  /\ length sigs = length (pr_inputs pr)
  /\ forall i input sig, pr_inputs pr !! i = Some input -> sigs !! i = Some sig -> exists h, check_signature usize_bits pr input sig h = true.
Proof.
  intros (E & HH & HP & EP & ES) EL. pose proof (honest_complete _ _ HH EP EL) as HC.
  destruct (mapM_lookup (signatures ns) (length (pr_inputs pr)) 0) as (l & EM & HL & HI); [intros i Hi; apply HC; lia|].
  exists l. split; [|split; [exact HL|]].
  - unfold try_build_transaction, mbind, st_bind, reads, get_session. cbn -[bool_decide seq size]. rewrite E. cbn -[bool_decide seq size].
    rewrite HP, bool_decide_true by reflexivity. cbn -[bool_decide seq size]. rewrite EP. cbn -[bool_decide seq size].
    rewrite EL, Nat.eqb_refl. cbn [negb]. unfold mbind, st_bind. rewrite EM. unfold build_reveal.
    destruct HH as (_ & HPr & _). rewrite (HPr _ EP). cbn [mbind res_bind]. rewrite HL, Nat.eqb_refl. reflexivity.
  - intros i input sig EI Es. specialize (HI _ _ Es). destruct HH as (_ & _ & HS). destruct (HS _ _ HI) as (pr' & input' & h & E1 & E2 & E3).
    rewrite EP in E1. injection E1 as <-. cbn in E2. rewrite EI in E2. injection E2 as <-. eauto.
Qed.

(** ** The reveal is valid and uniform *)

(** What the session's proposal amounts to. *)
Record mix_shape (s : MixSession) (pr : MixProposal) (donor : InputReveal) : Prop := mk_mix_shape {
  ms_inputs : exists mix, pr_inputs pr = mix ++ [donor] /\ Forall (fun i => in_value i = denomination s) mix
                          /\ length mix = length (registrations s);
  ms_outputs : Forall (fun o => output_value o = denomination s /\ is_burn o = false) (pr_outputs pr);
  ms_count : length (pr_outputs pr) = length (registrations s)
             /\ (MIN_MIX_PARTICIPANTS <= length (registrations s) <= MAX_MIX_PARTICIPANTS)%nat;
  ms_denom : 0 < denomination s /\ is_pow2 (denomination s) = true;
  ms_fee : recommended_fee_for_mix (length (registrations s)) <= in_value donor
}.

Lemma proposal_shape s pr : session_wf s -> proposal s = Ok pr -> exists donor, fee_input s = Some donor /\ consistent pr /\ mix_shape s pr donor.
Proof.
  intros W E. destruct (proposal_Ok _ _ E) as (mix & donor & EI & EF & HM & HO & HC & HL & HR). exists donor.
  split; [exact EF|]. split; [exact HC|]. pose proof (sw_values _ W) as HV. rewrite Forall_forall in HV.
  assert (HI : forall i, i ∈ mix -> in_value i = denomination s).
  { intros i Hi. rewrite HM in Hi. apply list_elem_of_fmap in Hi as (r & -> & Hr). apply (HV r Hr). }
  pose proof (sw_min _ W). pose proof (sw_full _ W). destruct (sw_denom _ W) as [D1 D2].
  split.
  - exists mix. split; [exact EI|]. split; [apply Forall_forall; exact HI|]. rewrite HM, length_map. reflexivity.
  - apply Forall_forall. intros o Hx. rewrite HO in Hx. apply list_elem_of_fmap in Hx as (r & -> & Hr). split; apply (HV r Hr).
  - split; [rewrite HO, length_map; reflexivity|lia].
  - split; [|exact D2]. unfold is_pow2 in D2. apply andb_true_iff in D2 as [D2 _]. apply Z.ltb_lt, D2.
  - exact HR.
Qed.

Lemma sumZ_all {B} (f : B -> Z) l v : Forall (fun x => f x = v) l -> sumZ (map f l) = v * Z.of_nat (length l).
Proof. induction 1 as [|x l Hx HF IH]; cbn; [lia|]. rewrite Hx. unfold sumZ in IH. rewrite IH. lia. Qed.

Section Shape.
Context (s : MixSession) (pr : MixProposal) (donor : InputReveal) (HS : mix_shape s pr donor).

Lemma shape_sums : sumZ (map output_value (pr_outputs pr)) = denomination s * Z.of_nat (length (registrations s))
  /\ sumZ (map in_value (pr_inputs pr)) = sumZ (map output_value (pr_outputs pr)) + in_value donor
  /\ length (pr_inputs pr) = (length (pr_outputs pr) + 1)%nat.
Proof.
  destruct HS as [(mix & EI & HM & HL) HO [HC _] _ _].
  assert (E1 : sumZ (map output_value (pr_outputs pr)) = denomination s * Z.of_nat (length (registrations s))).
  { rewrite <- HC. apply sumZ_all. eapply Forall_impl; [exact HO|]. intros o Ho. apply Ho. }
  split; [exact E1|]. rewrite E1, EI, map_app, sumZ_app, (sumZ_all in_value mix _ HM), HL, length_app, HL, HC. cbn. split; lia.
Qed.

Lemma donor_pays : 0 < recommended_fee_for_mix (length (registrations s)) <= in_value donor.
Proof. destruct HS as [_ _ [_ HN] _ HF]. pose proof (recommended_fee_admits (length (registrations s)) ltac:(lia)). lia. Qed.

Lemma shape_uniform ws : sumZ (map in_value (pr_inputs pr)) <= umax 64 ->
  is_uniform_mix (Reveal (pr_inputs pr) ws (pr_outputs pr) (pr_salt pr)) = true.
Proof.
  intros HU. destruct shape_sums as (E1 & E2 & E3). pose proof donor_pays as HD.
  destruct HS as [(mix & EI & HM & HL) HO [HC HN] [D1 D2] HF].
  assert (HOV : forall o, o ∈ pr_outputs pr -> output_value o = denomination s) by (intros o Ho; rewrite Forall_forall in HO; apply (HO o Ho)).
  assert (HK : forallb (fun o => output_value o =? denomination s) (pr_outputs pr) = true).
  { apply forallb_forall. intros o Ho. apply Z.eqb_eq, HOV, list_elem_of_In, Ho. }
  assert (HFi : (length (pr_outputs pr) <= length (List.filter (fun i => (in_value i =? denomination s)%Z) (pr_inputs pr)))%nat).
  { rewrite EI, List.filter_app, length_app, HC, <- HL. clear -HM. induction HM as [|i l Hi HM IH]; cbn; [lia|].
    rewrite Hi, Z.eqb_refl. cbn in *. lia. }
  assert (HP : 0 <= denomination s * Z.of_nat (length (registrations s))) by nia.
  unfold is_uniform_mix. destruct (pr_outputs pr) as [|first rest] eqn:EO; [cbn in HC; unfold MIN_MIX_PARTICIPANTS in HN; lia|].
  rewrite (HOV first ltac:(left)). cbv zeta. rewrite HK, D2, (proj2 (Z.eqb_neq _ _)) by lia.
  rewrite E3, Nat.eqb_refl, (proj2 (Nat.leb_le _ _) HFi), (proj2 (Nat.leb_le MIN_MIX_PARTICIPANTS _)) by (rewrite HC; lia).
  cbn [negb orb andb]. apply Z.leb_le. unfold wrap_sum. unfold umax in HU.
  rewrite !wrap_id by lia. unfold sat_sub. rewrite HC. lia.
Qed.

Lemma shape_valid sigs (st : State A) : sumZ (map in_value (pr_inputs pr)) <= umax 64 -> consistent pr -> length sigs = length (pr_inputs pr) ->
  (forall i input sig, pr_inputs pr !! i = Some input -> sigs !! i = Some sig -> opens (pr_commitment pr) input sig) ->
  mix_witnesses_fit -> NoDup (map input_coin_id (pr_inputs pr)) -> Forall (fun i => in_commitment i = None) (pr_inputs pr) ->
  check_commitment (pr_commitment pr) st = Ok () -> Forall (fun i => input_coin_id i ∈ sa_set (st_coins st)) (pr_inputs pr) ->
  let tx := Reveal (pr_inputs pr) (map (fun sig => ScriptInputs [sig]) sigs) (pr_outputs pr) (pr_salt pr) in
  validate_transaction fast_mining usize_bits witnesses_size st tx = Ok () /\ fee tx = in_value donor.
Proof.
  intros HU HC HL HO HW HN HI HK HCo. destruct shape_sums as (E1 & E2 & E3). pose proof donor_pays as HD.
  destruct HS as [(mix & EI & HM & HLm) HOu [HCn HNn] [D1 D2] HF].
  assert (HP : 0 <= denomination s * Z.of_nat (length (registrations s))) by nia.
  replace (in_value donor) with (sumZ (map in_value (pr_inputs pr)) - sumZ (map output_value (pr_outputs pr))) by lia.
  unfold consistent in HC. unfold MIN_MIX_PARTICIPANTS, MAX_MIX_PARTICIPANTS in *.
  apply (reveal_valid_intro fast_mining usize_bits witnesses_size); rewrite ?HC; try assumption.
  - intros E. rewrite E in E3. cbn in E3. lia.
  - intros E. rewrite E in HCn. cbn in HCn. lia.
  - unfold len, MAX_TX_INPUTS. lia.
  - unfold len, MAX_TX_OUTPUTS. lia.
  - rewrite length_map. exact HL.
  - apply HW; [unfold MAX_MIX_PARTICIPANTS; lia|]. apply Forall_lookup. intros i sig Es.
    destruct (lookup_lt_is_Some_2 (pr_inputs pr) i) as [input Ei]; [rewrite <- HL; eapply lookup_lt_Some; exact Es|].
    destruct (HO i input sig Ei Es) as (pk & _ & HF' & _). exact HF'.
  - eapply Forall_impl; [exact HI|]. intros i Hi. left. exact Hi.
  - eapply Forall_impl; [exact HOu|]. intros o [HV HB']. rewrite HV. split; [|lia]. unfold check_output. rewrite HV, (proj2 (Z.eqb_neq _ _)) by lia.
    rewrite D2. cbn. destruct o; [reflexivity|reflexivity|discriminate].
  - rewrite EI. apply Forall_app. split; [|constructor; [lia|constructor]]. eapply Forall_impl; [exact HM|]. cbn. lia.
  - lia.
  - apply Forall_lookup. intros i [input w] Ep. cbn [fst snd]. apply lookup_zip_Some in Ep as [Ei Ew].
    apply list_lookup_fmap_Some in Ew as (sig & -> & Es). eapply opens_verifies, HO; eassumption.
Qed.

End Shape.

(** C27: a mix that no foreign proposal reaches completes.  Take any run of a node in
    which no peer sends a proposal for session [id], and a moment at which the session is
    signing its proposal, of distinct inputs that one key each opens and whose values add
    up to a u64.  Whatever signatures it has already, once the owner of each input has
    signed the commitment, in any order and at any height, the node builds a reveal; its
    commitment is the one that was signed, an observer recognises it as a uniform mix,
    and it pays the donor's whole coin as the fee, which covers the mempool's rate for
    the estimated size.  If moreover no input carries a state commitment (registration
    does not refuse one, but validation does) and the serialised witnesses fit the limit
    as [mix_witnesses_fit] says, then with the commitment live and the inputs unspent it
    is a valid transaction. *)
Theorem mix_completes evs id ns pr order h :
  let m := nm_mgr (mix_run usize_bits local_peer fuel evs node_mix_new) in
  undisturbed id evs -> sessions m !! id = Some ns -> phase ns = Signing -> ns_proposal ns = Some pr ->
  NoDup (map input_coin_id (pr_inputs pr)) ->
  Forall (fun i => exists pk, in_predicate i = p2pk pk) (pr_inputs pr) ->
  sumZ (map in_value (pr_inputs pr)) <= umax 64 ->
  Forall (fun p => exists input, pr_inputs pr !! p.1 = Some input /\ opens (pr_commitment pr) input p.2) order ->
  map fst order ≡ₚ seq 0 (length (pr_inputs pr)) ->
  exists m' tx donor, sign_each id h order m = (Ok (), m') /\ try_build_transaction id m' = (Ok (Some tx), m')
  /\ mix_commitment tx = Some (pr_commitment pr) /\ is_uniform_mix tx = true
  /\ fee_input (ns_session ns) = Some donor
  /\ MIN_FEE_PER_KB * estimated_mix_reveal_size (length (pr_outputs pr)) <= in_value donor * FEE_RATE_SCALE
  /\ (Forall (fun i => in_commitment i = None) (pr_inputs pr) -> mix_witnesses_fit -> forall st : State A,
       check_commitment (pr_commitment pr) st = Ok () ->
       Forall (fun i => input_coin_id i ∈ sa_set (st_coins st)) (pr_inputs pr) ->
       validate_transaction fast_mining usize_bits witnesses_size st tx = Ok () /\ fee tx = in_value donor).
Proof.
  intros m HU EN HP EP HN HI HV HO HOr.
  pose proof (run_honest usize_bits local_peer fuel id evs ns HU EN) as HH. destruct HH as (W & HPr & HSg) eqn:EHH. clear EHH.
  assert (HS : signing pr (ns_session ns) id m ns) by (split; [exact EN|split; [split; [exact W|split; assumption]|auto]]).
  destruct (sign_each_ends pr _ id h order HO m ns HS) as (m' & ns' & E & HS' & ED).
  destruct (proposal_shape _ _ (nw_session _ W) (HPr _ EP)) as (donor & EF & HC & HSh).
  assert (EL : size (signatures ns') = length (pr_inputs pr)).
  { rewrite <- size_dom. apply Nat.le_antisymm.
    - rewrite <- (size_set_seq (C := gset nat) 0 (length (pr_inputs pr))). apply subseteq_size. intros i Hi.
      apply elem_of_dom in Hi as [sig Es]. destruct HS' as (_ & (_ & _ & HX) & _ & EP' & _).
      destruct (HX _ _ Es) as (pr' & input & h' & E1 & E2 & _). rewrite EP' in E1. injection E1 as <-.
      apply elem_of_set_seq. apply lookup_lt_Some in E2. lia.
    - rewrite ED. rewrite <- (size_set_seq (C := gset nat) 0 (length (pr_inputs pr))). apply subseteq_size. intros i Hi.
      apply elem_of_union_l, elem_of_list_to_set. rewrite HOr. apply elem_of_seq. apply elem_of_set_seq in Hi. lia. }
  destruct (build_ends pr _ id m' ns' HS' EL) as (sigs & EB & HLs & HSs).
  assert (HOp : forall i input sig, pr_inputs pr !! i = Some input -> sigs !! i = Some sig -> opens (pr_commitment pr) input sig).
  { intros i input sig Ei Es. destruct (HSs _ _ _ Ei Es) as [h' Hc]. rewrite Forall_lookup in HI.
    destruct (HI _ _ Ei) as (pk & Epk). eapply checks_opens; eassumption. }
  eexists m', _, donor. split; [exact E|]. split; [exact EB|]. split; [cbn; f_equal; exact HC|].
  split; [apply (shape_uniform _ _ _ HSh), HV|]. split; [exact EF|]. split.
  - destruct (ms_count _ _ _ HSh) as [HCn HNn]. rewrite HCn. pose proof (ms_fee _ _ _ HSh).
    destruct (recommended_fee_admits (length (registrations (ns_session ns))) ltac:(lia)). unfold FEE_RATE_SCALE in *. lia.
  - intros HNone HW st HK HCo. apply (shape_valid _ _ _ HSh); assumption.
Qed.

End Completes.

(** * A concrete mix *)

Lemma demo_opens b v : b ∈ [x02; x03; x06] -> @opens tail_blake3 (pr_commitment demo_proposal) (demo_input b v) (demo_signature b).
Proof.
  intros Hb. exists (same b). split; [reflexivity|]. split; [|apply same_signs, Hb].
  unfold demo_signature. rewrite length_sig_to_bytes by reflexivity. apply Nat.leb_le. reflexivity.
Qed.

Definition demo_witness_size (ws : list Witness) : option Z :=
  Some (sumZ (map (fun w => match w with ScriptInputs items => sumZ (map (fun x => Z.of_nat (length x)) items) end) ws)).

Lemma demo_witnesses_fit : mix_witnesses_fit demo_witness_size.
Proof.
  intros sigs HL HF. cbn [default from_option demo_witness_size id]. rewrite map_map.
  assert (HB : sumZ (map (fun sig : bytes => sumZ (map (fun x => Z.of_nat (length x)) [sig])) sigs) <= 1536 * Z.of_nat (length sigs)).
  { clear HL. induction HF as [|sig l HS HF IH]; [reflexivity|]. unfold MAX_ITEM_SIZE in HS. unfold sumZ in *. cbn in *. lia. }
  unfold MAX_MIX_PARTICIPANTS, MAX_SIGNATURE_SIZE, MAX_TX_INPUTS in *. lia.
Qed.

Lemma mix_completes_witness :
  let H := tail_blake3 in
  let order := [(2%nat, demo_signature x06); (0%nat, demo_signature x02); (1%nat, demo_signature x03)] in
  exists m' tx, @sign_each H 64 demo_id 7 order demo_run = (Ok (), m') /\ @try_build_transaction H demo_id m' = (Ok (Some tx), m')
  /\ @mix_commitment H tx = Some (pr_commitment demo_proposal) /\ is_uniform_mix tx = true
  /\ forall st : State (gset hash32), @check_commitment _ set_accumulator (pr_commitment demo_proposal) st = Ok () ->
     Forall (fun i => @input_coin_id H i ∈ @sa_set _ H set_accumulator set_accumulator_laws (st_coins st)) (pr_inputs demo_proposal) ->
     @validate_transaction H false 64 demo_witness_size _ set_accumulator st tx = Ok ().
Proof.
  intros H order. destruct demo_signing as (ns & E1 & E2 & E3).
  destruct (@mix_completes H false 64 [] 0 demo_witness_size (gset hash32) set_accumulator set_accumulator_laws demo_mix demo_id ns demo_proposal order 7)
    as (m' & tx & donor & H1 & H2 & H3 & H4 & _ & _ & H5).
  - repeat constructor.
  - exact E1.
  - exact E2.
  - exact E3.
  - eapply bool_decide_eq_true_1. lazy. reflexivity.
  - repeat (apply Forall_cons_2; [eexists; reflexivity|]). apply Forall_nil_2.
  - discriminate.
  - repeat (apply Forall_cons_2; [eexists; split; [reflexivity|apply demo_opens; repeat (left || right)]|]). apply Forall_nil_2.
  - apply (Permutation_app_comm [2%nat] [0%nat; 1%nat]).
  - exists m', tx. split; [exact H1|]. split; [exact H2|]. split; [exact H3|]. split; [exact H4|]. intros st K1 K2.
    refine (proj1 (H5 _ demo_witnesses_fit st K1 K2)). repeat (apply Forall_cons_2; [reflexivity|]). apply Forall_nil_2.
Defined.

(** * Admission *)

(** The search for a join nonce ends at the first nonce that passes, which the
    coordinator's check then accepts. *)
Lemma mine_join_finds `{Blake3} mix_id coin_id peer_id req : forall fuel n n0,
  n <= n0 < n + Z.of_nat fuel -> verify_mix_join_pow mix_id coin_id peer_id n0 req = true ->
  exists k, mine_join_from fuel mix_id coin_id peer_id req n = Some k /\ n <= k <= n0
  /\ verify_mix_join_pow mix_id coin_id peer_id k req = true.
Proof.
  induction fuel as [|fuel IH]; intros n n0 Hn HV; [lia|]. cbn [mine_join_from].
  destruct (verify_mix_join_pow mix_id coin_id peer_id n req) eqn:E; [exists n; split; [reflexivity|split; [lia|exact E]]|].
  destruct (IH (n + 1) n0) as (k & E1 & H1 & H2); [|exact HV|].
  - assert (n <> n0) by congruence. lia.
  - exists k. split; [exact E1|]. split; [lia|exact H2].
Qed.

(** * Limits of the design *)

Section Limits.
Context `{Blake3}.

(** Whoever sends it, and whatever the phase, a proposal with its own commitment replaces
    the one of a session without local outputs, the coordinator's sessions included; the
    signatures collected for the old one stay, and so does the start of the phase. *)
Lemma any_proposal_accepted id m ns inputs outputs salt : sessions m !! id = Some ns -> local_outputs ns = [] ->
  let c := tx_commitment inputs outputs salt in
  on_mix_proposal id inputs outputs salt c m
  = (Ok [], mkManager (<[id := with_proposal (mkProposal inputs outputs salt c) Signing (phase_started_at ns) ns]> (sessions m)) (banned_peers m)).
Proof.
  intros E EL c. unfold on_mix_proposal, attempt, mbind, st_bind, apply_remote_proposal, mbind, st_bind, get_session, reads, require_that.
  rewrite E. cbn -[bool_decide tx_commitment]. rewrite bool_decide_true by reflexivity. rewrite EL. reflexivity.
Qed.

(** A proposal that reaches a joiner more than a minute after it joined times out at the
    next clean-up: the minute is counted from the joining. *)
Lemma late_proposal_times_out now pr ns : phase_started_at ns + 60 < now ->
  signing_timed_out now (with_proposal pr Signing (phase_started_at ns) ns) = true.
Proof. intros HN. unfold signing_timed_out, sat_sub. cbn. apply Z.ltb_lt. lia. Qed.

(** A donor that was enough when it was set and is not for the participants that came
    later blocks the session: it has no proposal, and no other donor is taken. *)
Lemma short_donor_locks s fee other : fee_input s = Some fee -> in_value fee < recommended_fee_for_mix (length (registrations s)) ->
  (min_participants s <= length (registrations s))%nat ->
  proposal s = Err FeeTooSmall /\ session_set_fee other s = Err FeeAlreadySet /\ is_ready s = true.
Proof.
  intros EF HV HM. unfold proposal, session_set_fee, is_ready. rewrite EF.
  rewrite (proj2 (Nat.ltb_ge _ _) HM), (proj2 (Nat.leb_le _ _) HM). cbn -[recommended_fee_for_mix]. rewrite (proj2 (Z.ltb_lt _ _) HV). auto.
Qed.

(** Registration compares coins, not addresses: a coin at an address that is already in
    the mix is taken, whether another participant's or the donor's. *)
Lemma same_address_registers s i output : session_wf s -> (length (registrations s) < MAX_MIX_PARTICIPANTS)%nat ->
  output_value output = denomination s -> is_burn output = false -> in_value i = denomination s ->
  ~ (input_coin_id i ∈ map reg_coin (registrations s)) ->
  exists s', session_register i output s = Ok s' /\ registrations s' = registrations s ++ [mkRegistration i output].
Proof.
  intros W HL HO HB HI HN. unfold session_register. rewrite HB, (proj2 (Nat.leb_gt _ _)) by exact HL. cbn [bail_if mbind res_bind].
  rewrite HI, HO, Z.eqb_refl. cbn [bail_if negb mbind res_bind].
  destruct (existsb _ _) eqn:EX; [|eexists; split; reflexivity].
  exfalso. apply existsb_exists in EX as (r & Hr & E). apply bool_decide_eq_true in E. apply HN. rewrite <- E.
  apply list_elem_of_In in Hr. apply (list_elem_of_fmap_2 reg_coin), Hr.
Qed.

End Limits.

(** Two coins of one key in one mix: the reveal carries two signatures of that key. *)
Lemma key_twice_in_mix :
  let H := tail_blake3 in
  let again := mkInputReveal (p2pk (same x02)) 8 (same x07) None in
  exists s, session_register again (demo_output x05) (mkSession 8 2 (same x01) [mkRegistration (demo_input x02 8) (demo_output x04)] None) = Ok s
  /\ map (fun r => in_predicate (reg_input r)) (registrations s) = [p2pk (same x02); p2pk (same x02)].
Proof. eexists. split; [lazy; reflexivity|reflexivity]. Qed.
