(* ===== verification/Pool.v ===== *)
(** The mining pool: [src/pool.rs], and the miner's audit of it, [src/mining.rs].

    The scores of the miners are a table, [pool_scores]; a Merkle tree over them is
    committed to in the salt of the pool's first coinbase output.  HTTP and JSON are left
    out: an event carries what the node answered.  The fee, a floating-point percentage
    of the reward, is the parameter [pool_fee_of], the iteration order of a hash map the
    parameter [map_order], the random salts [salt_of].  What only the dashboard reads (heights,
    counts of shares, the history of payouts) is left out of the job and the state. *)
From S2P Require Import Prelude Types Difficulty WalletSelect.

#[local] Open Scope Z_scope.

Abbreviation Share := (hash32 * Z)%type.

(** The only error of the model: the negotiation of a template has not ended. *)
Inductive PoolError : Type := StillNegotiating.

(** * The tree of shares *)

Record ShareMerkleTree : Type := mkTree { root : hash32; leaves : list Share; layers : list (list hash32) }.

Section Tree.
Context `{Blake3}.

Definition share_data (s : Share) : bytes := s.1 ++ le_bytes 8 s.2.
Definition share_leaf (s : Share) : hash32 := hash (share_data s).

(** [chunks(2)], the last node of an odd layer with itself. *)
Fixpoint next_layer (l : list hash32) : list hash32 :=
  match l with
  | a :: b :: l => hash_concat a b :: next_layer l
  | [a] => [hash_concat a a]
  | [] => []
  end.

Fixpoint tree_layers (fuel : nat) (current_layer : list hash32) : list (list hash32) :=
  match fuel with
  | O => [current_layer]
  | S fuel =>
      if Nat.leb (length current_layer) 1 then [current_layer]
      else current_layer :: tree_layers fuel (next_layer current_layer)
  end.

Definition share_leb (a b : Share) : bool := negb (bytes_ltb b.1 a.1).

Definition tree_build (shares : list Share) : ShareMerkleTree :=
  match shares with
  | [] => mkTree (zero_arr 32) [] []
  | _ =>
      let sorted := sort_by share_leb shares in
      let ls := tree_layers (length shares) (map share_leaf sorted) in
      mkTree (nth 0 (List.last ls []) (zero_arr 32)) sorted ls
  end.

(** The sibling on one layer. *)
Definition sibling (layer : list hash32) (idx : nat) : option hash32 :=
  layer !! (if Nat.odd idx then (idx - 1)%nat else Nat.min (idx + 1) (length layer - 1)).

Fixpoint proof_from (ls : list (list hash32)) (idx : nat) : res PoolError (list hash32) :=
  match ls with
  | [] | [_] => Ok []
  | layer :: ls =>
      s ← unwrap (sibling layer idx);
      rest ← proof_from ls (Nat.div2 idx);
      Ok (s :: rest)
  end.

(** [None] for an address without shares; an index out of range would abort. *)
Definition generate_proof (t : ShareMerkleTree) (address : hash32) : res PoolError (option (nat * list hash32)) :=
  match list_find (fun s : Share => s.1 = address) (leaves t) with
  | None => Ok None
  | Some (idx, _) => proof ← proof_from (layers t) idx; Ok (Some (idx, proof))
  end.

(** ** The answer to a miner *)

Record ProofData : Type := mkProofData { pd_root : hash32; pd_score : Z; pd_index : nat; pd_proof : list hash32 }.

Definition get_proof (t : ShareMerkleTree) (addr : hash32) : res PoolError (option ProofData) :=
  let score := match list_find (fun s : Share => s.1 = addr) (leaves t) with Some (_, s) => s.2 | None => 0 end in
  match generate_proof t addr with
  | Ok p => Ok (option_map (fun q => mkProofData (root t) score q.1 q.2) p)
  | Err e => Err e
  | Panic => Panic
  end.

(** * The miner's audit *)

Fixpoint recompute_root (h : hash32) (idx : nat) (proof : list hash32) : hash32 :=
  match proof with
  | [] => h
  | s :: proof => recompute_root (if Nat.odd idx then hash_concat s h else hash_concat h s) (Nat.div2 idx) proof
  end.

(** Whether the miner goes on to work on a template, given the pool's answer. *)
Definition audit (payout : hash32) (m_hash : hash32) (batch : Batch) (answer : option ProofData) : bool :=
  bool_decide (compute_header_hash (batch_header batch) = m_hash)
  && match b_coinbase batch, answer with
     | pool_cb :: _, Some pd =>
         bool_decide (recompute_root (share_leaf (payout, pd_score pd)) (pd_index pd) (pd_proof pd) = cb_salt pool_cb)
         && (negb (0 <? pd_score pd) || existsb (fun cb => bool_decide (cb_address cb = payout)) (b_coinbase batch))
     | _, _ => true
     end.

End Tree.

(** * Paying the miners *)

Section Payout.
Context (pool_address : hash32) (pool_fee_of : Z -> Z).
Context (map_order : list Share -> list Share) (salt_of : nat -> hash32).

Definition I64_MIN : Z := - 2 ^ 63.

(** The first miner with the highest score. *)
Definition best_miner (scores : list Share) : hash32 :=
  (foldl (fun (acc : Share) s => if acc.2 <? s.2 then s else acc) (zero_arr 32, I64_MIN) scores).1.

Definition simulated_drop (total_score distributable coin : Z) : Z :=
  Z.max (s64 (coin * total_score / distributable)) 1.

(** Each coin goes to the miner with the highest remaining score. *)
Fixpoint distribute (total_score distributable : Z) (coins : list Z) (scores : gmap hash32 Z) : res PoolError (list (hash32 * Z)) :=
  match coins with
  | [] => Ok []
  | coin :: coins =>
      let best := best_miner (map_order (map_to_list scores)) in
      score ← unwrap (scores !! best);
      rest ← distribute total_score distributable coins
               (<[best := s64 (score - simulated_drop total_score distributable coin)]> scores);
      Ok ((best, coin) :: rest)
  end.

(** The salts of a template in order, the first one the root of the tree. *)
Definition salted_outputs (tree_root : hash32) (outs : list (hash32 * Z)) : list CoinbaseOutput :=
  imap (fun i o => mkCoinbaseOutput o.1 o.2 (if Nat.eqb i 0 then tree_root else salt_of i)) outs.

Definition safe_pool_fee (expected_total : Z) : Z := Z.max (pool_fee_of expected_total) 1.

Definition coinbase_for (tree_root : hash32) (shares : list Share) (expected_total : Z) : res PoolError (list CoinbaseOutput) :=
  let total_score := sumZ (map snd shares) in
  let fee := safe_pool_fee expected_total in
  let actual_distributable := sat_sub expected_total fee in
  let fee_coins := map (fun c => (pool_address, c)) (decompose_value fee) in
  paid ← (if 0 <? actual_distributable then
            if 0 <? total_score then
              distribute total_score actual_distributable (rev (decompose_value actual_distributable))
                (list_to_map (map (fun s : Share => (s.1, s64 s.2)) shares))
            else Ok (map (fun c => (pool_address, c)) (decompose_value actual_distributable))
          else Ok []);
  Ok (salted_outputs tree_root (fee_coins ++ paid)).

(** What the node says to a template request. *)
Inductive NodeAnswer : Type := Template (m_hash : hash32) (template : Batch) | Expected (total : Z) | Refused.

(** The loop that asks for a template: the node may name another total. *)
Fixpoint template_loop (fuel : nat) (node : list CoinbaseOutput -> NodeAnswer) (tree_root : hash32) (shares : list Share)
    (expected_total : Z) : res PoolError (option (hash32 * Batch)) :=
  match fuel with
  | O => Err StillNegotiating
  | S fuel =>
      coinbase ← coinbase_for tree_root shares expected_total;
      match node coinbase with
      | Template m_hash template => Ok (Some (m_hash, template))
      | Expected new_expected => template_loop fuel node tree_root shares new_expected
      | Refused => Ok None
      end
  end.

End Payout.

(** * The pool *)

Record Job : Type := mkJob {
  job_id : Z;
  mining_hash : hash32;
  share_target : hash32;
  network_target : hash32;
  batch_template : Batch;
  committed_scores : list Share
}.

Record PoolState : Type := mkPool {
  pool_scores : gmap hash32 Z;
  current_job : option Job;
  current_tree : ShareMerkleTree;
  valid_shares : gset Z;
  last_network_tip : option hash32;
  force_new_job : bool;
  job_counter : Z
}.

Inductive ShareReply : Type := Ignored | DuplicateShare | LowDifficulty | Accepted (block : option Batch).

Section Pool.
Context `{Blake3}.
Context (fast_mining : bool) (pool_share_target : hash32).

Definition positive_shares (scores : gmap hash32 Z) : list Share := List.filter (fun s : Share => 0 <? s.2) (map_to_list scores).

(** A poll while the node synchronises. *)
Definition pause (s : PoolState) : PoolState :=
  mkPool (pool_scores s) None (current_tree s) (valid_shares s) None (force_new_job s) (job_counter s).

(** The first half of a poll: when the tip is new, or a job is asked for, the nonces are
    forgotten and the shares committed to.  The result is what the template is made of. *)
Definition poll (tip : option hash32) (s : PoolState) : option (list Share * ShareMerkleTree) * PoolState :=
  let forced := bool_decide (is_Some tip) && force_new_job s in
  let force_left := if bool_decide (is_Some tip) then false else force_new_job s in
  if (negb (bool_decide (tip = last_network_tip s)) || forced) && bool_decide (is_Some tip) then
    let shares := positive_shares (pool_scores s) in
    let tree := tree_build shares in
    (Some (shares, tree), mkPool (pool_scores s) (current_job s) tree ∅ tip force_left (wrap 64 (job_counter s + 1)))
  else (None, mkPool (pool_scores s) (current_job s) (current_tree s) (valid_shares s) (last_network_tip s) force_left (job_counter s)).

(** The second half, when the node has answered: the template and its hash, or nothing. *)
Definition install (shares : list Share) (n_target : hash32) (answer : option (hash32 * Batch)) (s : PoolState) : PoolState :=
  match answer with
  | Some (m_hash, template) =>
      mkPool (pool_scores s) (Some (mkJob (job_counter s) m_hash pool_share_target n_target template shares)) (current_tree s)
        (valid_shares s) (last_network_tip s) (force_new_job s) (job_counter s)
  | None => mkPool (pool_scores s) (current_job s) (current_tree s) (valid_shares s) None (force_new_job s) (job_counter s)
  end.

(** ** A share *)

(** The first half of [mining.submit]: the nonce must be new. *)
Definition submit (id nonce : Z) (s : PoolState) : (ShareReply + Job) * PoolState :=
  match current_job s with
  | Some job =>
      if job_id job =? id then
        if bool_decide (nonce ∈ valid_shares s) then (inl DuplicateShare, s)
        else (inr job, mkPool (pool_scores s) (current_job s) (current_tree s) ({[nonce]} ∪ valid_shares s) (last_network_tip s)
                         (force_new_job s) (job_counter s))
      else (inl Ignored, s)
  | None => (inl Ignored, s)
  end.

(** The second half, when the work is verified: the miner is credited. *)
Definition credit (miner : hash32) (nonce : Z) (job : Job) (s : PoolState) : ShareReply * PoolState :=
  let ext := create_extension fast_mining (mining_hash job) nonce in
  if bytes_ltb (ext_final_hash ext) (share_target job) then
    let current := default 0 (pool_scores s !! miner) in
    let s := mkPool (<[miner := wrap 64 (current + 1)]> (pool_scores s)) (current_job s) (current_tree s) (valid_shares s)
               (last_network_tip s) (force_new_job s) (job_counter s) in
    let t := batch_template job in
    let block := mkBatch (b_prev_mirstat t) (b_transactions t) ext (b_coinbase t) (b_timestamp t) (b_target t) (b_state_root t) (b_prev_header_hash t) in
    (Accepted (if bytes_ltb (ext_final_hash ext) (network_target job) then Some block else None), s)
  else (LowDifficulty, s).

(** ** A block *)

Definition deduct_one (total_score total_reward : Z) (scores : gmap hash32 Z) (cb : CoinbaseOutput) : gmap hash32 Z :=
  let deduction := wrap 64 (cb_value cb * total_score / total_reward) in
  match scores !! cb_address cb with
  | Some current =>
      let remaining := sat_sub current deduction in
      if 0 <? remaining then <[cb_address cb := remaining]> scores else delete (cb_address cb) scores
  | None => scores
  end.

(** What the miners have been paid is taken off their scores; a reward of zero aborts. *)
Definition deduct (coinbase : list CoinbaseOutput) (scores : gmap hash32 Z) : res PoolError (gmap hash32 Z) :=
  let total_score := sumZ (map snd (map_to_list scores)) in
  let total_reward := wrap 64 (sumZ (map cb_value coinbase)) in
  if (total_reward =? 0) && negb (Nat.eqb (length coinbase) 0) then Panic
  else Ok (foldl (deduct_one total_score total_reward) scores coinbase).

Definition block_accepted (block : Batch) (s : PoolState) : res PoolError PoolState :=
  scores ← deduct (b_coinbase block) (pool_scores s);
  Ok (mkPool scores (current_job s) (current_tree s) (valid_shares s) (last_network_tip s) (force_new_job s) (job_counter s)).

Definition block_refused (s : PoolState) : PoolState :=
  mkPool (pool_scores s) (current_job s) (current_tree s) (valid_shares s) (last_network_tip s) true (job_counter s).

End Pool.
