(* ===== verification/PoolSafe.v ===== *)
(** The pool's commitment to the shares, and the miner's audit of it: an honest pool is
    believed, and no other score than the one committed to is. *)
From S2P Require Import Prelude Types Difficulty WalletSelect Pool.

#[local] Open Scope Z_scope.

(** Induction by pairs. *)
Lemma pair_ind {A} (P : list A -> Prop) : P [] -> (forall a, P [a]) -> (forall a b l, P l -> P (a :: b :: l)) -> forall l, P l.
Proof.
  intros H0 H1 H2. fix IH 1. intros [|a [|b l]]; [exact H0|apply H1|apply H2, IH].
Qed.

(** * The tree *)

Section Tree.
Context `{Blake3}.

Lemma next_layer_lookup (l : list hash32) : forall k, next_layer l !! k
  = match (l !! (2 * k)%nat : option hash32) with Some a => Some (hash_concat a (default a (l !! (2 * k + 1)%nat : option hash32))) | None => None end.
Proof.
  induction l as [|a|a b l IH] using pair_ind; intros k; cbn [next_layer].
  - rewrite !lookup_nil. reflexivity.
  - destruct k; [reflexivity|]. rewrite (lookup_ge_None_2 [hash_concat a a]), (lookup_ge_None_2 [a]) by (cbn; lia). reflexivity.
  - destruct k; [reflexivity|]. cbn [lookup list_lookup]. rewrite IH.
    replace (2 * S k)%nat with (S (S (2 * k))) by lia. replace (S (S (2 * k)) + 1)%nat with (S (S (2 * k + 1))) by lia. reflexivity.
Qed.

Lemma length_next_layer (l : list hash32) : length (next_layer l) = Nat.div2 (length l + 1).
Proof.
  induction l as [|a|a b l IH] using pair_ind; [reflexivity..|]. cbn [next_layer length]. rewrite IH. reflexivity.
Qed.

(** A node and its sibling make the node above. *)
Lemma next_layer_step (l : list hash32) i (h : hash32) : l !! i = Some h -> exists s, sibling l i = Some s
  /\ (next_layer l !! Nat.div2 i : option hash32) = Some (if Nat.odd i then hash_concat s h else hash_concat h s).
Proof.
  intros E. pose proof (lookup_lt_Some _ _ _ E) as HL. rewrite next_layer_lookup. unfold sibling.
  pose proof (Nat.div2_odd i) as HI. destruct (Nat.odd i); cbn [Nat.b2n] in HI.
  - replace (i - 1)%nat with (2 * Nat.div2 i)%nat by lia. destruct (lookup_lt_is_Some_2 l (2 * Nat.div2 i)) as [s Es]; [lia|].
    exists s. split; [exact Es|]. rewrite Es. replace (2 * Nat.div2 i + 1)%nat with i by lia. rewrite E. reflexivity.
  - replace (2 * Nat.div2 i)%nat with i by lia. rewrite E.
    destruct (l !! (i + 1)%nat) as [s|] eqn:Es.
    + exists s. pose proof (lookup_lt_Some _ _ _ Es). rewrite Nat.min_l by lia. auto.
    + exists h. apply lookup_ge_None_1 in Es. rewrite Nat.min_r by lia. replace (length l - 1)%nat with i by lia. auto.
Qed.

Lemma next_layer_elem (l : list hash32) (v : hash32) : v ∈ next_layer l -> exists a b : hash32, v = hash_concat a b /\ a ∈ l /\ b ∈ l.
Proof.
  rewrite list_elem_of_lookup. intros [k E]. rewrite next_layer_lookup in E. destruct (l !! (2 * k)%nat) as [a|] eqn:Ea; [|discriminate].
  injection E as <-. exists a, (default a (l !! (2 * k + 1)%nat : option hash32)). split; [reflexivity|]. split; [eapply list_elem_of_lookup_2, Ea|].
  destruct (l !! (2 * k + 1)%nat) as [b|] eqn:Eb; cbn; eapply list_elem_of_lookup_2; eassumption.
Qed.

(** The layers of a tree with root [r]. *)
Inductive tower : list (list hash32) -> hash32 -> Prop :=
  | tower_top r : tower [[r]] r
  | tower_up l ls r : (2 <= length l)%nat -> tower (next_layer l :: ls) r -> tower (l :: next_layer l :: ls) r.

Lemma tree_layers_tower fuel : forall l, (1 <= length l <= fuel)%nat ->
  exists ls r, tree_layers fuel l = l :: ls /\ tower (l :: ls) r.
Proof.
  induction fuel as [|fuel IH]; intros l HL; [lia|]. cbn [tree_layers]. destruct (Nat.leb_spec (length l) 1).
  - destruct l as [|r [|? ?]]; cbn in HL, H0; try lia. exists [], r. split; [reflexivity|constructor].
  - destruct (IH (next_layer l)) as (ls & r & E & HT).
    { rewrite length_next_layer, Nat.div2_div. split; [apply Nat.div_le_lower_bound; lia|].
      apply Nat.lt_succ_r, Nat.Div0.div_lt_upper_bound. lia. }
    exists (next_layer l :: ls), r. rewrite E. split; [reflexivity|]. constructor; [lia|exact HT].
Qed.

Lemma tower_last ls r : tower ls r -> nth 0 (List.last ls []) (zero_arr 32) = r.
Proof. induction 1 as [|l ls r HL HT IH]; [reflexivity|exact IH]. Qed.

Lemma proof_from_cons l k ls i : proof_from (l :: k :: ls) i
  = (s ← unwrap (sibling l i); rest ← proof_from (k :: ls) (Nat.div2 i); Ok (s :: rest)).
Proof. reflexivity. Qed.

(** Completeness: the proof of a leaf climbs to the root. *)
Lemma proof_from_climbs ls r : tower ls r -> forall l rest, ls = l :: rest -> forall i (h : hash32), l !! i = Some h ->
  exists p, proof_from ls i = Ok p /\ recompute_root h i p = r.
Proof.
  induction 1 as [r|l0 ls r HL HT IH]; intros l rest [= <- <-] i h E.
  - exists []. split; [reflexivity|]. destruct i; cbn in E; [injection E as <-; reflexivity|discriminate].
  - destruct (next_layer_step _ _ _ E) as (s & Es & En). destruct (IH _ _ eq_refl _ _ En) as (p & Ep & Hp).
    exists (s :: p). rewrite proof_from_cons, Es. cbn [unwrap mbind res_bind]. rewrite Ep. split; [reflexivity|exact Hp].
Qed.

(** ** Soundness *)

Definition concat_data (a b : hash32) : bytes := a ++ b.

Fixpoint recompute_queries (h : hash32) (idx : nat) (proof : list hash32) : list bytes :=
  match proof with
  | [] => []
  | s :: proof =>
      let d := if Nat.odd idx then concat_data s h else concat_data h s in
      d :: recompute_queries (blake3 d) (Nat.div2 idx) proof
  end.

(** What the nodes above a layer are the hashes of. *)
Definition node_queries (l : list hash32) : list bytes := a ← l; b ← l; [concat_data a b].

Lemma node_queries_elem l a b : a ∈ l -> b ∈ l -> concat_data a b ∈ node_queries l.
Proof.
  intros Ha Hb. unfold node_queries. apply list_elem_of_bind. exists a. split; [|exact Ha].
  apply list_elem_of_bind. exists b. split; [left|exact Hb].
Qed.

Lemma recompute_snoc p : forall h i s, exists b : bool, recompute_root h i (p ++ [s])
    = (let v := recompute_root h i p in blake3 (if b then concat_data s v else concat_data v s))
  /\ (let v := recompute_root h i p in if b then concat_data s v else concat_data v s) ∈ recompute_queries h i (p ++ [s]).
Proof.
  induction p as [|x p IH]; intros h i s.
  - exists (Nat.odd i). cbn. destruct (Nat.odd i); split; try reflexivity; left.
  - cbn [app recompute_root recompute_queries]. destruct (IH (if Nat.odd i then hash_concat x h else hash_concat h x) (Nat.div2 i) s) as (b & E & HI).
    exists b. split; [exact E|]. right. cbn zeta in HI |- *.
    replace (blake3 (if Nat.odd i then concat_data x h else concat_data h x)) with (if Nat.odd i then hash_concat x h else hash_concat h x)
      by (destruct (Nat.odd i); reflexivity). exact HI.
Qed.

Lemma recompute_queries_prefix p q : forall h i x, x ∈ recompute_queries h i p -> x ∈ recompute_queries h i (p ++ q).
Proof.
  induction p as [|s p IH]; intros h i x Hx; [inversion Hx|]. cbn [app recompute_queries] in *.
  apply elem_of_cons in Hx as [->|Hx]; [left|right; apply IH, Hx].
Qed.

Lemma concat_data_inj a b a' b' : concat_data a b = concat_data a' b' -> a = a' /\ b = b'.
Proof.
  unfold concat_data. intros E. apply app_inj_1 in E as [E1 E2]; [|rewrite !arr_length; reflexivity].
  split; apply arr_eq; assumption.
Qed.

(** A path that ends in the root of a tower passes through its lowest layer. *)
Lemma recompute_meets ls r : tower ls r -> forall l rest, ls = l :: rest -> forall (Q : bytes -> Prop) d h i p, collision_free Q ->
  h = blake3 d -> Q d -> length d = 40%nat -> (forall x, x ∈ recompute_queries h i p -> Q x) ->
  (forall k x, k ∈ ls -> x ∈ node_queries k -> Q x) -> recompute_root h i p = r ->
  exists p1 p2, p = p1 ++ p2 /\ recompute_root h i p1 ∈ l.
Proof.
  induction 1 as [r|l0 ls r HL HT IH]; intros l rest [= <- <-] Q d h i p CF Ed Qd Hd HP HQ E.
  - exists p, []. rewrite app_nil_r. split; [reflexivity|]. rewrite E. left.
  - destruct (IH _ _ eq_refl Q d h i p CF Ed Qd Hd HP) as (p1 & p2 & Ep & HI); [intros k x Hk; apply HQ; right; exact Hk|exact E|].
    destruct (next_layer_elem _ _ HI) as (a & b & Ev & Ha & Hb).
    assert (HQab : Q (concat_data a b)) by (apply (HQ l0); [left|apply node_queries_elem; assumption]).
    destruct p1 as [|s p1' _] using rev_ind.
    + cbn [recompute_root] in Ev. rewrite Ed in Ev. apply CF in Ev; [|exact Qd|exact HQab].
      exfalso. apply (f_equal length) in Ev. rewrite Hd in Ev. unfold concat_data in Ev. rewrite length_app, !arr_length in Ev. discriminate.
    + destruct (recompute_snoc p1' h i s) as (bb & E1 & E2). rewrite E1 in Ev.
      apply CF in Ev; [|apply HP; rewrite Ep; apply recompute_queries_prefix, E2|exact HQab].
      exists p1', (s :: p2). split; [rewrite Ep, <- app_assoc; reflexivity|].
      cbn zeta in Ev. destruct bb; apply concat_data_inj in Ev as [<- <-]; assumption.
Qed.

(** Every hash that the tree of [shares] and an audit take. *)
Definition audit_queries (shares : list Share) (s : Share) (idx : nat) (p : list hash32) : list bytes :=
  share_data s :: map share_data shares ++ recompute_queries (share_leaf s) idx p
  ++ mjoin (map node_queries (layers (tree_build shares))).

Lemma share_data_inj s s' : in_u 64 s.2 -> in_u 64 s'.2 -> share_data s = share_data s' -> s = s'.
Proof.
  destruct s as [a v], s' as [a' v']. unfold share_data. cbn [fst snd]. intros H1 H2 E. apply app_inj_1 in E as [E1 E2]; [|rewrite !arr_length; reflexivity].
  apply arr_eq in E1. apply le_bytes_inj in E2; [congruence|exact H1|exact H2].
Qed.

Lemma length_share_data s : length (share_data s) = 40%nat.
Proof. unfold share_data. rewrite length_app, arr_length, length_le_bytes. reflexivity. Qed.

Lemma tree_build_tower shares : shares <> [] -> exists ls r,
  layers (tree_build shares) = map share_leaf (leaves (tree_build shares)) :: ls /\ tower (layers (tree_build shares)) r
  /\ root (tree_build shares) = r /\ leaves (tree_build shares) ≡ₚ shares.
Proof.
  intros HN. unfold tree_build. destruct shares as [|s l] eqn:ES; [congruence|]. rewrite <- ES in *. cbn [layers leaves root].
  assert (HP : sort_by share_leb shares ≡ₚ shares) by apply sort_by_perm.
  destruct (tree_layers_tower (length shares) (map share_leaf (sort_by share_leb shares))) as (ls & r & E & HT).
  { rewrite length_map, HP, ES. cbn. lia. }
  exists ls, r. rewrite E in *. split; [reflexivity|]. split; [exact HT|]. split; [apply tower_last, HT|exact HP].
Qed.

(** The pool's answer to a miner it committed to. *)
Lemma proof_of_share shares s : shares <> [] -> NoDup (map fst shares) -> s ∈ shares ->
  exists idx p, get_proof (tree_build shares) s.1 = Ok (Some (mkProofData (root (tree_build shares)) s.2 idx p))
  /\ recompute_root (share_leaf s) idx p = root (tree_build shares).
Proof.
  intros HN HD Hs. destruct (tree_build_tower shares HN) as (ls & r & EL & HT & ER & HP). set (t := tree_build shares) in *.
  rewrite <- HP in Hs. unfold get_proof, generate_proof.
  destruct (list_find_elem_of (fun x : Share => x.1 = s.1) (leaves t) s Hs eq_refl) as [[i s'] E]. rewrite E.
  apply list_find_Some in E as (Ei & E1 & _).
  assert (s' = s) as ->.
  { assert (HD' : NoDup (map fst (leaves t))) by (rewrite HP; exact HD).
    eapply (NoDup_map_inj fst); [exact HD'|eapply list_elem_of_lookup_2, Ei|exact Hs|exact E1]. }
  destruct (proof_from_climbs _ _ HT _ _ EL i (share_leaf s)) as (p & Ep & Hp); [rewrite list_lookup_fmap, Ei; reflexivity|].
  rewrite Ep. exists i, p. rewrite ER. split; [reflexivity|exact Hp].
Qed.

(** C31: a pool's commitment is audited exactly.  For every miner of the shares, the pool
    answers a request with the score it committed to and a path from which the miner
    recomputes the root; and when, from some score, index and path that a pool answers, a
    miner recomputes the root, its address is committed to with that score, barring a
    hash collision among the inputs of the tree and of the audit.  (The index and path
    need not be the honest ones: an index past the leaves can reach the same leaf.) *)
Theorem share_audit_exact shares : shares <> [] -> NoDup (map fst shares) -> Forall (fun s => in_u 64 s.2) shares ->
  let t := tree_build shares in
  (forall s, s ∈ shares -> exists idx p, get_proof t s.1 = Ok (Some (mkProofData (root t) s.2 idx p)) /\ recompute_root (share_leaf s) idx p = root t)
  /\ (forall s idx p, in_u 64 s.2 -> collision_free (fun x => x ∈ audit_queries shares s idx p) ->
        recompute_root (share_leaf s) idx p = root t -> s ∈ shares).
Proof.
  intros HN HD HU t. destruct (tree_build_tower shares HN) as (ls & r & EL & HT & ER & HP). fold t in EL, HT, ER, HP. split.
  - intros s Hs. apply (proof_of_share shares s HN HD Hs).
  - intros s idx p Hs CF E. rewrite ER in E.
    destruct (recompute_meets _ _ HT _ _ EL _ (share_data s) (share_leaf s) idx p CF) as (p1 & p2 & Ep & HI); try reflexivity; try exact E.
    + left.
    + apply length_share_data.
    + intros x Hx. right. apply elem_of_app. right. apply elem_of_app. left. exact Hx.
    + intros k x Hk Hx. right. apply elem_of_app. right. apply elem_of_app. right. apply list_elem_of_join.
      exists (node_queries k). split; [exact Hx|apply list_elem_of_fmap_2, Hk].
    + apply list_elem_of_fmap in HI as (s' & Ev & Hs'). rewrite HP in Hs'.
      assert (Q' : share_data s' ∈ audit_queries shares s idx p).
      { right. apply elem_of_app. left. apply list_elem_of_fmap_2, Hs'. }
      destruct p1 as [|x p1' _] using rev_ind.
      * cbn [recompute_root] in Ev. apply CF in Ev; [|left|exact Q']. rewrite Forall_forall in HU.
        apply share_data_inj in Ev; [subst; exact Hs'|exact Hs|apply HU, Hs'].
      * destruct (recompute_snoc p1' (share_leaf s) idx x) as (bb & E1 & E2). rewrite E1 in Ev.
        apply CF in Ev; [|right; apply elem_of_app; right; apply elem_of_app; left; rewrite Ep; apply recompute_queries_prefix, E2|exact Q'].
        exfalso. apply (f_equal length) in Ev. rewrite length_share_data in Ev. cbn zeta in Ev.
        destruct bb; unfold concat_data in Ev; rewrite length_app, !arr_length in Ev; discriminate.
Qed.

End Tree.

(** Two miners. *)
Definition demo_shares : list Share := [(arr_of 32 [x01], 3); (arr_of 32 [x02], 5)].

Lemma share_audit_exact_witness :
  let H := toy_blake3 in
  let t := tree_build demo_shares in
  let s : Share := (arr_of 32 [x02], 5) in
  (exists idx p, get_proof t s.1 = Ok (Some (mkProofData (root t) s.2 idx p)) /\ recompute_root (share_leaf s) idx p = root t)
  /\ s ∈ demo_shares.
Proof.
  intros H t s.
  destruct (@share_audit_exact H demo_shares) as [S1 S2]; [discriminate| | |].
  - eapply bool_decide_eq_true_1. vm_compute. reflexivity.
  - repeat (apply Forall_cons_2; [split; [discriminate|reflexivity]|]). apply Forall_nil_2.
  - split; [apply (S1 s); right; left|].
    apply (S2 s 1%nat [share_leaf (arr_of 32 [x01], 3)]); [split; [discriminate|reflexivity]| |vm_compute; reflexivity].
    apply cf_check_sound. vm_compute. reflexivity.
Defined.
