(* ===== verification/PoolPay.v ===== *)
(** What the pool pays: a template pays exactly the reward, nobody is paid more than a
    proportional part and one coin, and what a block takes off the scores; with more
    miners than coins, an honest template is refused by a miner's audit. *)
From S2P Require Import Prelude Types Difficulty WalletSelect Pool PoolSafe.

#[local] Open Scope Z_scope.

(** * What the miners are paid *)

Lemma s64_id z : - 2 ^ 63 <= z < 2 ^ 63 -> s64 z = z.
Proof. intros Hz. unfold s64. rewrite Z.mod_small by lia. lia. Qed.

Definition total (scores : gmap hash32 Z) : Z := sumZ (map snd (map_to_list scores)).

Lemma total_insert (scores : gmap hash32 Z) a old new : scores !! a = Some old -> total (<[a := new]> scores) = total scores - old + new.
Proof.
  intros E. unfold total. rewrite <- (insert_delete_id _ _ _ E) at 2. rewrite <- (insert_delete_eq scores).
  rewrite !(sumZ_perm _ _ (Permutation_map snd (map_to_list_insert _ _ _ (lookup_delete_eq _ _)))). cbn [map snd].
  unfold sumZ. cbn [foldr]. lia.
Qed.

(** The highest score is at least the sum, when the sum is not positive. *)
Lemma max_above_sum (l : list Z) m : l <> [] -> Forall (fun x => x <= m) l -> m <= 0 -> sumZ l <= m.
Proof.
  intros HN HF Hm. destruct l as [|x l]; [congruence|]. inversion HF as [|? ? Hx Hl]; subst. unfold sumZ. cbn [foldr]. fold (sumZ l).
  assert (sumZ l <= 0); [|lia]. clear -Hl Hm. induction Hl as [|y l Hy Hl IH]; [reflexivity|]. unfold sumZ in *. cbn [foldr]. lia.
Qed.

Lemma best_miner_max (l : list Share) : l <> [] -> Forall (fun s => I64_MIN < s.2) l ->
  exists s, (best_miner l, s) ∈ l /\ Forall (fun x => x.2 <= s) l.
Proof.
  intros HN HF. unfold best_miner.
  assert (HG : forall k (acc : Share), Forall (fun s : Share => I64_MIN < s.2) k ->
    let r := foldl (fun (acc : Share) s => if acc.2 <? s.2 then s else acc) acc k in
    (r = acc \/ r ∈ k) /\ acc.2 <= r.2 /\ Forall (fun x => x.2 <= r.2) k).
  { induction k as [|x k IH]; intros acc HK; cbn; [split; [auto|split; [lia|constructor]]|].
    inversion HK as [|? ? Hx HK']; subst. destruct (acc.2 <? x.2) eqn:E.
    - apply Z.ltb_lt in E. destruct (IH x HK') as ([-> |H1] & H2 & H3).
      + split; [right; left|]. split; [lia|]. constructor; [lia|exact H3].
      + split; [right; right; exact H1|]. split; [lia|]. constructor; [exact H2|exact H3].
    - apply Z.ltb_ge in E. destruct (IH acc HK') as ([-> |H1] & H2 & H3).
      + split; [auto|]. split; [lia|]. constructor; [exact E|exact H3].
      + split; [right; right; exact H1|]. split; [exact H2|]. constructor; [lia|exact H3]. }
  destruct (HG l (zero_arr 32, I64_MIN) HF) as (H1 & H2 & H3).
  set (r := foldl _ _ l) in *. exists r.2. split; [|exact H3]. rewrite <- surjective_pairing. destruct H1 as [H1|H1]; [|exact H1].
  destruct l as [|x l]; [congruence|]. inversion HF as [|? ? Hx _]; subst. inversion H3 as [|? ? Hx' _]; subst.
  rewrite H1 in Hx'. cbn in Hx'. lia.
Qed.

Definition paid_to {B} (f : B -> hash32) (v : B -> Z) (a : hash32) (outs : list B) : list Z :=
  map v (List.filter (fun o => bool_decide (f o = a)) outs).

Section Payout.
Context (map_order : list Share -> list Share).
Context (map_order_perm : forall l, map_order l ≡ₚ l).
Context (S D : Z) (k : nat) (HD : 0 < D) (HS : 0 <= S < 2 ^ 62) (Hk : Z.of_nat k < 2 ^ 32).

Lemma drop_bounds coin : 0 < coin <= D -> let d := simulated_drop S D coin in
  1 <= d <= S + 1 /\ S * coin - D < D * d <= S * coin + D.
Proof.
  intros Hc d. assert (HB : 0 <= coin * S / D <= S).
  { split; [apply Z.div_pos; nia|]. apply Z.div_le_upper_bound; nia. }
  assert (HQ : D * (coin * S / D) <= coin * S < D * (coin * S / D) + D).
  { pose proof (Z.div_mod (coin * S) D ltac:(lia)). pose proof (Z.mod_pos_bound (coin * S) D HD). lia. }
  unfold d, simulated_drop. rewrite s64_id by lia. destruct (Z.max_spec (coin * S / D) 1) as [[H1 ->]|[H1 ->]]; [|nia].
  assert (coin * S / D = 0) as E by lia. rewrite E in HQ. nia.
Qed.

Definition in_range (r : Z) : Prop := - (Z.of_nat k + S + 1) <= r <= S.

Lemma distribute_fair coins : forall (scores : gmap hash32 Z) j, (j + length coins <= k)%nat ->
  Forall (fun c => 0 < c <= D) coins -> scores <> ∅ -> map_Forall (fun _ r => in_range r) scores ->
  S * sumZ coins <= D * total scores + D * Z.of_nat j ->
  exists outs, distribute map_order S D coins scores = Ok outs /\ map snd outs = coins
  /\ Forall (fun o => is_Some (scores !! o.1)) outs
  /\ forall a r ps c, scores !! a = Some r -> paid_to fst snd a outs = ps ++ [c] ->
       S * sumZ ps <= D * (r + Z.of_nat k + Z.of_nat (length ps)).
Proof.
  induction coins as [|coin coins IH]; intros scores j Hj HC HN HR HT.
  - exists []. split; [reflexivity|]. split; [reflexivity|]. split; [constructor|]. intros a r ps c _ E. destruct ps; discriminate.
  - inversion HC as [|? ? Hc HC']; subst. cbn [length] in Hj.
    assert (HNl : map_order (map_to_list scores) <> []).
    { intros E. pose proof (map_order_perm (map_to_list scores)) as HP. rewrite E in HP. apply Permutation_nil in HP.
      apply HN, map_to_list_empty_iff, HP. }
    assert (HE : forall a r, (a, r) ∈ map_order (map_to_list scores) <-> scores !! a = Some r).
    { intros a r. rewrite map_order_perm. apply elem_of_map_to_list. }
    destruct (best_miner_max (map_order (map_to_list scores)) HNl) as (rb & Hb & HM).
    { apply Forall_forall. intros [a r] Ha. apply HE in Ha. specialize (HR _ _ Ha). unfold in_range, I64_MIN in *. cbn. lia. }
    set (b := best_miner (map_order (map_to_list scores))) in *. apply HE in Hb.
    destruct (drop_bounds coin Hc) as [HB1 HB2]. set (d := simulated_drop S D coin) in *.
    assert (HSC : 0 <= sumZ coins) by (apply sumZ_nonneg; eapply Forall_impl; [exact HC'|]; cbn; lia).
    assert (HS1 : sumZ (coin :: coins) = coin + sumZ coins) by reflexivity.
    assert (Hrb : - Z.of_nat j <= rb).
    { destruct (Z_le_gt_dec rb 0) as [Hle|]; [|lia]. assert (total scores <= rb).
      - unfold total. rewrite <- (sumZ_perm _ _ (Permutation_map snd (map_order_perm _))). apply max_above_sum; [|apply Forall_map; exact HM|exact Hle].
        intros E. apply map_eq_nil in E. congruence.
      - nia. }
    assert (Hrr : in_range rb) by apply (HR _ _ Hb).
    assert (Es : s64 (rb - d) = rb - d) by (apply s64_id; unfold in_range in Hrr; lia).
    destruct (IH (<[b := rb - d]> scores) (Datatypes.S j)) as (outs & EO & EV & EA & EF).
    { lia. } { exact HC'. } { apply insert_non_empty. }
    { apply map_Forall_insert_2; [|exact HR]. unfold in_range in *. lia. }
    { rewrite (total_insert _ _ _ _ Hb). nia. }
    exists ((b, coin) :: outs). split; [|split; [|split]].
    + cbn [distribute]. fold b. rewrite Hb. cbn [unwrap mbind res_bind]. fold d. rewrite Es, EO. reflexivity.
    + cbn. rewrite EV. reflexivity.
    + constructor; [cbn; eauto|]. eapply Forall_impl; [exact EA|]. intros o Ho. cbn beta in Ho |- *. destruct (decide (b = o.1)) as [<-|E]; [eauto|]. rewrite lookup_insert_ne in Ho by exact E. exact Ho.
    + intros a r ps c Er EP. unfold paid_to in EP. cbn [List.filter fst] in EP. destruct (decide (b = a)) as [->|HNab].
      * rewrite bool_decide_true in EP by reflexivity. cbn [map snd] in EP. rewrite Hb in Er. injection Er as <-.
        destruct ps as [|p ps]; cbn [app] in EP; [cbn; nia|]. injection EP as <- EP.
        specialize (EF a (rb - d) ps c (lookup_insert_eq _ _ _) EP). cbn [length]. unfold sumZ in *. cbn [foldr]. nia.
      * rewrite bool_decide_false in EP by exact HNab. apply (EF a r ps c); [|exact EP]. rewrite lookup_insert_ne by exact HNab. exact Er.
Qed.

End Payout.

(** ** The coinbase of a template *)

Lemma salted_map {B} (f : CoinbaseOutput -> B) (g : hash32 * Z -> B) salt_of tree_root outs :
  (forall a v s, f (mkCoinbaseOutput a v s) = g (a, v)) -> map f (salted_outputs salt_of tree_root outs) = map g outs.
Proof.
  intros Hf. apply list_eq. intros i. unfold salted_outputs. rewrite !list_lookup_fmap, list_lookup_imap.
  destruct (outs !! i) as [[a v]|]; cbn; [rewrite Hf|]; reflexivity.
Qed.

Lemma paid_to_map {B C} (h : B -> C) (f : C -> hash32) (v : C -> Z) a outs :
  paid_to f v a (map h outs) = paid_to (fun x => f (h x)) (fun x => v (h x)) a outs.
Proof.
  unfold paid_to. induction outs as [|o outs IH]; [reflexivity|]. cbn. destruct (bool_decide (f (h o) = a)); cbn; rewrite IH; reflexivity.
Qed.

Lemma paid_to_app {B} (f : B -> hash32) v a l l' : paid_to f v a (l ++ l') = paid_to f v a l ++ paid_to f v a l'.
Proof. unfold paid_to. rewrite List.filter_app, map_app. reflexivity. Qed.

Lemma paid_to_others {B} (f : B -> hash32) v a l : Forall (fun o => f o <> a) l -> paid_to f v a l = [].
Proof.
  unfold paid_to. induction 1 as [|o l Ho HF IH]; [reflexivity|]. cbn. rewrite bool_decide_false by exact Ho. exact IH.
Qed.

Lemma length_paid_to {B} (f : B -> hash32) v a l : (length (paid_to f v a l) <= length l)%nat.
Proof. unfold paid_to. induction l as [|o l IH]; [reflexivity|]. cbn. destruct (bool_decide _); cbn; lia. Qed.

Lemma paid_to_salted salt_of tree_root a outs :
  paid_to cb_address cb_value a (salted_outputs salt_of tree_root outs) = paid_to fst snd a outs.
Proof.
  transitivity (paid_to fst snd a (map (fun cb => (cb_address cb, cb_value cb)) (salted_outputs salt_of tree_root outs))).
  - rewrite paid_to_map. reflexivity.
  - f_equal. rewrite (salted_map _ id) by reflexivity. apply map_id.
Qed.

Section Coinbase.
Context (pool_address : hash32) (pool_fee_of : Z -> Z) (map_order : list Share -> list Share) (salt_of : nat -> hash32).
Context (map_order_perm : forall l, map_order l ≡ₚ l).

(** The scores that the distribution starts from. *)
Lemma initial_scores shares : NoDup (map fst shares) -> Forall (fun s => 0 < s.2) shares -> sumZ (map snd shares) < 2 ^ 62 ->
  let m := list_to_map (map (fun s : Share => (s.1, s64 s.2)) shares) : gmap hash32 Z in
  (forall a r, m !! a = Some r <-> (a, r) ∈ shares) /\ total m = sumZ (map snd shares)
  /\ Forall (fun s => s.2 <= sumZ (map snd shares)) shares.
Proof.
  intros HN HP HS. pose proof (below_sum (map snd shares)) as HB. rewrite !Forall_map in HB. specialize (HB HP).
  assert (E : map (fun s : Share => (s.1, s64 s.2)) shares = shares).
  { clear HN HP. revert HS HB. generalize (sumZ (map snd shares)) as z. intros z Hz HF. induction HF as [|[a v] l Hx HF IH]; [reflexivity|].
    cbn in *. rewrite s64_id, IH by lia. reflexivity. }
  rewrite E. cbv zeta. split; [|split].
  - intros a r. symmetry. apply elem_of_list_to_map, HN.
  - unfold total. apply sumZ_perm, Permutation_map, map_to_list_to_map, HN.
  - eapply Forall_impl; [exact HB|]. cbn. lia.
Qed.

Lemma distribute_shares shares D : NoDup (map fst shares) -> Forall (fun s => 0 < s.2) shares -> shares <> [] ->
  sumZ (map snd shares) < 2 ^ 62 -> 0 < D -> in_u 64 D ->
  exists paid, distribute map_order (sumZ (map snd shares)) D (rev (decompose_value D))
      (list_to_map (map (fun s : Share => (s.1, s64 s.2)) shares)) = Ok paid
  /\ map snd paid = rev (decompose_value D) /\ Forall (fun o => o.1 ∈ map fst shares) paid
  /\ forall s ps c, s ∈ shares -> paid_to fst snd s.1 paid = ps ++ [c] -> sumZ (map snd shares) * sumZ ps <= D * (s.2 + 128).
Proof.
  intros HN HP HNe HS HD HU.
  assert (HEx : exists s, s ∈ shares) by (destruct shares as [|s l]; [destruct (HNe eq_refl)|exists s; left]).
  destruct (initial_scores shares HN HP HS) as (H1 & H2 & H3). set (S := sumZ (map snd shares)) in *.
  set (m := list_to_map (map (fun s : Share => (s.1, s64 s.2)) shares) : gmap hash32 Z) in *.
  pose proof (length_decompose D HU) as HL. rewrite Forall_forall in HP, H3.
  assert (HS0 : 0 <= S) by (apply sumZ_nonneg, Forall_map, Forall_forall; intros x Hx; specialize (HP x Hx); cbn; lia).
  destruct (distribute_fair map_order map_order_perm S D 64 HD ltac:(lia) ltac:(lia) (rev (decompose_value D)) m 0) as (paid & E & EV & EA & EF).
  - rewrite length_rev. lia.
  - apply Forall_rev, decompose_coins, HU.
  - intros E. destruct HEx as [[a v] Hs]. apply H1 in Hs. rewrite E, lookup_empty in Hs. discriminate.
  - intros a r Er. apply H1 in Er. specialize (HP _ Er). specialize (H3 _ Er). unfold in_range. cbn [fst snd] in HP, H3. lia.
  - rewrite H2, (sumZ_perm _ _ (Permutation_sym (Permutation_rev _))), decompose_value_sum by exact HU. lia.
  - exists paid. split; [exact E|]. split; [exact EV|]. split.
    + eapply Forall_impl; [exact EA|]. intros o [r Er]. apply H1 in Er. apply (list_elem_of_fmap_2 fst) in Er. exact Er.
    + intros s ps c Hs Ep. specialize (EF s.1 s.2 ps c). rewrite H1, <- surjective_pairing in EF. specialize (EF Hs Ep).
      assert (HLp : (length ps + 1 <= 64)%nat).
      { transitivity (length paid); [|rewrite <- (length_map snd), EV, length_rev; exact HL].
        rewrite <- (length_paid_to fst snd s.1), Ep, length_app. cbn. lia. }
      nia.
Qed.

(** The outputs beside the fee: one for each coin of what is distributed. *)
Lemma paid_miners tree_root shares expected cbs :
  NoDup (map fst shares) -> Forall (fun s => 0 < s.2) shares -> sumZ (map snd shares) < 2 ^ 62 ->
  1 <= expected -> in_u 64 expected -> 0 <= pool_fee_of expected <= expected ->
  coinbase_for pool_address pool_fee_of map_order salt_of tree_root shares expected = Ok cbs ->
  exists paid : list (hash32 * Z),
    map cb_address cbs = map (fun _ => pool_address) (decompose_value (safe_pool_fee pool_fee_of expected)) ++ map fst paid
  /\ length paid = length (decompose_value (expected - safe_pool_fee pool_fee_of expected)).
Proof.
  intros HN HP HS HE HU HF E. unfold coinbase_for in E.
  set (fee := safe_pool_fee pool_fee_of expected) in *.
  assert (HFe : 1 <= fee <= expected) by (unfold fee, safe_pool_fee; lia).
  assert (HUD : in_u 64 (expected - fee)) by (unfold in_u in *; lia).
  replace (sat_sub expected fee) with (expected - fee) in E by (unfold sat_sub; lia). set (D := expected - fee) in *.
  apply res_bind_Ok in E as (paid & E & [= <-]). exists paid. split.
  - rewrite (salted_map _ fst) by reflexivity. rewrite map_app, map_map. reflexivity.
  - destruct (Z.ltb_spec 0 D) as [HD|HD].
    2: { injection E as <-. assert (D = 0) as -> by (unfold D in *; lia). reflexivity. }
    destruct (Z.ltb_spec 0 (sumZ (map snd shares))) as [HS0|HS0]; [|injection E as <-; apply length_map].
    assert (HNe : shares <> []) by (intros EX; rewrite EX in HS0; cbn in HS0; lia).
    destruct (distribute_shares shares D HN HP HNe HS HD HUD) as (paid' & E' & EV & _). rewrite E' in E. injection E as <-.
    rewrite <- (length_map snd), EV. apply length_rev.
Qed.

(** What is paid besides the fee. *)
Lemma paid_out shares expected :
  NoDup (map fst shares) -> Forall (fun s => 0 < s.2) shares -> sumZ (map snd shares) < 2 ^ 62 ->
  1 <= expected -> in_u 64 expected -> 0 <= pool_fee_of expected <= expected ->
  let S := sumZ (map snd shares) in
  let D := expected - safe_pool_fee pool_fee_of expected in
  exists paid, (if 0 <? D then if 0 <? S then distribute map_order S D (rev (decompose_value D))
                (list_to_map (map (fun s : Share => (s.1, s64 s.2)) shares))
                else Ok (map (fun c => (pool_address, c)) (decompose_value D)) else Ok []) = Ok paid
    /\ sumZ (map snd paid) = D /\ Forall (fun o => is_pow2 o.2 = true) paid
    /\ Forall (fun o => o.1 = pool_address \/ o.1 ∈ map fst shares) paid
    /\ forall s ps c, s ∈ shares -> s.1 <> pool_address -> paid_to fst snd s.1 paid = ps ++ [c] -> S * sumZ ps <= D * (s.2 + 128).
Proof.
  intros HN HP HS HE HU HF S D.
  assert (HDp : 0 <= D < expected) by (unfold D, safe_pool_fee; lia).
  assert (HUD : in_u 64 D) by (unfold in_u in *; lia).
  destruct (Z.ltb_spec 0 D) as [HD|HD].
  2: { exists []. assert (D = 0) as -> by lia. repeat split; try constructor. intros s [|] c _ _ E; discriminate. }
  pose proof (decompose_value_pow2 D HUD) as HPw. destruct (Z.ltb_spec 0 S) as [HS0|HS0].
  - assert (HNe : shares <> []) by (intros E; unfold S in HS0; rewrite E in HS0; cbn in HS0; lia).
    destruct (distribute_shares shares D HN HP HNe HS HD HUD) as (paid & E & EV & EA & EF). exists paid. split; [exact E|].
    split; [rewrite EV, (sumZ_perm _ _ (Permutation_sym (Permutation_rev _))); apply decompose_value_sum, HUD|].
    split; [apply (Forall_map snd (fun v => is_pow2 v = true)); rewrite EV; apply Forall_rev, HPw|].
    split; [eapply Forall_impl; [exact EA|]; auto|]. intros s ps c Hs _ Ep. apply (EF s ps c Hs Ep).
  - exists (map (fun c => (pool_address, c)) (decompose_value D)). split; [reflexivity|].
    split; [rewrite map_map, map_id; apply decompose_value_sum, HUD|]. split; [apply Forall_map; exact HPw|].
    split; [apply Forall_map, Forall_forall; auto|]. intros s ps c _ Hs Ep.
    rewrite paid_to_others in Ep by (apply Forall_map, Forall_forall; intros ? _; cbn; congruence). destruct ps; discriminate.
Qed.

(** C32: a pool's template pays out exactly the reward, and fairly.  For a fee of at most
    the reward the outputs are powers of two that add up to it, the first one is the
    pool's and carries the root of the share tree, the others go to the pool and to
    miners with shares; and no miner gets more than its proportional part of what is
    distributed, 128 shares more and one coin: without the last, smallest coin it is
    given, its payout is within its score and 128 shares. *)
Theorem pool_pays_fairly tree_root shares expected :
  NoDup (map fst shares) -> Forall (fun s => 0 < s.2) shares -> sumZ (map snd shares) < 2 ^ 62 ->
  1 <= expected -> in_u 64 expected -> 0 <= pool_fee_of expected <= expected ->
  let total_score := sumZ (map snd shares) in
  let distributed := expected - safe_pool_fee pool_fee_of expected in
  exists cbs, coinbase_for pool_address pool_fee_of map_order salt_of tree_root shares expected = Ok cbs
  /\ sumZ (map cb_value cbs) = expected /\ Forall (fun cb => is_pow2 (cb_value cb) = true) cbs
  /\ (exists cb rest, cbs = cb :: rest /\ cb_address cb = pool_address /\ cb_salt cb = tree_root)
  /\ Forall (fun cb => cb_address cb = pool_address \/ cb_address cb ∈ map fst shares) cbs
  /\ forall s ps c, s ∈ shares -> s.1 <> pool_address -> paid_to cb_address cb_value s.1 cbs = ps ++ [c] ->
       total_score * sumZ ps <= distributed * (s.2 + 128).
Proof.
  intros HN HP HS HE HU HF S D. unfold coinbase_for. fold S.
  destruct (paid_out shares expected HN HP HS HE HU HF) as (paid & EX & X1 & X2 & X3 & X4). fold S D in EX, X1, X4.
  set (fee := safe_pool_fee pool_fee_of expected) in *.
  assert (HFe : 1 <= fee <= expected) by (unfold fee, safe_pool_fee; lia).
  assert (HUf : in_u 64 fee) by (unfold in_u in *; lia). assert (HUD : in_u 64 D) by (unfold D, in_u in *; lia).
  assert (ED : sat_sub expected fee = D) by (unfold sat_sub, D; lia). rewrite ED.
  rewrite EX.
  cbn [mbind res_bind]. eexists. split; [reflexivity|].
  set (fees := map (fun c => (pool_address, c)) (decompose_value fee)).
  assert (HV : map cb_value (salted_outputs salt_of tree_root (fees ++ paid)) = decompose_value fee ++ map snd paid).
  { rewrite (salted_map _ snd) by reflexivity. unfold fees. rewrite map_app, map_map, map_id. reflexivity. }
  split; [rewrite HV, sumZ_app, X1, decompose_value_sum by exact HUf; unfold D; lia|].
  split; [apply (Forall_map cb_value (fun v => is_pow2 v = true)); rewrite HV; apply Forall_app; split; [apply decompose_value_pow2, HUf|apply Forall_map, X2]|].
  split; [|split].
  - destruct (decompose_value fee) as [|c l] eqn:Ef; [pose proof (decompose_value_sum fee HUf) as E; rewrite Ef in E; cbn in E; lia|].
    unfold fees. cbn. eexists _, _. split; [reflexivity|]. split; reflexivity.
  - apply (Forall_map cb_address (fun a => a = pool_address \/ a ∈ map fst shares)). rewrite (salted_map _ fst) by reflexivity.
    rewrite Forall_map. apply Forall_app. split; [apply Forall_map, Forall_forall; intros; left; reflexivity|exact X3].
  - intros s ps c Hs Hp Ep. rewrite paid_to_salted, paid_to_app in Ep.
    rewrite (paid_to_others fst snd s.1 fees) in Ep; [|apply Forall_map, Forall_forall; intros ? _; cbn; congruence].
    apply (X4 s ps c Hs Hp Ep).
Qed.

End Coinbase.

(** Three miners share 990 of a reward of 1000. *)
Definition three_miners : list Share := [(arr_of 32 [x01], 10); (arr_of 32 [x02], 20); (arr_of 32 [x03], 70)].

Lemma pool_pays_fairly_witness :
  let pool := arr_of 32 [x09] in
  exists cbs, coinbase_for pool (fun e => e / 100) id (fun i => arr_of 32 (le_bytes 8 (Z.of_nat i))) (zero_arr 32) three_miners 1000 = Ok cbs
  /\ sumZ (map cb_value cbs) = 1000.
Proof.
  intros pool.
  destruct (pool_pays_fairly pool (fun e => e / 100) id (fun i => arr_of 32 (le_bytes 8 (Z.of_nat i))) ltac:(reflexivity)
              (zero_arr 32) three_miners 1000) as (cbs & E & ES & _).
  - eapply bool_decide_eq_true_1. vm_compute. reflexivity.
  - repeat (apply Forall_cons_2; [reflexivity|]). apply Forall_nil_2.
  - reflexivity.
  - discriminate.
  - split; [discriminate|reflexivity].
  - split; discriminate.
  - exists cbs. split; [exact E|exact ES].
Defined.

(** * The pool over time *)

Section Time.
Context `{Blake3}.

(** What a block takes off the scores: rows stay positive and do not grow, and those
    that are not paid stay as they are. *)
Lemma deduct_rows coinbase scores scores' : deduct coinbase scores = Ok scores' -> forall a v, scores' !! a = Some v ->
  exists v0, scores !! a = Some v0 /\ (v = v0 \/ 0 < v <= v0).
Proof.
  unfold deduct. destruct (_ && _); [discriminate|]. intros [= <-].
  generalize (sumZ (map snd (map_to_list scores))) (wrap 64 (sumZ (map cb_value coinbase))). intros ts tr.
  revert scores. induction coinbase as [|cb l IH]; intros scores a v E; cbn [foldl] in E; [eauto|].
  destruct (IH _ _ _ E) as (v1 & E1 & H1). unfold deduct_one in E1. destruct (scores !! cb_address cb) as [cur|] eqn:Ec; [|eauto].
  set (d := wrap 64 _) in E1. assert (Hd : 0 <= d) by (apply Z.mod_pos_bound; lia).
  destruct (Z.ltb_spec 0 (sat_sub cur d)) as [Hr|Hr].
  - rewrite lookup_insert in E1. case_decide as HE; [|eauto]. injection E1 as <-. subst a. exists cur. split; [exact Ec|].
    unfold sat_sub in *. lia.
  - rewrite lookup_delete in E1. case_decide; [discriminate|eauto].
Qed.

(** The coinbase of a template of the pool never aborts the deduction. *)
Lemma deduct_Ok coinbase scores : sumZ (map cb_value coinbase) < 2 ^ 64 -> Forall (fun cb => is_pow2 (cb_value cb) = true) coinbase ->
  exists scores', deduct coinbase scores = Ok scores'.
Proof.
  intros HS HP. unfold deduct. destruct coinbase as [|cb l]; [rewrite andb_false_r; eauto|].
  assert (HF : Forall (fun v => 0 < v) (map cb_value (cb :: l))).
  { apply Forall_map. eapply Forall_impl; [exact HP|]. intros c Hc. apply andb_true_iff in Hc as [Hc _]. apply Z.ltb_lt, Hc. }
  apply below_sum in HF. inversion HF as [|? ? Hc _]; subst. rewrite wrap_id by lia.
  rewrite (proj2 (Z.eqb_neq _ _)) by lia. eauto.
Qed.

(** While a job stands and its nonces are kept, a nonce is taken once. *)
Lemma nonce_once id nonce s job s' : submit id nonce s = (inr job, s') -> submit id nonce s' = (inl DuplicateShare, s').
Proof.
  unfold submit. destruct (current_job s) as [j|] eqn:Ej; [|discriminate]. destruct (job_id j =? id) eqn:Ei; [|discriminate].
  case_bool_decide as HN; [discriminate|]. intros [= -> <-]. cbn [current_job valid_shares]. rewrite Ei, bool_decide_true by set_solver. reflexivity.
Qed.

(** A node that names its total once is asked twice. *)
Lemma template_settles pool_address pool_fee_of map_order salt_of node tree_root shares e1 e2 m b c1 c2 :
  coinbase_for pool_address pool_fee_of map_order salt_of tree_root shares e1 = Ok c1 -> node c1 = Expected e2 ->
  coinbase_for pool_address pool_fee_of map_order salt_of tree_root shares e2 = Ok c2 -> node c2 = Template m b ->
  template_loop pool_address pool_fee_of map_order salt_of 2 node tree_root shares e1 = Ok (Some (m, b)).
Proof. intros E1 N1 E2 N2. cbn [template_loop]. rewrite E1. cbn [mbind res_bind]. rewrite N1, E2. cbn [mbind res_bind]. rewrite N2. reflexivity. Qed.

(** ** The audit of an honest pool *)

(** A miner that the pool committed to goes on exactly when the template pays it. *)
Lemma honest_audit shares s batch rest : shares <> [] -> NoDup (map fst shares) -> s ∈ shares -> 0 < s.2 ->
  (exists cb, b_coinbase batch = cb :: rest /\ cb_salt cb = root (tree_build shares)) ->
  exists pd, get_proof (tree_build shares) s.1 = Ok (Some pd)
  /\ audit s.1 (compute_header_hash (batch_header batch)) batch (Some pd)
     = existsb (fun cb => bool_decide (cb_address cb = s.1)) (b_coinbase batch).
Proof.
  intros HN HD Hs Hp (cb & EC & ES). destruct (tree_build_tower shares HN) as (ls & r & EL & HT & ER & HP).
  destruct (proof_of_share shares s HN HD Hs) as (idx & p & E1 & E2).
  eexists. split; [exact E1|]. unfold audit. rewrite bool_decide_true by reflexivity. cbn [andb]. rewrite EC.
  cbn [pd_score pd_index pd_proof]. replace (s.1, s.2) with s by (destruct s; reflexivity). rewrite E2, ES, bool_decide_true by reflexivity.
  rewrite (proj2 (Z.ltb_lt _ _)) by exact Hp. reflexivity.
Qed.

(** A miner with a score and no output leaves, whatever the pool answers with it. *)
Lemma unpaid_miner_leaves payout m_hash batch pd : 0 < pd_score pd -> b_coinbase batch <> [] ->
  ~ (payout ∈ map cb_address (b_coinbase batch)) -> audit payout m_hash batch (Some pd) = false.
Proof.
  intros HS HN HP. unfold audit. destruct (b_coinbase batch) as [|cb l] eqn:EC; [congruence|]. rewrite <- EC in *.
  rewrite (proj2 (Z.ltb_lt _ _)) by exact HS.
  replace (existsb _ _) with false; [rewrite !andb_false_r; reflexivity|]. symmetry. rewrite <- not_true_iff_false, existsb_exists.
  intros (c & Hc & E). apply bool_decide_eq_true in E. apply HP. rewrite <- E. apply list_elem_of_fmap_2, list_elem_of_In, Hc.
Qed.

(** Every element of a constant list. *)
Lemma elem_of_const {A} (x : hash32) (l : list A) b : b ∈ map (fun _ => x) l -> b = x.
Proof. intros (c & -> & _)%list_elem_of_fmap. reflexivity. Qed.

(** A longer list without duplicates has an element that the shorter one has not. *)
Lemma one_left_out (l k : list hash32) : NoDup l -> (length k < length l)%nat -> exists a, a ∈ l /\ ~ (a ∈ k).
Proof.
  intros HN HL. destruct (decide (Exists (fun a => ~ (a ∈ k)) l)) as [HE|HE]; [apply Exists_exists in HE; exact HE|].
  apply not_Exists_Forall in HE; [|apply _]. exfalso.
  assert (HI : l ⊆+ k).
  { apply NoDup_submseteq; [exact HN|]. intros a Ha. rewrite Forall_forall in HE. apply dec_stable, HE, Ha. }
  apply submseteq_length in HI. lia.
Qed.

(** With more miners than coins to distribute, an honest template leaves one of them
    out; it holds a positive score, so it leaves. *)
Lemma some_miner_unpaid pool_address pool_fee_of map_order salt_of tree_root shares expected cbs :
  (forall l, map_order l ≡ₚ l) -> NoDup (map fst shares) -> Forall (fun s => 0 < s.2) shares -> sumZ (map snd shares) < 2 ^ 62 ->
  1 <= expected -> in_u 64 expected -> 0 <= pool_fee_of expected <= expected -> ~ (pool_address ∈ map fst shares) ->
  (length (decompose_value (expected - safe_pool_fee pool_fee_of expected)) < length shares)%nat ->
  coinbase_for pool_address pool_fee_of map_order salt_of tree_root shares expected = Ok cbs ->
  exists s, s ∈ shares /\ ~ (s.1 ∈ map cb_address cbs).
Proof.
  intros HO HN HP HS HE HU HF HA HL EC.
  destruct (paid_miners _ _ _ _ HO _ _ _ _ HN HP HS HE HU HF EC) as (paid & EP & EL).
  destruct (one_left_out (map fst shares) (map fst paid) HN) as (a & Ha & Hna).
  { rewrite !length_map, EL. exact HL. }
  apply list_elem_of_fmap in Ha as Ha'. destruct Ha' as (s & -> & Hs). exists s. split; [exact Hs|].
  rewrite EP. intros [HX|HX]%elem_of_app; [|exact (Hna HX)].
  apply HA. rewrite <- (elem_of_const _ _ _ HX). exact Ha.
Qed.

(** The nonces are forgotten when a new tip is seen, but the old job stands until the
    node has answered: in between, and again at every poll while it does not answer, a
    nonce that was credited is taken again. *)
Lemma nonce_taken_again tip id nonce s job s' : submit id nonce s = (inr job, s') -> last_network_tip s <> Some tip ->
  (submit id nonce (poll (Some tip) s').2).1 = inr job.
Proof.
  unfold submit. destruct (current_job s) as [j|] eqn:Ej; [|discriminate]. destruct (job_id j =? id) eqn:Ei; [|discriminate].
  case_bool_decide as HN; [discriminate|]. intros E HT. assert (j = job) as -> by congruence.
  assert (E' : s' = mkPool (pool_scores s) (Some job) (current_tree s) ({[nonce]} ∪ valid_shares s) (last_network_tip s)
                      (force_new_job s) (job_counter s)) by (rewrite <- Ej; congruence).
  subst s'. clear E. unfold poll. cbn [last_network_tip force_new_job].
  rewrite (bool_decide_false (Some tip = last_network_tip s)) by congruence.
  rewrite (bool_decide_true (is_Some (Some tip))) by eauto. cbn [negb orb andb snd current_job valid_shares]. rewrite Ei.
  rewrite bool_decide_false by apply not_elem_of_empty. reflexivity.
Qed.

End Time.
