(* ===== verification/Swap.v ===== *)
(** The planning of a cross-chain swap and its record: [crates/walletd/src/swap.rs],
    [swapbook.rs] and the transaction that collects a unit, of [service.rs].

    Text is kept as what it encodes: a hex string as its bytes, the empty one as [None], a
    decimal amount as a number; what a check says to the user keeps its label and its fix. *)
From Stdlib Require Import String.
From S2P Require Import Prelude Types Script Transaction Dex.

#[local] Open Scope Z_scope.

(** * Constants *)

Definition BLOCK_SECS : Z := 60.
Definition DRIFT_NUMER : Z := 3.
Definition DRIFT_DENOM : Z := 4.
Definition SETTLE_MARGIN_SECS : Z := 3600.
Definition MIN_SWAP_UNIT : Z := 1024.
Definition SWEEP_MIN_FEE_PER_KB : Z := 10.
Definition SWEEP_FEE_RATE_SCALE : Z := 1024.
Definition SWEEP_BASE_BYTES : Z := 256.
Definition SWEEP_INPUT_BYTES : Z := 128.
Definition SWEEP_WITNESS_BYTES : Z := 96.
Definition SWEEP_PER_OUTPUT_BYTES : Z := 160.
Definition SWEEP_FEE_MARGIN : Z := 20.

Inductive DeadEnd : Type := UnitTooSmall | WindowClosed | NoPreimage.

Inductive SwapError : Type :=
  | DelayOutOfRange | UnsafeTiming | ChannelTooShort | FeeNeverSettles
  | DestinationNotChosen | FieldMissing | PreimageDoesNotOpen | ClaimRefused (e : DexError)
  | BelowMinimum | CannotCoverFee
  | WalletLocked | NodeSyncing | OrderUnknown | UnitUnavailable | UnitTaken | ExpiresTooSoon | NoBaseAccount
  | ZeroAmount | OrderTooSmall | OrderUnaligned | TooManyUnits | EscrowFailed.

(** * The economics of a unit *)

Definition ceil_div (a b : Z) : Z := (a + b - 1) / b.

Definition sweep_reveal_size (script_bytes n_outputs : nat) : Z :=
  wrap 64 (SWEEP_BASE_BYTES + SWEEP_INPUT_BYTES + SWEEP_WITNESS_BYTES + Z.of_nat script_bytes
           + wrap 64 (Z.of_nat n_outputs * SWEEP_PER_OUTPUT_BYTES)).

Definition sweep_fee (script_bytes n_outputs : nat) : Z :=
  let bytes := sweep_reveal_size script_bytes n_outputs in
  let required := wrap 64 (ceil_div (bytes * SWEEP_MIN_FEE_PER_KB) SWEEP_FEE_RATE_SCALE) in
  wrap 64 (required + SWEEP_FEE_MARGIN).

Fixpoint resolve_loop (fuel n_out script_bytes : nat) (value : Z) : res SwapError (Z * list Z) :=
  match fuel with
  | O => Err FeeNeverSettles
  | S fuel =>
      let fee := sweep_fee script_bytes n_out in
      _ ← bail_if (value <=? fee) CannotCoverFee;
      let denoms := decompose_value (value - fee) in
      if Nat.leb (length denoms) n_out then Ok (fee, denoms)
      else resolve_loop fuel (length denoms) script_bytes value
  end.

(** Each round settles or has more outputs, of which there are at most 64. *)
Definition resolve_sweep_fee (script_bytes : nat) (value : Z) : res SwapError (Z * list Z) :=
  resolve_loop 65 1 script_bytes value.

Definition unit_is_tradeable (value : Z) : bool := MIN_SWAP_UNIT <=? value.

(** * The two clocks *)

Inductive Side : Type := BuyMds | SellMds.
Inductive Rail : Type := Submarine | OnChain.

#[export] Instance Side_eq_dec : EqDecision Side.
Proof. solve_decision. Defined.
#[export] Instance Rail_eq_dec : EqDecision Rail.
Proof. solve_decision. Defined.

Record Timings : Type := mkTimings {
  eth_refund_secs : Z;
  tm_eth_deadline : Z;
  tm_mds_timeout_height : Z;
  mds_deadline_est : Z;
  margin_secs : Z
}.

Definition blocks_to_secs_pessimistic (blocks : Z) : Z :=
  wrap 64 (wrap 64 (blocks * BLOCK_SECS) * DRIFT_NUMER) / DRIFT_DENOM.

Definition secs_to_blocks_generous (secs : Z) : Z :=
  let padded := wrap 64 (secs * DRIFT_DENOM) / DRIFT_NUMER in
  ceil_div padded BLOCK_SECS.

Definition check_ordering (reveal_deadline act_deadline : Z) : res SwapError () :=
  bail_if (act_deadline <? wrap 64 (reveal_deadline + SETTLE_MARGIN_SECS)) UnsafeTiming.

Definition plan_timings (now tip_height eth_refund_secs : Z) : res SwapError Timings :=
  _ ← bail_if (negb ((600 <=? eth_refund_secs) && (eth_refund_secs <=? 604800))) DelayOutOfRange;
  let eth_deadline := wrap 64 (now + eth_refund_secs) in
  let needed := wrap 64 (eth_refund_secs + SETTLE_MARGIN_SECS) in
  let mds_timeout_height := wrap 64 (tip_height + secs_to_blocks_generous needed) in
  let est := wrap 64 (now + blocks_to_secs_pessimistic (wrap 64 (mds_timeout_height - tip_height))) in
  _ ← check_ordering eth_deadline est;
  Ok (mkTimings eth_refund_secs eth_deadline mds_timeout_height est (sat_sub est eth_deadline)).

Definition check_channel_lifetime (channel_expiry mds_timeout_height : Z) : res SwapError () :=
  let cushion := secs_to_blocks_generous SETTLE_MARGIN_SECS in
  bail_if (channel_expiry <? wrap 64 (mds_timeout_height + cushion)) ChannelTooShort.

(** * Readiness *)

Record SwapCheck : Type := mkCheck { label : string; ok : bool; ck_fix : option string }.

Definition passed (l : string) : SwapCheck := mkCheck l true None.
Definition failed_check (l f : string) : SwapCheck := mkCheck l false (Some f).

Record Prereqs : Type := mkPrereqs {
  p_side : Side;
  p_rail : Rail;
  p_synced : bool;
  has_evm_key : bool;
  eth_balance_wei : option Z;
  wei_needed : Z;
  mds_spendable : Z;
  mds_needed : Z;
  channel_capacity : option Z;
  channel_expiry : option Z;
  p_mds_timeout_height : Z
}.

Definition check_if (b : bool) (l f : string) : SwapCheck := if b then passed l else failed_check l f.

Definition evaluate (p : Prereqs) : list SwapCheck :=
  [ check_if (p_synced p) "Node synced" "Wait for the sync to finish: swaps depend on seeing locks the moment they land.";
    check_if (has_evm_key p) "Base account" "It predates cross-chain support. Restore from your recovery phrase into a new wallet.";
    match eth_balance_wei p with
    | Some bal => check_if (wei_needed p <=? bal) "ETH available" "Send ETH to your Base account above. Both sides of a swap pay gas."
    | None => failed_check "ETH available" "Check the RPC setting under Connection."
    end ]
  ++ (if decide (p_side p = SellMds) then
        [check_if (mds_needed p <=? mds_spendable p) "MDS available" "Wait for coins to confirm, or defrag on the Coins tab if they are fragmented."]
      else [])
  ++ (if decide (p_rail p = Submarine) then
        match channel_capacity p, channel_expiry p with
        | Some cap, Some exp =>
            [ check_if (mds_needed p <=? cap) "Channel capacity" "Open a larger channel to this peer, or switch to the on-chain rail.";
              match check_channel_lifetime exp (p_mds_timeout_height p) with
              | Ok _ => passed "Channel lifetime"
              | _ => failed_check "Channel lifetime" "Open a channel with a longer lifetime."
              end ]
        | _, _ => [failed_check "Channel to this peer" "Open one on the Channels tab, or switch to the on-chain rail: slower, but it needs no channel."]
        end
      else []).

Definition ready (p : Prereqs) : bool := forallb ok (evaluate p).

(** * The record of a swap *)

Inductive Role : Type := Taker | Maker.

Inductive DoneNote : Type := EthClaimed (tx : hash32) | MdsCollected (value : Z).
Inductive SwapFailure : Type := EscrowReverted | SweepDeadEnd (d : DeadEnd) | LockRefused.

Inductive Phase : Type :=
  | LockingEth (tx : option hash32)
  | EthLocked (swap_id : hash32)
  | ClaimingEth (swap_id : hash32) (tx : option hash32)
  | SweepingMds (preimage : hash32) (commitment : option hash32)
  | ConfirmingMds (commitment : hash32) (sent_height : Z)
  | RefundingEth (swap_id tx : hash32)
  | Done (note : DoneNote)
  | Failed (reason : SwapFailure).

Definition settled (p : Phase) : bool := match p with Done _ | Failed _ => true | _ => false end.

Record Swap : Type := mkSwap {
  sw_id : bytes;
  role : Role;
  secret_hash : hash32;
  preimage : option hash32;
  mds_value : Z;
  sw_wei : Z;
  sw_group_id : bytes;
  max_claim : Z;
  mds_timeout_height : Z;
  refund_pk : option hash32;
  sw_salt : option hash32;
  counterparty_evm : bytes;
  eth_deadline : Z;
  sweep_dest : option hash32;
  covenant_hex : option bytes;
  phase : Phase;
  created : Z;
  updated : Z;
  sweep_retry_at : Z;
  sweep_attempts : Z
}.

(** [s.phase = p; s.updated = now] *)
Definition to_phase (p : Phase) (now : Z) (s : Swap) : Swap :=
  mkSwap (sw_id s) (role s) (secret_hash s) (preimage s) (mds_value s) (sw_wei s) (sw_group_id s) (max_claim s)
    (mds_timeout_height s) (refund_pk s) (sw_salt s) (counterparty_evm s) (eth_deadline s) (sweep_dest s) (covenant_hex s)
    p (created s) now (sweep_retry_at s) (sweep_attempts s).

Definition set_dest (d : hash32) (s : Swap) : Swap :=
  mkSwap (sw_id s) (role s) (secret_hash s) (preimage s) (mds_value s) (sw_wei s) (sw_group_id s) (max_claim s)
    (mds_timeout_height s) (refund_pk s) (sw_salt s) (counterparty_evm s) (eth_deadline s) (Some d) (covenant_hex s)
    (phase s) (created s) (updated s) (sweep_retry_at s) (sweep_attempts s).

Definition set_preimage (x : hash32) (s : Swap) : Swap :=
  mkSwap (sw_id s) (role s) (secret_hash s) (Some x) (mds_value s) (sw_wei s) (sw_group_id s) (max_claim s)
    (mds_timeout_height s) (refund_pk s) (sw_salt s) (counterparty_evm s) (eth_deadline s) (sweep_dest s) (covenant_hex s)
    (phase s) (created s) (updated s) (sweep_retry_at s) (sweep_attempts s).

Definition set_retry (at_ attempts : Z) (s : Swap) : Swap :=
  mkSwap (sw_id s) (role s) (secret_hash s) (preimage s) (mds_value s) (sw_wei s) (sw_group_id s) (max_claim s)
    (mds_timeout_height s) (refund_pk s) (sw_salt s) (counterparty_evm s) (eth_deadline s) (sweep_dest s) (covenant_hex s)
    (phase s) (created s) (updated s) at_ attempts.

Definition active (s : Swap) : bool := negb (settled (phase s)).

Definition should_refund (now : Z) (s : Swap) : bool :=
  match phase s with EthLocked _ => eth_deadline s <=? now | _ => false end.

Definition sweep_due (now : Z) (s : Swap) : bool := sweep_retry_at s <=? now.

Definition defer_sweep (now : Z) (s : Swap) : Swap :=
  let attempts := sat_add 32 (sweep_attempts s) 1 in
  let backoff := Z.min (2 ^ Z.min attempts 8) 300 in
  set_retry (wrap 64 (now + backoff)) attempts s.

Definition sweep_ok (s : Swap) : Swap := set_retry 0 0 s.

(** [find_mut]: the first swap of that id. *)
Fixpoint update_first (id : bytes) (f : Swap -> Swap) (l : list Swap) : list Swap :=
  match l with
  | [] => []
  | s :: l => if decide (sw_id s = id) then f s :: l else s :: update_first id f l
  end.

Definition by_hash (h : hash32) (l : list Swap) : bool := existsb (fun s => bool_decide (secret_hash s = h)) l.

(** * The transaction that collects a unit *)

Record Sweep : Type := mkSweep { sp_inputs : list InputReveal; sp_witnesses : list Witness; sp_outputs : list OutputData; sp_salt : hash32 }.

Section Sweep.
Context `{Blake3}.

Definition sweep_dead_end (sw : Swap) (tip : Z) : option DeadEnd :=
  if negb (unit_is_tradeable (mds_value sw)) then Some UnitTooSmall
  else if mds_timeout_height sw <? tip then Some WindowClosed
  else match preimage sw with None => Some NoPreimage | Some _ => None end.

Definition sweep_input (sw : Swap) (pre salt refund : hash32) : res SwapError (InputReveal * Witness) :=
  match covenant_hex sw with
  | Some bytecode =>
      _ ← bail_if (negb (bool_decide (hash pre = secret_hash sw))) PreimageDoesNotOpen;
      Ok (script_input bytecode (mds_value sw) salt, ScriptInputs [arr_list pre; [x01]])
  | None =>
      match limit_claim_input (secret_hash sw) (max_claim sw) (mds_timeout_height sw) refund (mds_value sw) salt pre with
      | Ok r => Ok r
      | Err e => Err (ClaimRefused e)
      | Panic => Panic
      end
  end.

Definition script_bytes (i : InputReveal) : nat := match in_predicate i with Types.Script bytecode => length bytecode end.

Definition sweep_output (dest pre : hash32) (i : nat) (denom : Z) : OutputData :=
  Standard dest denom (hash (bstr "mds_swap_out_v1" ++ pre ++ le_bytes 4 (Z.of_nat i))).

Definition build_sweep (sw : Swap) : res SwapError Sweep :=
  pre ← ok_or FieldMissing (preimage sw);
  refund ← ok_or FieldMissing (refund_pk sw);
  salt ← ok_or FieldMissing (sw_salt sw);
  dest ← ok_or DestinationNotChosen (sweep_dest sw);
  '(input, witness) ← sweep_input sw pre salt refund;
  _ ← bail_if (negb (unit_is_tradeable (mds_value sw))) BelowMinimum;
  '(_, denoms) ← resolve_sweep_fee (script_bytes input) (mds_value sw);
  Ok (mkSweep [input] [witness] (imap (sweep_output dest pre) denoms) (hash (bstr "mds_swap_sweep_v1" ++ pre))).

Definition sweep_tx (b : Sweep) : Transaction := Reveal (sp_inputs b) (sp_witnesses b) (sp_outputs b) (sp_salt b).

Definition commitment_of_sweep (b : Sweep) : hash32 :=
  compute_commitment (map input_coin_id (sp_inputs b)) (omap output_coin_id (sp_outputs b)) (sp_salt b).

Definition sweep_commitment (sw : Swap) : res SwapError hash32 :=
  b ← build_sweep sw;
  Ok (commitment_of_sweep b).

End Sweep.
