(* ===== verification/SwapWatch.v ===== *)
(** The watcher of swaps, [crates/walletd/src/service.rs]: taking and placing orders, and
    [tick_swaps], which moves every live swap on.

    What the two chains, the clock, the wallet and the disk answer during a tick is its
    environment.  Everything the watcher does to the outside, and every event it reads,
    is appended to [acts], and a save that succeeds becomes [on_disk]. *)
From S2P Require Import Prelude Bytecode Types Script Transaction Dex Swap.

#[local] Open Scope Z_scope.

(** * The data *)

Inductive Event : Type :=
  | Locked (swap_id : hash32) (beneficiary refund_to : arr 20) (amount timeout : Z) (hashlock : hash32)
  | Claimed (swap_id hashlock preimage : hash32)
  | Refunded (swap_id : hash32)
  | BidCreated (bid_id : hash32) (maker : arr 20) (hashlock : hash32) (amount fill_bond mds_amount : Z) (maker_mds_addr : hash32) (expiry : Z)
  | BidReserved (bid_id : hash32) (filler : arr 20) (fill_deadline : Z)
  | BidClaimed (bid_id hashlock preimage : hash32)
  | BidCancelled (bid_id : hash32).

(** The logs of a receipt, those that decode. *)
Record Receipt : Type := mkReceipt { success : bool; logs : list Event }.

Fixpoint find_map {A B} (f : A -> option B) (l : list A) : option B :=
  match l with [] => None | a :: l => match f a with Some b => Some b | None => find_map f l end end.

Definition locked_swap_id (logs : list Event) : option hash32 :=
  find_map (fun e => match e with Locked swap_id _ _ _ _ _ => Some swap_id | _ => None end) logs.

Definition created_bid_id (logs : list Event) : option hash32 :=
  find_map (fun e => match e with BidCreated bid_id _ _ _ _ _ _ _ => Some bid_id | _ => None end) logs.

Record MyOrder : Type := mkOrder {
  o_group_id : bytes;
  o_commitment : hash32;
  o_mds_amount : Z;
  o_wei_amount : Z;
  o_timeout_height : Z;
  o_created_height : Z;
  secrets : list (hash32 * hash32);
  unit_prices : list (Z * Z)
}.

Record MyBid : Type := mkBid {
  b_bid_id : option hash32;
  b_tx : option hash32;
  b_secret_hash : hash32;
  b_secret : hash32;
  b_mds_amount : Z;
  b_wei : Z;
  b_fill_bond : Z;
  b_mds_addr : hash32;
  b_expiry : Z;
  b_created : Z;
  b_cancelled : bool
}.

Record Ask : Type := mkAsk { announcement : MakerAnnouncement; live_units : list nat }.

(** What the watcher does and what it sees. *)
Inductive Act : Type :=
  | ASave (book : list Swap) (written : bool)
  | ALock (hashlock : hash32) (beneficiary : arr 20) (refund_secs wei : Z)
  | ABid (hashlock : hash32) (wei : Z)
  | AClaim (swap_id preimage : hash32)
  | ARefund (at_ : Z) (swap_id : hash32)
  | ACommit (commitment : hash32)
  | AReveal (b : Sweep)
  | ASaw (at_ : Z) (e : Event).

Record Watcher : Type := mkWatcher {
  swaps : list Swap;
  base_cursor : Z;
  dirty : bool;
  orders : list MyOrder;
  my_bids : list MyBid;
  on_disk : list Swap * Z;
  acts : list Act
}.

Record Env : Type := mkEnv {
  now : Z;
  tip : Z;
  evm_key : option (arr 20);
  confirmations : Z;
  base_reachable : bool;
  receipt : hash32 -> option (option Receipt);
  block_number : option Z;
  scan_events : Z -> Z -> option (list (Z * Event));
  claim : hash32 -> hash32 -> option hash32;
  refund : hash32 -> option hash32;
  lock : hash32 -> arr 20 -> Z -> Z -> option hash32;
  create_bid : hash32 -> Z -> hash32 -> Z -> Z -> Z -> option hash32;
  cancel : hash32 -> bool;
  is_syncing : bool;
  height : Z;
  coins : gset hash32;
  asks : list Ask;
  taker_locks : list TakerAnnouncement;
  coins_later : gset hash32;
  check_commitment : hash32 -> bool;
  commit_external : hash32 -> bool;
  send_transaction : Sweep -> bool;
  generate_mss : bytes -> option hash32;
  random32 : nat -> hash32;
  new_id : nat -> bytes;
  written : nat -> bool
}.

Definition with_swaps (l : list Swap) (d : bool) (w : Watcher) : Watcher :=
  mkWatcher l (base_cursor w) d (orders w) (my_bids w) (on_disk w) (acts w).
Definition with_orders (o : list MyOrder) (b : list MyBid) (w : Watcher) : Watcher :=
  mkWatcher (swaps w) (base_cursor w) (dirty w) o b (on_disk w) (acts w).
Definition with_cursor (c : Z) (d : bool) (w : Watcher) : Watcher :=
  mkWatcher (swaps w) c d (orders w) (my_bids w) (on_disk w) (acts w).
Definition act (a : Act) (w : Watcher) : Watcher :=
  mkWatcher (swaps w) (base_cursor w) (dirty w) (orders w) (my_bids w) (on_disk w) (acts w ++ [a]).

(** [SwapBook::save]: a failed write is ignored. *)
Definition save_swaps (e : Env) (w : Watcher) : Watcher :=
  let ok := written e (length (acts w)) in
  mkWatcher (swaps w) (base_cursor w) false (orders w) (my_bids w)
    (if ok then (swaps w, base_cursor w) else on_disk w) (acts w ++ [ASave (swaps w) ok]).

(** [if let Some(s) = find_mut(id) { .. } touch()] *)
Definition touch (id : bytes) (f : Swap -> Swap) (w : Watcher) : Watcher := with_swaps (update_first id f (swaps w)) true w.

(** [swaps.push(..); save()] *)
Definition push (e : Env) (s : Swap) (w : Watcher) : Watcher := save_swaps e (with_swaps (swaps w ++ [s]) (dirty w) w).

(** * The steps of a tick *)

Section Watch.
Context `{Blake3}.
Context (e : Env).

Definition fresh_id (w : Watcher) : bytes := new_id e (length (swaps w)).

(** ** 1. Receipts *)

Definition confirm_lock (w : Watcher) (p : bytes * hash32) : Watcher :=
  match receipt e p.2 with
  | Some (Some r) =>
      if success r then
        match locked_swap_id (logs r) with
        | Some swap_id => touch p.1 (to_phase (EthLocked swap_id) (now e)) w
        | None => w
        end
      else touch p.1 (fun s => to_phase (Failed EscrowReverted) (updated s) s) w
  | _ => w
  end.

Definition confirm_locks (w : Watcher) : Watcher :=
  foldl confirm_lock w (omap (fun s => match phase s with LockingEth (Some tx) => Some (sw_id s, tx) | _ => None end) (swaps w)).

Definition set_bid_id (id : hash32) (b : MyBid) : MyBid :=
  mkBid (Some id) (b_tx b) (b_secret_hash b) (b_secret b) (b_mds_amount b) (b_wei b) (b_fill_bond b) (b_mds_addr b) (b_expiry b)
    (b_created b) (b_cancelled b).

Fixpoint update_bid (p : MyBid -> bool) (f : MyBid -> MyBid) (l : list MyBid) : list MyBid :=
  match l with [] => [] | b :: l => if p b then f b :: l else b :: update_bid p f l end.

Definition confirm_bid (w : Watcher) (p : hash32 * hash32) : Watcher :=
  match receipt e p.1 with
  | Some (Some r) =>
      if success r then
        match created_bid_id (logs r) with
        | Some id => with_orders (orders w) (update_bid (fun b => bool_decide (b_secret_hash b = p.2)) (set_bid_id id) (my_bids w)) w
        | None => w
        end
      else w
  | _ => w
  end.

Definition confirm_bids (w : Watcher) : Watcher :=
  foldl confirm_bid w (omap (fun b => match b_bid_id b, b_tx b with None, Some tx => Some (tx, b_secret_hash b) | _, _ => None end) (my_bids w)).

(** ** 1c. Fills of our bids *)

Definition candidate (t : TakerAnnouncement) (min_payout : Z) : bytes :=
  compile_covenant_htlc (t_secret_hash t) (receiver_addr t) min_payout (t_timeout_height t) (taker_mds_pk t).

(** The first candidate whose address holds the coin. *)
Definition found_script (t : TakerAnnouncement) (bid : MyBid) : option bytes :=
  List.find (fun script => bool_decide (compute_coin_id (hash script) (t_value t) (t_salt t) ∈ coins e))
    (map (candidate t) [t_value t; b_mds_amount bid]).

Definition fill_swap (id : bytes) (t : TakerAnnouncement) (bid : MyBid) (script : bytes) : Swap :=
  mkSwap id Maker (t_secret_hash t) (Some (b_secret bid)) (t_value t) (b_wei bid) (from_option arr_list [] (b_bid_id bid)) (t_value t)
    (t_timeout_height t) (Some (taker_mds_pk t)) (Some (t_salt t)) [] (b_expiry bid) (Some (b_mds_addr bid)) (Some script)
    (SweepingMds (b_secret bid) None) (now e) (now e) 0 0.

Definition fill_one (open_bids : list MyBid) (w : Watcher) (t : TakerAnnouncement) : Watcher :=
  match List.find (fun b => bool_decide (b_secret_hash b = t_secret_hash t)) open_bids with
  | None => w
  | Some bid =>
      if by_hash (t_secret_hash t) (swaps w) then w
      else if negb (bool_decide (receiver_addr t = b_mds_addr bid)) then w
      else if t_value t <? b_mds_amount bid then w
      else match found_script t bid with
           | None => w
           | Some script =>
               if negb (unit_is_tradeable (t_value t)) then w
               else if t_timeout_height t <=? wrap 64 (height e + 3) then w
               else push e (fill_swap (fresh_id w) t bid script) w
           end
  end.

Definition fill_bids (w : Watcher) : Watcher :=
  let open_bids := List.filter (fun b => negb (b_cancelled b) && bool_decide (is_Some (b_bid_id b))) (my_bids w) in
  if Nat.eqb (length open_bids) 0 then w else foldl (fill_one open_bids) w (taker_locks e).

(** ** 2. Events *)

(** The order, the secret and the position of the unit that is locked by [h]. *)
Definition my_unit (h : hash32) (l : list MyOrder) : option (MyOrder * hash32 * nat) :=
  find_map (fun o => match list_find (fun p : hash32 * hash32 => p.1 = h) (secrets o) with
                     | Some (i, (_, secret)) => Some (o, secret, i)
                     | None => None
                     end) l.

(** The units and the price in wei of a unit. *)
Definition unit_price (o : MyOrder) (i : nat) (h : hash32) : Z * Z :=
  match unit_prices o !! i with
  | Some p => p
  | None =>
      match find_map (fun a => if decide (arr_list (m_group_id (announcement a)) = o_group_id o)
                               then Some (List.find (fun u => bool_decide (u_secret_hash u = h)) (units (announcement a))) else None) (asks e) with
      | Some (Some u) => (u_value u, u_wei_amount u)
      | _ => (0, o_wei_amount o / Z.max (Z.of_nat (length (secrets o))) 1)
      end
  end.

Definition claim_swap (id : bytes) (o : MyOrder) (secret h swap_id : hash32) (unit_mds amount timeout : Z) : Swap :=
  mkSwap id Maker h (Some secret) unit_mds amount (o_group_id o) 0 (o_timeout_height o) None None [] timeout None None
    (ClaimingEth swap_id None) (now e) (now e) 0 0.

Definition on_locked (key : arr 20) (swap_id : hash32) (beneficiary : arr 20) (amount timeout : Z) (h : hash32) (w : Watcher) : Watcher :=
  match my_unit h (orders w) with
  | None => w
  | Some (o, secret, i) =>
      if negb (bool_decide (beneficiary = key)) then w
      else if by_hash h (swaps w) then w
      else
        let '(unit_mds, expected) := unit_price o i h in
        if amount <? expected then w
        else if timeout <? wrap 64 (now e + SETTLE_MARGIN_SECS / 2) then w
        else push e (claim_swap (fresh_id w) o secret h swap_id unit_mds amount timeout) w
  end.

Definition locked_in (swap_id : hash32) (s : Swap) : bool :=
  match phase s with EthLocked id => bool_decide (id = swap_id) | _ => false end.

(** The first swap that waits for this escrow learns the preimage. *)
Fixpoint learn_preimage (swap_id pre : hash32) (l : list Swap) : option (list Swap) :=
  match l with
  | [] => None
  | s :: l =>
      if locked_in swap_id s then Some (to_phase (SweepingMds pre None) (now e) (set_preimage pre s) :: l)
      else option_map (cons s) (learn_preimage swap_id pre l)
  end.

Definition on_event (key : arr 20) (w : Watcher) (ev : Z * Event) : Watcher :=
  let w := act (ASaw (now e) ev.2) w in
  match ev.2 with
  | Locked swap_id beneficiary _ amount timeout h => on_locked key swap_id beneficiary amount timeout h w
  | Claimed swap_id _ pre =>
      match learn_preimage swap_id pre (swaps w) with Some l => with_swaps l true w | None => w end
  | _ => w
  end.

Definition read_events (key : arr 20) (w : Watcher) : Watcher :=
  let head := default 0 (block_number e) in
  let safe := sat_sub head (confirmations e) in
  let w := if base_cursor w =? 0 then with_cursor (sat_sub safe 5000) (dirty w) w else w in
  if base_cursor w <? safe then
    let events := default [] (scan_events e (base_cursor w + 1) safe) in
    foldl (on_event key) (with_cursor safe true w) events
  else w.

(** ** 3. Claims *)

Definition send_claim (w : Watcher) (p : bytes * hash32 * hash32) : Watcher :=
  let '(id, swap_id, pre) := p in
  let w := act (AClaim swap_id pre) w in
  match claim e swap_id pre with
  | Some h => touch id (to_phase (Done (EthClaimed h)) (now e)) w
  | None => w
  end.

Definition send_claims (w : Watcher) : Watcher :=
  foldl send_claim w (omap (fun s => match phase s, preimage s with ClaimingEth swap_id None, Some p => Some (sw_id s, swap_id, p) | _, _ => None end)
                        (swaps w)).

(** ** 4. Sweeps *)

Definition deferred (sw : Swap) (w : Watcher) : Watcher := touch (sw_id sw) (defer_sweep (now e)) w.

(** The destination is written before the commitment is sent. *)
Definition begin_sweep (sw : Swap) (w : Watcher) : option hash32 * Watcher :=
  match (match sweep_dest sw with Some d => Some d | None => generate_mss e (sw_id sw) end) with
  | None => (None, w)
  | Some dest =>
      let w := save_swaps e (with_swaps (update_first (sw_id sw) (set_dest dest) (swaps w)) (dirty w) w) in
      match sweep_commitment (set_dest dest sw) with
      | Ok c => (if commit_external e c then Some c else None, act (ACommit c) w)
      | _ => (None, w)
      end
  end.

Definition finish_sweep (sw : Swap) (w : Watcher) : bool * Watcher :=
  match build_sweep sw with
  | Ok b => (send_transaction e b, act (AReveal b) w)
  | _ => (false, w)
  end.

Definition sweep_one (w : Watcher) (sw : Swap) : Watcher :=
  match phase sw with
  | SweepingMds pre commitment =>
      match sweep_dead_end sw (tip e) with
      | Some d => touch (sw_id sw) (to_phase (Failed (SweepDeadEnd d)) (now e)) w
      | None =>
          if negb (sweep_due (now e) sw) then w
          else
            match commitment with
            | None =>
                match begin_sweep sw w with
                | (Some c, w) => touch (sw_id sw) (fun s => Swap.sweep_ok (to_phase (SweepingMds pre (Some c)) (now e) s)) w
                | (None, w) => deferred sw w
                end
            | Some c =>
                if check_commitment e c then
                  match finish_sweep sw w with
                  | (true, w) => touch (sw_id sw) (fun s => Swap.sweep_ok (to_phase (ConfirmingMds c (tip e)) (now e) s)) w
                  | (false, w) => deferred sw w
                  end
                else w
            end
      end
  | _ => w
  end.

Definition is_sweeping (s : Swap) : bool := match phase s with SweepingMds _ _ => true | _ => false end.
Definition is_confirming (s : Swap) : bool := match phase s with ConfirmingMds _ _ => true | _ => false end.

Definition sweep_all (w : Watcher) : Watcher := foldl sweep_one w (List.filter is_sweeping (swaps w)).

(** ** 4b. Confirmations *)

Definition confirm_one (w : Watcher) (sw : Swap) : Watcher :=
  match phase sw, build_sweep sw with
  | ConfirmingMds c sent_height, Ok b =>
      if forallb (fun id => bool_decide (id ∈ coins_later e)) (omap output_coin_id (sp_outputs b)) then
        touch (sw_id sw) (to_phase (Done (MdsCollected (mds_value sw))) (now e)) w
      else if 3 <=? sat_sub (tip e) sent_height then
        match finish_sweep sw w with
        | (true, w) => touch (sw_id sw) (fun s => to_phase (ConfirmingMds c (tip e)) (updated s) s) w
        | (false, w) => w
        end
      else w
  | _, _ => w
  end.

Definition confirm_sweeps (w : Watcher) : Watcher := foldl confirm_one w (List.filter is_confirming (swaps w)).

(** ** 5. Refunds *)

Definition send_refund (w : Watcher) (p : bytes * hash32) : Watcher :=
  let w := act (ARefund (now e) p.2) w in
  match refund e p.2 with
  | Some h => touch p.1 (to_phase (RefundingEth p.2 h) (now e)) w
  | None => w
  end.

Definition send_refunds (w : Watcher) : Watcher :=
  foldl send_refund w (omap (fun s => if should_refund (now e) s then match phase s with EthLocked id => Some (sw_id s, id) | _ => None end else None)
                         (swaps w)).

Definition tick_swaps (w : Watcher) : Watcher :=
  if negb (existsb active (swaps w)) && Nat.eqb (length (orders w)) 0 then w
  else if negb (base_reachable e) then w
  else
    match evm_key e with
    | None => w
    | Some key =>
        let w := fill_bids (confirm_bids (confirm_locks w)) in
        let w := send_claims (read_events key w) in
        let w := send_refunds (confirm_sweeps (sweep_all w)) in
        if dirty w then save_swaps e w else w
    end.

(** * The calls of the user *)

Definition taker_swap (id : bytes) (a : MakerAnnouncement) (u : AnnUnit) (eth_refund : Z) : Swap :=
  mkSwap id Taker (u_secret_hash u) None (u_value u) (u_wei_amount u) (m_group_id a) (u_value u) (m_timeout_height a)
    (Some (maker_mds_pk a)) (Some (u_salt u)) (maker_evm_addr a) (wrap 64 (now e + eth_refund)) None None (LockingEth None)
    (now e) (now e) 0 0.

(** What is checked before any money moves: the unit, and for how long it is escrowed. *)
Definition check_ask (group_id : bytes) (unit : nat) : res SwapError (MakerAnnouncement * AnnUnit * Z) :=
  _ ← bail_if (is_syncing e) NodeSyncing;
  ask ← ok_or OrderUnknown (List.find (fun a => bool_decide (arr_list (m_group_id (announcement a)) = group_id)) (asks e));
  idx ← ok_or UnitUnavailable (live_units ask !! unit);
  u ← ok_or UnitUnavailable (units (announcement ask) !! idx);
  let a := announcement ask in
  _ ← bail_if (negb (unit_is_tradeable (u_value u))) BelowMinimum;
  let addr := limit_order_address (u_secret_hash u) (u_value u) (m_timeout_height a) (maker_mds_pk a) in
  _ ← bail_if (negb (bool_decide (compute_coin_id addr (u_value u) (u_salt u) ∈ coins e))) UnitTaken;
  let mds_secs_left := blocks_to_secs_pessimistic (sat_sub (m_timeout_height a) (height e)) in
  _ ← bail_if (mds_secs_left <=? SETTLE_MARGIN_SECS * 2) ExpiresTooSoon;
  let eth_refund := Z.min (Z.max (mds_secs_left - SETTLE_MARGIN_SECS) 600) 604800 in
  _ ← check_ordering (wrap 64 (now e + eth_refund)) (wrap 64 (now e + mds_secs_left));
  _ ← bail_if (negb (bool_decide (is_Some (evm_key e)) && base_reachable e)) NoBaseAccount;
  Ok (a, u, eth_refund).

(** The swap is recorded before the escrow is sent. *)
Definition take_ask (group_id : bytes) (unit : nat) (w : Watcher) : res SwapError hash32 * Watcher :=
  match check_ask group_id unit with
  | Ok (a, u, eth_refund) =>
      let id := fresh_id w in
      let w := push e (taker_swap id a u eth_refund) w in
      let w := act (ALock (u_secret_hash u) (maker_evm_addr a) eth_refund (u_wei_amount u)) w in
      match lock e (u_secret_hash u) (maker_evm_addr a) eth_refund (u_wei_amount u) with
      | Some h => (Ok h, save_swaps e (with_swaps (update_first id (to_phase (LockingEth (Some h)) (now e)) (swaps w)) (dirty w) w))
      | None => (Err EscrowFailed, save_swaps e (with_swaps (update_first id (fun s => to_phase (Failed LockRefused) (updated s) s) (swaps w)) (dirty w) w))
      end
  | Err err => (Err err, w)
  | Panic => (Panic, w)
  end.

(** ** Placing a sell order *)

(** Each unit's part of the price; the last one takes what rounding left. *)
Fixpoint price_units (mds_amount wei_total allocated : Z) (i : nat) (denoms : list Z) : list AnnUnit :=
  match denoms with
  | [] => []
  | value :: rest =>
      let secret_hash := hash (random32 e (2 * i)) in
      let salt := random32 e (2 * i + 1) in
      match rest with
      | [] => [mkAnnUnit secret_hash salt value (wrap 128 (wei_total - allocated))]
      | _ :: _ =>
          let share := wrap 128 (wei_total * value) / mds_amount in
          mkAnnUnit secret_hash salt value share :: price_units mds_amount wei_total (wrap 128 (allocated + share)) (S i) rest
      end
  end.

Definition order_output (timeout_height : Z) (refund_pk : hash32) (u : AnnUnit) : OutputData :=
  Standard (limit_order_address (u_secret_hash u) (u_value u) timeout_height refund_pk) (u_value u) (u_salt u).

(** The units of a sell order and the outputs that fund them. *)
Definition plan_ask (mds_amount wei_total lifetime_blocks : Z) (refund_pk : hash32) : res SwapError (list AnnUnit * Z * list OutputData) :=
  _ ← bail_if (is_syncing e) NodeSyncing;
  _ ← bail_if ((mds_amount =? 0) || (wei_total =? 0)) ZeroAmount;
  _ ← bail_if (mds_amount <? MIN_SWAP_UNIT) OrderTooSmall;
  _ ← bail_if (negb (mds_amount mod MIN_SWAP_UNIT =? 0)) OrderUnaligned;
  let lifetime := Z.min (Z.max lifetime_blocks 240) 100000 in
  let timeout_height := wrap 64 (height e + lifetime) in
  let denoms := decompose_value mds_amount in
  _ ← bail_if (Nat.ltb 32 (length denoms)) TooManyUnits;
  let us := price_units mds_amount wei_total 0 0 denoms in
  Ok (us, timeout_height, map (order_output timeout_height refund_pk) us).

(** The order that is kept, with its secrets, once the wallet has committed to it. *)
Definition record_ask (group_id : bytes) (commitment : hash32) (mds_amount wei_total timeout_height : Z) (us : list AnnUnit) (w : Watcher) : Watcher :=
  with_orders (orders w ++ [mkOrder group_id commitment mds_amount wei_total timeout_height (height e)
      (imap (fun i u => (u_secret_hash u, random32 e (2 * i))) us) (map (fun u => (u_value u, u_wei_amount u)) us)]) (my_bids w) w.

(** ** Placing and cancelling a buy order *)

(** The secret is recorded before the escrow is sent. *)
Definition place_bid (mds_amount wei ttl_secs bond : Z) (w : Watcher) : res SwapError hash32 * Watcher :=
  if (mds_amount =? 0) || (wei =? 0) then (Err ZeroAmount, w)
  else if negb ((3600 <=? ttl_secs) && (ttl_secs <=? 7776000)) then (Err DelayOutOfRange, w)
  else if negb (bool_decide (is_Some (evm_key e)) && base_reachable e) then (Err NoBaseAccount, w)
  else
    match generate_mss e [] with
    | None => (Err WalletLocked, w)
    | Some mds_addr =>
        let secret := random32 e 0 in
        let bid := fun tx => mkBid None tx (hash secret) secret mds_amount wei bond mds_addr (wrap 64 (now e + ttl_secs)) (now e) false in
        let w1 := act (ABid (hash secret) wei) (with_orders (orders w) (my_bids w ++ [bid None]) w) in
        match create_bid e (hash secret) mds_amount mds_addr ttl_secs bond wei with
        | Some tx => (Ok tx, with_orders (orders w1) (my_bids w ++ [bid (Some tx)]) w1)
        | None => (Err EscrowFailed, w1)
        end
    end.

Definition set_cancelled (b : MyBid) : MyBid :=
  mkBid (b_bid_id b) (b_tx b) (b_secret_hash b) (b_secret b) (b_mds_amount b) (b_wei b) (b_fill_bond b) (b_mds_addr b) (b_expiry b)
    (b_created b) true.

Definition cancel_bid (bid_id : hash32) (w : Watcher) : res SwapError () * Watcher :=
  match List.find (fun b => bool_decide (b_bid_id b = Some bid_id)) (my_bids w) with
  | None => (Err OrderUnknown, w)
  | Some _ =>
      if negb (bool_decide (is_Some (evm_key e)) && base_reachable e) then (Err NoBaseAccount, w)
      else if cancel e bid_id then
        (Ok (), with_orders (orders w) (update_bid (fun b => bool_decide (b_bid_id b = Some bid_id)) set_cancelled (my_bids w)) w)
      else (Err EscrowFailed, w)
  end.

End Watch.

(** The process ends, and the swaps are loaded again; the order book is saved at once
    whenever it changes. *)
Definition restart (w : Watcher) : Watcher :=
  mkWatcher (on_disk w).1 (on_disk w).2 false (orders w) (my_bids w) (on_disk w) (acts w).

(** * A concrete market *)

Definition demo_key : arr 20 := arr_of 20 [x05].
Definition demo_unit `{Blake3} : AnnUnit := mkAnnUnit (hash (arr_of 32 [x07])) (arr_of 32 [x08]) 2048 1000000.
Definition demo_maker `{Blake3} : MakerAnnouncement := mkMaker (arr_of 20 [x06]) (arr_of 32 [x09]) 1300 (arr_of 6 [x01]) [demo_unit].
Definition demo_coin `{Blake3} : hash32 :=
  compute_coin_id (limit_order_address (u_secret_hash demo_unit) 2048 1300 (arr_of 32 [x09])) 2048 (arr_of 32 [x08]).

(** The chain answers that the escrow was mined and, in block 7, claimed. *)
Definition demo_env `{Blake3} : Env := {|
  now := 1000000; tip := 1000; evm_key := Some demo_key; confirmations := 3; base_reachable := true;
  receipt := fun _ => Some (Some (mkReceipt true [Locked (arr_of 32 [x0a]) (arr_of 20 [x06]) demo_key 1000000 1010000 (u_secret_hash demo_unit)]));
  block_number := Some 10; scan_events := fun _ _ => Some [(7, Claimed (arr_of 32 [x0a]) (u_secret_hash demo_unit) (arr_of 32 [x07]))];
  claim := fun _ _ => None; refund := fun _ => None; lock := fun _ _ _ _ => Some (arr_of 32 [x0b]); create_bid := fun _ _ _ _ _ _ => None;
  cancel := fun _ => false; is_syncing := false; height := 1000; coins := {[ demo_coin ]}; asks := [mkAsk demo_maker [0%nat]];
  taker_locks := []; coins_later := ∅; check_commitment := fun _ => true; commit_external := fun _ => true; send_transaction := fun _ => true;
  generate_mss := fun _ => Some (arr_of 32 [x0c]); random32 := fun n => arr_of 32 (le_bytes 4 (Z.of_nat n)); new_id := fun n => replicate n x00;
  written := fun _ => true |}.

(** The watcher that takes the unit and then ticks twice. *)
Definition demo_watcher `{Blake3} : Watcher :=
  tick_swaps demo_env (tick_swaps demo_env (take_ask demo_env (arr_of 6 [x01]) 0 (mkWatcher [] 0 false [] [] ([], 0) [])).2).
