(* ===== verification/SwapSafe.v ===== *)
(** The watcher of swaps is safe: a commitment is only sent when the transaction it
    stands for can be rebuilt from what was saved, and only that transaction is revealed;
    a secret is only published against an escrow that pays for its unit. *)
From S2P Require Import Prelude Bytecode Types Script Transaction Dex Swap SwapWatch.

#[local] Open Scope Z_scope.

(** * Lists of swaps *)

Lemma update_first_ids id f l : (forall s, sw_id (f s) = sw_id s) -> map sw_id (update_first id f l) = map sw_id l.
Proof.
  intros Hf. induction l as [|s l IH]; [reflexivity|]. cbn. destruct (decide (sw_id s = id)); cbn; [rewrite Hf|rewrite IH]; reflexivity.
Qed.

(** What is in an updated list was there, or is the update of a swap of that id. *)
Lemma update_first_elem id f l s : s ∈ update_first id f l -> s ∈ l \/ exists s0, s0 ∈ l /\ sw_id s0 = id /\ s = f s0.
Proof.
  induction l as [|x l IH]; cbn; [auto|]. destruct (decide (sw_id x = id)) as [E|E]; intros [->|HI]%elem_of_cons.
  - right. exists x. split; [left|auto].
  - left. right. exact HI.
  - left. left.
  - destruct (IH HI) as [HL|(s0 & HL & E1 & E2)]; [left; right; exact HL|right; exists s0; split; [right; exact HL|auto]].
Qed.

Lemma update_first_other id f l s : s ∈ l -> sw_id s <> id -> s ∈ update_first id f l.
Proof.
  induction l as [|x l IH]; cbn; [auto|]. intros [->|HI]%elem_of_cons HN.
  - rewrite decide_False by exact HN. left.
  - destruct (decide (sw_id x = id)); right; auto.
Qed.

Lemma update_first_here f l s : s ∈ l -> NoDup (map sw_id l) -> f s ∈ update_first (sw_id s) f l.
Proof.
  induction l as [|x l IH]; cbn; [intros HI; inversion HI|]. intros [->|HI]%elem_of_cons HN.
  - rewrite decide_True by reflexivity. left.
  - inversion_clear HN as [|? ? H1 H2]. rewrite decide_False; [right; auto|].
    intros E. apply H1. rewrite E. apply (list_elem_of_fmap_2 sw_id), HI.
Qed.

Lemma same_id l s s' : NoDup (map sw_id l) -> s ∈ l -> s' ∈ l -> sw_id s = sw_id s' -> s = s'.
Proof.
  intros HN Hs Hs' E. apply list_elem_of_lookup in Hs as [i Hi]. apply list_elem_of_lookup in Hs' as [j Hj].
  pose proof (NoDup_lookup _ i j (sw_id s) HN) as HX. rewrite !list_lookup_fmap, Hi, Hj in HX. cbn in HX. rewrite E in HX.
  specialize (HX eq_refl eq_refl). congruence.
Qed.

(** * The invariant *)

(** What a bid promised: its secret, with its hash, and the amount it buys for an address. *)
Definition bid_terms (b : MyBid) : hash32 * hash32 * Z * hash32 := (b_secret_hash b, b_secret b, b_mds_amount b, b_mds_addr b).
Definition terms (w : Watcher) : list (hash32 * hash32 * Z * hash32) := map bid_terms (my_bids w).

Section Safe.
Context `{Blake3}.
Context (key : arr 20) (seen : gset hash32).

(** The orders of the book: every secret opens its hash, every unit has its price. *)
Definition order_ok (o : MyOrder) : Prop :=
  length (unit_prices o) = length (secrets o) /\ Forall (fun p : hash32 * hash32 => hash p.2 = p.1) (secrets o).

(** An escrow for us that pays for a unit of ours, seen in good time. *)
Definition paid_escrow (trace : list Act) (os : list MyOrder) (swap_id secret : hash32) : Prop :=
  exists at_ refund_to amount timeout h o i m price,
    ASaw at_ (Locked swap_id key refund_to amount timeout h) ∈ trace /\ o ∈ os
    /\ secrets o !! i = Some (h, secret) /\ unit_prices o !! i = Some (m, price)
    /\ hash secret = h /\ price <= amount /\ at_ + SETTLE_MARGIN_SECS / 2 <= timeout.

(** The chain has shown the secret. *)
Definition published (trace : list Act) (secret : hash32) : Prop :=
  exists at_ swap_id h, ASaw at_ (Claimed swap_id h secret) ∈ trace.

(** The fill of a bid of ours: a coin that was in the coin set, of at least the amount that
    the bid buys, under a covenant for the bid's hash that pays the bid's address, and a
    sweep to that address. *)
Definition covered_fill (ts : list (hash32 * hash32 * Z * hash32)) (s : Swap) (secret : hash32) : Prop :=
  exists amount dest script min_payout timeout pk salt,
    (secret_hash s, secret, amount, dest) ∈ ts /\ amount <= mds_value s /\ sweep_dest s = Some dest
    /\ covenant_hex s = Some script /\ script = compile_covenant_htlc (secret_hash s) dest min_payout timeout pk
    /\ sw_salt s = Some salt /\ compute_coin_id (hash script) (mds_value s) salt ∈ seen.

(** The secret of a swap to be swept is no secret any more, or is that of a bid it fills. *)
Definition sweepable (trace : list Act) (ts : list (hash32 * hash32 * Z * hash32)) (s : Swap) : Prop :=
  forall p, preimage s = Some p -> published trace p \/ covered_fill ts s p.

(** A swap whose commitment is sent rebuilds it; a swap to be claimed is paid for. *)
Definition swap_ok (trace : list Act) (os : list MyOrder) (ts : list (hash32 * hash32 * Z * hash32)) (s : Swap) : Prop :=
  match phase s with
  | SweepingMds _ None => sweepable trace ts s
  | SweepingMds _ (Some c) | ConfirmingMds c _ => (sweep_commitment s = Ok c /\ ACommit c ∈ trace) /\ sweepable trace ts s
  | ClaimingEth swap_id None => forall p, preimage s = Some p -> paid_escrow trace os swap_id p
  | _ => True
  end.

(** What an action finds before it. *)
Definition act_ok (os : list MyOrder) (ts : list (hash32 * hash32 * Z * hash32)) (before : list Act) (a : Act) : Prop :=
  match a with
  | AReveal b => ACommit (commitment_of_sweep b) ∈ before
      /\ exists s p, build_sweep s = Ok b /\ preimage s = Some p /\ (published before p \/ covered_fill ts s p)
  | ACommit c => exists before' book written s,
      before = before' ++ [ASave book written] /\ s ∈ book /\ sweep_commitment s = Ok c
  | AClaim swap_id p => paid_escrow before os swap_id p
  | ABid h _ => exists (secret : hash32) (amount : Z) (dest : hash32), (h, secret, amount, dest) ∈ ts /\ hash secret = h
  | ALock h _ _ _ => exists before' book written s,
      before = before' ++ [ASave book written] /\ s ∈ book /\ phase s = LockingEth None /\ secret_hash s = h
  | _ => True
  end.

Definition trace_ok (os : list MyOrder) (ts : list (hash32 * hash32 * Z * hash32)) (trace : list Act) : Prop :=
  forall before a after, trace = before ++ a :: after -> act_ok os ts before a.

Record watcher_ok (w : Watcher) : Prop := {
  ok_ids : NoDup (map sw_id (swaps w));
  ok_disk_ids : NoDup (map sw_id (on_disk w).1);
  ok_swaps : Forall (swap_ok (acts w) (orders w) (terms w)) (swaps w);
  ok_disk : Forall (swap_ok (acts w) (orders w) (terms w)) (on_disk w).1;
  ok_orders : Forall order_ok (orders w);
  ok_trace : trace_ok (orders w) (terms w) (acts w)
}.

(** ** It only grows *)

Lemma paid_escrow_mono t t' os os' sid p : t ⊆ t' -> os ⊆ os' -> paid_escrow t os sid p -> paid_escrow t' os' sid p.
Proof. intros Ht Ho (a & r & am & to & h & o & i & m & pr & H1 & H2 & HR). exists a, r, am, to, h, o, i, m, pr. split; [apply Ht, H1|split; [apply Ho, H2|exact HR]]. Qed.

Lemma sweepable_mono t t' ts ts' s : t ⊆ t' -> ts ⊆ ts' -> sweepable t ts s -> sweepable t' ts' s.
Proof.
  intros Ht Hs HX p E. destruct (HX p E) as [(a & sid & h & HP)|(am & de & sc & mp & ti & pk & sa & HT & HR)].
  - left. exists a, sid, h. apply Ht, HP.
  - right. exists am, de, sc, mp, ti, pk, sa. split; [apply Hs, HT|exact HR].
Qed.

Lemma swap_ok_mono t t' os os' ts ts' s : t ⊆ t' -> os ⊆ os' -> ts ⊆ ts' -> swap_ok t os ts s -> swap_ok t' os' ts' s.
Proof.
  intros Ht Ho Hs. unfold swap_ok. destruct (phase s) as [| |sid [|]|p [c|]|c h| | |]; try tauto.
  - intros HX p E. eapply paid_escrow_mono; eauto.
  - intros [[E HC] HX]. split; [split; [exact E|apply Ht, HC]|eapply sweepable_mono; eassumption].
  - apply sweepable_mono; assumption.
  - intros [[E HC] HX]. split; [split; [exact E|apply Ht, HC]|eapply sweepable_mono; eassumption].
Qed.

Lemma trace_ok_snoc os ts t a : trace_ok os ts t -> act_ok os ts t a -> trace_ok os ts (t ++ [a]).
Proof.
  intros HT Ha b x l E. destruct l as [|y l _] using rev_ind.
  - apply app_inj_tail in E as [-> ->]. exact Ha.
  - rewrite app_comm_cons, app_assoc in E. apply app_inj_tail in E as [E _]. eapply HT, E.
Qed.

Lemma act_ok_mono os os' ts ts' t a : os ⊆ os' -> ts ⊆ ts' -> act_ok os ts t a -> act_ok os' ts' t a.
Proof.
  intros Ho Hs. destruct a; cbn [act_ok]; try tauto.
  - intros (secret & amount & dest & HT & HE). exists secret, amount, dest. split; [apply Hs, HT|exact HE].
  - apply paid_escrow_mono; [reflexivity|exact Ho].
  - intros (HC & s & p & EB & Ep & [HP|(am & de & sc & mp & ti & pk & sa & HT & HR)]); (split; [exact HC|]); exists s, p;
      (split; [exact EB|]); (split; [exact Ep|]); [left; exact HP|].
    right. exists am, de, sc, mp, ti, pk, sa. split; [apply Hs, HT|exact HR].
Qed.

Lemma trace_ok_mono os os' ts ts' t : os ⊆ os' -> ts ⊆ ts' -> trace_ok os ts t -> trace_ok os' ts' t.
Proof. intros Ho Hs HT b a l E. exact (act_ok_mono _ _ _ _ _ _ Ho Hs (HT b a l E)). Qed.

(** ** The primitives keep it *)

Lemma act_keeps a w : watcher_ok w -> act_ok (orders w) (terms w) (acts w) a -> watcher_ok (act a w).
Proof.
  intros [I1 I2 I3 I4 I5 I6] Ha. assert (HS : acts w ⊆ acts w ++ [a]) by (intros x Hx; apply elem_of_app; left; exact Hx).
  split; cbn; try assumption.
  - eapply Forall_impl; [exact I3|]. intros s. apply swap_ok_mono; [exact HS|reflexivity..].
  - eapply Forall_impl; [exact I4|]. intros s. apply swap_ok_mono; [exact HS|reflexivity..].
  - apply trace_ok_snoc; assumption.
Qed.

Lemma save_keeps e w : watcher_ok w -> watcher_ok (save_swaps e w).
Proof.
  intros HW. pose proof (act_keeps (ASave (swaps w) (written e (length (acts w)))) w HW I) as [I1 I2 I3 I4 I5 I6]. cbn in *.
  unfold save_swaps. destruct (written e (length (acts w))); split; cbn; assumption.
Qed.

Lemma with_swaps_keeps l d w : watcher_ok w -> NoDup (map sw_id l) -> Forall (swap_ok (acts w) (orders w) (terms w)) l -> watcher_ok (with_swaps l d w).
Proof. intros [I1 I2 I3 I4 I5 I6] HN HF. split; cbn; assumption. Qed.

Lemma update_keeps id f d w : watcher_ok w -> (forall s, sw_id (f s) = sw_id s) ->
  (forall s, s ∈ swaps w -> sw_id s = id -> swap_ok (acts w) (orders w) (terms w) s -> swap_ok (acts w) (orders w) (terms w) (f s)) ->
  watcher_ok (with_swaps (update_first id f (swaps w)) d w).
Proof.
  intros HW Hf HX. pose proof (ok_swaps w HW) as HF. rewrite Forall_forall in HF. apply with_swaps_keeps; [exact HW| |].
  - rewrite update_first_ids by exact Hf. apply (ok_ids w HW).
  - apply Forall_forall. intros s Hs. apply update_first_elem in Hs as [Hs|(s0 & Hs & E & ->)]; [apply HF, Hs|apply HX; auto].
Qed.

Lemma touch_keeps id f w : watcher_ok w -> (forall s, sw_id (f s) = sw_id s) ->
  (forall s, s ∈ swaps w -> sw_id s = id -> swap_ok (acts w) (orders w) (terms w) s -> swap_ok (acts w) (orders w) (terms w) (f s)) ->
  watcher_ok (touch id f w).
Proof. apply update_keeps. Qed.

Lemma push_keeps e s w : watcher_ok w -> ~ (sw_id s ∈ map sw_id (swaps w)) -> swap_ok (acts w) (orders w) (terms w) s -> watcher_ok (push e s w).
Proof.
  intros HW HN HS. unfold push. apply save_keeps, with_swaps_keeps; [exact HW| |].
  - rewrite map_app. apply NoDup_app. split; [apply (ok_ids w HW)|]. split; [|apply NoDup_singleton].
    intros x Hx Hx'. apply list_elem_of_singleton in Hx' as ->. exact (HN Hx).
  - apply Forall_app. split; [apply (ok_swaps w HW)|]. apply Forall_singleton, HS.
Qed.

Lemma with_orders_keeps os bs w : watcher_ok w -> orders w ⊆ os -> terms w ⊆ map bid_terms bs -> Forall order_ok os ->
  watcher_ok (with_orders os bs w).
Proof.
  intros [I1 I2 I3 I4 I5 I6] HS HT HO. split; cbn; try assumption.
  - eapply Forall_impl; [exact I3|]. intros s. apply swap_ok_mono; [reflexivity|exact HS|exact HT].
  - eapply Forall_impl; [exact I4|]. intros s. apply swap_ok_mono; [reflexivity|exact HS|exact HT].
  - eapply trace_ok_mono; [exact HS|exact HT|exact I6].
Qed.

Lemma update_bid_terms p f l : (forall b, bid_terms (f b) = bid_terms b) -> map bid_terms (update_bid p f l) = map bid_terms l.
Proof. intros Hf. induction l as [|b l IH]; [reflexivity|]. cbn. destruct (p b); cbn; [rewrite Hf|rewrite IH]; reflexivity. Qed.

End Safe.

(** * The steps keep it *)

Section Steps.
Context `{Blake3}.
Context (key : arr 20) (seen : gset hash32) (e : Env).

Definition ids_fresh (w : Watcher) : Prop := forall n, (length (swaps w) <= n)%nat -> ~ (new_id e n ∈ map sw_id (swaps w)).

(** The clock is in range, the account is ours, and random ids do not repeat. *)
Record env_ok : Prop := {
  clock_ok : 0 <= now e < 2 ^ 63;
  key_ok : forall k, evm_key e = Some k -> k = key;
  id_inj : forall n m, new_id e n = new_id e m -> n = m
}.

Context (HE : env_ok).

Definition good (w : Watcher) : Prop := watcher_ok key seen w /\ ids_fresh w.

Lemma foldl_keeps {B} (f : Watcher -> B -> Watcher) l : forall w, good w -> (forall w x, x ∈ l -> good w -> good (f w x)) -> good (foldl f w l).
Proof.
  induction l as [|x l IH]; intros w HW Hf; [exact HW|]. cbn. apply IH; [apply Hf; [left|exact HW]|]. intros w' y Hy. apply Hf. right. exact Hy.
Qed.

(** A step for each swap of a list that leaves the other ones alone. *)
Definition leaves_others (w w' : Watcher) (id : bytes) : Prop := forall x, x ∈ swaps w -> sw_id x <> id -> x ∈ swaps w'.

Lemma foldl_each (f : Watcher -> Swap -> Watcher) l : NoDup (map sw_id l) -> forall w, good w -> (forall s, s ∈ l -> s ∈ swaps w) ->
  (forall w s, s ∈ l -> good w -> s ∈ swaps w -> good (f w s) /\ leaves_others w (f w s) (sw_id s)) -> good (foldl f w l).
Proof.
  intros HN. induction l as [|x l IH]; intros w HW HI Hf; [exact HW|]. cbn in *. inversion_clear HN as [|? ? H1 H2].
  destruct (Hf w x ltac:(left) HW (HI x ltac:(left))) as [G L]. apply IH; [exact H2|exact G| |].
  - intros s Hs. apply L; [apply HI; right; exact Hs|]. intros E. apply H1. rewrite <- E. apply (list_elem_of_fmap_2 sw_id), Hs.
  - intros w' s Hs. apply Hf. right. exact Hs.
Qed.

Lemma filter_ids (p : Swap -> bool) l : NoDup (map sw_id l) -> NoDup (map sw_id (List.filter p l)).
Proof.
  induction l as [|s l IH]; cbn; [auto|]. intros HN. inversion_clear HN as [|? ? H1 H2]. destruct (p s); [|auto]. cbn. apply NoDup_cons. split; [|auto].
  intros HI. apply H1. apply list_elem_of_fmap in HI as (x & -> & Hx). apply list_elem_of_In, filter_In in Hx as [Hx _].
  apply (list_elem_of_fmap_2 sw_id), list_elem_of_In, Hx.
Qed.

Lemma filter_elem (p : Swap -> bool) l s : s ∈ List.filter p l -> s ∈ l /\ p s = true.
Proof. rewrite !list_elem_of_In, filter_In. auto. Qed.

(** ** Primitives *)

Lemma good_act a w : good w -> act_ok key seen (orders w) (terms w) (acts w) a -> good (act a w).
Proof. intros [HW HF] Ha. split; [apply act_keeps; assumption|exact HF]. Qed.

Lemma good_save w : good w -> good (save_swaps e w).
Proof. intros [HW HF]. split; [apply save_keeps, HW|exact HF]. Qed.

Lemma fresh_update id f d w : (forall s, sw_id (f s) = sw_id s) -> ids_fresh w -> ids_fresh (with_swaps (update_first id f (swaps w)) d w).
Proof.
  intros Hf HF n. cbn [with_swaps swaps]. rewrite update_first_ids by exact Hf. intros HL. apply HF.
  rewrite <- (length_map sw_id), update_first_ids, length_map in HL by exact Hf. exact HL.
Qed.

Lemma good_update id f d w : good w -> (forall s, sw_id (f s) = sw_id s) ->
  (forall s, s ∈ swaps w -> sw_id s = id -> swap_ok key seen (acts w) (orders w) (terms w) s -> swap_ok key seen (acts w) (orders w) (terms w) (f s)) ->
  good (with_swaps (update_first id f (swaps w)) d w).
Proof. intros [HW HF] Hf HX. split; [apply update_keeps; assumption|apply fresh_update; assumption]. Qed.

(** A move to a phase that promises nothing. *)
Lemma good_touch id f w : good w -> (forall s, sw_id (f s) = sw_id s) ->
  (forall s t os ts, swap_ok key seen t os ts s -> swap_ok key seen t os ts (f s)) -> good (touch id f w).
Proof. intros HW Hf HX. apply good_update; [exact HW|exact Hf|]. intros s _ _. apply HX. Qed.

Lemma good_push s w : good w -> sw_id s = fresh_id e w -> swap_ok key seen (acts w) (orders w) (terms w) s -> good (push e s w).
Proof.
  intros [HW HF] Es HS. pose proof (HF (length (swaps w)) ltac:(lia)) as HN. split.
  - apply push_keeps; [exact HW|rewrite Es; exact HN|exact HS].
  - intros n. unfold push. cbn [save_swaps with_swaps swaps]. rewrite length_app, map_app. cbn. intros HL HI. apply elem_of_app in HI as [HI|HI].
    + apply (HF n); [lia|exact HI].
    + apply list_elem_of_singleton in HI. rewrite Es in HI. apply (id_inj HE) in HI. lia.
Qed.

Lemma good_orders bs w : good w -> map bid_terms bs = terms w -> good (with_orders (orders w) bs w).
Proof. intros [HW HF] E. split; [|exact HF]. apply with_orders_keeps; [exact HW|reflexivity|rewrite E; reflexivity|apply (ok_orders _ _ _ HW)]. Qed.

(** ** Receipts and fills *)

Lemma good_confirm_locks w : good w -> good (confirm_locks e w).
Proof.
  intros HW. apply foldl_keeps; [exact HW|]. intros w' p _ HW'. clear w HW. rename w' into w, HW' into HW. unfold confirm_lock.
  destruct (receipt e p.2) as [[r|]|]; try exact HW. destruct (success r); [destruct (locked_swap_id (logs r)) as [id|]; [|exact HW]|];
    apply good_touch; try exact HW; try reflexivity; intros; exact I.
Qed.

Lemma good_confirm_bids w : good w -> good (confirm_bids e w).
Proof.
  intros HW. apply foldl_keeps; [exact HW|]. intros w' p _ HW'. clear w HW. rename w' into w, HW' into HW. unfold confirm_bid.
  destruct (receipt e p.1) as [[r|]|]; try exact HW. destruct (success r); [|exact HW].
  destruct (created_bid_id (logs r)); [|exact HW]. apply good_orders; [exact HW|]. apply update_bid_terms. reflexivity.
Qed.

(** What is recorded of a fill is covered. *)
Lemma fill_covered w t bid script : coins e ⊆ seen -> bid_terms bid ∈ terms w -> b_secret_hash bid = t_secret_hash t ->
  receiver_addr t = b_mds_addr bid -> b_mds_amount bid <= t_value t -> found_script e t bid = Some script ->
  swap_ok key seen (acts w) (orders w) (terms w) (fill_swap e (fresh_id e w) t bid script).
Proof.
  intros HS HB Eh Er Hv EF. intros p [= <-]. right.
  unfold found_script in EF. apply find_some in EF as [HI HC]. apply bool_decide_eq_true in HC. apply in_map_iff in HI as (payout & <- & _).
  unfold candidate in *. rewrite Er in *.
  exists (b_mds_amount bid), (b_mds_addr bid), (compile_covenant_htlc (t_secret_hash t) (b_mds_addr bid) payout (t_timeout_height t) (taker_mds_pk t)),
    payout, (t_timeout_height t), (taker_mds_pk t), (t_salt t).
  split; [unfold bid_terms in HB; rewrite Eh in HB; exact HB|]. split; [exact Hv|]. do 4 (split; [reflexivity|]). apply HS, HC.
Qed.

Lemma good_fill_bids w : coins e ⊆ seen -> good w -> good (fill_bids e w).
Proof.
  intros HS HW. unfold fill_bids. cbv zeta. set (open_bids := List.filter _ (my_bids w)).
  assert (HO : forall b, b ∈ open_bids -> bid_terms b ∈ terms w).
  { intros b Hb. apply list_elem_of_In, filter_In in Hb as [Hb _]. apply list_elem_of_fmap_2, list_elem_of_In, Hb. }
  destruct (Nat.eqb _ 0); [exact HW|]. generalize dependent open_bids. intros bids HO.
  enough (HG : good (foldl (fill_one e bids) w (taker_locks e)) /\ terms (foldl (fill_one e bids) w (taker_locks e)) = terms w) by apply HG.
  generalize (taker_locks e) as l. induction l as [|t l IH] using rev_ind; [split; [exact HW|reflexivity]|].
  rewrite foldl_snoc. destruct IH as [IH ET]. set (w' := foldl _ _ _) in *. rewrite <- ET. rewrite <- ET in HO.
  unfold fill_one. destruct (List.find _ _) as [bid|] eqn:EB; [|auto]. destruct (by_hash _ _); [auto|].
  case_bool_decide as Er; [cbn [negb]|auto].
  destruct (Z.ltb_spec (t_value t) (b_mds_amount bid)) as [|Hv]; [auto|].
  destruct (found_script e t bid) as [script|] eqn:EF; [|auto]. destruct (negb _); [auto|].
  destruct (_ <=? _); [auto|]. split; [|reflexivity]. apply find_some in EB as [HB Eh]. apply bool_decide_eq_true in Eh.
  apply good_push; [exact IH|reflexivity|]. apply fill_covered; auto. apply HO, list_elem_of_In, HB.
Qed.

(** ** Events *)

Lemma find_map_Some {A B} (f : A -> option B) l b : find_map f l = Some b -> exists a, a ∈ l /\ f a = Some b.
Proof.
  induction l as [|a l IH]; [discriminate|]. cbn. destruct (f a) as [b'|] eqn:E.
  - intros [= <-]. exists a. split; [left|exact E].
  - intros Eb. destruct (IH Eb) as (a' & Ha & E'). exists a'. split; [right; exact Ha|exact E'].
Qed.

Lemma my_unit_Some h os o secret i : my_unit h os = Some (o, secret, i) -> o ∈ os /\ secrets o !! i = Some (h, secret).
Proof.
  intros E. apply find_map_Some in E as (o' & Ho & E). destruct (list_find _ _) as [[j [h' s']]|] eqn:EF; [|discriminate].
  injection E as -> -> ->. apply list_find_Some in EF as (EL & Eh & _). cbn in Eh. subst h'. auto.
Qed.

Lemma good_on_locked at_ swap_id r amount timeout h w : good w -> at_ = now e ->
  forall b, ASaw at_ (Locked swap_id b r amount timeout h) ∈ acts w -> good (on_locked e key swap_id b amount timeout h w).
Proof.
  intros HW -> b HI. unfold on_locked. destruct (my_unit h (orders w)) as [[[o secret] i]|] eqn:EU; [|exact HW].
  apply my_unit_Some in EU as [Ho ES]. case_bool_decide as Eb; [cbn [negb]; subst b|exact HW].
  destruct (by_hash h (swaps w)); [exact HW|]. destruct (unit_price e o i h) as [m price] eqn:EP.
  destruct (Z.ltb_spec amount price) as [|Ha]; [exact HW|].
  pose proof (clock_ok HE) as HC. change (SETTLE_MARGIN_SECS / 2) with 1800. rewrite wrap_id by lia.
  destruct (Z.ltb_spec timeout (now e + 1800)) as [|Ht]; [exact HW|].
  apply good_push; [exact HW|reflexivity|]. intros p [= <-].
  pose proof (ok_orders _ _ _ (proj1 HW)) as HO. rewrite Forall_forall in HO. destruct (HO o Ho) as [HL HH].
  destruct (unit_prices o !! i) as [[m' price']|] eqn:EPr.
  - unfold unit_price in EP. rewrite EPr in EP. injection EP as -> ->.
    exists (now e), r, amount, timeout, h, o, i, m, price. repeat (split; [eassumption|]).
    rewrite Forall_lookup in HH. split; [apply (HH _ _ ES)|]. split; [exact Ha|exact Ht].
  - apply lookup_ge_None in EPr. apply lookup_lt_Some in ES. lia.
Qed.

Lemma learn_preimage_Some sid pre l l' : learn_preimage e sid pre l = Some l' -> map sw_id l' = map sw_id l
  /\ forall s, s ∈ l' -> s ∈ l \/ (exists c, phase s = SweepingMds c None) /\ preimage s = Some pre.
Proof.
  revert l'. induction l as [|x l IH]; [discriminate|]. intros l' E. cbn in E. destruct (locked_in sid x).
  - injection E as <-. split; [reflexivity|]. intros s [->|Hs]%elem_of_cons; [right; split; [eexists; reflexivity|reflexivity]|left; right; exact Hs].
  - destruct (learn_preimage e sid pre l) as [k|]; [|discriminate]. injection E as <-. destruct (IH _ eq_refl) as [E1 E2].
    split; [cbn; rewrite E1; reflexivity|]. intros s [->|Hs]%elem_of_cons; [left; left|]. destruct (E2 s Hs) as [HL|HR]; [left; right; exact HL|right; exact HR].
Qed.

Lemma good_on_event w ev : good w -> good (on_event e key w ev).
Proof.
  intros HW. unfold on_event. destruct ev as [blk ev]. cbn [snd].
  assert (HG : good (act (ASaw (now e) ev) w)) by (apply good_act; [exact HW|exact I]).
  destruct ev; try exact HG.
  - eapply good_on_locked; [exact HG|reflexivity|]. cbn. apply elem_of_app. right. left.
  - destruct (learn_preimage e _ _ _) as [l|] eqn:EL; [|exact HG]. apply learn_preimage_Some in EL as [E1 E2]. destruct HG as [HG HF].
    assert (HPub : published (acts (act (ASaw (now e) (Claimed swap_id hashlock preimage)) w)) preimage)
      by (do 3 eexists; cbn; apply elem_of_app; right; left).
    split.
    + apply with_swaps_keeps; [exact HG|rewrite E1; apply (ok_ids _ _ _ HG)|]. apply Forall_forall. intros s Hs.
      destruct (E2 s Hs) as [HL|[(c & EC) EP]]; [|unfold swap_ok; rewrite EC; intros p Ep; left; congruence].
      pose proof (ok_swaps _ _ _ HG) as HX. rewrite Forall_forall in HX. apply HX, HL.
    + intros n. cbn [with_swaps swaps]. rewrite E1. intros HL. apply HF. rewrite <- (length_map sw_id), E1, length_map in HL. exact HL.
Qed.

Lemma good_cursor c d w : good w -> good (with_cursor c d w).
Proof. intros [[I1 I2 I3 I4 I5 I6] HF]. split; [split; assumption|exact HF]. Qed.

Lemma good_read_events w : good w -> good (read_events e key w).
Proof.
  intros HW. unfold read_events. cbv zeta. set (w1 := if base_cursor w =? 0 then _ else w).
  assert (HG : good w1) by (unfold w1; destruct (_ =? 0); [apply good_cursor|]; exact HW).
  destruct (_ <? _); [|exact HG]. apply foldl_keeps; [apply good_cursor, HG|]. intros w' ev _. apply good_on_event.
Qed.

(** ** Claims and refunds *)

Lemma good_send_claims w : good w -> good (send_claims e w).
Proof.
  intros HW. unfold send_claims.
  assert (HJ : forall p, p ∈ omap (fun s => match phase s, preimage s with ClaimingEth swap_id None, Some p => Some (sw_id s, swap_id, p) | _, _ => None end) (swaps w) ->
                 paid_escrow key (acts w) (orders w) p.1.2 p.2).
  { intros [[id sid] p] Hp. apply list_elem_of_omap in Hp as (s & Hs & E). destruct (phase s) as [| |sid' [|]| | | | |] eqn:EP; try discriminate.
    destruct (preimage s) as [p'|] eqn:Ep; [|discriminate]. injection E as <- <- <-.
    pose proof (ok_swaps _ _ _ (proj1 HW)) as HX. rewrite Forall_forall in HX. specialize (HX s Hs). unfold swap_ok in HX. rewrite EP in HX. apply HX, Ep. }
  revert HJ. generalize (omap (fun s => match phase s, preimage s with ClaimingEth swap_id None, Some p => Some (sw_id s, swap_id, p) | _, _ => None end) (swaps w)).
  intros l. revert w HW. induction l as [|[[id sid] p] l IH]; intros w HW HJ; [exact HW|]. cbn [foldl].
  assert (HG : good (send_claim e w (id, sid, p)) /\ acts w ⊆ acts (send_claim e w (id, sid, p)) /\ orders w = orders (send_claim e w (id, sid, p))).
  { unfold send_claim. assert (HA : good (act (AClaim sid p) w)) by (apply good_act; [exact HW|apply (HJ (id, sid, p)); left]).
    destruct (claim e sid p); (split; [|split; [intros x Hx; cbn; apply elem_of_app; left; exact Hx|reflexivity]]); [|exact HA].
    apply good_touch; [exact HA|reflexivity|intros; exact I]. }
  destruct HG as (G1 & G2 & G3). apply IH; [exact G1|]. intros q Hq. eapply paid_escrow_mono; [exact G2|rewrite <- G3; intros x Hx; exact Hx|].
  apply HJ. right. exact Hq.
Qed.

Lemma good_send_refunds w : good w -> good (send_refunds e w).
Proof.
  intros HW. apply foldl_keeps; [exact HW|]. intros w' p _ HW'. clear w HW. rename w' into w, HW' into HW. unfold send_refund.
  assert (HA : good (act (ARefund (now e) p.2) w)) by (apply good_act; [exact HW|exact I]).
  destruct (refund e p.2); [|exact HA]. apply good_touch; [exact HA|reflexivity|intros; exact I].
Qed.

(** ** Sweeps *)

Lemma commit_same (s s' : Swap) : (forall b, build_sweep s = Ok b -> build_sweep s' = Ok b) -> forall c, sweep_commitment s = Ok c -> sweep_commitment s' = Ok c.
Proof. intros HX c E. unfold sweep_commitment in *. destruct (build_sweep s) as [b| |]; [|discriminate..]. rewrite (HX b eq_refl). exact E. Qed.

Lemma good_deferred sw w : good w -> good (deferred e sw w).
Proof. intros HW. apply good_touch; [exact HW|reflexivity|]. intros s t os ts HS. exact HS. Qed.

Lemma begin_sweep_good sw w : good w -> sw ∈ swaps w -> is_sweeping sw = true ->
  good (begin_sweep e sw w).2 /\ leaves_others w (begin_sweep e sw w).2 (sw_id sw)
  /\ forall c, (begin_sweep e sw w).1 = Some c -> ACommit c ∈ acts (begin_sweep e sw w).2
       /\ forall s, s ∈ swaps (begin_sweep e sw w).2 -> sw_id s = sw_id sw -> sweep_commitment s = Ok c
            /\ sweepable seen (acts (begin_sweep e sw w).2) (terms (begin_sweep e sw w).2) s.
Proof.
  intros HW Hs HP. unfold begin_sweep. destruct (match sweep_dest sw with Some d => Some d | None => generate_mss e (sw_id sw) end) as [dest|] eqn:ED.
  2: { split; [exact HW|]. split; [intros x Hx _; exact Hx|discriminate]. }
  set (l := update_first (sw_id sw) (set_dest dest) (swaps w)). pose proof (ok_ids _ _ _ (proj1 HW)) as HN.
  assert (HG : good (with_swaps l (dirty w) w)).
  { apply good_update; [exact HW|reflexivity|]. intros s HI E HS. pose proof (same_id _ _ _ HN HI Hs E) as ->.
    destruct (sweep_dest sw) as [d|] eqn:Ed.
    { injection ED as ->. replace (set_dest dest sw) with sw; [exact HS|]. unfold set_dest. rewrite <- Ed. destruct sw; reflexivity. }
    assert (HX : sweepable seen (acts w) (terms w) sw -> sweepable seen (acts w) (terms w) (set_dest dest sw)).
    { intros HX q Eq. destruct (HX q Eq) as [HP'|HP']; [left; exact HP'|]. destruct HP' as (am & de & sc & mp & ti & pk & sa & _ & _ & Ed' & _). congruence. }
    unfold swap_ok in *. cbn [set_dest phase]. unfold is_sweeping in HP. destruct (phase sw) as [| | |p [c|]| | | |] eqn:EP; try discriminate HP.
    - destruct HS as [[ES HC] HO]. exfalso. unfold sweep_commitment, build_sweep in ES. rewrite Ed in ES. repeat ok_step. discriminate.
    - apply HX, HS. }
  assert (HL : forall x, x ∈ swaps w -> sw_id x <> sw_id sw -> x ∈ l) by (intros; apply update_first_other; assumption).
  destruct (sweep_commitment (set_dest dest sw)) as [c| |] eqn:EC.
  - cbn [fst snd]. split; [|split; [exact HL|]].
    + apply good_act; [apply good_save, HG|]. exists (acts w), l, (written e (length (acts w))), (set_dest dest sw).
      split; [reflexivity|]. split; [apply update_first_here; assumption|exact EC].
    + intros c'. destruct (commit_external e c); [|discriminate]. intros [= <-]. split; [cbn; apply elem_of_app; right; left|].
      intros s Hs' E. change (s ∈ l) in Hs'. assert (s = set_dest dest sw) as ->.
      { eapply same_id; [|exact Hs'|apply update_first_here; assumption|exact E]. unfold l. rewrite update_first_ids by reflexivity. exact HN. }
      split; [exact EC|]. eapply (sweepable_mono _ (acts w)); [|reflexivity|].
      * intros x Hx. cbn. apply elem_of_app. left. apply elem_of_app. left. exact Hx.
      * pose proof (ok_swaps _ _ _ (proj1 HG)) as HX. rewrite Forall_forall in HX. specialize (HX _ Hs').
        unfold swap_ok in HX. cbn [set_dest phase] in HX. unfold is_sweeping in HP. destruct (phase sw) as [| | |p [c0|]| | | |]; try discriminate HP; apply HX.
  - split; [apply good_save, HG|]. split; [exact HL|discriminate].
  - split; [apply good_save, HG|]. split; [exact HL|discriminate].
Qed.

Lemma touch_leaves id f w : leaves_others w (touch id f w) id.
Proof. intros x Hx E. apply update_first_other; assumption. Qed.

Lemma finish_sweep_good sw w c : good w -> sweep_commitment sw = Ok c -> ACommit c ∈ acts w -> sweepable seen (acts w) (terms w) sw ->
  good (finish_sweep e sw w).2 /\ swaps (finish_sweep e sw w).2 = swaps w /\ acts w ⊆ acts (finish_sweep e sw w).2
  /\ terms (finish_sweep e sw w).2 = terms w.
Proof.
  intros HW E HC HX. unfold finish_sweep. unfold sweep_commitment in E. destruct (build_sweep sw) as [b| |] eqn:EB; [|discriminate..].
  injection E as <-. split; [|split; [reflexivity|split; [intros x Hx; cbn; apply elem_of_app; left; exact Hx|reflexivity]]].
  apply good_act; [exact HW|]. split; [exact HC|]. assert (EP : exists p, preimage sw = Some p).
  { clear -EB. unfold build_sweep in EB. destruct (preimage sw); [eauto|discriminate]. }
  destruct EP as [p Ep]. exists sw, p. split; [exact EB|]. split; [exact Ep|apply HX, Ep].
Qed.

(** A swap whose commitment is sent goes on to another phase of the same commitment. *)
Lemma good_advance id f w c : good w -> (forall s, sw_id (f s) = sw_id s) ->
  (forall s, phase (f s) = ConfirmingMds c (tip e) \/ exists p, phase (f s) = SweepingMds p (Some c)) ->
  (forall s, s ∈ swaps w -> sw_id s = id -> sweep_commitment (f s) = Ok c /\ sweepable seen (acts w) (terms w) (f s)) ->
  ACommit c ∈ acts w -> good (touch id f w).
Proof.
  intros HW Hf HP HS HC. apply good_update; [exact HW|exact Hf|]. intros s Hs E _. destruct (HS s Hs E) as [H1 H2].
  unfold swap_ok. destruct (HP s) as [->|[p ->]]; auto.
Qed.

Lemma good_sweep_one w sw : good w -> sw ∈ swaps w -> good (sweep_one e w sw) /\ leaves_others w (sweep_one e w sw) (sw_id sw).
Proof.
  intros HW Hs. unfold sweep_one.
  assert (H0 : good w /\ leaves_others w w (sw_id sw)) by (split; [exact HW|intros x Hx _; exact Hx]).
  destruct (phase sw) as [| | |pre commitment| | | |] eqn:EP; try exact H0.
  destruct (sweep_dead_end sw (tip e)) as [d|].
  { split; [apply good_touch; [exact HW|reflexivity|intros; exact I]|apply touch_leaves]. }
  destruct (negb _); [exact H0|]. destruct commitment as [c|].
  - destruct (check_commitment e c); [|exact H0].
    pose proof (ok_swaps _ _ _ (proj1 HW)) as HX. rewrite Forall_forall in HX. specialize (HX sw Hs). unfold swap_ok in HX. rewrite EP in HX.
    destruct HX as [[ES HC] HO]. destruct (finish_sweep_good sw w c HW ES HC HO) as (G & E1 & E2 & E3).
    destruct (finish_sweep e sw w) as [[] w1] eqn:EF; cbn [snd] in *.
    + split; [|intros x Hx HN; apply touch_leaves; [rewrite E1; exact Hx|exact HN]].
      apply (good_advance _ _ _ c); [exact G|reflexivity|left; reflexivity| |apply E2, HC].
      intros s Hs' E. rewrite E1 in Hs'. rewrite (same_id _ _ _ (ok_ids _ _ _ (proj1 HW)) Hs' Hs E). split; [exact ES|]. rewrite E3. exact (sweepable_mono _ _ _ _ _ sw E2 (fun x Hx => Hx) HO).
    + split; [apply good_deferred, G|]. intros x Hx HN. apply touch_leaves; [rewrite E1; exact Hx|exact HN].
  - destruct (begin_sweep_good sw w HW Hs) as (G & L & HC); [unfold is_sweeping; rewrite EP; reflexivity|].
    destruct (begin_sweep e sw w) as [[c|] w1]; cbn [fst snd] in *.
    + destruct (HC c eq_refl) as [H1 H2]. split; [|intros x Hx HN; apply touch_leaves; [apply L; assumption|exact HN]].
      apply (good_advance _ _ _ c); [exact G|reflexivity|right; exists pre; reflexivity|exact H2|exact H1].
    + split; [apply good_deferred, G|]. intros x Hx HN. apply touch_leaves; [apply L; assumption|exact HN].
Qed.

Lemma good_confirm_one w sw : good w -> sw ∈ swaps w -> good (confirm_one e w sw) /\ leaves_others w (confirm_one e w sw) (sw_id sw).
Proof.
  intros HW Hs. unfold confirm_one.
  assert (H0 : good w /\ leaves_others w w (sw_id sw)) by (split; [exact HW|intros x Hx _; exact Hx]).
  destruct (phase sw) as [| | | |c sent| | |] eqn:EP; try exact H0. destruct (build_sweep sw) as [b| |]; try exact H0.
  destruct (forallb _ _).
  { split; [apply good_touch; [exact HW|reflexivity|intros; exact I]|apply touch_leaves]. }
  destruct (_ <=? _); [|exact H0].
  pose proof (ok_swaps _ _ _ (proj1 HW)) as HX. rewrite Forall_forall in HX. specialize (HX sw Hs). unfold swap_ok in HX. rewrite EP in HX.
  destruct HX as [[ES HC] HO]. destruct (finish_sweep_good sw w c HW ES HC HO) as (G & E1 & E2 & E3).
  destruct (finish_sweep e sw w) as [[] w1] eqn:EF; cbn [snd] in *.
  - split; [|intros x Hx HN; apply touch_leaves; [rewrite E1; exact Hx|exact HN]].
    apply (good_advance _ _ _ c); [exact G|reflexivity|left; reflexivity| |apply E2, HC].
    intros s Hs' E. rewrite E1 in Hs'. rewrite (same_id _ _ _ (ok_ids _ _ _ (proj1 HW)) Hs' Hs E). split; [exact ES|]. rewrite E3. exact (sweepable_mono _ _ _ _ _ sw E2 (fun x Hx => Hx) HO).
  - split; [exact G|]. intros x Hx _. rewrite E1. exact Hx.
Qed.

Lemma good_tick w : coins e ⊆ seen -> good w -> good (tick_swaps e w).
Proof.
  intros HSe HW. unfold tick_swaps. destruct (_ && _); [exact HW|]. destruct (negb _); [exact HW|].
  destruct (evm_key e) as [k|] eqn:EK; [|exact HW]. apply (key_ok HE) in EK as ->.
  set (w1 := fill_bids e (confirm_bids e (confirm_locks e w))).
  assert (G1 : good w1) by (apply good_fill_bids; [exact HSe|]; apply good_confirm_bids, good_confirm_locks, HW).
  set (w2 := send_claims e (read_events e key w1)).
  assert (G2 : good w2) by (apply good_send_claims, good_read_events, G1).
  assert (G3 : good (sweep_all e w2)).
  { apply foldl_each; [apply filter_ids, (ok_ids _ _ _ (proj1 G2))|exact G2|intros s Hs; apply (filter_elem _ _ _ Hs)|].
    intros w' s _ G Hs. apply good_sweep_one; assumption. }
  assert (G4 : good (confirm_sweeps e (sweep_all e w2))).
  { apply foldl_each; [apply filter_ids, (ok_ids _ _ _ (proj1 G3))|exact G3|intros s Hs; apply (filter_elem _ _ _ Hs)|].
    intros w' s _ G Hs. apply good_confirm_one; assumption. }
  cbv zeta. fold w2. pose proof (good_send_refunds _ G4) as G5. destruct (dirty _); [apply good_save|]; exact G5.
Qed.

(** ** The calls of the user *)

Lemma good_take_ask group_id unit w : good w -> good (take_ask e group_id unit w).2.
Proof.
  intros HW. unfold take_ask. destruct (check_ask e group_id unit) as [[[a u] r]| |]; try exact HW.
  set (s := taker_swap e (fresh_id e w) a u r). assert (HP : good (push e s w)) by (apply good_push; [exact HW|reflexivity|exact I]).
  assert (HA : good (act (ALock (u_secret_hash u) (maker_evm_addr a) r (u_wei_amount u)) (push e s w))).
  { apply good_act; [exact HP|]. exists (acts w), (swaps w ++ [s]), (written e (length (acts w))), s.
    split; [reflexivity|]. split; [apply elem_of_app; right; left|auto]. }
  destruct (lock e _ _ _ _); cbn [snd]; apply good_save, good_update; try exact HA; try reflexivity; intros; exact I.
Qed.

Lemma price_units_hashes mds wei denoms : forall alloc i j u, price_units e mds wei alloc i denoms !! j = Some u ->
  u_secret_hash u = hash (random32 e (2 * (i + j))).
Proof.
  induction denoms as [|v rest IH]; intros alloc i j u E; [discriminate|]. cbn [price_units] in E. destruct rest as [|v' rest].
  - destruct j as [|j]; [|discriminate]. injection E as <-. cbn [u_secret_hash]. do 3 f_equal. lia.
  - destruct j as [|j]; [injection E as <-; cbn [u_secret_hash]; (do 3 f_equal); lia|]. cbn [lookup list_lookup] in E.
    rewrite (IH _ _ _ _ E). do 3 f_equal. lia.
Qed.

End Steps.

(** The calls that add no swap ask nothing of the environment. *)
Section Orders.
Context `{Blake3}.
Context (key : arr 20) (seen : gset hash32) (e : Env).

Lemma with_bids_keeps bs w : watcher_ok key seen w -> terms w ⊆ map bid_terms bs -> watcher_ok key seen (with_orders (orders w) bs w).
Proof. intros HW HT. apply with_orders_keeps; [exact HW|reflexivity|exact HT|apply (ok_orders _ _ _ HW)]. Qed.

Lemma record_ask_keeps group_id commitment mds wei lifetime refund_pk us th outs w : watcher_ok key seen w ->
  plan_ask e mds wei lifetime refund_pk = Ok (us, th, outs) -> watcher_ok key seen (record_ask e group_id commitment mds wei th us w).
Proof.
  intros HW E. apply with_orders_keeps; [exact HW|intros x Hx; apply elem_of_app; left; exact Hx|reflexivity|].
  apply Forall_app. split; [apply (ok_orders _ _ _ HW)|]. apply Forall_singleton. split; cbn [unit_prices secrets].
  - rewrite length_map, length_imap. reflexivity.
  - unfold plan_ask in E. repeat ok_step. apply Forall_lookup. intros i p Ep. rewrite list_lookup_imap in Ep.
    match type of Ep with context [?l !! i] => destruct (l !! i) as [u|] eqn:EU; [|discriminate] end. injection Ep as <-.
    cbn [fst snd]. match goal with EP : price_units _ _ _ _ _ _ = us |- _ => rewrite <- EP in EU end.
    rewrite (price_units_hashes _ _ _ _ _ _ _ _ EU). reflexivity.
Qed.

Lemma place_bid_keeps mds wei ttl bond w : watcher_ok key seen w -> watcher_ok key seen (place_bid e mds wei ttl bond w).2.
Proof.
  intros HW. unfold place_bid. destruct (_ || _); [exact HW|]. destruct (negb _); [exact HW|]. destruct (negb _); [exact HW|].
  destruct (generate_mss e []) as [d|]; [|exact HW]. cbv zeta.
  assert (HT : forall b, terms w ⊆ map bid_terms (my_bids w ++ [b])) by (intros b x Hx; rewrite map_app; apply elem_of_app; left; exact Hx).
  set (w1 := act _ (with_orders _ (my_bids w ++ _) w)). assert (HG : watcher_ok key seen w1) .
  { apply act_keeps; [apply with_bids_keeps; [exact HW|apply HT]|]. do 3 eexists. split; [|reflexivity].
    unfold terms. cbn [with_orders my_bids]. rewrite map_app. apply elem_of_app. right. left. }
  destruct (create_bid e _ _ _ _ _ _); [|exact HG]. apply with_bids_keeps; [exact HG|]. unfold terms, w1. cbn [act with_orders my_bids].
  rewrite !map_app. reflexivity.
Qed.

Lemma cancel_bid_keeps id w : watcher_ok key seen w -> watcher_ok key seen (cancel_bid e id w).2.
Proof.
  intros HW. unfold cancel_bid. destruct (List.find _ _); [|exact HW]. destruct (negb _); [exact HW|].
  destruct (cancel e id); [|exact HW]. apply with_bids_keeps; [exact HW|]. rewrite update_bid_terms; reflexivity.
Qed.

End Orders.


(** * Every reachable watcher *)

Section Runs.
Context `{Blake3}.
Context (key : arr 20).

(** The watchers that can come about, with the coins that their ticks have seen. *)
Inductive reachable : gset hash32 -> Watcher -> Prop :=
  | at_start : reachable ∅ (mkWatcher [] 0 false [] [] ([], 0) [])
  | at_tick seen w e : reachable seen w -> env_ok key e -> ids_fresh e w -> reachable (seen ∪ coins e) (tick_swaps e w)
  | at_take seen w e g u : reachable seen w -> env_ok key e -> ids_fresh e w -> reachable seen (take_ask e g u w).2
  | at_ask seen w e g c mds wei life pk us th outs : reachable seen w -> plan_ask e mds wei life pk = Ok (us, th, outs) ->
      reachable seen (record_ask e g c mds wei th us w)
  | at_bid seen w e mds wei ttl bond : reachable seen w -> reachable seen (place_bid e mds wei ttl bond w).2
  | at_cancel seen w e id : reachable seen w -> reachable seen (cancel_bid e id w).2
  | at_restart seen w : reachable seen w -> reachable seen (restart w).

Lemma covered_seen seen seen' ts s p : seen ⊆ seen' -> covered_fill seen ts s p -> covered_fill seen' ts s p.
Proof.
  intros HS (am & de & sc & mp & ti & pk & sa & H1 & H2 & H3 & H4 & H5 & H6 & H7).
  exists am, de, sc, mp, ti, pk, sa. repeat (split; [assumption|]). apply HS, H7.
Qed.

Lemma swap_ok_seen seen seen' t os ts s : seen ⊆ seen' -> swap_ok key seen t os ts s -> swap_ok key seen' t os ts s.
Proof.
  intros HS. assert (HX : sweepable seen t ts s -> sweepable seen' t ts s).
  { intros HX p E. destruct (HX p E) as [HP|HP]; [left; exact HP|right; eapply covered_seen; eassumption]. }
  unfold swap_ok. destruct (phase s) as [| |sid [|]|p [c|]|c h| | |]; tauto.
Qed.

Lemma watcher_ok_seen seen seen' w : seen ⊆ seen' -> watcher_ok key seen w -> watcher_ok key seen' w.
Proof.
  intros HS [I1 I2 I3 I4 I5 I6]. split; try assumption.
  - eapply Forall_impl; [exact I3|]. intros s. apply swap_ok_seen, HS.
  - eapply Forall_impl; [exact I4|]. intros s. apply swap_ok_seen, HS.
  - intros b a l E. specialize (I6 b a l E). destruct a; try exact I6. destruct I6 as (HC & s & p & EB & Ep & HP).
    split; [exact HC|]. exists s, p. split; [exact EB|]. split; [exact Ep|].
    destruct HP as [HP|HP]; [left; exact HP|right; eapply covered_seen; eassumption].
Qed.

Lemma reachable_ok seen w : reachable seen w -> watcher_ok key seen w.
Proof.
  induction 1 as [|seen w e HR IH HE HF|seen w e g u HR IH HE HF|seen w e g c mds wei life pk us th outs HR IH E|seen w e mds wei ttl bond HR IH|seen w e id HR IH|seen w HR IH].
  - split; cbn; try constructor. intros b a l E. destruct b; discriminate.
  - apply (good_tick key (seen ∪ coins e) e HE w); [set_solver|]. split; [|exact HF]. apply (watcher_ok_seen seen); [set_solver|exact IH].
  - apply (good_take_ask key seen e HE g u w). split; assumption.
  - eapply record_ask_keeps; eassumption.
  - apply place_bid_keeps, IH.
  - apply cancel_bid_keeps, IH.
  - destruct IH as [I1 I2 I3 I4 I5 I6]. split; cbn; assumption.
Qed.

(** C28: the watcher of swaps keeps its promises.  In every sequence of ticks, orders,
    failed writes and restarts, whatever the chains answer: when a commitment is sent,
    a book from which its transaction can be rebuilt was written just before (a write
    that fails is ignored, as the code does); a reveal is the transaction of a
    commitment that was sent; when an escrow for a unit is sent, its swap was written
    just before.  A secret is published in two ways only.  A claim of an escrow publishes
    it for an escrow to our account, against the hash it opens, that pays the price of
    the order's unit and was seen half an hour before it expires.  A reveal publishes the
    preimage of its swap, which the chain had already shown in a claim, or which is the
    secret of a bid of ours, and then the swap's coin was in the coin set at some tick,
    holds at least the amount that the bid buys, and is under a covenant for the bid's
    hash that pays the bid's address, to which the sweep goes.  Every swap that waits for
    its commitment or its coins, in memory and on disk, still rebuilds the transaction it
    committed to; and the secret of a bid whose escrow was sent stays in the book.  The
    failed writes are those of the swaps; the order book, a file of its own, is taken to
    be written whenever it changes. *)
Theorem swap_watcher_safe seen w : reachable seen w ->
  (forall before c after, acts w = before ++ ACommit c :: after -> exists before' book written s,
     before = before' ++ [ASave book written] /\ s ∈ book /\ sweep_commitment s = Ok c)
  /\ (forall before b after, acts w = before ++ AReveal b :: after -> ACommit (commitment_of_sweep b) ∈ before
     /\ exists s p, build_sweep s = Ok b /\ preimage s = Some p /\ (published before p \/ covered_fill seen (terms w) s p))
  /\ (forall before h k secs wei after, acts w = before ++ ALock h k secs wei :: after -> exists before' book written s,
     before = before' ++ [ASave book written] /\ s ∈ book /\ phase s = LockingEth None /\ secret_hash s = h)
  /\ (forall before sid p after, acts w = before ++ AClaim sid p :: after -> paid_escrow key before (orders w) sid p)
  /\ (forall s c, s ∈ swaps w ++ (on_disk w).1 -> (exists p, phase s = SweepingMds p (Some c)) \/ (exists h, phase s = ConfirmingMds c h) ->
        sweep_commitment s = Ok c)
  /\ (forall before h wei after, acts w = before ++ ABid h wei :: after ->
        exists (secret : hash32) (amount : Z) (dest : hash32), (h, secret, amount, dest) ∈ terms w /\ hash secret = h).
Proof.
  intros HR. destruct (reachable_ok seen w HR) as [I1 I2 I3 I4 I5 I6].
  split; [intros b c l E; exact (I6 b _ l E)|]. split; [intros b c l E; exact (I6 b _ l E)|].
  split; [intros b h k sc wi l E; exact (I6 b _ l E)|]. split; [intros b sid p l E; exact (I6 b _ l E)|].
  split; [|intros b h wei l E; exact (I6 b _ l E)]. intros s c Hs HP. assert (HS : swap_ok key seen (acts w) (orders w) (terms w) s).
  { apply elem_of_app in Hs as [Hs|Hs]; [rewrite Forall_forall in I3; apply I3, Hs|rewrite Forall_forall in I4; apply I4, Hs]. }
  unfold swap_ok in HS. destruct HP as [[p EP]|[h EP]]; rewrite EP in HS; apply HS.
Qed.

End Runs.

Definition is_commit_act (a : Act) : bool := match a with ACommit _ => true | _ => false end.

Lemma swap_watcher_safe_witness :
  let H := tail_blake3 in
  exists before c after, acts demo_watcher = before ++ ACommit c :: after
  /\ exists before' book written s, before = before' ++ [ASave book written] /\ s ∈ book /\ sweep_commitment s = Ok c.
Proof.
  intros H. assert (HE : env_ok demo_key demo_env).
  { split; [split; [discriminate|reflexivity]|intros k [= <-]; reflexivity|]. intros n m E. apply (f_equal length) in E. cbn in E. rewrite !length_replicate in E. exact E. }
  assert (HF : forall w, forallb (fun s => Nat.ltb (length (sw_id s)) (length (swaps w))) (swaps w) = true -> ids_fresh demo_env w).
  { intros w Hw n Hn HI. rewrite forallb_forall in Hw. apply list_elem_of_fmap in HI as (s & E & Hs). apply list_elem_of_In in Hs. apply Hw, Nat.ltb_lt in Hs.
    rewrite <- E in Hs. cbn in Hs. rewrite length_replicate in Hs. lia. }
  assert (HR : exists seen, reachable demo_key seen demo_watcher).
  { unfold demo_watcher. set (w0 := mkWatcher _ _ _ _ _ _ _). set (w1 := (take_ask demo_env _ _ _).2). set (w2 := tick_swaps demo_env w1).
    assert (R1 : reachable demo_key ∅ w1) by (apply at_take; [apply at_start|exact HE|apply HF; reflexivity]).
    assert (R2 : reachable demo_key (∅ ∪ coins demo_env) w2) by (apply at_tick; [exact R1|exact HE|apply HF; vm_compute; reflexivity]).
    eexists. apply at_tick; [exact R2|exact HE|apply HF; vm_compute; reflexivity]. }
  destruct HR as [seen HR]. destruct (@swap_watcher_safe H demo_key seen demo_watcher HR) as (HX & _).
  destruct (list_find (fun a => is_commit_act a = true) (acts demo_watcher)) as [[i a]|] eqn:EF; [|vm_compute in EF; discriminate].
  apply list_find_Some in EF as (EL & Ha & _). destruct a as [| | | | |c| |]; try discriminate Ha.
  pose proof (take_drop_middle _ _ _ EL) as ET. exists (take i (acts demo_watcher)), c, (drop (S i) (acts demo_watcher)).
  split; [symmetry; exact ET|]. apply (HX _ _ (drop (S i) (acts demo_watcher))). symmetry. exact ET.
Defined.
