(* ===== verification/SwapStuck.v ===== *)
(** What the watcher of swaps leaves alone: a swap recorded before its escrow was sent, a
    refund that was sent, and a sweep whose commitment has left the chain never move; and
    the events of a scan that fails are not read again. *)
From S2P Require Import Prelude Types Script Transaction Dex Swap SwapWatch SwapSafe.

#[local] Open Scope Z_scope.

Section Stuck.
Context `{Blake3}.
Context (key : arr 20) (seen : gset hash32) (e : Env).
Context (HE : env_ok key e) (HSeen : coins e ⊆ seen).

(** Swaps that no step looks at. *)
Definition stuck (s : Swap) : Prop :=
  match phase s with
  | LockingEth None | RefundingEth _ _ => True
  | SweepingMds _ (Some c) => check_commitment e c = false /\ sweep_dead_end s (tip e) = None
  | _ => False
  end.

Lemma foldl_leaves {B} (f : Watcher -> B -> Watcher) s l : (forall w x, x ∈ l -> s ∈ swaps w -> s ∈ swaps (f w x)) ->
  forall w, s ∈ swaps w -> s ∈ swaps (foldl f w l).
Proof.
  induction l as [|x l IH]; intros Hf w Hs; [exact Hs|]. cbn. apply IH; [|apply Hf; [left|exact Hs]]. intros w' y Hy. apply Hf. right. exact Hy.
Qed.

Lemma push_leaves s x w : s ∈ swaps w -> s ∈ swaps (push e x w).
Proof. intros Hs. cbn. apply elem_of_app. left. exact Hs. Qed.

(** A list of ids taken from swaps in other phases does not hold the id of [s]. *)
Lemma other_id {B} (g : Swap -> option B) (idof : B -> bytes) s w : good key seen e w -> s ∈ swaps w -> g s = None ->
  (forall x b, g x = Some b -> idof b = sw_id x) -> forall b, b ∈ omap g (swaps w) -> sw_id s <> idof b.
Proof.
  intros [HW _] Hs Hg Hid b Hb E. apply list_elem_of_omap in Hb as (x & Hx & Eb). rewrite (Hid _ _ Eb) in E.
  pose proof (same_id _ _ _ (ok_ids _ _ _ HW) Hs Hx E) as ->. congruence.
Qed.

Lemma stuck_confirm_locks s w : good key seen e w -> stuck s -> s ∈ swaps w -> s ∈ swaps (confirm_locks e w).
Proof.
  intros HG HS Hs. unfold confirm_locks.
  pose proof (other_id (fun s => match phase s with LockingEth (Some tx) => Some (sw_id s, tx) | _ => None end) fst s w HG Hs) as HO.
  apply foldl_leaves; [|exact Hs]. intros w' p Hp Hs'.
  assert (HN : sw_id s <> p.1).
  { apply HO; [|intros x b Eb; destruct (phase x) as [[]| | | | | | |]; try discriminate; injection Eb as <-; reflexivity|exact Hp]. unfold stuck in HS. destruct (phase s) as [[]| | | | | | |]; tauto. }
  unfold confirm_lock. destruct (receipt e p.2) as [[r|]|]; try exact Hs'. destruct (success r); [destruct (locked_swap_id (logs r)); [|exact Hs']|];
    apply touch_leaves; assumption.
Qed.

Lemma stuck_confirm_bids s w : s ∈ swaps w -> s ∈ swaps (confirm_bids e w).
Proof.
  intros Hs. unfold confirm_bids. apply foldl_leaves; [|exact Hs]. intros w' p _ Hs'. unfold confirm_bid.
  destruct (receipt e p.1) as [[r|]|]; try exact Hs'. destruct (success r); [|exact Hs']. destruct (created_bid_id (logs r)); exact Hs'.
Qed.

Lemma stuck_fill_bids s w : s ∈ swaps w -> s ∈ swaps (fill_bids e w).
Proof.
  intros Hs. unfold fill_bids. cbv zeta. destruct (Nat.eqb _ 0); [exact Hs|]. apply foldl_leaves; [|exact Hs]. intros w' t _ Hs'. unfold fill_one.
  destruct (List.find _ _); [|exact Hs']. destruct (by_hash _ _); [exact Hs'|]. destruct (negb _); [exact Hs'|]. destruct (_ <? _); [exact Hs'|].
  destruct (found_script e t _); [|exact Hs']. destruct (negb _); [exact Hs'|]. destruct (_ <=? _); [exact Hs'|]. apply push_leaves, Hs'.
Qed.

Lemma learn_leaves s sid pre l l' : learn_preimage e sid pre l = Some l' -> stuck s -> s ∈ l -> s ∈ l'.
Proof.
  intros E HS. revert l' E. induction l as [|x l IH]; [discriminate|]. intros l' E Hs. cbn in E.
  destruct (locked_in sid x) eqn:EL.
  - injection E as <-. apply elem_of_cons in Hs as [->|Hs]; [|right; exact Hs]. unfold locked_in in EL. unfold stuck in HS.
    destruct (phase x) as [[]| | | | | | |]; try discriminate. tauto.
  - destruct (learn_preimage e sid pre l) as [k|]; [|discriminate]. injection E as <-. apply elem_of_cons in Hs as [->|Hs]; [left|right; apply IH; auto].
Qed.

Lemma stuck_read_events s w : stuck s -> s ∈ swaps w -> s ∈ swaps (read_events e key w).
Proof.
  intros HS Hs. unfold read_events. cbv zeta. set (w1 := if base_cursor w =? 0 then _ else w).
  assert (Hs1 : s ∈ swaps w1) by (unfold w1; destruct (_ =? 0); exact Hs). destruct (_ <? _); [|exact Hs1].
  apply foldl_leaves; [|exact Hs1]. intros w' [blk ev] _ Hs'. unfold on_event. cbn [snd].
  destruct ev; try exact Hs'.
  - unfold on_locked. destruct (my_unit _ _) as [[[o secret] i]|]; [|exact Hs']. destruct (negb _); [exact Hs'|]. destruct (by_hash _ _); [exact Hs'|].
    destruct (unit_price e o i _) as [m pr]. destruct (_ <? pr); [exact Hs'|]. destruct (_ <? _); [exact Hs'|]. apply push_leaves, Hs'.
  - destruct (learn_preimage e _ _ _) as [l|] eqn:EL; [|exact Hs']. eapply learn_leaves; eassumption.
Qed.

Lemma stuck_send_claims s w : good key seen e w -> stuck s -> s ∈ swaps w -> s ∈ swaps (send_claims e w).
Proof.
  intros HG HS Hs. unfold send_claims.
  pose proof (other_id (fun s => match phase s, preimage s with ClaimingEth swap_id None, Some p => Some (sw_id s, swap_id, p) | _, _ => None end)
                (fun p => p.1.1) s w HG Hs) as HO.
  apply foldl_leaves; [|exact Hs]. intros w' p Hp Hs'.
  assert (HN : sw_id s <> p.1.1).
  { apply HO; [|intros x b Eb; destruct (phase x) as [| |? []| | | | |]; try discriminate; destruct (preimage x); [|discriminate]; injection Eb as <-; reflexivity|exact Hp].
    unfold stuck in HS. destruct (phase s) as [| |? []| | | | |]; tauto. }
  destruct p as [[id sid] p]. cbn [fst] in HN. unfold send_claim. destruct (claim e sid p); [apply touch_leaves; assumption|exact Hs'].
Qed.

Lemma stuck_send_refunds s w : good key seen e w -> stuck s -> s ∈ swaps w -> s ∈ swaps (send_refunds e w).
Proof.
  intros HG HS Hs. unfold send_refunds.
  pose proof (other_id (fun s => if should_refund (now e) s then match phase s with EthLocked id => Some (sw_id s, id) | _ => None end else None)
                fst s w HG Hs) as HO.
  apply foldl_leaves; [|exact Hs]. intros w' p Hp Hs'.
  assert (HN : sw_id s <> p.1).
  { apply HO; [|intros x b Eb; destruct (should_refund _ x); [|discriminate]; destruct (phase x); try discriminate; injection Eb as <-; reflexivity|exact Hp].
    unfold stuck in HS. destruct (should_refund _ s); [|reflexivity]. destruct (phase s); tauto. }
  unfold send_refund. destruct (refund e p.2); [apply touch_leaves; assumption|exact Hs'].
Qed.

(** The snapshots of the sweeps hold [s] itself, or swaps of another id. *)
Lemma stuck_each (f : Watcher -> Swap -> Watcher) (p : Swap -> bool) s w : good key seen e w -> s ∈ swaps w ->
  (forall w x, s ∈ swaps w -> sw_id s <> sw_id x -> s ∈ swaps (f w x)) -> (p s = true -> forall w, f w s = w) ->
  s ∈ swaps (foldl f w (List.filter p (swaps w))).
Proof.
  intros [HW _] Hs Hf Hself. apply foldl_leaves; [|exact Hs]. intros w' x Hx Hs'. apply filter_elem in Hx as [Hx Hp].
  destruct (decide (sw_id s = sw_id x)) as [E|E]; [|apply Hf; assumption].
  pose proof (same_id _ _ _ (ok_ids _ _ _ HW) Hs Hx E) as ->. rewrite Hself by exact Hp. exact Hs'.
Qed.

Lemma sweep_one_leaves s w x : s ∈ swaps w -> sw_id s <> sw_id x -> s ∈ swaps (sweep_one e w x).
Proof.
  intros Hs HN. unfold sweep_one, begin_sweep, finish_sweep. destruct (phase x) as [| | |pre [c|]| | | |]; try exact Hs.
  - destruct (sweep_dead_end x (tip e)); [apply touch_leaves; assumption|]. destruct (negb _); [exact Hs|].
    destruct (check_commitment e c); [|exact Hs]. destruct (build_sweep x) as [b| |]; [|apply touch_leaves; assumption..].
    destruct (send_transaction e b); apply touch_leaves; assumption.
  - destruct (sweep_dead_end x (tip e)); [apply touch_leaves; assumption|]. destruct (negb _); [exact Hs|].
    destruct (match sweep_dest x with Some d => Some d | None => _ end) as [d|]; [|apply touch_leaves; assumption].
    destruct (sweep_commitment _) as [c| |]; [destruct (commit_external e c)|..];
      (apply touch_leaves; [apply update_first_other; assumption|exact HN]).
Qed.

Lemma confirm_one_leaves s w x : s ∈ swaps w -> sw_id s <> sw_id x -> s ∈ swaps (confirm_one e w x).
Proof.
  intros Hs HN. unfold confirm_one, finish_sweep. destruct (phase x) as [| | | |c h| | |]; try exact Hs. destruct (build_sweep x) as [b| |]; try exact Hs.
  destruct (forallb _ _); [apply touch_leaves; assumption|]. destruct (_ <=? _); [|exact Hs].
  destruct (send_transaction e b); [apply touch_leaves; assumption|exact Hs].
Qed.

(** A swap whose escrow was never seen to be sent (the process ended between the record
    and the answer), a refund that was sent, and a sweep whose commitment is not on
    chain: no tick moves them on. *)
Lemma stuck_swap_stays s w : good key seen e w -> stuck s -> s ∈ swaps w -> s ∈ swaps (tick_swaps e w).
Proof.
  intros HG HS Hs. unfold tick_swaps. destruct (_ && _); [exact Hs|]. destruct (negb _); [exact Hs|].
  destruct (evm_key e) as [k|] eqn:EK; [|exact Hs]. apply (key_ok _ _ HE) in EK as ->.
  pose proof (good_confirm_locks key seen e w HG) as G1. pose proof (good_confirm_bids key seen e _ G1) as G2. pose proof (good_fill_bids key seen e HE _ HSeen G2) as G3.
  pose proof (good_read_events key seen e HE _ G3) as G4. pose proof (good_send_claims key seen e _ G4) as G5.
  pose proof (stuck_confirm_locks s w HG HS Hs) as H1. apply stuck_confirm_bids, stuck_fill_bids in H1.
  apply (stuck_read_events s _ HS) in H1. apply (stuck_send_claims s _ G4 HS) in H1.
  set (w2 := send_claims e _) in *. cbv zeta.
  assert (H2 : s ∈ swaps (sweep_all e w2)).
  { apply stuck_each; [exact G5|exact H1|apply sweep_one_leaves|]. intros Hp w'. unfold is_sweeping in Hp. unfold stuck in HS. unfold sweep_one.
    destruct (phase s) as [| | |pre [c|]| | | |]; try discriminate; try tauto. destruct HS as [HC HD]. rewrite HD, HC. destruct (negb _); reflexivity. }
  assert (G6 : good key seen e (sweep_all e w2)).
  { apply foldl_each; [apply filter_ids, (ok_ids _ _ _ (proj1 G5))|exact G5|intros x Hx; apply (filter_elem _ _ _ Hx)|].
    intros w' x _ G Hx. apply (good_sweep_one key seen e); assumption. }
  assert (H3 : s ∈ swaps (confirm_sweeps e (sweep_all e w2))).
  { apply stuck_each; [exact G6|exact H2|apply confirm_one_leaves|]. intros Hp. exfalso. unfold is_confirming in Hp. unfold stuck in HS. destruct (phase s); tauto || discriminate. }
  assert (G7 : good key seen e (confirm_sweeps e (sweep_all e w2))).
  { apply foldl_each; [apply filter_ids, (ok_ids _ _ _ (proj1 G6))|exact G6|intros x Hx; apply (filter_elem _ _ _ Hx)|].
    intros w' x _ G Hx. apply (good_confirm_one key seen e); assumption. }
  pose proof (stuck_send_refunds s _ G7 HS H3) as H4. destruct (dirty _); exact H4.
Qed.

(** A scan of the events that fails is not repeated: the cursor moves on, so a claim that
    publishes a preimage in that range is never seen. *)
Lemma failed_scan_skips w : base_cursor w <> 0 -> let safe := sat_sub (default 0 (block_number e)) (confirmations e) in
  base_cursor w < safe -> scan_events e (base_cursor w + 1) safe = None -> read_events e key w = with_cursor safe true w.
Proof.
  intros H0 safe HL HS. unfold read_events. cbv zeta. fold safe. rewrite (proj2 (Z.eqb_neq _ _) H0), (proj2 (Z.ltb_lt _ _) HL), HS. reflexivity.
Qed.

(** A claim is taken for done when it was sent, whatever becomes of it. *)
Lemma claim_done_when_sent w s swap_id p h : good key seen e w -> s ∈ swaps w -> claim e swap_id p = Some h ->
  exists s', s' ∈ swaps (send_claim e w (sw_id s, swap_id, p)) /\ sw_id s' = sw_id s /\ active s' = false.
Proof.
  intros [HW _] Hs EC. unfold send_claim. rewrite EC. exists (to_phase (Done (EthClaimed h)) (now e) s).
  split; [apply update_first_here; [exact Hs|apply (ok_ids _ _ _ HW)]|split; reflexivity].
Qed.

End Stuck.
