(* ===== verification/SwapSweep.v ===== *)
(** What a sweep is worth: the fee of a claim settles, covers what the mempool asks and
    leaves most of the unit; and the claim of a unit is a valid transaction wherever its
    commitment is live and the unit unspent. *)
From Stdlib Require Import String.
From S2P Require Import Prelude Bytecode Types Script Instr Templates Mmr Smt Transaction Mempool Dex Swap.

#[local] Open Scope Z_scope.

(** * Fees *)

Lemma sweep_size s n : Z.of_nat s < 2 ^ 32 -> (n <= 64)%nat -> sweep_reveal_size s n = 480 + Z.of_nat s + 160 * Z.of_nat n.
Proof.
  intros HS HN. unfold sweep_reveal_size, SWEEP_BASE_BYTES, SWEEP_INPUT_BYTES, SWEEP_WITNESS_BYTES, SWEEP_PER_OUTPUT_BYTES.
  rewrite (wrap_id 64 (Z.of_nat n * 160)) by lia. rewrite wrap_id by lia. lia.
Qed.

Lemma sweep_fee_eq s n : Z.of_nat s < 2 ^ 32 -> (n <= 64)%nat ->
  sweep_fee s n = (10 * (480 + Z.of_nat s + 160 * Z.of_nat n) + 1023) / 1024 + 20.
Proof.
  intros HS HN. unfold sweep_fee, ceil_div, SWEEP_MIN_FEE_PER_KB, SWEEP_FEE_RATE_SCALE, SWEEP_FEE_MARGIN. rewrite sweep_size by assumption.
  replace ((480 + Z.of_nat s + 160 * Z.of_nat n) * 10 + 1024 - 1) with (10 * (480 + Z.of_nat s + 160 * Z.of_nat n) + 1023) by lia.
  set (q := _ / 1024). assert (0 <= q < 2 ^ 40) by (unfold q; Z.to_euclidean_division_equations; lia).
  rewrite (wrap_id 64 q) by lia. apply wrap_id. lia.
Qed.

Lemma sweep_fee_mono s n m : Z.of_nat s < 2 ^ 32 -> (n <= m)%nat -> (m <= 64)%nat -> sweep_fee s n <= sweep_fee s m.
Proof. intros HS HN HM. rewrite !sweep_fee_eq by lia. Z.to_euclidean_division_equations. lia. Qed.

(** The fee admits the sweep to the mempool. *)
Lemma sweep_fee_admits s n : Z.of_nat s < 2 ^ 32 -> (n <= 64)%nat ->
  MIN_FEE_PER_KB * sweep_reveal_size s n <= sweep_fee s n * FEE_RATE_SCALE /\ 0 < sweep_fee s n.
Proof.
  intros HS HN. rewrite sweep_fee_eq, sweep_size by assumption. unfold MIN_FEE_PER_KB, FEE_RATE_SCALE.
  Z.to_euclidean_division_equations. lia.
Qed.

(** A fee that settled. *)
Definition settled_fee (s : nat) (value fee : Z) (denoms : list Z) : Prop :=
  exists n, (n <= 64)%nat /\ fee = sweep_fee s n /\ denoms = decompose_value (value - fee) /\ (length denoms <= n)%nat /\ fee < value.

Lemma resolve_loop_ends s value : Z.of_nat s < 2 ^ 32 -> in_u 64 value -> forall fuel n, (n <= 64)%nat -> (65 <= fuel + n)%nat ->
  (exists fee denoms, resolve_loop fuel n s value = Ok (fee, denoms) /\ settled_fee s value fee denoms)
  \/ (resolve_loop fuel n s value = Err CannotCoverFee /\ exists m, (m <= 64)%nat /\ value <= sweep_fee s m).
Proof.
  intros HS HV. induction fuel as [|fuel IH]; intros n HN HF; [lia|]. cbn [resolve_loop]. cbv zeta.
  destruct (Z.leb_spec value (sweep_fee s n)) as [HL|HL]; [right; split; [reflexivity|exists n; auto]|]. cbn [bail_if mbind res_bind].
  destruct (sweep_fee_admits s n HS HN) as [_ HP]. set (denoms := decompose_value (value - sweep_fee s n)).
  assert (HD : (length denoms <= 64)%nat) by (apply length_decompose; unfold in_u in *; lia).
  destruct (Nat.leb_spec (length denoms) n) as [HLe|HLe]; [|apply IH; lia].
  left. eexists _, _. split; [reflexivity|]. exists n. auto.
Qed.

Lemma resolve_sweep_fee_ends s value : Z.of_nat s < 2 ^ 32 -> in_u 64 value ->
  (exists fee denoms, resolve_sweep_fee s value = Ok (fee, denoms) /\ settled_fee s value fee denoms)
  \/ (resolve_sweep_fee s value = Err CannotCoverFee /\ exists m, (m <= 64)%nat /\ value <= sweep_fee s m).
Proof. intros HS HV. apply resolve_loop_ends; [exact HS|exact HV|lia|lia]. Qed.

Lemma settled_fee_facts s value fee denoms : Z.of_nat s < 2 ^ 32 -> in_u 64 value -> settled_fee s value fee denoms ->
  0 < fee < value /\ sumZ denoms = value - fee /\ Forall (fun d => is_pow2 d = true) denoms /\ (length denoms <= 64)%nat
  /\ denoms <> [] /\ MIN_FEE_PER_KB * sweep_reveal_size s (length denoms) <= fee * FEE_RATE_SCALE.
Proof.
  intros HS HV (n & HN & -> & -> & HL & HF). destruct (sweep_fee_admits s n HS HN) as [_ HP].
  assert (HU : in_u 64 (value - sweep_fee s n)) by (unfold in_u in *; lia). pose proof (decompose_value_sum _ HU) as ES.
  split; [lia|]. split; [exact ES|]. split; [apply decompose_value_pow2, HU|]. split; [lia|]. split.
  - intros E. rewrite E in ES. cbn in ES. lia.
  - destruct (sweep_fee_admits s (length (decompose_value (value - sweep_fee s n))) HS ltac:(lia)) as [HA _].
    pose proof (sweep_fee_mono s _ n HS HL HN). unfold FEE_RATE_SCALE in *. lia.
Qed.

(** Every tradeable unit can pay for its own claim, and keeps most of itself. *)
Lemma tradeable_resolves s value : (s <= MAX_SCRIPT_SIZE)%nat -> in_u 64 value -> unit_is_tradeable value = true ->
  exists fee denoms, resolve_sweep_fee s value = Ok (fee, denoms) /\ settled_fee s value fee denoms /\ 7 * fee < value.
Proof.
  intros HS HV HT. unfold MAX_SCRIPT_SIZE in HS. apply Z.leb_le in HT. unfold MIN_SWAP_UNIT in HT.
  assert (HS' : Z.of_nat s < 2 ^ 32) by lia.
  assert (HB : forall m, (m <= 64)%nat -> 7 * sweep_fee s m < 1024).
  { intros m Hm. rewrite sweep_fee_eq by assumption. Z.to_euclidean_division_equations. lia. }
  destruct (resolve_sweep_fee_ends s value HS' HV) as [(fee & denoms & E & HF)|(_ & m & Hm & HL)].
  - exists fee, denoms. split; [exact E|]. split; [exact HF|]. destruct HF as (n & Hn & -> & _). specialize (HB n Hn). lia.
  - specialize (HB m Hm). lia.
Qed.

(** * The claim of a unit *)

Section Claims.
Context `{Blake3}.

Lemma limit_order_length h m t pk : (length (compile_limit_order_covenant h m t pk) <= MAX_SCRIPT_SIZE)%nat.
Proof.
  rewrite compile_limit_order_asm. etransitivity; [apply small_size; small_tac|]. unfold i_limit_order, MAX_SCRIPT_SIZE. cbn. lia.
Qed.

Lemma covenant_htlc_length h r m t pk : (length (compile_covenant_htlc h r m t pk) <= MAX_SCRIPT_SIZE)%nat.
Proof.
  rewrite compile_covenant_htlc_asm. etransitivity; [apply small_size; small_tac|]. unfold i_covenant_htlc, MAX_SCRIPT_SIZE. cbn. lia.
Qed.

(** The script that holds the unit of a swap. *)
Definition unit_script (sw : Swap) (pk : hash32) : bytes :=
  match covenant_hex sw with
  | Some bytecode => bytecode
  | None => compile_limit_order_covenant (secret_hash sw) (max_claim sw) (mds_timeout_height sw) pk
  end.

(** A record with everything that its claim needs. *)
Record claimable (sw : Swap) (pre pk salt dest : hash32) : Prop := {
  cl_pre : preimage sw = Some pre;
  cl_open : hash pre = secret_hash sw;
  cl_pk : refund_pk sw = Some pk;
  cl_salt : sw_salt sw = Some salt;
  cl_dest : sweep_dest sw = Some dest;
  cl_size : (length (unit_script sw pk) <= MAX_SCRIPT_SIZE)%nat;
  cl_value : in_u 64 (mds_value sw);
  cl_unit : unit_is_tradeable (mds_value sw) = true;
  cl_max : covenant_hex sw = None -> mds_value sw <= max_claim sw
}.

(** What the claim of a swap is. *)
Definition claim_of (sw : Swap) (pre pk salt dest : hash32) (denoms : list Z) : Sweep :=
  mkSweep [script_input (unit_script sw pk) (mds_value sw) salt] [ScriptInputs [arr_list pre; [x01]]]
    (imap (sweep_output dest pre) denoms) (hash (bstr "mds_swap_sweep_v1" ++ pre)).

Lemma build_sweep_claim sw pre pk salt dest : claimable sw pre pk salt dest ->
  exists fee denoms, build_sweep sw = Ok (claim_of sw pre pk salt dest denoms)
  /\ settled_fee (length (unit_script sw pk)) (mds_value sw) fee denoms /\ 7 * fee < mds_value sw.
Proof.
  intros [C1 C2 C3 C4 C5 C6 C7 C8 C9].
  destruct (tradeable_resolves _ _ C6 C7 C8) as (fee & denoms & E & HF & HK). exists fee, denoms. split; [|auto].
  assert (EI : sweep_input sw pre salt pk = Ok (script_input (unit_script sw pk) (mds_value sw) salt, ScriptInputs [arr_list pre; [x01]])).
  { unfold sweep_input, unit_script. destruct (covenant_hex sw) as [bc|] eqn:EC.
    - rewrite bool_decide_true by exact C2. reflexivity.
    - unfold limit_claim_input. rewrite bool_decide_true by exact C2. cbn [negb bail_if mbind res_bind].
      rewrite (proj2 (Z.ltb_ge _ _)) by apply C9, eq_refl. reflexivity. }
  unfold build_sweep. rewrite C1, C3, C4, C5. cbn [ok_or mbind res_bind]. rewrite EI. cbn [mbind res_bind]. rewrite C8.
  cbn [negb bail_if mbind res_bind script_bytes script_input in_predicate]. rewrite E. reflexivity.
Qed.

Lemma sweep_output_values dest pre denoms : map output_value (imap (sweep_output dest pre) denoms) = denoms
  /\ Forall (fun o => output_address o = dest) (imap (sweep_output dest pre) denoms).
Proof.
  split.
  - apply list_eq. intros i. rewrite list_lookup_fmap, list_lookup_imap. destruct (denoms !! i); reflexivity.
  - apply Forall_lookup. intros i o. rewrite list_lookup_imap. destruct (denoms !! i); [|discriminate]. intros [= <-]. reflexivity.
Qed.

Lemma standard_ids outs : Forall (fun o => exists a v s, o = Standard a v s) outs -> omap output_coin_id outs = map hash_for_commitment outs.
Proof. induction 1 as [|o l (a & v & s & ->) HF IH]; [reflexivity|]. cbn. rewrite IH. reflexivity. Qed.

Lemma sweep_outputs_standard dest pre denoms : Forall (fun o => exists a v s, o = Standard a v s) (imap (sweep_output dest pre) denoms).
Proof. apply Forall_lookup. intros i o. rewrite list_lookup_imap. destruct (denoms !! i); [|discriminate]. intros [= <-]. unfold sweep_output. eauto. Qed.

(** What a sweep pays to an address. *)
Lemma sweep_paid_to dest pre denoms ctx a : Forall (in_u 64) denoms -> sumZ denoms <= umax 64 ->
  outputs ctx = imap (sweep_output dest pre) denoms ->
  paid_to ctx a = Some (if decide (arr_list dest = a) then sumZ denoms else 0).
Proof.
  intros HU HS EO. destruct (sweep_output_values dest pre denoms) as [EV EA]. unfold paid_to. rewrite EO.
  destruct (decide (arr_list dest = a)) as [E|E].
  - assert (EF : List.filter (fun out => bool_decide (arr_list (output_address out) = a)) (imap (sweep_output dest pre) denoms) = imap (sweep_output dest pre) denoms).
    { clear EO EV. induction EA as [|o l Ho HF IH]; [reflexivity|]. cbn. rewrite bool_decide_true by (rewrite Ho; exact E). rewrite IH. reflexivity. }
    rewrite EF, EV. apply checked_sum_Some; [eapply Forall_impl; [exact HU|unfold in_u; cbn; lia]|unfold umax; lia|lia].
  - assert (EF : List.filter (fun out => bool_decide (arr_list (output_address out) = a)) (imap (sweep_output dest pre) denoms) = []).
    { clear EO EV. induction EA as [|o l Ho HF IH]; [reflexivity|]. cbn. rewrite bool_decide_false by (rewrite Ho; exact E). exact IH. }
    rewrite EF. reflexivity.
Qed.

End Claims.

(** * On chain *)

Section Valid.
Context `{Blake3}.
Context (fast_mining : bool) (usize_bits : Z).
Context (witnesses_size : list Witness -> option Z).
Context {A : Type} `{!SetAccumulator A} `{!SetAccumulatorLaws A}.

(** What the script of the unit demands of its claim: a limit order that the proceeds do
    not go back to it, a covenant HTLC that its receiver is paid enough. *)
Definition claim_pays (sw : Swap) (pk dest : hash32) : Prop :=
  match covenant_hex sw with
  | None => in_u 64 (mds_timeout_height sw) /\ in_u 64 (max_claim sw) /\ arr_list dest <> arr_list (hash (unit_script sw pk))
  | Some bytecode => exists min_payout timeout, in_u 64 min_payout /\ in_u 64 timeout
      /\ bytecode = compile_covenant_htlc (secret_hash sw) dest min_payout timeout pk
      /\ forall fee denoms, settled_fee (length bytecode) (mds_value sw) fee denoms -> min_payout <= mds_value sw - fee
  end.

Lemma claim_runs sw pre pk salt dest fee denoms c h : claimable sw pre pk salt dest -> claim_pays sw pk dest ->
  settled_fee (length (unit_script sw pk)) (mds_value sw) fee denoms ->
  verify_input usize_bits (script_input (unit_script sw pk) (mds_value sw) salt) (ScriptInputs [arr_list pre; [x01]]) c h
    (imap (sweep_output dest pre) denoms) = true.
Proof.
  intros HC HP HF. pose proof HC as [C1 C2 C3 C4 C5 C6 C7 C8 C9].
  assert (HS : Z.of_nat (length (unit_script sw pk)) < 2 ^ 32) by (unfold MAX_SCRIPT_SIZE in C6; lia).
  destruct (settled_fee_facts _ _ _ _ HS C7 HF) as (F1 & F2 & F3 & F4 & _).
  unfold verify_input, verify_predicate. cbn [in_predicate script_input in_value in_commitment].
  set (ctx := {| Script.commitment := c; ctx_height := h; Script.outputs := imap (sweep_output dest pre) denoms;
                 Script.input_value := mds_value sw; Script.input_state := None; this_address := predicate_address (Types.Script (unit_script sw pk)) |}).
  assert (HU : Forall (in_u 64) denoms).
  { destruct HF as (n & Hn & Ef & -> & _). apply decompose_value_range. unfold in_u in *. lia. }
  assert (HO : outputs_ok ctx).
  { unfold outputs_ok. apply Forall_map. cbn [outputs ctx]. rewrite (proj1 (sweep_output_values dest pre denoms)). exact HU. }
  assert (HPd : forall a, paid_to ctx a = Some (if decide (arr_list dest = a) then sumZ denoms else 0)).
  { intros a. apply (sweep_paid_to dest pre denoms ctx a HU); [unfold in_u, umax in *; lia|reflexivity]. }
  assert (HR : execute_script usize_bits (unit_script sw pk) [arr_list pre; [x01]] ctx = Ok ()); [|rewrite HR; reflexivity].
  unfold claim_pays in HP. unfold unit_script in *. destruct (covenant_hex sw) as [bc|] eqn:EC.
  - destruct HP as (min_payout & timeout & U1 & U2 & -> & HM). apply covenant_htlc_spec; [assumption..|]. left.
    exists (arr_list pre), [x01]. split; [reflexivity|]. split; [rewrite arr_length; unfold MAX_ITEM_SIZE; lia|].
    split; [unfold MAX_ITEM_SIZE; cbn; lia|]. split; [reflexivity|]. split; [exact C2|].
    exists (sumZ denoms). split; [rewrite HPd, decide_True by reflexivity; reflexivity|]. specialize (HM _ _ HF). lia.
  - destruct HP as (U1 & U2 & HN). apply (limit_claim_runs _ (secret_hash sw) _ _ _ (mds_value sw) salt pre
      (script_input (compile_limit_order_covenant (secret_hash sw) (max_claim sw) (mds_timeout_height sw) pk) (mds_value sw) salt) _ _ 0);
      try assumption; try reflexivity.
    + rewrite HPd, decide_False by exact HN. reflexivity.
    + unfold umax, in_u in *. lia.
    + unfold limit_claim_input. rewrite bool_decide_true by exact C2. cbn [negb bail_if mbind res_bind].
      rewrite (proj2 (Z.ltb_ge _ _)) by apply C9, eq_refl. reflexivity.
Qed.

(** C29: the unit of a swap can be collected, when its script allows the claim that is
    built.  Of a swap whose preimage opens its hash and whose unit is tradeable (and not
    above what a limit order lets one claim, [claimable]), the claim can be built: it pays
    all of the unit but a fee below a seventh of it to the chosen address, and the fee
    covers what the mempool asks for a transaction of the estimated size.  If moreover the
    script is content with that ([claim_pays]: a limit order, that the chosen address is
    not the order's own; a covenant, that it asks no more for the chosen address than the
    unit less the fee, which the watcher does not check of a fill, see
    [underpaying_fill_refused]) and the serialised witness fits, then wherever the claim's
    commitment is live and the unit unspent, the claim is a valid transaction with exactly
    that fee. *)
Theorem sweep_collects sw pre pk salt dest (s : State A) :
  claimable sw pre pk salt dest ->
  exists b fee, build_sweep sw = Ok b /\ 0 < 7 * fee < mds_value sw
  /\ sumZ (map output_value (sp_outputs b)) = mds_value sw - fee
  /\ Forall (fun o => output_address o = dest) (sp_outputs b)
  /\ MIN_FEE_PER_KB * sweep_reveal_size (length (unit_script sw pk)) (length (sp_outputs b)) <= fee * FEE_RATE_SCALE
  /\ (claim_pays sw pk dest ->
      default (umax 64) (witnesses_size [ScriptInputs [arr_list pre; [x01]]]) <= MAX_SIGNATURE_SIZE * MAX_TX_INPUTS ->
      check_commitment (commitment_of_sweep b) s = Ok () ->
      compute_coin_id (hash (unit_script sw pk)) (mds_value sw) salt ∈ sa_set (st_coins s) ->
      validate_transaction fast_mining usize_bits witnesses_size s (sweep_tx b) = Ok () /\ Types.fee (sweep_tx b) = fee).
Proof.
  intros HC. destruct (build_sweep_claim sw pre pk salt dest HC) as (fee & denoms & EB & HF & HK).
  pose proof HC as [C1 C2 C3 C4 C5 C6 C7 C8 C9].
  assert (HS : Z.of_nat (length (unit_script sw pk)) < 2 ^ 32) by (unfold MAX_SCRIPT_SIZE in C6; lia).
  destruct (settled_fee_facts _ _ _ _ HS C7 HF) as (F1 & F2 & F3 & F4 & F5 & F6).
  destruct (sweep_output_values dest pre denoms) as [EV EA].
  exists (claim_of sw pre pk salt dest denoms), fee. split; [exact EB|]. split; [lia|]. cbn [claim_of sp_outputs].
  split; [rewrite EV; exact F2|]. split; [exact EA|]. split; [rewrite length_imap; exact F6|].
  intros HP HW HK' HCo. unfold sweep_tx. cbn [claim_of sp_inputs sp_witnesses sp_outputs sp_salt].
  set (i := script_input (unit_script sw pk) (mds_value sw) salt) in *. set (outs := imap (sweep_output dest pre) denoms) in *.
  set (tx_salt := hash (bstr "mds_swap_sweep_v1" ++ pre)) in *.
  assert (EX : tx_commitment [i] outs tx_salt = commitment_of_sweep (claim_of sw pre pk salt dest denoms)).
  { unfold tx_commitment, commitment_of_sweep. cbn [claim_of sp_inputs sp_outputs sp_salt]. fold outs. rewrite standard_ids by apply sweep_outputs_standard. reflexivity. }
  replace fee with (sumZ (map in_value [i]) - sumZ (map output_value outs)) by (rewrite EV, F2; cbn; lia).
  apply (reveal_valid_intro fast_mining usize_bits witnesses_size); rewrite ?EX; try assumption; try discriminate.
  - unfold outs. intros E. apply (f_equal length) in E. rewrite length_imap in E. destruct denoms; [congruence|discriminate].
  - unfold len, MAX_TX_OUTPUTS, outs. rewrite length_imap. lia.
  - reflexivity.
  - apply NoDup_singleton.
  - apply Forall_singleton. left. reflexivity.
  - unfold outs. apply Forall_lookup. intros k o. rewrite list_lookup_imap. destruct (denoms !! k) as [d|] eqn:Ed; [|discriminate].
    intros [= <-]. rewrite Forall_lookup in F3. pose proof (F3 _ _ Ed) as Hd. unfold check_output, sweep_output. cbn [output_value].
    apply andb_true_iff in Hd as Hd'. destruct Hd' as [Hd' _]. apply Z.ltb_lt in Hd'.
    rewrite (proj2 (Z.eqb_neq d 0)) by lia. rewrite Hd. split; [reflexivity|lia].
  - apply Forall_singleton. cbn. unfold in_u in *. lia.
  - rewrite EV, F2. cbn. unfold umax, in_u in *. lia.
  - apply Forall_singleton. exact HCo.
  - apply Forall_singleton. eapply claim_runs; eassumption.
Qed.

(** A covenant HTLC that demands more for its receiver than the sweep pays is not
    collected: so is every fill whose announced value is the payout it demands. *)
Lemma underpaying_fill_refused sw pre pk salt dest min_payout timeout b (s : State A) :
  claimable sw pre pk salt dest -> in_u 64 timeout -> in_u 64 min_payout ->
  covenant_hex sw = Some (compile_covenant_htlc (secret_hash sw) dest min_payout timeout pk) ->
  mds_value sw <= min_payout -> build_sweep sw = Ok b ->
  validate_transaction fast_mining usize_bits witnesses_size s (sweep_tx b) <> Ok ().
Proof.
  intros HC U1 U2 EC HM EB EVld. destruct (build_sweep_claim sw pre pk salt dest HC) as (fee & denoms & EB' & HF & _).
  rewrite EB in EB'. injection EB' as ->. pose proof HC as [C1 C2 C3 C4 C5 C6 C7 C8 C9].
  assert (HS : Z.of_nat (length (unit_script sw pk)) < 2 ^ 32) by (unfold MAX_SCRIPT_SIZE in C6; lia).
  destruct (settled_fee_facts _ _ _ _ HS C7 HF) as (F1 & F2 & _).
  apply validate_spend_Ok in EVld as (_ & _ & _ & HL & HV); [|reflexivity].
  cbn [sweep_tx claim_of sp_inputs sp_witnesses] in HV. cbn [zip zip_with] in HV. apply Forall_cons in HV as [HV _]. cbn [fst snd] in HV.
  unfold verify_input, verify_predicate in HV. cbn [in_predicate script_input in_value in_commitment] in HV.
  unfold unit_script in HV. rewrite EC in HV. match type of HV with context [execute_script _ _ _ ?c] => set (ctx := c) in HV end.
  destruct (execute_script _ _ _ ctx) as [[]| |] eqn:ER; try discriminate.
  assert (HU : Forall (in_u 64) denoms).
  { destruct HF as (n & Hn & Ef & -> & _). apply decompose_value_range. unfold in_u in *. lia. }
  apply covenant_htlc_spec in ER; [|assumption..|].
  - destruct ER as [(x & c & _ & _ & _ & _ & _ & v & EP & HV')|(x & y & c & E & _)]; [|discriminate].
    rewrite (sweep_paid_to dest pre denoms ctx) in EP; [|exact HU|unfold in_u, umax in *; lia|reflexivity].
    rewrite decide_True in EP by reflexivity. injection EP as <-. lia.
  - unfold outputs_ok. apply Forall_map. change (outputs ctx) with (imap (sweep_output dest pre) denoms).
    rewrite (proj1 (sweep_output_values dest pre denoms)). exact HU.
Qed.

End Valid.

(** A unit of 2048 of a limit order, ready to be collected. *)
Definition demo_swap `{Blake3} : Swap :=
  mkSwap [x01] Taker (hash (arr_of 32 [x07])) (Some (arr_of 32 [x07])) 2048 1000000 [x02] 2048 1300 (Some (arr_of 32 [x09]))
    (Some (arr_of 32 [x08])) [] 1010000 (Some (arr_of 32 [x0c])) None (SweepingMds (arr_of 32 [x07]) None) 1000000 1000000 0 0.

(** The commitment of a sweep is live and its unit unspent. *)
Definition sweep_state `{Blake3} (b : Sweep) : State (gset hash32) := {|
  st_mirstat := zero_arr 32; st_coins := list_to_set (map input_coin_id (sp_inputs b));
  st_commitments := {[commitment_of_sweep b]}; st_depth := 0; st_target := zero_arr 32;
  st_height := 6; st_timestamp := 0; st_commitment_heights := {[commitment_of_sweep b := 5]};
  st_expirations := ∅; st_chain_mmr := mmr_new; st_header_hash := zero_arr 32; st_burned_wots := ∅
|}.

Lemma sweep_collects_witness :
  let H := tail_blake3 in
  exists b fee, build_sweep demo_swap = Ok b /\ 0 < 7 * fee < 2048 /\ sumZ (map output_value (sp_outputs b)) = 2048 - fee
  /\ Forall (fun o => output_address o = arr_of 32 [x0c]) (sp_outputs b)
  /\ @validate_transaction H false 64 demo_size (gset hash32) set_accumulator (sweep_state b) (sweep_tx b) = Ok ().
Proof.
  intros H. destruct (build_sweep demo_swap) as [b0| |] eqn:EB; [|vm_compute in EB; discriminate..].
  destruct (@sweep_collects H false 64 demo_size (gset hash32) set_accumulator set_accumulator_laws demo_swap (arr_of 32 [x07]) (arr_of 32 [x09])
              (arr_of 32 [x08]) (arr_of 32 [x0c]) (sweep_state b0)) as (b & fee & E & H1 & H2 & H3 & _ & HV).
  - split; [reflexivity|reflexivity|reflexivity|reflexivity|reflexivity|apply limit_order_length|split; [discriminate|reflexivity]|reflexivity|intros _; discriminate].
  - rewrite E in EB. injection EB as ->. exists b0, fee. split; [reflexivity|]. split; [exact H1|]. split; [exact H2|]. split; [exact H3|].
    apply HV.
    + split; [split; [discriminate|reflexivity]|]. split; [split; [discriminate|reflexivity]|]. intros EX. vm_compute in EX. discriminate.
    + cbn. discriminate.
    + unfold check_commitment, sweep_state. cbn [st_commitments st_commitment_heights st_height sa_contains set_accumulator].
      rewrite bool_decide_true by (apply elem_of_singleton; reflexivity). rewrite lookup_singleton_eq. reflexivity.
    + assert (EI : map input_coin_id (sp_inputs b0)
        = [compute_coin_id (hash (unit_script demo_swap (arr_of 32 [x09]))) (mds_value demo_swap) (arr_of 32 [x08])]).
      { destruct (build_sweep demo_swap) as [b1| |] eqn:E1; [|discriminate..]. injection E as ->. vm_compute in E1. injection E1 as <-. vm_compute. reflexivity. }
      change (compute_coin_id (hash (unit_script demo_swap (arr_of 32 [x09]))) (mds_value demo_swap) (arr_of 32 [x08])
        ∈ (list_to_set (map input_coin_id (sp_inputs b0)) : gset hash32)).
      rewrite EI. apply elem_of_list_to_set. left.
Defined.
