(* ===== verification/SwapPlan.v ===== *)
(** The two clocks of a swap and the units of an order: the escrow that reveals a secret
    ends an hour before the other leg, whatever the order announces, and the units of a
    sell order are all worth claiming and add up to it. *)
From S2P Require Import Prelude Types Script Transaction Dex Swap SwapWatch SwapSafe.

#[local] Open Scope Z_scope.

(** * Clocks *)

Lemma pessimistic_eq blocks : 0 <= blocks < 2 ^ 56 -> blocks_to_secs_pessimistic blocks = 45 * blocks.
Proof.
  intros HB. unfold blocks_to_secs_pessimistic, BLOCK_SECS, DRIFT_NUMER, DRIFT_DENOM.
  rewrite (wrap_id 64 (blocks * 60)), (wrap_id 64 (blocks * 60 * 3)) by lia. Z.to_euclidean_division_equations. lia.
Qed.

(** Wrap-around only makes the estimate more pessimistic. *)
Lemma pessimistic_le blocks : 0 <= blocks -> 0 <= blocks_to_secs_pessimistic blocks <= 45 * blocks.
Proof.
  intros HB. unfold blocks_to_secs_pessimistic, BLOCK_SECS, DRIFT_NUMER, DRIFT_DENOM, wrap.
  pose proof (Z.mod_le (blocks * 60) (2 ^ 64) ltac:(lia) ltac:(lia)). pose proof (Z.mod_pos_bound (blocks * 60) (2 ^ 64) ltac:(lia)).
  set (x := (blocks * 60) mod 2 ^ 64) in *.
  pose proof (Z.mod_le (x * 3) (2 ^ 64) ltac:(lia) ltac:(lia)). pose proof (Z.mod_pos_bound (x * 3) (2 ^ 64) ltac:(lia)).
  set (y := (x * 3) mod 2 ^ 64) in *. Z.to_euclidean_division_equations. lia.
Qed.

(** Time bought generously lasts as long as asked for, in the pessimistic estimate. *)
Lemma generous_lasts secs : 0 <= secs < 2 ^ 56 ->
  0 <= secs_to_blocks_generous secs <= secs + 1 /\ secs <= 45 * secs_to_blocks_generous secs.
Proof.
  intros HS. unfold secs_to_blocks_generous, ceil_div, BLOCK_SECS, DRIFT_NUMER, DRIFT_DENOM. rewrite wrap_id by lia.
  Z.to_euclidean_division_equations. lia.
Qed.

Lemma plan_timings_safe now tip secs : 0 <= now < 2 ^ 62 -> 0 <= tip < 2 ^ 62 -> 600 <= secs <= 604800 ->
  exists t, plan_timings now tip secs = Ok t /\ tm_eth_deadline t = now + secs /\ tip < tm_mds_timeout_height t
  /\ mds_deadline_est t = now + 45 * (tm_mds_timeout_height t - tip) /\ tm_eth_deadline t + SETTLE_MARGIN_SECS <= mds_deadline_est t
  /\ SETTLE_MARGIN_SECS <= margin_secs t.
Proof.
  intros HN HT HS. unfold plan_timings. rewrite (proj2 (Z.leb_le 600 secs)), (proj2 (Z.leb_le secs 604800)) by lia.
  cbn [andb negb bail_if mbind res_bind]. cbv zeta. unfold SETTLE_MARGIN_SECS.
  rewrite (wrap_id 64 (now + secs)), (wrap_id 64 (secs + 3600)) by lia.
  destruct (generous_lasts (secs + 3600)) as [G1 G2]; [lia|]. set (b := secs_to_blocks_generous (secs + 3600)) in *.
  rewrite (wrap_id 64 (tip + b)) by lia. replace (tip + b - tip) with b by lia. rewrite (wrap_id 64 b) by lia.
  rewrite pessimistic_eq by lia. rewrite (wrap_id 64 (now + 45 * b)) by lia. unfold check_ordering, SETTLE_MARGIN_SECS.
  rewrite (wrap_id 64 (now + secs + 3600)) by lia. rewrite (proj2 (Z.ltb_ge _ _)) by lia. cbn [bail_if mbind res_bind].
  eexists. split; [reflexivity|]. cbn [tm_eth_deadline tm_mds_timeout_height mds_deadline_est margin_secs]. unfold sat_sub. lia.
Qed.

Lemma plan_timings_refuses now tip secs : secs < 600 \/ 604800 < secs -> plan_timings now tip secs = Err DelayOutOfRange.
Proof.
  intros HS. unfold plan_timings. destruct (Z.leb_spec 600 secs); destruct (Z.leb_spec secs 604800); try reflexivity. lia.
Qed.

(** A channel whose lifetime passes the check outlives the lock by the margin. *)
Lemma channel_outlives expiry h : 0 <= h < 2 ^ 62 -> check_channel_lifetime expiry h = Ok () -> h + 80 <= expiry.
Proof.
  intros HH. unfold check_channel_lifetime. change (secs_to_blocks_generous SETTLE_MARGIN_SECS) with 80. rewrite wrap_id by lia.
  intros E. apply bail_if_Ok, Z.ltb_ge in E. exact E.
Qed.

(** ** Readiness *)

(** [ready] holds exactly when everything that the swap needs is there. *)
Lemma ready_iff p : ready p = true <->
  p_synced p = true /\ has_evm_key p = true /\ (exists bal, eth_balance_wei p = Some bal /\ wei_needed p <= bal)
  /\ (p_side p = SellMds -> mds_needed p <= mds_spendable p)
  /\ (p_rail p = Submarine -> exists cap exp, channel_capacity p = Some cap /\ channel_expiry p = Some exp
        /\ mds_needed p <= cap /\ check_channel_lifetime exp (p_mds_timeout_height p) = Ok ()).
Proof.
  assert (EC : forall b l f, ok (check_if b l f) = b) by (intros [] ? ?; reflexivity).
  destruct p as [side rail synced key eth wei ms mn cap exp h]. unfold ready, evaluate. cbn [p_side p_rail p_synced has_evm_key eth_balance_wei
    wei_needed mds_spendable mds_needed channel_capacity channel_expiry p_mds_timeout_height].
  rewrite !forallb_app, !andb_true_iff. cbn [forallb]. rewrite !EC, !andb_true_iff.
  match goal with |- ((_ /\ _ /\ ?A /\ _) /\ ?B /\ ?C) <-> (_ /\ _ /\ ?A' /\ ?B' /\ ?C') =>
    assert (HA : A <-> A'); [|assert (HB : B <-> B'); [|assert (HC : C <-> C'); [|tauto]]] end.
  - destruct eth as [bal|]; [rewrite EC, Z.leb_le|]; (split; [intros HX|intros (b & [= <-] & HX); exact HX]); [eauto|discriminate].
  - destruct (decide (side = SellMds)) as [ES|ES]; cbn [forallb]; [rewrite EC, andb_true_r, Z.leb_le|]; tauto.
  - destruct (decide (rail = Submarine)) as [ER|ER]; [|tauto]. destruct cap as [c|]; [destruct exp as [x|]|]; cbn [forallb].
    2, 3: split; [discriminate|intros HX; destruct (HX ER) as (? & ? & ? & ? & _); discriminate].
    rewrite EC, !andb_true_iff, Z.leb_le. split.
    + intros (H1 & H2 & _) _. exists c, x. repeat (split; [reflexivity|]). split; [exact H1|].
      destruct (check_channel_lifetime x h) as [[]| |]; [reflexivity|discriminate..].
    + intros HX. destruct (HX ER) as (c' & x' & [= <-] & [= <-] & H1 & H2). rewrite H2. auto.
Qed.

(** A check that fails says what to do. *)
Lemma failures_have_fixes p c : c ∈ evaluate p -> ok c = false -> exists f, ck_fix c = Some f.
Proof.
  assert (EC : forall b l f, ok (check_if b l f) = false -> exists g, ck_fix (check_if b l f) = Some g) by (intros [] l f; [discriminate|cbn; eauto]).
  unfold evaluate. rewrite !elem_of_app, !elem_of_cons, elem_of_nil.
  intros [[->|[->|[->|[]]]]|[HC|HC]]; try apply EC.
  - destruct (eth_balance_wei p); [apply EC|cbn; eauto].
  - destruct (decide _); [|inversion HC]. apply list_elem_of_singleton in HC as ->. apply EC.
  - destruct (decide _); [|inversion HC]. destruct (channel_capacity p) as [cap|]; [destruct (channel_expiry p) as [x|]|].
    + apply elem_of_cons in HC as [->|HC]; [apply EC|]. apply list_elem_of_singleton in HC as ->.
      destruct (check_channel_lifetime x _) as [[]| |]; cbn; [discriminate|eauto..].
    + apply list_elem_of_singleton in HC as ->. cbn. eauto.
    + apply list_elem_of_singleton in HC as ->. cbn. eauto.
Qed.

(** * Orders *)

Section Orders.
Context `{Blake3}.
Context (e : Env).

(** Taking an order never fails for its deadlines once the order leaves two hours, and
    the escrow ends an hour before the order does. *)
Lemma check_ask_safe group_id unit : 0 <= now e < 2 ^ 62 -> 0 <= height e < 2 ^ 62 ->
  check_ask e group_id unit <> Err UnsafeTiming
  /\ forall a u secs, check_ask e group_id unit = Ok (a, u, secs) ->
       600 <= secs <= 604800 /\ unit_is_tradeable (u_value u) = true /\ u ∈ units a
       /\ compute_coin_id (limit_order_address (u_secret_hash u) (u_value u) (m_timeout_height a) (maker_mds_pk a)) (u_value u) (u_salt u) ∈ coins e
       /\ secs + SETTLE_MARGIN_SECS <= 45 * (m_timeout_height a - height e).
Proof.
  intros HN HH. unfold check_ask. cbv zeta.
  destruct (is_syncing e); [split; [discriminate|intros; discriminate]|]. cbn [bail_if mbind res_bind].
  destruct (List.find _ (asks e)) as [ask|]; [|split; [discriminate|intros; discriminate]]. cbn [ok_or mbind res_bind].
  destruct (live_units ask !! unit) as [idx|]; [|split; [discriminate|intros; discriminate]]. cbn [ok_or mbind res_bind].
  destruct (units (announcement ask) !! idx) as [u|] eqn:EU; [|split; [discriminate|intros; discriminate]]. cbn [ok_or mbind res_bind].
  destruct (unit_is_tradeable (u_value u)) eqn:ET; [|split; [discriminate|intros; discriminate]]. cbn [negb bail_if mbind res_bind].
  destruct (bool_decide (compute_coin_id _ _ _ ∈ coins e)) eqn:EC; [|split; [discriminate|intros; discriminate]]. apply bool_decide_eq_true in EC.
  cbn [negb bail_if mbind res_bind].
  destruct (pessimistic_le (sat_sub (m_timeout_height (announcement ask)) (height e))) as [P1 P2]; [unfold sat_sub; lia|].
  set (left := blocks_to_secs_pessimistic _) in *. unfold SETTLE_MARGIN_SECS in *.
  destruct (Z.leb_spec left (3600 * 2)) as [HL|HL]; [split; [discriminate|intros; discriminate]|]. cbn [bail_if mbind res_bind].
  set (secs := Z.min (Z.max (left - 3600) 600) 604800).
  assert (HS : 600 <= secs <= 604800 /\ secs + 3600 <= left) by (unfold secs; lia).
  assert (HB : left < 2 ^ 63).
  { unfold left, blocks_to_secs_pessimistic, DRIFT_DENOM. pose proof (Z.mod_pos_bound (wrap 64 (sat_sub (m_timeout_height (announcement ask)) (height e) * BLOCK_SECS) * DRIFT_NUMER) (2 ^ 64) ltac:(lia)) as HM.
    unfold wrap at 1. Z.to_euclidean_division_equations. lia. }
  unfold check_ordering, SETTLE_MARGIN_SECS. rewrite (wrap_id 64 (now e + secs)) by lia. rewrite (wrap_id 64 (now e + left)) by lia.
  rewrite (wrap_id 64 (now e + secs + 3600)) by lia. rewrite (proj2 (Z.ltb_ge _ _)) by lia. cbn [bail_if mbind res_bind].
  destruct (_ && _); cbn [negb bail_if mbind res_bind]; [|split; [discriminate|intros; discriminate]].
  split; [discriminate|]. intros a u' secs' [= <- <- <-]. split; [lia|]. split; [exact ET|]. split; [eapply list_elem_of_lookup_2, EU|].
  split; [exact EC|]. unfold sat_sub in P2. lia.
Qed.

End Orders.

(** ** The units of a sell order *)

Lemma set_bits_aligned n : forall v k m, v mod 2 ^ Z.of_nat m = 0 -> 0 <= k -> Forall (fun d => 2 ^ (k + Z.of_nat m) <= d) (set_bits n v k).
Proof.
  induction n as [|n IH]; intros v k m Hv Hk; [constructor|]. destruct m as [|m].
  - rewrite Z.add_0_r. eapply Forall_impl; [apply set_bits_ge; lia|]. intros d (j & Hj & ->). apply Z.pow_le_mono_r; lia.
  - rewrite Nat2Z.inj_succ, Z.pow_succ_r in Hv by lia. pose proof (Z.pow_pos_nonneg 2 (Z.of_nat m) ltac:(lia) ltac:(lia)) as HP.
    assert (HE : v = 2 * Z.div2 v /\ Z.div2 v mod 2 ^ Z.of_nat m = 0).
    { apply Z.mod_divide in Hv as [q ->]; [|lia]. rewrite Z.div2_div. replace (q * (2 * 2 ^ Z.of_nat m)) with (q * 2 ^ Z.of_nat m * 2) by lia.
      rewrite Z.div_mul by lia. split; [lia|apply Z.mod_mul; lia]. }
    destruct HE as [HE HM]. cbn [set_bits]. assert (EO : Z.odd v = false) by (rewrite HE, Z.odd_mul; reflexivity). rewrite EO. cbn [app].
    replace (k + Z.of_nat (S m)) with ((k + 1) + Z.of_nat m) by lia. apply IH; [exact HM|lia].
Qed.

Lemma sum_aligned l : Forall (fun d => d mod 1024 = 0) l -> sumZ l mod 1024 = 0.
Proof.
  induction 1 as [|d l Hd HF IH]; [reflexivity|]. unfold sumZ in *. cbn [foldr]. rewrite Z.add_mod, Hd, IH by lia. reflexivity.
Qed.

(** The maker's remainder test decides whether every unit can be traded. *)
Lemma aligned_iff v : in_u 64 v -> v mod MIN_SWAP_UNIT = 0 <-> Forall (fun d => unit_is_tradeable d = true) (decompose_value v).
Proof.
  intros HV. unfold unit_is_tradeable, MIN_SWAP_UNIT. split.
  - intros HM. rewrite decompose_value_bits by exact HV. pose proof (set_bits_aligned 64 v 0 10 HM ltac:(lia)) as HF.
    eapply Forall_impl; [exact HF|]. intros d Hd. apply Z.leb_le. exact Hd.
  - intros HF. rewrite <- (decompose_value_sum v HV). apply sum_aligned. pose proof (decompose_value_bits v HV) as EB.
    rewrite EB in HF |- *. pose proof (set_bits_ge 64 v 0 ltac:(lia)) as HG. apply Forall_forall. intros d Hd. rewrite Forall_forall in HF, HG.
    specialize (HF d Hd). apply Z.leb_le in HF. destruct (HG d Hd) as (j & Hj & ->). assert (10 <= j).
    { destruct (Z.le_gt_cases 10 j) as [HL|HL]; [exact HL|]. assert (2 ^ j <= 2 ^ 9) by (apply Z.pow_le_mono_r; lia). lia. }
    replace j with (10 + (j - 10)) by lia. rewrite Z.pow_add_r by lia. change (2 ^ 10) with 1024. rewrite Z.mul_comm. apply Z.mod_mul. lia.
Qed.

Section Units.
Context `{Blake3}.
Context (e : Env).

Lemma price_units_values mds wei denoms : forall alloc i, map u_value (price_units e mds wei alloc i denoms) = denoms.
Proof.
  induction denoms as [|v rest IH]; intros alloc i; [reflexivity|]. cbn [price_units]. destruct rest as [|v' rest]; [reflexivity|].
  cbn [map u_value]. rewrite IH. reflexivity.
Qed.

(** The prices add up to the whole, and none is below its share. *)
Lemma price_units_sum mds wei : 0 < mds -> 0 <= wei -> wei * mds < 2 ^ 128 -> forall denoms alloc i, denoms <> [] ->
  Forall (fun v => 0 < v) denoms -> sumZ denoms <= mds -> 0 <= alloc -> alloc * mds <= wei * (mds - sumZ denoms) ->
  sumZ (map u_wei_amount (price_units e mds wei alloc i denoms)) = wei - alloc
  /\ Forall (fun u => wei * u_value u < (u_wei_amount u + 1) * mds) (price_units e mds wei alloc i denoms).
Proof.
  intros HM HW HB. induction denoms as [|v rest IH]; intros alloc i HN HP HS HA HI; [congruence|].
  inversion HP as [|? ? Hv HP']; subst. assert (H0 : 0 <= sumZ rest) by (apply sumZ_nonneg; eapply Forall_impl; [exact HP'|cbn; lia]).
  assert (ES : sumZ (v :: rest) = v + sumZ rest) by reflexivity. rewrite ES in HS, HI.
  assert (HWB : wei < 2 ^ 128) by nia. cbn [price_units]. destruct rest as [|v' rest].
  - change (sumZ []) with 0 in *. assert (alloc <= wei) by nia. rewrite wrap_id by lia. split; [cbn; lia|].
    apply Forall_singleton. cbn [u_value u_wei_amount]. nia.
  - assert (HWV : 0 <= wei * v < 2 ^ 128) by nia. rewrite (wrap_id 128 (wei * v)) by exact HWV.
    set (share := wei * v / mds). assert (HSh : share * mds <= wei * v < (share + 1) * mds) by (unfold share; Z.to_euclidean_division_equations; nia).
    assert (0 <= share) by (apply Z.div_pos; lia). assert (alloc + share <= wei) by nia. rewrite (wrap_id 128 (alloc + share)) by lia.
    destruct (IH (alloc + share) (S i)) as [E1 E2]; [discriminate|exact HP'|lia|lia|nia|].
    split; [|apply Forall_cons; split; [cbn [u_value u_wei_amount]; lia|exact E2]].
    set (us := price_units e mds wei (alloc + share) (S i) (v' :: rest)) in *.
    change (share + sumZ (map u_wei_amount us) = wei - alloc). lia.
Qed.

(** A sell order is split into tradeable powers of two, at most 32, which add up to it
    and whose prices add up to the asking price, none of them below its share. *)
Lemma plan_ask_units mds wei lifetime pk us th outs : in_u 64 mds -> 0 <= wei -> wei * mds < 2 ^ 128 ->
  plan_ask e mds wei lifetime pk = Ok (us, th, outs) ->
  sumZ (map u_value us) = mds /\ sumZ (map u_wei_amount us) = wei /\ (length us <= 32)%nat
  /\ Forall (fun u => unit_is_tradeable (u_value u) = true /\ is_pow2 (u_value u) = true /\ wei * u_value u < (u_wei_amount u + 1) * mds) us
  /\ sumZ (map output_value outs) = mds.
Proof.
  intros HU HW HB E. unfold plan_ask in E. repeat ok_step. subst.
  repeat match goal with X : negb _ = false |- _ => apply negb_false_iff in X | X : _ || _ = false |- _ => apply orb_false_iff in X as [? ?]
    | X : (_ <? _) = false |- _ => apply Z.ltb_ge in X | X : (_ =? _) = true |- _ => apply Z.eqb_eq in X
    | X : Nat.ltb _ _ = false |- _ => apply Nat.ltb_ge in X end.
  assert (HM : 1024 <= mds) by (unfold MIN_SWAP_UNIT in *; lia).
  pose proof (decompose_value_sum mds HU) as ES. pose proof (decompose_value_pow2 mds HU) as EP.
  assert (HP : Forall (fun v => 0 < v) (decompose_value mds)) by (eapply Forall_impl; [apply decompose_coins, HU|cbn; lia]).
  assert (EA : Forall (fun d => unit_is_tradeable d = true) (decompose_value mds)) by (apply aligned_iff; assumption).
  pose proof (price_units_values mds wei (decompose_value mds) 0 0) as EV.
  destruct (price_units_sum mds wei ltac:(lia) HW HB (decompose_value mds) 0 0) as [E1 E2]; [|exact HP|lia|lia|lia|].
  { intros E. rewrite E in ES. cbn in ES. lia. }
  set (us := price_units e mds wei 0 0 (decompose_value mds)) in *.
  split; [rewrite EV; exact ES|]. split; [rewrite E1; lia|]. split; [rewrite <- (length_map u_value), EV; assumption|]. split.
  - rewrite <- EV, Forall_map in EA. rewrite <- EV, Forall_map in EP. rewrite Forall_forall in EA, EP, E2 |- *.
    intros u Hu. split; [apply EA, Hu|]. split; [apply EP, Hu|apply E2, Hu].
  - rewrite map_map. change (sumZ (map u_value us) = mds). rewrite EV. exact ES.
Qed.

End Units.

(** * The terms of a swap *)

Section Terms.
Context `{Blake3}.

(** C30: the terms of a swap are safe.  For every escrow delay that the contract accepts,
    and for no other, deadlines are planned, and in the pessimistic estimate the other
    leg outlasts the escrow by an hour at least; the same holds of an order that is
    taken, whatever lifetime it announces, and only a unit that is on chain and worth
    claiming is taken; and the units of a sell order are tradeable powers of two, at most
    32, that add up to the order, with prices that add up to the asking price and none
    below its share. *)
Theorem swap_terms_safe (e : Env) :
  0 <= now e < 2 ^ 62 -> 0 <= height e < 2 ^ 62 ->
  (forall tip secs, 0 <= tip < 2 ^ 62 ->
     if decide (600 <= secs <= 604800) then
       exists t, plan_timings (now e) tip secs = Ok t /\ tm_eth_deadline t = now e + secs
       /\ mds_deadline_est t = now e + 45 * (tm_mds_timeout_height t - tip)
       /\ tm_eth_deadline t + SETTLE_MARGIN_SECS <= mds_deadline_est t
     else plan_timings (now e) tip secs = Err DelayOutOfRange)
  /\ (forall group_id unit a u secs, check_ask e group_id unit = Ok (a, u, secs) ->
       600 <= secs <= 604800 /\ unit_is_tradeable (u_value u) = true
       /\ compute_coin_id (limit_order_address (u_secret_hash u) (u_value u) (m_timeout_height a) (maker_mds_pk a)) (u_value u) (u_salt u) ∈ coins e
       /\ secs + SETTLE_MARGIN_SECS <= 45 * (m_timeout_height a - height e))
  /\ (forall mds wei lifetime pk us th outs, in_u 64 mds -> 0 <= wei -> wei * mds < 2 ^ 128 ->
       plan_ask e mds wei lifetime pk = Ok (us, th, outs) ->
       sumZ (map u_value us) = mds /\ sumZ (map u_wei_amount us) = wei /\ (length us <= 32)%nat
       /\ Forall (fun u => unit_is_tradeable (u_value u) = true /\ is_pow2 (u_value u) = true /\ wei * u_value u < (u_wei_amount u + 1) * mds) us).
Proof.
  intros HN HH. split; [|split].
  - intros tip secs HT. destruct (decide (600 <= secs <= 604800)) as [HS|HS].
    + destruct (plan_timings_safe (now e) tip secs HN HT HS) as (t & E & E1 & _ & E2 & E3 & _). exists t. auto.
    + apply plan_timings_refuses. lia.
  - intros g i a u secs E. destruct (check_ask_safe e g i HN HH) as [_ HX]. destruct (HX _ _ _ E) as (H1 & H2 & _ & H4 & H5). auto.
  - intros mds wei lifetime pk us th outs HU HW HB E. destruct (plan_ask_units e _ _ _ _ _ _ _ HU HW HB E) as (H1 & H2 & H3 & H4 & _). auto.
Qed.

End Terms.

Lemma swap_terms_safe_witness :
  let H := tail_blake3 in
  exists a u secs, check_ask demo_env (arr_of 6 [x01]) 0 = Ok (a, u, secs) /\ secs + 3600 <= 45 * (m_timeout_height a - 1000).
Proof.
  intros H. destruct (@swap_terms_safe H demo_env) as (_ & HX & _); [split; [discriminate|reflexivity]..|].
  destruct (check_ask demo_env (arr_of 6 [x01]) 0) as [[[a u] secs]| |] eqn:E; [|vm_compute in E; discriminate..].
  exists a, u, secs. split; [reflexivity|]. apply (HX _ _ _ _ _ E).
Defined.
