(* ===== verification/Defrag.v ===== *)
(** The defragmentation planner of [wallet/defrag.rs]: which coins the wallet can sweep,
    the fee of a batch, and the batch that moves fragmented one-time coins to one
    reusable address.

    [group_order] is the iteration order of the hash map of addresses, and [salt_of] the
    salts drawn for the outputs. *)
From S2P Require Import Prelude Types Wots Mss Wallet WalletSelect.

#[local] Open Scope Z_scope.

(** * Fees *)

Record FeePolicy : Type := mkPolicy { base : Z; per_input : Z; per_output : Z }.

Definition policy_fee (p : FeePolicy) (n_inputs n_outputs : nat) : Z :=
  sat_add 64 (sat_add 64 (base p) (sat_mul 64 (per_input p) (Z.of_nat n_inputs)))
    (sat_mul 64 (per_output p) (Z.of_nat n_outputs)).

Definition policy_flat (f : Z) : FeePolicy := mkPolicy f 0 0.

(** [DestinationNotOwned], [MaxInputsTooSmall] and [TooManyOutputs] are the three
    [bail!]s; [FeeNeverSettles] stands for a loop that does not end. *)
Inductive DefragError : Type := DestinationNotOwned | MaxInputsTooSmall | TooManyOutputs | FeeNeverSettles.

Fixpoint resolve_fee_loop (fuel n_out : nat) (policy : FeePolicy) (n_inputs : nat) (total : Z)
    : res DefragError (option (Z * list Z)) :=
  match fuel with
  | O => Err FeeNeverSettles
  | S fuel =>
      let f := policy_fee policy n_inputs n_out in
      if total <=? f then Ok None
      else
        let denoms := decompose_value (total - f) in
        if Nat.leb (length denoms) n_out then Ok (Some (f, denoms))
        else resolve_fee_loop fuel (length denoms) policy n_inputs total
  end.

(** Each round settles, gives up, or has more outputs, of which there are at most 64. *)
Definition resolve_fee (policy : FeePolicy) (n_inputs : nat) (total : Z) : res DefragError (option (Z * list Z)) :=
  resolve_fee_loop 65 1 policy n_inputs total.

(** * Spendable coins *)

Record DefragBatchPlan : Type := mkPlan {
  input_coin_ids : list hash32;
  plan_outputs : list OutputData;
  total_in : Z;
  plan_fee : Z;
  remaining_fragmented_coins : nat
}.

Section Planner.
Context `{Blake3}.
Context (group_order : list hash32 -> list hash32) (salt_of : nat -> hash32).

Definition pending_ids (d : WalletData) : list hash32 := concat (map pc_input_coin_ids (pending d)).

Definition spendable_coin (d : WalletData) (live_set : list hash32) (c : WalletCoin) : bool :=
  bool_decide (wc_coin_id c ∈ live_set)
  && negb (bool_decide (wc_coin_id c ∈ pending_ids d))
  && negb (bool_decide (is_Some (wc_commitment c)) || (wc_value c =? 0))
  && negb (wots_signed c).

Definition spendable (d : WalletData) (live_set : list hash32) : list WalletCoin :=
  filter (fun c => spendable_coin d live_set c = true) (coins d).

Definition spendable_bundles (d : WalletData) (live_set : list hash32) (include_mss : bool) : list Bundle :=
  let live := spendable d live_set in
  let reusable := if include_mss then filter (fun c => is_mss_address d (wc_address c) = true) live else [] in
  let one_time := filter (fun c => is_mss_address d (wc_address c) = false) live in
  let all :=
    map (fun c => mkBundle (wc_address c) [wc_coin_id c] (wc_value c)) reusable
    ++ map (fun addr =>
              let group := filter (fun c => wc_address c = addr) one_time in
              mkBundle addr (map wc_coin_id group) (sat_sum (map wc_value group)))
         (group_order (remove_dups (map wc_address one_time))) in
  sort_by bundle_leb (filter (fun b => fits_in_tx b = true) all).

Definition n_coins (b : Bundle) : nat := length (bu_coin_ids b).
Definition sum_coins (bs : list Bundle) : nat := foldr (fun b n => (n_coins b + n)%nat) 0%nat bs.

(** Worth more than its own inputs cost. *)
Definition economical (policy : FeePolicy) (b : Bundle) : bool :=
  negb (bu_total_value b <=? sat_mul 64 (per_input policy) (Z.of_nat (n_coins b))).

(** The bundles that fit, in order. *)
Fixpoint choose (cap : nat) (bs : list Bundle) (chosen : list Bundle) (n_in : nat) (total : Z) : list Bundle * nat * Z :=
  match bs with
  | [] => (chosen, n_in, total)
  | b :: bs =>
      if Nat.ltb cap (n_in + n_coins b) then choose cap bs chosen n_in total
      else choose cap bs (chosen ++ [b]) (n_in + n_coins b) (sat_add 64 total (bu_total_value b))
  end.

(** [max_by_key] and [min_by_key]: the last maximal element, the first minimal one. *)
Fixpoint richest (bs : list Bundle) : option Bundle :=
  match bs with
  | [] => None
  | b :: bs =>
      match richest bs with
      | Some best => if bu_total_value best <? bu_total_value b then Some b else Some best
      | None => Some b
      end
  end.

Fixpoint remove_poorest (bs : list Bundle) : option (Bundle * list Bundle) :=
  match bs with
  | [] => None
  | b :: bs =>
      match remove_poorest bs with
      | Some (worst, rest) => if bu_total_value b <=? bu_total_value worst then Some (b, bs) else Some (worst, b :: rest)
      | None => Some (b, [])
      end
  end.

(** Drop the poorest bundle until the fee is covered; each round drops one. *)
Fixpoint settle (fuel : nat) (policy : FeePolicy) (chosen : list Bundle) (n_in : nat) (total : Z)
    : res DefragError (option (list Bundle * Z * Z * list Z)) :=
  match fuel with
  | O => Err FeeNeverSettles
  | S fuel =>
      r ← resolve_fee policy n_in total;
      match r with
      | Some (f, denoms) => Ok (Some (chosen, total, f, denoms))
      | None =>
          if Nat.leb (length chosen) 1 then Ok None
          else match remove_poorest chosen with
               | None => Panic
               | Some (dropped, rest) =>
                   let n_in := (n_in - n_coins dropped)%nat in
                   let total := wrap 64 (total - bu_total_value dropped) in
                   if Nat.ltb n_in 2 then Ok None else settle fuel policy rest n_in total
               end
      end
  end.

(** The greedy choice; when it has a single coin, the richest bundle of several. *)
Definition first_choice (cap : nat) (selectable : list Bundle) : option (list Bundle * nat * Z) :=
  let '(chosen, n_in, total) := choose cap selectable [] 0 0 in
  if Nat.ltb n_in 2 then
    match richest (filter (fun b => (2 <= n_coins b <= cap)%nat) selectable) with
    | Some best => Some ([best], n_coins best, bu_total_value best)
    | None => None
    end
  else Some (chosen, n_in, total).

Definition plan_defrag_batch (d : WalletData) (live_coins : list hash32) (dest : hash32) (policy : FeePolicy)
    (max_inputs : nat) : res DefragError (option DefragBatchPlan) :=
  _ ← bail_if (negb (is_mss_address d dest)) DestinationNotOwned;
  let cap := Nat.min max_inputs (Z.to_nat MAX_TX_INPUTS) in
  _ ← bail_if (Nat.ltb cap 2) MaxInputsTooSmall;
  let selectable := filter (fun b => economical policy b = true) (spendable_bundles d live_coins false) in
  match first_choice cap selectable with
  | None => Ok None
  | Some (chosen, n_in, total) =>
      r ← settle (length chosen) policy chosen n_in total;
      match r with
      | None => Ok None
      | Some (chosen, total, f, denoms) =>
          _ ← bail_if (MAX_TX_OUTPUTS <? Z.of_nat (length denoms)) TooManyOutputs;
          let selected := concat (map bu_coin_ids chosen) in
          let outputs := imap (fun i v => Standard dest v (salt_of i)) denoms in
          Ok (Some (mkPlan selected outputs total f (sum_coins selectable - length selected)))
      end
  end.

Definition fragmented_summary (d : WalletData) (live_coins : list hash32) : nat * Z :=
  let bs := spendable_bundles d live_coins false in
  (sum_coins bs, sat_sum (map bu_total_value bs)).

Definition max_single_tx_spendable (d : WalletData) (live_coins : list hash32) : Z :=
  let '(_, _, total) := choose (Z.to_nat MAX_TX_INPUTS) (spendable_bundles d live_coins true) [] 0 0 in total.

End Planner.
