(* ===== verification/DefragSafe.v ===== *)
(** What the defragmentation planner guarantees: batches are whole one-time addresses,
    balanced, within bounds, accepted by the co-spend gate, and independent of the
    order of the hash map. *)
From S2P Require Import Prelude Types Wots Mss Wallet WalletSelect WalletSpend WalletReveal MixSafe Defrag.

#[local] Open Scope Z_scope.

(** * Fees *)

Definition policy_u64 (p : FeePolicy) : Prop := in_u 64 (base p) /\ in_u 64 (per_input p) /\ in_u 64 (per_output p).

Lemma fee_u64 p n m : policy_u64 p -> in_u 64 (policy_fee p n m).
Proof.
  intros (H1 & H2 & H3). unfold policy_fee, sat_add, sat_mul, in_u, umax in *. nia.
Qed.

Lemma fee_mono p n m k : policy_u64 p -> (m <= k)%nat -> policy_fee p n m <= policy_fee p n k.
Proof.
  intros (H1 & H2 & H3) HK. unfold policy_fee, sat_add, sat_mul, in_u, umax in *.
  assert (per_output p * Z.of_nat m <= per_output p * Z.of_nat k) by (apply Z.mul_le_mono_nonneg_l; lia). lia.
Qed.

(** A fee that settled: it pays for [n] outputs, and no more are needed. *)
Definition fee_settled (p : FeePolicy) (n_in : nat) (total f : Z) (denoms : list Z) : Prop :=
  exists n, (length denoms <= n <= 64)%nat /\ f = policy_fee p n_in n /\ f < total /\ denoms = decompose_value (total - f).

Lemma resolve_fee_loop_total p n_in total : policy_u64 p -> in_u 64 total -> forall fuel n, (1 <= n <= 64)%nat -> (65 <= fuel + n)%nat ->
  exists r, resolve_fee_loop fuel n p n_in total = Ok r /\ forall f denoms, r = Some (f, denoms) -> fee_settled p n_in total f denoms.
Proof.
  intros HP HT. induction fuel as [|fuel IH]; intros n HN HF; [lia|]. cbn [resolve_fee_loop]. cbv zeta.
  destruct (Z.leb_spec total (policy_fee p n_in n)) as [HL|HL]; [exists None; split; [reflexivity|discriminate]|].
  pose proof (fee_u64 p n_in n HP) as HU. set (denoms := decompose_value (total - policy_fee p n_in n)).
  assert (HD : (length denoms <= 64)%nat) by (apply length_decompose; unfold in_u in *; lia).
  destruct (Nat.leb_spec (length denoms) n) as [HLe|HLe]; [|apply IH; lia].
  eexists. split; [reflexivity|]. intros f ds [= <- <-]. exists n. repeat split; lia || reflexivity.
Qed.

Lemma resolve_fee_total p n_in total : policy_u64 p -> in_u 64 total ->
  exists r, resolve_fee p n_in total = Ok r /\ forall f denoms, r = Some (f, denoms) -> fee_settled p n_in total f denoms.
Proof. intros HP HT. apply resolve_fee_loop_total; [exact HP|exact HT|lia|lia]. Qed.

(** * The order of bundles *)

(** A comparison that is a total preorder. *)
Record preorder_cmp {A} (cmp : A -> A -> comparison) : Prop := {
  cmp_sym : forall a b, cmp b a = CompOpp (cmp a b);
  cmp_trans : forall a b c, cmp a b <> Gt -> cmp b c <> Gt -> cmp a c <> Gt;
  cmp_eq : forall a b c, cmp a b = Eq -> cmp a c = cmp b c
}.

Lemma key_cmp {A} (f : A -> Z) : preorder_cmp (fun a b => f a ?= f b).
Proof.
  split.
  - intros a b. apply Z.compare_antisym.
  - intros a b c H1 H2. rewrite Z.compare_le_iff in *. lia.
  - intros a b c E. apply Z.compare_eq in E. rewrite E. reflexivity.
Qed.

(** Fractions with positive denominators. *)
Lemma ratio_cmp {A} (v n : A -> Z) : (forall a, 0 < n a) -> preorder_cmp (fun a b => v b * n a ?= v a * n b).
Proof.
  intros HN. split.
  - intros a b. apply Z.compare_antisym.
  - intros a b c H1 H2. rewrite Z.compare_le_iff in *. pose proof (HN a). pose proof (HN b). pose proof (HN c).
    apply (Z.mul_le_mono_pos_r _ _ (n b)); [assumption|].
    assert (v c * n b * n a <= v b * n c * n a) by (apply Z.mul_le_mono_nonneg_r; lia).
    assert (v b * n a * n c <= v a * n b * n c) by (apply Z.mul_le_mono_nonneg_r; lia). lia.
  - intros a b c E. apply Z.compare_eq in E. pose proof (HN a). pose proof (HN b).
    rewrite (Zmult_compare_compat_r _ _ (n b)) by lia. rewrite (Zmult_compare_compat_r (v c * n b) _ (n a)) by lia.
    f_equal; [lia|]. rewrite <- !Z.mul_assoc, (Z.mul_comm (n c)), !Z.mul_assoc, <- E. lia.
Qed.

Lemma lex_cmp {A} (c1 c2 : A -> A -> comparison) : preorder_cmp c1 -> preorder_cmp c2 ->
  preorder_cmp (fun a b => then_with (c1 a b) (c2 a b)).
Proof.
  intros [S1 T1 E1] [S2 T2 E2]. split.
  - intros a b. rewrite (S1 a b), (S2 a b). destruct (c1 a b); reflexivity.
  - intros a b c. pose proof (T1 a b c) as HT. pose proof (E1 a b c) as HE. pose proof (E1 b c a) as HE'. pose proof (E1 a c b) as HE2.
    rewrite (S1 a b), (S1 a c) in HE'. rewrite (S1 b c) in HE2.
    destruct (c1 a b) eqn:Ea, (c1 b c) eqn:Eb, (c1 a c) eqn:Ec; cbn in *; try congruence; try (intros; apply (T2 a b c); assumption);
      try (specialize (HE eq_refl); congruence); try (specialize (HE' eq_refl); congruence); try (specialize (HE2 eq_refl); congruence);
      try (exfalso; apply HT; congruence).
  - intros a b c E. destruct (c1 a b) eqn:Ea; cbn in E; try discriminate. rewrite (E1 a b c Ea), (E2 a b c E). reflexivity.
Qed.

Lemma cmp_leb_order {A} (cmp : A -> A -> comparison) : preorder_cmp cmp ->
  let leb a b := match cmp a b with Gt => false | _ => true end in
  (forall a b, leb a b = true \/ leb b a = true)
  /\ (forall a b c, leb a b = true -> leb b c = true -> leb a c = true)
  /\ (forall a b, leb a b = true -> leb b a = true -> cmp a b = Eq).
Proof.
  intros [S T E]. cbv zeta. repeat split.
  - intros a b. rewrite (S a b). destruct (cmp a b); auto.
  - intros a b c. specialize (T a b c). destruct (cmp a b), (cmp b c), (cmp a c); try congruence; intros; exfalso; apply T; congruence.
  - intros a b. rewrite (S a b). destruct (cmp a b); cbn; congruence.
Qed.

Lemma id_cmp_key a b : id_cmp a b = (be_val a ?= be_val b).
Proof.
  unfold id_cmp. rewrite !bytes_ltb_be_val by (rewrite !arr_length; reflexivity).
  destruct (Z.ltb_spec (be_val a) (be_val b)), (Z.ltb_spec (be_val b) (be_val a)); destruct (Z.compare_spec (be_val a) (be_val b)); congruence || lia.
Qed.

Definition first_key (a : option hash32) : Z := match a with Some a => be_val a | None => -1 end.

Lemma first_cmp_key a b : first_cmp a b = (first_key a ?= first_key b).
Proof.
  destruct a as [a|], b as [b|]; cbn [first_cmp first_key]; [apply id_cmp_key| | |reflexivity].
  - pose proof (arr_be_val_range a). symmetry. apply Z.compare_gt_iff. lia.
  - pose proof (arr_be_val_range b). symmetry. apply Z.compare_lt_iff. lia.
Qed.

Lemma first_key_inj a b : first_key a = first_key b -> a = b.
Proof.
  destruct a as [a|], b as [b|]; cbn [first_key]; [intros E; f_equal; apply arr_be_val_inj, E| | |reflexivity]; intros E.
  - pose proof (arr_be_val_range a). lia.
  - pose proof (arr_be_val_range b). lia.
Qed.

(** [bundle_cmp] with a positive number of coins. *)
Definition bundle_cmp_pos (a b : Bundle) : comparison :=
  let n (x : Bundle) := Z.max 1 (Z.of_nat (n_coins x)) in
  then_with (bu_total_value b * n a ?= bu_total_value a * n b)
    (then_with (- bu_total_value a ?= - bu_total_value b)
       (then_with (be_val (bu_address a) ?= be_val (bu_address b))
          (first_key (head (bu_coin_ids a)) ?= first_key (head (bu_coin_ids b))))).

Lemma bundle_cmp_pos_eq a b : (1 <= n_coins a)%nat -> (1 <= n_coins b)%nat -> bundle_cmp a b = bundle_cmp_pos a b.
Proof.
  intros HA HB. unfold bundle_cmp, bundle_cmp_pos. fold (n_coins a) (n_coins b). rewrite !Z.max_r by lia.
  rewrite id_cmp_key, first_cmp_key, <- (Z.compare_opp (bu_total_value a)). reflexivity.
Qed.

Lemma bundle_cmp_pos_preorder : preorder_cmp bundle_cmp_pos.
Proof.
  unfold bundle_cmp_pos. apply lex_cmp; [apply (ratio_cmp bu_total_value); intros; lia|].
  apply lex_cmp; [apply (key_cmp (fun a => - bu_total_value a))|].
  apply lex_cmp; [apply (key_cmp (fun a => be_val (bu_address a)))|apply (key_cmp (fun a => first_key (head (bu_coin_ids a))))].
Qed.

Lemma bundle_cmp_pos_tie a b : bundle_cmp_pos a b = Eq -> bu_address a = bu_address b /\ head (bu_coin_ids a) = head (bu_coin_ids b).
Proof.
  unfold bundle_cmp_pos. cbv zeta. destruct (_ ?= _); cbn; try discriminate. destruct (- _ ?= _); cbn; try discriminate.
  destruct (Z.compare_spec (be_val (bu_address a)) (be_val (bu_address b))) as [EA| |]; cbn; try discriminate.
  intros E. apply Z.compare_eq in E. split; [apply arr_be_val_inj, EA|apply first_key_inj, E].
Qed.

Lemma insert_by_ext {A} (leb1 leb2 : A -> A -> bool) x l : (forall y, y ∈ l -> leb1 x y = leb2 x y) -> insert_by leb1 x l = insert_by leb2 x l.
Proof.
  induction l as [|y l IH]; intros HE; [reflexivity|]. cbn. rewrite (HE y) by left. rewrite IH; [reflexivity|].
  intros z Hz. apply HE. right. exact Hz.
Qed.

Lemma sort_by_ext {A} (leb1 leb2 : A -> A -> bool) l : (forall x y, x ∈ l -> y ∈ l -> leb1 x y = leb2 x y) -> sort_by leb1 l = sort_by leb2 l.
Proof.
  induction l as [|x l IH]; intros HE; [reflexivity|]. cbn. fold (sort_by leb1 l) (sort_by leb2 l).
  rewrite IH by (intros; apply HE; right; assumption). apply insert_by_ext.
  intros y Hy. rewrite sort_by_perm in Hy. apply HE; [left|right; exact Hy].
Qed.

(** The order of the bundles does not depend on the order they were found in. *)
Lemma sort_bundles_canonical l k : l ≡ₚ k -> Forall (fun b => (1 <= n_coins b)%nat) l ->
  (forall a b, a ∈ l -> b ∈ l -> bu_address a = bu_address b -> head (bu_coin_ids a) = head (bu_coin_ids b) -> a = b) ->
  sort_by bundle_leb l = sort_by bundle_leb k.
Proof.
  intros HP HF HE. rewrite Forall_forall in HF. destruct (cmp_leb_order _ bundle_cmp_pos_preorder) as (LT & LR & LA).
  assert (HX : forall l', l' ≡ₚ l -> sort_by bundle_leb l' =
    sort_by (fun a b => match bundle_cmp_pos a b with Gt => false | _ => true end) l').
  { intros l' HP'. apply sort_by_ext. intros x y Hx Hy. rewrite HP' in Hx, Hy. unfold bundle_leb.
    rewrite bundle_cmp_pos_eq by (apply HF; assumption). reflexivity. }
  rewrite !HX by (reflexivity || (symmetry; exact HP)). apply sort_by_canonical; [exact LT|exact LR|exact HP|].
  intros x y Hx Hy H1 H2. destruct (bundle_cmp_pos_tie x y (LA x y H1 H2)). auto.
Qed.

(** * Batches of groups *)

Section Batches.
Context `{Blake3}.
Context (group_order : list hash32 -> list hash32) (order_perm : forall l, group_order l ≡ₚ l).

(** The spendable coins as the only coins of a wallet. *)
Definition sweepable (d : WalletData) (live : list hash32) (include_mss : bool) : WalletData :=
  set_coins (if include_mss then spendable d live
             else filter (fun c => is_mss_address d (wc_address c) = false) (spendable d live)) d.

Lemma spendable_live d live c : c ∈ spendable d live -> wc_coin_id c ∈ live /\ c ∈ coins d.
Proof.
  unfold spendable. intros Hc. apply list_elem_of_filter in Hc as [E Hc]. split; [|exact Hc].
  unfold spendable_coin in E. rewrite !andb_true_iff in E. destruct E as [[[E _] _] _]. apply bool_decide_eq_true in E. exact E.
Qed.

Lemma filter_all {A} (P : A -> Prop) `{forall x, Decision (P x)} (l : list A) : Forall P l -> filter P l = l.
Proof. induction 1 as [|x l Hx HF IH]; [reflexivity|]. rewrite filter_cons, decide_True, IH by exact Hx. reflexivity. Qed.

Lemma available_sweepable d live inc : available (sweepable d live inc) live = coins (sweepable d live inc).
Proof.
  unfold available. apply filter_all, Forall_forall. intros c Hc. apply (spendable_live d live c).
  unfold sweepable in Hc. destruct inc; cbn in Hc; [exact Hc|]. apply list_elem_of_filter in Hc. apply Hc.
Qed.

Lemma spendable_bundles_eq d live inc : spendable_bundles group_order d live inc =
  sort_by bundle_leb (filter (fun b => fits_in_tx b = true) (bundles group_order (sweepable d live inc) live)).
Proof.
  unfold bundles. rewrite available_sweepable. unfold spendable_bundles, sweepable.
  change (is_mss_address (set_coins ?x d)) with (is_mss_address d). destruct inc; [reflexivity|]. cbn [coins set_coins].
  set (l := spendable d live). do 2 f_equal.
  rewrite !list_filter_filter.
  assert (E1 : filter (fun x => is_mss_address d (wc_address x) = true /\ is_mss_address d (wc_address x) = false) l = []).
  { apply elem_of_nil_inv. intros c Hc. apply list_elem_of_filter in Hc as [[A B] _]. congruence. }
  assert (E2 : filter (fun x => is_mss_address d (wc_address x) = false /\ is_mss_address d (wc_address x) = false) l
             = filter (fun x => is_mss_address d (wc_address x) = false) l) by (apply list_filter_iff; tauto).
  rewrite E1, E2. reflexivity.
Qed.

(** A batch of the groups [gs]. *)
Definition batch_of (gs : list group) (chosen : list Bundle) (n_in : nat) (total : Z) : Prop :=
  chosen = map bundle_of gs /\ n_in = length (members gs) /\ total = worth (members gs).

Lemma bundle_worth g : group_u64 g -> worth g.2 <= umax 64 -> bu_total_value (bundle_of g) = worth g.2.
Proof. intros HG HW. rewrite bundle_total by exact HG. lia. Qed.

Lemma n_coins_group g : n_coins (bundle_of g) = length g.2.
Proof. unfold n_coins, bundle_of. cbn. apply length_map. Qed.

Lemma members_one g : members [g] = g.2.
Proof. unfold members. cbn. apply app_nil_r. Qed.

Lemma length_members_perm a b : a ≡ₚ b -> length (members a) = length (members b).
Proof. intros E. rewrite E. reflexivity. Qed.

(** The worth of a part is bounded by that of the whole. *)
Lemma worth_part (all gs rest : list group) : Forall group_u64 all -> all ≡ₚ gs ++ rest -> worth (members all) <= umax 64 ->
  Forall group_u64 gs /\ Forall group_u64 rest /\ 0 <= worth (members gs) /\ 0 <= worth (members rest)
  /\ worth (members gs) + worth (members rest) <= umax 64.
Proof.
  intros HG HP HW. rewrite HP in HG. apply Forall_app in HG as [H1 H2].
  rewrite (worth_perm _ _ (members_perm _ _ HP)), members_app, worth_app in HW.
  auto 6 using members_worth_nonneg.
Qed.

Lemma choose_spec cap rest : forall gs chosen n_in total, Forall group_u64 (gs ++ rest) -> worth (members (gs ++ rest)) <= umax 64 ->
  batch_of gs chosen n_in total -> (n_in <= cap)%nat ->
  exists ch lf, rest ≡ₚ ch ++ lf
  /\ let '(c, n, t) := choose cap (map bundle_of rest) chosen n_in total in batch_of (gs ++ ch) c n t /\ (n <= cap)%nat.
Proof.
  induction rest as [|g rest IH]; intros gs chosen n_in total HG HW (E1 & E2 & E3) HN; cbn [map choose].
  - exists [], []. rewrite (app_nil_r gs). split; [reflexivity|]. split; [exact (conj E1 (conj E2 E3))|exact HN].
  - rewrite n_coins_group. destruct (Nat.ltb_spec cap (n_in + length g.2)) as [HC|HC].
    + assert (HP : gs ++ g :: rest ≡ₚ (gs ++ rest) ++ [g]) by (rewrite <- app_assoc; apply Permutation_app_head, Permutation_cons_append).
      destruct (worth_part _ _ _ HG HP HW) as (H1 & _ & _ & H4 & H5).
      destruct (IH gs chosen n_in total H1 ltac:(lia) ltac:(repeat split; assumption) HN) as (ch & lf & HP' & HI).
      exists ch, (g :: lf). split; [|exact HI]. rewrite HP'. apply Permutation_middle.
    + destruct (worth_part _ gs (g :: rest) HG ltac:(reflexivity) HW) as (_ & H2 & H3 & _ & H5).
      inversion H2 as [|? ? Hg Hr]; subst. change (g :: rest) with ([g] ++ rest) in H5.
      rewrite members_app, worth_app, members_one in H5. pose proof (members_worth_nonneg rest Hr). pose proof (worth_nonneg _ Hg).
      replace (gs ++ g :: rest) with ((gs ++ [g]) ++ rest) in HG, HW by (rewrite <- app_assoc; reflexivity).
      destruct (IH (gs ++ [g]) (map bundle_of gs ++ [bundle_of g]) (length (members gs) + length g.2)%nat
        (sat_add 64 (worth (members gs)) (bu_total_value (bundle_of g))) HG HW) as (ch & lf & HP' & HI).
      { rewrite bundle_worth by (assumption || lia). unfold batch_of. rewrite map_app, members_app, members_one, length_app, worth_app.
        unfold sat_add. repeat split; lia. }
      { exact HC. }
      exists (g :: ch), lf. split; [rewrite HP'; reflexivity|]. rewrite <- app_assoc in HI. exact HI.
Qed.

Lemma remove_poorest_spec gs : gs <> [] ->
  exists g rest, remove_poorest (map bundle_of gs) = Some (bundle_of g, map bundle_of rest) /\ gs ≡ₚ g :: rest.
Proof.
  induction gs as [|g gs IH]; [congruence|]. intros _. cbn [map remove_poorest]. destruct gs as [|g' gs].
  - exists g, []. split; reflexivity.
  - destruct (IH ltac:(congruence)) as (w & rest & -> & HP). destruct (_ <=? _).
    + exists g, (g' :: gs). split; reflexivity.
    + exists w, (g :: rest). split; [reflexivity|]. rewrite HP. constructor.
Qed.

Lemma settle_spec p : policy_u64 p -> forall fuel gs chosen n_in total,
  (length gs <= fuel)%nat -> (1 <= fuel)%nat -> Forall group_u64 gs -> worth (members gs) <= umax 64 -> batch_of gs chosen n_in total ->
  (2 <= n_in)%nat ->
  exists r, settle fuel p chosen n_in total = Ok r
  /\ forall c t f denoms, r = Some (c, t, f, denoms) -> exists ch lf n, gs ≡ₚ ch ++ lf /\ batch_of ch c n t /\ (2 <= n <= n_in)%nat
     /\ fee_settled p n t f denoms.
Proof.
  intros HP. induction fuel as [|fuel IH]; intros gs chosen n_in total HL HF HG HW (E1 & E2 & E3) HN; [lia|]. cbn [settle].
  pose proof (members_worth_nonneg gs HG) as H0.
  assert (HT : in_u 64 total) by (unfold in_u, umax in *; lia).
  destruct (resolve_fee_total p n_in total HP HT) as (r & -> & HR). cbn [mbind res_bind]. destruct r as [[f denoms]|].
  - eexists. split; [reflexivity|]. intros c t f' ds [= <- <- <- <-]. exists gs, [], n_in. rewrite app_nil_r.
    split; [reflexivity|]. split; [repeat split; assumption|]. split; [lia|]. apply HR, eq_refl.
  - rewrite E1, length_map. destruct (Nat.leb_spec (length gs) 1) as [H1|H1]; [eexists; split; [reflexivity|discriminate]|].
    destruct (remove_poorest_spec gs) as (g & rest & -> & HPm); [destruct gs; cbn in *; [lia|discriminate]|]. cbv zeta.
    destruct (worth_part gs [g] rest HG HPm HW) as (Hg & Hr & W1 & W2 & W3). rewrite members_one in W1, W3.
    apply Forall_cons in Hg as [Hg _]. rewrite (bundle_worth g Hg) by lia.
    assert (EW : worth (members gs) = worth g.2 + worth (members rest))
      by (rewrite (worth_perm _ _ (members_perm _ _ HPm)); change (g :: rest) with ([g] ++ rest); rewrite members_app, worth_app, members_one; reflexivity).
    assert (EL : length (members gs) = (length g.2 + length (members rest))%nat)
      by (rewrite (length_members_perm _ _ HPm); change (g :: rest) with ([g] ++ rest); rewrite members_app, length_app, members_one; reflexivity).
    assert (ELn : length gs = S (length rest)) by (rewrite HPm; reflexivity).
    rewrite n_coins_group. destruct (Nat.ltb_spec (n_in - length g.2) 2) as [H2|H2]; [eexists; split; [reflexivity|discriminate]|].
    rewrite wrap_id by (unfold umax in *; lia).
    destruct (IH rest (map bundle_of rest) (n_in - length g.2)%nat (total - worth g.2)) as (r & ER & HX); try lia; try assumption.
    { unfold batch_of. repeat split; lia. }
    exists r. split; [exact ER|]. intros c t f ds Er. destruct (HX c t f ds Er) as (ch & lf & n & HP1 & HB & Hn & HS).
    exists ch, (g :: lf), n. split; [|split; [exact HB|split; [lia|exact HS]]]. rewrite HPm, HP1. apply Permutation_middle.
Qed.

Lemma richest_elem bs b : richest bs = Some b -> b ∈ bs.
Proof.
  revert b. induction bs as [|x bs IH]; intros b; cbn [richest]; [discriminate|].
  destruct (richest bs) as [best|]; [destruct (_ <? _)|]; intros [= <-]; [left|right; apply IH; reflexivity|left].
Qed.

Lemma richest_None bs : richest bs = None -> bs = [].
Proof. destruct bs as [|b bs]; [reflexivity|]. cbn [richest]. destruct (richest bs); [destruct (_ <? _)|]; discriminate. Qed.

Lemma first_choice_spec cap sel : Forall group_u64 sel -> worth (members sel) <= umax 64 ->
  forall c n t, first_choice cap (map bundle_of sel) = Some (c, n, t) ->
  exists gs lf, sel ≡ₚ gs ++ lf /\ batch_of gs c n t /\ (2 <= n <= cap)%nat.
Proof.
  intros HG HW c n t. unfold first_choice.
  destruct (choose_spec cap sel [] [] 0 0 HG HW ltac:(repeat split) ltac:(lia)) as (ch & lf & HP & HC).
  destruct (choose cap (map bundle_of sel) [] 0 0) as [[c0 n0] t0]. cbn [app] in HC. destruct HC as [HB HL].
  destruct (Nat.ltb_spec n0 2) as [H2|H2].
  - destruct (richest _) as [b|] eqn:ER; [|discriminate]. intros [= <- <- <-]. apply richest_elem, list_elem_of_filter in ER as [HN Hb].
    apply list_elem_of_In, in_map_iff in Hb as (g & <- & Hg). apply list_elem_of_In, elem_of_Permutation in Hg as (rest & HR).
    exists [g], rest. split; [exact HR|]. rewrite n_coins_group in *. split; [|exact HN].
    destruct (worth_part _ [g] rest HG HR HW) as (Hg & _ & _ & W1 & W2). rewrite members_one in W2. apply Forall_cons in Hg as [Hg _].
    unfold batch_of. rewrite members_one, bundle_worth by (assumption || lia). auto.
  - intros [= <- <- <-]. exists ch, lf. auto.
Qed.

(** * Groups have distinct coins *)

Lemma groups_nonempty d live : Forall (fun g : group => g.2 <> []) (groups group_order d live).
Proof.
  unfold groups. apply Forall_app. split; apply Forall_map, Forall_forall; [cbn; discriminate|].
  intros a Ha. cbn [snd]. rewrite order_perm, elem_of_remove_dups in Ha. apply list_elem_of_fmap in Ha as (c & -> & Hc).
  intros E. assert (HI : c ∈ filter (fun c' => wc_address c' = wc_address c)
    (filter (fun c => is_mss_address d (wc_address c) = false) (available d live))) by (apply list_elem_of_filter; auto).
  rewrite E in HI. inversion HI.
Qed.

Lemma same_group (gs : list group) g h c c' : NoDup (map wc_coin_id (members gs)) -> g ∈ gs -> h ∈ gs ->
  c ∈ g.2 -> c' ∈ h.2 -> wc_coin_id c = wc_coin_id c' -> g = h.
Proof.
  intros HN Hg Hh Hc Hc' E. apply elem_of_Permutation in Hg as (rest & HP). rewrite HP in Hh.
  apply elem_of_cons in Hh as [->|Hh]; [reflexivity|]. exfalso.
  assert (HN' : NoDup (map wc_coin_id (members (g :: rest)))) by (rewrite <- HP; exact HN).
  change (g :: rest) with ([g] ++ rest) in HN'. rewrite members_app, members_one, map_app in HN'. apply NoDup_app in HN' as (_ & HD & _).
  apply (HD (wc_coin_id c)); [apply list_elem_of_fmap_2, Hc|]. rewrite E. apply list_elem_of_fmap_2.
  unfold members. apply list_elem_of_In, in_concat. exists h.2. split; [apply in_map, list_elem_of_In, Hh|apply list_elem_of_In, Hc'].
Qed.

Lemma sweepable_NoDup d live inc : NoDup (map wc_coin_id (coins d)) -> NoDup (map wc_coin_id (available (sweepable d live inc) live)).
Proof.
  intros HN. rewrite available_sweepable. unfold sweepable.
  assert (HS : forall l : list WalletCoin, l ⊆+ coins d -> NoDup (map wc_coin_id l)).
  { intros l Hl. apply submseteq_Permutation in Hl as (k & HP). rewrite HP, map_app in HN. apply NoDup_app in HN. apply HN. }
  apply HS. destruct inc; cbn [coins set_coins].
  - apply sublist_submseteq, sublist_filter.
  - etransitivity; apply sublist_submseteq, sublist_filter.
Qed.

Lemma sweepable_u64 d live inc : coins_u64 d -> coins_u64 (sweepable d live inc).
Proof.
  unfold coins_u64. rewrite !Forall_forall. intros HU c Hc. apply HU, (spendable_live d live c).
  unfold sweepable in Hc. destruct inc; cbn in Hc; [exact Hc|]. apply list_elem_of_filter in Hc. apply Hc.
Qed.

End Batches.

(** The bundles do not depend on the order of the hash map. *)
Lemma spendable_bundles_canonical `{Blake3} o1 o2 d live inc : (forall l, o1 l ≡ₚ l) -> (forall l, o2 l ≡ₚ l) ->
  coins_u64 d -> NoDup (map wc_coin_id (coins d)) -> spendable_bundles o1 d live inc = spendable_bundles o2 d live inc.
Proof.
  intros H1 H2 HU HN. rewrite !spendable_bundles_eq. pose proof (sweepable_u64 d live inc HU) as HU'.
  set (d' := sweepable d live inc) in *.
  assert (HG : forall b, b ∈ filter (fun b => fits_in_tx b = true) (bundles o1 d' live) ->
    exists g, b = bundle_of g /\ g ∈ groups o1 d' live /\ g.2 <> []).
  { intros b Hb. apply list_elem_of_filter in Hb as [_ Hb]. rewrite bundles_groups in Hb by exact HU'.
    apply list_elem_of_fmap in Hb as (g & -> & Hg). exists g. split; [reflexivity|]. split; [exact Hg|].
    pose proof (groups_nonempty o1 H1 d' live) as HF. rewrite Forall_forall in HF. apply HF, Hg. }
  apply sort_bundles_canonical.
  - assert (HP : bundles o1 d' live ≡ₚ bundles o2 d' live); [|rewrite HP; reflexivity].
    unfold bundles. apply Permutation_app_head, Permutation_map. rewrite H1, H2. reflexivity.
  - apply Forall_forall. intros b Hb. destruct (HG b Hb) as (g & -> & _ & HE). rewrite n_coins_group.
    destruct g.2; [congruence|cbn; lia].
  - intros a b Ha Hb _ EH. destruct (HG a Ha) as (g & -> & Hg & HEg), (HG b Hb) as (h & -> & Hh & HEh).
    f_equal. unfold bundle_of in EH. cbn in EH. destruct g.2 as [|c cg] eqn:Eg; [congruence|]. destruct h.2 as [|c' ch] eqn:Eh; [congruence|].
    injection EH as EH. apply (same_group (groups o1 d' live) g h c c'); try assumption.
    + rewrite (members_groups o1 H1). apply sweepable_NoDup, HN.
    + rewrite Eg. left.
    + rewrite Eh. left.
Qed.

(** * The plan *)

Section Plans.
Context `{Blake3}.
Context (group_order : list hash32 -> list hash32) (order_perm : forall l, group_order l ≡ₚ l) (salt_of : nat -> hash32).

Lemma selected_ids gs : concat (map bu_coin_ids (map bundle_of gs)) = map wc_coin_id (members gs).
Proof. unfold members. rewrite concat_map, !map_map. reflexivity. Qed.

Lemma sum_coins_groups gs : sum_coins (map bundle_of gs) = length (members gs).
Proof.
  induction gs as [|g gs IH]; [reflexivity|]. cbn [map sum_coins foldr]. fold (sum_coins (map bundle_of gs)).
  rewrite IH, n_coins_group. change (g :: gs) with ([g] ++ gs). rewrite members_app, members_one, length_app. reflexivity.
Qed.

(** The economical bundles are groups of the coins that can be swept. *)
Lemma selectable_groups d live p inc : coins_u64 d ->
  exists sel rest, groups group_order (sweepable d live inc) live ≡ₚ sel ++ rest
  /\ filter (fun b => economical p b = true) (spendable_bundles group_order d live inc) = map bundle_of sel.
Proof.
  intros HU. destruct (sorted_groups group_order (sweepable d live inc) live (sweepable_u64 d live inc HU)) as (fit & HP & ES).
  rewrite spendable_bundles_eq, ES, filter_map. set (over := filter _ _) in HP. clearbody over.
  exists (filter (fun g => economical p (bundle_of g) = true) fit), (filter (fun g => economical p (bundle_of g) = false) fit ++ over).
  split; [|reflexivity]. rewrite app_assoc. rewrite (filter_split (fun g => economical p (bundle_of g)) fit). exact HP.
Qed.

(** [cs] are whole one-time addresses of the sweepable coins. *)
Definition whole_addresses (d : WalletData) (live : list hash32) (cs : list WalletCoin) : Prop :=
  cs ⊆+ spendable d live
  /\ (forall c, c ∈ cs -> is_mss_address d (wc_address c) = false)
  /\ (forall c c', c ∈ cs -> c' ∈ spendable d live -> wc_address c' = wc_address c -> c' ∈ cs).

Lemma groups_whole_addresses d live gs lf : groups group_order (sweepable d live false) live ≡ₚ gs ++ lf ->
  whole_addresses d live (members gs).
Proof.
  intros HP. assert (HM : members gs ⊆+ coins (sweepable d live false)).
  { rewrite <- available_sweepable, <- (members_groups group_order order_perm), HP, members_app. apply submseteq_inserts_r. reflexivity. }
  assert (HX : forall c, c ∈ members gs -> is_mss_address d (wc_address c) = false).
  { intros c Hc. apply (elem_of_submseteq _ _ _ Hc) in HM. unfold sweepable in HM. cbn in HM. apply list_elem_of_filter in HM. apply HM. }
  split; [|split; [exact HX|]].
  - etransitivity; [exact HM|]. unfold sweepable. cbn. apply sublist_submseteq, sublist_filter.
  - intros c c' Hc Hc' E. pose proof (HX c Hc) as HN. unfold members in Hc. apply list_elem_of_In, in_concat in Hc as (l & Hl & Hc).
    apply in_map_iff in Hl as (g & <- & Hg). apply list_elem_of_In, in_concat. exists g.2. split; [apply in_map, Hg|].
    pose proof (groups_whole group_order (sweepable d live false) live) as HW. rewrite HP in HW. apply Forall_app in HW as [HW _].
    rewrite Forall_forall in HW. apply list_elem_of_In in Hg, Hc. apply list_elem_of_In. apply (HW g Hg c c' Hc HN); [|exact E].
    rewrite available_sweepable. unfold sweepable. cbn. apply list_elem_of_filter. split; [congruence|exact Hc'].
Qed.

(** Whole addresses pass the co-spend gate, when no coin of theirs is left out. *)
Lemma whole_addresses_co_spend w live cs : NoDup (map wc_coin_id (coins (w_data w))) -> whole_addresses (w_data w) live cs ->
  (forall c c', c ∈ cs -> c' ∈ coins (w_data w) -> wc_address c' = wc_address c ->
     c' ∈ spendable (w_data w) live \/ wc_coin_id c' ∈ known_spent w) ->
  co_spend w (map wc_coin_id cs).
Proof.
  intros HN (HS & HM & HA) HG id sib Hid Hsib. apply list_elem_of_fmap in Hid as (c & -> & Hc).
  unfold wots_siblings in Hsib. destruct (find_coin (w_data w) (wc_coin_id c)) as [c0|] eqn:EF; [|inversion Hsib].
  apply find_coin_Some in EF as [Hc0 E0]. assert (Hcc : c ∈ coins (w_data w)).
  { apply (elem_of_submseteq _ _ _ Hc) in HS. apply (spendable_live _ _ _ HS). }
  assert (EC : c0 = c) by (eapply (NoDup_map_inj wc_coin_id); eassumption). subst c0.
  rewrite (HM c Hc) in Hsib. apply list_elem_of_fmap in Hsib as (c' & -> & Hc'). apply list_elem_of_filter in Hc' as [[EA _] Hc'].
  destruct (HG c c' Hc Hc' EA) as [HX|HX]; [right|left; exact HX]. apply list_elem_of_fmap_2, (HA c c' Hc HX EA).
Qed.

(** A batch: what a plan promises. *)
Definition batch_ok (d : WalletData) (live : list hash32) (dest : hash32) (p : FeePolicy) (max_inputs : nat)
    (plan : DefragBatchPlan) (cs : list WalletCoin) : Prop :=
  input_coin_ids plan = map wc_coin_id cs /\ whole_addresses d live cs
  /\ (2 <= length cs <= Nat.min max_inputs 256)%nat
  /\ total_in plan = worth cs
  /\ (exists denoms n, plan_outputs plan = imap (fun i v => Standard dest v (salt_of i)) denoms
      /\ sumZ denoms = total_in plan - plan_fee plan /\ Forall (fun v => is_pow2 v = true) denoms
      /\ (length denoms <= n <= 64)%nat /\ plan_fee plan = policy_fee p (length cs) n
      /\ policy_fee p (length cs) (length denoms) <= plan_fee plan < total_in plan)
  /\ (length cs + remaining_fragmented_coins plan)%nat =
     sum_coins (filter (fun b => economical p b = true) (spendable_bundles group_order d live false)).

Lemma plan_defrag_batch_total d live dest p max_inputs : coins_u64 d -> policy_u64 p -> worth (spendable d live) <= umax 64 ->
  is_mss_address d dest = true -> (2 <= max_inputs)%nat ->
  exists r, plan_defrag_batch group_order salt_of d live dest p max_inputs = Ok r
  /\ forall plan, r = Some plan -> exists cs, batch_ok d live dest p max_inputs plan cs.
Proof.
  intros HU HP HW HD HM. unfold plan_defrag_batch. rewrite HD. cbn [negb bail_if mbind res_bind].
  change (Z.to_nat MAX_TX_INPUTS) with 256%nat. set (cap := Nat.min max_inputs 256). cbv zeta.
  rewrite (proj2 (Nat.ltb_ge cap 2)) by lia. cbn [bail_if mbind res_bind].
  destruct (selectable_groups d live p false HU) as (sel & rest & HPS & ES). rewrite ES.
  pose proof (groups_u64 group_order order_perm (sweepable d live false) live (sweepable_u64 d live false HU)) as HG.
  assert (HWG : worth (members (groups group_order (sweepable d live false) live)) <= umax 64).
  { rewrite (worth_perm _ _ (members_groups group_order order_perm _ _)), available_sweepable. unfold sweepable.
    change (coins (set_coins ?x d)) with x. cbv iota. pose proof (filter_split (fun c => is_mss_address d (wc_address c)) (spendable d live)) as HF. apply worth_perm in HF.
    rewrite worth_app in HF. assert (0 <= worth (filter (fun x => is_mss_address d (wc_address x) = true) (spendable d live))); [|lia].
    apply worth_nonneg, Forall_forall. intros c Hc. unfold coins_u64 in HU. rewrite Forall_forall in HU.
    apply HU. apply list_elem_of_filter in Hc as [_ Hc]. apply (spendable_live _ _ _ Hc). }
  destruct (worth_part _ _ _ HG HPS HWG) as (HGS & _ & W1 & W2 & W3).
  destruct (first_choice cap (map bundle_of sel)) as [[[c n] t]|] eqn:EC; [|eexists; split; [reflexivity|discriminate]].
  destruct (first_choice_spec cap sel HGS ltac:(lia) c n t EC) as (gs & lf & HP1 & HB & HN).
  destruct (worth_part _ _ _ HGS HP1 ltac:(lia)) as (HGG & _ & X1 & X2 & X3).
  assert (HL : length c = length gs) by (destruct HB as (-> & _); apply length_map).
  assert (HL1 : (1 <= length gs)%nat) by (destruct HB as (_ & HB & _); unfold members in HB; destruct gs as [|g0 gs]; [cbn in HB; clear -HB HN; lia|apply le_n_S, Nat.le_0_l]).
  destruct (settle_spec p HP (length c) gs c n t ltac:(lia) ltac:(lia) HGG ltac:(lia) HB ltac:(lia)) as (r & -> & HR).
  cbn [mbind res_bind]. destruct r as [[[[ch tot] f] denoms]|]; [|eexists; split; [reflexivity|discriminate]].
  destruct (HR _ _ _ _ eq_refl) as (cg & lf' & n' & HP2 & (B1 & B2 & B3) & HN' & (m & Hm & Ef & Hf & Ed)).
  rewrite (proj2 (Z.ltb_ge MAX_TX_OUTPUTS _)) by (unfold MAX_TX_OUTPUTS; lia). cbn [bail_if mbind res_bind].
  eexists. split; [reflexivity|]. intros plan [= <-]. exists (members cg).
  assert (HGC : Forall group_u64 cg) by (rewrite HP2 in HGG; apply Forall_app in HGG; apply HGG).
  destruct (worth_part _ _ _ HGG HP2 ltac:(lia)) as (_ & _ & Y1 & Y2 & Y3).
  pose proof (fee_u64 p n' m HP) as HFU.
  assert (HT : in_u 64 (tot - f)) by (unfold in_u, umax in *; lia).
  unfold batch_ok. cbn [input_coin_ids total_in plan_outputs plan_fee remaining_fragmented_coins]. subst ch. rewrite selected_ids. split; [reflexivity|]. split; [|split; [lia|split; [exact B3|split]]].
  - apply (groups_whole_addresses d live cg (lf' ++ lf ++ rest)). rewrite HPS, HP1, HP2, <- !app_assoc. reflexivity.
  - exists denoms, m. split; [reflexivity|]. rewrite B2 in Ef. rewrite Ed at 1 2. split; [apply decompose_value_sum, HT|].
    split; [apply decompose_value_pow2, HT|]. split; [exact Hm|]. split; [exact Ef|]. split; [|exact Hf].
    rewrite Ef. apply fee_mono; [exact HP|lia].
  - rewrite ES, sum_coins_groups, length_map, (length_members_perm _ _ HP1), members_app, length_app, (length_members_perm _ _ HP2), members_app, length_app. lia.
Qed.

End Plans.

Section Main.
Context `{Blake3}.
Context (group_order : list hash32 -> list hash32) (order_perm : forall l, group_order l ≡ₚ l) (salt_of : nat -> hash32).

(** C25: a defragmentation batch is sound.  The planner refuses a destination that is not
    a reusable address of the wallet and a limit below two; otherwise it ends without an
    error, with a plan or with none (nothing is said about when there is none: it can miss
    a batch, as [defrag_misses_a_batch] shows).  A plan spends between two and the limit
    of the wallet's live coins that are unsigned, not pending and of a plain value, and
    with a coin every other such coin of its address; coins of the address that are not
    such stay behind.  Its outputs are powers of two, all to the destination, that add up
    to the inputs less the fee; and the fee is that of the policy for at least as many
    outputs.  The gate of [prepare_commit] lets it pass when no coin of a chosen address
    was left behind, but for those known to be spent.  And the plan does not depend on the
    order of the hash map. *)
Theorem defrag_plan_sound w live dest p max_inputs :
  coins_u64 (w_data w) -> NoDup (map wc_coin_id (coins (w_data w))) -> policy_u64 p ->
  worth (spendable (w_data w) live) <= umax 64 ->
  let plan order := plan_defrag_batch order salt_of (w_data w) live dest p max_inputs in
  (is_mss_address (w_data w) dest = false -> plan group_order = Err DestinationNotOwned)
  /\ (is_mss_address (w_data w) dest = true -> (max_inputs < 2)%nat -> plan group_order = Err MaxInputsTooSmall)
  /\ (is_mss_address (w_data w) dest = true -> (2 <= max_inputs)%nat -> exists r, plan group_order = Ok r
      /\ forall b, r = Some b -> exists cs, batch_ok group_order salt_of (w_data w) live dest p max_inputs b cs
         /\ ((forall c c', c ∈ cs -> c' ∈ coins (w_data w) -> wc_address c' = wc_address c ->
                c' ∈ spendable (w_data w) live \/ wc_coin_id c' ∈ known_spent w) -> co_spend w (input_coin_ids b)))
  /\ (forall order, (forall l, order l ≡ₚ l) -> plan order = plan group_order).
Proof.
  intros HU HN HP HW plan. split; [|split; [|split]].
  - intros E. unfold plan, plan_defrag_batch. rewrite E. reflexivity.
  - intros E HM. unfold plan, plan_defrag_batch. rewrite E. cbn [negb bail_if mbind res_bind]. cbv zeta.
    rewrite (proj2 (Nat.ltb_lt _ 2)) by lia. reflexivity.
  - intros E HM. destruct (plan_defrag_batch_total group_order order_perm salt_of _ live dest p max_inputs HU HP HW E HM) as (r & ER & HR).
    exists r. split; [exact ER|]. intros b Eb. destruct (HR b Eb) as (cs & HB). exists cs. split; [exact HB|]. intros HG.
    destruct HB as (EI & HA & _). rewrite EI. apply (whole_addresses_co_spend w live cs HN HA HG).
  - intros order HO. unfold plan, plan_defrag_batch. rewrite (spendable_bundles_canonical order group_order) by assumption. reflexivity.
Qed.

End Main.

(** * An example, and the limits of the planner *)

Definition sweep_policy : FeePolicy := mkPolicy 20 17 2.

Definition demo_dest : hash32 := arr_of 32 [x01].

Definition sweep_coin (addr id : Z) (value : Z) (commitment : option hash32) : WalletCoin :=
  mkWalletCoin (zero_arr 32) (zero_arr 32) (arr_of 32 (x02 :: be_bytes 2 addr)) value (zero_arr 32) (arr_of 32 (x03 :: be_bytes 2 id)) false commitment.

Definition sweep_world (cs : list WalletCoin) : World :=
  let d := mkWalletData [] cs [mkMssKeypair 0 (zero_arr 32) [] 0 (zero_arr 32)] [] [] None 0 0 [] in
  mkWorld d ∅ d 0 [].

Definition sweep (cs : list WalletCoin) (max_inputs : nat) : res DefragError (option DefragBatchPlan) :=
  @plan_defrag_batch const_blake3 (fun l => l) (fun _ => zero_arr 32) (w_data (sweep_world cs)) (map wc_coin_id cs) demo_dest sweep_policy max_inputs.

Lemma defrag_plan_sound_witness :
  let H := const_blake3 in
  let cs := [sweep_coin 1 1 64 None; sweep_coin 1 2 64 None; sweep_coin 2 3 128 None] in
  exists b, sweep cs 256 = Ok (Some b) /\ co_spend (sweep_world cs) (input_coin_ids b) /\ plan_fee b = 83.
Proof.
  intros H cs.
  destruct (proj1 (proj2 (proj2 (@defrag_plan_sound H (fun l => l) (fun l => Permutation_refl l) (fun _ => zero_arr 32) (sweep_world cs)
    (map wc_coin_id cs) demo_dest sweep_policy 256 ltac:(repeat (constructor; try (split; vm_compute; congruence)))
    ltac:(apply (bool_decide_unpack _); vm_compute; exact I) ltac:(repeat split; vm_compute; congruence) ltac:(vm_compute; congruence))))
    ltac:(vm_compute; reflexivity) ltac:(lia)) as (r & ER & HR).
  assert (ES : sweep cs 256 = Ok r) by exact ER.
  assert (E : r = match sweep cs 256 with Ok r => r | _ => None end) by (rewrite ES; reflexivity).
  destruct r as [b|]; [|vm_compute in E; discriminate].
  destruct (HR b eq_refl) as (chosen & _ & HG). exists b. split; [exact ES|]. split; [|vm_compute in E; injection E as ->; reflexivity].
  apply HG. intros c c' _ Hc' _. left. apply list_elem_of_filter. split; [|exact Hc'].
  assert (HF : Forall (fun c => spendable_coin (w_data (sweep_world cs)) (map wc_coin_id cs) c = true) cs)
    by (repeat constructor; vm_compute; reflexivity).
  rewrite Forall_forall in HF. apply HF, Hc'.
Defined.

(** Two outputs would have settled for 58: the fee that [resolve_fee] finds is not the
    smallest. *)
Lemma resolve_fee_not_smallest :
  resolve_fee sweep_policy 2 63 = Ok (Some (60, [1; 2]))
  /\ policy_fee sweep_policy 2 2 = 58 /\ (length (decompose_value (63 - 58)) <= 2)%nat.
Proof. split; [vm_compute; reflexivity|]. split; [reflexivity|]. vm_compute. lia. Qed.

(** With room for two coins the planner picks two that do not cover their fee, gives up,
    and misses the address whose two coins do. *)
Lemma defrag_misses_a_batch :
  let c1 := sweep_coin 3 3 29 None in
  let c2 := sweep_coin 3 4 29 None in
  let cs := [sweep_coin 1 1 30 None; sweep_coin 2 2 18 None; c1; c2] in
  sweep cs 2 = Ok None
  /\ (exists b, sweep [c1; c2] 2 = Ok (Some b) /\ plan_fee b = 56 /\ total_in b = 58)
  /\ filter (fun c => wc_address c = wc_address c1) cs = [c1; c2].
Proof.
  split; [vm_compute; reflexivity|]. split; [eexists; split; [vm_compute; reflexivity|split; reflexivity]|].
  vm_compute. reflexivity.
Qed.

(** A coin that cannot be swept, such as a license, makes its whole address unsweepable:
    the planner picks the other coin, and [prepare_commit] refuses the batch. *)
Lemma defrag_refused_by_gate :
  let cs := [sweep_coin 1 1 64 None; sweep_coin 1 2 0 (Some (zero_arr 32)); sweep_coin 2 3 128 None] in
  exists b, sweep cs 256 = Ok (Some b)
  /\ @prepare_commit const_blake3 demo_env (input_coin_ids b) (plan_outputs b) [] false false (sweep_world cs)
     = (Err CoSpendViolation, sweep_world cs).
Proof. eexists. split; [vm_compute; reflexivity|]. vm_compute. reflexivity. Qed.

(** The largest value of one transaction: a dense coin keeps out an address that fills
    a transaction alone. *)
Lemma max_single_tx_not_largest :
  let big := map (fun i => sweep_coin 1 (Z.of_nat i) 8 None) (seq 0 256) in
  let cs := sweep_coin 2 999 9 None :: big in
  let largest l := @max_single_tx_spendable const_blake3 (fun l => l) (w_data (sweep_world l)) (map wc_coin_id l) in
  largest cs = 9 /\ largest big = 2048.
Proof. vm_compute. split; reflexivity. Qed.
