(* ===== verification/Ledger.v ===== *)
(** The daemon's record of what coins were worth and what sends were
    ([crates/walletd/src/ledger.rs]).  Coins are keyed by the bytes of their id and sends by
    the bytes of the key, which the code writes in hexadecimal. *)
From Stdlib Require Import Strings.String.
From S2P Require Import Prelude Types Wallet.

#[local] Open Scope Z_scope.

Record SendRecord : Type := mkSendRecord { sr_amount : Z; sr_fee : Z; sr_to : hash32; sr_at : Z }.

Record Ledger : Type := mkLedger { coin_values : gmap hash32 Z; sends : gmap bytes SendRecord; ledger_dirty : bool }.

Definition empty_ledger : Ledger := mkLedger ∅ ∅ false.

Section Ledger.
Context `{Blake3}.

(** Sorted, so that the order of the inputs does not matter. *)
Definition input_key (inputs : list hash32) : bytes :=
  take 16 (blake3 (bstr "mirstat_send_inputs_v1" ++ concat_hashes (merge_sort arr_le inputs)) : bytes).

Definition learn (coin_id : hash32) (value : Z) (l : Ledger) : Ledger :=
  mkLedger (<[coin_id := value]> (coin_values l)) (sends l) (ledger_dirty l || negb (bool_decide (is_Some (coin_values l !! coin_id)))).

Definition observe (coins : list (hash32 * Z)) (l : Ledger) : Ledger := foldl (fun l c => learn c.1 c.2 l) l coins.

Definition has_send (inputs : list hash32) (l : Ledger) : bool := bool_decide (is_Some (sends l !! input_key inputs)).

Definition record_send (inputs : list hash32) (r : SendRecord) (l : Ledger) : Ledger :=
  mkLedger (coin_values l) (<[input_key inputs := r]> (sends l)) true.

Definition send_for (inputs : list hash32) (l : Ledger) : option SendRecord := sends l !! input_key inputs.

(** The total of the ids that have a price, and their number. *)
Definition value_of (ids : list hash32) (l : Ledger) : Z * nat :=
  foldl (fun '(total, n) id => match coin_values l !! id with Some v => (wrap 64 (total + v), S n) | None => (total, n) end) (0, 0%nat) ids.

(** The ledger in memory and its file; [ok] is whether the write succeeds. *)
Definition save_ledger (ok : bool) (l file : Ledger) : Ledger * Ledger :=
  if negb (ledger_dirty l) then (l, file)
  else if ok then let l := mkLedger (coin_values l) (sends l) false in (l, l) else (l, file).

(** A send is found by its inputs in any order. *)
Lemma input_key_perm a b : a ≡ₚ b -> input_key a = input_key b.
Proof.
  intros HP. unfold input_key. do 5 f_equal. assert (AntiSymm eq (@arr_le 32)) by (intros x y; apply arr_le_antisym).
  apply (Sorted_unique arr_le); [apply Sorted_merge_sort; apply _..|].
  rewrite !merge_sort_Permutation. exact HP.
Qed.

Lemma send_for_record a b r l : a ≡ₚ b -> send_for b (record_send a r l) = Some r.
Proof. intros HP. unfold send_for, record_send. cbn. rewrite (input_key_perm a b HP), lookup_insert_eq. reflexivity. Qed.

(** Once observed, a coin keeps its price until it is observed with another. *)
Lemma observe_lookup cs : forall l id, coin_values (observe cs l) !! id =
  match last (filter (fun c => c.1 = id) cs) with Some c => Some c.2 | None => coin_values l !! id end.
Proof.
  induction cs as [|c cs IH]; intros l id; [reflexivity|]. cbn [observe foldl]. fold (observe cs (learn c.1 c.2 l)).
  rewrite IH. rewrite filter_cons. destruct (decide (c.1 = id)) as [E|E].
  - rewrite last_cons. destruct (last (filter _ cs)); [reflexivity|]. cbn. rewrite E, lookup_insert_eq. reflexivity.
  - destruct (last (filter _ cs)); [reflexivity|]. cbn. rewrite lookup_insert_ne by exact E. reflexivity.
Qed.

End Ledger.
