(* ===== verification/Sends.v ===== *)
(** The sends of the wallet daemon ([crates/walletd/src/service.rs]): the actor that owns
    the wallet, the two-phase send it drives, the tasks that watch the chain for it,
    and the scan for incoming coins.

    The actor handles one command or message at a time.  Its tasks run beside it and post
    messages to its queue.  What the node, the clock and the disk answer is a function of
    the number of questions asked so far (class [NodeEnv], with the wallet's
    [WalletEnv]), so that any answers at any time are covered.  Of the text of a stage
    only the stage is kept, and addresses are their 32 bytes. *)
From S2P Require Import Prelude Types Wots Mss Transaction Wallet WalletSelect WalletSpend SendPlan Defrag Ledger.

#[local] Open Scope Z_scope.

Definition SCAN_CHUNK : Z := 2000.
Definition MSS_SAFETY_MARGIN : Z := 20.

(** Enough rounds for any fee ([SendPlan.plan_send_settles]). *)
Definition PLAN_ROUNDS : nat := 4200.

(** * State *)

Inductive SendStage : Type := Committing | CommitPending | WaitingReveal | RevealPending | Confirmed | Stalled | Failed.

#[export] Instance SendStage_eq_dec : EqDecision SendStage.
Proof. solve_decision. Defined.

Record SendMeta : Type := mkSendMeta { stage : SendStage; sm_amount : Z; sm_fee : Z; sm_to : hash32; updated_at : Z }.

(** The tasks: waiting for a commitment to be mined, then for the reveal's delay, and
    for the first input of a reveal to be spent. *)
Inductive Task : Type :=
  | WatchCommit (commitment : hash32) (reveal_not_before : Z)
  | WaitDelay (commitment : hash32) (reveal_not_before : Z)
  | WatchReveal (commitment first_input : hash32).

Inductive Internal : Type := CommitStalled (c : hash32) | TryReveal (c : hash32) | RevealConfirmed (c : hash32).

(** What was given to the node: the transaction, the pending commit that was signed for
    it, if any, and the wallet at that time. *)
Record Sent : Type := mkSent { s_tx : Transaction; s_pending : option PendingCommit; s_world : World }.

(** [d_world] has the wallet and its file; the wallet is in memory while [d_unlocked].
    [d_log] is what was sent so far. *)
Record Daemon : Type := mkDaemon {
  d_world : World;
  d_unlocked : bool;
  scan_pos : Z;
  scan_file : Z;
  d_sends : gmap hash32 SendMeta;
  d_ledger : Ledger;
  ledger_file : Ledger;
  d_tasks : list Task;
  d_queue : list Internal;
  d_log : list Sent
}.

Record ScannedCoin : Type := mkScanned { sc_address : hash32; sc_value : Z; sc_salt : hash32; sc_coin_id : hash32; sc_height : Z }.

Class NodeEnv : Type := {
  nd_syncing : nat -> bool;
  nd_coins : nat -> hash32 -> bool;
  nd_burned_wots : nat -> hash32 -> bool;
  nd_commitments : nat -> hash32 -> bool;
  nd_height : nat -> Z;
  nd_timestamp : nat -> Z;
  nd_accepts : nat -> Transaction -> bool;
  nd_mss_index : nat -> hash32 -> Z;
  nd_block : nat -> Z -> option (option Batch);
  nd_mine_pow : nat -> hash32 -> option Z;
  side_file_ok : nat -> bool
}.

Inductive DaemonError : Type :=
  | Locked | Syncing | BurnedAddress | NoPendingSend | PowFailed | BroadcastFailed | ScanFailed | NotStalled
  | TooFewCoins | TooManyCoins | FeeAboveTotal
  | WalletErr (e : WalletError) | DefragErr (e : DefragError).

Abbreviation DM := (ST Daemon DaemonError).

(** ** Field updates *)

Definition with_world (w : World) (d : Daemon) : Daemon :=
  mkDaemon w (d_unlocked d) (scan_pos d) (scan_file d) (d_sends d) (d_ledger d) (ledger_file d) (d_tasks d) (d_queue d) (d_log d).
Definition with_unlocked (b : bool) (d : Daemon) : Daemon :=
  mkDaemon (d_world d) b (scan_pos d) (scan_file d) (d_sends d) (d_ledger d) (ledger_file d) (d_tasks d) (d_queue d) (d_log d).
Definition with_scan (pos file : Z) (d : Daemon) : Daemon :=
  mkDaemon (d_world d) (d_unlocked d) pos file (d_sends d) (d_ledger d) (ledger_file d) (d_tasks d) (d_queue d) (d_log d).
Definition with_sends (s : gmap hash32 SendMeta) (d : Daemon) : Daemon :=
  mkDaemon (d_world d) (d_unlocked d) (scan_pos d) (scan_file d) s (d_ledger d) (ledger_file d) (d_tasks d) (d_queue d) (d_log d).
Definition with_ledger (l : Ledger * Ledger) (d : Daemon) : Daemon :=
  mkDaemon (d_world d) (d_unlocked d) (scan_pos d) (scan_file d) (d_sends d) l.1 l.2 (d_tasks d) (d_queue d) (d_log d).
Definition with_tasks (l : list Task) (d : Daemon) : Daemon :=
  mkDaemon (d_world d) (d_unlocked d) (scan_pos d) (scan_file d) (d_sends d) (d_ledger d) (ledger_file d) l (d_queue d) (d_log d).
Definition with_queue (l : list Internal) (d : Daemon) : Daemon :=
  mkDaemon (d_world d) (d_unlocked d) (scan_pos d) (scan_file d) (d_sends d) (d_ledger d) (ledger_file d) (d_tasks d) l (d_log d).
Definition log_sent (tx : Transaction) (p : option PendingCommit) (d : Daemon) : Daemon :=
  mkDaemon (d_world d) (d_unlocked d) (scan_pos d) (scan_file d) (d_sends d) (d_ledger d) (ledger_file d) (d_tasks d) (d_queue d)
    (d_log d ++ [mkSent tx p (d_world d)]).

Section Sends.
Context `{Blake3} `{!WalletEnv} `{!NodeEnv}.

(** ** Access to the wallet and the node *)

Definition in_wallet {A} (m : WM A) : DM A := fun d =>
  let '(r, w) := m (d_world d) in
  (match r with Ok a => Ok a | Err e => Err (WalletErr e) | Panic => Panic end, with_world w d).

Definition raise_if (c : bool) (e : DaemonError) : DM () := reads (fun _ => bail_if c e).

(** An answer of the node. *)
Definition node {A} (f : nat -> A) : DM A := in_wallet (ask f).

Definition need_wallet : DM () := reads (fun d => bail_if (negb (d_unlocked d)) Locked).

Definition wallet_data : DM WalletData := reads (fun d => Ok (w_data (d_world d))).

(** [send_transaction]: the node validates the transaction against its state and takes it. *)
Definition send_transaction (tx : Transaction) (p : option PendingCommit) : DM () :=
  ok ← node (fun t => nd_accepts t tx);
  _ ← raise_if (negb ok) BroadcastFailed;
  modify (log_sent tx p).

Definition spawn (t : Task) : DM () := modify (fun d => with_tasks (d_tasks d ++ [t]) d).

Definition set_stage (id : hash32) (st : SendStage) : DM () :=
  now ← node clock;
  modify (fun d =>
    let m := default (mkSendMeta st 0 0 (zero_arr 32) now) (d_sends d !! id) in
    with_sends (<[id := mkSendMeta st (sm_amount m) (sm_fee m) (sm_to m) now]> (d_sends d)) d).

Definition insert_send (id : hash32) (st : SendStage) (amount f : Z) (to : hash32) : DM () :=
  now ← node clock;
  modify (fun d => with_sends (<[id := mkSendMeta st amount f to now]> (d_sends d)) d).

(** ** Keys *)

(** A tree the network has seen further than we have moves past it, with a margin. *)
Definition fast_forward (seen : hash32 -> Z) (k : MssKeypair) : MssKeypair :=
  if next_leaf k <? seen (master_pk k) then set_next_leaf k (wrap 64 (seen (master_pk k) + MSS_SAFETY_MARGIN)) else k.

Definition verify_mss_indices : DM () :=
  unlocked ← reads (fun d => Ok (d_unlocked d));
  d ← wallet_data;
  if negb unlocked || bool_decide (mss_keys d = []) then mret ()
  else
    seen ← node nd_mss_index;
    _ ← in_wallet (update (fun d => set_mss (map (fast_forward seen) (mss_keys d)) d));
    if existsb (fun k => next_leaf k <? seen (master_pk k)) (mss_keys d) then in_wallet save else mret ().

Definition validate_address (dest : hash32) : DM () :=
  burned ← node nd_burned_wots;
  raise_if (burned dest) BurnedAddress.

(** ** Starting a send *)

Definition in_flight_inputs (d : WalletData) : list hash32 := concat (map pc_input_coin_ids (pending d)).

(** Solve the commit's proof of work, send it, and watch for it. *)
Definition broadcast_commit (commitment : hash32) : DM () :=
  mined ← node (fun t => nd_mine_pow t commitment);
  spam_nonce ← reads (fun _ => ok_or PowFailed mined);
  _ ← send_transaction (Commit commitment spam_nonce) None;
  d ← wallet_data;
  let reveal_not_before := default 0 (pc_reveal_not_before <$> find_pending d commitment) in
  _ ← set_stage commitment CommitPending;
  spawn (WatchCommit commitment reveal_not_before).

Definition spendable_now (coins_live : hash32 -> bool) (d : WalletData) : list hash32 :=
  map wc_coin_id (filter (fun c => wots_signed c = false /\ (wc_coin_id c ∉ in_flight_inputs d) /\ coins_live (wc_coin_id c) = true) (coins d)).

Definition start_send (dest : hash32) (amount : Z) (private : bool) : DM hash32 :=
  _ ← need_wallet;
  syncing ← node nd_syncing;
  _ ← raise_if syncing Syncing;
  _ ← verify_mss_indices;
  '(burned, live) ← node (fun t => (nd_burned_wots t, nd_coins t));
  _ ← raise_if (burned dest) BurnedAddress;
  d ← wallet_data;
  plan ← in_wallet (plan_send PLAN_ROUNDS (spendable_now live d) dest amount);
  '(commitment, _) ← in_wallet (prepare_commit (sp_input_coin_ids plan) (sp_outputs plan) (sp_change_seeds plan) private false);
  _ ← in_wallet save;
  _ ← insert_send commitment Committing (sp_amount plan) (sp_fee plan) dest;
  _ ← set_stage commitment Committing;
  _ ← broadcast_commit commitment;
  mret commitment.

(** ** Revealing *)

Definition drop_pending (commitment : hash32) (d : WalletData) : WalletData :=
  set_pending (filter (fun p => pc_commitment p <> commitment) (pending d)) d.

Definition reveal_tx (p : PendingCommit) (inputs : list InputReveal) (witnesses : list Witness) : res DaemonError Transaction :=
  if pc_is_consolidate p then
    w ← unwrap (head witnesses);
    Ok (Consolidate inputs w (pc_outputs p) (pc_salt p))
  else Ok (Reveal inputs witnesses (pc_outputs p) (pc_salt p)).

Definition try_reveal (commitment : hash32) : DM () :=
  unlocked ← reads (fun d => Ok (d_unlocked d));
  d ← wallet_data;
  match (if (unlocked : bool) then find_pending d commitment else None) with
  | None => mret ()
  | Some p =>
      _ ← set_stage commitment WaitingReveal;
      signed ← attempt (in_wallet (sign_reveal p));
      match signed with
      | None =>
          _ ← in_wallet (update (drop_pending commitment));
          _ ← attempt (in_wallet save);
          set_stage commitment Failed
      | Some (inputs, witnesses) =>
          saved ← attempt (in_wallet save);
          match saved with
          | None => set_stage commitment Failed
          | Some _ =>
              first_input ← reads (fun _ => unwrap (head (pc_input_coin_ids p)));
              tx ← reads (fun _ => reveal_tx p inputs witnesses);
              sent ← attempt (send_transaction tx (Some p));
              match sent with
              | Some _ => _ ← set_stage commitment RevealPending; spawn (WatchReveal commitment first_input)
              | None => set_stage commitment Failed
              end
          end
      end
  end.

Definition save_ledgers : DM () :=
  ok ← node side_file_ok;
  modify (fun d => with_ledger (save_ledger ok (d_ledger d) (ledger_file d)) d).

Definition reveal_confirmed (c : hash32) : DM () :=
  unlocked ← reads (fun d => Ok (d_unlocked d));
  if negb unlocked then mret () else
  d ← wallet_data;
  let spent := default [] (pc_input_coin_ids <$> find_pending d c) in
  done ← attempt (in_wallet (complete_reveal c));
  match done with
  | Some _ =>
      _ ← attempt (in_wallet save);
      meta ← reads (fun d => Ok (d_sends d !! c));
      now ← node clock;
      _ ← (match meta with
           | Some m =>
               if bool_decide (spent = []) then mret ()
               else _ ← modify (fun d => with_ledger (record_send spent (mkSendRecord (sm_amount m) (sm_fee m) (sm_to m) now) (d_ledger d), ledger_file d) d);
                    save_ledgers
           | None => mret ()
           end);
      set_stage c Confirmed
  | None => set_stage c Failed
  end.

Definition internal (msg : Internal) : DM () :=
  match msg with
  | CommitStalled c => set_stage c Stalled
  | TryReveal c => try_reveal c
  | RevealConfirmed c => reveal_confirmed c
  end.

Definition retry_send (commitment : hash32) : DM () :=
  _ ← need_wallet;
  d ← wallet_data;
  _ ← raise_if (bool_decide (find_pending d commitment = None)) NoPendingSend;
  mined ← node (fun t => nd_commitments t commitment);
  if (mined : bool) then internal (TryReveal commitment)
  else _ ← set_stage commitment Committing; broadcast_commit commitment.

Definition abandon_send (commitment : hash32) : DM () :=
  st ← reads (fun d => Ok (stage <$> d_sends d !! commitment));
  _ ← raise_if (negb (bool_decide (st = Some Stalled))) NotStalled;
  _ ← need_wallet;
  _ ← in_wallet (update (drop_pending commitment));
  _ ← in_wallet save;
  set_stage commitment Failed.

(** ** Locking and unlocking *)

Definition standard_value (o : OutputData) : Z := match o with Standard _ v _ => v | _ => 0 end.

(** The amount and the fee of a pending send, from its outputs and the coins still held. *)
Definition reconstruct_meta (d : WalletData) (p : PendingCommit) : Z * Z :=
  let out_sum := wrap_sum (map standard_value (pc_outputs p)) in
  let in_sum := wrap_sum (map wc_value (omap (find_coin d) (pc_input_coin_ids p))) in
  let change_sum := match find_pending d (pc_commitment p) with
                    | Some q => wrap_sum (map standard_value (omap (fun s : nat * hash32 => pc_outputs p !! s.1) (pc_change_seeds q)))
                    | None => 0
                    end in
  (sat_sub out_sum change_sum, sat_sub in_sum out_sum).

Definition resume_pending (p : PendingCommit) : DM () :=
  let c := pc_commitment p in
  d ← wallet_data;
  let '(amount, f) := reconstruct_meta d p in
  _ ← insert_send c CommitPending amount f (zero_arr 32);
  mined ← node (fun t => nd_commitments t c);
  if (mined : bool) then
    now ← node clock;
    if sat_sub (pc_reveal_not_before p) now =? 0 then internal (TryReveal c)
    else _ ← set_stage c WaitingReveal; spawn (WatchCommit c (pc_reveal_not_before p))
  else set_stage c Stalled.

Definition resume_pendings : DM () :=
  d ← wallet_data;
  st_each resume_pending (pending d).

Definition unlock : DM () :=
  unlocked ← reads (fun d => Ok (d_unlocked d));
  if (unlocked : bool) then mret () else
  _ ← in_wallet open;
  _ ← modify (fun d => with_ledger (ledger_file d, ledger_file d) (with_scan (scan_file d) (scan_file d) (with_unlocked true d)));
  resume_pendings.

(** The wallet is saved and dropped, whether the save succeeds or not. *)
Definition lock : DM () := fun d =>
  let '(r, d) := (if d_unlocked d then in_wallet save d else (Ok (), d)) in (r, with_unlocked false d).

(** ** Keys and coins *)

Definition new_address (mss : bool) : DM hash32 :=
  _ ← need_wallet;
  in_wallet (if mss then generate_mss DEFAULT_HEIGHT else generate_key).

Definition import_coin_cmd (seed : hash32) (value : Z) (salt : hash32) : DM hash32 :=
  _ ← need_wallet;
  id ← in_wallet (import_coin seed value salt);
  _ ← in_wallet save;
  mret id.

Definition abandon_address (addr : hash32) : DM nat :=
  _ ← need_wallet;
  in_wallet (abandon_coins_at_address addr).

(** ** Scanning *)

Definition scan_outputs (addresses : list hash32) (height : Z) (outputs : list OutputData) : list ScannedCoin :=
  omap (fun o => if bool_decide (output_address o ∈ addresses)
                 then (fun id => mkScanned (output_address o) (output_value o) (output_salt o) id height) <$> output_coin_id o
                 else None) outputs.

Definition scan_block (addresses : list hash32) (height : Z) (b : Batch) : list ScannedCoin :=
  concat (map (fun tx => match tx with
                         | Reveal _ _ outputs _ | Consolidate _ _ outputs _ => scan_outputs addresses height outputs
                         | Commit _ _ => []
                         end) (b_transactions b))
  ++ map (fun cb => mkScanned (cb_address cb) (cb_value cb) (cb_salt cb) (coinbase_coin_id cb) height)
       (filter (fun cb => cb_address cb ∈ addresses) (b_coinbase b)).

(** The heights from [start] on, [n] of them. *)
Fixpoint scan_heights (load : Z -> option (option Batch)) (addresses : list hash32) (n : nat) (start : Z) : option (list ScannedCoin) :=
  match n with
  | O => Some []
  | S n =>
      b ← load start;
      rest ← scan_heights load addresses n (start + 1);
      Some (match b with Some b => scan_block addresses start b | None => [] end ++ rest)
  end.

Definition scan_addresses (addresses : list hash32) (start stop : Z) : DM (list ScannedCoin) :=
  load ← node nd_block;
  reads (fun _ => ok_or ScanFailed (scan_heights load addresses (Z.to_nat (stop - start)) start)).

(** The coins that are new to the wallet. *)
Fixpoint import_found (found : list ScannedCoin) (d : WalletData) : list hash32 * WalletData :=
  match found with
  | [] => ([], d)
  | sc :: found =>
      let '(id, d) := import_scanned (sc_address sc) (sc_value sc) (sc_salt sc) None d in
      let '(ids, d) := import_found found d in
      (match id with Some id => id :: ids | None => ids end, d)
  end.

Definition scan_import_range (addrs : list hash32) (stop : Z) : DM nat :=
  if bool_decide (addrs = []) then mret 0%nat else
  found ← scan_addresses addrs 0 stop;
  _ ← need_wallet;
  d ← wallet_data;
  let '(ids, d) := import_found found d in
  _ ← in_wallet (update (fun _ => d));
  _ ← (if bool_decide (ids = []) then mret () else in_wallet save);
  mret (length ids).

Definition scan_targets (d : WalletData) : list hash32 :=
  remove_dups (watched_addresses d ++ map wc_address (coins d) ++ map mss_address (mss_keys d)).

(** The part of the tick that looks for incoming coins. *)
Definition tick : DM () :=
  unlocked ← reads (fun d => Ok (d_unlocked d));
  '(syncing, tip, timestamp) ← node (fun t => (nd_syncing t, nd_height t, nd_timestamp t));
  start ← reads (fun d => Ok (scan_pos d));
  if negb unlocked || syncing || (tip <=? start) then mret () else
  let stop := Z.min tip (wrap 64 (start + SCAN_CHUNK)) in
  d ← wallet_data;
  found ← attempt (scan_addresses (scan_targets d) start stop);
  match found with
  | None => mret ()
  | Some found =>
      let '(ids, d) := import_found found d in
      _ ← in_wallet (update (fun _ => record_received ids timestamp d));
      _ ← (if bool_decide (ids = []) then mret None else attempt (in_wallet save));
      ok ← node side_file_ok;
      modify (fun d => with_scan stop (if (ok : bool) then stop else scan_file d) d)
  end.

Definition rescan_from (height : Z) : DM () :=
  _ ← need_wallet;
  ok ← node side_file_ok;
  modify (fun d => with_scan height (if (ok : bool) then height else scan_file d) d).

(** ** Sweeps *)

Definition consolidate (addr : hash32) : DM hash32 :=
  _ ← need_wallet;
  syncing ← node nd_syncing;
  _ ← raise_if syncing Syncing;
  _ ← verify_mss_indices;
  '(coins_live, height) ← node (fun t => (nd_coins t, nd_height t));
  _ ← scan_import_range [addr] height;
  d ← wallet_data;
  let live := filter (fun c => wc_address c = addr /\ coins_live (wc_coin_id c) = true) (coins d) in
  let n := Z.of_nat (length live) in
  let total := wrap_sum (map wc_value live) in
  _ ← raise_if (n <? 2) TooFewCoins;
  _ ← raise_if (MAX_CONSOLIDATE_INPUTS <? n) TooManyCoins;
  dest ← in_wallet (generate_mss DEFAULT_HEIGHT);
  let f := (600 + 3000 + 100 + n * 125) * 10 / 1024 + 20 in
  _ ← raise_if (total <=? f) FeeAboveTotal;
  let out_val := total - f in
  outputs ← in_wallet (mapM (salted dest) (decompose_value out_val));
  '(commitment, _) ← in_wallet (prepare_commit (map wc_coin_id live) outputs [] false true);
  _ ← in_wallet save;
  _ ← insert_send commitment Committing out_val f dest;
  _ ← set_stage commitment Committing;
  _ ← broadcast_commit commitment;
  mret commitment.

Definition sweep_fees : FeePolicy := mkPolicy 20 17 2.

Definition live_coins (coins_live : hash32 -> bool) (d : WalletData) : list hash32 :=
  filter (fun id => coins_live id = true) (map wc_coin_id (coins d)).

(** [None] when there is nothing to sweep. *)
Definition defrag (max_inputs : nat) : DM (option hash32) :=
  _ ← need_wallet;
  syncing ← node nd_syncing;
  _ ← raise_if syncing Syncing;
  _ ← verify_mss_indices;
  '(coins_live, height) ← node (fun t => (nd_coins t, nd_height t));
  d ← wallet_data;
  order ← node (fun t => group_order t);
  let live := live_coins coins_live d in
  let bs := spendable_bundles order d live false in
  if Nat.ltb (length bs) 2 then mret None else
  imported ← scan_import_range (remove_dups (map bu_address bs)) height;
  d ← wallet_data;
  let live := if Nat.ltb 0 imported then live_coins coins_live d else live in
  dest ← in_wallet (generate_mss DEFAULT_HEIGHT);
  d ← wallet_data;
  '(order, salts) ← node (fun t => (group_order t, fun i => random (t + i)%nat));
  r ← reads (fun _ => match plan_defrag_batch order salts d live dest sweep_fees max_inputs with
                      | Ok r => Ok r | Err e => Err (DefragErr e) | Panic => Panic end);
  match r with
  | None => mret None
  | Some plan =>
      let out_val := sat_sub (total_in plan) (plan_fee plan) in
      '(commitment, _) ← in_wallet (prepare_commit (input_coin_ids plan) (plan_outputs plan) [] false false);
      _ ← in_wallet save;
      _ ← insert_send commitment Committing out_val (plan_fee plan) dest;
      _ ← set_stage commitment Committing;
      _ ← broadcast_commit commitment;
      mret (Some commitment)
  end.

(** * The daemon as a transition system *)

(** The commands that move coins or keys. *)
Inductive command : forall {A}, DM A -> Prop :=
  | cmd_send dest amount private : in_u 64 amount -> command (start_send dest amount private)
  | cmd_retry c : command (retry_send c)
  | cmd_abandon c : command (abandon_send c)
  | cmd_unlock : command unlock
  | cmd_lock : command lock
  | cmd_new_address mss : command (new_address mss)
  | cmd_import seed v s : 0 < v <= umax 64 -> command (import_coin_cmd seed v s)
  | cmd_abandon_address a : command (abandon_address a)
  | cmd_rescan h : command (rescan_from h)
  | cmd_consolidate a : command (consolidate a)
  | cmd_defrag n : command (defrag n)
  | cmd_tick : command tick.

(** The process has ended: what is left is on disk. *)
Definition locked_down (d : Daemon) : Daemon :=
  let w := d_world d in
  mkDaemon (mkWorld (w_disk w) ∅ (w_disk w) (w_tick w) (w_handed w)) false (scan_file d) (scan_file d) ∅
    (ledger_file d) (ledger_file d) [] [] (d_log d).

(** A panic ends the process. *)
Definition perform {A} (m : DM A) (d : Daemon) : Daemon :=
  match m d with
  | (Panic, d) => locked_down d
  | (_, d) => d
  end.

(** What the tasks do: a commitment is not mined in time, or it is and the delay starts;
    the delay ends; the first input of a reveal is spent. *)
Inductive task_step (d : Daemon) : Daemon -> Prop :=
  | step_stalled l r c nb : d_tasks d = l ++ WatchCommit c nb :: r ->
      task_step d (with_tasks (l ++ r) (with_queue (d_queue d ++ [CommitStalled c]) d))
  | step_mined l r c nb t : d_tasks d = l ++ WatchCommit c nb :: r -> nd_commitments t c = true ->
      task_step d (with_tasks (l ++ WaitDelay c nb :: r) d)
  | step_ready l r c nb t : d_tasks d = l ++ WaitDelay c nb :: r -> nb <= clock t ->
      task_step d (with_tasks (l ++ r) (with_queue (d_queue d ++ [TryReveal c]) d))
  | step_spent l r c i t : d_tasks d = l ++ WatchReveal c i :: r -> nd_coins t i = false ->
      task_step d (with_tasks (l ++ r) (with_queue (d_queue d ++ [RevealConfirmed c]) d)).

Inductive daemon_step (d : Daemon) : Daemon -> Prop :=
  | step_command A (m : DM A) : command m -> daemon_step d (perform m d)
  | step_message msg rest : d_queue d = msg :: rest -> daemon_step d (perform (internal msg) (with_queue rest d))
  | step_task d' : task_step d d' -> daemon_step d d'
  | step_restart : daemon_step d (locked_down d).

End Sends.

(** A wallet that was just created, before it is opened. *)
Definition new_daemon `{Blake3} (w : World) : Daemon := mkDaemon w false 0 0 ∅ empty_ledger empty_ledger [] [] [].
