(* ===== verification/SendsBook.v ===== *)
(** The daemon's address book: the one-time addresses the wallet holds, the ones that
    pending commits spend from and the ones that have signed are kept apart, and each
    operation of the wallet keeps it that way. *)
From S2P Require Import Prelude Types Wots Mss Transaction Wallet WalletSelect WalletSpend WalletSafe WalletReveal SendPlan Defrag Ledger Sends.

#[local] Open Scope Z_scope.

(** * Operations that leave coins and keys alone *)

(** Same keys, coins, trees and pending commits; counters and leaves may move. *)
Record quiet (d d' : WalletData) : Prop := mk_quiet {
  q_keys : keys d' = keys d;
  q_coins : coins d' = coins d;
  q_pending : pending d' = pending d;
  q_trees : map master_pk (mss_keys d') = map master_pk (mss_keys d)
}.

Lemma quiet_refl d : quiet d d.
Proof. split; reflexivity. Qed.

Lemma quiet_trans a b c : quiet a b -> quiet b c -> quiet a c.
Proof. intros [A1 A2 A3 A4] [B1 B2 B3 B4]. split; congruence. Qed.

(** Memory moves quietly, and what is written is no further from it. *)
Definition Quiet_to (w w' : World) : Prop :=
  quiet (w_data w) (w_data w') /\ (w_disk w' = w_disk w \/ quiet (w_data w) (w_disk w')) /\ known_spent w' = known_spent w.

Class Quiet {A} (m : WM A) : Prop := quietly w : Quiet_to w (m w).2.

Section Quiet.
Context `{Blake3} `{!WalletEnv}.

#[export] Instance quiet_bind {A B} (m : WM A) (f : A -> WM B) : Quiet m -> (forall a, Quiet (f a)) -> Quiet (m ≫= f).
Proof.
  intros Hm Hf w. unfold mbind, st_bind. pose proof (Hm w) as H1. destruct (m w) as [[a|e|] w1]; cbn [snd] in *; [|exact H1..].
  destruct H1 as (Q1 & D1 & K1).
  destruct (Hf a w1) as (Q2 & D2 & K2). split; [eapply quiet_trans; eassumption|]. split; [|congruence].
  destruct D2 as [-> | D2]; [exact D1|right; eapply quiet_trans; eassumption].
Qed.

#[export] Instance quiet_ret {A} (a : A) : Quiet (mret a : WM A).
Proof. intros w. split; [apply quiet_refl|auto]. Qed.
#[export] Instance quiet_reads {A} (f : World -> res WalletError A) : Quiet (reads f).
Proof. intros w. split; [apply quiet_refl|auto]. Qed.
#[export] Instance quiet_data : Quiet data.
Proof. apply quiet_reads. Qed.
#[export] Instance quiet_fail_if c e : Quiet (fail_if c e).
Proof. apply quiet_reads. Qed.
#[export] Instance quiet_fail {A} e : Quiet (fail e : WM A).
Proof. apply quiet_reads. Qed.
#[export] Instance quiet_ask {A} (f : nat -> A) : Quiet (ask f).
Proof. intros w. split; [apply quiet_refl|]. split; [left; reflexivity|reflexivity]. Qed.

Lemma quiet_update f : (forall d, quiet d (f d)) -> Quiet (update f).
Proof. intros Hf w. cbn. split; [apply Hf|auto]. Qed.

#[export] Instance quiet_save : Quiet save.
Proof.
  unfold save. apply quiet_bind; [apply _|]. intros ok. apply quiet_bind; [apply _|]. intros _ w. cbn.
  split; [apply quiet_refl|]. split; [right; apply quiet_refl|reflexivity].
Qed.

#[export] Instance quiet_lock : Quiet acquire_lock.
Proof. unfold acquire_lock. apply _. Qed.
#[export] Instance quiet_hand_out s : Quiet (hand_out s).
Proof. intros w. cbn. split; [apply quiet_refl|auto]. Qed.

#[export] Instance quiet_mapM {A B} (f : A -> WM B) l : (forall a, Quiet (f a)) -> Quiet (mapM f l).
Proof. intros Hf. induction l as [|a l IH]; cbn [mapM]; [apply _|]. apply quiet_bind; [apply _|]. intros b. apply quiet_bind; [exact IH|]. intros bs. apply _. Qed.

Ltac quiet_tac :=
  repeat first
    [ progress cbv zeta
    | apply _
    | apply quiet_bind; [|intros ?]
    | apply quiet_update; intros ?; split; reflexivity
    | match goal with
      | |- Quiet (match ?x with _ => _ end) => destruct x
      | |- Quiet (if ?b then _ else _) => destruct b
      end ].

#[export] Instance quiet_allocate : Quiet allocate_next_wots_seed.
Proof. unfold allocate_next_wots_seed. quiet_tac. Qed.
#[export] Instance quiet_allocate_mss : Quiet allocate_next_mss_seed.
Proof. unfold allocate_next_mss_seed. quiet_tac. Qed.
#[export] Instance quiet_salted a v : Quiet (salted a v).
Proof. unfold salted. quiet_tac. Qed.

#[export] Instance quiet_change_outputs o idx denoms : Quiet (change_outputs o idx denoms).
Proof. revert idx. induction denoms as [|v l IH]; intros idx; cbn [change_outputs]; quiet_tac. Qed.

#[export] Instance quiet_lay_out outs change : Quiet (lay_out outs change).
Proof. unfold lay_out. quiet_tac. Qed.

#[export] Instance quiet_select n live : Quiet (select n live).
Proof. unfold select. quiet_tac. Qed.

#[export] Instance quiet_plan_loop fuel count rs live amount f : Quiet rs -> Quiet (plan_loop fuel count rs live amount f).
Proof. intros HR. revert f. induction fuel as [|fuel IH]; intros f; cbn [plan_loop]; quiet_tac. Qed.

#[export] Instance quiet_plan_send fuel live dest amount : Quiet (plan_send fuel live dest amount).
Proof. unfold plan_send. quiet_tac. Qed.

End Quiet.

(** * What a plan selects *)

Section Selection.
Context `{Blake3}.

Definition ids_in (live : list hash32) (bs : list Bundle) : Prop := Forall (fun b => Forall (fun id => id ∈ live) (bu_coin_ids b)) bs.

Lemma ids_in_perm live a b : a ≡ₚ b -> ids_in live a -> ids_in live b.
Proof. intros HP HF. unfold ids_in. rewrite <- HP. exact HF. Qed.

Lemma bundles_ids_in order d live : ids_in live (bundles order d live).
Proof.
  assert (HA : forall c, c ∈ available d live -> wc_coin_id c ∈ live)
    by (intros c Hc; unfold available in Hc; apply list_elem_of_filter in Hc; apply Hc).
  unfold ids_in, bundles. apply Forall_app. split; apply Forall_map, Forall_forall.
  - intros c Hc. apply list_elem_of_filter in Hc as [_ Hc]. cbn. repeat constructor. apply HA, Hc.
  - intros a _. cbn. apply Forall_map, Forall_forall. intros c Hc. apply list_elem_of_filter in Hc as [_ Hc].
    apply list_elem_of_filter in Hc as [_ Hc]. apply HA, Hc.
Qed.

Lemma take_bundles_in live needed bs : forall selected total, ids_in live bs -> Forall (fun id => id ∈ live) selected ->
  Forall (fun id => id ∈ live) (take_bundles needed bs selected total).1.
Proof.
  induction bs as [|b bs IH]; intros selected total HB HS; cbn [take_bundles]; [exact HS|].
  inversion HB as [|? ? Hb Hbs]; subst. destruct (needed <=? total); [exact HS|]. destruct (_ <? _).
  - apply IH; assumption.
  - apply IH; [assumption|]. apply Forall_app. auto.
Qed.

Lemma pop_first_in live denoms l b rest : pop_first denoms l = Some (b, rest) -> ids_in live l ->
  Forall (fun id => id ∈ live) (bu_coin_ids b) /\ ids_in live rest.
Proof. intros HE HL. apply pop_first_Some in HE. apply (ids_in_perm live _ _ HE) in HL. inversion HL; auto. Qed.

Lemma merge_in live mix fuel : forall i needed un selected total, ids_in live un -> Forall (fun id => id ∈ live) selected ->
  Forall (fun id => id ∈ live) (merge mix fuel i needed un selected total).
Proof.
  induction fuel as [|fuel IH]; intros i needed un selected total HU HS; cbn [merge]; [exact HS|].
  destruct (pop_first _ un) as [[b rest]|] eqn:E; [|exact HS]. destruct (pop_first_in live _ _ _ _ E HU) as [H1 H2].
  apply IH; [exact H2|apply Forall_app; auto].
Qed.

Lemma select_coins_in order mix d needed live selected : select_coins order mix d needed live = Ok selected ->
  Forall (fun id => id ∈ live) selected.
Proof.
  unfold select_coins. cbv zeta. set (sorted := sort_by bundle_leb _).
  assert (HS : ids_in live sorted).
  { eapply ids_in_perm; [symmetry; apply sort_by_perm|]. unfold ids_in. apply Forall_forall. intros b Hb.
    apply list_elem_of_filter in Hb as [_ Hb]. pose proof (bundles_ids_in order d live) as HB. unfold ids_in in HB.
    rewrite Forall_forall in HB. apply HB, Hb. }
  pose proof (take_bundles_in live needed sorted [] 0 HS ltac:(constructor)) as HT.
  destruct (take_bundles needed sorted [] 0) as [sel tot]. cbn [fst] in HT.
  destruct (tot <? needed); [destruct (_ <? needed); discriminate|]. intros [= <-].
  apply merge_in; [|exact HT]. unfold ids_in. apply Forall_forall. intros b Hb. apply list_elem_of_filter in Hb as [_ Hb].
  unfold ids_in in HS. rewrite Forall_forall in HS. apply HS, Hb.
Qed.

End Selection.

Section Plans.
Context `{Blake3} `{!WalletEnv}.

(** A planned send spends live coins. *)
Lemma plan_loop_in fuel count rs live amount : forall f w p w',
  plan_loop fuel count rs live amount f w = (Ok p, w') -> Forall (fun id => id ∈ live) (sp_input_coin_ids p).
Proof.
  induction fuel as [|fuel IH]; intros f w p w'; cbn [plan_loop]; [discriminate|]. cbv zeta. intros HE.
  apply st_bind_Ok in HE as (sel & w1 & ES & HE). apply st_bind_Ok in HE as (d & w2 & _ & HE).
  apply st_bind_Ok in HE as (u & w3 & _ & HE). destruct (_ <=? _) in HE.
  - apply st_bind_Ok in HE as (outs & w4 & _ & HE). apply st_bind_Ok in HE as ([o s] & w5 & _ & HE).
    injection HE as <- _. cbn. unfold select in ES. apply st_bind_Ok in ES as (d0 & w6 & _ & ES).
    apply st_bind_Ok in ES as ([order mix] & w7 & _ & ES). unfold reads in ES. injection ES as ES _. eapply select_coins_in, ES.
  - eapply IH, HE.
Qed.

Lemma plan_send_in fuel live dest amount w p w' : plan_send fuel live dest amount w = (Ok p, w') ->
  Forall (fun id => id ∈ live) (sp_input_coin_ids p).
Proof.
  unfold plan_send. intros HE. apply st_bind_Ok in HE as (u & w1 & _ & HE). eapply plan_loop_in, HE.
Qed.

End Plans.

(** * The address book *)

Section Book.
Context `{Blake3}.

(** The addresses of the change of a pending commit, which the wallet takes over when the
    reveal is confirmed. *)
Definition change_of (p : PendingCommit) : list hash32 :=
  omap (fun s : nat * hash32 => output_address <$> (pc_outputs p !! s.1)) (pc_change_seeds p).

Definition change_addrs (d : WalletData) : list hash32 := concat (map change_of (pending d)).
Definition key_addrs (d : WalletData) : list hash32 := map k_address (keys d).
Definition coin_addrs (d : WalletData) : list hash32 := map wc_address (coins d).
Definition mss_addrs (d : WalletData) : list hash32 := map mss_address (mss_keys d).

(** Two pending commits that have no input and no one-time address in common. *)
Definition apart (d : WalletData) (p q : PendingCommit) : Prop := forall id id' c c',
  id ∈ pc_input_coin_ids p -> id' ∈ pc_input_coin_ids q -> find_coin d id = Some c -> find_coin d id' = Some c' ->
  id <> id' /\ (wc_address c = wc_address c' -> wc_address c ∈ mss_addrs d).

Record book_ok (d : WalletData) : Prop := mk_book {
  b_ids : NoDup (map wc_coin_id (coins d));
  b_commitment : forall p, p ∈ pending d -> pc_commitment p = pending_commitment p;
  b_owned : forall p id, p ∈ pending d -> id ∈ pc_input_coin_ids p -> is_Some (find_coin d id);
  b_apart : forall p q, p ∈ pending d -> q ∈ pending d -> pending_commitment p = pending_commitment q \/ apart d p q;
  b_keys : NoDup (key_addrs d);
  b_change : NoDup (change_addrs d);
  b_key_new : forall a, a ∈ key_addrs d -> (a ∉ coin_addrs d) /\ (a ∉ mss_addrs d) /\ (a ∉ change_addrs d);
  b_change_new : forall a, a ∈ change_addrs d -> (a ∉ coin_addrs d) /\ (a ∉ mss_addrs d)
}.

Definition one_time (d : WalletData) (c : WalletCoin) : Prop :=
  (wc_address c ∉ mss_addrs d) /\ mss_position d (wc_owner_pk c) = None.

(** A reveal was sent that the one-time key of [a] signed. *)
Definition key_signed (e : Sent) (a : hash32) : Prop := exists p id c,
  s_pending e = Some p /\ id ∈ pc_input_coin_ids p /\ find_coin (w_data (s_world e)) id = Some c
  /\ wc_address c = a /\ one_time (w_data (s_world e)) c.

(** An address whose key has signed [com]: no other pending commit can spend from it. *)
Definition retired (a com : hash32) (d : WalletData) : Prop :=
  all_signed_at d a
  /\ (forall q id c, q ∈ pending d -> id ∈ pc_input_coin_ids q -> find_coin d id = Some c -> wc_address c = a -> pending_commitment q = com)
  /\ (a ∉ key_addrs d) /\ (a ∉ mss_addrs d) /\ (a ∉ change_addrs d).

Definition data_ok (log : list Sent) (d : WalletData) : Prop :=
  book_ok d /\ forall e a p, e ∈ log -> s_pending e = Some p -> key_signed e a -> retired a (pending_commitment p) d.

(** ** Looking coins up *)

Lemma find_coin_In d c : NoDup (map wc_coin_id (coins d)) -> c ∈ coins d -> find_coin d (wc_coin_id c) = Some c.
Proof.
  intros HN Hc. unfold find_coin. destruct (list_find_elem_of (fun x => wc_coin_id x = wc_coin_id c) (coins d) c Hc eq_refl) as [[i x] Ex].
  rewrite Ex. cbn. f_equal. apply list_find_Some in Ex as (Ex & E & _). apply list_elem_of_lookup_2 in Ex.
  eapply (NoDup_map_inj wc_coin_id); eassumption.
Qed.

Lemma find_coin_None d id : find_coin d id = None <-> id ∉ map wc_coin_id (coins d).
Proof.
  unfold find_coin. destruct (list_find _ (coins d)) as [[i c]|] eqn:E; cbn.
  - split; [discriminate|]. intros HN. exfalso. apply HN. apply list_find_Some in E as (E & <- & _).
    apply list_elem_of_fmap_2. eapply list_elem_of_lookup_2, E.
  - split; [|reflexivity]. intros _ HI. apply list_elem_of_fmap in HI as (c & -> & Hc). apply list_find_None in E.
    rewrite Forall_forall in E. apply (E c Hc). reflexivity.
Qed.

Lemma mss_addrs_trees d d' : map master_pk (mss_keys d') = map master_pk (mss_keys d) -> mss_addrs d' = mss_addrs d.
Proof. intros E. unfold mss_addrs, mss_address. rewrite <- !(map_map master_pk), E. reflexivity. Qed.

Lemma mss_position_trees d d' pk : map master_pk (mss_keys d') = map master_pk (mss_keys d) -> mss_position d pk = None ->
  mss_position d' pk = None.
Proof.
  intros E HN. apply mss_position_None in HN. rewrite <- E in HN. unfold mss_position.
  destruct (list_find _ (mss_keys d')) as [[i k]|] eqn:EF; [|reflexivity]. exfalso. apply HN.
  apply list_find_Some in EF as (EF & <- & _). apply list_elem_of_fmap_2. eapply list_elem_of_lookup_2, EF.
Qed.

Lemma is_mss_spec d a : is_mss_address d a = true <-> a ∈ mss_addrs d.
Proof.
  unfold is_mss_address, mss_addrs. rewrite existsb_exists. setoid_rewrite bool_decide_eq_true. rewrite list_elem_of_fmap.
  setoid_rewrite list_elem_of_In. split; intros (k & H1 & H2); exists k; auto.
Qed.

(** ** Signing *)

(** Flags are set and leaves move; nothing else. *)
Record signs (d d' : WalletData) : Prop := mk_signs {
  sg_evolves : evolves d d';
  sg_keys : keys d' = keys d;
  sg_pending : pending d' = pending d
}.

Lemma signs_refl d : signs d d.
Proof. split; [apply evolves_refl|reflexivity..]. Qed.

Lemma signs_trans a b c : signs a b -> signs b c -> signs a c.
Proof. intros [A1 A2 A3] [B1 B2 B3]. split; [eapply evolves_trans; eassumption|congruence..]. Qed.

Lemma quiet_signs d d' : quiet d d' -> signs d d'.
Proof.
  intros [Q1 Q2 Q3 Q4]. split; [split; [|exact Q4]|exact Q1|exact Q3]. rewrite Q2. apply (ev_coins _ _ (evolves_refl d)).
Qed.

Lemma signs_ids d d' : signs d d' -> map wc_coin_id (coins d') = map wc_coin_id (coins d) /\ coin_addrs d' = coin_addrs d.
Proof.
  intros [[C _] _ _]. unfold coin_addrs. induction C as [|x y l l' Hxy C [I1 I2]]; [auto|]. cbn.
  rewrite I1, I2. destruct Hxy as [-> | ->]; auto.
Qed.

Lemma signs_find_back d d' id c' : signs d d' -> find_coin d' id = Some c' -> exists c, find_coin d id = Some c /\ flagged_from c c'.
Proof.
  intros HS E. destruct (find_coin d id) as [c|] eqn:EF.
  - destruct (evolves_find _ _ _ _ (sg_evolves _ _ HS) EF) as (x & Ex & HX). exists c. split; [reflexivity|]. congruence.
  - apply find_coin_None in EF. rewrite <- (proj1 (signs_ids _ _ HS)) in EF. apply find_coin_None in EF. congruence.
Qed.

Lemma flagged_same c c' : flagged_from c c' -> wc_address c' = wc_address c /\ wc_owner_pk c' = wc_owner_pk c.
Proof. intros [-> | ->]; auto. Qed.

Lemma data_ok_signs log d d' : signs d d' -> data_ok log d -> data_ok log d'.
Proof.
  intros HS [[B1 B2 B3 B4 B5 B6 B7 B8] HR]. destruct (signs_ids _ _ HS) as [E1 E2]. pose proof HS as [HE EK EP].
  pose proof (mss_addrs_trees _ _ (ev_trees _ _ HE)) as EM.
  assert (EA : key_addrs d' = key_addrs d) by (unfold key_addrs; congruence).
  assert (EC : change_addrs d' = change_addrs d) by (unfold change_addrs; congruence).
  split; [split|].
  - rewrite E1. exact B1.
  - rewrite EP. exact B2.
  - rewrite EP. intros p id Hp Hid. destruct (B3 p id Hp Hid) as [c Ec]. destruct (evolves_find _ _ _ _ HE Ec) as (c' & -> & _). eauto.
  - rewrite EP. intros p q Hp Hq. destruct (B4 p q Hp Hq) as [HX|HX]; [left; exact HX|right]. intros id id' c c' Hid Hid' Ec Ec'.
    destruct (signs_find_back _ _ _ _ HS Ec) as (x & Ex & Fx), (signs_find_back _ _ _ _ HS Ec') as (y & Ey & Fy).
    rewrite (proj1 (flagged_same _ _ Fx)), (proj1 (flagged_same _ _ Fy)), EM. apply (HX id id' x y Hid Hid' Ex Ey).
  - rewrite EA. exact B5.
  - rewrite EC. exact B6.
  - intros a. rewrite EA, EC, EM, E2. apply B7.
  - intros a. rewrite EC, EM, E2. apply B8.
  - intros e a p He Hp Hk. destruct (HR e a p He Hp Hk) as (R1 & R2 & R3 & R4 & R5). unfold retired. rewrite EA, EC, EM, EP.
    split; [apply (evolves_signed _ _ _ HE R1)|]. split; [|auto]. intros q id c Hq Hid Ec Ea.
    destruct (signs_find_back _ _ _ _ HS Ec) as (x & Ex & Fx). apply (R2 q id x Hq Hid Ex). rewrite <- Ea.
    symmetry. apply (proj1 (flagged_same _ _ Fx)).
Qed.

Lemma data_ok_quiet log d d' : quiet d d' -> data_ok log d -> data_ok log d'.
Proof. intros HQ. apply data_ok_signs, quiet_signs, HQ. Qed.

Lemma data_ok_log log l d : Forall (fun e => s_pending e = None) l -> data_ok (log ++ l) d <-> data_ok log d.
Proof.
  intros HF. rewrite Forall_forall in HF. split; intros [HB HR]; (split; [exact HB|]); intros e a p He; [apply HR, elem_of_app; auto|].
  apply elem_of_app in He as [He|He]; [apply HR, He|]. intros Hp. rewrite (HF e He) in Hp. discriminate.
Qed.

End Book.

(** * Each change of the wallet keeps the book *)

Section Changes.
Context `{Blake3}.

Lemma concat_sublist {A} (l k : list (list A)) : l `sublist_of` k -> concat l `sublist_of` concat k.
Proof.
  induction 1 as [|x l k HS IH|x l k HS IH]; cbn; [constructor| |].
  - apply sublist_app; [reflexivity|exact IH].
  - apply sublist_inserts_l. exact IH.
Qed.

(** A part of the pending commits. *)
Lemma data_ok_drop log d (P : PendingCommit -> Prop) `{forall p, Decision (P p)} : data_ok log d ->
  data_ok log (set_pending (filter P (pending d)) d).
Proof.
  intros [[B1 B2 B3 B4 B5 B6 B7 B8] HR]. set (d' := set_pending _ d).
  assert (HI : forall p, p ∈ pending d' -> p ∈ pending d) by (intros p Hp; cbn in Hp; apply list_elem_of_filter in Hp; apply Hp).
  assert (HC : change_addrs d' `sublist_of` change_addrs d).
  { apply concat_sublist. unfold d'. cbn. apply (fmap_sublist change_of), sublist_filter. }
  assert (HC' : forall a, a ∉ change_addrs d -> a ∉ change_addrs d').
  { intros a Ha HX. apply Ha. eapply elem_of_submseteq; [exact HX|apply sublist_submseteq, HC]. }
  split; [split|]; try assumption.
  - intros p Hp. apply B2, HI, Hp.
  - intros p id Hp. apply B3, HI, Hp.
  - intros p q Hp Hq. apply B4; apply HI; assumption.
  - eapply sublist_NoDup; [exact B6|exact HC].
  - intros a Ha. destruct (B7 a Ha) as (H1 & H2 & H3). auto.
  - intros a Ha. apply B8. eapply elem_of_submseteq; [exact Ha|apply sublist_submseteq, HC].
  - intros e a p He Hp Hk. destruct (HR e a p He Hp Hk) as (R1 & R2 & R3 & R4 & R5). split; [exact R1|].
    split; [|auto]. intros q id c Hq. apply R2, HI, Hq.
Qed.

(** Coins that no pending commit spends. *)
Lemma data_ok_remove log d ids : (forall p id, p ∈ pending d -> id ∈ pc_input_coin_ids p -> id ∉ ids) -> data_ok log d ->
  data_ok log (remove_coins ids d).
Proof.
  intros HF [[B1 B2 B3 B4 B5 B6 B7 B8] HR]. set (d' := remove_coins ids d).
  assert (HS : coins d' `sublist_of` coins d) by apply sublist_filter.
  assert (HA : forall a, a ∉ coin_addrs d -> a ∉ coin_addrs d').
  { intros a Ha HX. apply Ha. eapply elem_of_submseteq; [exact HX|]. apply sublist_submseteq, fmap_sublist, HS. }
  assert (HB : forall id c, find_coin d' id = Some c -> find_coin d id = Some c).
  { intros id c E. apply find_coin_Some in E as [Hc <-]. apply find_coin_In; [exact B1|].
    eapply elem_of_submseteq; [exact Hc|apply sublist_submseteq, HS]. }
  split; [split|]; try assumption.
  - eapply sublist_NoDup; [exact B1|apply fmap_sublist, HS].
  - intros p id Hp Hid. destruct (B3 p id Hp Hid) as [c Ec]. apply find_coin_Some in Ec as [Hc E].
    exists c. rewrite <- E. apply find_coin_In; [eapply sublist_NoDup; [exact B1|apply fmap_sublist, HS]|].
    unfold d', remove_coins. cbn. apply list_elem_of_filter. split; [|exact Hc]. rewrite E. apply (HF p id Hp Hid).
  - intros p q Hp Hq. destruct (B4 p q Hp Hq) as [HX|HX]; [left; exact HX|right]. intros id id' c c' H1 H2 E1 E2.
    apply (HX id id' c c' H1 H2 (HB _ _ E1) (HB _ _ E2)).
  - intros a Ha. destruct (B7 a Ha) as (H1 & H2 & H3). auto.
  - intros a Ha. destruct (B8 a Ha) as (H1 & H2). auto.
  - intros e a p He Hp Hk. destruct (HR e a p He Hp Hk) as (R1 & R2 & R3 & R4 & R5). split; [|split; [|auto]].
    + apply Forall_forall. intros c Hc. unfold all_signed_at in R1. rewrite Forall_forall in R1. apply R1.
      eapply elem_of_submseteq; [exact Hc|apply sublist_submseteq, HS].
    + intros q id c Hq Hid Ec. apply (R2 q id c Hq Hid), HB, Ec.
Qed.

(** A new coin, at an address that has not signed. *)
Lemma data_ok_push log d c : has_coin d (wc_coin_id c) = false -> (wc_address c ∉ key_addrs d) -> (wc_address c ∉ change_addrs d) ->
  (forall e p, e ∈ log -> s_pending e = Some p -> ~ key_signed e (wc_address c)) -> data_ok log d -> data_ok log (push_coin c d).
Proof.
  intros HH HK HC HL [[B1 B2 B3 B4 B5 B6 B7 B8] HR]. set (d' := push_coin c d).
  assert (HN : wc_coin_id c ∉ map wc_coin_id (coins d)).
  { intros HX. apply list_elem_of_fmap in HX as (x & E & Hx). unfold has_coin in HH.
    assert (HT : existsb (fun c' => bool_decide (wc_coin_id c' = wc_coin_id c)) (coins d) = true); [|congruence].
    apply existsb_exists. exists x. rewrite bool_decide_eq_true. split; [apply list_elem_of_In, Hx|symmetry; exact E]. }
  assert (B1' : NoDup (map wc_coin_id (coins d'))).
  { unfold d'. cbn. rewrite map_app. apply NoDup_app. split; [exact B1|]. split; [|apply NoDup_singleton].
    intros x Hx HX. apply list_elem_of_singleton in HX as ->. contradiction. }
  assert (HA : forall a, a <> wc_address c -> a ∉ coin_addrs d -> a ∉ coin_addrs d').
  { intros a HE Ha HX. unfold d', coin_addrs in HX. cbn in HX. rewrite map_app in HX. apply elem_of_app in HX as [HX|HX]; [apply Ha, HX|].
    apply list_elem_of_singleton in HX. contradiction. }
  assert (HF : forall id x, find_coin d id = Some x -> find_coin d' id = Some x).
  { intros id x E. apply find_coin_Some in E as [Hx <-]. apply find_coin_In; [exact B1'|]. unfold d'. cbn. apply elem_of_app. auto. }
  assert (HB : forall p id x, p ∈ pending d -> id ∈ pc_input_coin_ids p -> find_coin d' id = Some x -> find_coin d id = Some x).
  { intros p id x Hp Hid E. destruct (B3 p id Hp Hid) as [y Ey]. pose proof (HF _ _ Ey). congruence. }
  split; [split|]; try assumption.
  - intros p id Hp Hid. destruct (B3 p id Hp Hid) as [x Ex]. rewrite (HF _ _ Ex). eauto.
  - intros p q Hp Hq. destruct (B4 p q Hp Hq) as [HX|HX]; [left; exact HX|right]. intros id id' x x' H1 H2 E1 E2.
    apply (HX id id' x x' H1 H2 (HB p _ _ Hp H1 E1) (HB q _ _ Hq H2 E2)).
  - intros a Ha. destruct (B7 a Ha) as (H1 & H2 & H3). split; [|auto]. apply HA; [intros ->; contradiction|exact H1].
  - intros a Ha. destruct (B8 a Ha) as (H1 & H2). split; [|auto]. apply HA; [intros ->; contradiction|exact H1].
  - intros e a p He Hp Hk. destruct (HR e a p He Hp Hk) as (R1 & R2 & R3 & R4 & R5). split; [|split; [|auto]].
    + unfold all_signed_at, d'. cbn. apply Forall_app. split; [exact R1|]. constructor; [|constructor].
      intros E. exfalso. apply (HL e p He Hp). rewrite E. exact Hk.
    + intros q id x Hq Hid Ex. apply (R2 q id x Hq Hid), (HB q id x Hq Hid Ex).
Qed.

Lemma data_ok_fewer_keys log d ks : ks `sublist_of` keys d -> data_ok log d -> data_ok log (set_keys ks d).
Proof.
  intros HS [[B1 B2 B3 B4 B5 B6 B7 B8] HR].
  assert (HK : forall a, a ∈ key_addrs (set_keys ks d) -> a ∈ key_addrs d).
  { intros a Ha. eapply elem_of_submseteq; [exact Ha|apply sublist_submseteq, fmap_sublist, HS]. }
  split; [split|]; try assumption.
  - eapply sublist_NoDup; [exact B5|apply fmap_sublist, HS].
  - intros a Ha. apply B7, HK, Ha.
  - intros e a p He Hp Hk. destruct (HR e a p He Hp Hk) as (R1 & R2 & R3 & R4 & R5). split; [exact R1|]. split; [exact R2|]. auto.
Qed.

(** An address the wallet does not have, whose key has signed nothing. *)
Definition unseen (log : list Sent) (d : WalletData) (a : hash32) : Prop :=
  (a ∉ key_addrs d) /\ (a ∉ coin_addrs d) /\ (a ∉ mss_addrs d) /\ (a ∉ change_addrs d)
  /\ forall e, e ∈ log -> ~ key_signed e a.

Lemma data_ok_new_key log d k : unseen log d (k_address k) -> data_ok log d -> data_ok log (push_key k d).
Proof.
  intros (U1 & U2 & U3 & U4 & U5) [[B1 B2 B3 B4 B5 B6 B7 B8] HR].
  assert (HK : key_addrs (push_key k d) = key_addrs d ++ [k_address k]) by (unfold key_addrs; cbn; apply map_app).
  split; [split|]; try assumption.
  - rewrite HK. apply NoDup_app. split; [exact B5|]. split; [|apply NoDup_singleton].
    intros x Hx HX. apply list_elem_of_singleton in HX as ->. contradiction.
  - intros a Ha. rewrite HK in Ha. apply elem_of_app in Ha as [Ha|Ha]; [apply B7, Ha|]. apply list_elem_of_singleton in Ha as ->. auto.
  - intros e a p He Hp Hk. destruct (HR e a p He Hp Hk) as (R1 & R2 & R3 & R4 & R5). split; [exact R1|]. split; [exact R2|]. split; [|auto].
    rewrite HK. intros HX. apply elem_of_app in HX as [HX|HX]; [contradiction|]. apply list_elem_of_singleton in HX as ->. apply (U5 e He Hk).
Qed.

Lemma data_ok_new_tree log d k : unseen log d (mss_address k) -> data_ok log d -> data_ok log (set_mss (mss_keys d ++ [k]) d).
Proof.
  intros (U1 & U2 & U3 & U4 & U5) [[B1 B2 B3 B4 B5 B6 B7 B8] HR]. set (d' := set_mss _ d).
  assert (HM : mss_addrs d' = mss_addrs d ++ [mss_address k]) by (unfold mss_addrs; cbn; apply map_app).
  assert (HX : forall a, a <> mss_address k -> a ∉ mss_addrs d -> a ∉ mss_addrs d').
  { intros a HE Ha HI. rewrite HM in HI. apply elem_of_app in HI as [HI|HI]; [contradiction|]. apply list_elem_of_singleton in HI. contradiction. }
  split; [split|]; try assumption.
  - intros p q Hp Hq. destruct (B4 p q Hp Hq) as [HY|HY]; [left; exact HY|right]. intros id id' c c' H1 H2 E1 E2.
    destruct (HY id id' c c' H1 H2 E1 E2) as [HD HT]. split; [exact HD|]. intros E. rewrite HM. apply elem_of_app. left. apply HT, E.
  - intros a Ha. destruct (B7 a Ha) as (H1 & H2 & H3). split; [exact H1|]. split; [|exact H3]. apply HX; [intros ->; contradiction|exact H2].
  - intros a Ha. destruct (B8 a Ha) as (H1 & H2). split; [exact H1|]. apply HX; [intros ->; contradiction|exact H2].
  - intros e a p He Hp Hk. destruct (HR e a p He Hp Hk) as (R1 & R2 & R3 & R4 & R5). split; [exact R1|]. split; [exact R2|].
    split; [exact R3|]. split; [|exact R5]. apply HX; [|exact R4]. intros ->. apply (U5 e He Hk).
Qed.

(** A tree whose address the wallet already has. *)
Lemma data_ok_same_tree log d k : mss_address k ∈ mss_addrs d -> data_ok log d -> data_ok log (set_mss (mss_keys d ++ [k]) d).
Proof.
  intros HK [[B1 B2 B3 B4 B5 B6 B7 B8] HR]. set (d' := set_mss _ d).
  assert (HE : mss_addrs d' = mss_addrs d ++ [mss_address k]) by (unfold mss_addrs; cbn; apply map_app).
  assert (HM : forall a, a ∈ mss_addrs d' <-> a ∈ mss_addrs d).
  { intros a. rewrite HE, elem_of_app, list_elem_of_singleton. split; [intros [HX| ->]; [exact HX|exact HK]|auto]. }
  split; [split|]; try assumption.
  - intros p q Hp Hq. destruct (B4 p q Hp Hq) as [HY|HY]; [left; exact HY|right]. intros id id' c c' H1 H2 E1 E2.
    rewrite HM. apply (HY id id' c c' H1 H2 E1 E2).
  - intros a Ha. rewrite HM. apply B7, Ha.
  - intros a Ha. rewrite HM. apply B8, Ha.
  - intros e a p He Hp Hk. unfold retired. rewrite HM. apply (HR e a p He Hp Hk).
Qed.

(** A commit on unsigned coins that no other pending commit spends, past the gate. *)
Lemma data_ok_commit log d p : pc_commitment p = pending_commitment p ->
  (forall id, id ∈ pc_input_coin_ids p -> (id ∉ in_flight_inputs d) /\ exists c, find_coin d id = Some c /\ wots_signed c = false) ->
  (forall id sib, id ∈ pc_input_coin_ids p -> sib ∈ wots_siblings d id -> sib ∈ pc_input_coin_ids p) ->
  NoDup (change_of p) -> (forall a, a ∈ change_of p -> unseen log d a) -> data_ok log d ->
  data_ok log (set_pending (pending d ++ [p]) d).
Proof.
  intros EP HI HG HNC HU [[B1 B2 B3 B4 B5 B6 B7 B8] HR]. set (d' := set_pending _ d).
  assert (HC : change_addrs d' = change_addrs d ++ change_of p)
    by (unfold change_addrs, d'; cbn; rewrite map_app, concat_app; cbn; rewrite app_nil_r; reflexivity).
  assert (HX : forall a, (forall b, b ∈ change_of p -> a <> b) -> a ∉ change_addrs d -> a ∉ change_addrs d').
  { intros a HE Ha HY. rewrite HC in HY. apply elem_of_app in HY as [HY|HY]; [contradiction|]. apply (HE a HY eq_refl). }
  assert (HA : forall q, q ∈ pending d -> apart d p q /\ apart d q p).
  { intros q Hq. assert (HH : forall id id' c c', id ∈ pc_input_coin_ids p -> id' ∈ pc_input_coin_ids q -> find_coin d id = Some c ->
      find_coin d id' = Some c' -> id <> id' /\ (wc_address c = wc_address c' -> wc_address c ∈ mss_addrs d)).
    { intros id id' c c' Hid Hid' Ec Ec'. assert (HF : id' ∈ in_flight_inputs d).
      { unfold in_flight_inputs. apply list_elem_of_In, in_concat. exists (pc_input_coin_ids q).
        split; [apply in_map, list_elem_of_In, Hq|apply list_elem_of_In, Hid']. }
      assert (HD : id <> id') by (intros ->; apply (proj1 (HI id' Hid)), HF). split; [exact HD|]. intros E.
      destruct (is_mss_address d (wc_address c)) eqn:EM; [apply is_mss_spec, EM|]. exfalso. apply (proj1 (HI id' (HG id id' Hid ltac:(
        unfold wots_siblings; rewrite Ec, EM; apply find_coin_Some in Ec' as [Hc' E']; rewrite <- E'; apply list_elem_of_fmap_2, list_elem_of_filter;
        split; [split; [congruence|congruence]|exact Hc'])))), HF. }
    split; [exact HH|]. intros id id' c c' Hid Hid' Ec Ec'. destruct (HH id' id c' c Hid' Hid Ec' Ec) as [H1 H2].
    split; [congruence|]. intros E. rewrite E. apply H2. congruence. }
  assert (HP : forall q, q ∈ pending d' -> q ∈ pending d \/ q = p)
    by (intros q Hq; cbn in Hq; apply elem_of_app in Hq as [Hq|Hq]; [auto|apply list_elem_of_singleton in Hq; auto]).
  split; [split|]; try assumption.
  - intros q Hq. destruct (HP q Hq) as [Hq'| ->]; [apply B2, Hq'|exact EP].
  - intros q id Hq Hid. destruct (HP q Hq) as [Hq'| ->]; [apply (B3 q id Hq' Hid)|]. destruct (HI id Hid) as (_ & c & Ec & _). exists c. exact Ec.
  - intros q r Hq Hr. destruct (HP q Hq) as [Hq'| ->], (HP r Hr) as [Hr'| ->].
    + apply (B4 q r Hq' Hr').
    + right. apply (HA q Hq').
    + right. apply (HA r Hr').
    + left. reflexivity.
  - rewrite HC. apply NoDup_app. split; [exact B6|]. split; [|exact HNC]. intros a Ha HY. apply (HU a HY), Ha.
  - intros a Ha. destruct (B7 a Ha) as (H1 & H2 & H3). split; [exact H1|]. split; [exact H2|]. apply HX; [|exact H3].
    intros b Hb ->. apply (proj1 (HU b Hb)), Ha.
  - intros a Ha. rewrite HC in Ha. apply elem_of_app in Ha as [Ha|Ha]; [apply B8, Ha|]. destruct (HU a Ha) as (_ & U2 & U3 & _). auto.
  - intros e a q He Hq Hk. destruct (HR e a q He Hq Hk) as (R1 & R2 & R3 & R4 & R5). split; [exact R1|]. split; [|split; [exact R3|split; [exact R4|]]].
    + intros r id c Hr Hid Ec Ea. destruct (HP r Hr) as [Hr'| ->]; [apply (R2 r id c Hr' Hid Ec Ea)|]. exfalso.
      destruct (HI id Hid) as (_ & c' & Ec' & Es). change (find_coin d id = Some c) in Ec. assert (c' = c) by congruence. subst c'.
      unfold all_signed_at in R1. rewrite Forall_forall in R1. apply find_coin_Some in Ec as [Hc _]. rewrite (R1 c Hc Ea) in Es. discriminate.
    + apply HX; [|exact R5]. intros b Hb ->. destruct (HU b Hb) as (_ & _ & _ & _ & HU'). apply (HU' e He Hk).
Qed.

End Changes.

(** * The wallet's operations keep the book *)

Section Operations.
Context `{HB : Blake3} `{WE : !WalletEnv} `{WL : !WalletEnvLaws}.

Lemma data_ok_import log a v s c d : data_ok log d -> data_ok log (import_scanned a v s c d).2.
Proof.
  intros HD. pose proof HD as [[B1 B2 B3 B4 B5 B6 B7 B8] HR]. unfold import_scanned. cbv zeta.
  destruct (has_coin d _) eqn:EH; [exact HD|].
  destruct (list_find _ (keys d)) as [[pos k]|] eqn:EK.
  - apply list_find_Some in EK as (EK & EA & _). cbn [snd].
    assert (HI : a ∈ key_addrs d) by (rewrite <- EA; apply list_elem_of_fmap_2; eapply list_elem_of_lookup_2, EK).
    destruct (B7 a HI) as (H1 & H2 & H3). apply data_ok_push; cbn [wc_address wc_coin_id].
    + exact EH.
    + pose proof B5 as HN. unfold key_addrs in HN. rewrite <- (take_drop_middle _ _ _ EK), map_app in HN.
      apply NoDup_app in HN as (_ & HD1 & HN). cbn [map] in HN. apply NoDup_cons in HN as [HN _].
      unfold key_addrs, set_keys. cbn [keys]. rewrite delete_take_drop, map_app. intros HX. apply elem_of_app in HX as [HX|HX].
      * apply (HD1 a HX). rewrite <- EA. left.
      * apply HN. rewrite EA. exact HX.
    + exact H3.
    + intros e p He Hp Hk. destruct (HR e a p He Hp Hk) as (_ & _ & R3 & _). contradiction.
    + apply data_ok_fewer_keys; [apply sublist_delete|exact HD].
  - destruct (list_find _ (mss_keys d)) as [[i k]|] eqn:EM.
    + apply list_find_Some in EM as (EM & EA & _). assert (HI : a ∈ mss_addrs d) by (rewrite <- EA; apply list_elem_of_fmap_2; eapply list_elem_of_lookup_2, EM).
      cbn [snd]. apply data_ok_push; cbn [wc_address wc_coin_id]; [exact EH| | | |exact HD].
      * intros HX. exact (proj1 (proj2 (B7 a HX)) HI).
      * intros HX. exact (proj2 (B8 a HX) HI).
      * intros e p He Hp Hk. destruct (HR e a p He Hp Hk) as (_ & _ & _ & R4 & _). contradiction.
    + destruct (list_find _ (coins d)) as [[i x]|] eqn:EC; [|exact HD]. apply list_find_Some in EC as (EC & EA & _).
      apply list_elem_of_lookup_2 in EC. assert (HI : a ∈ coin_addrs d) by (rewrite <- EA; apply list_elem_of_fmap_2, EC).
      destruct (negb (is_mss_address d a) && wots_signed x) eqn:ES; [exact HD|].
      cbn [snd]. apply data_ok_push; cbn [wc_address wc_coin_id]; [exact EH| | | |exact HD].
      * intros HX. exact (proj1 (B7 a HX) HI).
      * intros HX. exact (proj1 (B8 a HX) HI).
      * intros e p He Hp Hk. destruct (HR e a p He Hp Hk) as (R1 & _ & _ & R4 & _). unfold all_signed_at in R1.
        rewrite Forall_forall in R1. rewrite (R1 x EC EA), andb_true_r in ES. apply negb_false_iff in ES. apply R4, is_mss_spec, ES.
Qed.

Lemma data_ok_import_found log found : forall d, data_ok log d -> data_ok log (import_found found d).2.
Proof.
  induction found as [|sc found IH]; intros d HD; cbn [import_found]; [exact HD|].
  pose proof (data_ok_import log (sc_address sc) (sc_value sc) (sc_salt sc) None d HD) as H1.
  destruct (import_scanned _ _ _ None d) as [id d1]. specialize (IH d1 H1). destruct (import_found found d1) as [ids d2]. exact IH.
Qed.

(** Signing flags the one-time addresses it signs for, and persists that before it returns. *)
Lemma sign_owner_effect m wc cache w :
  let '(r, w') := sign_owner m wc cache w in
  signs (w_data w) (w_data w') /\ w_disk w' = w_disk w /\ known_spent w' = known_spent w
  /\ (forall x, r = Ok x -> mss_position (w_data w) (wc_owner_pk wc) = None -> all_signed_at (w_data w') (wc_address wc)).
Proof.
  unfold sign_owner, data, mbind, st_bind, reads. destruct (mss_position (w_data w) (wc_owner_pk wc)) as [pos|] eqn:EP.
  - destruct (cache !! wc_owner_pk wc) as [sig|]; [split; [apply signs_refl|auto]; split; [reflexivity|]; split; [reflexivity|congruence]|].
    unfold sign_mss, check_remaining, on_mss, mbind, st_bind, reads.
    destruct (mss_keys (w_data w) !! pos) as [k|] eqn:EK; cbn [unwrap mbind res_bind];
      [|split; [apply signs_refl|]; split; [reflexivity|]; split; [reflexivity|congruence]].
    destruct (remaining k =? 0); cbn [bail_if]; [split; [apply signs_refl|]; split; [reflexivity|]; split; [reflexivity|congruence]|].
    pose proof (mss_sign_next m k) as HN. destruct (mss_sign m k) as [r k'] eqn:ES. cbn [snd] in HN.
    assert (HS : signs (w_data w) (set_mss (<[pos:=k']> (mss_keys (w_data w))) (w_data w))).
    { split; [split|reflexivity..]; [apply (ev_coins _ _ (evolves_refl (w_data w)))|]. cbn. rewrite map_insert. apply list_insert_id.
      rewrite lookup_map, EK. cbn. f_equal. destruct HN as [-> | ->]; reflexivity. }
    destruct r as [sig|e|]; cbn [lift_mss]; (split; [exact HS|]); (split; [reflexivity|]); (split; [reflexivity|congruence]).
  - cbn. split; [split; [apply evolves_mark|reflexivity..]|]. split; [reflexivity|]. split; [reflexivity|]. intros _ _ _. apply mark_signed_all.
Qed.

Lemma sign_inputs_effect m ids : forall cache w,
  let '(r, w') := sign_inputs m ids cache w in
  signs (w_data w) (w_data w') /\ w_disk w' = w_disk w /\ known_spent w' = known_spent w
  /\ (forall x, r = Ok x -> forall id c, id ∈ ids -> find_coin (w_data w) id = Some c -> mss_position (w_data w) (wc_owner_pk c) = None ->
        all_signed_at (w_data w') (wc_address c)).
Proof.
  induction ids as [|id ids IH]; intros cache w; cbn [sign_inputs].
  - split; [apply signs_refl|]. split; [reflexivity|]. split; [reflexivity|]. intros x _ id c Hid. inversion Hid.
  - unfold data, mbind, st_bind, reads. destruct (find_coin (w_data w) id) as [wc|] eqn:EF.
    2: { cbn. split; [apply signs_refl|]. split; [reflexivity|]. split; [reflexivity|discriminate]. }
    pose proof (sign_owner_effect m wc cache w) as HO. destruct (sign_owner m wc cache w) as [[[sig cache']|e|] w1].
    2, 3: destruct HO as (O1 & O2 & O3 & _); split; [exact O1|]; split; [exact O2|]; split; [exact O3|discriminate].
    destruct HO as (O1 & O2 & O3 & O4). specialize (IH cache' w1). destruct (sign_inputs m ids cache' w1) as [[[ins wits]|e|] w2];
      destruct IH as (I1 & I2 & I3 & I4).
    2, 3: split; [eapply signs_trans; eassumption|]; split; [congruence|]; split; [congruence|discriminate].
    split; [eapply signs_trans; eassumption|]. split; [congruence|]. split; [congruence|]. intros x _ id' c Hid Ec HN.
    apply elem_of_cons in Hid as [->|Hid].
    + assert (c = wc) by congruence. subst c. apply (evolves_signed _ _ _ (sg_evolves _ _ I1)), (O4 _ eq_refl HN).
    + destruct (evolves_find _ _ _ _ (sg_evolves _ _ O1) Ec) as (c' & Ec' & Fc). destruct (flagged_same _ _ Fc) as [<- EO].
      apply (I4 _ eq_refl id' c' Hid Ec'). rewrite EO. eapply mss_position_trees; [apply (ev_trees _ _ (sg_evolves _ _ O1))|exact HN].
Qed.

Lemma save_effect w : (save w).1 <> Panic /\ w_data (save w).2 = w_data w /\ known_spent (save w).2 = known_spent w
  /\ (w_disk (save w).2 = w_disk w \/ w_disk (save w).2 = w_data w)
  /\ ((save w).1 = Ok () -> w_disk (save w).2 = w_data w).
Proof. unfold save, mbind, st_bind, ask, fail_if, reads, modify. cbn. 
  destruct (write_ok (w_tick w)); cbn; repeat split; auto; discriminate.
Qed.

Lemma sign_reveal_effect p w :
  let '(r, w') := sign_reveal p w in
  signs (w_data w) (w_data w') /\ (w_disk w' = w_disk w \/ w_disk w' = w_data w') /\ known_spent w' = known_spent w
  /\ (forall x, r = Ok x -> forall id c, id ∈ pc_input_coin_ids p -> find_coin (w_data w) id = Some c ->
        mss_position (w_data w) (wc_owner_pk c) = None -> all_signed_at (w_data w') (wc_address c)).
Proof.
  unfold sign_reveal. unfold mbind, st_bind. pose proof (sign_inputs_effect (pending_commitment p) (pc_input_coin_ids p) ∅ w) as HI.
  destruct (sign_inputs _ _ ∅ w) as [[x|e|] w1]; destruct HI as (I1 & I2 & I3 & I4).
  2, 3: split; [exact I1|]; split; [auto|]; split; [exact I3|discriminate].
  destruct (save_effect w1) as (S1 & S2 & S3 & S4 & _). destruct (save w1) as [[[]|e|] w2]; cbn [fst snd] in *; [| |contradiction].
  all: unfold mret, st_ret; rewrite S2; split; [exact I1|]; split; [destruct S4 as [-> | ->]; auto|]; split; [congruence|].
  - intros y _. apply (I4 x eq_refl).
  - discriminate.
Qed.

(** ** The end of a reveal *)

Lemma set_pending_push c x d : drop_pending c (push_coin x d) = push_coin x (drop_pending c d).
Proof. reflexivity. Qed.

(** What is known of the change addresses of [p] while they become coins. *)
Definition change_free (log : list Sent) (c : hash32) (p : PendingCommit) (d : WalletData) : Prop :=
  forall a, a ∈ change_of p -> (a ∉ key_addrs d) /\ (a ∉ change_addrs (drop_pending c d))
    /\ forall e q, e ∈ log -> s_pending e = Some q -> ~ key_signed e a.

Lemma add_change_ok log c p x w : change_free log c p (w_data w) -> x ∈ pc_change_seeds p -> data_ok log (drop_pending c (w_data w)) ->
  let w' := (add_change p c x w).2 in
  data_ok log (drop_pending c (w_data w')) /\ change_free log c p (w_data w') /\ w_disk w' = w_disk w /\ known_spent w' = known_spent w.
Proof.
  intros HF Hx HD. unfold add_change, mbind, st_bind, reads, data. destruct (pc_outputs p !! x.1) as [o|] eqn:Eo; cbn [unwrap snd]; [|auto].
  destruct (output_coin_id o) as [id|]; [|cbn; auto]. unfold reads. destruct (has_coin (w_data w) id) eqn:EH; [cbn; auto|].
  assert (HA : output_address o ∈ change_of p) by (apply list_elem_of_omap; exists x; split; [exact Hx|]; rewrite Eo; reflexivity).
  destruct (HF _ HA) as (F1 & F2 & F3). unfold update, modify. cbn [snd w_data w_disk known_spent on_data].
  split; [|split; [|split; reflexivity]].
  - rewrite set_pending_push. apply data_ok_push; cbn [wc_address wc_coin_id]; assumption.
  - intros a Ha. destruct (HF a Ha) as (G1 & G2 & G3). auto.
Qed.

Lemma add_changes_ok log c p l : forall w, (forall x, x ∈ l -> x ∈ pc_change_seeds p) -> change_free log c p (w_data w) -> data_ok log (drop_pending c (w_data w)) ->
  let w' := (st_each (add_change p c) l w).2 in
  data_ok log (drop_pending c (w_data w')) /\ w_disk w' = w_disk w /\ known_spent w' = known_spent w.
Proof.
  induction l as [|x l IH]; intros w Hl HF HD; cbn [st_each]; [auto|]. unfold mbind, st_bind.
  destruct (add_change_ok log c p x w HF ltac:(apply Hl; left) HD) as (A1 & A2 & A3 & A4).
  destruct (add_change p c x w) as [[[]|e|] w1]; cbn [snd] in *; auto.
  destruct (IH w1 ltac:(intros y Hy; apply Hl; right; exact Hy) A2 A1) as (I1 & I2 & I3). split; [exact I1|]. split; congruence.
Qed.

Lemma add_changes_no_error c p l : forall w e, (st_each (add_change p c) l w).1 <> Err e.
Proof.
  induction l as [|x l IH]; intros w e; cbn [st_each]; [discriminate|]. unfold mbind, st_bind.
  assert (HN : forall y, (add_change p c x w).1 <> Err y).
  { intros y. unfold add_change, mbind, st_bind, reads, data. destruct (pc_outputs p !! x.1); cbn; [|discriminate].
    destruct (output_coin_id o); [|discriminate]. unfold reads. destruct (has_coin _ _); discriminate. }
  destruct (add_change p c x w) as [[[]|y|] w5]; [apply IH|exfalso; apply (HN y eq_refl)|discriminate].
Qed.

Lemma change_disjoint d p q : NoDup (change_addrs d) -> p ∈ pending d -> q ∈ pending d -> p <> q -> forall a, a ∈ change_of p -> a ∉ change_of q.
Proof.
  unfold change_addrs. intros HN Hp Hq HE a Ha Ha'. apply elem_of_Permutation in Hp as (l & HP). rewrite HP in Hq, HN.
  apply elem_of_cons in Hq as [Hq|Hq]; [congruence|]. cbn in HN. apply NoDup_app in HN as (_ & HD & _). apply (HD a Ha).
  apply list_elem_of_In, in_concat. exists (change_of q). split; [apply in_map, list_elem_of_In, Hq|apply list_elem_of_In, Ha'].
Qed.

(** A completed reveal leaves the book in order, in memory unless it aborts, and on disk. *)
Lemma complete_reveal_effect log c w : data_ok log (w_data w) -> data_ok log (w_disk w) ->
  let '(r, w') := complete_reveal c w in
  (r <> Panic -> data_ok log (w_data w')) /\ data_ok log (w_disk w') /\ known_spent w' = known_spent w.
Proof.
  intros HD HDk. pose proof HD as [[B1 B2 B3 B4 B5 B6 B7 B8] HR]. unfold complete_reveal. unfold mbind at 1, st_bind at 1, reads at 1.
  destruct (find_pending (w_data w) c) as [p|] eqn:EP; cbn [ok_or]; [|auto].
  assert (Hp : p ∈ pending (w_data w) /\ pc_commitment p = c).
  { unfold find_pending in EP. destruct (list_find _ (pending (w_data w))) as [[i q]|] eqn:EL; [|discriminate]. injection EP as ->.
    apply list_find_Some in EL as (EL & E & _). split; [eapply list_elem_of_lookup_2, EL|exact E]. }
  destruct Hp as [Hp Ec].
  assert (HP : forall q, q ∈ pending (drop_pending c (w_data w)) -> q ∈ pending (w_data w) /\ pc_commitment q <> c).
  { intros q Hq. cbn in Hq. apply list_elem_of_filter in Hq as [H1 H2]. auto. }
  assert (HD1 : data_ok log (drop_pending c (remove_coins (pc_input_coin_ids p) (w_data w)))).
  { change (drop_pending c (remove_coins ?l ?d)) with (remove_coins l (drop_pending c d)). apply data_ok_remove; [|apply data_ok_drop, HD].
    intros q id Hq Hid HX. destruct (HP q Hq) as [Hq' Hne].
    destruct (B4 p q Hp Hq') as [E|HA]; [apply Hne; rewrite (B2 q Hq'), <- E, <- (B2 p Hp); exact Ec|].
    destruct (B3 q id Hq' Hid) as [x Ex]. destruct (HA id id x x HX Hid Ex Ex) as [HN _]. congruence. }
  assert (HF : change_free log c p (w_data w)).
  { intros a Ha. assert (HC : a ∈ change_addrs (w_data w)).
    { unfold change_addrs. apply list_elem_of_In, in_concat. exists (change_of p). split; [apply in_map, list_elem_of_In, Hp|apply list_elem_of_In, Ha]. }
    split; [intros HX; exact (proj2 (proj2 (B7 a HX)) HC)|]. split.
    - intros HX. unfold change_addrs in HX. apply list_elem_of_In, in_concat in HX as (l & Hl & HX). apply in_map_iff in Hl as (q & <- & Hq).
      apply list_elem_of_In in Hq, HX. destruct (HP q Hq) as [Hq' Hne].
      apply (change_disjoint _ p q B6 Hp Hq' ltac:(congruence) a Ha HX).
    - intros e q He Hq Hk. destruct (HR e a q He Hq Hk) as (_ & _ & _ & _ & R5). contradiction. }
  unfold mbind at 1, st_bind at 1, data at 1, reads at 1. cbv zeta. unfold mbind at 1, st_bind at 1, update at 1, modify at 1.
  unfold mbind at 1, st_bind at 1.
  set (w1 := on_data (remove_coins (pc_input_coin_ids p)) w).
  destruct (add_changes_ok log c p (pc_change_seeds p) w1 ltac:(auto) HF HD1) as (A1 & A2 & A3).
  destruct (st_each (add_change p c) (pc_change_seeds p) w1) as [[[]|e|] w2] eqn:ES; cbn [snd] in A1, A2, A3.
  - unfold mbind, st_bind, ask, update, modify. cbv beta. set (w3 := on_data (fun d => set_pending _ d) _).
    destruct (save_effect w3) as (_ & S2 & S3 & S4 & _).
    assert (HD3 : data_ok log (w_data w3)).
    { apply (data_ok_quiet log (drop_pending c (w_data w2))); [split; reflexivity|exact A1]. }
    destruct (save w3) as [r w4]. cbn [snd] in *. rewrite S2, S3. split; [intros _; exact HD3|]. split; [|exact A3].
    destruct S4 as [-> | ->]; [cbn; rewrite A2; exact HDk|exact HD3].
  - exfalso. eapply add_changes_no_error. rewrite ES. reflexivity.
  - split; [congruence|]. rewrite A2, A3. split; [exact HDk|reflexivity].
Qed.

End Operations.
