(* ===== verification/SendsSafe.v ===== *)
(** What the daemon's sends guarantee: a one-time key signs one commitment only, whatever
    the node answers, whichever writes fail and whenever the process dies, and its use
    is on disk before the signature leaves the machine. *)
From S2P Require Import Prelude Types Wots Mss Transaction Wallet WalletSelect WalletSpend WalletSafe WalletReveal SendPlan Defrag Ledger Sends SendsBook.

#[local] Open Scope Z_scope.

(** * The daemon keeps the book *)

Abbreviation mem d := (w_data (d_world d)).
Abbreviation disk d := (w_disk (d_world d)).

Section Daemon.
Context `{HB : Blake3} `{WE : !WalletEnv} `{WL : !WalletEnvLaws} `{NE : !NodeEnv}.

(** A reveal leaves the machine when its pending commit is on disk, with every one-time
    coin at the addresses it spends flagged. *)
Definition entry_ok (e : Sent) : Prop := forall p, s_pending e = Some p ->
  w_disk (s_world e) = w_data (s_world e) /\ p ∈ pending (w_disk (s_world e))
  /\ forall a, key_signed e a -> all_signed_at (w_disk (s_world e)) a.

Definition one_commitment (log : list Sent) : Prop := forall e1 e2 p1 p2 a, e1 ∈ log -> e2 ∈ log ->
  s_pending e1 = Some p1 -> s_pending e2 = Some p2 -> key_signed e1 a -> key_signed e2 a ->
  pending_commitment p1 = pending_commitment p2.

Definition log_ok (log : list Sent) : Prop := Forall entry_ok log /\ one_commitment log.

Record inv (d : Daemon) : Prop := mk_inv {
  i_mem : data_ok (d_log d) (mem d);
  i_disk : data_ok (d_log d) (disk d);
  i_spent : known_spent (d_world d) = ∅;
  i_log : log_ok (d_log d)
}.

Definition disk_inv (d : Daemon) : Prop := data_ok (d_log d) (disk d) /\ log_ok (d_log d).

Lemma inv_disk d : inv d -> disk_inv d.
Proof. intros [H1 H2 H3 H4]. split; assumption. Qed.

(** Kept by an operation, unless it aborts: then what matters is the disk. *)
Definition kept {A} (r : res DaemonError A * Daemon) : Prop := (r.1 <> Panic -> inv r.2) /\ disk_inv r.2.

Definition sound_at {A} (m : DM A) (d : Daemon) : Prop := inv d -> kept (m d).
Class Sound {A} (m : DM A) : Prop := sound d : sound_at m d.

Lemma kept_inv {A} (r : res DaemonError A) d : inv d -> kept (r, d).
Proof. intros HI. split; [intros _; exact HI|apply inv_disk, HI]. Qed.

Lemma bind_at {A B} (m : DM A) (f : A -> DM B) d : sound_at m d -> (forall a d1, m d = (Ok a, d1) -> sound_at (f a) d1) -> sound_at (m ≫= f) d.
Proof.
  intros Hm Hf HI. unfold mbind, st_bind. specialize (Hm HI). specialize (Hf). destruct (m d) as [[a|e|] d1].
  - apply (Hf a d1 eq_refl). apply Hm. discriminate.
  - split; [intros _; apply Hm; discriminate|apply Hm].
  - split; [intros HX; destruct (HX eq_refl)|apply Hm].
Qed.

#[export] Instance sound_bind {A B} (m : DM A) (f : A -> DM B) : Sound m -> (forall a, Sound (f a)) -> Sound (m ≫= f).
Proof. intros Hm Hf d. apply bind_at; [apply Hm|intros a d1 _; apply Hf]. Qed.

#[export] Instance sound_ret {A} (a : A) : Sound (mret a : DM A).
Proof. intros d HI. apply kept_inv, HI. Qed.
#[export] Instance sound_reads {A} (f : Daemon -> res DaemonError A) : Sound (reads f).
Proof. intros d HI. apply kept_inv, HI. Qed.
#[export] Instance sound_raise c e : Sound (raise_if c e).
Proof. apply sound_reads. Qed.
#[export] Instance sound_need : Sound need_wallet.
Proof. apply sound_reads. Qed.
#[export] Instance sound_data : Sound wallet_data.
Proof. apply sound_reads. Qed.

Lemma attempt_at {A} (m : DM A) d : sound_at m d -> sound_at (attempt m) d.
Proof.
  intros Hm HI. specialize (Hm HI). unfold attempt. destruct (m d) as [[a|e|] d1]; (split; [|apply Hm]); intros HX.
  - apply Hm. discriminate.
  - apply Hm. discriminate.
  - destruct (HX eq_refl).
Qed.

#[export] Instance sound_attempt {A} (m : DM A) : Sound m -> Sound (attempt m).
Proof. intros Hm d. apply attempt_at, Hm. Qed.

#[export] Instance sound_each {A} (f : A -> DM ()) l : (forall a, Sound (f a)) -> Sound (st_each f l).
Proof. intros Hf. induction l; cbn [st_each]; apply _. Qed.

Lemma sound_modify f : (forall d, d_world (f d) = d_world d /\ d_log (f d) = d_log d) -> Sound (modify f : DM ()).
Proof.
  intros Hf d [H1 H2 H3 H4]. destruct (Hf d) as [E1 E2]. apply kept_inv. split; cbn; rewrite ?E1, ?E2; assumption.
Qed.

(** ** Calm operations *)

(** The wallet changes quietly, and at most commits are sent. *)
Record calm (d d' : Daemon) : Prop := mk_calm {
  c_mem : quiet (mem d) (mem d');
  c_disk : disk d' = disk d \/ quiet (mem d) (disk d');
  c_spent : known_spent (d_world d') = known_spent (d_world d);
  c_log : exists l, d_log d' = d_log d ++ l /\ Forall (fun e => s_pending e = None) l
}.

Lemma calm_refl d : calm d d.
Proof. split; [apply quiet_refl|auto|reflexivity|]. exists []. rewrite app_nil_r. auto. Qed.

Lemma calm_trans a b c : calm a b -> calm b c -> calm a c.
Proof.
  intros [A1 A2 A3 (la & A4 & A5)] [B1 B2 B3 (lb & B4 & B5)]. split.
  - eapply quiet_trans; eassumption.
  - destruct B2 as [-> | B2]; [exact A2|right; eapply quiet_trans; eassumption].
  - congruence.
  - exists (la ++ lb). rewrite B4, A4, app_assoc. split; [reflexivity|]. apply Forall_app. auto.
Qed.

Lemma log_ok_commits log l : Forall (fun e => s_pending e = None) l -> log_ok log -> log_ok (log ++ l).
Proof.
  intros HF [L1 L2]. rewrite Forall_forall in HF. split.
  - apply Forall_app. split; [exact L1|]. apply Forall_forall. intros e He p Hp. rewrite (HF e He) in Hp. discriminate.
  - intros e1 e2 p1 p2 a H1 H2 P1 P2. apply elem_of_app in H1 as [H1|H1]; [|rewrite (HF _ H1) in P1; discriminate].
    apply elem_of_app in H2 as [H2|H2]; [|rewrite (HF _ H2) in P2; discriminate]. apply (L2 e1 e2 p1 p2 a H1 H2 P1 P2).
Qed.

Lemma inv_calm d d' : calm d d' -> inv d -> inv d'.
Proof.
  intros [C1 C2 C3 (l & C4 & C5)] [H1 H2 H3 H4]. split; rewrite ?C4.
  - apply data_ok_log; [exact C5|]. eapply data_ok_quiet; eassumption.
  - apply data_ok_log; [exact C5|]. destruct C2 as [-> | C2]; [exact H2|eapply data_ok_quiet; eassumption].
  - congruence.
  - apply log_ok_commits; assumption.
Qed.

Class Calm {A} (m : DM A) : Prop := calmly d : calm d (m d).2.

#[export] Instance calm_sound {A} (m : DM A) : Calm m -> Sound m.
Proof. intros Hm d HI. pose proof (inv_calm _ _ (Hm d) HI) as HI'. split; [intros _; exact HI'|apply inv_disk, HI']. Qed.

#[export] Instance calm_bind {A B} (m : DM A) (f : A -> DM B) : Calm m -> (forall a, Calm (f a)) -> Calm (m ≫= f).
Proof.
  intros Hm Hf d. unfold mbind, st_bind. pose proof (Hm d) as H1. destruct (m d) as [[a|e|] d1]; [|exact H1..].
  eapply calm_trans; [exact H1|apply Hf].
Qed.
#[export] Instance calm_ret {A} (a : A) : Calm (mret a : DM A).
Proof. intros d. apply calm_refl. Qed.
#[export] Instance calm_reads {A} (f : Daemon -> res DaemonError A) : Calm (reads f).
Proof. intros d. apply calm_refl. Qed.
#[export] Instance calm_raise c e : Calm (raise_if c e).
Proof. apply calm_reads. Qed.
#[export] Instance calm_need : Calm need_wallet.
Proof. apply calm_reads. Qed.
#[export] Instance calm_data : Calm wallet_data.
Proof. apply calm_reads. Qed.
#[export] Instance calm_attempt {A} (m : DM A) : Calm m -> Calm (attempt m).
Proof. intros Hm d. unfold attempt. pose proof (Hm d) as H1. destruct (m d) as [[a|e|] d1]; exact H1. Qed.

Lemma calm_modify f : (forall d, d_world (f d) = d_world d /\ d_log (f d) = d_log d) -> Calm (modify f : DM ()).
Proof.
  intros Hf d. destruct (Hf d) as [E1 E2]. split; cbn; rewrite ?E1; [apply quiet_refl|auto|reflexivity|].
  exists []. rewrite app_nil_r. auto.
Qed.

#[export] Instance calm_wallet {A} (m : WM A) : Quiet m -> Calm (in_wallet m).
Proof.
  intros Hm d. destruct (Hm (d_world d)) as (Q1 & Q2 & Q3). unfold in_wallet. destruct (m (d_world d)) as [r w]. cbn in *.
  split; cbn; [exact Q1|exact Q2|exact Q3|]. exists []. rewrite app_nil_r. auto.
Qed.
#[export] Instance calm_node {A} (f : nat -> A) : Calm (node f).
Proof. unfold node. apply _. Qed.

End Daemon.

Ltac calm_tac :=
  repeat first
    [ progress cbv zeta
    | apply _
    | apply calm_bind; [|intros ?]
    | apply calm_attempt
    | apply calm_modify; intros ?; split; reflexivity
    | match goal with
      | |- Calm (match ?x with _ => _ end) => destruct x
      | |- Calm (if ?b then _ else _) => destruct b
      end ].

Section Operations.
Context `{HB : Blake3} `{WE : !WalletEnv} `{WL : !WalletEnvLaws} `{NE : !NodeEnv}.

#[export] Instance calm_commit c n : Calm (send_transaction (Commit c n) None).
Proof.
  unfold send_transaction. apply calm_bind; [apply _|]. intros ok. apply calm_bind; [apply _|]. intros _ d.
  split; cbn; [apply quiet_refl|auto|reflexivity|]. eexists. split; [reflexivity|]. repeat constructor.
Qed.
#[export] Instance calm_set_stage id st : Calm (set_stage id st).
Proof. unfold set_stage. calm_tac. Qed.
#[export] Instance calm_insert id st a f to : Calm (insert_send id st a f to).
Proof. unfold insert_send. calm_tac. Qed.
#[export] Instance calm_spawn t : Calm (spawn t).
Proof. unfold spawn. calm_tac. Qed.
#[export] Instance calm_broadcast c : Calm (broadcast_commit c).
Proof. unfold broadcast_commit. calm_tac. Qed.

#[export] Instance calm_verify : Calm verify_mss_indices.
Proof.
  unfold verify_mss_indices. apply calm_bind; [apply _|]. intros u. apply calm_bind; [apply _|]. intros d.
  destruct (_ || _); [apply _|]. apply calm_bind; [apply _|]. intros seen. apply calm_bind; [|intros ?; calm_tac].
  apply calm_wallet, quiet_update. intros x. split; [reflexivity..|]. cbn. rewrite map_map. apply map_ext. intros k.
  unfold fast_forward. destruct (_ <? _); reflexivity.
Qed.

#[export] Instance calm_scan addrs a b : Calm (scan_addresses addrs a b).
Proof. unfold scan_addresses. calm_tac. Qed.
#[export] Instance calm_save_ledgers : Calm save_ledgers.
Proof. unfold save_ledgers. calm_tac. Qed.

(** ** Wallet operations that keep the book *)

Class WSound {A} (m : WM A) : Prop := wsound log w : data_ok log (w_data w) -> data_ok log (w_disk w) -> known_spent w = ∅ ->
  ((m w).1 <> Panic -> data_ok log (w_data (m w).2) /\ known_spent (m w).2 = ∅) /\ data_ok log (w_disk (m w).2).

#[export] Instance sound_wallet {A} (m : WM A) : WSound m -> Sound (in_wallet m).
Proof.
  intros Hm d [H1 H2 H3 H4]. destruct (Hm (d_log d) (d_world d) H1 H2 H3) as [W1 W2].
  unfold in_wallet. destruct (m (d_world d)) as [r w]. cbn [fst snd] in *. split; [|split; [exact W2|exact H4]].
  intros HP. cbn [fst snd] in *. assert (HR : r <> Panic) by (intros ->; apply HP; reflexivity). destruct (W1 HR). split; assumption.
Qed.

Lemma wsound_update f : (forall log d, data_ok log d -> data_ok log (f d)) -> WSound (update f).
Proof. intros Hf log w H1 H2 H3. cbn. split; [|exact H2]. intros _. split; [apply Hf, H1|exact H3]. Qed.

#[export] Instance wsound_drop c : WSound (update (drop_pending c)).
Proof. apply wsound_update. intros log d HD. unfold drop_pending. apply data_ok_drop, HD. Qed.

#[export] Instance wsound_sign p : WSound (sign_reveal p).
Proof.
  intros log w H1 H2 H3. pose proof (sign_reveal_effect p w) as HS. destruct (sign_reveal p w) as [r w']. destruct HS as (S1 & S2 & S3 & _).
  pose proof (data_ok_signs log _ _ S1 H1) as HD. cbn [fst snd]. split; [intros _; split; [exact HD|congruence]|].
  destruct S2 as [-> | ->]; assumption.
Qed.

#[export] Instance wsound_complete c : WSound (complete_reveal c).
Proof.
  intros log w H1 H2 H3. pose proof (complete_reveal_effect log c w H1 H2) as HC. destruct (complete_reveal c w) as [r w'].
  destruct HC as (C1 & C2 & C3). cbn [fst snd]. split; [|exact C2]. intros HP. split; [apply C1, HP|congruence].
Qed.

#[export] Instance wsound_open : WSound open.
Proof.
  intros log w H1 H2 H3. unfold open, acquire_lock, mbind, st_bind, ask, fail_if, reads, modify. cbn.
  destruct (lock_free (w_tick w)); cbn; auto.
Qed.

End Operations.

Ltac sound_tac :=
  repeat first
    [ progress cbv zeta
    | apply _
    | apply sound_bind; [|intros ?]
    | apply sound_attempt
    | apply sound_each; intros ?
    | apply sound_modify; intros ?; split; reflexivity
    | match goal with
      | |- Sound (match ?x with _ => _ end) => destruct x
      | |- Sound (if ?b then _ else _) => destruct b
      end ].

Section Reveals.
Context `{HB : Blake3} `{WE : !WalletEnv} `{WL : !WalletEnvLaws} `{NE : !NodeEnv}.

(** ** Sending a reveal *)

Lemma send_reveal_at tx p d : disk d = mem d -> p ∈ pending (mem d) ->
  (forall id c, id ∈ pc_input_coin_ids p -> find_coin (mem d) id = Some c -> mss_position (mem d) (wc_owner_pk c) = None ->
     all_signed_at (mem d) (wc_address c)) -> sound_at (send_transaction tx (Some p)) d.
Proof.
  intros HE Hp HS HI. unfold send_transaction. pose proof (calm_node (fun t => nd_accepts t tx) d) as HC.
  assert (HW : forall r d1, node (fun t => nd_accepts t tx) d = (r, d1) -> mem d1 = mem d /\ disk d1 = disk d).
  { intros r d1 E. unfold node, in_wallet, ask in E. cbn in E. injection E as _ <-. auto. }
  unfold mbind at 1, st_bind at 1. destruct (node _ d) as [r d1] eqn:EN. cbn [snd] in HC. destruct (HW r d1 eq_refl) as [W1 W2].
  pose proof (inv_calm _ _ HC HI) as HI1. destruct r as [ok|e|]; [|apply kept_inv, HI1..].
  unfold raise_if, mbind, st_bind, reads. destruct (negb ok); cbn [bail_if]; [apply kept_inv, HI1|]. unfold modify.
  pose proof HI1 as [[B1 R1] [B2 R2] H3 [L1 L2]]. set (e := mkSent tx (Some p) (d_world d1)).
  assert (HK : forall a, key_signed e a -> exists id c, id ∈ pc_input_coin_ids p /\ find_coin (mem d1) id = Some c /\ wc_address c = a /\ one_time (mem d1) c).
  { intros a (q & id & c & Eq & H1 & H2 & H4 & H5). cbn in Eq. injection Eq as <-. eauto 6. }
  rewrite <- W1 in HS, Hp. assert (HE1 : disk d1 = mem d1) by congruence.
  assert (HR : forall a, key_signed e a -> retired a (pending_commitment p) (mem d1)).
  { intros a Ha. destruct (HK a Ha) as (id & c & Hid & Ec & <- & HO1 & HO2). destruct (find_coin_Some _ _ _ Ec) as [Hc _].
    assert (HA : wc_address c ∈ coin_addrs (mem d1)) by apply list_elem_of_fmap_2, Hc.
    split; [apply (HS id c Hid Ec HO2)|]. split; [|split; [|split; [exact HO1|]]].
    - intros q id' c' Hq Hid' Ec' Ea. destruct (b_apart _ B1 p q Hp Hq) as [E|HX]; [symmetry; exact E|].
      destruct (HX id id' c c' Hid Hid' Ec Ec') as [_ HY]. exfalso. apply HO1, HY. congruence.
    - intros HX. exact (proj1 (b_key_new _ B1 _ HX) HA).
    - intros HX. exact (proj1 (b_change_new _ B1 _ HX) HA). }
  assert (HR1 : forall e' a q, e' ∈ d_log d1 -> s_pending e' = Some q -> key_signed e' a -> key_signed e a -> pending_commitment p = pending_commitment q).
  { intros e' a q He' Hq Hk Hk'. destruct (R1 e' a q He' Hq Hk) as (_ & RC & _). destruct (HK a Hk') as (id & c & Hid & Ec & Ea & _).
    apply (RC p id c Hp Hid Ec Ea). }
  assert (HD : data_ok (d_log d1 ++ [e]) (mem d1)).
  { split; [exact B1|]. intros e' a q He' Hq Hk. apply elem_of_app in He' as [He'|He']; [apply (R1 e' a q He' Hq Hk)|].
    apply list_elem_of_singleton in He' as ->. cbn in Hq. injection Hq as <-. apply HR, Hk. }
  assert (HL : log_ok (d_log d1 ++ [e])).
  { split.
    - apply Forall_app. split; [exact L1|]. constructor; [|constructor]. intros q Hq. cbn in Hq. injection Hq as <-.
      cbn [s_world e]. rewrite HE1. split; [reflexivity|]. split; [exact Hp|]. intros a Ha. apply (HR a Ha).
    - intros e1 e2 p1 p2 a H1 H2 P1 P2 K1 K2. apply elem_of_app in H1 as [H1|H1]; apply elem_of_app in H2 as [H2|H2].
      + apply (L2 e1 e2 p1 p2 a H1 H2 P1 P2 K1 K2).
      + apply list_elem_of_singleton in H2 as ->. cbn in P2. injection P2 as <-. symmetry. apply (HR1 e1 a p1 H1 P1 K1 K2).
      + apply list_elem_of_singleton in H1 as ->. cbn in P1. injection P1 as <-. apply (HR1 e2 a p2 H2 P2 K2 K1).
      + apply list_elem_of_singleton in H1 as ->, H2 as ->. cbn in P1, P2. congruence. }
  split; [intros _|split]; cbn [fst snd log_sent d_log d_world].
  - split; cbn [log_sent d_log d_world]; [exact HD|rewrite HE1; exact HD|exact H3|exact HL].
  - fold e. rewrite HE1. exact HD.
  - exact HL.
Qed.

Lemma find_pending_In d c p : find_pending d c = Some p -> p ∈ pending d.
Proof.
  unfold find_pending. destruct (list_find _ (pending d)) as [[i q]|] eqn:EL; [|discriminate]. intros [= <-].
  apply list_find_Some in EL as (EL & _). eapply list_elem_of_lookup_2, EL.
Qed.

Lemma in_wallet_Ok {A} (m : WM A) d r d' : attempt (in_wallet m) d = (Ok (Some r), d') -> m (d_world d) = (Ok r, d_world d') /\ d_log d' = d_log d.
Proof. unfold attempt, in_wallet. destruct (m (d_world d)) as [[x|e|] w]; intros HE; try discriminate. injection HE as <- <-. auto. Qed.

#[export] Instance sound_try_reveal c : Sound (try_reveal c).
Proof.
  intros d. unfold try_reveal. apply bind_at; [apply sound_reads|]. intros u d0 E. injection E as <- <-.
  apply bind_at; [apply sound_data|]. intros dd d0 E. injection E as <- <-.
  destruct (if d_unlocked d then find_pending (mem d) c else None) as [p|] eqn:EP; [|apply sound_ret].
  destruct (d_unlocked d); [|discriminate]. apply find_pending_In in EP.
  pose proof (calm_set_stage c WaitingReveal d) as HC1. apply bind_at; [apply calm_sound, _|]. intros u1 d1 E1. rewrite E1 in HC1. cbn [snd] in HC1.
  rewrite <- (q_pending _ _ (c_mem _ _ HC1)) in EP. clear HC1 E1.
  apply bind_at; [apply attempt_at, sound_wallet, _|]. intros signed d2 E2.
  destruct signed as [[inputs wits]|]; [|apply sound_bind; [apply _|intros ?]; apply _].
  destruct (in_wallet_Ok _ _ _ _ E2) as [ES _]. pose proof (sign_reveal_effect p (d_world d1)) as HS. rewrite ES in HS.
  destruct HS as (S1 & _ & _ & S4). specialize (S4 _ eq_refl).
  apply bind_at; [apply attempt_at, calm_sound, _|]. intros saved d3 E3. destruct saved as [[]|]; [|apply calm_sound, _].
  destruct (in_wallet_Ok _ _ _ _ E3) as [EV _]. destruct (save_effect (d_world d2)) as (_ & V2 & _ & _ & V5). rewrite EV in V2, V5. cbn [fst snd] in V2, V5.
  specialize (V5 eq_refl). assert (HP3 : p ∈ pending (mem d3)) by (rewrite V2, (sg_pending _ _ S1); exact EP).
  apply bind_at; [apply sound_reads|]. intros first d4 E4. unfold reads in E4. injection E4 as _ <-.
  apply bind_at; [apply sound_reads|]. intros tx d5 E5. unfold reads in E5. injection E5 as _ <-.
  apply bind_at; [|intros sent d6 _; destruct sent; apply calm_sound, _].
  apply attempt_at, send_reveal_at; [congruence|exact HP3|]. rewrite V2. intros id c' Hid Ec HN.
  destruct (signs_find_back _ _ _ _ S1 Ec) as (x & Ex & Fx). destruct (flagged_same _ _ Fx) as [-> EO].
  apply (S4 id x Hid Ex). rewrite <- EO. eapply mss_position_trees; [symmetry; apply (ev_trees _ _ (sg_evolves _ _ S1))|exact HN].
Qed.

#[export] Instance sound_reveal_confirmed c : Sound (reveal_confirmed c).
Proof. unfold reveal_confirmed. sound_tac. Qed.

#[export] Instance sound_internal msg : Sound (internal msg).
Proof. destruct msg; cbn [internal]; apply _. Qed.

#[export] Instance sound_retry c : Sound (retry_send c).
Proof. unfold retry_send. sound_tac. Qed.

#[export] Instance sound_abandon c : Sound (abandon_send c).
Proof. unfold abandon_send. sound_tac. Qed.

#[export] Instance sound_resume p : Sound (resume_pending p).
Proof. unfold resume_pending. sound_tac. Qed.

#[export] Instance sound_unlock : Sound unlock.
Proof. unfold unlock, resume_pendings. sound_tac. Qed.

#[export] Instance sound_rescan h : Sound (rescan_from h).
Proof. unfold rescan_from. sound_tac. Qed.

#[export] Instance sound_lock : Sound lock.
Proof.
  intros d HI. unfold lock. assert (HK : kept (if d_unlocked d then in_wallet save d else (Ok (), d))).
  { destruct (d_unlocked d); [apply (calm_sound (in_wallet save) _ d HI)|apply kept_inv, HI]. }
  destruct (if d_unlocked d then _ else _) as [r d1]. destruct HK as [K1 K2]. split; [|exact K2].
  intros HP. destruct (K1 HP) as [H1 H2 H3 H4]. split; assumption.
Qed.

(** ** Operations that make new keys *)

(** The addresses [f] that appear in a step are new. *)
Definition new_ones (f : WalletData -> list hash32) (d d' : Daemon) : Prop := forall a,
  a ∈ f (mem d') -> a ∈ f (mem d) \/ unseen (d_log d) (mem d) a.

Definition new_trees (d d' : Daemon) : Prop := new_ones mss_addrs d d'.
Definition new_change (d d' : Daemon) : Prop := NoDup (change_addrs (mem d')) /\ new_ones change_addrs d d'.
Definition new_keys (d d' : Daemon) : Prop := NoDup (key_addrs (mem d')) /\ new_ones key_addrs d d'.

Lemma quiet_addrs x y : quiet x y -> key_addrs y = key_addrs x /\ coin_addrs y = coin_addrs x /\ mss_addrs y = mss_addrs x /\ change_addrs y = change_addrs x.
Proof.
  intros [Q1 Q2 Q3 Q4]. split; [unfold key_addrs; congruence|]. split; [unfold coin_addrs; congruence|].
  split; [apply mss_addrs_trees, Q4|unfold change_addrs; congruence].
Qed.

Lemma unseen_calm d d1 a : calm d d1 -> unseen (d_log d) (mem d) a -> unseen (d_log d1) (mem d1) a.
Proof.
  intros [C1 _ _ (l & E & HF)] (U1 & U2 & U3 & U4 & U5). destruct (quiet_addrs _ _ C1) as (E1 & E2 & E3 & E4).
  unfold unseen. rewrite E1, E2, E3, E4, E. repeat (split; [assumption|]). intros e He (p & id & c & Ep & HX).
  apply elem_of_app in He as [He|He]; [apply (U5 e He); exists p, id, c; auto|]. rewrite Forall_forall in HF. rewrite (HF e He) in Ep. discriminate.
Qed.

(** A premise on a step that calm parts of the step do not touch. *)
Class Premise (R : Daemon -> Daemon -> Prop) : Prop := {
  pr_before d d1 d' : calm d d1 -> R d d' -> R d1 d';
  pr_after d d2 d' : calm d2 d' -> R d d' -> R d d2
}.

Lemma new_ones_before f d d1 d' : (forall x y, quiet x y -> f y = f x) -> calm d d1 -> new_ones f d d' -> new_ones f d1 d'.
Proof.
  intros Hf HC HN a Ha. rewrite (Hf _ _ (c_mem _ _ HC)). destruct (HN a Ha) as [HX|HX]; [left; exact HX|right; eapply unseen_calm; eassumption].
Qed.
Lemma new_ones_after f d d2 d' : (forall x y, quiet x y -> f y = f x) -> calm d2 d' -> new_ones f d d' -> new_ones f d d2.
Proof. intros Hf HC HN a Ha. apply HN. rewrite (Hf _ _ (c_mem _ _ HC)). exact Ha. Qed.

#[export] Instance premise_trees : Premise new_trees.
Proof.
  assert (Hf : forall x y, quiet x y -> mss_addrs y = mss_addrs x) by (intros x y HQ; apply (quiet_addrs _ _ HQ)).
  split; intros d d1 d'; [apply new_ones_before, Hf|apply new_ones_after, Hf].
Qed.
#[export] Instance premise_change : Premise new_change.
Proof.
  assert (Hf : forall x y, quiet x y -> change_addrs y = change_addrs x) by (intros x y HQ; apply (quiet_addrs _ _ HQ)).
  split; intros d d1 d' HC [H1 H2]; (split; [|first [eapply new_ones_before; eassumption|eapply new_ones_after; eassumption]]); [exact H1|].
  rewrite <- (Hf _ _ (c_mem _ _ HC)). exact H1.
Qed.
#[export] Instance premise_keys : Premise new_keys.
Proof.
  assert (Hf : forall x y, quiet x y -> key_addrs y = key_addrs x) by (intros x y HQ; apply (quiet_addrs _ _ HQ)).
  split; intros d d1 d' HC [H1 H2]; (split; [|first [eapply new_ones_before; eassumption|eapply new_ones_after; eassumption]]); [exact H1|].
  rewrite <- (Hf _ _ (c_mem _ _ HC)). exact H1.
Qed.

(** Sound, when the step meets the premise. *)
Definition sound_if (R : Daemon -> Daemon -> Prop) {A} (m : DM A) (d : Daemon) : Prop := inv d -> R d (m d).2 -> kept (m d).

Lemma calm_then R `{!Premise R} {A B} (m : DM A) (f : A -> DM B) d : Calm m ->
  (forall a d1, m d = (Ok a, d1) -> calm d d1 -> sound_if R (f a) d1) -> sound_if R (m ≫= f) d.
Proof.
  intros Hm Hf HI. pose proof (Hm d) as HC. pose proof (inv_calm _ _ HC HI) as HI1. specialize (Hf).
  unfold mbind, st_bind. destruct (m d) as [[a|e|] d1]; cbn [snd] in *; intros HR; [|apply kept_inv, HI1..].
  apply (Hf a d1 eq_refl HC HI1). eapply pr_before; eassumption.
Qed.

Lemma then_calm R `{!Premise R} {A B} (m : DM A) (f : A -> DM B) d : (forall a, Calm (f a)) -> sound_if R m d -> sound_if R (m ≫= f) d.
Proof.
  intros Hf Hm HI. specialize (Hm HI). unfold mbind, st_bind. destruct (m d) as [[a|e|] d1]; cbn [snd] in *; intros HR.
  - pose proof (Hf a d1) as HC. pose proof (pr_after _ _ _ HC HR) as HR1. destruct (Hm HR1) as [K1 _].
    pose proof (inv_calm _ _ HC (K1 ltac:(discriminate))) as HI2. split; [intros _; exact HI2|apply inv_disk, HI2].
  - destruct (Hm HR) as [K1 K2]. split; [intros _; apply K1; discriminate|exact K2].
  - destruct (Hm HR) as [K1 K2]. split; [intros HX; destruct (HX eq_refl)|exact K2].
Qed.

(** An operation that changes the wallet quietly and then, at most, as [P] says, and may
    save the outcome. *)
Definition grows (P : WalletData -> WalletData -> Prop) (w w' : World) : Prop :=
  known_spent w' = known_spent w
  /\ ((quiet (w_data w) (w_data w') /\ (w_disk w' = w_disk w \/ quiet (w_data w) (w_disk w')))
     \/ exists d1, quiet (w_data w) d1 /\ P d1 (w_data w')
        /\ (w_disk w' = w_disk w \/ quiet (w_data w) (w_disk w') \/ w_disk w' = w_data w')).

Lemma grows_save P w w1 (g : WalletData -> WalletData) : Quiet_to w w1 -> P (w_data w1) (g (w_data w1)) ->
  grows P w (save (on_data g w1)).2.
Proof.
  intros (Q1 & Q2 & Q3) HP. destruct (save_effect (on_data g w1)) as (_ & S2 & S3 & S4 & _).
  split; [rewrite S3; exact Q3|]. right. exists (w_data w1). rewrite S2. split; [exact Q1|]. split; [exact HP|].
  destruct S4 as [-> | ->]; [|right; right; reflexivity]. destruct Q2 as [Q2|Q2]; [left; exact Q2|right; left; exact Q2].
Qed.

Lemma grows_quiet P w w1 : Quiet_to w w1 -> grows P w w1.
Proof. intros (Q1 & Q2 & Q3). split; [exact Q3|left; split; assumption]. Qed.

Lemma grows_inv P w' d : inv d -> grows P (d_world d) w' ->
  (forall d1, quiet (mem d) d1 -> P d1 (w_data w') -> data_ok (d_log d) (w_data w')) -> inv (with_world w' d).
Proof.
  intros [H1 H2 H3 H4] (G1 & G2) HP.
  assert (HM : data_ok (d_log d) (w_data w')).
  { destruct G2 as [[Q _]|(d1 & Q & HX & _)]; [eapply data_ok_quiet; eassumption|apply (HP d1 Q HX)]. }
  split; cbn; [exact HM| |congruence|exact H4].
  assert (HQ : quiet (mem d) (w_disk w') -> data_ok (d_log d) (w_disk w')) by (intros HX; eapply data_ok_quiet; eassumption).
  destruct G2 as [[_ [-> |Q]]|(d1 & _ & _ & [-> |[Q| ->]])]; auto.
Qed.

Lemma quiet_ask_to {A} (f : nat -> A) w : Quiet_to w (ask f w).2.
Proof. apply (quiet_ask f w). Qed.

Lemma quiet_to_trans a b c : Quiet_to a b -> Quiet_to b c -> Quiet_to a c.
Proof.
  intros (A1 & A2 & A3) (B1 & B2 & B3). split; [eapply quiet_trans; eassumption|]. split; [|congruence].
  destruct B2 as [-> | B2]; [exact A2|right; eapply quiet_trans; eassumption].
Qed.

Lemma grows_bind {A B} (P : WalletData -> WalletData -> Prop) (m : WM A) (f : A -> WM B) w : Quiet m ->
  (forall a w1, m w = (Ok a, w1) -> Quiet_to w w1 -> grows P w (f a w1).2) -> grows P w ((m ≫= f) w).2.
Proof.
  intros Hm Hf. pose proof (Hm w) as HQ. unfold mbind, st_bind. destruct (m w) as [[a|e|] w1]; cbn [snd] in HQ; [|apply grows_quiet, HQ..].
  apply (Hf a w1 eq_refl HQ).
Qed.

Lemma generate_key_grows w : grows (fun d d' => exists k, d' = push_key k d) w (generate_key w).2.
Proof.
  unfold generate_key. apply grows_bind; [apply _|]. intros seed w1 _ HQ. cbv zeta.
  assert (HG : grows (fun d d' => exists k, d' = push_key k d) w (save (on_data (push_key (new_key seed)) w1)).2)
    by (apply grows_save; [exact HQ|eauto]).
  unfold mbind at 1, st_bind at 1, update, modify. unfold mbind, st_bind.
  destruct (save (on_data (push_key (new_key seed)) w1)) as [[u|e|] w2]; exact HG.
Qed.

Lemma generate_mss_grows h w : grows (fun d d' => exists k, d' = set_mss (mss_keys d ++ [k]) d) w (generate_mss h w).2.
Proof.
  unfold generate_mss. apply grows_bind; [apply _|]. intros seed w1 _ HQ1.
  pose proof (quiet_to_trans _ _ _ HQ1 (quiet_ask_to checkpoint w1)) as HQ2.
  unfold mbind at 1, st_bind at 1. destruct (ask checkpoint w1) as [[saved|e|] w2]; cbn [snd] in HQ2; [|apply grows_quiet, HQ2..].
  unfold mbind at 1, st_bind at 1, reads at 1. destruct (lift_mss _) as [k|e|]; [|apply grows_quiet, HQ2..]. cbv zeta.
  set (g := fun d => set_mss (mss_keys d ++ [k]) d).
  assert (HG : grows (fun d d' => exists k, d' = set_mss (mss_keys d ++ [k]) d) w (save (on_data g w2)).2)
    by (apply grows_save; [exact HQ2|exists k; reflexivity]).
  unfold mbind at 1, st_bind at 1, update, modify. unfold mbind, st_bind. fold g.
  destruct (save (on_data g w2)) as [[u|e|] w3]; exact HG.
Qed.

(** An operation of the wallet whose growth is in order. *)
Lemma grows_sound {A} (m : WM A) P d R : grows P (d_world d) (m (d_world d)).2 ->
  (forall d1, quiet (mem d) d1 -> P d1 (w_data (m (d_world d)).2) -> inv d -> R d (with_world (m (d_world d)).2 d) ->
     data_ok (d_log d) (w_data (m (d_world d)).2)) -> sound_if R (in_wallet m) d.
Proof.
  intros HG HP HI. unfold in_wallet. destruct (m (d_world d)) as [r w]. cbn [snd] in *. intros HR. apply kept_inv.
  apply (grows_inv P); [exact HI|exact HG|]. intros d1 HQ HX. apply (HP d1 HQ HX HI HR).
Qed.

Lemma unseen_quiet log x y a : quiet x y -> unseen log x a -> unseen log y a.
Proof. intros HQ HU. destruct (quiet_addrs _ _ HQ) as (E1 & E2 & E3 & E4). unfold unseen in *. rewrite E1, E2, E3, E4. exact HU. Qed.

Lemma new_key_sound d : sound_if new_keys (in_wallet generate_key) d.
Proof.
  eapply grows_sound; [apply generate_key_grows|]. intros d1 HQ (k & E) [H1 _ _ _] [R1 R2].
  unfold new_ones in R2. cbn [with_world d_world d_log] in R1, R2. rewrite E in R1, R2. rewrite E.
  assert (HE : key_addrs (push_key k d1) = key_addrs (mem d) ++ [k_address k]).
  { rewrite <- (proj1 (quiet_addrs _ _ HQ)). unfold key_addrs. cbn. apply map_app. }
  rewrite HE in R1, R2. apply data_ok_new_key; [|eapply data_ok_quiet; eassumption]. apply (unseen_quiet _ _ _ _ HQ).
  apply NoDup_app in R1 as (_ & N & _). destruct (R2 (k_address k) ltac:(apply elem_of_app; right; left)) as [HX|HX]; [|exact HX].
  exfalso. apply (N _ HX). left.
Qed.

Lemma new_tree_sound h d : sound_if new_trees (in_wallet (generate_mss h)) d.
Proof.
  eapply grows_sound; [apply generate_mss_grows|]. intros d1 HQ (k & E) [H1 _ _ _] R.
  unfold new_trees, new_ones in R. cbn [with_world d_world d_log] in R. rewrite E in R. rewrite E.
  pose proof (proj1 (proj2 (proj2 (quiet_addrs _ _ HQ)))) as EM. pose proof (data_ok_quiet _ _ _ HQ H1) as HK.
  destruct (R (mss_address k)) as [HU|HU].
  { unfold mss_addrs. cbn. rewrite map_app. apply elem_of_app. right. left. }
  - apply data_ok_same_tree; [rewrite EM; exact HU|exact HK].
  - apply data_ok_new_tree; [exact (unseen_quiet _ _ _ _ HQ HU)|exact HK].
Qed.

(** A commit on unsigned coins that no pending commit spends. *)
Definition untouched (d : WalletData) (ids : list hash32) : Prop := forall id, id ∈ ids ->
  (id ∉ in_flight_inputs d) /\ exists c, find_coin d id = Some c /\ wots_signed c = false.

(** [p] was added, past the gate. *)
Definition commits (ins : list hash32) (seeds : list (nat * hash32)) (w : World) (d d' : WalletData) : Prop :=
  w_data w = d /\ exists p, d' = set_pending (pending d ++ [p]) d /\ pc_commitment p = pending_commitment p
    /\ pc_input_coin_ids p ≡ₚ ins /\ pc_change_seeds p = seeds /\ co_spend w ins.

Lemma prepare_commit_grows ins outs seeds privacy cons w :
  grows (commits ins seeds w) w (prepare_commit ins outs seeds privacy cons w).2.
Proof.
  unfold prepare_commit. apply grows_bind; [apply _|]. intros [] w1 E _. unfold reads in E. injection E as _ <-.
  apply grows_bind; [apply _|]. intros [] w1 E _. unfold reads in E. injection E as E <-. apply check_siblings_Ok in E.
  unfold mbind at 1, st_bind at 1, ask at 1. unfold mbind at 1, st_bind at 1, ask at 1. cbv zeta.
  unfold mbind at 1, st_bind at 1, ask at 1. unfold mbind at 1, st_bind at 1, ask at 1. cbv zeta beta.
  unfold mbind at 1, st_bind at 1, update, modify. cbv beta.
  match goal with |- context [on_data ?f ?x] => set (g := f); set (w2 := x) end.
  assert (HG : grows (commits ins seeds w) w (save (on_data g w2)).2).
  { apply grows_save; [split; [apply quiet_refl|auto]|]. split; [reflexivity|]. eexists. split; [reflexivity|].
    split; [reflexivity|]. split; [apply shuffle_perm|]. split; [reflexivity|exact E]. }
  unfold mbind, st_bind. destruct (save (on_data g w2)) as [[u|e|] w3]; exact HG.
Qed.

Lemma prepare_sound ins outs seeds privacy cons d : untouched (mem d) ins ->
  sound_if (fun d d' => new_change d d' \/ seeds = []) (in_wallet (prepare_commit ins outs seeds privacy cons)) d.
Proof.
  intros HU. eapply grows_sound; [apply prepare_commit_grows|]. intros d1 HQ (<- & p & E & EP & EI & ES & HG) [H1 _ H3 _] HR.
  unfold new_change, new_ones in HR. cbn [with_world d_world d_log] in HR. rewrite E in HR. rewrite E.
  assert (HC : change_addrs (set_pending (pending (mem d) ++ [p]) (mem d)) = change_addrs (mem d) ++ change_of p)
    by (unfold change_addrs; cbn; rewrite map_app, concat_app; cbn; rewrite app_nil_r; reflexivity).
  rewrite HC in HR. assert (HN : NoDup (change_of p) /\ forall a, a ∈ change_of p -> unseen (d_log d) (mem d) a).
  { destruct HR as [[N1 N2]| ->].
    - apply NoDup_app in N1 as (_ & N & N1). split; [exact N1|]. intros a Ha.
      destruct (N2 a ltac:(apply elem_of_app; auto)) as [HX|HX]; [destruct (N a HX Ha)|exact HX].
    - unfold change_of. rewrite ES. cbn. split; [constructor|]. intros a Ha. inversion Ha. }
  apply data_ok_commit; [exact EP| | |apply HN|apply HN|exact H1].
  - intros id Hid. apply HU. rewrite <- EI. exact Hid.
  - intros id sib Hid Hs. rewrite EI in *. destruct (HG id sib Hid Hs) as [HX|HX]; [|exact HX].
    rewrite H3 in HX. set_solver.
Qed.

(** ** Sending *)

Lemma spendable_untouched d live : NoDup (map wc_coin_id (coins d)) -> untouched d (spendable_now live d).
Proof.
  intros HN id Hid. unfold spendable_now in Hid. apply list_elem_of_fmap in Hid as (c & -> & Hc).
  apply list_elem_of_filter in Hc as [(H1 & H2 & _) Hc]. split; [exact H2|]. exists c. split; [apply find_coin_In; assumption|exact H1].
Qed.

Lemma untouched_quiet x y ids : quiet x y -> untouched x ids -> untouched y ids.
Proof.
  intros [_ Q2 Q3 _] HU id Hid. unfold in_flight_inputs, find_coin. rewrite Q2, Q3. exact (HU id Hid).
Qed.

Lemma in_wallet_calm {A} (m : WM A) d a d1 : in_wallet m d = (Ok a, d1) -> (m (d_world d)).1 = Ok a.
Proof. unfold in_wallet. destruct (m (d_world d)) as [[x|e|] w]; intros E; inversion E; reflexivity. Qed.

Lemma start_send_sound dest amount private d : sound_if new_change (start_send dest amount private) d.
Proof.
  unfold start_send. apply calm_then; [apply _|apply _|]. intros _ d1 _ _. apply calm_then; [apply _|apply _|]. intros syncing d2 _ _.
  apply calm_then; [apply _|apply _|]. intros _ d3 _ _. apply calm_then; [apply _|apply _|]. intros _ d4 _ _.
  apply calm_then; [apply _|apply _|]. intros [burned live] d5 _ _. apply calm_then; [apply _|apply _|]. intros _ d6 _ _.
  apply calm_then; [apply _|apply _|]. intros data d7 E _. injection E as <- <-.
  apply calm_then; [apply _|apply _|]. intros plan d8 EP HC.
  intros HI.
  assert (HU : untouched (mem d8) (sp_input_coin_ids plan)).
  { pose proof (i_mem _ HI) as [[B1 _ _ _ _ _ _ _] _]. rewrite (q_coins _ _ (c_mem _ _ HC)) in B1.
    apply (untouched_quiet _ _ _ (c_mem _ _ HC)). intros id Hid. apply (spendable_untouched _ live B1).
    unfold in_wallet in EP. destruct (plan_send _ _ _ _ _) as [[x|e|] w] eqn:EX; try discriminate. injection EP as -> _.
    apply plan_send_in in EX. rewrite Forall_forall in EX. apply EX, Hid. }
  revert HI. apply then_calm; [apply _|intros [commitment s]; calm_tac|].
  intros HI HR. apply (prepare_sound _ _ _ _ _ _ HU HI). left. exact HR.
Qed.

#[export] Instance premise_or R (P : Prop) `{!Premise R} : Premise (fun d d' => R d d' \/ P).
Proof. split; intros d d1 d' HC [HR|HP]; auto; left; [eapply pr_before|eapply pr_after]; eassumption. Qed.

(** ** New addresses *)

Lemma sound_if_weaken (R1 R2 : Daemon -> Daemon -> Prop) {A} (m : DM A) d : (forall d', R1 d d' -> R2 d d') -> sound_if R2 m d -> sound_if R1 m d.
Proof. intros HR Hm HI H1. apply (Hm HI), HR, H1. Qed.

Definition fresh_step (d d' : Daemon) : Prop := new_keys d d' /\ new_trees d d' /\ new_change d d'.

Lemma new_address_sound mss d : sound_if fresh_step (new_address mss) d.
Proof.
  apply (sound_if_weaken _ (fun d d' => if mss then new_trees d d' else new_keys d d')); [intros d' (H1 & H2 & _); destruct mss; assumption|].
  unfold new_address. destruct mss; (apply calm_then; [apply _|apply _|]); intros _ d1 _ _; [apply new_tree_sound|apply new_key_sound].
Qed.

End Reveals.
