(* ===== verification/SendsRun.v ===== *)
(** The runs of the daemon, and what holds of the reveals it sends. *)
From Stdlib Require Import Strings.Byte.
From S2P Require Import Prelude Types Wots Mss Transaction Wallet WalletSelect WalletSpend WalletSafe WalletReveal SendPlan Defrag DefragSafe Ledger Sends SendsBook SendsSafe.

#[local] Open Scope Z_scope.

Abbreviation mem d := (w_data (d_world d)).
Abbreviation disk d := (w_disk (d_world d)).

Section Runs.
Context `{HB : Blake3} `{WE : !WalletEnv} `{WL : !WalletEnvLaws} `{NE : !NodeEnv}.

(** ** Scanning *)

(** No address appears that was not there, and the log grows by commits only. *)
Definition absorbs (d d' : Daemon) : Prop :=
  mss_addrs (mem d') = mss_addrs (mem d)
  /\ (forall a, a ∈ key_addrs (mem d') -> a ∈ key_addrs (mem d))
  /\ (forall a, a ∈ coin_addrs (mem d') -> a ∈ coin_addrs (mem d) \/ a ∈ key_addrs (mem d) \/ a ∈ mss_addrs (mem d))
  /\ change_addrs (mem d') = change_addrs (mem d)
  /\ (exists l, d_log d' = d_log d ++ l /\ Forall (fun e => s_pending e = None) l).

Lemma absorbs_unseen d d' a : absorbs d d' -> unseen (d_log d) (mem d) a -> unseen (d_log d') (mem d') a.
Proof.
  intros (A1 & A2 & A3 & A4 & l & A5 & A6) (U1 & U2 & U3 & U4 & U5). unfold unseen. rewrite A1, A4, A5.
  split; [intros HX; exact (U1 (A2 a HX))|]. split; [intros HX; destruct (A3 a HX) as [HY|[HY|HY]]; contradiction|].
  split; [exact U3|]. split; [exact U4|]. intros e He (p & id & c & Ep & HX). apply elem_of_app in He as [He|He].
  - apply (U5 e He). exists p, id, c. auto.
  - rewrite Forall_forall in A6. rewrite (A6 e He) in Ep. discriminate.
Qed.

Lemma calm_absorbs d d' : calm d d' -> absorbs d d'.
Proof.
  intros [C1 _ _ C4]. destruct (quiet_addrs _ _ C1) as (E1 & E2 & E3 & E4). unfold absorbs. rewrite E1, E2, E3, E4.
  repeat (split; [auto|]). exact C4.
Qed.

Lemma absorbs_trans a b c : absorbs a b -> absorbs b c -> absorbs a c.
Proof.
  intros (A1 & A2 & A3 & A4 & la & A5 & A6) (B1 & B2 & B3 & B4 & lb & B5 & B6). split; [congruence|]. split; [auto|].
  split; [|split; [congruence|]].
  - intros x Hx. destruct (B3 x Hx) as [HX|[HX|HX]]; [apply A3, HX|right; left; apply A2, HX|right; right; rewrite <- A1; exact HX].
  - exists (la ++ lb). rewrite B5, A5, app_assoc. split; [reflexivity|]. apply Forall_app. auto.
Qed.

Definition absorbed (d d' : WalletData) : Prop :=
  mss_addrs d' = mss_addrs d /\ (forall a, a ∈ key_addrs d' -> a ∈ key_addrs d)
  /\ (forall a, a ∈ coin_addrs d' -> a ∈ coin_addrs d \/ a ∈ key_addrs d \/ a ∈ mss_addrs d) /\ change_addrs d' = change_addrs d.

Lemma absorbed_import a v s c d : absorbed d (import_scanned a v s c d).2.
Proof.
  assert (HP : forall d1 x, absorbed d d1 -> wc_address x = a -> a ∈ coin_addrs d \/ a ∈ key_addrs d \/ a ∈ mss_addrs d -> absorbed d (push_coin x d1)).
  { intros d1 x (A1 & A2 & A3 & A4) <- HA. split; [exact A1|]. split; [exact A2|]. split; [|exact A4]. intros b Hb.
    unfold coin_addrs, push_coin in Hb. cbn in Hb. rewrite map_app in Hb. apply elem_of_app in Hb as [Hb|Hb]; [apply A3, Hb|].
    apply list_elem_of_singleton in Hb as ->. exact HA. }
  assert (HR : absorbed d d) by (unfold absorbed; auto).
  unfold import_scanned. cbv zeta. destruct (has_coin d _); [exact HR|].
  destruct (list_find _ (keys d)) as [[pos k]|] eqn:EK.
  - apply list_find_Some in EK as (EK & EA & _). cbn [snd]. apply HP; [|reflexivity|].
    + split; [reflexivity|]. split; [|split; [auto|reflexivity]]. intros b Hb. eapply elem_of_submseteq; [exact Hb|].
      apply sublist_submseteq, fmap_sublist, sublist_delete.
    + right. left. rewrite <- EA. apply list_elem_of_fmap_2. eapply list_elem_of_lookup_2, EK.
  - destruct (list_find _ (mss_keys d)) as [[i k]|] eqn:EM.
    + apply list_find_Some in EM as (EM & EA & _). cbn [snd]. apply HP; [exact HR|reflexivity|].
      right. right. rewrite <- EA. apply list_elem_of_fmap_2. eapply list_elem_of_lookup_2, EM.
    + destruct (list_find _ (coins d)) as [[i x]|] eqn:EC; [|exact HR]. apply list_find_Some in EC as (EC & EA & _).
      destruct (_ && _); [exact HR|]. cbn [snd]. apply HP; [exact HR|reflexivity|]. left. rewrite <- EA.
      apply list_elem_of_fmap_2. eapply list_elem_of_lookup_2, EC.
Qed.

Lemma absorbed_found found : forall d, absorbed d (import_found found d).2.
Proof.
  induction found as [|sc found IH]; intros d; cbn [import_found]; [unfold absorbed; auto|].
  pose proof (absorbed_import (sc_address sc) (sc_value sc) (sc_salt sc) None d) as (A1 & A2 & A3 & A4).
  destruct (import_scanned _ _ _ None d) as [id d1]. cbn [snd] in *. specialize (IH d1). destruct (import_found found d1) as [ids d2].
  destruct IH as (B1 & B2 & B3 & B4). cbn [snd] in *. split; [congruence|]. split; [auto|]. split; [|congruence].
  intros x Hx. destruct (B3 x Hx) as [HX|[HX|HX]]; [apply A3, HX|right; left; apply A2, HX|right; right; rewrite <- A1; exact HX].
Qed.

Lemma put_at dd d : (forall log, data_ok log (mem d) -> data_ok log dd) -> sound_at (in_wallet (update (fun _ => dd))) d.
Proof. intros HD [H1 H2 H3 H4]. apply kept_inv. split; cbn; [apply HD, H1|exact H2|exact H3|exact H4]. Qed.

Lemma data_ok_found log found d d' ids : import_found found d = (ids, d') -> data_ok log d -> data_ok log d'.
Proof. intros E HD. pose proof (data_ok_import_found log found d HD) as HF. rewrite E in HF. exact HF. Qed.

#[export] Instance sound_scan_import addrs stop : Sound (scan_import_range addrs stop).
Proof.
  intros d. unfold scan_import_range. destruct (bool_decide _); [apply sound_ret|]. apply bind_at; [apply calm_sound, _|]. intros found d1 _.
  apply bind_at; [apply sound_need|]. intros _ d2 _. apply bind_at; [apply sound_data|]. intros dd d3 E. injection E as <- <-.
  destruct (import_found found (mem d2)) as [ids dd] eqn:EF.
  apply bind_at; [apply put_at; intros log; apply (data_ok_found log _ _ _ _ EF)|]. intros _ d4 _. apply calm_sound. calm_tac.
Qed.

Lemma absorbs_bind {A B} (m : DM A) (f : A -> DM B) d : absorbs d (m d).2 -> (forall a d1, m d = (Ok a, d1) -> absorbs d1 (f a d1).2) ->
  absorbs d ((m ≫= f) d).2.
Proof.
  intros Hm Hf. unfold mbind, st_bind. destruct (m d) as [[a|e|] d1] eqn:E; cbn [snd] in Hm; [|exact Hm..].
  eapply absorbs_trans; [exact Hm|apply (Hf a d1 eq_refl)].
Qed.

Lemma absorbs_calm {A} (m : DM A) d : Calm m -> absorbs d (m d).2.
Proof. intros Hm. apply calm_absorbs, Hm. Qed.

Lemma absorbs_put dd d : absorbed (mem d) dd -> absorbs d (in_wallet (update (fun _ => dd)) d).2.
Proof. intros (A1 & A2 & A3 & A4). cbn. repeat (split; [assumption|]). exists []. rewrite app_nil_r. auto. Qed.

Lemma scan_import_absorbs addrs stop d : absorbs d (scan_import_range addrs stop d).2.
Proof.
  unfold scan_import_range. destruct (bool_decide _); [apply (absorbs_calm _ _ (calm_ret _))|].
  apply absorbs_bind; [apply absorbs_calm, _|]. intros found d1 _. apply absorbs_bind; [apply absorbs_calm, _|]. intros _ d2 _.
  apply absorbs_bind; [apply absorbs_calm, _|]. intros dd d3 E. injection E as <- <-.
  pose proof (absorbed_found found (mem d2)) as HA. destruct (import_found found (mem d2)) as [ids dd]. cbn [snd] in HA.
  apply absorbs_bind; [apply absorbs_put, HA|]. intros _ d4 _. apply absorbs_calm. calm_tac.
Qed.

Lemma quiet_received ids t d : quiet d (record_received ids t d).
Proof. destruct ids; split; reflexivity. Qed.

Lemma scan_same addrs a b d r d' : attempt (scan_addresses addrs a b) d = (r, d') -> mem d' = mem d.
Proof.
  unfold attempt, scan_addresses, node, in_wallet, ask, mbind, st_bind, reads. cbn. destruct (ok_or _ _); intros E; inversion E; reflexivity.
Qed.

#[export] Instance sound_tick : Sound tick.
Proof.
  intros d. unfold tick. apply bind_at; [apply sound_reads|]. intros u d1 _. apply bind_at; [apply calm_sound, _|]. intros [[syncing tip] ts] d2 _.
  apply bind_at; [apply sound_reads|]. intros start d3 _. destruct (_ || _); [apply sound_ret|]. cbv zeta.
  apply bind_at; [apply sound_data|]. intros dd d4 E. injection E as <- <-.
  apply bind_at; [apply calm_sound, _|]. intros [found|] d5 E; [|apply sound_ret]. pose proof (scan_same _ _ _ _ _ _ E) as ES.
  destruct (import_found found (mem d3)) as [ids dd] eqn:EF. rewrite <- ES in EF.
  apply bind_at.
  - apply put_at. intros log HD. eapply data_ok_quiet; [apply quiet_received|eapply data_ok_found; eassumption].
  - intros _ d6 _. apply calm_sound. calm_tac.
Qed.

(** ** Defragmentation *)

Definition ids_of (d : WalletData) (live : list hash32) (bs : list Bundle) : Prop :=
  Forall (fun b => Forall (fun id => exists c, c ∈ spendable d live /\ wc_coin_id c = id) (bu_coin_ids b)) bs.

Lemma ids_of_sub d live bs bs' : (forall b, b ∈ bs' -> b ∈ bs) -> ids_of d live bs -> ids_of d live bs'.
Proof. intros HS HF. apply Forall_forall. intros b Hb. unfold ids_of in HF. rewrite Forall_forall in HF. apply HF, HS, Hb. Qed.

Lemma spendable_bundles_ids order d live inc : ids_of d live (spendable_bundles order d live inc).
Proof.
  unfold spendable_bundles. cbv zeta. set (all := _ ++ _). apply (ids_of_sub _ _ all).
  { intros b Hb. rewrite sort_by_perm in Hb. apply list_elem_of_filter in Hb. apply Hb. }
  unfold all, ids_of. apply Forall_app. split; apply Forall_map, Forall_forall.
  - intros c Hc. cbn. repeat constructor. exists c. split; [|reflexivity]. destruct inc; [apply list_elem_of_filter in Hc; apply Hc|inversion Hc].
  - intros a _. cbn. apply Forall_map, Forall_forall. intros c Hc. apply list_elem_of_filter in Hc as [_ Hc].
    apply list_elem_of_filter in Hc as [_ Hc]. eauto.
Qed.

Lemma choose_sub cap bs : forall chosen n t b, b ∈ (choose cap bs chosen n t).1.1 -> b ∈ chosen \/ b ∈ bs.
Proof.
  induction bs as [|x bs IH]; intros chosen n t b; cbn [choose]; [auto|].
  destruct (Nat.ltb _ _); intros Hb; apply IH in Hb as [Hb|Hb].
  - auto.
  - right. right. exact Hb.
  - apply elem_of_app in Hb as [Hb|Hb]; [auto|]. apply list_elem_of_singleton in Hb as ->. right. left.
  - right. right. exact Hb.
Qed.

Lemma remove_poorest_sub bs : forall w rest, remove_poorest bs = Some (w, rest) -> forall b, b ∈ rest -> b ∈ bs.
Proof.
  induction bs as [|x bs IH]; intros w rest; cbn [remove_poorest]; [discriminate|].
  destruct (remove_poorest bs) as [[y r]|].
  - destruct (_ <=? _); intros [= <- <-] b Hb; [right; exact Hb|]. apply elem_of_cons in Hb as [->|Hb]; [left|right; eapply IH; eauto].
  - intros [= <- <-] b Hb. inversion Hb.
Qed.

Lemma settle_sub fuel p : forall chosen n t bs t' f denoms, settle fuel p chosen n t = Ok (Some (bs, t', f, denoms)) -> forall b, b ∈ bs -> b ∈ chosen.
Proof.
  induction fuel as [|fuel IH]; intros chosen n t bs t' f denoms; cbn [settle]; [discriminate|]. intros HE.
  unfold mbind, res_bind in HE. destruct (resolve_fee _ _ _) as [[[f' ds]|]|e|]; try discriminate.
  - injection HE as <- _ _ _. auto.
  - destruct (Nat.leb _ _); [discriminate|]. destruct (remove_poorest chosen) as [[w rest]|] eqn:ER; [|discriminate].
    cbv zeta in HE. destruct (Nat.ltb _ _); [discriminate|]. intros b Hb. eapply remove_poorest_sub; [exact ER|]. eapply IH; eassumption.
Qed.

Lemma plan_defrag_ids order salts d live dest p n plan : plan_defrag_batch order salts d live dest p n = Ok (Some plan) ->
  forall id, id ∈ input_coin_ids plan -> exists c, c ∈ spendable d live /\ wc_coin_id c = id.
Proof.
  unfold plan_defrag_batch, mbind, res_bind. destruct (bail_if _ _); try discriminate. cbv zeta. destruct (bail_if _ _); try discriminate.
  set (sel := filter _ _). assert (HS : ids_of d live sel).
  { eapply ids_of_sub; [|apply spendable_bundles_ids]. intros b Hb. apply list_elem_of_filter in Hb. apply Hb. }
  destruct (first_choice _ sel) as [[[chosen n_in] total]|] eqn:EC; [|discriminate].
  assert (HC : forall b, b ∈ chosen -> b ∈ sel).
  { unfold first_choice in EC. pose proof (choose_sub (Nat.min n (Z.to_nat MAX_TX_INPUTS)) sel [] 0%nat 0) as HX.
    destruct (choose _ sel [] _ _) as [[ch m] t]. cbn [fst] in HX. destruct (Nat.ltb m 2).
    - destruct (richest _) as [best|] eqn:ER; [|discriminate]. injection EC as <- _ _. intros b Hb. apply list_elem_of_singleton in Hb as ->.
      apply richest_elem in ER. apply list_elem_of_filter in ER. apply ER.
    - injection EC as <- _ _. intros b Hb. destruct (HX b Hb) as [HY|HY]; [inversion HY|exact HY]. }
  destruct (settle _ _ _ _ _) as [[[[[bs t'] f] denoms]|]|e|] eqn:ET; try discriminate.
  destruct (bail_if _ _); try discriminate. intros [= <-] id Hid. cbn in Hid. apply list_elem_of_In, in_concat in Hid as (l & Hl & Hid).
  apply in_map_iff in Hl as (b & <- & Hb). apply list_elem_of_In in Hb, Hid. unfold ids_of in HS. rewrite Forall_forall in HS.
  specialize (HS b (HC b (settle_sub _ _ _ _ _ _ _ _ _ ET b Hb))). rewrite Forall_forall in HS. apply HS, Hid.
Qed.

Lemma plan_defrag_untouched order salts d live dest p n plan : NoDup (map wc_coin_id (coins d)) ->
  plan_defrag_batch order salts d live dest p n = Ok (Some plan) -> untouched d (input_coin_ids plan).
Proof.
  intros HN HE id Hid. destruct (plan_defrag_ids _ _ _ _ _ _ _ _ HE id Hid) as (c & Hc & <-).
  unfold spendable in Hc. apply list_elem_of_filter in Hc as [ES Hc]. unfold spendable_coin in ES.
  rewrite !andb_true_iff, !negb_true_iff in ES. destruct ES as [[[_ E1] _] E2]. apply bool_decide_eq_false in E1.
  split; [exact E1|]. exists c. split; [apply find_coin_In; assumption|exact E2].
Qed.

Lemma absorb_then {A B} (m : DM A) (f : A -> DM B) d : Sound m -> absorbs d (m d).2 ->
  (forall a d1, m d = (Ok a, d1) -> sound_if new_trees (f a) d1) -> sound_if new_trees (m ≫= f) d.
Proof.
  intros Hm HA Hf HI. specialize (Hm d HI). unfold mbind, st_bind. destruct (m d) as [[a|e|] d1]; cbn [snd] in HA.
  - intros HR. apply (Hf a d1 eq_refl); [apply Hm; discriminate|]. intros x Hx. destruct (HR x Hx) as [HX|HX].
    + left. rewrite (proj1 HA). exact HX.
    + right. apply (absorbs_unseen _ _ _ HA HX).
  - intros _. split; [intros _; apply Hm; discriminate|apply Hm].
  - intros _. split; [intros HX; destruct (HX eq_refl)|apply Hm].
Qed.

(** What comes after the tree is made makes no other. *)
Class SameTrees {A} (m : DM A) : Prop := same_trees d : mss_addrs (mem (m d).2) = mss_addrs (mem d).

#[export] Instance same_trees_calm {A} (m : DM A) : Calm m -> SameTrees m.
Proof. intros Hm d. apply (quiet_addrs _ _ (c_mem _ _ (Hm d))). Qed.

#[export] Instance same_trees_bind {A B} (m : DM A) (f : A -> DM B) : SameTrees m -> (forall a, SameTrees (f a)) -> SameTrees (m ≫= f).
Proof.
  intros Hm Hf d. unfold mbind, st_bind. pose proof (Hm d) as H1. destruct (m d) as [[a|e|] d1]; [|exact H1..].
  cbn [snd] in *. rewrite (Hf a d1). exact H1.
Qed.

#[export] Instance same_trees_prepare ins outs seeds privacy cons : SameTrees (in_wallet (prepare_commit ins outs seeds privacy cons)).
Proof.
  intros d. pose proof (prepare_commit_grows ins outs seeds privacy cons (d_world d)) as [_ HG]. unfold in_wallet.
  destruct (prepare_commit _ _ _ _ _ (d_world d)) as [r w]. cbn [snd with_world d_world] in *.
  destruct HG as [[HQ _]|(d1 & _ & (<- & p & -> & _) & _)]; [apply (quiet_addrs _ _ HQ)|reflexivity].
Qed.

Lemma tree_then {A B} (m : DM A) (f : A -> DM B) d : sound_if new_trees m d ->
  (forall a d1, m d = (Ok a, d1) -> sound_at (f a) d1) -> (forall a, SameTrees (f a)) -> sound_if new_trees (m ≫= f) d.
Proof.
  intros Hm Hf Ht HI. specialize (Hm HI). unfold mbind, st_bind. destruct (m d) as [[a|e|] d1]; cbn [snd] in Hm.
  - intros HR. assert (HR1 : new_trees d d1) by (intros x Hx; apply HR; rewrite (Ht a d1); exact Hx).
    apply (Hf a d1 eq_refl). apply (Hm HR1). discriminate.
  - intros HR. destruct (Hm HR) as [K1 K2]. split; [intros _; apply K1; discriminate|exact K2].
  - intros HR. destruct (Hm HR) as [K1 K2]. split; [intros HX; destruct (HX eq_refl)|exact K2].
Qed.

Lemma prepare_no_change ins outs privacy cons d : untouched (mem d) ins -> sound_at (in_wallet (prepare_commit ins outs [] privacy cons)) d.
Proof. intros HU HI. apply (prepare_sound _ _ _ _ _ _ HU HI). right. reflexivity. Qed.

Lemma defrag_sound n d : sound_if new_trees (defrag n) d.
Proof.
  unfold defrag. apply calm_then; [apply _|apply _|]. intros _ d1 _ _. apply calm_then; [apply _|apply _|]. intros syncing d2 _ _.
  apply calm_then; [apply _|apply _|]. intros _ d3 _ _. apply calm_then; [apply _|apply _|]. intros _ d4 _ _.
  apply calm_then; [apply _|apply _|]. intros [live height] d5 _ _. apply calm_then; [apply _|apply _|]. intros dd d6 _ _.
  apply calm_then; [apply _|apply _|]. intros order d7 _ _. cbv zeta. destruct (Nat.ltb _ 2); [intros HI _; apply kept_inv, HI|].
  apply absorb_then; [apply _|apply scan_import_absorbs|]. intros imported d8 _. apply calm_then; [apply _|apply _|]. intros dd2 d9 _ _.
  set (ids := if Nat.ltb 0 imported then _ else _). apply tree_then; [apply new_tree_sound| |].
  - intros dest d10 _. apply bind_at; [apply sound_data|]. intros dd3 d11 E. injection E as <- <-.
    apply bind_at; [apply calm_sound, _|]. intros [order2 salts] d12 E.
    assert (ES : mem d12 = mem d10) by (unfold node, in_wallet, ask in E; cbn in E; injection E as _ _ <-; reflexivity).
    apply bind_at; [apply sound_reads|]. intros r d13 E2. unfold reads in E2.
    destruct (plan_defrag_batch _ _ _ _ _ _ _) as [r'|e|] eqn:EP; try discriminate. injection E2 as -> <-.
    destruct r as [plan|]; [|apply sound_ret]. cbv zeta. intros HI.
    assert (HU : untouched (mem d12) (input_coin_ids plan)).
    { rewrite ES. eapply plan_defrag_untouched; [|exact EP]. rewrite <- ES. apply (b_ids _ (proj1 (i_mem _ HI))). }
    revert HI. apply bind_at; [apply prepare_no_change, HU|]. intros [c s] d14 _. apply calm_sound. calm_tac.
  - intros dest. apply same_trees_bind; [apply _|]. intros dd3. apply same_trees_bind; [apply _|]. intros [order2 salts].
    apply same_trees_bind; [apply _|]. intros [plan|]; [|apply _]. cbv zeta. apply same_trees_bind; [apply _|]. intros [c s].
    apply same_trees_calm. calm_tac.
Qed.

(** * Runs *)

(** The commands of daily use.  Left out are the ones that bring in a key or let one go
    by hand, and the consolidation ([consolidation_reuses_key]). *)
Inductive daily : forall {A}, DM A -> Prop :=
  | daily_send dest amount private : daily (start_send dest amount private)
  | daily_retry c : daily (retry_send c)
  | daily_abandon c : daily (abandon_send c)
  | daily_unlock : daily unlock
  | daily_lock : daily lock
  | daily_new_address mss : daily (new_address mss)
  | daily_rescan h : daily (rescan_from h)
  | daily_defrag n : daily (defrag n)
  | daily_tick : daily tick.

(** A daily step: the addresses a command makes are new to the wallet, and the node, the
    clock, the disk and the moment of a crash are free. *)
Inductive daily_step (d : Daemon) : Daemon -> Prop :=
  | ds_command A (m : DM A) : daily m -> fresh_step d (m d).2 -> daily_step d (perform m d)
  | ds_message msg rest : d_queue d = msg :: rest -> daily_step d (perform (internal msg) (with_queue rest d))
  | ds_task d' : task_step d d' -> daily_step d d'
  | ds_restart : daily_step d (locked_down d).

Definition daily_run : Daemon -> Daemon -> Prop := rtc daily_step.

Lemma daily_sound {A} (m : DM A) d : daily m -> sound_if fresh_step m d.
Proof.
  assert (HS : forall A (m : DM A), Sound m -> sound_if fresh_step m d) by (intros A0 m0 Hm HI _; apply (Hm d HI)).
  intros []; try (apply HS, _).
  - eapply sound_if_weaken; [|apply start_send_sound]. intros d' (_ & _ & HR). exact HR.
  - apply new_address_sound.
  - eapply sound_if_weaken; [|apply defrag_sound]. intros d' (_ & HR & _). exact HR.
Qed.

Lemma locked_down_inv d : disk_inv d -> inv (locked_down d).
Proof. intros [HD HL]. split; cbn; [exact HD|exact HD|reflexivity|exact HL]. Qed.

Lemma perform_inv {A} (m : DM A) d : kept (m d) -> inv (perform m d).
Proof.
  intros [K1 K2]. unfold perform. destruct (m d) as [[a|e|] d']; cbn [fst snd] in *; [apply K1; discriminate..|].
  apply locked_down_inv, K2.
Qed.

Lemma same_inv d d' : d_world d' = d_world d -> d_log d' = d_log d -> inv d -> inv d'.
Proof. intros E1 E2 [H1 H2 H3 H4]. split; rewrite ?E1, ?E2; assumption. Qed.

Lemma daily_step_inv d d' : daily_step d d' -> inv d -> inv d'.
Proof.
  intros HS HI. inversion HS as [A m Hm HF|msg rest HQ|d1 HT|]; subst.
  - apply perform_inv, (daily_sound m d Hm HI HF).
  - apply perform_inv, sound_internal. apply (same_inv d); auto.
  - apply (same_inv d); [destruct HT; reflexivity..|exact HI].
  - apply locked_down_inv, inv_disk, HI.
Qed.

Lemma daily_run_inv d d' : daily_run d d' -> inv d -> inv d'.
Proof. induction 1; eauto using daily_step_inv. Qed.

(** A wallet at rest: nothing is pending, and the keys it has handed out have received
    nothing. *)
Record at_rest (w : World) : Prop := mk_at_rest {
  ar_disk : w_disk w = w_data w;
  ar_spent : known_spent w = ∅;
  ar_pending : pending (w_data w) = [];
  ar_ids : NoDup (map wc_coin_id (coins (w_data w)));
  ar_keys : NoDup (key_addrs (w_data w));
  ar_new : forall a, a ∈ key_addrs (w_data w) -> (a ∉ coin_addrs (w_data w)) /\ (a ∉ mss_addrs (w_data w))
}.

Lemma at_rest_inv w : at_rest w -> inv (new_daemon w).
Proof.
  intros [R1 R2 R3 R4 R5 R6]. assert (HC : change_addrs (w_data w) = []) by (unfold change_addrs; rewrite R3; reflexivity).
  assert (HD : data_ok [] (w_data w)).
  { split; [split|intros e a p He; inversion He]; rewrite ?R3, ?HC.
    - exact R4.
    - intros p Hp. inversion Hp.
    - intros p id Hp. inversion Hp.
    - intros p q Hp. inversion Hp.
    - exact R5.
    - constructor.
    - intros a Ha. destruct (R6 a Ha). repeat (split; [assumption|]). intros HX. inversion HX.
    - intros a Ha. inversion Ha. }
  split; cbn; [exact HD|rewrite R1; exact HD|exact R2|]. split; [constructor|]. intros e1 e2 p1 p2 a H1. inversion H1.
Qed.

End Runs.

Section Main.
Context `{HB : Blake3} `{WE : !WalletEnv} `{WL : !WalletEnvLaws} `{NE : !NodeEnv}.

(** C21: one commitment per one-time key in daily use.  The daemon starts from a wallet at
    rest ([at_rest]: memory as on disk, nothing pending, no coin yet at the keys handed
    out) and is used by the commands of [daily]: sends, sweeps, retries, abandoned sends,
    locks, new addresses, rescans and ticks, with crashes and restarts in any order, any
    answers of the node and any failed writes; the addresses that a command makes are
    new to the wallet ([fresh_step]).  Then two reveals that left the machine and that the
    same one-time address signed spend under the same commitment; and a reveal leaves
    only when its pending commit is on disk together with the mark, on every coin of each
    one-time address it spends from, that the key has signed.  Left out are the commands
    to consolidate, with which a key can sign twice ([consolidation_reuses_key]), to
    import a coin by its seed and to abandon an address. *)
Theorem daemon_signs_once w d : at_rest w -> daily_run (new_daemon w) d ->
  (forall e1 e2 p1 p2 a, e1 ∈ d_log d -> e2 ∈ d_log d -> s_pending e1 = Some p1 -> s_pending e2 = Some p2 ->
     key_signed e1 a -> key_signed e2 a -> pending_commitment p1 = pending_commitment p2)
  /\ (forall e p, e ∈ d_log d -> s_pending e = Some p ->
     w_disk (s_world e) = w_data (s_world e) /\ p ∈ pending (w_disk (s_world e))
     /\ forall a, key_signed e a -> all_signed_at (w_disk (s_world e)) a).
Proof.
  intros HR HD. destruct (i_log _ (daily_run_inv _ _ HD (at_rest_inv w HR))) as [L1 L2]. split; [exact L2|].
  rewrite Forall_forall in L1. intros e p He. apply L1, He.
Qed.

End Main.

(** * A run *)

(** A clock that moves, and a node that takes everything. *)
Definition run_env : WalletEnv := {|
  lock_free _ := true; write_ok _ := true; random t := arr_of 32 (be_bytes 4 (Z.of_nat t)); random64 _ := 0;
  shuffle _ _ l := l; group_order _ l := l; mix_order _ _ l := l; clock t := 100 * Z.of_nat t; checkpoint _ _ := None
|}.

#[export] Instance run_env_laws `{Blake3} : @WalletEnvLaws _ run_env.
Proof. split; [reflexivity..|]. intros. exact I. Qed.

Definition run_node : NodeEnv := {|
  nd_syncing _ := false; nd_coins t _ := Nat.ltb t 100; nd_burned_wots _ _ := false; nd_commitments _ _ := true;
  nd_height _ := 0; nd_timestamp _ := 0; nd_accepts _ _ := true; nd_mss_index _ _ := 0; nd_block _ _ := None;
  nd_mine_pow _ _ := Some 0; side_file_ok _ := true
|}.

(** A wallet with one coin at a one-time address. *)
Definition run_world : World :=
  let d := mkWalletData [] [sweep_coin 1 1 800 None] [] [] [] None 0 0 [] in mkWorld d ∅ d 0 [].

Definition run_start : Daemon := @new_daemon const_blake3 run_world.
Abbreviation run_open := ((@unlock const_blake3 run_env run_node run_start).2).
Abbreviation run_sent := ((@start_send const_blake3 run_env run_node demo_dest 512 false run_open).2).

Lemma daily_performed `{HB : Blake3} `{WE : !WalletEnv} `{NE : !NodeEnv} {A} (m : DM A) d : daily m ->
  match (m d).1 with Panic => False | _ => True end -> fresh_step d (m d).2 -> daily_step d (m d).2.
Proof.
  intros Hm HP HF. assert (E : (m d).2 = perform m d) by (unfold perform; destruct (m d) as [[]]; [reflexivity..|destruct HP]).
  pose proof (ds_command d A m Hm HF) as HS. rewrite <- E in HS. exact HS.
Qed.

Lemma run_sent_state : exists nb a,
  d_tasks run_sent = [WatchCommit demo_dest nb] /\ d_queue run_sent = [] /\ key_addrs (w_data (d_world run_sent)) = []
  /\ @mss_addrs const_blake3 (w_data (d_world run_sent)) = [] /\ change_addrs (w_data (d_world run_sent)) = [a]
  /\ nb <= 100000 /\ a <> wc_address (sweep_coin 1 1 800 None).
Proof.
  do 2 eexists. do 5 (split; [vm_compute; reflexivity|]). split; [vm_compute; discriminate|]. apply (bool_decide_unpack _). vm_compute. exact I.
Qed.

Lemma run_open_state : key_addrs (w_data (d_world run_open)) = [] /\ @mss_addrs const_blake3 (w_data (d_world run_open)) = []
  /\ change_addrs (w_data (d_world run_open)) = []
  /\ coin_addrs (w_data (d_world run_open)) = [wc_address (sweep_coin 1 1 800 None)] /\ d_log run_open = [].
Proof. repeat split; vm_compute; reflexivity. Qed.

Lemma run_sent_runs : @daily_run const_blake3 run_env run_node run_start run_sent.
Proof.
  destruct run_open_state as (K1 & K2 & K3 & K4 & K5). apply (rtc_l _ _ run_open).
  { refine (daily_performed (@unlock const_blake3 run_env run_node) run_start daily_unlock _ _); [vm_compute; exact I|].
    unfold fresh_step, new_keys, new_trees, new_change, new_ones. rewrite K1, K2, K3.
    split; [split; [apply NoDup_nil_2|]|split; [|split; [apply NoDup_nil_2|]]]; intros x Hx; inversion Hx. }
  apply rtc_once. refine (daily_performed (@start_send const_blake3 run_env run_node demo_dest 512 false) run_open (daily_send _ _ _) _ _);
    [vm_compute; exact I|].
  destruct run_sent_state as (nb & a & _ & _ & E3 & E4 & E5 & _ & HA).
  unfold fresh_step, new_keys, new_trees, new_change, new_ones. rewrite E3, E4, E5.
  split; [split; [apply NoDup_nil_2|intros x Hx; inversion Hx]|]. split; [intros x Hx; inversion Hx|]. split; [apply NoDup_singleton|].
  intros x Hx. right. apply list_elem_of_singleton in Hx as ->. unfold unseen.
  rewrite K1, K2, K3, K4, K5. repeat split; try (intros HX; inversion HX; fail).
  - intros HX. apply list_elem_of_singleton in HX. contradiction.
  - intros e He. inversion He.
Qed.

Definition run_reveal (c : hash32) (d : Daemon) : Daemon :=
  perform (@internal const_blake3 run_env run_node (TryReveal c)) (with_queue [] (with_tasks [] d)).

Lemma run_reveal_runs c nb d : d_tasks d = [WatchCommit c nb] -> d_queue d = [] -> nb <= 100000 ->
  @daily_run const_blake3 run_env run_node d (run_reveal c d).
Proof.
  intros E1 E2 HN. pose (d3 := with_tasks ([] ++ WaitDelay c nb :: []) d).
  apply (rtc_l _ _ d3); [apply ds_task, (@step_mined run_env run_node d [] [] c nb 0%nat E1 eq_refl)|].
  pose (d4 := with_tasks ([] ++ []) (with_queue (d_queue d3 ++ [TryReveal c]) d3)).
  apply (rtc_l _ _ d4); [apply ds_task, (@step_ready run_env run_node d3 [] [] c nb 1000%nat eq_refl HN)|].
  replace (run_reveal c d) with (perform (@internal const_blake3 run_env run_node (TryReveal c)) (with_queue [] d4)) by reflexivity.
  apply rtc_once, ds_message. cbn. rewrite E2. reflexivity.
Qed.

Definition one_reveal (d : Daemon) : bool :=
  match d_log d with [_; e] => match s_pending e with Some _ => true | None => false end | _ => false end.

Lemma one_reveal_entry d : one_reveal d = true -> exists e p, e ∈ d_log d /\ s_pending e = Some p.
Proof.
  unfold one_reveal. intros HL. destruct (d_log d) as [|e0 [|e [|e' l]]]; try discriminate. destruct (s_pending e) as [p|] eqn:E; [|discriminate].
  exists e, p. split; [right; left|exact E].
Qed.

Lemma run_reveal_sends : one_reveal (run_reveal demo_dest run_sent) = true.
Proof. vm_compute. reflexivity. Qed.

Lemma run_world_rests : @at_rest const_blake3 run_world.
Proof. split; try reflexivity; [apply NoDup_singleton|constructor|]. intros a Ha. inversion Ha. Qed.

Lemma daemon_signs_once_witness :
  let H := const_blake3 in let E := run_env in let N := run_node in
  at_rest run_world /\ exists d e p, daily_run run_start d /\ e ∈ d_log d /\ s_pending e = Some p /\ p ∈ pending (w_disk (s_world e)).
Proof.
  intros H E N. split; [exact run_world_rests|]. exists (run_reveal demo_dest run_sent).
  destruct (one_reveal_entry (run_reveal demo_dest run_sent) run_reveal_sends) as (e & p & He & Ep). exists e, p.
  assert (HD : daily_run run_start (run_reveal demo_dest run_sent)).
  { etrans; [exact run_sent_runs|]. destruct run_sent_state as (nb & a & E1 & E2 & _ & _ & _ & HN & _). exact (run_reveal_runs _ nb _ E1 E2 HN). }
  split; [exact HD|]. split; [exact He|]. split; [exact Ep|].
  exact (proj1 (proj2 (proj2 (daemon_signs_once run_world _ run_world_rests HD) e p He Ep))).
Defined.
