(* ===== verification/SendsLimits.v ===== *)
(** What the daemon's sends do not guarantee: concrete runs in which a one-time key is put
    under a second commitment, change is lost, coins are stranded, or incoming coins are
    missed. *)
From Stdlib Require Import Strings.Byte.
From S2P Require Import Prelude Types Wots Mss Transaction Wallet WalletSelect WalletSpend WalletSafe WalletReveal SendPlan Defrag DefragSafe Ledger Sends SendsBook SendsSafe SendsRun.

#[local] Open Scope Z_scope.

(** An environment in which the writes at the given times fail, and the checkpoint of a
    tree holds every leaf. *)
Definition faulty_env (ok : nat -> bool) : WalletEnv := {|
  lock_free _ := true; write_ok := ok; random t := arr_of 32 (be_bytes 4 (Z.of_nat t)); random64 _ := 0;
  shuffle _ _ l := l; group_order _ l := l; mix_order _ _ l := l; clock _ := 0;
  checkpoint _ _ := Some (replicate 1024 demo_dest)
|}.

(** A node that knows the commitments [mined] and the blocks [blocks]. *)
Definition node_with (mined : bool) (blocks : list Batch) : NodeEnv := {|
  nd_syncing _ := false; nd_coins _ _ := true; nd_burned_wots _ _ := false; nd_commitments _ _ := mined;
  nd_height _ := len blocks; nd_timestamp _ := 0; nd_accepts _ _ := true; nd_mss_index _ _ := 0;
  nd_block _ h := Some (blocks !! Z.to_nat h); nd_mine_pow _ _ := Some 0; side_file_ok _ := true
|}.

Definition limit_coin (id value : Z) (signed : bool) : WalletCoin :=
  mkWalletCoin (zero_arr 32) (zero_arr 32) (arr_of 32 [x02]) value (zero_arr 32) (arr_of 32 (x03 :: be_bytes 2 id)) signed None.

Definition limit_pending (c : hash32) (ids : list hash32) (change : list (nat * hash32)) : PendingCommit :=
  mkPending c (zero_arr 32) ids [Standard (zero_arr 32) 64 (zero_arr 32); Standard demo_dest 32 (zero_arr 32)] change 0 0 false.

Definition limit_daemon (cs : list WalletCoin) (ps : list PendingCommit) : Daemon :=
  let d := mkWalletData [] cs [] ps [] None 0 0 [] in @new_daemon const_blake3 (mkWorld d ∅ d 0 []).

(** What is left of a daemon's wallet: its pending inputs and its coins' flags, in memory
    and on disk. *)
Definition wallet_view (d : WalletData) : list (list hash32) * list bool := (map pc_input_coin_ids (pending d), map wots_signed (coins d)).

(** Consolidating an address takes coins whose key has signed and that are in flight: the
    key is put under a second commitment. *)
Lemma consolidation_reuses_key :
  let H := const_blake3 in let E := faulty_env (fun _ => true) in let N := node_with true [] in
  let c1 := limit_coin 1 4096 true in let c2 := limit_coin 2 4096 true in
  let ids := [wc_coin_id c1; wc_coin_id c2] in
  let d := with_unlocked true (limit_daemon [c1; c2] [limit_pending (zero_arr 32) ids []]) in
  match consolidate (wc_address c1) d with
  | (Ok _, d) => wallet_view (w_disk (d_world d)) = ([ids; ids], [true; true])
  | _ => False
  end.
Proof. vm_compute. reflexivity. Qed.

(** Restarted before a reveal is confirmed, the daemon takes it for a commit that was never
    mined: the signed send can be abandoned, and the seeds of its change go with it. *)
Lemma restart_loses_change :
  let H := const_blake3 in let E := faulty_env (fun _ => true) in let N := node_with false [] in
  let c1 := limit_coin 1 4096 true in
  let d := limit_daemon [c1] [limit_pending demo_dest [wc_coin_id c1] [(1%nat, zero_arr 32)]] in
  match unlock d with
  | (Ok _, d) => (stage <$> d_sends d !! demo_dest) = Some Stalled
      /\ match abandon_send demo_dest d with
         | (Ok _, d) => wallet_view (w_disk (d_world d)) = ([], [true]) /\ keys (w_disk (d_world d)) = []
         | _ => False
         end
  | _ => False
  end.
Proof. vm_compute. repeat split. Qed.

(** When the write inside [sign_reveal] fails, the pending commit is dropped and the drop is
    written: the coins are marked as signed, and nothing was sent. *)
Lemma failed_write_strands_coins :
  let H := const_blake3 in let E := faulty_env (fun t => negb (Nat.eqb t 1)) in let N := node_with true [] in
  let c1 := limit_coin 1 4096 false in
  let d := with_unlocked true (limit_daemon [c1] [limit_pending demo_dest [wc_coin_id c1] []]) in
  match try_reveal demo_dest d with
  | (Ok _, d) => wallet_view (w_disk (d_world d)) = ([], [true]) /\ d_log d = []
  | _ => False
  end.
Proof. vm_compute. split; reflexivity. Qed.

Definition limit_block (outputs : list OutputData) : Batch :=
  {| b_prev_mirstat := zero_arr 32; b_transactions := [Reveal [] [] outputs (zero_arr 32)];
     b_extension := mkExtension 0 (zero_arr 32); b_coinbase := []; b_timestamp := 0; b_target := zero_arr 32;
     b_state_root := zero_arr 32; b_prev_header_hash := zero_arr 32 |}.

(** The scan moves on, and the new position is written, when the coins it found were not. *)
Lemma tick_loses_coins :
  let H := const_blake3 in let E := faulty_env (fun _ => false) in
  let N := node_with true [limit_block [Standard (wc_address (limit_coin 1 0 false)) 64 (zero_arr 32)]] in
  let d := with_unlocked true (limit_daemon [limit_coin 1 32 false] []) in
  match tick d with
  | (Ok _, d) => length (coins (w_data (d_world d))) = 2%nat /\ length (coins (w_disk (d_world d))) = 1%nat /\ scan_file d = 1
      /\ length (coins (w_data (d_world (locked_down d)))) = 1%nat /\ scan_pos (locked_down d) = 1
  | _ => False
  end.
Proof. vm_compute. repeat split. Qed.

(** A hash that keeps the first bytes. *)
Definition head_blake3 : Blake3 := fun x => arr_of 32 x.

(** The scan takes a confidential output for a coin of value zero under an id that does not
    exist; at a one-time address this coin is a sibling that the real one cannot be spent
    without. *)
Lemma confidential_scan_blocks_address :
  let H := head_blake3 in let E := faulty_env (fun _ => true) in
  let o := Confidential (wc_address (limit_coin 1 0 false)) (zero_arr 32) (zero_arr 32) in
  let N := node_with true [limit_block [o]] in
  let c1 := limit_coin 1 4096 false in
  let d := with_unlocked true (limit_daemon [c1] []) in
  match tick d with
  | (Ok _, d) => exists c, coins (w_data (d_world d)) = [c1; c] /\ output_coin_id o <> Some (wc_coin_id c) /\ wc_value c = 0
      /\ (prepare_commit [wc_coin_id c1] [Standard demo_dest 4000 (zero_arr 32)] [] false false (d_world d)).1 = Err CoSpendViolation
  | _ => False
  end.
Proof.
  intros H E o N c1 d. assert (ET : exists c d', tick d = (Ok (), d') /\ coins (w_data (d_world d')) = [c1; c] /\ output_coin_id o <> Some (wc_coin_id c)
    /\ wc_value c = 0 /\ (prepare_commit [wc_coin_id c1] [Standard demo_dest 4000 (zero_arr 32)] [] false false (d_world d')).1 = Err CoSpendViolation).
  { do 2 eexists. split; [vm_compute; reflexivity|]. split; [reflexivity|]. split; [apply (bool_decide_unpack _); vm_compute; exact I|].
    split; [reflexivity|vm_compute; reflexivity]. }
  destruct ET as (c & d' & -> & E1 & E2 & E3 & E4). exists c. auto.
Qed.
